(* ===== verification/_CoqProject ===== *)
-Q . S2P
Prelude.v
GF.v
Matrix.v
ReedSolomon.v
GoLib.v
Chunker.v
Cdc.v
Placement.v
UrlKey.v
Kv.v
Meta.v
Store.v
StoreProps.v
Wal.v
Replay.v
DataNode.v
Merkle.v
AntiEntropy.v
Scrub.v
Transport.v
Coordinator.v
Gc.v
Election.v
Replicas.v
Rebalance.v
Repair.v
AutoRepair.v
Follower.v
Heartbeat.v
Snapshots.v
Edge.v
EdgeProps.v
EdgeEC.v
EdgeSafety.v
EdgeLive.v
EdgeLocal.v
EdgeTheorems.v
EdgeDelete.v
Jobs.v
Coord.v
CoordTheorems.v
CoordClient.v
ClientTheorems.v
S3Sig.v
S3SigProps.v
S3Sign.v
S3SigTheorems.v
S3Api.v
S3Listing.v
S3.v
S3ListTheorems.v
S3Spec.v
S3Theorems.v
KeyAdmin.v
EdgeJobs.v
EdgeJobsTheorems.v
EdgeDNs.v
EdgeDNTheorems.v
CoordBoot.v
CoordBootTheorems.v
Replicate.v
ReplicateTheorems.v
CoordRepair.v
CoordRepairTheorems.v
GoTime.v
EdgeStart.v
EdgeStartTheorems.v
Cli.v
DaemonStart.v
Mux.v
Routes.v
WireTheorems.v
EdgeStatus.v
GoFmt.v
Metrics.v
Scrapes.v
Flags.v
CliCommands.v
CliCommandsTheorems.v
CliShow.v
