(* ===== verification/Prelude.v ===== *)
(** * kvfs: verification library

    kvfs is a distributed object store.  Edges (internal/edge) take HTTP requests and cut
    bodies into chunks named by their SHA-256; a coordinator (internal/coordinator) places
    the chunks on data nodes (internal/dn) by rendezvous hashing (internal/placement), as
    replicas or as Reed-Solomon shards (internal/reedsolomon); the metadata is in a bbolt
    database (internal/store), the edge's own or that of a coord daemon (internal/coord)
    that elects a leader (internal/election) and replays a log; background jobs collect
    garbage, rebalance, repair and audit.

    ** Files and what they model (paths under src/internal)

    - Foundations: Prelude (results, notations, shared lemmas), GoLib (the parts
      of Go's standard library the program computes with: SHA-256, HMAC, hex, strconv,
      sorting, strings).
    - Erasure code: GF (reedsolomon/gf.go), Matrix (matrix.go), ReedSolomon (rs.go).
    - Bodies: Chunker (chunker/chunker.go, stream.go), Cdc (cdc.go).
    - Placement (placement/placement.go); UrlKey (urlkey/urlkey.go).
    - Metadata: Kv (the interface of bbolt), Meta (records, keys and validation of
      store/store.go), Store (its transactions), StoreProps, Wal and Replay (store/wal.go:
      the log; replaying it), Snapshots (snapshot.go, scheduler.go), Follower
      (edge/replica.go), Replicas (what a change of replicas keeps).
    - Data nodes: DataNode (dn/dn.go), Merkle (merkle.go), Scrub (scrubber.go), Heartbeat
      (heartbeat/heartbeat.go).
    - Calls to data nodes: Transport (the interface the jobs are written against),
      Coordinator (coordinator/coordinator.go, which implements it).
    - Jobs: Gc, Rebalance, Repair (the packages of those names), AntiEntropy and AutoRepair
      (coord/anti_entropy.go), Jobs (what no job changes, what every run keeps).
    - Daemons: Election (election/election.go), Coord, CoordTheorems
      (coord/coord.go), CoordRepair and CoordRepairTheorems (the handlers and tickers of
      coord/anti_entropy.go), CoordBoot and CoordBootTheorems (the start of cmd/kvfs-coord), Edge
      and the Edge* files but those below (the data path of edge/edge.go), CoordClient,
      ClientTheorems (edge/coord_client.go).
    - Replicate, ReplicateTheorems: how a write reaches the peers (election.go, store/wal.go,
      the commit of edge.go and coord.go).
    - S3: S3Sig, S3SigProps, S3Sign and S3SigTheorems (s3api/sigv4.go), S3Api (s3api's routes
      and answers, limits and pages), S3Listing, S3 (the handlers of edge/edge.go),
      S3ListTheorems, S3Spec (the abstract object store), S3Theorems.
    - Administration of an edge: KeyAdmin (URL keys: edge/edge.go,
      edge/urlkey_sync.go, the start of cmd/kvfs-edge), EdgeJobs, EdgeJobsTheorems (maintenance
      runs and the auto-trigger), EdgeDNs, EdgeDNTheorems (the data-node registry), EdgeStart,
      EdgeStartTheorems (the start of cmd/kvfs-edge; GoTime is time.ParseDuration).
    - Routes and requests: Mux (net/http's ServeMux as the servers use it), Routes and
      WireTheorems (the three route tables, the requests each program builds and what the
      handler they reach reads), EdgeStatus (the edge's
      read-only views: edge/edge.go, edge/replica.go, the state of election.go).
    - Metrics: GoFmt (the numbers as printed), Metrics (metrics/metrics.go),
      Scrapes (edge/metrics.go, coord/metrics.go).
    - Other programs: DaemonStart (cmd/kvfs-dn, the tickers of cmd/kvfs-coord), Cli
      (cmd/kvfs-cli: placement-sim, sign, meta snapshot and restore), Flags (the
      flag package), CliCommands and CliCommandsTheorems (every command line of
      cmd/kvfs-cli; Routes has the queries coord/coord.go reads), CliShow (the lines
      printed for rebalance, gc, repair, dns list and wal info).

    ** How state and operations correspond to the code

    A struct is a [Record], a mutating method a function that returns the new state, an
    error a value of the component's error type in [result].  Integers are [Z] with Go's
    wrap-around written out where it can occur.  A lock-protected section is one step;
    concurrency is an order of steps: an argument ([sched]) where the goroutines only
    meet at the end, a step relation where they interact (Wal, Election, AutoRepair, Coord).
    Interfaces of the code are classes with laws: [KV] (bbolt), [ChunkService] (the
    coordinator as the jobs see it), [MetaService] (the metadata as the edge sees it).
    Clients are proved against the laws; Kv, Coordinator, EdgeLocal and CoordClient give instances.
    What the program reads from outside, such as clocks, the outcome of a file operation or
    of a call, and what a peer answers, are arguments of the operations.

    ** What the theorems show

    - End to end (EdgeTheorems, EdgeDelete): a GET never returns bytes other than those
      PUT; bodies survive the loss of nodes up to the quorum or the parity; which PUTs are
      accepted, and that a refused one changes nothing; what DELETE removes.
    - Coding and chunking: any K shards rebuild the data; the optimised encoder is the
      matrix product; readers cut a stream as their reference does.
    - Placement and access: minimal disruption, spread over failure domains, what signature
      is accepted and that rotation keeps issued URLs.
    - Metadata: the store's invariant under every transaction, multipart completion, log
      durability, replay as a refinement, followers, snapshots.
    - Data nodes: every served chunk has its hash; the Merkle root decides the inventory; the
      scrubber reports exactly the rot; the heartbeat's view.
    - Jobs: garbage collection deletes only and all garbage; rebalance, repair and
      anti-entropy lose no chunk and finish what they report.
    - Consensus and the coord daemon: one leader per term; placement follows the registry;
      commits are all or nothing; followers are read only; refusals change nothing; the
      edge's client finds the leader, reads its writes, and is transparent.
    - Replication: an acknowledged write is on a majority of replicas, so every majority
      answers it; what a refused one leaves behind.
    - S3: a signature binds the whole request; the pages of a listing are one listing; any
      history of requests is answered as an abstract object store may.
    - Administration: maintenance runs in any order lose no object; a restart rebuilds the
      signer and the placement; a poll brings the signer to the coord daemon's keys; an edge
      that starts is consistently configured, and starts again as the same edge.
    - The tool: the simulation moves exactly the chunks it must; a restore keeps a copy of the
      database; however a command line is written, its request is answered by the handler of
      that command, which reads what was written.
    - Routes: an object's URL reaches that object's handler however its bucket and key are
      escaped; every call to a data node reaches the handler it is meant for.
    - Metrics: a scraped page is a function of the calls recorded, whatever the interleaving of
      their atomic steps; histogram buckets are cumulative.

    ** Fuel and bounds

    Loops that are not structural take fuel; where the caller chooses it, a theorem or the
    caller's definition shows it is enough: reading a body takes at most one step per byte
    and one more ([body_fuel]), a fresh upload id is looked for as often as the code does,
    the worker pool's runs are proved to end, and so does every repair request.  Words are
    64 bits ([i64], [u64]); the fraction of a duration is binary64, as SpecFloat computes it.

    ** What is not modelled

    HTTP, JSON, XML and TLS are values already decoded or encoded (the path and the query of
    a URL are modelled); the tables cmd/kvfs-cli prints for meta, heartbeat, role, urlkey and
    auto, which depend on the clock and on padding; listeners and signals of the daemons; log
    output; bbolt itself ([KV] states what is relied on); tickers (what a tick does is a
    step); recycling of buffers; cancellation of requests.  Liveness of the
    election is not stated: it depends on timers. *)
From Stdlib Require Export ZArith NArith Lia List Bool.
From stdpp Require Export base tactics numbers list gmap sets strings sorting.
Export ListNotations.

(** ** Results of fallible code

    A Go function returning [(T, error)] is modelled as [result E T]; the error
    type [E] is the component's own enumeration of the errors it returns. *)
Inductive result (E T : Type) : Type := Ok (t : T) | Err (e : E).
Arguments Err {E T} e.
Arguments Ok {E T} t.

Definition rbind {E T U} (m : result E T) (k : T → result E U) : result E U :=
  match m with Ok t => k t | Err e => Err e end.

Definition is_ok {E T} (m : result E T) : bool :=
  match m with Ok _ => true | Err _ => false end.

Declare Scope kvfs_scope.
Delimit Scope kvfs_scope with kvfs.
Notation "x ←? m ; k" := (rbind m (λ x, k))
  (at level 20, m at level 100, k at level 200, right associativity) : kvfs_scope.
Notation "' p ←? m ; k" := (rbind m (λ x, match x with p => k end))
  (at level 20, p pattern, m at level 100, k at level 200, right associativity) : kvfs_scope.
#[global] Open Scope kvfs_scope.

Lemma rbind_ok {E T U} (m : result E T) (k : T → result E U) u :
  rbind m k = Ok u → ∃ t, m = Ok t ∧ k t = Ok u.
Proof. destruct m; simpl; [eauto | discriminate]. Qed.

Lemma rbind_err {E T U} (m : result E T) (k : T → result E U) e :
  rbind m k = Err e → m = Err e ∨ ∃ t, m = Ok t ∧ k t = Err e.
Proof. destruct m; simpl; [eauto | intros [= ->]; auto]. Qed.

Lemma is_ok_true {E T} (m : result E T) : is_ok m = true ↔ ∃ t, m = Ok t.
Proof. destruct m; simpl; split; intros H; try done; [eauto | by destruct H]. Qed.

(** [inv_ok] takes apart a hypothesis that a chain of binds succeeded. *)
Ltac inv_ok :=
  repeat match goal with
  | H : rbind _ _ = Ok _ |- _ => apply rbind_ok in H as (? & ? & ?)
  | H : Ok ?a = Ok ?b |- _ => injection H as H; first [subst b | subst a | idtac]
  | H : Err _ = Ok _ |- _ => discriminate H
  | H : Ok _ = Err _ |- _ => discriminate H
  end.

(** A decidable closed fact, by evaluating its decision procedure. *)
Ltac by_decide := apply (bool_decide_eq_true_1 _); vm_compute; reflexivity.

(** ** Counting loops

    [for i := lo; i < lo+n; i++ { s = body(s, i) }] is a left fold over
    [seq lo n]; the loop with an early error return is [for_err]. *)
Definition for_range {St} (lo n : nat) (body : St → nat → St) (s : St) : St :=
  foldl body s (seq lo n).

Fixpoint for_err {E St} (l : list nat) (body : St → nat → result E St) (s : St) : result E St :=
  match l with
  | [] => Ok s
  | i :: l => rbind (body s i) (for_err l body)
  end.

(** Loop invariant rules. *)
Lemma for_range_ind {St} (P : nat → St → Prop) lo n body (s : St) :
  P lo s →
  (∀ i s, lo ≤ i < lo + n → P i s → P (i + 1) (body s i)) →
  P (lo + n) (for_range lo n body s).
Proof.
  unfold for_range. revert lo s. induction n as [|n IH]; intros lo s H0 Hs; simpl.
  - by rewrite Nat.add_0_r.
  - replace (lo + S n) with (S lo + n) by lia. apply IH.
    + replace (S lo) with (lo + 1) by lia. apply Hs; [lia | done].
    + intros i s' Hi. apply Hs; lia.
Qed.

Lemma for_range_0_ind {St} (P : nat → St → Prop) n body (s : St) :
  P 0 s → (∀ i s, i < n → P i s → P (S i) (body s i)) → P n (for_range 0 n body s).
Proof.
  intros H0 Hs. apply (for_range_ind P 0 n body s); [done|].
  intros i s' Hi Hp. replace (i + 1) with (S i) by lia. apply Hs; [lia | done].
Qed.

Lemma for_err_ind {E St} (P : nat → St → Prop) lo n (body : St → nat → result E St) (s s' : St) :
  P lo s →
  (∀ i s s', lo ≤ i < lo + n → P i s → body s i = Ok s' → P (i + 1) s') →
  for_err (seq lo n) body s = Ok s' → P (lo + n) s'.
Proof.
  revert lo s. induction n as [|n IH]; intros lo s H0 Hs Hr; simpl in *.
  - inv_ok. by rewrite Nat.add_0_r.
  - apply rbind_ok in Hr as (s1 & Hb & Hr).
    replace (lo + S n) with (S lo + n) by lia. eapply IH; [| |exact Hr].
    + replace (S lo) with (lo + 1) by lia. eapply Hs; [lia | done | done].
    + intros i s2 s3 Hi. apply Hs; lia.
Qed.

(** A loop whose body never fails under the invariant does not fail. *)
Lemma for_err_total {E St} (P : nat → St → Prop) lo n (body : St → nat → result E St) (s : St) :
  P lo s →
  (∀ i s, lo ≤ i < lo + n → P i s → ∃ s', body s i = Ok s' ∧ P (i + 1) s') →
  ∃ s', for_err (seq lo n) body s = Ok s' ∧ P (lo + n) s'.
Proof.
  revert lo s. induction n as [|n IH]; intros lo s H0 Hs; simpl.
  - exists s. by rewrite Nat.add_0_r.
  - destruct (Hs lo s) as (s1 & -> & H1); [lia | done |]. simpl.
    destruct (IH (S lo) s1) as (s2 & H2 & H3).
    + by replace (S lo) with (lo + 1) by lia.
    + intros i s3 Hi. apply Hs; lia.
    + exists s2. split; [done|]. by replace (lo + S n) with (S lo + n) by lia.
Qed.

(** Where a loop fails, one iteration failed in a state the invariant holds of. *)
Lemma for_err_fails {E St} (P : nat → St → Prop) lo n (body : St → nat → result E St) (s : St) e :
  P lo s →
  (∀ i s s', lo ≤ i < lo + n → P i s → body s i = Ok s' → P (i + 1) s') →
  for_err (seq lo n) body s = Err e →
  ∃ i s', lo ≤ i < lo + n ∧ P i s' ∧ body s' i = Err e.
Proof.
  revert lo s. induction n as [|n IH]; intros lo s H0 Hs Hr; simpl in *; [done|].
  destruct (body s lo) as [s1|e1] eqn:Hb; simpl in Hr.
  - destruct (IH (S lo) s1) as (i & s2 & Hi & H2 & H3).
    + replace (S lo) with (lo + 1) by lia. eapply Hs; [lia | done | done].
    + intros i s3 s4 Hi. apply Hs; lia.
    + done.
    + exists i, s2. split_and!; [lia | lia | done | done].
  - simplify_eq. exists lo, s. split_and!; [lia | lia | done | done].
Qed.

(** ** Hint databases

    [gfmat]: shapes of matrices;  [kvfs]: the remaining components. *)
Create HintDb gfmat.
Create HintDb kvfs.
Create Rewrite HintDb gostr.

(** ** Lists *)
Lemma lookup_total_insert_list {A} `{Inhabited A} (l : list A) i j x :
  i < length l → <[i:=x]> l !!! j = if decide (j = i) then x else l !!! j.
Proof.
  intros Hi. rewrite !list_lookup_total_alt. case_decide; subst.
  - by rewrite list_lookup_insert_eq.
  - by rewrite list_lookup_insert_ne.
Qed.

Lemma filter_all {A} (P : A → Prop) `{∀ x, Decision (P x)} (l : list A) :
  (∀ x, x ∈ l → P x) → filter P l = l.
Proof.
  induction l as [|x l IH]; intros Hl; [done|].
  rewrite filter_cons_True by (apply Hl; by left). f_equal.
  apply IH. intros y Hy. apply Hl. by right.
Qed.

Lemma elem_of_take_weaken {A} (x : A) n l : x ∈ take n l → x ∈ l.
Proof. intros H. rewrite <- (take_drop n l). apply elem_of_app. by left. Qed.

Lemma filter_none {A} (P : A → Prop) `{∀ x, Decision (P x)} (l : list A) :
  (∀ x, x ∈ l → ¬ P x) → filter P l = [].
Proof.
  induction l as [|x l IH]; intros Hl; [done|].
  rewrite filter_cons_False by (apply Hl; by left).
  apply IH. intros y Hy. apply Hl. by right.
Qed.

Lemma omap_cons {A B} (f : A → option B) x l :
  omap f (x :: l) = match f x with Some y => y :: omap f l | None => omap f l end.
Proof. done. Qed.
Lemma bind_ext_in {A B} (f g : A → list B) l : (∀ x, x ∈ l → f x = g x) → l ≫= f = l ≫= g.
Proof.
  induction l as [|x l IH]; intros Hfg; [done|]. rewrite !bind_cons. f_equal.
  - apply Hfg. by left.
  - apply IH. intros y Hy. apply Hfg. by right.
Qed.

Lemma NoDup_omap_inj {A B} (f : A → option B) l :
  (∀ x y z, x ∈ l → y ∈ l → f x = Some z → f y = Some z → x = y) → NoDup l → NoDup (omap f l).
Proof.
  intros Hf Hl. induction Hl as [|x l Hx _ IH]; [constructor|].
  assert (NoDup (omap f l)) as Hl by (apply IH; intros a b c Ha Hb; apply Hf; by right).
  rewrite omap_cons. destruct (f x) as [z|] eqn:E; [|done]. constructor; [|done].
  intros (y & Hy & Ey)%list_elem_of_omap.
  by rewrite (Hf x y z (list_elem_of_here _ _) (list_elem_of_further _ _ _ Hy) E Ey) in Hx.
Qed.
