(* ===== verification/GF.v ===== *)
(** * The field GF(2^8) of internal/reedsolomon/gf.go

    Bytes are [Byte.byte]; the log/exp tables are computed by the code's own
    [init] loop; the arithmetic is the table arithmetic of the code.  The file
    proves that it is a field and that the product is the carry-less product
    modulo the polynomial 0x11d. *)
From S2P Require Import Prelude.
From Stdlib Require Import Strings.Byte Ring.
Local Open Scope N_scope.

#[export] Instance byte_inhabited : Inhabited byte := populate x00.
#[export] Instance byte_eq_dec : EqDecision byte.
Proof. intros a b. destruct (Byte.eqb a b) eqn:E; [left|right].
  - by apply Byte.byte_dec_bl. - intros ->. by rewrite Byte.byte_dec_lb in E. Defined.

(** [byte(n)]: conversion to an 8-bit integer, which drops the high bits. *)
Definition to_byte (n : N) : byte := default x00 (Byte.of_N (n mod 256)).

Lemma to_N_lt (b : byte) : Byte.to_N b < 256.
Proof. pose proof (Byte.to_N_bounded b). lia. Qed.

Lemma to_N_to_byte n : Byte.to_N (to_byte n) = n mod 256.
Proof.
  unfold to_byte. assert (n mod 256 < 256) as H by (apply N.mod_lt; lia).
  destruct (Byte.of_N (n mod 256)) as [b|] eqn:E; simpl.
  - by apply Byte.to_of_N.
  - apply Byte.of_N_None_iff in E. lia.
Qed.

Lemma to_byte_to_N b : to_byte (Byte.to_N b) = b.
Proof.
  unfold to_byte. rewrite N.mod_small by apply to_N_lt. by rewrite Byte.of_to_N.
Qed.

Lemma to_N_inj a b : Byte.to_N a = Byte.to_N b → a = b.
Proof. intros E. rewrite <- (to_byte_to_N a), <- (to_byte_to_N b). by rewrite E. Qed.

(** Checking a decidable property of every byte. *)
Definition all_bytes : list byte := (λ n, to_byte (N.of_nat n)) <$> seq 0 256.

Lemma all_bytes_complete b : In b all_bytes.
Proof.
  unfold all_bytes. apply in_map_iff. exists (N.to_nat (Byte.to_N b)).
  split; [by rewrite N2Nat.id, to_byte_to_N|].
  apply in_seq. pose proof (to_N_lt b). lia.
Qed.

Lemma forall_bytes (p : byte → bool) : forallb p all_bytes = true → ∀ b, p b = true.
Proof. intros H b. by apply (proj1 (forallb_forall p _) H), all_bytes_complete. Qed.

(** ** gf.go *)

Definition primitivePoly : N := 0x11d.

(** One iteration of the first loop of [init]: record [exp[i] = x],
    [log[x] = i], then multiply [x] by alpha = 2. *)
Definition mulAlpha (x : byte) : byte :=
  let hi := N.land (Byte.to_N x) 0x80 in
  let x := to_byte (N.shiftl (Byte.to_N x) 1) in
  if N.eqb hi 0 then x
  else to_byte (N.lxor (Byte.to_N x) (N.land primitivePoly 0xff)).

Definition init_step (st : byte * list byte * list byte) (i : nat)
    : byte * list byte * list byte :=
  let '(x, gfExp, gfLog) := st in
  (mulAlpha x, <[i := x]> gfExp,
   <[N.to_nat (Byte.to_N x) := to_byte (N.of_nat i)]> gfLog).

Definition gf_init : list byte * list byte :=
  let '(_, gfExp, gfLog) :=
    for_range 0 255 init_step (x01, replicate 512 x00, replicate 256 x00) in
  (for_range 255 257 (λ e i, <[i := e !!! (i - 255)%nat]> e) gfExp, gfLog).

(** The tables after [init] has run. *)
Definition gfExp : list byte := Eval vm_compute in gf_init.1.
Definition gfLog : list byte := Eval vm_compute in gf_init.2.

Definition log_of (a : byte) : nat :=
  N.to_nat (Byte.to_N (gfLog !!! N.to_nat (Byte.to_N a))).

Definition gfAdd (a b : byte) : byte := to_byte (N.lxor (Byte.to_N a) (Byte.to_N b)).

Definition gfMul (a b : byte) : byte :=
  if bool_decide (a = x00) || bool_decide (b = x00) then x00
  else gfExp !!! (log_of a + log_of b)%nat.

(** [None] is the panic on a zero divisor. *)
Definition gfDiv (a b : byte) : option byte :=
  if bool_decide (b = x00) then None
  else if bool_decide (a = x00) then Some x00
  else Some (gfExp !!! (log_of a + 255 - log_of b)%nat).

Definition gfPow (a : byte) (n : nat) : byte :=
  if bool_decide (a = x00) then (if bool_decide (n = 0)%nat then x01 else x00)
  else gfExp !!! ((log_of a * n) mod 255)%nat.

Definition gfInv (a : byte) : option byte := gfDiv x01 a.

(** ** Facts about the tables, by running over them *)
Local Open Scope nat_scope.

Lemma forall_lt (p : nat → bool) n : forallb p (seq 0 n) = true → ∀ i, i < n → p i = true.
Proof. intros H i Hi. apply (proj1 (forallb_forall p _) H), in_seq. lia. Qed.

Lemma gf_tables_init : gf_init = (gfExp, gfLog).
Proof. vm_compute. reflexivity. Qed.

Lemma gf_table_lengths : length gfExp = 512 ∧ length gfLog = 256.
Proof. split; reflexivity. Qed.

Definition bool_imp (p q : bool) : bool := negb p || q.
Lemma bool_imp_elim p q : bool_imp p q = true → p = true → q = true.
Proof. by destruct p, q. Qed.

Lemma log_lt a : a ≠ x00 → log_of a < 255.
Proof.
  intros Ha. apply Nat.ltb_lt.
  refine (bool_imp_elim (bool_decide (a ≠ x00)) _ _ _); [|by apply bool_decide_eq_true_2].
  revert a Ha. refine (λ a _, forall_bytes
    (λ a, bool_imp (bool_decide (a ≠ x00)) (log_of a <? 255)) _ a). vm_compute. reflexivity.
Qed.

Lemma exp_log a : a ≠ x00 → gfExp !!! log_of a = a.
Proof.
  intros Ha. apply (bool_decide_eq_true_1 _).
  refine (bool_imp_elim (bool_decide (a ≠ x00)) _ _ _); [|by apply bool_decide_eq_true_2].
  refine (forall_bytes (λ a, bool_imp (bool_decide (a ≠ x00))
    (bool_decide (gfExp !!! log_of a = a))) _ a). vm_compute. reflexivity.
Qed.

Lemma log_exp i : i < 255 → log_of (gfExp !!! i) = i.
Proof.
  intros Hi. apply Nat.eqb_eq.
  refine (forall_lt (λ i, log_of (gfExp !!! i) =? i) 255 _ i Hi). vm_compute. reflexivity.
Qed.

Lemma exp_nonzero i : i < 512 → gfExp !!! i ≠ x00.
Proof.
  intros Hi. apply (bool_decide_eq_true_1 _).
  refine (forall_lt (λ i, bool_decide (gfExp !!! i ≠ x00)) 512 _ i Hi).
  vm_compute. reflexivity.
Qed.

Lemma exp_wrap i : i < 510 → gfExp !!! i = gfExp !!! (i mod 255).
Proof.
  intros Hi. apply (bool_decide_eq_true_1 _).
  refine (forall_lt (λ i, bool_decide (gfExp !!! i = gfExp !!! (i mod 255))) 510 _ i Hi).
  vm_compute. reflexivity.
Qed.

Lemma exp_step i : i < 255 → mulAlpha (gfExp !!! i) = gfExp !!! (i + 1).
Proof.
  intros Hi. apply (bool_decide_eq_true_1 _).
  refine (forall_lt (λ i, bool_decide (mulAlpha (gfExp !!! i) = gfExp !!! (i + 1))) 255 _ i Hi).
  vm_compute. reflexivity.
Qed.

(** The powers of alpha as a cyclic group of order 255: every product below is
    read off here. *)
Definition alpha (k : nat) : byte := gfExp !!! (k mod 255).

Lemma alpha_log a : a ≠ x00 → a = alpha (log_of a).
Proof.
  intros Ha. unfold alpha. rewrite Nat.mod_small by by apply log_lt. by rewrite exp_log.
Qed.

Lemma alpha_nonzero k : alpha k ≠ x00.
Proof. apply exp_nonzero. pose proof (Nat.mod_upper_bound k 255). lia. Qed.

Lemma log_alpha k : log_of (alpha k) = k mod 255.
Proof. apply log_exp. apply Nat.mod_upper_bound. lia. Qed.

Lemma alpha_mod k : alpha (k mod 255) = alpha k.
Proof. unfold alpha. by rewrite Nat.Div0.mod_mod. Qed.

Lemma alpha_period k : alpha (k + 255) = alpha k.
Proof.
  rewrite <- alpha_mod. replace (k + 255) with (k + 1 * 255) by lia.
  by rewrite Nat.Div0.mod_add, alpha_mod.
Qed.

Lemma exp_alpha i : i < 510 → gfExp !!! i = alpha i.
Proof. intros Hi. unfold alpha. by apply exp_wrap. Qed.

(** Case analysis on a byte: zero, or a power of alpha. *)
Lemma byte_cases a : a = x00 ∨ ∃ k, k < 255 ∧ a = alpha k.
Proof.
  destruct (decide (a = x00)) as [|Ha]; [by left|right].
  exists (log_of a). split; [by apply log_lt | by apply alpha_log].
Qed.

Ltac byte_case a :=
  let k := fresh "k" in let Hk := fresh "Hk" in
  destruct (byte_cases a) as [->|(k & Hk & ->)].

Lemma gfMul_0_l b : gfMul x00 b = x00.
Proof. reflexivity. Qed.
Lemma gfMul_0_r a : gfMul a x00 = x00.
Proof. unfold gfMul. by rewrite orb_comm. Qed.

Lemma gfMul_alpha i j : gfMul (alpha i) (alpha j) = alpha (i + j).
Proof.
  unfold gfMul.
  rewrite !bool_decide_false by apply alpha_nonzero. simpl.
  rewrite !log_alpha. pose proof (Nat.mod_upper_bound i 255).
  pose proof (Nat.mod_upper_bound j 255).
  rewrite exp_alpha by lia. rewrite <- alpha_mod.
  by rewrite <- Nat.Div0.add_mod, alpha_mod.
Qed.

Lemma alpha_0 : alpha 0 = x01.
Proof. reflexivity. Qed.

Lemma mulAlpha_alpha k : mulAlpha (alpha k) = alpha (k + 1).
Proof.
  unfold alpha at 1. pose proof (Nat.mod_upper_bound k 255).
  rewrite exp_step by lia. rewrite exp_alpha by lia.
  rewrite <- (alpha_mod (k + 1)), Nat.Div0.add_mod, alpha_mod.
  by rewrite (Nat.mod_small 1 255) by lia.
Qed.

(** ** Addition *)
Lemma lxor_mod256 a b : ((N.lxor a b) mod 256 = N.lxor (a mod 256) (b mod 256))%N.
Proof.
  change 256%N with (2 ^ 8)%N. rewrite <- !N.land_ones. apply N.bits_inj. intros i.
  rewrite !N.lxor_spec, !N.land_spec, N.lxor_spec.
  by destruct (N.testbit a i), (N.testbit b i), (N.testbit (N.ones 8) i).
Qed.

Lemma to_N_gfAdd a b : Byte.to_N (gfAdd a b) = N.lxor (Byte.to_N a) (Byte.to_N b).
Proof.
  unfold gfAdd. rewrite to_N_to_byte, lxor_mod256, !N.mod_small; try apply to_N_lt. done.
Qed.

Lemma gfAdd_comm a b : gfAdd a b = gfAdd b a.
Proof. apply to_N_inj. by rewrite !to_N_gfAdd, N.lxor_comm. Qed.
Lemma gfAdd_assoc a b c : gfAdd a (gfAdd b c) = gfAdd (gfAdd a b) c.
Proof. apply to_N_inj. by rewrite !to_N_gfAdd, N.lxor_assoc. Qed.
Lemma gfAdd_0_l a : gfAdd x00 a = a.
Proof. apply to_N_inj. by rewrite to_N_gfAdd, N.lxor_0_l. Qed.
Lemma gfAdd_0_r a : gfAdd a x00 = a.
Proof. by rewrite gfAdd_comm, gfAdd_0_l. Qed.
Lemma gfAdd_self a : gfAdd a a = x00.
Proof. apply to_N_inj. by rewrite to_N_gfAdd, N.lxor_nilpotent. Qed.

Lemma gfAdd_cancel a b : gfAdd a b = x00 → a = b.
Proof.
  intros H. rewrite <- (gfAdd_0_l b), <- (gfAdd_self a), <- gfAdd_assoc, H.
  by rewrite gfAdd_0_r.
Qed.

(** ** Multiplication by alpha is linear, hence multiplication distributes *)
Lemma mulAlpha_bits a :
  mulAlpha a = to_byte (N.lxor (N.shiftl (Byte.to_N a) 1)
                               (if N.testbit (Byte.to_N a) 7 then 0x1d else 0)).
Proof.
  apply (bool_decide_eq_true_1 _).
  refine (forall_bytes (λ a, bool_decide (mulAlpha a =
    to_byte (N.lxor (N.shiftl (Byte.to_N a) 1)
                    (if N.testbit (Byte.to_N a) 7 then 0x1d else 0)))) _ a).
  vm_compute. reflexivity.
Qed.

Lemma mulAlpha_linear a b : mulAlpha (gfAdd a b) = gfAdd (mulAlpha a) (mulAlpha b).
Proof.
  rewrite !mulAlpha_bits. apply to_N_inj. rewrite !to_N_gfAdd, !to_N_to_byte, ?to_N_gfAdd.
  rewrite <- lxor_mod256. f_equal. generalize 29%N as c. intros c.
  apply N.bits_inj. intros i. rewrite N.shiftl_lxor, !N.lxor_spec.
  destruct (N.testbit (Byte.to_N a) 7), (N.testbit (Byte.to_N b) 7); cbn [xorb];
    rewrite ?N.lxor_spec, ?N.bits_0;
    destruct (N.testbit (N.shiftl (Byte.to_N a) 1) i),
      (N.testbit (N.shiftl (Byte.to_N b) 1) i), (N.testbit c i); reflexivity.
Qed.

Lemma gfMul_iter k b : gfMul (alpha k) b = Nat.iter k mulAlpha b.
Proof.
  revert b. induction k as [|k IH]; intros b; simpl.
  - rewrite alpha_0. byte_case b; [done|]. rewrite <- alpha_0, gfMul_alpha. done.
  - rewrite <- IH. byte_case b.
    + rewrite !gfMul_0_r. reflexivity.
    + rewrite !gfMul_alpha, mulAlpha_alpha. f_equal. lia.
Qed.

Lemma gfMul_comm a b : gfMul a b = gfMul b a.
Proof.
  byte_case a; [by rewrite gfMul_0_l, gfMul_0_r|].
  byte_case b; [by rewrite gfMul_0_l, gfMul_0_r|].
  rewrite !gfMul_alpha. f_equal. lia.
Qed.

Lemma gfMul_assoc a b c : gfMul a (gfMul b c) = gfMul (gfMul a b) c.
Proof.
  byte_case a; [done|]. byte_case b; [by rewrite gfMul_0_l, gfMul_0_r|].
  byte_case c; [by rewrite !gfMul_0_r|]. rewrite !gfMul_alpha. f_equal. lia.
Qed.

Lemma gfMul_1_l a : gfMul x01 a = a.
Proof. rewrite <- alpha_0. byte_case a; [done|]. by rewrite gfMul_alpha. Qed.
Lemma gfMul_1_r a : gfMul a x01 = a.
Proof. by rewrite gfMul_comm, gfMul_1_l. Qed.

Lemma gfMul_add_r a b c : gfMul a (gfAdd b c) = gfAdd (gfMul a b) (gfMul a c).
Proof.
  byte_case a; [done|]. rewrite !gfMul_iter.
  clear Hk. induction k as [|k IH]; simpl; [done|]. by rewrite IH, mulAlpha_linear.
Qed.

Lemma gfMul_add_l a b c : gfMul (gfAdd a b) c = gfAdd (gfMul a c) (gfMul b c).
Proof. rewrite !(gfMul_comm _ c). apply gfMul_add_r. Qed.

Lemma gfMul_nonzero a b : a ≠ x00 → b ≠ x00 → gfMul a b ≠ x00.
Proof.
  intros Ha Hb. rewrite (alpha_log a), (alpha_log b), gfMul_alpha by done.
  apply alpha_nonzero.
Qed.

Lemma gfMul_zero a b : gfMul a b = x00 → a = x00 ∨ b = x00.
Proof.
  destruct (decide (a = x00)), (decide (b = x00)); auto.
  intros H. by destruct (gfMul_nonzero a b).
Qed.

(** Characteristic two: subtraction is addition and negation the identity. *)
Lemma gf_ring_theory :
  ring_theory x00 x01 gfAdd gfMul gfAdd (λ a, a) (@eq byte).
Proof.
  constructor; auto using gfAdd_0_l, gfAdd_comm, gfAdd_assoc, gfMul_1_l, gfMul_comm,
    gfMul_assoc, gfMul_add_l, gfAdd_self.
Qed.

(** [ring] with coefficients in GF(2), so that it knows [a + a = 0]. *)
Definition gf_of_bool (b : bool) : byte := if b then x01 else x00.

Lemma gf_ring_morph :
  ring_morph x00 x01 gfAdd gfMul gfAdd (λ a, a) (@eq byte)
    false true xorb andb xorb (λ b, b) Bool.eqb gf_of_bool.
Proof.
  constructor; try done; try (intros [] []; reflexivity).
  intros x y E. by apply Bool.eqb_prop in E as ->.
Qed.
Add Ring gf_ring : gf_ring_theory (morphism gf_ring_morph).

Lemma gfDiv_alpha i j : gfDiv (alpha i) (alpha j) = Some (alpha (i + 255 - j mod 255)).
Proof.
  unfold gfDiv. rewrite !bool_decide_false by apply alpha_nonzero. f_equal.
  rewrite !log_alpha. pose proof (Nat.mod_upper_bound i 255).
  pose proof (Nat.mod_upper_bound j 255).
  rewrite exp_alpha by lia.
  replace (i mod 255 + 255 - j mod 255) with (i mod 255 + (255 - j mod 255)) by lia.
  replace (i + 255 - j mod 255) with (i + (255 - j mod 255)) by lia.
  rewrite <- alpha_mod, Nat.Div0.add_mod_idemp_l, alpha_mod. done.
Qed.

Lemma gfDiv_mul a b c : gfDiv a b = Some c → gfMul c b = a.
Proof.
  intros H. destruct (decide (b = x00)) as [->|Hb]; [done|].
  rewrite (alpha_log b) in H |- * by done.
  byte_case a.
  - unfold gfDiv in H. rewrite bool_decide_false in H by apply alpha_nonzero.
    simpl in H. by simplify_eq.
  - rewrite gfDiv_alpha in H. simplify_eq. rewrite gfMul_alpha.
    pose proof (log_lt b Hb). rewrite (Nat.mod_small (log_of b)) by done.
    replace (k + 255 - log_of b + log_of b) with (k + 255) by lia. apply alpha_period.
Qed.

Lemma gfDiv_panics a b : gfDiv a b = None ↔ b = x00.
Proof. unfold gfDiv. repeat case_bool_decide; naive_solver. Qed.

Lemma gfInv_some a : a ≠ x00 → ∃ c, gfInv a = Some c ∧ gfMul c a = x01.
Proof.
  intros Ha. unfold gfInv. destruct (gfDiv x01 a) as [c|] eqn:E.
  - exists c. split; [done|]. by apply gfDiv_mul.
  - by apply gfDiv_panics in E.
Qed.

(** [gfPow] is iterated multiplication. *)
Fixpoint gf_power (a : byte) (n : nat) : byte :=
  match n with 0 => x01 | S n => gfMul a (gf_power a n) end.

Lemma gfPow_power a n : gfPow a n = gf_power a n.
Proof.
  unfold gfPow. byte_case a; simpl.
  - destruct n; reflexivity.
  - rewrite bool_decide_false by apply alpha_nonzero.
    rewrite log_alpha, (Nat.mod_small k) by done.
    change (alpha (k * n) = gf_power (alpha k) n).
    induction n as [|n IH]; cbn [gf_power].
    + by rewrite Nat.mul_0_r.
    + rewrite <- IH, gfMul_alpha. f_equal. lia.
Qed.

(** ** The carry-less product, as gf.go's header describes it

    Bytes read as polynomials over GF(2): the product of the polynomials,
    reduced modulo [primitivePoly]. *)
Definition clmul (a b : N) : N :=
  foldr (λ i acc, N.lxor (if N.testbit b (N.of_nat i) then N.shiftl a (N.of_nat i) else 0) acc)
    0%N (seq 0 8).

Definition clmod_step (i : nat) (p : N) : N :=
  if N.testbit p (N.of_nat i) then N.lxor p (N.shiftl primitivePoly (N.of_nat (i - 8))) else p.
Definition clmod (p : N) : N :=
  clmod_step 8 (clmod_step 9 (clmod_step 10 (clmod_step 11 (clmod_step 12
    (clmod_step 13 (clmod_step 14 p)))))).

Lemma clmod_step_linear i p q :
  clmod_step i (N.lxor p q) = N.lxor (clmod_step i p) (clmod_step i q).
Proof.
  unfold clmod_step. rewrite N.lxor_spec. set (c := N.shiftl _ _).
  destruct (N.testbit p _), (N.testbit q _); simpl; apply N.bits_inj; intros j;
    rewrite !N.lxor_spec; destruct (N.testbit p j), (N.testbit q j), (N.testbit c j); done.
Qed.

Lemma clmod_linear p q : clmod (N.lxor p q) = N.lxor (clmod p) (clmod q).
Proof. unfold clmod. by rewrite !clmod_step_linear. Qed.

Lemma clmod_shift a i : i < 8 →
  clmod (N.shiftl (Byte.to_N a) (N.of_nat i)) = Byte.to_N (gfMul (alpha i) a).
Proof.
  intros Hi. apply (bool_decide_eq_true_1 _).
  refine (forall_lt (λ i, bool_decide (clmod (N.shiftl (Byte.to_N a) (N.of_nat i)) =
    Byte.to_N (gfMul (alpha i) a))) 8 _ i Hi). clear i Hi.
  refine (forall_bytes (λ a, forallb (λ i, bool_decide
    (clmod (N.shiftl (Byte.to_N a) (N.of_nat i)) =
     Byte.to_N (gfMul (alpha i) a))) (seq 0 8)) _ a).
  vm_compute. reflexivity.
Qed.

(** A byte is the sum of the alpha powers its bits select. *)
Lemma byte_bits b :
  b = foldr (λ i acc, gfAdd (if N.testbit (Byte.to_N b) (N.of_nat i) then alpha i else x00) acc)
        x00 (seq 0 8).
Proof.
  apply (bool_decide_eq_true_1 _).
  refine (forall_bytes (λ b, bool_decide (b = foldr (λ i acc,
    gfAdd (if N.testbit (Byte.to_N b) (N.of_nat i) then alpha i else x00) acc)
        x00 (seq 0 8))) _ b). vm_compute. reflexivity.
Qed.

Lemma clmul_gfMul_aux a b l : (∀ i, i ∈ l → i < 8) →
  clmod (foldr (λ i acc, N.lxor (if N.testbit b (N.of_nat i)
                                 then N.shiftl (Byte.to_N a) (N.of_nat i) else 0) acc) 0%N l)
  = Byte.to_N (gfMul (foldr (λ i acc, gfAdd (if N.testbit b (N.of_nat i)
                                             then alpha i else x00) acc) x00 l) a).
Proof.
  induction l as [|i l IH]; intros Hl; simpl; [reflexivity|].
  rewrite clmod_linear, IH by set_solver.
  rewrite gfMul_add_l, to_N_gfAdd. f_equal.
  destruct (N.testbit b (N.of_nat i)); [|reflexivity].
  apply clmod_shift. apply Hl. set_solver.
Qed.

(** The table product is the carry-less product modulo 0x11d, for every pair of
    bytes. *)
Theorem gfMul_is_polynomial_product a b :
  Byte.to_N (gfMul a b) = clmod (clmul (Byte.to_N a) (Byte.to_N b)).
Proof.
  rewrite gfMul_comm. rewrite (byte_bits b) at 1.
  unfold clmul. rewrite clmul_gfMul_aux; [done|].
  intros i Hi%elem_of_seq. lia.
Qed.
