(* ===== verification/Matrix.v ===== *)
(** * Matrices over GF(2^8): internal/reedsolomon/matrix.go

    Row-major byte matrices with the code's in-place loops, the finite sums the
    products are made of, and the specification of Gauss-Jordan inversion. *)
From S2P Require Import Prelude GF.
From Stdlib Require Import Strings.Byte Ring.

Add Ring gf_ring_m : gf_ring_theory (morphism gf_ring_morph).

(** ** Finite sums *)

(** [sum := 0; for k := 0; k < n; k++ { sum = gfAdd(sum, f(k)) }] *)
Definition bsum (n : nat) (f : nat → byte) : byte :=
  for_range 0 n (λ s k, gfAdd s (f k)) x00.

Section bsum.
Implicit Types (f g : nat → byte) (n k : nat).

Lemma bsum_S n f : bsum (S n) f = gfAdd (bsum n f) (f n).
Proof. unfold bsum, for_range. by rewrite seq_S, foldl_app. Qed.

Lemma bsum_ext n f g : (∀ k, k < n → f k = g k) → bsum n f = bsum n g.
Proof.
  induction n as [|n IH]; intros H; [done|]. rewrite !bsum_S, IH, H; auto.
Qed.

Lemma bsum_zero n f : (∀ k, k < n → f k = x00) → bsum n f = x00.
Proof.
  intros H. rewrite (bsum_ext n f (λ _, x00)) by done.
  clear H. induction n as [|n IH]; [done|]. by rewrite bsum_S, IH.
Qed.

Lemma bsum_add n f g : bsum n (λ k, gfAdd (f k) (g k)) = gfAdd (bsum n f) (bsum n g).
Proof. induction n as [|n IH]; [done|]. rewrite !bsum_S, IH. ring. Qed.

Lemma bsum_mul_l n a f : bsum n (λ k, gfMul a (f k)) = gfMul a (bsum n f).
Proof.
  induction n as [|n IH]; [by rewrite gfMul_0_r|]. rewrite !bsum_S, IH. ring.
Qed.

Lemma bsum_mul_r n a f : bsum n (λ k, gfMul (f k) a) = gfMul (bsum n f) a.
Proof.
  rewrite gfMul_comm, <- bsum_mul_l. apply bsum_ext. intros. apply gfMul_comm.
Qed.

(** A sum with one possibly non-zero term. *)
Lemma bsum_single n i f : i < n → (∀ k, k < n → k ≠ i → f k = x00) → bsum n f = f i.
Proof.
  induction n as [|n IH]; intros Hi H; [lia|]. rewrite bsum_S.
  destruct (decide (i = n)) as [->|Hn].
  - rewrite bsum_zero; [ring|]. intros; apply H; lia.
  - rewrite (H n) by lia. rewrite IH; [ring | lia |]. intros; apply H; lia.
Qed.

(** Splitting off one term. *)
Lemma bsum_split n i f : i < n →
  bsum n f = gfAdd (f i) (bsum n (λ k, if decide (k = i) then x00 else f k)).
Proof.
  induction n as [|n IH]; intros Hi; [lia|]. rewrite !bsum_S.
  destruct (decide (n = i)) as [->|Hn].
  - rewrite (bsum_ext i (λ k, if decide (k = i) then _ else _) f); [ring|].
    intros k Hk. by rewrite decide_False by lia.
  - rewrite IH by lia. ring.
Qed.

Lemma bsum_swap n m (f : nat → nat → byte) :
  bsum n (λ i, bsum m (λ j, f i j)) = bsum m (λ j, bsum n (λ i, f i j)).
Proof.
  induction n as [|n IH].
  - symmetry. apply bsum_zero. done.
  - rewrite bsum_S, IH, <- bsum_add. apply bsum_ext. intros. by rewrite bsum_S.
Qed.

Lemma bsum_app n m f : bsum (n + m) f = gfAdd (bsum n f) (bsum m (λ k, f (n + k))).
Proof.
  induction m as [|m IH].
  - rewrite Nat.add_0_r. change (bsum 0 _) with x00. ring.
  - rewrite Nat.add_succ_r, !bsum_S, IH. ring.
Qed.
End bsum.

(** ** matrix.go: the container *)

Record matrix : Type := Matrix { rows : nat; cols : nat; data : list byte }.

Definition newMatrix (r c : nat) : matrix := Matrix r c (replicate (r * c) x00).
Definition get (m : matrix) (r c : nat) : byte := data m !!! (r * cols m + c).
Definition set (m : matrix) (r c : nat) (v : byte) : matrix :=
  Matrix (rows m) (cols m) (<[r * cols m + c := v]> (data m)).
Definition row (m : matrix) (r : nat) : list byte :=
  take (cols m) (drop (r * cols m) (data m)).

(** Errors returned, and the panics of the package. *)
Inductive matrix_error : Type :=
  | ErrNotSquare | ErrSingular | PanicDimMismatch | PanicDivByZero.

Definition identity (n : nat) : matrix :=
  for_range 0 n (λ m i, set m i i x01) (newMatrix n n).

Definition vandermonde (nrows ncols : nat) : matrix :=
  for_range 0 nrows (λ v r,
    for_range 0 ncols (λ v c, set v r c (gfPow (to_byte (N.of_nat r)) c)) v)
    (newMatrix nrows ncols).

Definition multiply (m other : matrix) : result matrix_error matrix :=
  if negb (cols m =? rows other) then Err PanicDimMismatch
  else Ok (for_range 0 (rows m) (λ out r,
    for_range 0 (cols other) (λ out c,
      set out r c (for_range 0 (cols m)
        (λ sum k, gfAdd sum (gfMul (get m r k) (get other k c))) x00)) out)
    (newMatrix (rows m) (cols other))).

Definition swapRows (m : matrix) (a b : nat) : matrix :=
  if a =? b then m
  else for_range 0 (cols m) (λ m i,
    let va := get m a i in let vb := get m b i in
    set (set m a i vb) b i va) m.

Definition subMatrix (m : matrix) (rowIdx : list nat) : matrix :=
  Matrix (length rowIdx) (cols m) (rowIdx ≫= row m).

(** *** Gauss-Jordan *)

(** The augmented matrix [[M | I]]. *)
Definition augment (m : matrix) : matrix :=
  let n := rows m in
  for_range 0 n (λ aug r,
    set (for_range 0 n (λ aug c, set aug r c (get m r c)) aug) r (n + r) x01)
    (newMatrix n (2 * n)).

(** [for r := c+1; r < n; r++ { if aug.get(r,c) != 0 { pivot = r; break } }] *)
Fixpoint find_pivot (aug : matrix) (c : nat) (rs : list nat) : option nat :=
  match rs with
  | [] => None
  | r :: rs => if bool_decide (get aug r c ≠ x00) then Some r else find_pivot aug c rs
  end.

Definition choose_pivot (n : nat) (aug : matrix) (c : nat) : result matrix_error matrix :=
  if bool_decide (get aug c c = x00) then
    match find_pivot aug c (seq (c + 1) (n - (c + 1))) with
    | None => Err ErrSingular
    | Some pivot => Ok (swapRows aug c pivot)
    end
  else Ok aug.

Definition scale_row (n : nat) (aug : matrix) (c : nat) (inv : byte) : matrix :=
  for_range 0 (2 * n) (λ aug cc, set aug c cc (gfMul (get aug c cc) inv)) aug.

Definition eliminate_row (n c : nat) (aug : matrix) (r : nat) : matrix :=
  if r =? c then aug else
  let factor := get aug r c in
  if bool_decide (factor = x00) then aug else
  for_range 0 (2 * n) (λ aug cc,
    set aug r cc (gfAdd (get aug r cc) (gfMul factor (get aug c cc)))) aug.

Definition gauss_step (n : nat) (aug : matrix) (c : nat) : result matrix_error matrix :=
  aug ←? choose_pivot n aug c;
  match gfInv (get aug c c) with
  | None => Err PanicDivByZero
  | Some inv =>
      Ok (for_range 0 n (eliminate_row n c) (scale_row n aug c inv))
  end.

Definition right_half (n : nat) (aug : matrix) : matrix :=
  for_range 0 n (λ out r,
    for_range 0 n (λ out c, set out r c (get aug r (n + c))) out) (newMatrix n n).

Definition invert (m : matrix) : result matrix_error matrix :=
  if negb (rows m =? cols m) then Err ErrNotSquare
  else
    let n := rows m in
    aug ←? for_err (seq 0 n) (gauss_step n) (augment m);
    Ok (right_half n aug).

(** The top [k] rows of [v], and the systematic encoding matrix. *)
Definition top_block (k : nat) (v : matrix) : matrix :=
  for_range 0 k (λ t r, for_range 0 k (λ t c, set t r c (get v r c)) t) (newMatrix k k).

Definition makeSystematicEncoding (k m : nat) : result matrix_error matrix :=
  let v := vandermonde (k + m) k in
  tInv ←? invert (top_block k v);
  multiply v tInv.

(** ** Well-formed matrices and the effect of the loops *)

(** [shaped R C m]: [m] is an [R]x[C] matrix whose backing array has the size
    [newMatrix] gave it; under it every in-range access hits its own cell. *)
Definition shaped (R C : nat) (m : matrix) : Prop :=
  rows m = R ∧ cols m = C ∧ length (data m) = R * C.

Lemma cell_lt R C r c : r < R → c < C → r * C + c < R * C.
Proof. nia. Qed.

Lemma cell_inj C r c r' c' : c < C → c' < C → r * C + c = r' * C + c' → r = r' ∧ c = c'.
Proof. intros. assert (r = r') by nia. subst. lia. Qed.

Lemma shaped_new R C : shaped R C (newMatrix R C).
Proof. split_and!; try done. apply length_replicate. Qed.

Lemma shaped_set R C m r c v : shaped R C m → shaped R C (set m r c v).
Proof. intros (? & ? & ?). split_and!; simpl; try done. by rewrite length_insert. Qed.

Lemma get_new R C r c : get (newMatrix R C) r c = x00.
Proof.
  unfold get. simpl. destruct (decide (r * C + c < R * C)).
  - by apply lookup_total_replicate_2.
  - rewrite list_lookup_total_alt, lookup_ge_None_2; [done|]. rewrite length_replicate. lia.
Qed.

Lemma get_set R C m r c v r' c' :
  shaped R C m → r < R → c < C → c' < C →
  get (set m r c v) r' c' = if decide (r' = r ∧ c' = c) then v else get m r' c'.
Proof.
  intros (<- & <- & HL) Hr Hc Hc'. unfold get, set. simpl.
  rewrite lookup_total_insert_list by (rewrite HL; by apply cell_lt).
  destruct (decide (r' * cols m + c' = r * cols m + c)) as [E|E].
  - apply cell_inj in E as [-> ->]; [|done|done]. by rewrite decide_True.
  - rewrite decide_False; [done|]. intros [-> ->]. done.
Qed.

#[export] Hint Resolve shaped_new shaped_set : gfmat.

(** A loop that writes the cells of one row, left to right, each from a value
    that does not depend on the cells already written. *)
Lemma row_loop R C r n h g m :
  shaped R C m → r < R → n ≤ C →
  (∀ i m', i < n → shaped R C m' →
    (∀ r' c', c' < C → get m' r' c' = if decide (r' = r ∧ c' < i) then g c' else get m r' c') →
    h m' i = g i) →
  let m' := for_range 0 n (λ m i, set m r i (h m i)) m in
  shaped R C m' ∧
  ∀ r' c', c' < C → get m' r' c' = if decide (r' = r ∧ c' < n) then g c' else get m r' c'.
Proof.
  intros Hm Hr Hn Hh m'. subst m'.
  apply (for_range_0_ind (λ i m', shaped R C m' ∧ ∀ r' c', c' < C →
    get m' r' c' = if decide (r' = r ∧ c' < i) then g c' else get m r' c') n).
  - split; [done|]. intros. rewrite decide_False by lia. done.
  - intros i m' Hi [Hs Hg]. split; [by apply shaped_set|]. intros r' c' Hc'.
    rewrite (get_set R C) by (done || lia).
    rewrite (Hh i) by (done || lia). rewrite Hg by done.
    repeat case_decide; try done; try lia.
    destruct_and!; subst. done.
Qed.

(** A loop over rows, each iteration leaving the other rows alone. *)
Lemma rows_loop R C n (body : matrix → nat → matrix) G m :
  shaped R C m → n ≤ R →
  (∀ i m', i < n → shaped R C m' →
    (∀ r' c', c' < C → get m' r' c' = if decide (r' < i) then G r' c' else get m r' c') →
    shaped R C (body m' i) ∧
    ∀ r' c', c' < C → get (body m' i) r' c' = if decide (r' = i) then G i c' else get m' r' c') →
  let m' := for_range 0 n body m in
  shaped R C m' ∧
  ∀ r' c', c' < C → get m' r' c' = if decide (r' < n) then G r' c' else get m r' c'.
Proof.
  intros Hm Hn Hb m'. subst m'.
  apply (for_range_0_ind (λ i m', shaped R C m' ∧ ∀ r' c', c' < C →
    get m' r' c' = if decide (r' < i) then G r' c' else get m r' c') n).
  - split; [done|]. intros. rewrite decide_False by lia. done.
  - intros i m' Hi [Hs Hg]. destruct (Hb i m') as [Hs' Hg']; [lia | done | done |].
    split; [done|]. intros r' c' Hc'. rewrite Hg', Hg by done.
    repeat case_decide; subst; try done; lia.
Qed.

(** The common case: fill an [R]x[C] matrix from a function of the indices. *)
Lemma fill_loop R C n k G m :
  shaped R C m → n ≤ R → k ≤ C →
  let m' := for_range 0 n (λ m r, for_range 0 k (λ m c, set m r c (G r c)) m) m in
  shaped R C m' ∧
  ∀ r c, c < C → get m' r c = if decide (r < n ∧ c < k) then G r c else get m r c.
Proof.
  intros Hm Hn Hk m'. subst m'.
  pose proof (rows_loop R C n (λ m r, for_range 0 k (λ m c, set m r c (G r c)) m)
    (λ r c, if decide (c < k) then G r c else get m r c) m Hm Hn) as [Hs Hg].
  - intros i m' Hi Hs Hg.
    destruct (row_loop R C i k (λ _ c, G i c) (G i) m') as [Hs' Hg']; try done; try lia.
    split; [done|]. intros r' c' Hc'. rewrite Hg' by done.
    repeat case_decide; try done; try (destruct_and?; subst; tauto); try lia.
    subst. rewrite Hg by done. by rewrite decide_False by lia.
  - split; [done|]. intros r c Hc. rewrite Hg by done.
    repeat case_decide; try done; tauto.
Qed.

(** ** Row operations *)

(** [dot m r n z] is the [r]-th entry of [m * z] over the first [n] columns, and
    [kern n aug z] says [z] solves the homogeneous system of the augmented
    matrix.  Gauss-Jordan changes [aug] and keeps its kernel. *)
Definition dot (m : matrix) (r n : nat) (z : nat → byte) : byte :=
  bsum n (λ c, gfMul (get m r c) (z c)).
Definition kern (n : nat) (aug : matrix) (z : nat → byte) : Prop :=
  ∀ r, r < n → dot aug r (2 * n) z = x00.

(** The first [c] columns of [aug] are those of the identity. *)
Definition unit_cols (n c : nat) (aug : matrix) : Prop :=
  ∀ r j, r < n → j < c → get aug r j = if decide (r = j) then x01 else x00.

Section gauss.
Context (n : nat).
Implicit Types (aug : matrix) (z : nat → byte).

Lemma swapRows_spec R C m a b :
  shaped R C m → a < R → b < R →
  shaped R C (swapRows m a b) ∧
  ∀ r c, c < C → get (swapRows m a b) r c =
    get m (if decide (r = a) then b else if decide (r = b) then a else r) c.
Proof.
  intros Hm Ha Hb. unfold swapRows. destruct (Nat.eqb_spec a b) as [->|Hab].
  { split; [done|]. intros. repeat case_decide; subst; done. }
  rewrite (proj1 (proj2 Hm)).
  destruct (for_range_0_ind (λ i m', shaped R C m' ∧ ∀ r c, c < C → get m' r c =
    if decide (c < i) then
      get m (if decide (r = a) then b else if decide (r = b) then a else r) c
    else get m r c) C
    (λ m i, set (set m a i (get m b i)) b i (get m a i)) m) as [Hs Hg].
  - split; [done|]. intros. by rewrite decide_False by lia.
  - intros i m' Hi [Hs Hg]. split; [by apply shaped_set, shaped_set|].
    intros r c Hc.
    rewrite (get_set R C) by (by apply shaped_set || done).
    rewrite (get_set R C) by done. rewrite !Hg by done.
    repeat case_decide; try done; destruct_and?; subst; try lia; try tauto.
  - split; [done|]. intros r c Hc. rewrite Hg by done. by rewrite decide_True.
Qed.

Lemma scale_row_spec aug c inv :
  shaped n (2 * n) aug → c < n →
  shaped n (2 * n) (scale_row n aug c inv) ∧
  ∀ r cc, cc < 2 * n → get (scale_row n aug c inv) r cc =
    if decide (r = c) then gfMul (get aug c cc) inv else get aug r cc.
Proof.
  intros Hs Hc.
  destruct (row_loop n (2 * n) c (2 * n) (λ m i, gfMul (get m c i) inv)
    (λ i, gfMul (get aug c i) inv) aug) as [Hs' Hg]; try done.
  - intros i m' Hi _ Hg. rewrite Hg by done. by rewrite decide_False by lia.
  - split; [done|]. intros r cc Hcc. unfold scale_row. rewrite Hg by done.
    repeat case_decide; subst; try done; tauto.
Qed.

Lemma eliminate_row_spec aug c r :
  shaped n (2 * n) aug → c < n → r < n →
  shaped n (2 * n) (eliminate_row n c aug r) ∧
  ∀ r' cc, cc < 2 * n → get (eliminate_row n c aug r) r' cc =
    if decide (r' = r ∧ r ≠ c)
    then gfAdd (get aug r cc) (gfMul (get aug r c) (get aug c cc))
    else get aug r' cc.
Proof.
  intros Hs Hc Hr. unfold eliminate_row. destruct (Nat.eqb_spec r c) as [->|Hrc].
  { split; [done|]. intros. by rewrite decide_False by tauto. }
  case_bool_decide as Hf.
  { split; [done|]. intros r' cc Hcc. case_decide; [|done]. destruct_and!; subst.
    rewrite Hf. ring. }
  destruct (row_loop n (2 * n) r (2 * n)
    (λ m i, gfAdd (get m r i) (gfMul (get aug r c) (get m c i)))
    (λ i, gfAdd (get aug r i) (gfMul (get aug r c) (get aug c i))) aug)
    as [Hs' Hg]; try done.
  - intros i m' Hi _ Hg. rewrite !Hg by done. rewrite !decide_False by lia. done.
  - split; [done|]. intros r' cc Hcc. rewrite Hg by done.
    repeat case_decide; subst; try done; tauto.
Qed.

Lemma eliminate_spec aug c :
  shaped n (2 * n) aug → c < n →
  let aug' := for_range 0 n (eliminate_row n c) aug in
  shaped n (2 * n) aug' ∧
  ∀ r cc, r < n → cc < 2 * n → get aug' r cc =
    if decide (r = c) then get aug c cc
    else gfAdd (get aug r cc) (gfMul (get aug r c) (get aug c cc)).
Proof.
  intros Hs Hc.
  destruct (rows_loop n (2 * n) n (eliminate_row n c) (λ r cc,
    if decide (r = c) then get aug c cc
    else gfAdd (get aug r cc) (gfMul (get aug r c) (get aug c cc))) aug Hs) as [Hs' Hg];
    [done| |].
  - intros i m' Hi Hm' Hg'.
    destruct (eliminate_row_spec m' c i) as [He Hge]; try done.
    split; [done|]. intros r' cc Hcc. rewrite Hge by done.
    assert (get m' c cc = get aug c cc) as ->.
    { rewrite Hg' by done. repeat case_decide; done. }
    rewrite !Hg' by lia.
    repeat case_decide; subst; try done; try lia; try tauto.
  - split; [done|]. intros r cc Hr Hcc. rewrite Hg by done. by rewrite decide_True.
Qed.

(** Swapping, scaling and eliminating keep the kernel and the unit columns. *)
Lemma dot_ext m m' r r' k z :
  (∀ c, c < k → get m r c = get m' r' c) → dot m r k z = dot m' r' k z.
Proof. intros H. apply bsum_ext. intros c Hc. by rewrite H. Qed.

Lemma kern_swap aug a b z :
  shaped n (2 * n) aug → a < n → b < n → kern n (swapRows aug a b) z ↔ kern n aug z.
Proof.
  intros Hs Ha Hb. destruct (swapRows_spec n (2 * n) aug a b) as [_ Hg]; try done.
  split; intros H r Hr.
  - rewrite <- (H (if decide (r = a) then b else if decide (r = b) then a else r));
      [|repeat case_decide; done].
    apply dot_ext. intros c Hc. rewrite Hg by done.
    repeat case_decide; subst; done.
  - rewrite <- (H (if decide (r = a) then b else if decide (r = b) then a else r));
      [|repeat case_decide; done].
    apply dot_ext. intros c Hc. by rewrite Hg.
Qed.

Lemma kern_scale aug c inv z :
  shaped n (2 * n) aug → c < n → inv ≠ x00 →
  kern n (scale_row n aug c inv) z ↔ kern n aug z.
Proof.
  intros Hs Hc Hi. destruct (scale_row_spec aug c inv) as [_ Hg]; try done.
  assert (∀ r, r < n → dot (scale_row n aug c inv) r (2 * n) z =
    if decide (r = c) then gfMul (dot aug c (2 * n) z) inv else dot aug r (2 * n) z) as Hd.
  { intros r Hr. case_decide.
    - unfold dot. rewrite <- bsum_mul_r. apply bsum_ext. intros k Hk.
      rewrite Hg, decide_True by done. ring.
    - apply dot_ext. intros k Hk. by rewrite Hg, decide_False. }
  split; intros H r Hr; specialize (H r Hr); rewrite Hd in * by done;
    case_decide; subst; try done.
  - by apply gfMul_zero in H as [|].
  - rewrite H. ring.
Qed.

Lemma kern_eliminate aug c z :
  shaped n (2 * n) aug → c < n →
  kern n (for_range 0 n (eliminate_row n c) aug) z ↔ kern n aug z.
Proof.
  intros Hs Hc. destruct (eliminate_spec aug c Hs Hc) as [_ Hg].
  set (aug' := for_range 0 n _ aug) in *.
  assert (∀ r, r < n → dot aug' r (2 * n) z = if decide (r = c) then dot aug c (2 * n) z
    else gfAdd (dot aug r (2 * n) z) (gfMul (get aug r c) (dot aug c (2 * n) z))) as Hd.
  { intros r Hr. case_decide.
    - apply dot_ext. intros k Hk. by rewrite Hg, decide_True.
    - unfold dot. rewrite <- bsum_mul_l, <- bsum_add. apply bsum_ext. intros k Hk.
      rewrite Hg, decide_False by done. ring. }
  split; intros H r Hr.
  - assert (dot aug c (2 * n) z = x00) as H0.
    { specialize (H c Hc). by rewrite Hd, decide_True in H. }
    specialize (H r Hr). rewrite Hd in H by done. case_decide; [by subst|].
    rewrite H0 in H. rewrite <- H. ring.
  - rewrite Hd by done. rewrite (H c), (H r) by done. case_decide; [done|ring].
Qed.
End gauss.

(** ** Inversion *)
Section inversion.
Context (n : nat).

Lemma find_pivot_some aug c rs p :
  find_pivot aug c rs = Some p → p ∈ rs ∧ get aug p c ≠ x00.
Proof.
  induction rs as [|r rs IH]; simpl; [done|]. case_bool_decide as Hr; intros H.
  - simplify_eq. split; [by left | done].
  - destruct (IH H). split; [by right | done].
Qed.

Lemma find_pivot_none aug c rs :
  find_pivot aug c rs = None → ∀ r, r ∈ rs → get aug r c = x00.
Proof.
  induction rs as [|r rs IH]; simpl; [set_solver|]. case_bool_decide as Hr; [done|].
  intros H r' [->|?]%elem_of_cons; [by destruct (decide (get aug r c = x00)) | auto].
Qed.

Lemma choose_pivot_spec aug c aug' :
  shaped n (2 * n) aug → c < n → unit_cols n c aug → choose_pivot n aug c = Ok aug' →
  shaped n (2 * n) aug' ∧ unit_cols n c aug' ∧ get aug' c c ≠ x00 ∧
  ∀ z, kern n aug' z ↔ kern n aug z.
Proof.
  intros Hs Hc Hu. unfold choose_pivot. case_bool_decide as H0; intros H.
  - destruct (find_pivot _ _ _) as [p|] eqn:Hp; inv_ok.
    apply find_pivot_some in Hp as [Hin Hnz]. apply elem_of_seq in Hin.
    destruct (swapRows_spec n (2 * n) aug c p) as [Hs' Hg]; try done; try lia.
    split_and!; [done | | |intros z; apply kern_swap; done || lia].
    + intros r j Hr Hj. rewrite Hg by lia.
      repeat case_decide; subst; rewrite Hu by lia; repeat case_decide; done || lia.
    + rewrite Hg by lia. by rewrite decide_True.
  - inv_ok. done.
Qed.

Lemma gauss_step_spec aug c aug' :
  shaped n (2 * n) aug → c < n → unit_cols n c aug → gauss_step n aug c = Ok aug' →
  shaped n (2 * n) aug' ∧ unit_cols n (S c) aug' ∧ ∀ z, kern n aug' z ↔ kern n aug z.
Proof.
  intros Hs Hc Hu H. unfold gauss_step in H. inv_ok.
  apply choose_pivot_spec in H as (Hs1 & Hu1 & Hnz & Hk); try done.
  rename x into aug1. destruct (gfInv_some (get aug1 c c) Hnz) as (inv & Hi & Hinv).
  rewrite Hi in H0. inv_ok.
  destruct (scale_row_spec n aug1 c inv Hs1 Hc) as [Hs2 Hg2].
  destruct (eliminate_spec n _ c Hs2 Hc) as [Hs3 Hg3].
  assert (inv ≠ x00) as Hin by (intros ->; by rewrite gfMul_0_l in Hinv).
  split_and!; [done | |].
  - intros r j Hr Hj. rewrite Hg3, !Hg2 by lia.
    rewrite (decide_True (P := c = c)) by done.
    destruct (decide (j = c)) as [->|Hjc].
    + rewrite (gfMul_comm (get aug1 c c) inv), Hinv. repeat case_decide; try done. ring.
    + rewrite !Hu1 by lia. repeat case_decide; subst; try done; try lia; ring.
  - intros z. rewrite kern_eliminate, kern_scale by done. done.
Qed.

(** With the first [c] columns reduced and no pivot left, the solution the
    proof of singularity exhibits: column [c] is a combination of the reduced
    ones. *)
Definition null_vector (aug : matrix) (c j : nat) : byte :=
  if decide (j < c) then get aug j c else if decide (j = c) then x01 else x00.

Lemma null_lt aug c j : j < c → null_vector aug c j = get aug j c.
Proof. intros. unfold null_vector. by rewrite decide_True. Qed.
Lemma null_eq aug c : null_vector aug c c = x01.
Proof. unfold null_vector. by rewrite decide_False, decide_True by lia. Qed.
Lemma null_gt aug c j : c < j → null_vector aug c j = x00.
Proof. intros. unfold null_vector. by rewrite !decide_False by lia. Qed.

Lemma null_vector_kern aug c :
  c < n → unit_cols n c aug → (∀ r, c ≤ r < n → get aug r c = x00) →
  kern n aug (null_vector aug c).
Proof.
  intros Hc Hu Hz r Hr. unfold dot. rewrite (bsum_split _ c), null_eq by lia.
  assert (∀ k, k ≠ c → k ≠ r → gfMul (get aug r k) (null_vector aug c k) = x00) as H0.
  { intros k Hkc Hkr. destruct (decide (k < c)).
    - rewrite Hu, decide_False by lia. ring.
    - rewrite null_gt by lia. ring. }
  destruct (decide (r < c)) as [Hrc|Hrc].
  - rewrite (bsum_single _ r); [|lia|].
    + rewrite (decide_False (P := r = c)), null_lt, (Hu r r) by lia.
      rewrite decide_True by done. ring.
    + intros k Hk Hkr. case_decide; [done|]. by apply H0.
  - rewrite Hz by lia. rewrite bsum_zero; [ring|].
    intros k Hk. case_decide as Hkc; [done|].
    destruct (decide (k = r)) as [->|]; [|by apply H0]. rewrite null_gt by lia. ring.
Qed.

Lemma gauss_step_err aug c e :
  shaped n (2 * n) aug → c < n → unit_cols n c aug → gauss_step n aug c = Err e →
  e = ErrSingular ∧ kern n aug (null_vector aug c).
Proof.
  intros Hs Hc Hu H. unfold gauss_step in H.
  destruct (choose_pivot n aug c) as [aug1|e1] eqn:Hp; simpl in H.
  - apply choose_pivot_spec in Hp as (_ & _ & Hnz & _); try done.
    destruct (gfInv_some _ Hnz) as (inv & Hi & _). by rewrite Hi in H.
  - unfold choose_pivot in Hp. case_bool_decide as H0; [|done].
    destruct (find_pivot _ _ _) eqn:Hf; simplify_eq. split; [done|].
    apply null_vector_kern; [done | done |]. intros r Hr.
    destruct (decide (r = c)) as [->|]; [done|].
    apply (find_pivot_none _ _ _ Hf), elem_of_seq. lia.
Qed.

(** The augmented matrix and its kernel: [z = (x; y)] solves it iff [m x = y]. *)
Definition glue (x y : nat → byte) (j : nat) : byte :=
  if decide (j < n) then x j else y (j - n).

Lemma dot_glue aug r x y :
  dot aug r (2 * n) (glue x y) =
  gfAdd (dot aug r n x) (bsum n (λ k, gfMul (get aug r (n + k)) (y k))).
Proof.
  unfold dot. replace (2 * n) with (n + n) by lia. rewrite bsum_app. f_equal.
  - apply bsum_ext. intros k Hk. unfold glue. by rewrite decide_True.
  - apply bsum_ext. intros k Hk. unfold glue. rewrite decide_False by lia.
    by replace (n + k - n) with k by lia.
Qed.

Lemma augment_spec m :
  shaped n n m →
  shaped n (2 * n) (augment m) ∧
  ∀ r c, r < n → c < 2 * n → get (augment m) r c =
    if decide (c < n) then get m r c else if decide (c = n + r) then x01 else x00.
Proof.
  intros (Hr & Hc & Hl). unfold augment. rewrite Hr.
  destruct (rows_loop n (2 * n) n
    (λ aug r, set (for_range 0 n (λ aug c, set aug r c (get m r c)) aug) r (n + r) x01)
    (λ r c, if decide (c < n) then get m r c else if decide (c = n + r) then x01 else x00)
    (newMatrix n (2 * n))) as [Hs Hg]; [by auto with gfmat | done | |].
  - intros i m' Hi Hs Hg.
    destruct (row_loop n (2 * n) i n (λ _ c, get m i c) (get m i) m') as [Hs1 Hg1];
      try done; try lia.
    split; [by apply shaped_set|]. intros r' c' Hc'.
    rewrite (get_set n (2 * n)) by (done || lia). rewrite Hg1 by done.
    repeat case_decide; try done; destruct_and?; subst; try lia; try tauto.
    rewrite Hg by done. rewrite decide_False by lia. apply get_new.
  - split; [done|]. intros r c Hrn Hcn. rewrite Hg by done. by rewrite decide_True.
Qed.

Lemma kern_augment m x y :
  shaped n n m → kern n (augment m) (glue x y) ↔ ∀ r, r < n → dot m r n x = y r.
Proof.
  intros Hm. destruct (augment_spec m Hm) as [_ Hg].
  assert (∀ r, r < n → dot (augment m) r (2 * n) (glue x y) = gfAdd (dot m r n x) (y r)) as Hd.
  { intros r Hr. rewrite dot_glue. f_equal.
    - apply dot_ext. intros c Hc. by rewrite Hg, decide_True by lia.
    - rewrite (bsum_single _ r); [|done|].
      + rewrite Hg, decide_False, decide_True by lia. ring.
      + intros k Hk Hkr. rewrite Hg, !decide_False by lia. ring. }
  split; intros H r Hr; specialize (H r Hr).
  - rewrite Hd in H by done. by apply gfAdd_cancel.
  - rewrite Hd, H by done. apply gfAdd_self.
Qed.

Definition gauss_inv (m : matrix) (c : nat) (aug : matrix) : Prop :=
  shaped n (2 * n) aug ∧ unit_cols n c aug ∧ ∀ z, kern n aug z ↔ kern n (augment m) z.

Lemma gauss_inv_init m : shaped n n m → gauss_inv m 0 (augment m).
Proof.
  intros Hm. destruct (augment_spec m Hm) as [Hs _]. split_and!; try done.
  intros ? ? ? ?. lia.
Qed.

Lemma gauss_inv_step m c aug aug' :
  c < n → gauss_inv m c aug → gauss_step n aug c = Ok aug' → gauss_inv m (c + 1) aug'.
Proof.
  intros Hc (Hs & Hu & Hk) H. destruct (gauss_step_spec aug c aug') as (? & ? & Hk'); try done.
  split_and!; [done | by rewrite Nat.add_1_r |]. intros z. by rewrite Hk', Hk.
Qed.

Lemma right_half_spec aug :
  shaped n n (right_half n aug) ∧
  ∀ r c, r < n → c < n → get (right_half n aug) r c = get aug r (n + c).
Proof.
  destruct (fill_loop n n n n (λ r c, get aug r (n + c)) (newMatrix n n)) as [Hs Hg];
    try done; [by auto with gfmat|].
  split; [done|]. intros r c Hr Hc. unfold right_half. rewrite Hg by done. by rewrite decide_True.
Qed.

(** [invert] returns the two-sided inverse of [m]: solving [m x = y] and
    computing [x = inv y] are the same. *)
Lemma invert_ok m inv :
  shaped n n m → invert m = Ok inv →
  shaped n n inv ∧
  ∀ x y, (∀ r, r < n → dot m r n x = y r) ↔ (∀ r, r < n → dot inv r n y = x r).
Proof.
  intros Hm H. unfold invert in H. destruct Hm as (Hr & Hc & Hl).
  rewrite Hr, Hc, Nat.eqb_refl in H. simpl in H. inv_ok. rename x into aug.
  assert (shaped n n m) as Hm by done.
  assert (gauss_inv m n aug) as (Hs & Hu & Hk).
  { refine (for_err_ind (gauss_inv m) 0 n (gauss_step n) (augment m) aug _ _ H).
    - by apply gauss_inv_init.
    - intros i s s' Hi. apply gauss_inv_step. lia. }
  destruct (right_half_spec aug) as [Hsi Hgi]. split; [done|].
  intros x y. rewrite <- (kern_augment m x y), <- Hk by done.
  assert (∀ r, r < n → dot aug r (2 * n) (glue x y) =
                       gfAdd (x r) (dot (right_half n aug) r n y)) as Hd.
  { intros r Hr'. rewrite dot_glue. f_equal.
    - unfold dot. rewrite (bsum_single _ r); [|done|].
      + rewrite Hu, decide_True by done. ring.
      + intros k ? ?. rewrite Hu, decide_False by done. ring.
    - apply bsum_ext. intros k Hk'. by rewrite Hgi. }
  split; intros Hz r Hr'; specialize (Hz r Hr').
  - rewrite Hd in Hz by done. symmetry. by apply gfAdd_cancel.
  - rewrite Hd, Hz by done. apply gfAdd_self.
Qed.

(** [invert] fails only on a singular matrix, and a singular matrix maps a
    non-zero vector to zero. *)
Lemma invert_err m e :
  shaped n n m → invert m = Err e →
  e = ErrSingular ∧
  ∃ x c, c < n ∧ x c ≠ x00 ∧ ∀ r, r < n → dot m r n x = x00.
Proof.
  intros Hm H. unfold invert in H. destruct Hm as (Hr & Hc & Hl).
  rewrite Hr, Hc, Nat.eqb_refl in H. simpl in H.
  assert (shaped n n m) as Hm by done.
  destruct (for_err _ _ _) as [|e'] eqn:Hf; simpl in H; [done|]. injection H as ->.
  destruct (for_err_fails (gauss_inv m) 0 n (gauss_step n) (augment m) e)
    as (c & aug & Hc' & (Hs & Hu & Hk) & Herr); try done.
  - by apply gauss_inv_init.
  - intros i s s' Hi. apply gauss_inv_step. lia.
  - destruct (gauss_step_err aug c e) as [-> Hnull]; try done; try lia.
    split; [done|]. exists (null_vector aug c), c. split_and!; [lia | |].
    + by rewrite null_eq.
    + apply Hk in Hnull.
      assert (kern n (augment m) (glue (null_vector aug c) (λ _, x00))) as Hnull'.
      { intros r Hrr. transitivity (dot (augment m) r (2 * n) (null_vector aug c));
          [|by apply Hnull]. apply bsum_ext. intros k Hkk. f_equal.
        unfold glue. case_decide; [done|]. by rewrite null_gt by lia. }
      by rewrite kern_augment in Hnull'.
Qed.

Lemma invert_total m :
  shaped n n m →
  (∀ x, (∀ r, r < n → dot m r n x = x00) → ∀ c, c < n → x c = x00) →
  ∃ inv, invert m = Ok inv.
Proof.
  intros Hm Hker. destruct (invert m) as [inv|e] eqn:H; [by exists inv|].
  destruct (invert_err m e Hm H) as (_ & x & c & Hc & Hx & H0).
  destruct Hx. by apply Hker.
Qed.
End inversion.

(** ** The Vandermonde argument: distinct evaluation points *)
Section vandermonde.
(** A column vector as the coefficients of a polynomial, evaluated by Horner. *)
Definition peval (p : list byte) (x : byte) : byte :=
  foldr (λ c acc, gfAdd c (gfMul x acc)) x00 p.

(** Synthetic division by [X - r]. *)
Fixpoint quot (p : list byte) (r : byte) : list byte :=
  match p with [] => [] | _ :: p' => peval p r :: quot p' r end.

Lemma quot_length p r : length (quot p r) = length p.
Proof. induction p; simpl; auto. Qed.

Lemma quot_spec c p x r :
  gfAdd (peval (c :: p) x) (peval (c :: p) r) = gfMul (gfAdd x r) (peval (quot p r) x).
Proof.
  revert c. induction p as [|d p IH]; intros c; simpl; [ring|].
  specialize (IH d). simpl in IH.
  transitivity (gfAdd (gfMul (gfAdd x r) (gfAdd d (gfMul r (peval p r))))
    (gfMul x (gfAdd (gfAdd d (gfMul x (peval p x))) (gfAdd d (gfMul r (peval p r))))));
    [ring|]. rewrite IH. ring.
Qed.

Lemma quot_zero p r : Forall (λ c, c = x00) (quot p r) → Forall (λ c, c = x00) p.
Proof.
  induction p as [|c p IH]; simpl; [done|]. intros [H Hq]%Forall_cons.
  specialize (IH Hq). constructor; [|done].
  assert (∀ q, Forall (λ c, c = x00) q → peval q r = x00) as H0.
  { clear. induction 1 as [|? ? -> _ IH]; simpl; [done|]. rewrite IH. ring. }
  rewrite (H0 p IH) in H. rewrite <- H. ring.
Qed.

(** A polynomial with as many roots as coefficients is zero. *)
Lemma roots_zero rs p :
  NoDup rs → length p = length rs → (∀ r, r ∈ rs → peval p r = x00) →
  Forall (λ c, c = x00) p.
Proof.
  revert p. induction rs as [|r rs IH]; intros p Hnd Hlen Hr.
  { destruct p; [constructor | done]. }
  destruct p as [|c p]; [done|]. apply NoDup_cons in Hnd as [Hnin Hnd].
  simpl in Hlen. injection Hlen as Hlen.
  assert (peval (c :: p) r = x00) as Hpr by (apply Hr; by left).
  assert (Forall (λ c, c = x00) p) as Hp.
  { apply (quot_zero p r), IH; [done | by rewrite quot_length |].
    intros x Hx. pose proof (quot_spec c p x r) as Hq.
    rewrite Hpr, (Hr x) in Hq by (by right). symmetry in Hq.
    rewrite gfAdd_self in Hq. apply gfMul_zero in Hq as [E|E]; [|done].
    apply gfAdd_cancel in E as ->. done. }
  constructor; [|done].
  simpl in Hpr. assert (peval p r = x00) as E.
  { clear -Hp. induction Hp as [|? ? -> _ IH]; simpl; [done|]. rewrite IH. ring. }
  rewrite E in Hpr. rewrite <- Hpr. ring.
Qed.

Lemma peval_bsum n x v :
  peval (v <$> seq 0 n) x = bsum n (λ c, gfMul (gfPow x c) (v c)).
Proof.
  assert (∀ a, peval (v <$> seq a n) x = bsum n (λ c, gfMul (gfPow x c) (v (a + c)%nat))) as H.
  { induction n as [|n IH]; intros a; [done|].
    rewrite (bsum_app 1 n _). rewrite (bsum_S 0). change (bsum 0 _) with x00.
    simpl. rewrite IH, <- bsum_mul_l, Nat.add_0_r, gfPow_power. simpl.
    transitivity (gfAdd (v a) (bsum n (λ c, gfMul (gfPow x (S c)) (v (a + S c)%nat))));
      [|ring].
    f_equal. apply bsum_ext. intros k _. rewrite !gfPow_power. simpl.
    rewrite Nat.add_succ_r. ring. }
  apply (H 0).
Qed.

Lemma vandermonde_spec R C :
  shaped R C (vandermonde R C) ∧
  ∀ r c, r < R → c < C → get (vandermonde R C) r c = gfPow (to_byte (N.of_nat r)) c.
Proof.
  destruct (fill_loop R C R C (λ r c, gfPow (to_byte (N.of_nat r)) c) (newMatrix R C))
    as [Hs Hg]; try done; [by auto with gfmat|].
  split; [done|]. intros r c Hr Hc. unfold vandermonde. rewrite Hg by done.
  by rewrite decide_True.
Qed.

Lemma to_byte_inj_small i j : i < 256 → j < 256 →
  to_byte (N.of_nat i) = to_byte (N.of_nat j) → i = j.
Proof.
  intros Hi Hj H. apply (f_equal Byte.to_N) in H. rewrite !to_N_to_byte in H.
  rewrite !N.mod_small in H by lia. lia.
Qed.

(** Any [k] distinct rows of the (up to 256-row) Vandermonde matrix have a
    trivial kernel. *)
Lemma vandermonde_rows_kernel R k (idx : list nat) x :
  R ≤ 256 → NoDup idx → length idx = k → (∀ i, i ∈ idx → i < R) →
  (∀ i, i ∈ idx → dot (vandermonde R k) i k x = x00) →
  ∀ c, c < k → x c = x00.
Proof.
  intros HR Hnd Hlen Hlt Hdot.
  assert (Forall (λ c, c = x00) (x <$> seq 0 k)) as Hz.
  { apply (roots_zero ((λ i, to_byte (N.of_nat i)) <$> idx)).
    - apply NoDup_fmap_2_strong; [|done]. intros i j Hi Hj.
      apply to_byte_inj_small; [specialize (Hlt i Hi) | specialize (Hlt j Hj)]; lia.
    - by rewrite !length_fmap, length_seq.
    - intros r (i & -> & Hi)%list_elem_of_fmap. rewrite peval_bsum, <- (Hdot i Hi).
      apply bsum_ext. intros c Hc. symmetry.
      by rewrite (proj2 (vandermonde_spec R k)) by auto. }
  intros c Hc. rewrite Forall_forall in Hz. apply Hz, list_elem_of_fmap.
  exists c. split; [done|]. apply elem_of_seq. lia.
Qed.
End vandermonde.

(** ** Products, submatrices and the systematic encoding matrix *)
Lemma multiply_spec R K C m o :
  shaped R K m → shaped K C o →
  ∃ p, multiply m o = Ok p ∧ shaped R C p ∧
    ∀ r c, r < R → c < C → get p r c = bsum K (λ k, gfMul (get m r k) (get o k c)).
Proof.
  intros (Hr & Hc & _) (Hr' & Hc' & _). unfold multiply.
  rewrite Hc, Hr', Nat.eqb_refl, Hr, Hc'. simpl. eexists. split; [done|].
  destruct (fill_loop R C R C (λ r c, bsum K (λ k, gfMul (get m r k) (get o k c)))
    (newMatrix R C)) as [Hs Hg]; try done; [by auto with gfmat|].
  split; [done|]. intros r c Hrn Hcn. rewrite Hg by done. by rewrite decide_True.
Qed.

Lemma row_length R C m r : shaped R C m → r < R → length (row m r) = C.
Proof.
  intros (Hr & Hc & Hl) Hrn. unfold row. rewrite length_take, length_drop, Hl, Hc. nia.
Qed.

Lemma row_lookup R C m r c : shaped R C m → r < R → c < C → row m r !!! c = get m r c.
Proof.
  intros (Hr & Hc & Hl) Hrn Hcn. unfold row, get. rewrite !list_lookup_total_alt.
  rewrite lookup_take, decide_True by lia. by rewrite lookup_drop.
Qed.

Lemma subMatrix_spec R C m idx :
  shaped R C m → (∀ i, i ∈ idx → i < R) →
  shaped (length idx) C (subMatrix m idx) ∧
  ∀ i r c, idx !! i = Some r → c < C → get (subMatrix m idx) i c = get m r c.
Proof.
  intros Hm Hidx. pose proof Hm as (Hr & Hc & Hl). split.
  - split_and!; [done | done |]. simpl. clear -Hm Hidx.
    induction idx as [|r idx IH]; [done|]. rewrite bind_cons.
    rewrite length_app, (row_length R C), IH; [done | | done |].
    + intros; apply Hidx; by right.
    + apply Hidx. by left.
  - intros i r c Hi Hcn. assert (r < R) as Hrn by (eapply Hidx, list_elem_of_lookup_2, Hi).
    rewrite <- (row_lookup R C m) by done. clear Hrn.
    unfold get, subMatrix. simpl. rewrite Hc, !list_lookup_total_alt. f_equal.
    revert i Hi. induction idx as [|r' idx IH]; intros i Hi; [done|].
    rewrite bind_cons. assert (length (row m r') = C) as Hlen.
    { apply (row_length R); [done|]. apply Hidx. by left. }
    destruct i as [|i]; simpl in Hi.
    + simplify_eq. rewrite lookup_app_l by lia. done.
    + rewrite lookup_app_r by (rewrite Hlen; simpl; lia). rewrite Hlen.
      replace (S i * C + c - C) with (i * C + c) by (simpl; lia).
      apply IH; [|done]. intros; apply Hidx; by right.
Qed.

Lemma top_block_spec k R v :
  shaped R k v → k ≤ R →
  shaped k k (top_block k v) ∧
  ∀ r c, r < k → c < k → get (top_block k v) r c = get v r c.
Proof.
  intros Hv Hk. destruct (fill_loop k k k k (λ r c, get v r c) (newMatrix k k))
    as [Hs Hg]; try done; [by auto with gfmat|].
  split; [done|]. intros r c Hr Hc. unfold top_block. rewrite Hg by done.
  by rewrite decide_True.
Qed.

(** What the encoding matrix promises the encoder: the first [k] rows are the
    identity, and every choice of [k] distinct rows has a trivial kernel (the
    MDS property). *)
Record encoding_matrix (k m : nat) (enc : matrix) : Prop := {
  enc_shaped : shaped (k + m) k enc;
  enc_systematic : ∀ r c, r < k → c < k → get enc r c = if decide (r = c) then x01 else x00;
  enc_mds : ∀ idx x, NoDup idx → length idx = k → (∀ i, i ∈ idx → i < k + m) →
    (∀ i, i ∈ idx → dot enc i k x = x00) → ∀ c, c < k → x c = x00
}.

Lemma makeSystematicEncoding_spec k m :
  k + m ≤ 256 → ∃ enc, makeSystematicEncoding k m = Ok enc ∧ encoding_matrix k m enc.
Proof.
  intros Hkm. unfold makeSystematicEncoding. set (v := vandermonde (k + m) k).
  destruct (vandermonde_spec (k + m) k) as [Hvs Hvg]. fold v in Hvs, Hvg.
  destruct (top_block_spec k (k + m) v Hvs) as [Hts Htg]; [lia|].
  set (t := top_block k v) in *.
  assert (∀ r x, r < k → dot t r k x = dot v r k x) as Htv.
  { intros r x Hr. apply dot_ext. intros c Hc. by apply Htg. }
  destruct (invert_total k t Hts) as (tInv & Hinv).
  { intros x Hx. apply (vandermonde_rows_kernel (k + m) k (seq 0 k)).
    - done. - apply NoDup_seq. - apply length_seq.
    - intros i Hi%elem_of_seq. lia.
    - intros i Hi%elem_of_seq. fold v. rewrite <- Htv by lia. apply Hx. lia. }
  rewrite Hinv. simpl. destruct (invert_ok k t tInv Hts Hinv) as [His Hiff].
  destruct (multiply_spec (k + m) k k v tInv) as (enc & -> & Hes & Heg); try done.
  exists enc. split; [done|]. constructor; [done | |].
  - intros r c Hr Hc. rewrite Heg by lia.
    change (bsum k (λ j, gfMul (get v r j) (get tInv j c)))
      with (dot v r k (λ j, get tInv j c)).
    rewrite <- Htv by done.
    refine (proj2 (Hiff (λ j, get tInv j c) (λ j, if decide (j = c) then x01 else x00))
      _ r Hr). intros j Hj. unfold dot. rewrite (bsum_single _ c); [|done|].
    + rewrite decide_True by done. ring.
    + intros i Hi Hic. rewrite decide_False by done. ring.
  - intros idx x Hnd Hlen Hlt Hdot.
    assert (∀ j, j < k → dot tInv j k x = x00) as Hj.
    { apply (vandermonde_rows_kernel (k + m) k idx (λ j, dot tInv j k x)); try done.
      intros i Hi. rewrite <- (Hdot i Hi). fold v. unfold dot.
      transitivity (bsum k (λ j, bsum k (λ c, gfMul (gfMul (get v i j) (get tInv j c)) (x c)))).
      - apply bsum_ext. intros j Hj. rewrite <- bsum_mul_l. apply bsum_ext. intros; ring.
      - rewrite bsum_swap. apply bsum_ext. intros c Hc.
        rewrite bsum_mul_r, Heg by auto. done. }
    intros c Hc.
    rewrite <- (proj2 (Hiff (λ _, x00) x) Hj c Hc). apply bsum_zero. intros; ring.
Qed.

(** Gauss-Jordan inversion is correct on every square matrix.  When [invert]
    succeeds its result is the two-sided inverse (solving [m x = y] and computing
    [x = inv y] are the same); when it fails the error is [ErrSingular] and [m]
    sends a non-zero vector to zero. *)
Theorem invert_correct n m :
  shaped n n m →
  match invert m with
  | Ok inv => shaped n n inv ∧
      ∀ x y, (∀ r, r < n → dot m r n x = y r) ↔ (∀ r, r < n → dot inv r n y = x r)
  | Err e => e = ErrSingular ∧
      ∃ x c, c < n ∧ x c ≠ x00 ∧ ∀ r, r < n → dot m r n x = x00
  end.
Proof.
  intros Hm. destruct (invert m) as [inv|e] eqn:E;
    [by apply invert_ok | by apply invert_err].
Qed.

Definition mat22 : matrix := Matrix 2 2 [x01; x02; x03; x04].

Lemma invert_correct_witness :
  shaped 2 2 mat22 ∧ match invert mat22 with
  | Ok inv => shaped 2 2 inv ∧
      ∀ x y, (∀ r, r < 2 → dot mat22 r 2 x = y r) ↔ (∀ r, r < 2 → dot inv r 2 y = x r)
  | Err e => e = ErrSingular ∧
      ∃ x c, c < 2 ∧ x c ≠ x00 ∧ ∀ r, r < 2 → dot mat22 r 2 x = x00
  end.
Proof. split; [done|]. apply (invert_correct 2 mat22). split_and!; reflexivity. Defined.
