(* ===== verification/ReedSolomon.v ===== *)
(** * Reed-Solomon encoder: internal/reedsolomon/rs.go

    [NewEncoder], [Encode] with its per-coefficient table and unrolled loop, and
    [Reconstruct], which rebuilds the missing data shards from any K survivors. *)
From S2P Require Import Prelude GF Matrix.
From Stdlib Require Import Strings.Byte Ring.

Add Ring gf_ring_r : gf_ring_theory (morphism gf_ring_morph).

Abbreviation shard := (list byte).

Record Encoder : Type := MkEncoder { enc_k : nat; enc_m : nat; encMat : matrix }.

Inductive rs_error : Type :=
  | ErrNotPositive | ErrCapacity | ErrPanic | ErrBuild (e : matrix_error)
  | ErrShardCount | ErrShardSize (i : nat) | ErrEmptyShards
  | ErrTooFewShards | ErrInvert (e : matrix_error).

(** [k] and [m] are ints: from 2^63 on their sum wraps to a negative number, passes the
    capacity check, and building the matrices panics ([ErrPanic]). *)
Definition NewEncoder (k m : Z) : result rs_error Encoder :=
  if ((k <=? 0) || (m <=? 0))%Z then Err ErrNotPositive
  else if (2 ^ 63 <=? k + m)%Z then Err ErrPanic
  else if (256 <? k + m)%Z then Err ErrCapacity
  else match makeSystematicEncoding (Z.to_nat k) (Z.to_nat m) with
       | Err e => Err (ErrBuild e)
       | Ok enc => Ok (MkEncoder (Z.to_nat k) (Z.to_nat m) enc)
       end.

(** ** Encode *)

(** [fillMulTable(&t, coef)]: every entry of the 256-entry table is written. *)
Definition fillMulTable (t : list byte) (coef : byte) : list byte :=
  if bool_decide (coef = x00) then for_range 0 256 (λ t i, <[i := x00]> t) t
  else
    let logCoef := log_of coef in
    for_range 1 255 (λ t b, <[b := gfExp !!! (logCoef + log_of (to_byte (N.of_nat b)))]> t)
      (<[0 := x00]> t).

(** [out[c] ^= mulByCoef[src[c]]] *)
Definition xor_at (mulByCoef src : list byte) (out : list byte) (c : nat) : list byte :=
  <[c := gfAdd (out !!! c) (mulByCoef !!! N.to_nat (Byte.to_N (src !!! c)))]> out.

(** [for ; c+8 <= shardSize; c += 8 { ... }], unrolled eight times. *)
Fixpoint xor_loop8 (fuel : nat) (t src : list byte) (shardSize : nat) (out : list byte) (c : nat)
    : list byte * nat :=
  match fuel with
  | 0 => (out, c)
  | S fuel =>
      if c + 8 <=? shardSize then
        let out := xor_at t src out (c + 0) in
        let out := xor_at t src out (c + 1) in
        let out := xor_at t src out (c + 2) in
        let out := xor_at t src out (c + 3) in
        let out := xor_at t src out (c + 4) in
        let out := xor_at t src out (c + 5) in
        let out := xor_at t src out (c + 6) in
        let out := xor_at t src out (c + 7) in
        xor_loop8 fuel t src shardSize out (c + 8)
      else (out, c)
  end.

(** [for ; c < shardSize; c++ { ... }] *)
Fixpoint xor_loop1 (fuel : nat) (t src : list byte) (shardSize : nat) (out : list byte) (c : nat)
    : list byte :=
  match fuel with
  | 0 => out
  | S fuel =>
      if c <? shardSize then xor_loop1 fuel t src shardSize (xor_at t src out c) (c + 1)
      else out
  end.

(** The body of the [kIdx] loop, on the reused table and the output shard. *)
Definition encode_coef (row : list byte) (dataShards : list shard) (shardSize : nat)
    (st : list byte * shard) (kIdx : nat) : list byte * shard :=
  let '(mulByCoef, out) := st in
  let coef := row !!! kIdx in
  if bool_decide (coef = x00) then (mulByCoef, out)
  else
    let mulByCoef := fillMulTable mulByCoef coef in
    let src := dataShards !!! kIdx in
    let '(out, c) := xor_loop8 shardSize mulByCoef src shardSize out 0 in
    (mulByCoef, xor_loop1 shardSize mulByCoef src shardSize out c).

(** [shardSize := -1; for i, s := range dataShards {...}]; [None] is [-1]. *)
Fixpoint check_sizes (i : nat) (l : list shard) (shardSize : option nat)
    : result rs_error (option nat) :=
  match l with
  | [] => Ok shardSize
  | s :: l =>
      match shardSize with
      | None => check_sizes (i + 1) l (Some (length s))
      | Some sz => if length s =? sz then check_sizes (i + 1) l shardSize
                   else Err (ErrShardSize i)
      end
  end.

Definition Encode (e : Encoder) (dataShards : list shard) : result rs_error (list shard) :=
  if negb (length dataShards =? enc_k e) then Err ErrShardCount
  else
    sz ←? check_sizes 0 dataShards None;
    let shardSize := default 0 sz in
    if bool_decide (sz = Some 0) then Err ErrEmptyShards
    else
      let parity := replicate (enc_m e) (replicate shardSize x00) in
      Ok (snd (for_range 0 (enc_m e) (λ '(mulByCoef, parity) p,
        let row := row (encMat e) (enc_k e + p) in
        let '(mulByCoef, out) :=
          for_range 0 (enc_k e) (encode_coef row dataShards shardSize)
            (mulByCoef, parity !!! p) in
        (mulByCoef, <[p := out]> parity)) (replicate 256 x00, parity))).

(** ** Reconstruct *)

(** Indices of the surviving shards, and their common size. *)
Fixpoint scan_shards (i : nat) (l : list shard) (survIdx : list nat) (shardSize : option nat)
    : result rs_error (list nat * option nat) :=
  match l with
  | [] => Ok (survIdx, shardSize)
  | s :: l =>
      if 0 <? length s then
        match shardSize with
        | None => scan_shards (i + 1) l (survIdx ++ [i]) (Some (length s))
        | Some sz =>
            if length s =? sz then scan_shards (i + 1) l (survIdx ++ [i]) shardSize
            else Err (ErrShardSize i)
        end
      else scan_shards (i + 1) l survIdx shardSize
  end.

(** [out[c] = gfAdd(out[c], gfMul(coef, src[c]))] for every [c]. *)
Definition mul_acc (coef : byte) (src : shard) (shardSize : nat) (out : shard) : shard :=
  for_range 0 shardSize (λ out c, <[c := gfAdd (out !!! c) (gfMul coef (src !!! c))]> out) out.

Definition rebuild_shard (k : nat) (inv : matrix) (shards : list shard) (basis : list nat)
    (shardSize d : nat) : shard :=
  for_range 0 k (λ out j,
    let coef := get inv d j in
    if bool_decide (coef = x00) then out
    else mul_acc coef (shards !!! (basis !!! j)) shardSize out)
    (replicate shardSize x00).

Definition Reconstruct (e : Encoder) (shards : list shard) : result rs_error (list shard) :=
  let k := enc_k e in
  if negb (length shards =? k + enc_m e) then Err ErrShardCount
  else
    '(survIdx, sz) ←? scan_shards 0 shards [] None;
    let shardSize := default 0 sz in
    if length survIdx <? k then Err ErrTooFewShards
    else if forallb (λ i, negb (length (shards !!! i) =? 0)) (seq 0 k) then Ok shards
    else
      let basis := take k survIdx in
      match invert (subMatrix (encMat e) basis) with
      | Err er => Err (ErrInvert er)
      | Ok inv =>
          (* [rebuilt[d]] is [None] where the code leaves it nil *)
          let rebuilt := (λ d, if 0 <? length (shards !!! d) then None
                               else Some (rebuild_shard k inv shards basis shardSize d))
                         <$> seq 0 k in
          Ok (for_range 0 k (λ shards d,
            match rebuilt !!! d with
            | Some s => <[d := s]> shards
            | None => shards
            end) shards)
      end.

(** ** The byte loops compute the field operation *)

(** [acc_upto n g out0 out]: the first [n] bytes of [out] are those of [out0]
    plus [g], the others are untouched. *)
Definition acc_upto (n : nat) (g : nat → byte) (out0 out : shard) : Prop :=
  length out = length out0 ∧
  ∀ c, c < length out0 →
    out !!! c = if decide (c < n) then gfAdd (out0 !!! c) (g c) else out0 !!! c.

Lemma acc_upto_0 g out : acc_upto 0 g out out.
Proof. split; [done|]. intros. by rewrite decide_False by lia. Qed.

Lemma acc_upto_step n g out0 out :
  acc_upto n g out0 out → n < length out0 →
  acc_upto (n + 1) g out0 (<[n := gfAdd (out !!! n) (g n)]> out).
Proof.
  intros [Hl Hg] Hn. split; [by rewrite length_insert|]. intros c Hc.
  rewrite lookup_total_insert_list by lia. rewrite !Hg by done.
  repeat case_decide; subst; try done; try lia.
Qed.

Lemma mul_acc_spec coef src n out :
  n ≤ length out → acc_upto n (λ c, gfMul coef (src !!! c)) out (mul_acc coef src n out).
Proof.
  intros Hn. apply (for_range_0_ind (λ i o, acc_upto i _ out o) n); [apply acc_upto_0|].
  intros i o Hi Ho. rewrite <- Nat.add_1_r. apply acc_upto_step; [done | lia].
Qed.

Lemma fillMulTable_spec t coef :
  length t = 256 →
  length (fillMulTable t coef) = 256 ∧
  ∀ b, fillMulTable t coef !!! N.to_nat (Byte.to_N b) = gfMul coef b.
Proof.
  intros Ht. assert (∀ b, N.to_nat (Byte.to_N b) < 256) as Hlt.
  { intros b. pose proof (to_N_lt b). lia. }
  unfold fillMulTable. case_bool_decide as Hc; [subst|].
  - destruct (for_range_0_ind (λ i t', length t' = 256 ∧ ∀ j, j < i → t' !!! j = x00) 256
      (λ t i, <[i := x00]> t) t) as [Hl H0]; [split; [done | lia] | |].
    + intros i t' Hi [Hl H]. split; [by rewrite length_insert|]. intros j Hj.
      rewrite lookup_total_insert_list by lia. case_decide; [done|]. apply H. lia.
    + split; [done|]. intros b. rewrite H0, gfMul_0_l by apply Hlt. done.
  - destruct (for_range_ind (λ i t', length t' = 256 ∧ ∀ b, N.to_nat (Byte.to_N b) < i →
      t' !!! N.to_nat (Byte.to_N b) = gfMul coef b) 1 255
      (λ t b, <[b := gfExp !!! (log_of coef + log_of (to_byte (N.of_nat b)))]> t)
      (<[0 := x00]> t)) as [Hl H].
    + split; [by rewrite length_insert|]. intros b Hb.
      assert (b = x00) as -> by (apply to_N_inj; simpl; lia).
      simpl. rewrite lookup_total_insert_list by lia. by rewrite gfMul_0_r.
    + intros i t' Hi [Hl H]. split; [by rewrite length_insert|]. intros b Hb.
      rewrite lookup_total_insert_list by lia. case_decide as Hbi; [|apply H; lia].
      replace (to_byte (N.of_nat i)) with b
        by (rewrite <- Hbi, N2Nat.id; symmetry; apply to_byte_to_N).
      unfold gfMul. rewrite !bool_decide_false; [done | |done].
      intros ->. simpl in Hbi. lia.
    + split; [done|]. intros b. apply H. apply Hlt.
Qed.

Section xor_loops.
Context (t src : list byte) (coef : byte) (size : nat) (out0 : shard).
Hypothesis Ht : ∀ b, t !!! N.to_nat (Byte.to_N b) = gfMul coef b.
Hypothesis Hsize : length out0 = size.
Let g := λ c, gfMul coef (src !!! c).

Lemma xor_at_spec out c :
  acc_upto c g out0 out → c < size → acc_upto (c + 1) g out0 (xor_at t src out c).
Proof. intros H Hc. unfold xor_at. rewrite Ht. apply acc_upto_step; [done | lia]. Qed.

Lemma xor_loop8_spec fuel out c :
  acc_upto c g out0 out → c ≤ size →
  let '(out', c') := xor_loop8 fuel t src size out c in
  acc_upto c' g out0 out' ∧ c' ≤ size.
Proof.
  revert out c. induction fuel as [|fuel IH]; intros out c H Hc; simpl; [done|].
  destruct (Nat.leb_spec (c + 8) size) as [H8|]; [|done]. apply IH; [|done].
  rewrite (Nat.add_0_r c).
  do 7 (rewrite ?Nat.add_0_r;
    match goal with |- acc_upto (c + ?n) _ _ (xor_at _ _ _ ?d) =>
      replace (c + n) with (d + 1) by lia; apply xor_at_spec; [|lia] end).
  replace (c + 1) with (c + 1) by lia. by apply xor_at_spec; [|lia].
Qed.

Lemma xor_loop1_spec fuel out c :
  acc_upto c g out0 out → c ≤ size → size ≤ c + fuel →
  acc_upto size g out0 (xor_loop1 fuel t src size out c).
Proof.
  revert out c. induction fuel as [|fuel IH]; intros out c H Hc Hf; simpl.
  - by replace size with c by lia.
  - destruct (Nat.ltb_spec c size).
    + apply IH; [by apply xor_at_spec | lia | lia].
    + by replace size with c by lia.
Qed.
End xor_loops.

(** One coefficient of the optimised loop adds [coef * src] to the output. *)
Lemma encode_coef_spec row shards size tbl out kIdx :
  length tbl = 256 → length out = size →
  let '(tbl', out') := encode_coef row shards size (tbl, out) kIdx in
  length tbl' = 256 ∧
  acc_upto size (λ c, gfMul (row !!! kIdx) ((shards !!! kIdx) !!! c)) out out'.
Proof.
  intros Ht Ho. unfold encode_coef. case_bool_decide as Hc.
  - split; [done|]. split; [done|]. intros c ?. rewrite Hc. case_decide; [|done]. ring.
  - destruct (fillMulTable_spec tbl (row !!! kIdx) Ht) as [Hl Hg].
    set (t := fillMulTable tbl (row !!! kIdx)) in *.
    pose proof (xor_loop8_spec t (shards !!! kIdx) (row !!! kIdx) size out Hg Ho size out 0
      (acc_upto_0 _ _) (Nat.le_0_l _)) as H8.
    destruct (xor_loop8 _ _ _ _ _ _) as [out1 c]. destruct H8 as [H8 Hcs].
    split; [done|]. eapply xor_loop1_spec; try done. lia.
Qed.

(** The reference value of byte [c] of parity shard [p]. *)
Definition parity_byte (e : Encoder) (dataShards : list shard) (p c : nat) : byte :=
  bsum (enc_k e) (λ j, gfMul (get (encMat e) (enc_k e + p) j) ((dataShards !!! j) !!! c)).

Definition shards_of_size (k L : nat) (l : list shard) : Prop :=
  length l = k ∧ ∀ s, s ∈ l → length s = L.

Lemma check_sizes_same L l i :
  (∀ s, s ∈ l → length s = L) → check_sizes i l (Some L) = Ok (Some L).
Proof.
  revert i. induction l as [|s l IH]; intros i H; simpl; [done|].
  rewrite (H s), Nat.eqb_refl by (by left). apply IH. intros; apply H; by right.
Qed.

Lemma check_sizes_first L l :
  l ≠ [] → (∀ s, s ∈ l → length s = L) → check_sizes 0 l None = Ok (Some L).
Proof.
  destruct l as [|s l]; intros Hne H; [done|]. simpl.
  rewrite (H s) by (by left). apply check_sizes_same. intros; apply H; by right.
Qed.

Section encode.
Context (e : Encoder) (L : nat) (dataShards : list shard).
Hypothesis He : shaped (enc_k e + enc_m e) (enc_k e) (encMat e).
Hypothesis Hdata : shards_of_size (enc_k e) L dataShards.
Hypothesis Hk : enc_k e ≠ 0.
Hypothesis HL : L ≠ 0.

(** The inner loops compute one parity shard. *)
Lemma encode_row_spec p tbl out :
  p < enc_m e → length tbl = 256 → out = replicate L x00 →
  let '(tbl', out') := for_range 0 (enc_k e)
    (encode_coef (row (encMat e) (enc_k e + p)) dataShards L) (tbl, out) in
  length tbl' = 256 ∧ length out' = L ∧
  ∀ c, c < L → out' !!! c = parity_byte e dataShards p c.
Proof.
  intros Hp Ht Ho.
  refine (for_range_0_ind (λ kIdx '(tbl', out'), length tbl' = 256 ∧ length out' = L ∧
    ∀ c, c < L → out' !!! c = bsum kIdx (λ j,
      gfMul (get (encMat e) (enc_k e + p) j) ((dataShards !!! j) !!! c)))
    (enc_k e) _ (tbl, out) _ _).
  - subst out. split_and!; [done | by rewrite length_replicate |].
    intros c Hc. by rewrite lookup_total_replicate_2.
  - intros kIdx [tbl1 out1] Hkx (Ht1 & Hl1 & Hg1).
    pose proof (encode_coef_spec (row (encMat e) (enc_k e + p)) dataShards L tbl1 out1 kIdx
      Ht1 Hl1) as Hc.
    destruct (encode_coef _ _ _ _ _) as [tbl2 out2]. destruct Hc as (Ht2 & Hl2 & Hg2).
    split_and!; [done | lia |]. intros c Hc.
    rewrite Hg2, decide_True, Hg1, bsum_S by lia. f_equal. f_equal.
    apply (row_lookup (enc_k e + enc_m e) (enc_k e)); [done | lia | done].
Qed.

Lemma Encode_ok :
  ∃ parity, Encode e dataShards = Ok parity ∧ shards_of_size (enc_m e) L parity ∧
    ∀ p c, p < enc_m e → c < L → (parity !!! p) !!! c = parity_byte e dataShards p c.
Proof.
  destruct Hdata as [Hlen Hsz]. unfold Encode. rewrite Hlen, Nat.eqb_refl. simpl.
  rewrite (check_sizes_first L); [|by intros ->|done]. simpl.
  rewrite bool_decide_false by congruence. eexists. split; [done|].
  match goal with |- context [snd ?r] => set (res := r) end.
  assert (length (res.1) = 256 ∧ length (res.2) = enc_m e ∧
    ∀ i, i < enc_m e → length (res.2 !!! i) = L ∧
      (i < enc_m e → ∀ c, c < L → (res.2 !!! i) !!! c = parity_byte e dataShards i c) ∧
      (enc_m e ≤ i → res.2 !!! i = replicate L x00)) as (_ & Hl & Hi).
  { subst res. refine (for_range_0_ind (λ p st, length st.1 = 256 ∧ length st.2 = enc_m e ∧
      ∀ i, i < enc_m e → length (st.2 !!! i) = L ∧
      (i < p → ∀ c, c < L → (st.2 !!! i) !!! c = parity_byte e dataShards i c) ∧
      (p ≤ i → st.2 !!! i = replicate L x00)) (enc_m e) _ _ _ _).
    - simpl. split_and!; [done | by rewrite length_replicate |]. intros i Hi.
      rewrite lookup_total_replicate_2, length_replicate by done. done || (split_and!; done || lia).
    - intros p [tbl parity] Hp (Ht & Hl & Hi). simpl in *.
      pose proof (encode_row_spec p tbl (parity !!! p) Hp Ht) as Hrow.
      destruct (for_range _ _ _ _) as [tbl' out'].
      destruct Hrow as (Ht' & Hlo & Hgo); [by apply Hi|]. simpl.
      split_and!; [done | by rewrite length_insert |]. intros i Him.
      rewrite lookup_total_insert_list by lia. destruct (Hi i Him) as (H1 & H2 & H3).
      case_decide; subst; split_and!; try done; intros; try lia.
      + apply H2; [lia | done].
      + apply H3. lia. }
  split; [split; [done|]|].
  - intros s Hs. apply list_elem_of_lookup in Hs as (i & Hs).
    assert (i < enc_m e) as Him by (rewrite <- Hl; by eapply lookup_lt_Some).
    destruct (Hi i Him) as (H1 & _). by rewrite (list_lookup_total_correct _ _ _ Hs) in H1.
  - intros p c Hp Hc. by apply Hi.
Qed.
End encode.

Lemma check_sizes_inv l i sz sz' :
  check_sizes i l (Some sz) = Ok sz' → sz' = Some sz ∧ ∀ s, s ∈ l → length s = sz.
Proof.
  revert i. induction l as [|s l IH]; intros i; simpl; intros H.
  - inv_ok. split; [done | set_solver].
  - destruct (Nat.eqb_spec (length s) sz) as [Hs|]; [|done].
    destruct (IH _ H) as [-> Hl]. split; [done|]. intros s' [->|?]%elem_of_cons; auto.
Qed.

(** [Encode] succeeds exactly on K equally long non-empty shards. *)
Lemma Encode_inv e dataShards parity :
  Encode e dataShards = Ok parity → enc_k e ≠ 0 →
  ∃ L, L ≠ 0 ∧ shards_of_size (enc_k e) L dataShards.
Proof.
  unfold Encode. destruct (Nat.eqb_spec (length dataShards) (enc_k e)) as [Hl|]; [|done].
  simpl. intros H Hk. apply rbind_ok in H as (sz & Hsz & H).
  destruct dataShards as [|s l]; [done|]. simpl in Hsz.
  apply check_sizes_inv in Hsz as [-> Hs].
  case_bool_decide as H0; [done|]. exists (length s). split; [congruence|].
  split; [done|]. intros s' [->|?]%elem_of_cons; auto.
Qed.

(** ** Reconstruct *)

(** [shards] is [full] with some shards erased (nil or empty). *)
Definition erasure (full shards : list shard) : Prop :=
  Forall2 (λ s t, t = s ∨ t = []) full shards.

(** The number of shards that survive. *)
Fixpoint surv_from (i : nat) (l : list shard) : list nat :=
  match l with
  | [] => []
  | s :: l => (if 0 <? length s then [i] else []) ++ surv_from (i + 1) l
  end.
Definition survivors (l : list shard) : nat := length (surv_from 0 l).

Lemma surv_from_elem l i j :
  j ∈ surv_from i l → ∃ n s, j = i + n ∧ l !! n = Some s ∧ s ≠ [].
Proof.
  revert i. induction l as [|s l IH]; intros i; simpl; [set_solver|].
  intros [H|H]%elem_of_app.
  - destruct s; simpl in H; [set_solver|]. apply list_elem_of_singleton in H as ->.
    exists 0, (b :: s). split_and!; [lia | done | done].
  - destruct (IH _ H) as (n & s' & -> & Hs & Hne). exists (S n), s'. split_and!; [lia | done..].
Qed.

Lemma surv_from_NoDup l i : NoDup (surv_from i l).
Proof.
  revert i. induction l as [|s l IH]; intros i; simpl; [constructor|].
  apply NoDup_app. split_and!; [destruct (0 <? length s); repeat constructor; set_solver | | done].
  intros j Hj Hj'. destruct (surv_from_elem _ _ _ Hj') as (n & s' & -> & _).
  destruct (0 <? length s); [|set_solver]. apply list_elem_of_singleton in Hj. lia.
Qed.

Lemma scan_shards_spec L l i acc sz :
  L ≠ 0 → (∀ s, s ∈ l → length s = L ∨ s = []) → (sz = None ∧ acc = [] ∨ sz = Some L) →
  ∃ sz', scan_shards i l acc sz = Ok (acc ++ surv_from i l, sz') ∧
         (sz' = None ∧ acc ++ surv_from i l = [] ∨ sz' = Some L).
Proof.
  intros HL. revert i acc sz. induction l as [|s l IH]; intros i acc sz Hl Hsz; simpl.
  { rewrite app_nil_r. eauto. }
  assert (∀ s', s' ∈ l → length s' = L ∨ s' = []) as Hl' by (intros; apply Hl; by right).
  destruct (Hl s) as [Hs|Hs]; [by left| |].
  - destruct (Nat.ltb_spec 0 (length s)); [|lia].
    destruct (IH (i + 1) (acc ++ [i]) (Some L) Hl' (or_intror eq_refl)) as (sz' & H1 & H2).
    exists sz'. rewrite <- app_assoc in H1, H2. split; [|done].
    destruct Hsz as [[-> _]| ->].
    + by rewrite Hs.
    + by rewrite Hs, Nat.eqb_refl.
  - rewrite Hs. simpl. by apply IH.
Qed.

Lemma rebuild_shard_spec k inv shards basis L d :
  length (rebuild_shard k inv shards basis L d) = L ∧
  ∀ c, c < L → rebuild_shard k inv shards basis L d !!! c =
    bsum k (λ j, gfMul (get inv d j) ((shards !!! (basis !!! j)) !!! c)).
Proof.
  unfold rebuild_shard.
  refine (for_range_0_ind (λ j out, length out = L ∧ ∀ c, c < L → out !!! c =
    bsum j (λ j, gfMul (get inv d j) ((shards !!! (basis !!! j)) !!! c))) k _ _ _ _).
  - split; [by rewrite length_replicate|]. intros c Hc. by rewrite lookup_total_replicate_2.
  - intros j out Hj [Hl Hg]. case_bool_decide as H0.
    + split; [done|]. intros c Hc. rewrite Hg, bsum_S, H0 by done. ring.
    + destruct (mul_acc_spec (get inv d j) (shards !!! (basis !!! j)) L out) as [Hl' Hg'];
        [lia|]. split; [lia|]. intros c Hc.
      rewrite Hg', decide_True, Hg, bsum_S by lia. done.
Qed.

(** The write-back loop. *)
Lemma write_back_spec k (rebuilt : list (option shard)) (shards : list shard) :
  k ≤ length shards →
  let shards' := for_range 0 k (λ shards d,
    match rebuilt !!! d with Some s => <[d := s]> shards | None => shards end) shards in
  length shards' = length shards ∧
  ∀ i, shards' !! i = if decide (i < k) then
    match rebuilt !!! i with Some s => Some s | None => shards !! i end else shards !! i.
Proof.
  intros Hk.
  refine (for_range_0_ind (λ d sh, length sh = length shards ∧ ∀ i, sh !! i =
    if decide (i < d) then
      match rebuilt !!! i with Some s => Some s | None => shards !! i end
    else shards !! i) k _ _ _ _).
  - split; [done|]. intros i. by rewrite decide_False by lia.
  - intros d sh Hd [Hl Hg]. destruct (rebuilt !!! d) as [s|] eqn:Hr.
    + split; [by rewrite length_insert|]. intros i.
      destruct (decide (i = d)) as [->|Hid].
      * rewrite list_lookup_insert_eq, decide_True by lia. by rewrite Hr.
      * rewrite list_lookup_insert_ne, Hg by done. repeat case_decide; done || lia.
    + split; [done|]. intros i. rewrite Hg.
      repeat case_decide; try done; try lia.
      replace i with d by lia. by rewrite Hr.
Qed.

(** ** The encoder is correct *)

Lemma NewEncoder_inv k m e :
  NewEncoder k m = Ok e →
  (0 < k ∧ 0 < m ∧ k + m ≤ 256)%Z ∧
  enc_k e = Z.to_nat k ∧ enc_m e = Z.to_nat m ∧
  encoding_matrix (enc_k e) (enc_m e) (encMat e).
Proof.
  unfold NewEncoder. destruct (_ || _)%Z eqn:E1; [done|]. destruct (2 ^ 63 <=? _)%Z; [done|].
  destruct (256 <? _)%Z eqn:E2; [done|].
  destruct (makeSystematicEncoding_spec (Z.to_nat k) (Z.to_nat m)) as (enc & -> & Henc); [lia|].
  intros H. inv_ok. split; [lia|]. done.
Qed.

Section codeword.
Context (k m : Z) (e : Encoder) (dataShards parity : list shard) (L : nat).
Hypothesis Hnew : NewEncoder k m = Ok e.
Hypothesis Henc : Encode e dataShards = Ok parity.
Hypothesis HL : L ≠ 0.
Hypothesis Hdata : shards_of_size (enc_k e) L dataShards.

Local Lemma enc_ok : encoding_matrix (enc_k e) (enc_m e) (encMat e).
Proof. by apply NewEncoder_inv in Hnew as (_ & _ & _ & ?). Qed.
Local Lemma enc_k_pos : enc_k e ≠ 0.
Proof. apply NewEncoder_inv in Hnew as (? & ? & _). lia. Qed.

Local Lemma parity_ok :
  shards_of_size (enc_m e) L parity ∧
  ∀ p c, p < enc_m e → c < L → (parity !!! p) !!! c = parity_byte e dataShards p c.
Proof.
  destruct (Encode_ok e L dataShards (enc_shaped _ _ _ enc_ok) Hdata enc_k_pos HL)
    as (p & Hp & ?). rewrite Henc in Hp. by simplify_eq.
Qed.

(** Shard [i] of the codeword is row [i] of the encoding matrix times the data. *)
Lemma codeword_byte i s c :
  (dataShards ++ parity) !! i = Some s → c < L →
  length s = L ∧ i < enc_k e + enc_m e ∧
  s !!! c = dot (encMat e) i (enc_k e) (λ j, (dataShards !!! j) !!! c).
Proof.
  intros Hi Hc. destruct Hdata as [Hdl Hds]. destruct parity_ok as [[Hpl Hps] Hpb].
  apply lookup_app_Some in Hi as [Hi|[Hge Hi]].
  - assert (i < enc_k e) as Hik by (rewrite <- Hdl; by eapply lookup_lt_Some).
    split_and!; [by eapply Hds, list_elem_of_lookup_2 | lia |].
    unfold dot. rewrite (bsum_single _ i); [|done|].
    + rewrite (enc_systematic _ _ _ enc_ok), decide_True by done.
      rewrite (list_lookup_total_correct _ _ _ Hi). ring.
    + intros j Hj Hji. rewrite (enc_systematic _ _ _ enc_ok), decide_False by done. ring.
  - rewrite Hdl in *.
    assert (i - enc_k e < enc_m e) as Him by (rewrite <- Hpl; by eapply lookup_lt_Some).
    split_and!; [by eapply Hps, list_elem_of_lookup_2 | lia |].
    rewrite <- (list_lookup_total_correct _ _ _ Hi), Hpb by done.
    unfold parity_byte, dot. by replace (enc_k e + (i - enc_k e)) with i by lia.
Qed.

Context (shards : list shard).
Hypothesis Her : erasure (dataShards ++ parity) shards.

Local Lemma shards_length : length shards = enc_k e + enc_m e.
Proof.
  apply Forall2_length in Her. rewrite <- Her, length_app.
  destruct Hdata as [-> _]. by destruct parity_ok as [[-> _] _].
Qed.

Local Lemma shard_cases i s :
  shards !! i = Some s → s = [] ∨ (dataShards ++ parity) !! i = Some s ∧ length s = L.
Proof.
  intros Hi. destruct (Forall2_lookup_r _ _ _ _ _ Her Hi) as (s' & Hs' & [->| ->]); [|by left].
  right. split; [done|]. destruct (codeword_byte i s' 0 Hs'); [lia | done].
Qed.

(** Any K survivors determine the data: the rows of the encoding matrix they
    occupy are invertible and the inverse maps the survivors to the data. *)
Lemma rebuild_correct basis :
  NoDup basis → length basis = enc_k e →
  (∀ i, i ∈ basis → ∃ s, shards !! i = Some s ∧ s ≠ []) →
  ∃ inv, invert (subMatrix (encMat e) basis) = Ok inv ∧
    ∀ d, d < enc_k e →
      dataShards !! d = Some (rebuild_shard (enc_k e) inv shards basis L d).
Proof.
  intros Hnd Hlen Hs. pose proof (enc_shaped _ _ _ enc_ok) as Hshape.
  assert (∀ i, i ∈ basis → i < enc_k e + enc_m e) as Hlt.
  { intros i Hi. destruct (Hs i Hi) as (s & Hsi & _).
    rewrite <- shards_length. by eapply lookup_lt_Some. }
  destruct (subMatrix_spec _ _ (encMat e) basis Hshape Hlt) as [Hss Hsg].
  rewrite Hlen in Hss. set (sub := subMatrix (encMat e) basis) in *.
  assert (∀ j x, j < enc_k e → dot sub j (enc_k e) x = dot (encMat e) (basis !!! j) (enc_k e) x)
    as Hsub.
  { intros j x Hj. apply dot_ext. intros c Hc. apply Hsg; [|done].
    apply list_lookup_lookup_total_lt. lia. }
  destruct (invert_total (enc_k e) sub Hss) as (inv & Hinv).
  { intros x Hx. apply (enc_mds _ _ _ enc_ok basis x Hnd Hlen Hlt).
    intros i Hi. apply list_elem_of_lookup in Hi as (j & Hj).
    assert (j < enc_k e) as Hjk by (rewrite <- Hlen; by eapply lookup_lt_Some).
    rewrite <- (Hx j Hjk), Hsub by done. by rewrite (list_lookup_total_correct _ _ _ Hj). }
  exists inv. split; [done|]. intros d Hd. destruct Hdata as [Hdl Hds].
  destruct (lookup_lt_is_Some_2 dataShards d) as [sd Hsd]; [lia|].
  rewrite Hsd. f_equal. destruct (rebuild_shard_spec (enc_k e) inv shards basis L d) as [Hrl Hrb].
  apply (list_eq_same_length _ _ L); [by rewrite Hrl | by eapply Hds, list_elem_of_lookup_2 |].
  intros c x y Hc Hx Hy. apply list_lookup_total_correct in Hx, Hy. rewrite <- Hx, <- Hy.
  rewrite Hrb by done. symmetry.
  destruct (invert_ok (enc_k e) sub inv Hss Hinv) as [_ Hiff].
  rewrite <- (list_lookup_total_correct _ _ _ Hsd).
  refine (proj1 (Hiff (λ j, (dataShards !!! j) !!! c)
    (λ j, (shards !!! (basis !!! j)) !!! c)) _ d Hd).
  intros j Hj. rewrite Hsub by done.
  assert (basis !! j = Some (basis !!! j)) as Hbj
    by (apply list_lookup_lookup_total_lt; lia).
  destruct (Hs (basis !!! j)) as (s & Hsj & Hne); [by eapply list_elem_of_lookup_2|].
  destruct (shard_cases _ _ Hsj) as [->|[Hf _]]; [done|].
  rewrite (list_lookup_total_correct _ _ _ Hsj). symmetry. by apply codeword_byte.
Qed.
End codeword.

(** ** Properties *)

(** The substance of [Reconstruct_recovers], for the callers of the encoder. *)
Lemma Reconstruct_erasure k m e dataShards parity shards :
  NewEncoder k m = Ok e →
  Encode e dataShards = Ok parity →
  erasure (dataShards ++ parity) shards →
  enc_k e ≤ survivors shards →
  ∃ shards', Reconstruct e shards = Ok shards' ∧
    take (enc_k e) shards' = dataShards ∧
    drop (enc_k e) shards' = drop (enc_k e) shards.
Proof.
  intros Hnew Henc Her Hsurv.
  assert (enc_k e ≠ 0) as Hk by (apply NewEncoder_inv in Hnew as (? & ? & _); lia).
  destruct (Encode_inv _ _ _ Henc Hk) as (L & HL & Hdata).
  pose proof (shards_length k m e dataShards parity L Hnew Henc HL Hdata shards Her) as Hlen.
  pose proof (shard_cases k m e dataShards parity L Hnew Henc HL Hdata shards Her) as Hcase.
  destruct Hdata as [Hdl Hds]. unfold Reconstruct. rewrite Hlen, Nat.eqb_refl. simpl.
  destruct (scan_shards_spec L shards 0 [] None HL) as (sz & Hscan & Hsz); [|by left|].
  { intros s (i & Hi)%list_elem_of_lookup. destruct (Hcase i s Hi) as [?|[_ ?]]; auto. }
  rewrite Hscan. simpl in Hsz |- *. unfold survivors in Hsurv.
  destruct (Nat.ltb_spec (length (surv_from 0 shards)) (enc_k e)); [lia|].
  destruct Hsz as [[_ E]|Hsz]; [rewrite E in Hsurv; simpl in Hsurv; lia|]. subst sz. simpl.
  assert (∀ i, i < enc_k e → shards !!! i ≠ [] → shards !! i = dataShards !! i) as Hkeep.
  { intros i Hi Hne. destruct (lookup_lt_is_Some_2 shards i) as [s Hs]; [lia|].
    destruct (Hcase i s Hs) as [->|[Hf _]].
    - by rewrite (list_lookup_total_correct _ _ _ Hs) in Hne.
    - rewrite lookup_app_l in Hf by lia. by rewrite Hs. }
  destruct (forallb _ _) eqn:Hall.
  - exists shards. split_and!; [done | |done]. rewrite forallb_forall in Hall.
    apply list_eq. intros i. rewrite lookup_take. case_decide as Hi.
    + apply Hkeep; [done|]. intros E. specialize (Hall i). rewrite E in Hall.
      discriminate Hall. apply in_seq. lia.
    + symmetry. apply lookup_ge_None_2. lia.
  - set (basis := take (enc_k e) (surv_from 0 shards)).
    destruct (rebuild_correct k m e dataShards parity L Hnew Henc HL (conj Hdl Hds)
      shards Her basis) as (inv & Hinv & Hreb).
    { eapply sublist_NoDup; [apply (surv_from_NoDup shards 0) | apply sublist_take]. }
    { unfold basis. rewrite length_take. lia. }
    { intros i Hi. apply elem_of_take in Hi as (? & Hi'%list_elem_of_lookup_2 & _).
      destruct (surv_from_elem _ _ _ Hi') as (n & s & -> & ? & ?). eauto. }
    rewrite Hinv. eexists. split; [done|].
    match goal with |- take _ (for_range 0 _ (λ _ d, match ?r !!! _ with _ => _ end) _) = _ ∧ _ =>
      set (rebuilt := r) end.
    destruct (write_back_spec (enc_k e) rebuilt shards) as [Hwl Hw]; [lia|].
    split; apply list_eq; intros i.
    + rewrite lookup_take. case_decide as Hi; [|symmetry; apply lookup_ge_None_2; lia].
      rewrite Hw, decide_True by done.
      assert (rebuilt !!! i = if 0 <? length (shards !!! i) then None
        else Some (rebuild_shard (enc_k e) inv shards basis L i)) as ->.
      { unfold rebuilt. apply list_lookup_total_correct.
        rewrite list_lookup_fmap, lookup_seq_lt by done. done. }
      destruct (Nat.ltb_spec 0 (length (shards !!! i))) as [Hp|Hp].
      * apply Hkeep; [done|]. intros E. rewrite E in Hp. simpl in Hp. lia.
      * symmetry. by apply Hreb.
    + rewrite !lookup_drop, Hw. by rewrite decide_False by lia.
Qed.

(** C17: any K surviving shards recover the data.  For an encoder built by
    [NewEncoder k m], data shards that [Encode] accepts and any erasure of the
    K+M shards that leaves at least K of them, [Reconstruct] succeeds, its first
    K shards are the original data, and it leaves the parity positions alone. *)
Theorem Reconstruct_recovers k m e dataShards parity shards :
  NewEncoder k m = Ok e →
  Encode e dataShards = Ok parity →
  erasure (dataShards ++ parity) shards →
  enc_k e ≤ survivors shards →
  ∃ shards', Reconstruct e shards = Ok shards' ∧
    take (enc_k e) shards' = dataShards ∧
    drop (enc_k e) shards' = drop (enc_k e) shards.
Proof. apply Reconstruct_erasure. Qed.

(** A (3,2) encoder and a stripe of two-byte shards, two of them lost. *)
Definition enc32 : Encoder :=
  Eval vm_compute in match NewEncoder 3 2 with Ok e => e | Err _ => MkEncoder 0 0 (newMatrix 0 0) end.
Definition data32 : list shard := [[x01; xff]; [x02; x80]; [x10; x00]].
Definition parity32 : list shard :=
  Eval vm_compute in match Encode enc32 data32 with Ok p => p | Err _ => [] end.
Definition lost32 : list shard := [[]; [x02; x80]; []] ++ parity32.

Lemma Reconstruct_recovers_witness :
  ∃ shards', Reconstruct enc32 lost32 = Ok shards' ∧
    take 3 shards' = data32 ∧ drop 3 shards' = parity32.
Proof.
  apply (Reconstruct_recovers 3 2 enc32 data32 parity32 lost32).
  - vm_compute. reflexivity.
  - vm_compute. reflexivity.
  - repeat (apply Forall2_cons; split; [auto|]). apply Forall2_nil_2.
  - apply Nat.leb_le. vm_compute. reflexivity.
Defined.

(** With fewer than K survivors of a uniform stripe, [Reconstruct] returns
    [ErrTooFewShards] and changes nothing. *)
Theorem Reconstruct_too_few e shards L :
  length shards = enc_k e + enc_m e → L ≠ 0 →
  (∀ s, s ∈ shards → length s = L ∨ s = []) →
  survivors shards < enc_k e →
  Reconstruct e shards = Err ErrTooFewShards.
Proof.
  intros Hl HL Hs Hsurv. unfold Reconstruct. rewrite Hl, Nat.eqb_refl. simpl.
  destruct (scan_shards_spec L shards 0 [] None HL Hs) as (sz & -> & _); [by left|]. simpl.
  unfold survivors in Hsurv. by destruct (Nat.ltb_spec (length (surv_from 0 shards)) (enc_k e)); [|lia].
Qed.

Lemma Reconstruct_too_few_witness :
  Reconstruct enc32 ([[]; []; []] ++ parity32) = Err ErrTooFewShards.
Proof.
  apply (Reconstruct_too_few enc32 ([[]; []; []] ++ parity32) 2).
  - reflexivity. - lia.
  - unfold parity32. intros s Hs.
    repeat (apply elem_of_cons in Hs as [->|Hs]; [simpl; auto|]). by apply not_elem_of_nil in Hs.
  - apply Nat.ltb_lt. vm_compute. reflexivity.
Defined.

(** [NewEncoder] accepts exactly K, M > 0 with K+M ≤ 256 (a sum that
    overflows makes it panic instead of being refused), never fails to
    build the matrix inside that range, and the matrix it builds is systematic
    and MDS: its first K rows are the identity and any K distinct rows have a
    trivial kernel. *)
Theorem NewEncoder_total k m :
  match NewEncoder k m with
  | Ok e => (0 < k ∧ 0 < m ∧ k + m ≤ 256)%Z ∧ enc_k e = Z.to_nat k ∧ enc_m e = Z.to_nat m ∧
            encoding_matrix (enc_k e) (enc_m e) (encMat e)
  | Err ErrNotPositive => (k ≤ 0 ∨ m ≤ 0)%Z
  | Err ErrCapacity => (0 < k ∧ 0 < m ∧ 256 < k + m < 2 ^ 63)%Z
  | Err ErrPanic => (0 < k ∧ 0 < m ∧ 2 ^ 63 ≤ k + m)%Z
  | Err _ => False
  end.
Proof.
  destruct (NewEncoder k m) as [e|er] eqn:E; [by apply NewEncoder_inv|].
  unfold NewEncoder in E. destruct (_ || _)%Z eqn:E1; [simplify_eq; lia|].
  destruct (Z.leb_spec (2 ^ 63) (k + m)); [simplify_eq; lia|].
  destruct (256 <? _)%Z eqn:E2; [simplify_eq; lia|].
  destruct (makeSystematicEncoding_spec (Z.to_nat k) (Z.to_nat m)) as (enc & Hm & _); [lia|].
  by rewrite Hm in E.
Qed.

(** C18: the optimised [Encode] (per-coefficient product tables, eight-way
    unrolling, skipped zero coefficients) computes the matrix product over
    GF(2^8): it accepts exactly K equally long non-empty shards and byte [c] of
    parity shard [p] is the sum over [j] of [encMat[K+p][j] * data[j][c]]. *)
Theorem Encode_reference k m e L dataShards :
  NewEncoder k m = Ok e → L ≠ 0 → shards_of_size (enc_k e) L dataShards →
  ∃ parity, Encode e dataShards = Ok parity ∧ shards_of_size (enc_m e) L parity ∧
    ∀ p c, p < enc_m e → c < L →
      (parity !!! p) !!! c = bsum (enc_k e) (λ j,
        gfMul (get (encMat e) (enc_k e + p) j) ((dataShards !!! j) !!! c)).
Proof.
  intros Hnew HL Hd. apply NewEncoder_inv in Hnew as (? & Hk & Hm & Henc).
  apply Encode_ok; [by apply enc_shaped | done | lia | done].
Qed.

Lemma Encode_reference_witness :
  ∃ parity, Encode enc32 data32 = Ok parity ∧ shards_of_size 2 2 parity ∧
    ∀ p c, p < 2 → c < 2 → (parity !!! p) !!! c = bsum 3 (λ j,
        gfMul (get (encMat enc32) (3 + p) j) ((data32 !!! j) !!! c)).
Proof.
  apply (Encode_reference 3 2 enc32 2 data32).
  - vm_compute. reflexivity. - lia.
  - split; [reflexivity|]. intros s Hs. unfold data32 in Hs.
    repeat (apply elem_of_cons in Hs as [->|Hs]; [reflexivity|]). by apply not_elem_of_nil in Hs.
Defined.
