(* ===== verification/GoLib.v ===== *)
(** * The parts of the Go standard library the program computes with

    [crypto/sha256], [encoding/hex], [crypto/hmac], [encoding/binary] (big
    endian), [sort.Strings] and [sort.Slice], [strings.HasPrefix], [strings.Cut],
    [strings.Join], [strconv] (base 10) and unsigned 64-bit arithmetic.  Go strings are byte strings
    ([String.string], one [ascii] per byte); [[]byte] is [list byte]. *)
From S2P Require Import Prelude GF.
From Stdlib Require Import Strings.Byte Strings.Ascii Numbers.DecimalString Numbers.DecimalZ Numbers.DecimalPos.

(** ** Unsigned machine integers *)
Definition u64 (z : Z) : Z := (z mod 2 ^ 64)%Z.
(** Signed 64-bit wrap-around. *)
Definition i64 (z : Z) : Z := ((z + 2 ^ 63) mod 2 ^ 64 - 2 ^ 63)%Z.
Lemma i64_small z : (- 2 ^ 63 ≤ z < 2 ^ 63)%Z → i64 z = z.
Proof. intros Hz. unfold i64. rewrite Z.mod_small; lia. Qed.
Lemma i64_add_l a b : i64 (i64 a + b) = i64 (a + b).
Proof.
  unfold i64. f_equal.
  replace ((a + 2 ^ 63) `mod` 2 ^ 64 - 2 ^ 63 + b + 2 ^ 63)%Z with ((a + 2 ^ 63) `mod` 2 ^ 64 + b)%Z by lia.
  rewrite Zplus_mod_idemp_l. f_equal. lia.
Qed.

Lemma i64_idemp a : i64 (i64 a) = i64 a.
Proof.
  pose proof (i64_add_l a 0) as E. rewrite !Z.add_0_r in E. exact E.
Qed.
Lemma u64_range z : (0 ≤ u64 z < 2 ^ 64)%Z.
Proof. apply Z.mod_pos_bound. lia. Qed.
Lemma u64_small z : (0 ≤ z < 2 ^ 64)%Z → u64 z = z.
Proof. intros. by apply Z.mod_small. Qed.

(** ** Strings and bytes *)
Definition bytes_of (s : string) : list byte := String.list_byte_of_string s.
Definition string_of (l : list byte) : string := String.string_of_list_byte l.

Lemma string_of_bytes_of s : string_of (bytes_of s) = s.
Proof. apply String.string_of_list_byte_of_string. Qed.
Lemma bytes_of_string_of l : bytes_of (string_of l) = l.
Proof. apply String.list_byte_of_string_of_list_byte. Qed.
#[export] Instance string_of_inj : Inj (=) (=) string_of.
Proof. intros a b E. by rewrite <- (bytes_of_string_of a), E, bytes_of_string_of. Qed.
#[export] Instance bytes_of_inj : Inj (=) (=) bytes_of.
Proof. intros a b E. by rewrite <- (string_of_bytes_of a), E, string_of_bytes_of. Qed.

Lemma string_app_cons c (a b : string) : (String c a ++ b = String c (a ++ b))%string.
Proof. reflexivity. Qed.
Lemma string_app_nil_l (b : string) : ("" ++ b = b)%string.
Proof. reflexivity. Qed.
#[export] Hint Rewrite string_app_cons string_app_nil_l : gostr.
Ltac gostr := autorewrite with gostr in *.

Lemma string_app_assoc (a b c : string) : (a ++ (b ++ c) = (a ++ b) ++ c)%string.
Proof. induction a; gostr; congruence. Qed.
Lemma string_app_nil_r (a : string) : (a ++ "" = a)%string.
Proof. induction a; gostr; congruence. Qed.
Lemma string_length_app (a b : string) :
  String.length (a ++ b) = String.length a + String.length b.
Proof. induction a; gostr; simpl; congruence. Qed.
Lemma string_app_inv_head (a b c : string) : (a ++ b = a ++ c)%string → b = c.
Proof. induction a; gostr; [done|]. intros [=]. auto. Qed.

(** Characters of a string, as a list. *)
Fixpoint chars (s : string) : list ascii :=
  match s with EmptyString => [] | String c s => c :: chars s end.

Lemma chars_app (a b : string) : chars (a ++ b)%string = chars a ++ chars b.
Proof. induction a; gostr; simpl; congruence. Qed.
#[export] Instance chars_inj : Inj (=) (=) chars.
Proof.
  intros a. induction a as [|c a IH]; intros [|d b]; simpl; try done.
  intros [=]. f_equal; auto.
Qed.

(** [strings.HasPrefix(s, p)] *)
Fixpoint has_prefix (s p : string) : bool :=
  match p, s with
  | EmptyString, _ => true
  | String c p, String d s => bool_decide (c = d) && has_prefix s p
  | String _ _, EmptyString => false
  end.

Lemma has_prefix_spec s p : has_prefix s p = true ↔ ∃ t, s = (p ++ t)%string.
Proof.
  revert s. induction p as [|c p IH]; intros s; simpl.
  - split; [exists s; done | by destruct s].
  - destruct s as [|d s].
    { split; [done|]. intros (t & E). done. }
    simpl. rewrite andb_true_iff, IH, bool_decide_eq_true. split.
    + intros (-> & t & ->). exists t. by gostr.
    + intros (t & E). gostr. simplify_eq. eauto.
Qed.

(** [strings.Cut(s, sep)] for a one-byte separator. *)
Fixpoint cut (s : string) (sep : ascii) : option (string * string) :=
  match s with
  | EmptyString => None
  | String c s =>
      if bool_decide (c = sep) then Some (EmptyString, s)
      else match cut s sep with
           | Some (a, b) => Some (String c a, b)
           | None => None
           end
  end.

Definition no_char (c : ascii) (s : string) : Prop := c ∉ chars s.
#[export] Instance no_char_dec c s : Decision (no_char c s).
Proof. unfold no_char. apply _. Defined.

Lemma cut_some s sep a b :
  cut s sep = Some (a, b) → s = (a ++ String sep b)%string ∧ no_char sep a.
Proof.
  revert a b. induction s as [|c s IH]; intros a b; simpl; [done|].
  case_bool_decide as Hc.
  - intros [= <- <-]. subst. split; [done|]. unfold no_char. simpl. set_solver.
  - destruct (cut s sep) as [[a' b']|]; [|done]. intros [= <- <-].
    destruct (IH a' b' eq_refl) as [-> Hn]. split; [by gostr|].
    unfold no_char in *. simpl. set_solver.
Qed.

Lemma cut_none s sep : cut s sep = None ↔ no_char sep s.
Proof.
  unfold no_char. induction s as [|c s IH]; simpl; [set_solver|].
  case_bool_decide as Hc.
  - subst. split; [done|]. set_solver.
  - destruct (cut s sep) as [[a b]|] eqn:E.
    + split; [done|]. intros Hn. destruct IH as [_ IH].
      discriminate IH. set_solver.
    + split; [|done]. intros _. destruct IH as [IH _]. specialize (IH eq_refl). set_solver.
Qed.

Lemma cut_app a sep b : no_char sep a → cut (a ++ String sep b) sep = Some (a, b).
Proof.
  unfold no_char. induction a as [|c a IH]; gostr; simpl; intros Hn.
  - by rewrite bool_decide_true.
  - rewrite bool_decide_false by set_solver. rewrite IH by set_solver. done.
Qed.

(** The last separator splits a string uniquely. *)
Lemma last_sep_inj a b a' b' sep :
  no_char sep b → no_char sep b' →
  (a ++ String sep b = a' ++ String sep b')%string → a = a' ∧ b = b'.
Proof.
  unfold no_char. intros Hb Hb'. revert a'.
  induction a as [|c a IH]; intros [|c' a']; gostr; intros [=]; subst; try done.
  - exfalso. apply Hb. rewrite chars_app. simpl. set_solver.
  - exfalso. apply Hb'. rewrite chars_app. simpl. set_solver.
  - by destruct (IH a') as [-> ->].
Qed.

(** [strings.Join(l, sep)] *)
Fixpoint join (l : list string) (sep : string) : string :=
  match l with
  | [] => ""
  | [s] => s
  | s :: l => s ++ sep ++ join l sep
  end%string.

(** ** Sorting

    [sort.Strings] sorts by byte order.  [sort.Slice] with a [less] derived from
    a total order returns a permutation sorted by it; on elements the order
    separates that permutation is unique, so a merge sort stands for it. *)
Definition sort_strings (l : list string) : list string := merge_sort String.le l.

Section sorting.
Context {A : Type} (R : relation A) `{!RelDecision R, !Transitive R, !Total R}.

Let Hsame l : merge_sort R l ≡ₚ l := merge_sort_Permutation R l.
Lemma merge_sort_length l : length (merge_sort R l) = length l.
Proof. apply Permutation_length, Hsame. Qed.
Lemma elem_of_merge_sort (a : A) l : a ∈ merge_sort R l ↔ a ∈ l.
Proof. pose proof (Hsame l) as Hl. split; intros Ha; [rewrite <- Hl | rewrite Hl]; exact Ha. Qed.
Lemma merge_sort_perm `{!AntiSymm (=) R} l l' : l ≡ₚ l' → merge_sort R l = merge_sort R l'.
Proof.
  intros H. apply (StronglySorted_unique R); try apply (StronglySorted_merge_sort R).
  by rewrite !(merge_sort_Permutation R).
Qed.
End sorting.

Lemma elem_of_sort_strings x l : x ∈ sort_strings l ↔ x ∈ l.
Proof. apply elem_of_merge_sort. Qed.
Lemma sort_strings_perm l l' : l ≡ₚ l' → sort_strings l = sort_strings l'.
Proof. apply (merge_sort_perm String.le). Qed.
Lemma sort_strings_Permutation l : sort_strings l ≡ₚ l.
Proof. apply (merge_sort_Permutation String.le). Qed.

(** ** crypto/sha256 (FIPS 180-4) *)
Module Sha256.
Local Open Scope N_scope.

Definition w32 (n : N) : N := N.land n 0xffffffff.
Definition add32 (a b : N) : N := w32 (a + b).
Definition rotr (n x : N) : N := w32 (N.lor (N.shiftr x n) (N.shiftl x (32 - n))).
Definition not32 (x : N) : N := N.lxor x 0xffffffff.

(** The first [n] primes from [p] on, by trial division. *)
Fixpoint primes (fuel n : nat) (p : N) (found : list N) : list N :=
  match fuel with
  | O => found
  | S fuel =>
      if (n <=? length found)%nat then found
      else if forallb (fun q => negb (p mod q =? 0)) found then primes fuel n (p + 1) (found ++ [p])
      else primes fuel n (p + 1) found
  end.

(** The integer cube root, bit by bit. *)
Fixpoint cube_root (bits : nat) (r n : N) : N :=
  match bits with
  | O => r
  | S bits =>
      let r' := r + 2 ^ N.of_nat bits in
      cube_root bits (if r' * r' * r' <=? n then r' else r) n
  end.

(** The first 32 bits of the fractional parts of the cube roots of the first 64
    primes, and of the square roots of the first eight. *)
Definition K : list N :=
  Eval vm_compute in map (fun p => w32 (cube_root 36 0 (p * 2 ^ 96))) (primes 400 64 2 []).
Definition H0 : list N :=
  Eval vm_compute in map (fun p => w32 (N.sqrt (p * 2 ^ 64))) (primes 400 8 2 []).

(** The message schedule, newest word first. *)
Fixpoint schedule (n : nat) (rw : list N) : list N :=
  match n with
  | O => rw
  | S n =>
      let w i := nth i rw 0 in
      let s0 := N.lxor (N.lxor (rotr 7 (w 14%nat)) (rotr 18 (w 14%nat)))
                       (N.shiftr (w 14%nat) 3) in
      let s1 := N.lxor (N.lxor (rotr 17 (w 1%nat)) (rotr 19 (w 1%nat)))
                       (N.shiftr (w 1%nat) 10) in
      schedule n (w32 (w 15%nat + s0 + w 6%nat + s1) :: rw)
  end.

Definition round (st : list N) (kw : N * N) : list N :=
  match st with
  | [a; b; c; d; e; f; g; h] =>
      let S1 := N.lxor (N.lxor (rotr 6 e) (rotr 11 e)) (rotr 25 e) in
      let ch := N.lxor (N.land e f) (N.land (not32 e) g) in
      let t1 := w32 (h + S1 + ch + kw.1 + kw.2) in
      let S0 := N.lxor (N.lxor (rotr 2 a) (rotr 13 a)) (rotr 22 a) in
      let maj := N.lxor (N.lxor (N.land a b) (N.land a c)) (N.land b c) in
      [add32 t1 (add32 S0 maj); a; b; c; add32 d t1; e; f; g]
  | _ => st
  end.

(** Big-endian 32-bit words. *)
Fixpoint words (l : list byte) : list N :=
  match l with
  | a :: b :: c :: d :: l =>
      (((Byte.to_N a * 256 + Byte.to_N b) * 256 + Byte.to_N c) * 256 + Byte.to_N d) :: words l
  | _ => []
  end.
Definition be32 (n : N) : list byte :=
  [to_byte (N.shiftr n 24); to_byte (N.shiftr n 16); to_byte (N.shiftr n 8); to_byte n].

Definition compress (st : list N) (block : list byte) : list N :=
  let ws := rev (schedule 48 (rev (words block))) in
  zip_with add32 st (foldl round st (zip K ws)).

Definition pad (m : list byte) : list byte :=
  let len := length m in
  let z := ((119 - len mod 64) mod 64)%nat in
  let bits := N.of_nat len * 8 in
  m ++ x80 :: replicate z x00 ++ be32 (N.shiftr bits 32) ++ be32 bits.

Fixpoint blocks (fuel : nat) (l : list byte) (st : list N) : list N :=
  match fuel with
  | O => st
  | S fuel => match l with
              | [] => st
              | _ => blocks fuel (drop 64 l) (compress st (take 64 l))
              end
  end.

Definition sum (m : list byte) : list byte :=
  let p := pad m in
  blocks (length p / 64) p H0 ≫= be32.
End Sha256.

Definition sha256 : list byte → list byte := Sha256.sum.

Lemma sha256_length m : length (sha256 m) = 32.
Proof.
  unfold sha256, Sha256.sum.
  assert (∀ fuel l st, length st = 8 → length (Sha256.blocks fuel l st) = 8) as Hb.
  { assert (∀ l st, length st = 8 → length (foldl Sha256.round st l) = 8) as Hr.
    { induction l as [|kw l IH]; intros st Hst; simpl; [done|]. apply IH.
      do 9 (destruct st as [|? st]; try done). }
    induction fuel as [|fuel IH]; intros l st Hst; simpl; [done|].
    destruct l; [done|]. apply IH. unfold Sha256.compress.
    rewrite length_zip_with, Hst, Hr by done. done. }
  specialize (Hb (length (Sha256.pad m) / 64) (Sha256.pad m) Sha256.H0 eq_refl).
  destruct (Sha256.blocks _ _ _) as [|w0 st]; [done|].
  do 7 (destruct st as [|? st]; [done|]). destruct st; done.
Qed.

(** ** encoding/hex *)
Definition hex_digit (n : N) : ascii :=
  ascii_of_N (if (n <? 10)%N then 48 + n else 87 + n)%N.

Fixpoint hex_encode (l : list byte) : string :=
  match l with
  | [] => EmptyString
  | b :: l => String (hex_digit (Byte.to_N b / 16)%N)
                (String (hex_digit (Byte.to_N b mod 16)%N) (hex_encode l))
  end.

Definition is_hex (c : ascii) : bool :=
  let n := N_of_ascii c in
  ((48 <=? n) && (n <=? 57) || (97 <=? n) && (n <=? 102))%N.

Lemma hex_encode_length l : String.length (hex_encode l) = 2 * length l.
Proof. induction l; simpl; lia. Qed.

Lemma hex_encode_is_hex l c : c ∈ chars (hex_encode l) → is_hex c = true.
Proof.
  induction l as [|b l IH]; simpl; [set_solver|].
  assert (is_hex (hex_digit (Byte.to_N b / 16)) && is_hex (hex_digit (Byte.to_N b mod 16)) = true)
    as [H1 H2]%andb_true_iff.
  { refine (forall_bytes (λ b, is_hex (hex_digit (Byte.to_N b / 16))
      && is_hex (hex_digit (Byte.to_N b mod 16))) _ b). vm_compute. reflexivity. }
  intros [->|[->|?]%elem_of_cons]%elem_of_cons; auto.
Qed.

Definition hex_value (c : ascii) : N :=
  let n := N_of_ascii c in if (n <? 58)%N then (n - 48)%N else (n - 87)%N.

#[export] Instance hex_encode_inj : Inj (=) (=) hex_encode.
Proof.
  assert (∀ b, to_byte (hex_value (hex_digit (Byte.to_N b / 16)) * 16
                        + hex_value (hex_digit (Byte.to_N b mod 16))) = b) as Hb.
  { intros b. apply (bool_decide_eq_true_1 _).
    refine (forall_bytes (λ b, bool_decide (to_byte (hex_value (hex_digit (Byte.to_N b / 16)) * 16
      + hex_value (hex_digit (Byte.to_N b mod 16))) = b)) _ b). vm_compute. reflexivity. }
  intros l. induction l as [|b l IH]; intros [|b' l']; simpl; try done.
  intros [= H1 H2 H3]. rewrite (IH _ H3). f_equal. rewrite <- (Hb b), <- (Hb b').
  by rewrite H1, H2.
Qed.

(** [hex.EncodeToString(sha256.Sum256(b))]: the chunk id of a byte slice. *)
Definition sha256_hex (b : list byte) : string := hex_encode (sha256 b).

Lemma sha256_hex_length b : String.length (sha256_hex b) = 64.
Proof. unfold sha256_hex. by rewrite hex_encode_length, sha256_length. Qed.

Example sha256_abc :
  sha256_hex (bytes_of "abc") =
  "ba7816bf8f01cfea414140de5dae2223b00361a396177a9cb410ff61f20015ad"%string.
Proof. vm_compute. reflexivity. Qed.

(** ** crypto/hmac with SHA-256, encoding/binary *)
Definition hmac_sha256 (key msg : list byte) : list byte :=
  let key := if 64 <? length key then sha256 key else key in
  let key := key ++ replicate (64 - length key) x00 in
  sha256 ((gfAdd x5c <$> key) ++ sha256 ((gfAdd x36 <$> key) ++ msg)).

Lemma hmac_sha256_length key msg : length (hmac_sha256 key msg) = 32.
Proof. apply sha256_length. Qed.

(** [binary.BigEndian.Uint64] of the first eight bytes. *)
Definition be_uint64 (l : list byte) : N :=
  foldl (λ acc b, acc * 256 + Byte.to_N b)%N 0%N (take 8 l).

Example hmac_test :
  hex_encode (hmac_sha256 (bytes_of "key") (bytes_of "The quick brown fox jumps over the lazy dog"))
  = "f7bc83f430538424b13298e6aa6fb143ef4d59a14946175997479dbc2d1a3cd8"%string.
Proof. vm_compute. reflexivity. Qed.

(** ** strconv: decimal integers *)
Definition itoa (z : Z) : string := DecimalString.NilZero.string_of_int (Z.to_int z).

Definition int64_ok (z : Z) : bool := (- 2 ^ 63 <=? z)%Z && (z <? 2 ^ 63)%Z.

(** [strconv.ParseInt(s, 10, 64)]: an optional sign, then one or more digits. *)
Definition parse_sign (s : string) : option Decimal.int :=
  match s with
  | EmptyString => None
  | String c t =>
      if Ascii.eqb c "+" then Decimal.Pos <$> DecimalString.NilZero.uint_of_string t
      else if Ascii.eqb c "-" then Decimal.Neg <$> DecimalString.NilZero.uint_of_string t
      else Decimal.Pos <$> DecimalString.NilZero.uint_of_string s
  end.

Definition parse_int (s : string) : option Z :=
  match parse_sign s with
  | Some d => if int64_ok (Z.of_int d) then Some (Z.of_int d) else None
  | None => None
  end.

(** The characters [itoa] writes. *)
Definition is_digit (c : ascii) : bool := (48 <=? N_of_ascii c)%N && (N_of_ascii c <=? 57)%N.

Lemma uint_digits d c :
  c ∈ chars (DecimalString.NilZero.string_of_uint d) → is_digit c = true.
Proof.
  assert (∀ d c, c ∈ chars (DecimalString.NilEmpty.string_of_uint d) → is_digit c = true) as H.
  { clear. induction d; simpl; intros c Hc;
      [by apply not_elem_of_nil in Hc | apply elem_of_cons in Hc as [->|Hc]; [done|by apply IHd]..]. }
  destruct d; [|apply H..]. simpl. rewrite list_elem_of_singleton. by intros ->.
Qed.

Lemma itoa_chars z c : c ∈ chars (itoa z) → is_digit c = true ∨ c = "-"%char.
Proof.
  unfold itoa. destruct (Z.to_int z) as [d|d]; simpl.
  - intros H. left. by eapply uint_digits.
  - intros [->|H]%elem_of_cons; [by right | left; by eapply uint_digits].
Qed.

Lemma to_int_nonnil z : Z.to_int z ≠ Decimal.Pos Decimal.Nil ∧ Z.to_int z ≠ Decimal.Neg Decimal.Nil.
Proof.
  destruct z as [|p|p]; [done|..]; simpl; (split; [|]; try done); intros [= H];
    by apply (DecimalPos.Unsigned.to_uint_nonnil p).
Qed.

Lemma parse_itoa z : int64_ok z = true → parse_int (itoa z) = Some z.
Proof.
  intros Hz. destruct (to_int_nonnil z) as [Hp Hn].
  assert (parse_sign (itoa z) = Some (Z.to_int z)) as Hr.
  { unfold itoa. destruct (Z.to_int z) as [d|d] eqn:Hd;
      assert (d ≠ Decimal.Nil) as Hnil by (by intros ->);
      cbn [DecimalString.NilZero.string_of_int];
      pose proof (DecimalString.NilZero.usu d Hnil) as Hu; [|simpl; by rewrite Hu].
    assert (∃ c t, DecimalString.NilZero.string_of_uint d = String c t ∧
      Ascii.eqb c "+" = false ∧ Ascii.eqb c "-" = false) as (c & t & E & E1 & E2)
      by (destruct d; [done|..]; simpl; eauto).
    rewrite E in *. unfold parse_sign. by rewrite E1, E2, Hu. }
  unfold parse_int. rewrite Hr.
  by rewrite DecimalZ.of_to, Hz.
Qed.

Lemma itoa_inj z z' : itoa z = itoa z' → z = z'.
Proof.
  unfold itoa. intros H. apply DecimalZ.to_int_inj.
  destruct (to_int_nonnil z), (to_int_nonnil z').
  apply (f_equal DecimalString.NilZero.int_of_string) in H.
  rewrite !DecimalString.NilZero.isi in H by done. by injection H.
Qed.

(** [strconv.ParseUint(s, 10, 64)], digit by digit: the value and whether there was
    no error; a value too large comes back as 2^64-1, a syntax error as 0. *)
Definition max_u64 : Z := 18446744073709551615.
Fixpoint uint_loop (l : list ascii) (n : Z) : Z * bool :=
  match l with
  | [] => (n, true)
  | c :: l =>
      if negb (is_digit c) then (0%Z, false)
      else
        let n1 := (n * 10 + (Z.of_N (N_of_ascii c) - 48))%Z in
        if (max_u64 <? n1)%Z then (max_u64, false) else uint_loop l n1
  end.
Definition ParseUint (s : string) : Z * bool :=
  if bool_decide (s = "") then (0%Z, false) else uint_loop (chars s) 0.

Lemma of_uint_acc_le d p : (Z.pos p ≤ Z.pos (Pos.of_uint_acc d p))%Z.
Proof. revert p. induction d; intros p; cbn [Pos.of_uint_acc]; [lia|..]; (etrans; [|apply IHd]); lia. Qed.

Lemma uint_loop_acc d p :
  (Z.pos (Pos.of_uint_acc d p) ≤ max_u64)%Z →
  uint_loop (chars (DecimalString.NilEmpty.string_of_uint d)) (Z.pos p) = (Z.pos (Pos.of_uint_acc d p), true).
Proof.
  revert p. induction d; intros p Hp; [done|..];
    cbn [DecimalString.NilEmpty.string_of_uint chars Pos.of_uint_acc uint_loop] in *;
    match type of Hp with (Z.pos (Pos.of_uint_acc _ ?q) ≤ _)%Z =>
      pose proof (of_uint_acc_le d q);
      match goal with |- context [(max_u64 <? ?n1)%Z] => replace n1 with (Z.pos q) by (simpl; lia) end;
      rewrite (proj2 (Z.ltb_ge _ _)) by lia; simpl negb; cbn [is_digit]; by apply IHd
    end.
Qed.

Lemma uint_loop_uint d :
  (Z.of_N (Pos.of_uint d) ≤ max_u64)%Z →
  uint_loop (chars (DecimalString.NilEmpty.string_of_uint d)) 0 = (Z.of_N (Pos.of_uint d), true).
Proof.
  induction d; intros Hd; [done|by apply IHd|..]; cbn [Pos.of_uint Z.of_N] in *;
    by rewrite <- uint_loop_acc.
Qed.

Lemma ParseUint_itoa z : (0 ≤ z ≤ max_u64)%Z → ParseUint (itoa z) = (z, true).
Proof.
  intros Hz. unfold ParseUint, itoa. destruct z as [|p|p]; [done| |lia]. simpl.
  pose proof (DecimalPos.Unsigned.of_to p) as Hof.
  pose proof (DecimalPos.Unsigned.to_uint_nonnil p) as Hnil.
  assert (DecimalString.NilZero.string_of_uint (Pos.to_uint p) =
          DecimalString.NilEmpty.string_of_uint (Pos.to_uint p)) as -> by (by destruct (Pos.to_uint p)).
  rewrite bool_decide_eq_false_2 by (by destruct (Pos.to_uint p)).
  rewrite uint_loop_uint, Hof; [done|]. rewrite Hof. simpl. lia.
Qed.

(** ** net/url: query strings *)

(** [strings.Split(s, sep)] for a one-byte separator. *)
Fixpoint split (s : string) (sep : ascii) : list string :=
  match s with
  | EmptyString => [EmptyString]
  | String c s =>
      if bool_decide (c = sep) then EmptyString :: split s sep
      else match split s sep with
           | [] => [String c EmptyString]
           | h :: r => String c h :: r
           end
  end.

(** A hexadecimal digit of either case. *)
Definition unhex (c : ascii) : option N :=
  let n := N_of_ascii c in
  if (48 <=? n)%N && (n <=? 57)%N then Some (n - 48)%N
  else if (97 <=? n)%N && (n <=? 102)%N then Some (n - 87)%N
  else if (65 <=? n)%N && (n <=? 70)%N then Some (n - 55)%N
  else None.

(** [url.QueryUnescape]: [%XX] and [+]; [None] is its error. *)
Fixpoint query_unescape (s : string) : option string :=
  match s with
  | EmptyString => Some EmptyString
  | String c s =>
      if bool_decide (c = "%"%char) then
        match s with
        | String h (String l s) =>
            match unhex h, unhex l with
            | Some h, Some l => String (ascii_of_N (16 * h + l)) <$> query_unescape s
            | _, _ => None
            end
        | _ => None
        end
      else if bool_decide (c = "+"%char) then String " " <$> query_unescape s
      else String c <$> query_unescape s
  end.

Abbreviation url_values := (gmap string (list string)).

(** [q.Get(key)]: the first value, or the empty string. *)
Definition q_get (q : url_values) (key : string) : string :=
  match q !! key with Some (v :: _) => v | _ => "" end.

(** One [key=value] setting: malformed ones are skipped, as [URL.Query] does. *)
Definition add_setting (q : url_values) (setting : string) : url_values :=
  if bool_decide (setting = "") || bool_decide (";"%char ∈ chars setting) then q
  else
    let '(k, v) := match cut setting "=" with Some kv => kv | None => (setting, "") end in
    match query_unescape k, query_unescape v with
    | Some k, Some v => <[k := default [] (q !! k) ++ [v]]> q
    | _, _ => q
    end.

Definition ParseQuery (query : string) : url_values := foldl add_setting ∅ (split query "&").

Lemma split_no_sep s sep : no_char sep s → split s sep = [s].
Proof.
  unfold no_char. induction s as [|c s IH]; [done|]. simpl. intros Hn.
  rewrite bool_decide_false by set_solver. rewrite IH by set_solver. done.
Qed.

Lemma split_app a sep b : no_char sep a → split (a ++ String sep b) sep = a :: split b sep.
Proof.
  unfold no_char. induction a as [|c a IH]; gostr; simpl; intros Hn.
  - by rewrite bool_decide_true.
  - rewrite bool_decide_false by set_solver. rewrite IH by set_solver. done.
Qed.

(** Characters that mean themselves in a query. *)
Definition query_safe (s : string) : Prop :=
  Forall (λ c, c ∉ ["%"; "+"; "&"; "="; ";"]%char) (chars s).
#[export] Instance query_safe_dec s : Decision (query_safe s).
Proof. unfold query_safe. apply _. Defined.

Lemma query_safe_no_char s c : query_safe s → c ∈ ["%"; "+"; "&"; "="; ";"]%char → no_char c s.
Proof. unfold query_safe. rewrite Forall_forall. intros Hs Hc Hin. by apply (Hs c). Qed.

Lemma query_unescape_safe s : query_safe s → query_unescape s = Some s.
Proof.
  induction s as [|c s IH]; [done|]. intros [Hc Hs]%Forall_cons.
  simpl. rewrite !bool_decide_false by set_solver. by rewrite IH.
Qed.

(** What is written in a query and read back. *)
Definition encodes (e v : string) : Prop := no_char "&" e ∧ no_char ";" e ∧ query_unescape e = Some v.
Lemma encodes_safe v : query_safe v → encodes v v.
Proof. intros Hv. split_and!; [apply query_safe_no_char; [done | set_solver].. | by apply query_unescape_safe]. Qed.

Lemma add_setting_encodes q k e v :
  query_safe k → encodes e v → add_setting q (k ++ "=" ++ e) = <[k := default [] (q !! k) ++ [v]]> q.
Proof.
  intros Hk (_ & Hsc & Hv). unfold add_setting. change ("=" ++ e)%string with (String "=" e).
  assert (k ++ String "=" e ≠ "")%string as Hne by (by destruct k).
  rewrite (bool_decide_false (_ = "")) by done. rewrite (bool_decide_false (_ ∈ _)).
  2:{ rewrite chars_app. simpl. rewrite elem_of_app, elem_of_cons. pose proof (query_safe_no_char k ";" Hk).
      unfold no_char in *. intros [?|[?|?]]; [set_solver | done | done]. }
  simpl. rewrite cut_app by (apply query_safe_no_char; [done | set_solver]).
  by rewrite query_unescape_safe, Hv.
Qed.
Lemma add_setting_safe q k v :
  query_safe k → query_safe v →
  add_setting q (k ++ "=" ++ v) = <[k := default [] (q !! k) ++ [v]]> q.
Proof. intros Hk Hv. apply add_setting_encodes; [done | by apply encodes_safe]. Qed.

(** Hexadecimal digits, decimal digits and minus are safe. *)
Lemma query_safe_all (P : ascii → bool) s :
  (∀ c, c ∈ chars s → P c = true) → forallb (λ c, negb (P c)) ["%"; "+"; "&"; "="; ";"]%char = true →
  query_safe s.
Proof.
  intros Hs Hp. apply Forall_forall. intros c Hc Hin.
  rewrite forallb_forall in Hp. specialize (Hp c). rewrite <- list_elem_of_In in Hp.
  specialize (Hp Hin). by rewrite (Hs c Hc) in Hp.
Qed.
Lemma hex_query_safe l : query_safe (hex_encode l).
Proof. apply (query_safe_all is_hex); [|done]. intros c. apply hex_encode_is_hex. Qed.
Lemma itoa_query_safe z : query_safe (itoa z).
Proof.
  apply (query_safe_all (λ c, is_digit c || Ascii.eqb c "-")); [|done].
  intros c [H| ->]%itoa_chars; [by rewrite H | done].
Qed.

(** ** The [strings] functions on white space and separators

    Go strings are byte strings; [strings.TrimSpace] and [strings.Fields] treat as
    white space the UTF-8 encodings of the code points of [unicode.IsSpace].  The
    first byte of such an encoding never continues another one, so it can be looked
    for from either end. *)

Definition str_of_codes (l : list N) : string := String.string_of_list_ascii (ascii_of_N <$> l).
(** [unicode.IsSpace], encoded. *)
Definition spaces : list string := str_of_codes <$>
  [[9]; [10]; [11]; [12]; [13]; [32]; [194; 133]; [194; 160]; [225; 154; 128];
   [226; 128; 128]; [226; 128; 129]; [226; 128; 130]; [226; 128; 131]; [226; 128; 132]; [226; 128; 133];
   [226; 128; 134]; [226; 128; 135]; [226; 128; 136]; [226; 128; 137]; [226; 128; 138];
   [226; 128; 168]; [226; 128; 169]; [226; 128; 175]; [226; 129; 159]; [227; 128; 128]]%N.

(** [s] without the prefix [p], if it has it. *)
Fixpoint strip_prefix (p s : string) : option string :=
  match p, s with
  | "", _ => Some s
  | String c p, String d s => if Ascii.eqb c d then strip_prefix p s else None
  | _, "" => None
  end%string.
Fixpoint first_strip (ps : list string) (s : string) : option string :=
  match ps with
  | [] => None
  | p :: ps => match strip_prefix p s with Some t => Some t | None => first_strip ps s end
  end.
(** Every round removes at least a byte: the length is enough fuel. *)
Fixpoint trim_left (fuel : nat) (ps : list string) (s : string) : string :=
  match fuel with
  | 0 => s
  | S fuel => match first_strip ps s with Some t => trim_left fuel ps t | None => s end
  end.
Definition str_rev (s : string) : string := String.string_of_list_ascii (reverse (chars s)).
Definition TrimSpace (s : string) : string :=
  let t := trim_left (String.length s) spaces s in
  str_rev (trim_left (String.length t) (str_rev <$> spaces) (str_rev t)).

(** [strings.Fields]: [cur] is the field being read, reversed. *)
Fixpoint fields_loop (fuel : nat) (s : string) (cur : list ascii) (out : list string) : list string :=
  let flush := if length cur =? 0 then out else out ++ [String.string_of_list_ascii (reverse cur)] in
  match fuel with
  | 0 => flush
  | S fuel =>
      match first_strip spaces s with
      | Some t => fields_loop fuel t [] flush
      | None =>
          match s with
          | EmptyString => flush
          | String c t => fields_loop fuel t (c :: cur) out
          end
      end
  end.
Definition Fields (s : string) : list string := fields_loop (S (String.length s)) s [] [].

(** [strings.Split(s, sep)] for a one-byte separator; [strings.SplitN(s, sep, 2)]. *)
Fixpoint split_char (s : string) (sep : ascii) (cur : list ascii) : list string :=
  match s with
  | EmptyString => [String.string_of_list_ascii (reverse cur)]
  | String c t =>
      if Ascii.eqb c sep then String.string_of_list_ascii (reverse cur) :: split_char t sep []
      else split_char t sep (c :: cur)
  end.
Definition Split (s : string) (sep : ascii) : list string := split_char s sep [].
Definition SplitN2 (s : string) (sep : ascii) : list string :=
  match cut s sep with Some (a, b) => [a; b] | None => [s] end.

(** [strings.ToLower] on the ASCII strings that header names are. *)
Definition lower_char (c : ascii) : ascii :=
  let n := N_of_ascii c in if ((65 <=? n) && (n <=? 90))%N then ascii_of_N (n + 32) else c.
Definition ToLower (s : string) : string := String.string_of_list_ascii (lower_char <$> chars s).

Example TrimSpace_test : TrimSpace "  a b	 " = "a b"%string.
Proof. reflexivity. Qed.
Example Fields_test : Fields " ab  c " = ["ab"; "c"].
Proof. reflexivity. Qed.
Example Split_test : Split "a,,b" "," = ["a"; ""; "b"].
Proof. reflexivity. Qed.
