(* ===== verification/Chunker.v ===== *)
(** * Chunking: internal/chunker (chunker.go, stream.go, cdc.go)

    [Split]/[Join], the fixed-size streaming [Reader] and the content-defined
    [CDCReader].  An [io.Reader] is the list of what its [Read] calls deliver. *)
From S2P Require Import Prelude GF GoLib.
From Stdlib Require Import Strings.Byte.

(** ** chunker.go *)
Definition MinChunkSize : Z := 1.
Definition DefaultChunkSize : nat := Z.to_nat (4 * 1024 * 1024).

Record Chunk : Type := MkChunk { c_Data : list byte; c_ID : string; c_Size : Z }.
Record JoinSpec : Type := MkJoinSpec { js_ChunkID : string; js_Size : Z }.

Inductive chunk_error : Type :=
  | PanicChunkSize | PanicNegativeSize
  | ErrFetch (i : nat) | ErrIntegrity (i : nat) | ErrChunkSize (i : nat) | ErrTotalSize.

(** [for off := 0; off < len(body); off += chunkSize { ... }] *)
Fixpoint split_loop (fuel : nat) (body : list byte) (chunkSize off : nat) : list Chunk :=
  match fuel with
  | 0 => []
  | S fuel =>
      if off <? length body then
        let end_ := off + chunkSize in
        let end_ := if length body <? end_ then length body else end_ in
        let data := take (end_ - off) (drop off body) in
        MkChunk data (sha256_hex data) (Z.of_nat (end_ - off))
          :: split_loop fuel body chunkSize (off + chunkSize)
      else []
  end.

Definition Split (body : list byte) (chunkSize : Z) : result chunk_error (list Chunk) :=
  if (chunkSize <? MinChunkSize)%Z then Err PanicChunkSize
  else if length body =? 0 then Ok []
  else Ok (split_loop (length body) body (Z.to_nat chunkSize) 0).

Fixpoint join_loop (i : nat) (specs : list JoinSpec) (fetch : string → option (list byte))
    (out : list byte) : result chunk_error (list byte) :=
  match specs with
  | [] => Ok out
  | s :: specs =>
      match fetch (js_ChunkID s) with
      | None => Err (ErrFetch i)
      | Some data =>
          if bool_decide (sha256_hex data ≠ js_ChunkID s) then Err (ErrIntegrity i)
          else if bool_decide (Z.of_nat (length data) ≠ js_Size s) then Err (ErrChunkSize i)
          else join_loop (i + 1) specs fetch (out ++ data)
      end
  end.

(** [make([]byte, 0, totalSize)] panics on a negative size. *)
Definition Join (specs : list JoinSpec) (totalSize : Z) (fetch : string → option (list byte))
    : result chunk_error (list byte) :=
  if (totalSize <? 0)%Z then Err PanicNegativeSize
  else
    out ←? join_loop 0 specs fetch [];
    if bool_decide (Z.of_nat (length out) ≠ totalSize) then Err ErrTotalSize else Ok out.

(** ** io.Reader

    The remaining deliveries of a reader: some bytes, the last bytes together
    with [io.EOF], or an error.  An exhausted list delivers [io.EOF]. *)
Inductive delivery : Type := Data (b : list byte) | Last (b : list byte) | Fail.
Abbreviation source := (list delivery).

Inductive io_error : Type := EOF | UnexpectedEOF | ReadError.

(** One [Read] into a buffer of [n] bytes. *)
Definition io_read (src : source) (n : nat) : list byte * option io_error * source :=
  match src with
  | [] => ([], Some EOF, [])
  | Data b :: src =>
      if n <? length b then (take n b, None, Data (drop n b) :: src) else (b, None, src)
  | Last b :: src =>
      if n <? length b then (take n b, None, Last (drop n b) :: src) else (b, Some EOF, [])
  | Fail :: src => ([], Some ReadError, src)
  end.

(** [io.ReadFull]: read until the buffer is full or an error. *)
Fixpoint io_read_full (fuel : nat) (src : source) (n : nat) (acc : list byte)
    : list byte * option io_error * source :=
  if n <=? length acc then (acc, None, src)
  else match fuel with
  | 0 => (acc, None, src)
  | S fuel =>
      let '(b, err, src) := io_read src (n - length acc) in
      let acc := acc ++ b in
      match err with
      | None => io_read_full fuel src n acc
      | Some e =>
          if n <=? length acc then (acc, None, src)
          else match e with
               | EOF => (acc, Some (if length acc =? 0 then EOF else UnexpectedEOF), src)
               | e => (acc, Some e, src)
               end
      end
  end.

(** Enough for any reader: every read that does not fill the buffer consumes a
    delivery. *)
Definition io_fuel (src : source) : nat := length src + 2.

(** ** stream.go *)
Record StreamPiece : Type := MkPiece { p_ID : string; p_Data : list byte; p_Size : Z }.

Definition newStreamPiece (data : list byte) : StreamPiece :=
  MkPiece (sha256_hex data) data (Z.of_nat (length data)).

Record Reader : Type := MkReader
  { r_src : source; r_chunkSize : nat; r_buf : bool (* scratch buffer held *); r_done : bool }.

Definition NewReader (src : source) (chunkSize : Z) : Reader :=
  let chunkSize := if (chunkSize <=? 0)%Z then DefaultChunkSize else Z.to_nat chunkSize in
  MkReader src chunkSize true false.

Definition Reader_Close (r : Reader) : Reader :=
  MkReader (r_src r) (r_chunkSize r) false true.

Definition Reader_Next (r : Reader) : result io_error StreamPiece * Reader :=
  if r_done r then (Err EOF, r)
  else
    let '(buf, err, src) := io_read_full (io_fuel (r_src r)) (r_src r) (r_chunkSize r) [] in
    let step done := MkReader src (r_chunkSize r) (r_buf r) done in
    match err with
    | Some EOF => (Err EOF, step true)
    | Some ReadError => (Err ReadError, step (r_done r))
    | None =>
        if length buf =? 0 then (Err EOF, step (r_done r))
        else (Ok (newStreamPiece buf), step (r_done r))
    | Some UnexpectedEOF =>
        if length buf =? 0 then (Err EOF, step true)
        else (Ok (newStreamPiece buf), step true)
    end.

(** The caller's loop: [Next] until an error; returns the pieces and the error. *)
Fixpoint Reader_drain (fuel : nat) (r : Reader) : list StreamPiece * option io_error :=
  match fuel with
  | 0 => ([], None)
  | S fuel =>
      match Reader_Next r with
      | (Err e, _) => ([], Some e)
      | (Ok p, r) => let '(ps, e) := Reader_drain fuel r in (p :: ps, e)
      end
  end.

(** ** Reference chunking *)

(** Consecutive pieces of [c] elements, the last one possibly shorter. *)
Fixpoint pieces_of (fuel : nat) (c : nat) (l : list byte) : list (list byte) :=
  match fuel with
  | 0 => []
  | S fuel => match l with [] => [] | _ => take c l :: pieces_of fuel c (drop c l) end
  end.

Definition chunk_of (data : list byte) : Chunk :=
  MkChunk data (sha256_hex data) (Z.of_nat (length data)).

Lemma pieces_of_nil fuel c : pieces_of fuel c [] = [].
Proof. by destruct fuel. Qed.

Lemma pieces_of_cons fuel c l :
  l ≠ [] → pieces_of (S fuel) c l = take c l :: pieces_of fuel c (drop c l).
Proof. by destruct l. Qed.

Lemma pieces_of_fuel f f' c l :
  1 ≤ c → length l ≤ f → length l ≤ f' → pieces_of f c l = pieces_of f' c l.
Proof.
  intros Hc. revert f' l. induction f as [|f IH]; intros f' l Hf Hf'.
  - destruct l; [by rewrite !pieces_of_nil | simpl in Hf; lia].
  - destruct l as [|b l]; [by rewrite !pieces_of_nil|].
    destruct f' as [|f']; [simpl in Hf'; lia|].
    rewrite !pieces_of_cons by done. f_equal.
    simpl in Hf, Hf'. apply IH; rewrite length_drop; simpl; lia.
Qed.

Lemma pieces_of_concat f c l : 1 ≤ c → length l ≤ f → concat (pieces_of f c l) = l.
Proof.
  intros Hc. revert l. induction f as [|f IH]; intros l Hf.
  - by destruct l; [|simpl in Hf; lia].
  - destruct l as [|b l]; [done|]. rewrite pieces_of_cons by done. simpl in Hf.
    cbn [concat]. rewrite IH by (rewrite length_drop; simpl; lia). apply take_drop.
Qed.

(** Every piece but the last has exactly [c] bytes; none is empty or longer. *)
Lemma pieces_of_sizes f c l i p :
  1 ≤ c → pieces_of f c l !! i = Some p →
  1 ≤ length p ≤ c ∧ (S i < length (pieces_of f c l) → length p = c).
Proof.
  intros Hc. revert l i. induction f as [|f IH]; intros l i; [done|].
  destruct l as [|b l]; [done|]. rewrite pieces_of_cons by done.
  destruct i as [|i]; simpl lookup; intros H.
  - simplify_eq. rewrite length_take. split; [simpl; lia|].
    intros Hlen. cbn [length] in Hlen.
    destruct (decide (length (b :: l) ≤ c)) as [Hle|]; [|simpl in *; lia].
    rewrite (drop_ge (b :: l)) in Hlen by done. rewrite pieces_of_nil in Hlen. simpl in Hlen. lia.
  - destruct (IH _ _ H) as [H1 H2]. split; [done|]. cbn [length]. intros. apply H2. lia.
Qed.

Lemma split_loop_pieces fuel body c off :
  1 ≤ c → off + fuel ≥ length body →
  split_loop fuel body c off = chunk_of <$> pieces_of fuel c (drop off body).
Proof.
  intros Hc. revert off. induction fuel as [|fuel IH]; intros off Hf; [done|]. simpl.
  destruct (Nat.ltb_spec off (length body)) as [Ho|Ho].
  - destruct (drop off body) as [|b l] eqn:Hd.
    { apply (f_equal length) in Hd. rewrite length_drop in Hd. simpl in Hd. lia. }
    rewrite fmap_cons. rewrite <- Hd, IH by lia. rewrite drop_drop. f_equal.
    set (e := if length body <? off + c then length body else off + c).
    assert (take (e - off) (drop off body) = take c (drop off body)) as E.
    { subst e. destruct (Nat.ltb_spec (length body) (off + c)).
      - rewrite !take_ge; [done | rewrite length_drop; lia..].
      - f_equal. lia. }
    rewrite E. unfold chunk_of. f_equal. rewrite length_take, length_drop. subst e.
    f_equal. destruct (Nat.ltb_spec (length body) (off + c)); lia.
  - rewrite (drop_ge body off) by lia. done.
Qed.

(** [Split] cuts the body into consecutive pieces: their concatenation is
    the body, each carries the SHA-256 id and the size of its own bytes, every
    piece has between 1 and [chunkSize] bytes and all but the last exactly
    [chunkSize].  It panics exactly for [chunkSize < 1]. *)
Theorem Split_correct body chunkSize :
  match Split body chunkSize with
  | Err e => e = PanicChunkSize ∧ (chunkSize < 1)%Z
  | Ok cs =>
      (1 ≤ chunkSize)%Z ∧ concat (c_Data <$> cs) = body ∧
      ∀ i ch, cs !! i = Some ch →
        c_ID ch = sha256_hex (c_Data ch) ∧ c_Size ch = Z.of_nat (length (c_Data ch)) ∧
        (1 ≤ c_Size ch ≤ chunkSize)%Z ∧ (S i < length cs → c_Size ch = chunkSize)
  end.
Proof.
  unfold Split, MinChunkSize. destruct (Z.ltb_spec chunkSize 1) as [Hc|Hc]; [done|].
  destruct (Nat.eqb_spec (length body) 0) as [Hl|Hl].
  { destruct body; [|done]. split_and!; try done. }
  rewrite split_loop_pieces by lia. rewrite drop_0.
  split_and!; [done | |].
  - rewrite <- list_fmap_compose. rewrite (list_fmap_ext _ id) by done.
    rewrite list_fmap_id. apply pieces_of_concat; lia.
  - intros i ch Hi. rewrite list_lookup_fmap in Hi.
    destruct (pieces_of _ _ _ !! i) as [p|] eqn:Hp; [|done]. simpl in Hi. simplify_eq.
    assert (1 ≤ Z.to_nat chunkSize) as Hc1 by lia.
    destruct (pieces_of_sizes _ _ _ _ _ Hc1 Hp) as [H1 H2].
    split_and!; simpl; try done; try lia.
    rewrite length_fmap. intros Hi. rewrite H2 by done. lia.
Qed.

(** ** Join *)
Lemma join_loop_spec i specs fetch out r :
  join_loop i specs fetch out = Ok r ↔
  ∃ datas, r = out ++ concat datas ∧
    Forall2 (λ s d, fetch (js_ChunkID s) = Some d ∧ sha256_hex d = js_ChunkID s ∧
                    Z.of_nat (length d) = js_Size s) specs datas.
Proof.
  revert i out. induction specs as [|s specs IH]; intros i out; simpl.
  - split.
    + intros [= <-]. exists []. by rewrite app_nil_r.
    + intros (datas & -> & H). inversion H. simpl. by rewrite app_nil_r.
  - destruct (fetch (js_ChunkID s)) as [d|] eqn:Hf.
    + repeat case_bool_decide.
      * split; [done|]. intros (datas & _ & HF). inversion HF as [|? ? ? ? (? & ? & ?)]; simplify_eq.
      * split; [done|]. intros (datas & _ & HF). inversion HF as [|? ? ? ? (? & ? & ?)]; simplify_eq.
      * rewrite IH. split.
        -- intros (datas & -> & HF). exists (d :: datas). simpl. rewrite app_assoc.
           split; [done|]. constructor; [|done]. done.
        -- intros (datas & -> & HF). inversion HF as [|? d' ? ds Hd HF']; subst.
           destruct Hd as [Hd _]. simplify_eq. exists ds. simpl. by rewrite app_assoc.
    + split; [done|]. intros (datas & _ & HF).
      inversion HF as [|? ? ? ? (? & ? & ?)]; simplify_eq.
Qed.

(** [Join] succeeds exactly when every chunk is fetched, hashes to its
    declared id and has its declared size, and the total matches; its result is
    then the concatenation, so corrupted bytes never reach the caller. *)
Theorem Join_integrity specs totalSize fetch r :
  Join specs totalSize fetch = Ok r ↔
  ∃ datas, r = concat datas ∧ Z.of_nat (length r) = totalSize ∧
    Forall2 (λ s d, fetch (js_ChunkID s) = Some d ∧ sha256_hex d = js_ChunkID s ∧
                    Z.of_nat (length d) = js_Size s) specs datas.
Proof.
  unfold Join. destruct (Z.ltb_spec totalSize 0) as [Ht|Ht].
  { split; [done|]. intros (datas & _ & Hl & _). lia. }
  split.
  - intros H. apply rbind_ok in H as (out & Hj & H). case_bool_decide as Hs; [done|]. inv_ok.
    apply join_loop_spec in Hj as (datas & -> & HF).
    exists datas. done.
  - intros (datas & -> & Hl & HF).
    assert (join_loop 0 specs fetch [] = Ok (concat datas)) as ->.
    { apply join_loop_spec. exists datas. done. }
    simpl. rewrite bool_decide_false; [done|]. intros Hn. by destruct Hn.
Qed.

(** Round trip.  Joining the references of the chunks of [Split] through any
    store that returns each chunk's bytes for its id gives back the body. *)
Theorem Split_Join_roundtrip body chunkSize cs fetch :
  Split body chunkSize = Ok cs →
  (∀ ch, ch ∈ cs → fetch (c_ID ch) = Some (c_Data ch)) →
  Join ((λ ch, MkJoinSpec (c_ID ch) (c_Size ch)) <$> cs) (Z.of_nat (length body)) fetch = Ok body.
Proof.
  intros Hs Hf. pose proof (Split_correct body chunkSize) as Hspec. rewrite Hs in Hspec.
  destruct Hspec as (_ & Hcat & Hch). apply Join_integrity.
  exists (c_Data <$> cs). split_and!; [done | done |].
  apply Forall2_fmap, Forall_Forall2_diag, Forall_forall. intros ch Hin.
  apply list_elem_of_lookup in Hin as Hin'. destruct Hin' as (i & Hi).
  destruct (Hch i ch Hi) as (Hid & Hsz & _). simpl. split_and!; [by apply Hf | done | done].
Qed.

(** A three-byte body cut at two bytes, read back from an association list. *)
Definition body3 : list byte := [x61; x62; x63].
Definition cs3 : list Chunk :=
  Eval vm_compute in match Split body3 2 with Ok cs => cs | Err _ => [] end.
Definition fetch3 (id : string) : option (list byte) :=
  c_Data <$> find (λ ch, String.eqb (c_ID ch) id) cs3.

Lemma Split_Join_roundtrip_witness :
  Join ((λ ch, MkJoinSpec (c_ID ch) (c_Size ch)) <$> cs3) 3 fetch3 = Ok body3.
Proof.
  apply (Split_Join_roundtrip body3 2 cs3 fetch3).
  - vm_compute. reflexivity.
  - unfold cs3. intros ch Hch.
    repeat (apply elem_of_cons in Hch as [->|Hch]; [vm_compute; reflexivity|]).
    by apply not_elem_of_nil in Hch.
Defined.

(** ** The fixed-size streaming reader *)

(** The bytes a reader still delivers, when no read error comes before the end. *)
Fixpoint contents (src : source) : list byte :=
  match src with
  | [] => []
  | Data b :: src => b ++ contents src
  | Last b :: _ => b
  | Fail :: _ => []
  end.
Fixpoint clean (src : source) : Prop :=
  match src with
  | [] => True
  | Data _ :: src => clean src
  | Last _ :: _ => True
  | Fail :: _ => False
  end.

(** One [Read] delivers a prefix of the contents; it reports [EOF] only with the
    last bytes, and fills the buffer or consumes a delivery. *)
Lemma io_read_spec src n :
  clean src →
  let '(b, err, src') := io_read src n in
  clean src' ∧ contents src = b ++ contents src' ∧ length b ≤ n ∧
  (err = None ∨ err = Some EOF ∧ contents src' = []) ∧
  (length b = n ∨ length src' < length src ∨ err = Some EOF).
Proof.
  destruct src as [|[b|b|] src]; simpl; intros Hc; try done.
  - split_and!; try done; try lia; auto.
  - destruct (Nat.ltb_spec n (length b)) as [Hn|Hn]; simpl.
    + rewrite app_assoc, take_drop, length_take. split_and!; try done; try lia; auto.
    + split_and!; try done; try lia; auto.
  - destruct (Nat.ltb_spec n (length b)) as [Hn|Hn]; simpl.
    + rewrite take_drop, length_take. split_and!; try done; try lia; auto.
    + rewrite app_nil_r. split_and!; try done; try lia; auto.
Qed.

(** [io.ReadFull] fills the buffer whenever enough bytes remain, however the
    reader fragments them. *)
Lemma io_read_full_spec fuel src n acc :
  clean src → length acc ≤ n → length src < fuel →
  let k := n - length acc in
  ∃ src', io_read_full fuel src n acc =
    (acc ++ take k (contents src),
     if k <=? length (contents src) then None
     else Some (if length (acc ++ contents src) =? 0 then EOF else UnexpectedEOF), src') ∧
    clean src' ∧ contents src' = drop k (contents src).
Proof.
  revert src acc. induction fuel as [|fuel IH]; intros src acc Hc Ha Hf; [lia|].
  cbn zeta. cbn [io_read_full]. destruct (Nat.leb_spec n (length acc)) as [Hn|Hn].
  { replace (n - length acc) with 0 by lia. simpl. rewrite take_0, app_nil_r. eauto. }
  pose proof (io_read_spec src (n - length acc) Hc) as Hr.
  destruct (io_read src (n - length acc)) as [[b err] src1].
  destruct Hr as (Hc1 & Heq & Hb & Herr & Hprog). rewrite Heq.
  assert (n - length (acc ++ b) = n - length acc - length b) as Hk by (rewrite length_app; lia).
  assert (take (n - length acc) (b ++ contents src1) =
          b ++ take (n - length acc - length b) (contents src1)) as Htk
    by (rewrite take_app, (take_ge b) by done; done).
  assert (drop (n - length acc) (b ++ contents src1) =
          drop (n - length acc - length b) (contents src1)) as Hdk
    by (rewrite drop_app, (drop_ge b) by done; done).
  destruct Herr as [->|[-> Hend]].
  - destruct (decide (length b = n - length acc)) as [Hfull|Hpart].
    + (* the buffer is full: the next check returns *)
      assert (∀ f, io_read_full f src1 n (acc ++ b) = (acc ++ b, None, src1)) as Hret.
      { intros f. destruct f; simpl; rewrite (proj2 (Nat.leb_le _ _)) by (rewrite length_app; lia);
          done. }
      rewrite Hret. exists src1. rewrite Htk, Hdk.
      replace (n - length acc - length b) with 0 by lia. rewrite take_0, app_nil_r.
      rewrite (proj2 (Nat.leb_le _ _)) by (rewrite length_app; lia). done.
    + destruct Hprog as [|[Hprog|]]; [lia | |done].
      destruct (IH src1 (acc ++ b)) as (src' & He & Hc' & Hd);
        [done | rewrite length_app; lia | lia |].
      rewrite He, Hk. exists src'. rewrite Htk, Hdk, app_assoc.
      split; [|by rewrite Hd, Hk]. do 2 f_equal.
      rewrite (app_assoc acc b (contents src1)), (length_app b (contents src1)).
      destruct (Nat.leb_spec (n - length acc - length b) (length (contents src1))),
        (Nat.leb_spec (n - length acc) (length b + length (contents src1))); done || lia.
  - rewrite Hend, app_nil_r in *. exists src1. rewrite Htk, Hdk, take_nil, drop_nil, app_nil_r.
    rewrite length_app.
    destruct (Nat.leb_spec n (length acc + length b)),
      (Nat.leb_spec (n - length acc) (length b)); try lia; done.
Qed.

Definition piece_of (data : list byte) : StreamPiece := newStreamPiece data.

Lemma Reader_Next_spec src c :
  clean src → 1 ≤ c →
  let l := contents src in
  match Reader_Next (MkReader src c true false) with
  | (Ok p, r) => l ≠ [] ∧ p = piece_of (take c l) ∧
      (r_done r = true ∧ length l < c ∨ r_done r = false) ∧
      clean (r_src r) ∧ contents (r_src r) = drop c l ∧ r_chunkSize r = c ∧ r_buf r = true
  | (Err e, _) => e = EOF ∧ l = []
  end.
Proof.
  intros Hc H1. cbn zeta. unfold Reader_Next. cbn [r_done r_src r_chunkSize r_buf].
  destruct (io_read_full_spec (io_fuel src) src c [] Hc) as (src' & He & Hc' & Hd);
    [simpl; lia | unfold io_fuel; lia |].
  simpl in He, Hd. rewrite He. rewrite Nat.sub_0_r in *.
  destruct (Nat.leb_spec c (length (contents src))) as [Hle|Hle].
  - destruct (Nat.eqb_spec (length (take c (contents src))) 0) as [H0|H0].
    { rewrite length_take in H0. lia. }
    simpl. split_and!; try done; [|by right]. intros E. rewrite E in Hle. simpl in Hle. lia.
  - rewrite take_ge by lia. destruct (contents src) as [|b l] eqn:El; simpl; [done|].
    split_and!; try done. by left.
Qed.

Lemma Reader_done fuel src c : Reader_drain (S fuel) (MkReader src c true true) = ([], Some EOF).
Proof. done. Qed.

Lemma Reader_drain_spec fuel src c :
  clean src → 1 ≤ c → length (contents src) < fuel →
  Reader_drain fuel (MkReader src c true false) =
    (piece_of <$> pieces_of (length (contents src)) c (contents src), Some EOF).
Proof.
  intros Hc H1. revert src Hc. induction fuel as [|fuel IH]; intros src Hc Hf; [lia|].
  pose proof (Reader_Next_spec src c Hc H1) as Hn. cbn zeta in Hn.
  cbn [Reader_drain]. destruct (Reader_Next _) as [[p|e] r].
  - destruct Hn as (Hne & -> & Hdone & Hc' & Hct & Hcs & Hbuf).
    destruct r as [rsrc rc rb rd]. simpl in *. subst rc rb.
    assert (Reader_drain fuel (MkReader rsrc c true rd) =
      (piece_of <$> pieces_of (length (contents rsrc)) c (contents rsrc), Some EOF)) as ->.
    { destruct Hdone as [[-> Hlt]| ->].
      - destruct fuel; [simpl in *; destruct (contents src); simpl in *; done || lia|].
        rewrite Hct, drop_ge by lia. by rewrite Reader_done.
      - apply IH; [done|]. rewrite Hct, length_drop.
        destruct (contents src); [done|]. simpl in *. lia. }
    destruct (contents src) as [|b l] eqn:El; [done|]. cbn [length].
    rewrite (pieces_of_cons _ c (b :: l)) by done. rewrite fmap_cons. do 2 f_equal.
    f_equal. rewrite Hct. apply pieces_of_fuel; [done | |]; rewrite ?length_drop; simpl; lia.
  - destruct Hn as [-> ->]. done.
Qed.

(** The streaming [Reader] cuts exactly like [Split], however its source
    fragments the bytes: draining it until [io.EOF] (which takes at most one call
    per byte, plus one) yields the chunks of [Split] with the same ids. *)
Theorem Reader_equals_Split src (chunkSize : Z) cs fuel :
  (0 < chunkSize)%Z → clean src → length (contents src) < fuel →
  Split (contents src) chunkSize = Ok cs →
  Reader_drain fuel (NewReader src chunkSize) =
    ((λ ch, MkPiece (c_ID ch) (c_Data ch) (c_Size ch)) <$> cs, Some EOF).
Proof.
  intros Hpos Hc Hf Hs. unfold NewReader.
  destruct (Z.leb_spec chunkSize 0); [lia|].
  rewrite Reader_drain_spec by (done || lia). f_equal.
  unfold Split, MinChunkSize in Hs. destruct (Z.ltb_spec chunkSize 1); [lia|].
  destruct (Nat.eqb_spec (length (contents src)) 0) as [Hl0|Hl0].
  - destruct (contents src); [|done]. by inv_ok.
  - inv_ok. rewrite split_loop_pieces by lia. rewrite drop_0, <- list_fmap_compose. done.
Qed.

Lemma Reader_equals_Split_witness :
  Reader_drain 4 (NewReader [Data [x61]; Data []; Last [x62; x63]] 2) =
    ((λ ch, MkPiece (c_ID ch) (c_Data ch) (c_Size ch)) <$> cs3, Some EOF).
Proof.
  apply (Reader_equals_Split [Data [x61]; Data []; Last [x62; x63]] 2 cs3 4).
  - lia. - exact I. - simpl. lia. - vm_compute. reflexivity.
Defined.
