(* ===== verification/Cdc.v ===== *)
(** * Content-defined chunking: internal/chunker/cdc.go

    The gear table is filled from Go's [math/rand] generator and is a parameter
    of the whole file: the theorems hold for every table.  The recycling of
    scratch buffers ([getScratch]/[putScratch]) is not modelled: [cd_buf] is the
    content of the buffer. *)
From S2P Require Import Prelude GF GoLib Chunker.
From Stdlib Require Import Strings.Byte.

Record CDCConfig : Type := MkCDCConfig
  { MinSize : Z; NormalSize : Z; MaxSize : Z;
    MaskBitsStrict : Z; MaskBitsLoose : Z; MaskBitsRelax : Z }.

Definition DefaultCDCConfig : CDCConfig :=
  MkCDCConfig (1 * 1024 * 1024) (4 * 1024 * 1024) (16 * 1024 * 1024) 22 20 0.

Record CDCReader : Type := MkCDCReader
  { cd_src : source; cd_cfg : CDCConfig; maskS : Z; maskL : Z; maskR : Z;
    cd_buf : list byte; cd_done : bool }.

(** [(uint64(1) << bits) - 1]: a shift of 64 or more gives 0 in Go. *)
Definition mask_of (bits : Z) : Z := u64 (u64 (Z.shiftl 1 bits) - 1).

Definition normalize_cfg (cfg : CDCConfig) : CDCConfig :=
  let cfg := if (MinSize cfg <=? 0)%Z || (NormalSize cfg <=? 0)%Z || (MaxSize cfg <=? 0)%Z
             then DefaultCDCConfig else cfg in
  let cfg := if (NormalSize cfg <? MinSize cfg)%Z || (MaxSize cfg <? NormalSize cfg)%Z
             then DefaultCDCConfig else cfg in
  MkCDCConfig (MinSize cfg) (NormalSize cfg) (MaxSize cfg)
    (if (MaskBitsStrict cfg <=? 0)%Z then 22 else MaskBitsStrict cfg)%Z
    (if (MaskBitsLoose cfg <=? 0)%Z then 20 else MaskBitsLoose cfg)%Z
    (if (MaskBitsRelax cfg <? 0)%Z then 0 else MaskBitsRelax cfg)%Z.

Definition NewCDCReader (src : source) (cfg : CDCConfig) : CDCReader :=
  let cfg := normalize_cfg cfg in
  MkCDCReader src cfg (mask_of (MaskBitsStrict cfg)) (mask_of (MaskBitsLoose cfg))
    (if (0 <? MaskBitsRelax cfg)%Z then mask_of (MaskBitsRelax cfg) else 0%Z) [] false.

Definition CDC_Close (c : CDCReader) : CDCReader :=
  MkCDCReader (cd_src c) (cd_cfg c) (maskS c) (maskL c) (maskR c) [] true.

(** [for !c.done && len(c.buf) < MaxSize { n, err := src.Read(...) ... }] *)
Fixpoint fill_loop (fuel : nat) (maxSize : nat) (src : source) (buf : list byte) (done : bool)
    : list byte * option io_error * source * bool :=
  if done || (maxSize <=? length buf) then (buf, None, src, done)
  else match fuel with
  | 0 => (buf, None, src, done)
  | S fuel =>
      let '(b, err, src) := io_read src (maxSize - length buf) in
      let buf := buf ++ b in
      match err with
      | Some EOF => (buf, Some EOF, src, true)
      | Some e => (buf, Some e, src, done)
      | None => if length b =? 0 then (buf, None, src, done)
                else fill_loop fuel maxSize src buf done
      end
  end.

Definition fillBuf (c : CDCReader) : option io_error * CDCReader :=
  let '(buf, err, src, done) :=
    fill_loop (io_fuel (cd_src c)) (Z.to_nat (MaxSize (cd_cfg c))) (cd_src c) (cd_buf c) (cd_done c) in
  (err, MkCDCReader src (cd_cfg c) (maskS c) (maskL c) (maskR c) buf done).

Section cdc.
Context (gearTable : list Z).

(** [fp = (fp << 1) + gearTable[b]] in 64 bits. *)
Definition gear_step (fp : Z) (b : byte) : Z :=
  u64 (u64 (Z.shiftl fp 1) + gearTable !!! N.to_nat (Byte.to_N b)).

(** [for i := i; i < i+n; i++ { fp = ...; if fp&mask == 0 { return i + 1 } }] *)
Fixpoint scan (n : nat) (mask fp : Z) (i : nat) (data : list byte) : nat + Z :=
  match n with
  | 0 => inr fp
  | S n =>
      let fp := gear_step fp (data !!! i) in
      if (Z.land fp mask =? 0)%Z then inl (i + 1) else scan n mask fp (i + 1) data
  end.

Definition cutpoint (c : CDCReader) (data : list byte) : nat :=
  let n := length data in
  let minSize := Z.to_nat (MinSize (cd_cfg c)) in
  let normalSize := Z.to_nat (NormalSize (cd_cfg c)) in
  let maxSize := Z.to_nat (MaxSize (cd_cfg c)) in
  if n <=? minSize then n
  else
    let limit := if maxSize <? n then maxSize else n in
    let normal := if limit <? normalSize then limit else normalSize in
    let relax :=
      if (maskR c =? 0)%Z then limit
      else
        let relax := (normalSize + maxSize) / 2 in
        let relax := if limit <? relax then limit else relax in
        if relax <? normal then normal else relax in
    let fp := for_range 0 minSize (λ fp i, gear_step fp (data !!! i)) 0%Z in
    match scan (normal - minSize) (maskS c) fp minSize data with
    | inl cut => cut
    | inr fp =>
    match scan (relax - normal) (maskL c) fp normal data with
    | inl cut => cut
    | inr fp =>
    match scan (limit - relax) (maskR c) fp relax data with
    | inl cut => cut
    | inr _ => limit
    end end end.

Definition CDC_Next (c : CDCReader) : result io_error StreamPiece * CDCReader :=
  match fillBuf c with
  | (err, c) =>
      match err, cd_buf c with
      | Some e, [] => (Err e, c)
      | None, [] => (Err EOF, c)
      | _, buf =>
          let cut := cutpoint c buf in
          (Ok (newStreamPiece (take cut buf)),
           MkCDCReader (cd_src c) (cd_cfg c) (maskS c) (maskL c) (maskR c) (drop cut buf) (cd_done c))
      end
  end.

Fixpoint CDC_drain (fuel : nat) (c : CDCReader) : list StreamPiece * option io_error :=
  match fuel with
  | 0 => ([], None)
  | S fuel =>
      match CDC_Next c with
      | (Err e, _) => ([], Some e)
      | (Ok p, c) => let '(ps, e) := CDC_drain fuel c in (p :: ps, e)
      end
  end.

(** ** Reference: cutting the whole byte string *)
Fixpoint cdc_split (fuel : nat) (c : CDCReader) (l : list byte) : list (list byte) :=
  match fuel with
  | 0 => []
  | S fuel =>
      match l with
      | [] => []
      | _ => let k := cutpoint c (take (Z.to_nat (MaxSize (cd_cfg c))) l) in
             take k l :: cdc_split fuel c (drop k l)
      end
  end.

(** What [NewCDCReader] guarantees of the configuration. *)
Definition cfg_ok (cfg : CDCConfig) : Prop :=
  (0 < MinSize cfg ≤ NormalSize cfg)%Z ∧ (NormalSize cfg ≤ MaxSize cfg)%Z.

Lemma normalize_cfg_ok cfg : cfg_ok (normalize_cfg cfg).
Proof.
  unfold normalize_cfg, cfg_ok.
  set (c1 := if _ || _ || _ then _ else _).
  assert (0 < MinSize c1 ∧ 0 < NormalSize c1 ∧ 0 < MaxSize c1)%Z as Hc1.
  { subst c1. destruct (Z.leb_spec (MinSize cfg) 0), (Z.leb_spec (NormalSize cfg) 0),
      (Z.leb_spec (MaxSize cfg) 0); simpl; lia. }
  destruct (Z.ltb_spec (NormalSize c1) (MinSize c1)), (Z.ltb_spec (MaxSize c1) (NormalSize c1));
    simpl; lia.
Qed.

Lemma scan_bounds n mask fp i data cut :
  scan n mask fp i data = inl cut → i < cut ≤ i + n.
Proof.
  revert fp i. induction n as [|n IH]; intros fp i; simpl; [done|].
  destruct (Z.eqb_spec (Z.land (gear_step fp (data !!! i)) mask) 0); intros H.
  - simplify_eq. lia.
  - apply IH in H. lia.
Qed.

Lemma cutpoint_bounds c data :
  cfg_ok (cd_cfg c) → data ≠ [] →
  let n := length data in
  1 ≤ cutpoint c data ≤ n ∧
  cutpoint c data ≤ Z.to_nat (MaxSize (cd_cfg c)) `max` 1 ∧
  (Z.to_nat (MinSize (cd_cfg c)) ≤ n → Z.to_nat (MinSize (cd_cfg c)) ≤ cutpoint c data).
Proof.
  intros [H1 H2] Hne. assert (1 ≤ length data) as Hlen by (destruct data; [done | simpl; lia]).
  cbn zeta. unfold cutpoint.
  destruct (Nat.leb_spec (length data) (Z.to_nat (MinSize (cd_cfg c)))); [lia|].
  set (limit := if _ <? length data then _ else _).
  assert (Z.to_nat (MinSize (cd_cfg c)) ≤ limit ≤ length data ∧
          limit ≤ Z.to_nat (MaxSize (cd_cfg c))) as Hl.
  { subst limit. destruct (Nat.ltb_spec (Z.to_nat (MaxSize (cd_cfg c))) (length data)); lia. }
  clearbody limit.
  set (normal := if limit <? _ then _ else _).
  assert (Z.to_nat (MinSize (cd_cfg c)) ≤ normal ≤ limit) as Hn.
  { subst normal. destruct (Nat.ltb_spec limit (Z.to_nat (NormalSize (cd_cfg c)))); lia. }
  clearbody normal.
  set (relax := if (maskR c =? 0)%Z then _ else _).
  assert (normal ≤ relax ≤ limit) as Hr.
  { subst relax. destruct (maskR c =? 0)%Z; [lia|]. cbn zeta.
    destruct (Nat.ltb_spec limit ((Z.to_nat (NormalSize (cd_cfg c)) +
      Z.to_nat (MaxSize (cd_cfg c))) / 2)); case_match eqn:E; try apply Nat.ltb_ge in E; lia. }
  clearbody relax.
  repeat case_match; try lia;
    match goal with E : scan _ _ _ _ _ = inl _ |- _ => apply scan_bounds in E end; lia.
Qed.

(** ** The reader refines the reference *)

(** No [Read] returns [(0, nil)]. *)
Fixpoint progressing (src : source) : Prop :=
  match src with
  | Data [] :: _ => False
  | Data _ :: src => progressing src
  | _ => True
  end.

Lemma io_read_progressing src n :
  1 ≤ n → clean src → progressing src →
  let '(b, err, src') := io_read src n in
  progressing src' ∧ (err = None → b ≠ []).
Proof.
  intros Hn. destruct src as [|[b|b|] src]; simpl; intros Hc Hp; try done.
  - destruct b as [|x b]; [done|]. destruct (Nat.ltb_spec n (length (x :: b))) as [Hl|Hl]; simpl.
    + destruct (drop n (x :: b)) eqn:E.
      { apply (f_equal length) in E. rewrite length_drop in E. simpl in *. lia. }
      split; [done|]. destruct n; [lia|]. done.
    + done.
  - destruct (Nat.ltb_spec n (length b)) as [Hl|Hl]; simpl; [|done].
    split; [done|]. destruct n, b; simpl in *; try lia; done.
Qed.

Lemma fill_loop_spec fuel m src buf done :
  clean src → progressing src → length buf ≤ m → length src < fuel →
  (done = true → contents src = []) →
  ∃ src' err done', fill_loop fuel m src buf done =
    (take m (buf ++ contents src), err, src', done') ∧
    (err = None ∨ err = Some EOF) ∧ clean src' ∧ progressing src' ∧
    contents src' = drop m (buf ++ contents src) ∧ (done' = true → contents src' = []).
Proof.
  revert src buf done. induction fuel as [|fuel IH]; intros src buf done Hc Hp Hb Hf Hd; [lia|].
  cbn [fill_loop]. destruct done; simpl.
  { rewrite Hd, app_nil_r, take_ge, drop_ge by (done || lia).
    exists src, None, true. split_and!; auto. }
  destruct (Nat.leb_spec m (length buf)) as [Hm|Hm].
  { rewrite take_app, drop_app, take_ge, drop_ge by lia.
    replace (m - length buf) with 0 by lia. rewrite take_0, drop_0, app_nil_r.
    exists src, None, false. split_and!; auto. }
  assert (1 ≤ m - length buf) as Hm1 by lia.
  pose proof (io_read_spec src (m - length buf) Hc) as Hr.
  pose proof (io_read_progressing src (m - length buf) Hm1 Hc Hp) as Hp1.
  destruct (io_read src (m - length buf)) as [[b err] src1].
  destruct Hr as (Hc1 & Heq & Hbn & Herr & Hprog), Hp1 as [Hp1 Hne].
  rewrite Heq, app_assoc.
  destruct Herr as [->|[-> Hend]].
  - destruct (Nat.eqb_spec (length b) 0) as [Hz|Hz].
    { destruct b; [|done]. by destruct Hne. }
    destruct (decide (length b = m - length buf)) as [Hfull|Hpart].
    + exists src1, None, false.
      assert (fill_loop fuel m src1 (buf ++ b) false = (buf ++ b, None, src1, false)) as ->.
      { destruct fuel; simpl; rewrite (proj2 (Nat.leb_le m _)) by (rewrite length_app; lia); done. }
      rewrite take_app_length', drop_app_length' by (rewrite length_app; lia).
      split_and!; auto. done.
    + assert (length src1 < length src) by (destruct Hprog as [|[|]]; done || lia).
      apply IH; [done | done | rewrite length_app; lia | lia | done].
  - exists src1, (Some EOF), true. rewrite Hend, app_nil_r.
    rewrite take_ge, drop_ge by (rewrite length_app; lia). split_and!; auto.
Qed.

(** The parts of a reader that decide where it cuts. *)
Definition same_cuts (c c' : CDCReader) : Prop :=
  cd_cfg c = cd_cfg c' ∧ maskS c = maskS c' ∧ maskL c = maskL c' ∧ maskR c = maskR c'.

Lemma cutpoint_same c c' data : same_cuts c c' → cutpoint c data = cutpoint c' data.
Proof. intros (H1 & H2 & H3 & H4). unfold cutpoint. by rewrite H1, H2, H3, H4. Qed.

Lemma cdc_split_same fuel c c' l : same_cuts c c' → cdc_split fuel c l = cdc_split fuel c' l.
Proof.
  intros Hs. revert l. induction fuel as [|fuel IH]; intros l; [done|]. simpl.
  destruct l as [|b l]; [done|]. rewrite IH, !(cutpoint_same c c') by done.
  by destruct Hs as (-> & _).
Qed.

(** Bytes the reader has yet to emit, and what its calls keep true. *)
Definition pending (c : CDCReader) : list byte := cd_buf c ++ contents (cd_src c).

Definition reader_ok (c : CDCReader) : Prop :=
  cfg_ok (cd_cfg c) ∧ clean (cd_src c) ∧ progressing (cd_src c) ∧
  length (cd_buf c) ≤ Z.to_nat (MaxSize (cd_cfg c)) ∧
  (cd_done c = true → contents (cd_src c) = []).

Lemma CDC_Next_spec c :
  reader_ok c →
  let l := pending c in
  let k := cutpoint c (take (Z.to_nat (MaxSize (cd_cfg c))) l) in
  match CDC_Next c with
  | (Err e, _) => e = EOF ∧ l = []
  | (Ok p, c') => l ≠ [] ∧ p = newStreamPiece (take k l) ∧
      pending c' = drop k l ∧ same_cuts c' c ∧ reader_ok c'
  end.
Proof.
  intros (Hcfg & Hc & Hp & Hb & Hd). cbn zeta. unfold CDC_Next, fillBuf.
  set (m := Z.to_nat (MaxSize (cd_cfg c))) in *.
  destruct (fill_loop_spec (io_fuel (cd_src c)) m (cd_src c) (cd_buf c) (cd_done c))
    as (src' & err & done' & -> & Herr & Hc' & Hp' & Hdrop & Hd'); try done.
  { unfold io_fuel. lia. }
  fold (pending c) in *. cbn [cd_buf cd_src cd_cfg cd_done].
  assert (1 ≤ m) as Hm by (destruct Hcfg; lia).
  destruct (pending c) as [|b l] eqn:Hl.
  { rewrite take_nil. destruct Herr as [->| ->]; done. }
  rewrite <- Hl in *.
  assert (take m (pending c) ≠ []) as Hne by (rewrite Hl; destruct m; [lia|done]).
  destruct (cutpoint_bounds c (take m (pending c)) Hcfg Hne) as ((Hk1 & Hk2) & _).
  rewrite length_take in Hk2.
  set (c1 := MkCDCReader src' (cd_cfg c) (maskS c) (maskL c) (maskR c) (take m (pending c)) done').
  match goal with |- match ?r with _ => _ end => assert (r = (Ok (newStreamPiece (take (cutpoint c1 (take m (pending c))) (take m (pending c)))),
              MkCDCReader src' (cd_cfg c) (maskS c) (maskL c) (maskR c)
                (drop (cutpoint c1 (take m (pending c))) (take m (pending c))) done')) as -> end.
  { subst c1. destruct (take m (pending c)); [done|]. by destruct err. }
  rewrite (cutpoint_same c1 c) by done.
  set (k := cutpoint c (take m (pending c))) in *.
  rewrite take_take. replace (k `min` m) with k by lia.
  split; [by rewrite Hl|]. split; [done|]. split; [|split; [done|]].
  - unfold pending at 1; cbn [cd_buf cd_src]. rewrite Hdrop.
    rewrite <- (take_drop m (pending c)) at 3. rewrite drop_app_le; [done|].
    rewrite length_take. lia.
  - unfold reader_ok. cbn [cd_buf cd_cfg cd_src cd_done]. rewrite length_drop, length_take.
    fold m. split_and!; done || (destruct Hcfg; lia).
Qed.

Lemma cdc_split_nil fuel c : cdc_split fuel c [] = [].
Proof. by destruct fuel. Qed.

Lemma cdc_split_cons fuel c l :
  l ≠ [] → let k := cutpoint c (take (Z.to_nat (MaxSize (cd_cfg c))) l) in
  cdc_split (S fuel) c l = take k l :: cdc_split fuel c (drop k l).
Proof. by destruct l. Qed.

Lemma cut_prefix_bounds c l :
  cfg_ok (cd_cfg c) → l ≠ [] →
  let k := cutpoint c (take (Z.to_nat (MaxSize (cd_cfg c))) l) in
  1 ≤ k ≤ length l ∧ k ≤ Z.to_nat (MaxSize (cd_cfg c)) ∧
  (Z.to_nat (MinSize (cd_cfg c)) ≤ length l → Z.to_nat (MinSize (cd_cfg c)) ≤ k).
Proof.
  intros Hcfg Hne. assert (1 ≤ Z.to_nat (MaxSize (cd_cfg c))) by (destruct Hcfg; lia).
  destruct (cutpoint_bounds c (take (Z.to_nat (MaxSize (cd_cfg c))) l)) as (Ha & Hb & Hd);
    [done | by destruct l, (Z.to_nat (MaxSize (cd_cfg c))); try lia |].
  rewrite length_take in *. destruct Hcfg. cbn zeta. split_and!; try lia.
Qed.

Lemma cut_short c l :
  cfg_ok (cd_cfg c) → length l ≤ Z.to_nat (MinSize (cd_cfg c)) →
  cutpoint c (take (Z.to_nat (MaxSize (cd_cfg c))) l) = length l.
Proof.
  intros [H1 H2] Hl. rewrite take_ge by lia. unfold cutpoint.
  by rewrite (proj2 (Nat.leb_le _ _)) by lia.
Qed.

Lemma cdc_split_fuel f f' c l :
  cfg_ok (cd_cfg c) → length l ≤ f → length l ≤ f' → cdc_split f c l = cdc_split f' c l.
Proof.
  intros Hcfg. revert f' l. induction f as [|f IH]; intros f' l Hf Hf'.
  - destruct l; [by rewrite !cdc_split_nil | simpl in Hf; lia].
  - destruct (decide (l = [])) as [->|Hne]; [by rewrite !cdc_split_nil|].
    destruct f' as [|f']; [destruct l; simpl in *; (done || lia)|].
    destruct (cut_prefix_bounds c l Hcfg Hne) as (Hk & _).
    rewrite !cdc_split_cons by done. f_equal. apply IH; rewrite length_drop; lia.
Qed.

Lemma CDC_drain_spec fuel c :
  reader_ok c → length (pending c) < fuel →
  CDC_drain fuel c = (newStreamPiece <$> cdc_split (length (pending c)) c (pending c), Some EOF).
Proof.
  revert c. induction fuel as [|fuel IH]; intros c Hok Hf; [lia|]. cbn [CDC_drain].
  pose proof (CDC_Next_spec c Hok) as Hn. cbn zeta in Hn.
  destruct (CDC_Next c) as [[p|e] c'].
  - destruct Hn as (Hne & -> & Hp & Hs & Hok').
    destruct (cut_prefix_bounds c (pending c) (proj1 Hok) Hne) as (Hk & _).
    assert (length (pending c') < length (pending c)) as Hlt by (rewrite Hp, length_drop; lia).
    rewrite IH by (done || lia).
    destruct (length (pending c)) as [|n] eqn:Hl; [lia|].
    rewrite cdc_split_cons by done. rewrite fmap_cons, <- Hp.
    rewrite (cdc_split_same _ c' c) by done.
    rewrite (cdc_split_fuel (length (pending c')) n c) by (apply Hok || lia). done.
  - destruct Hn as [-> ->]. done.
Qed.

Lemma cdc_split_concat f c l :
  cfg_ok (cd_cfg c) → length l ≤ f → concat (cdc_split f c l) = l.
Proof.
  intros Hcfg. revert l. induction f as [|f IH]; intros l Hf.
  - by destruct l; [|simpl in Hf; lia].
  - destruct (decide (l = [])) as [->|Hne]; [done|].
    destruct (cut_prefix_bounds c l Hcfg Hne) as (Hk & _).
    rewrite cdc_split_cons by done. cbn [concat].
    rewrite IH by (rewrite length_drop; lia). apply take_drop.
Qed.

Lemma cdc_split_sizes f c l i p :
  cfg_ok (cd_cfg c) → cdc_split f c l !! i = Some p →
  1 ≤ length p ≤ Z.to_nat (MaxSize (cd_cfg c)) ∧
  (S i < length (cdc_split f c l) → Z.to_nat (MinSize (cd_cfg c)) ≤ length p).
Proof.
  intros Hcfg. revert l i. induction f as [|f IH]; intros l i; [done|].
  destruct (decide (l = [])) as [->|Hne]; [done|].
  destruct (cut_prefix_bounds c l Hcfg Hne) as (Hk & Hmax & Hmin).
  rewrite cdc_split_cons by done. destruct i as [|i]; simpl lookup; intros H.
  - simplify_eq. rewrite length_take. split; [lia|]. cbn [length]. intros Hlen.
    destruct (decide (Z.to_nat (MinSize (cd_cfg c)) ≤ length l)) as [Hle|Hlt].
    + specialize (Hmin Hle). lia.
    + rewrite cut_short, drop_all, cdc_split_nil in Hlen by (done || lia). simpl in Hlen. lia.
  - destruct (IH _ _ H) as [H1 H2]. split; [done|]. cbn [length]. intros. apply H2. lia.
Qed.

(** Where a cut falls, what precedes it no longer matters. *)
Lemma cdc_split_resume f c l ps qs :
  cfg_ok (cd_cfg c) → length l ≤ f → cdc_split f c l = ps ++ qs →
  qs = cdc_split f c (drop (length (concat ps)) l).
Proof.
  intros Hcfg. revert f l. induction ps as [|p ps IH]; intros f l Hf Hs; [done|].
  destruct f as [|f]; [done|]. destruct (decide (l = [])) as [->|Hne]; [done|].
  rewrite cdc_split_cons in Hs by done. cbn [app] in Hs. injection Hs as <- Hs.
  cbn [concat].
  destruct (cut_prefix_bounds c l Hcfg Hne) as (Hk & _).
  set (k := cutpoint _ _) in *.
  rewrite (IH f (drop k l)) by (done || rewrite length_drop; lia).
  rewrite drop_drop, length_app, length_take. replace (k `min` length l) with k by lia.
  apply cdc_split_fuel; [done | rewrite length_drop; lia..].
Qed.

(** C19: draining a [CDCReader] yields, whatever the fragmentation of its source,
    exactly the content-defined cuts of the bytes: the pieces concatenate to the
    input, none exceeds [MaxSize], none but the last is below [MinSize], and the
    reader ends with [io.EOF]. *)
Theorem CDCReader_correct src cfg fuel :
  clean src → progressing src → length (contents src) < fuel →
  let c := NewCDCReader src cfg in
  let ps := cdc_split (length (contents src)) c (contents src) in
  CDC_drain fuel c = (newStreamPiece <$> ps, Some EOF) ∧
  concat ps = contents src ∧
  ∀ i p, ps !! i = Some p →
    (1 ≤ Z.of_nat (length p) ≤ MaxSize (cd_cfg c))%Z ∧
    (S i < length ps → (MinSize (cd_cfg c) ≤ Z.of_nat (length p))%Z).
Proof.
  intros Hc Hp Hf c ps. assert (cfg_ok (cd_cfg c)) as Hcfg by apply normalize_cfg_ok.
  assert (pending c = contents src) as Hpend by done.
  split_and!.
  - rewrite CDC_drain_spec; rewrite ?Hpend; [done | |done].
    unfold reader_ok. split_and!; try done. simpl. lia.
  - by apply cdc_split_concat.
  - intros i p Hi. destruct (cdc_split_sizes _ _ _ _ _ Hcfg Hi) as [H1 H2].
    fold ps in H2. clearbody c ps. destruct Hcfg. split; [lia|].
    intros Hlt. apply H2 in Hlt. lia.
Qed.

(** Shift invariance: two streams that share a tail [t] and both have a cut
    where it starts produce the same pieces from there on. *)
Theorem CDC_resynchronises c a b t ps qs ps' qs' :
  cfg_ok (cd_cfg c) →
  cdc_split (length (a ++ t)) c (a ++ t) = ps ++ qs → concat ps = a →
  cdc_split (length (b ++ t)) c (b ++ t) = ps' ++ qs' → concat ps' = b →
  qs = qs'.
Proof.
  intros Hcfg Ha Hpa Hb Hpb.
  rewrite (cdc_split_resume _ c _ ps qs Hcfg (le_n _) Ha), Hpa.
  rewrite (cdc_split_resume _ c _ ps' qs' Hcfg (le_n _) Hb), Hpb.
  rewrite !drop_app_length. apply cdc_split_fuel; [done | rewrite length_app; lia..].
Qed.

(** ** The rolling window *)
Lemma u64_mod_pow a j : (0 ≤ j ≤ 64)%Z → (u64 a mod 2 ^ j = a mod 2 ^ j)%Z.
Proof.
  intros Hj. unfold u64. apply Z.mod_mod_divide. exists (2 ^ (64 - j))%Z. rewrite <- Z.pow_add_r by lia. f_equal. lia.
Qed.

Lemma gear_step_window fp fp' b j :
  (0 ≤ j)%Z → (fp mod 2 ^ j = fp' mod 2 ^ j)%Z → (j + 1 ≤ 64)%Z →
  (gear_step fp b mod 2 ^ (j + 1) = gear_step fp' b mod 2 ^ (j + 1))%Z.
Proof.
  intros Hj Heq H64. unfold gear_step. rewrite !u64_mod_pow by lia.
  rewrite !Z.shiftl_mul_pow2 by lia.
  rewrite (Zplus_mod (u64 (fp * _))), (Zplus_mod (u64 (fp' * _))).
  rewrite !u64_mod_pow by lia. do 2 f_equal.
  rewrite Z.pow_add_r by lia. change (2 ^ 1)%Z with 2%Z.
  by rewrite !Zmult_mod_distr_r, Heq.
Qed.

Lemma gear_window_mod w fp fp' j :
  (0 ≤ j)%Z → (fp mod 2 ^ j = fp' mod 2 ^ j)%Z →
  let k := Z.min 64 (j + Z.of_nat (length w)) in (j ≤ 64)%Z →
  (foldl gear_step fp w mod 2 ^ k = foldl gear_step fp' w mod 2 ^ k)%Z.
Proof.
  revert fp fp' j. induction w as [|b w IH]; intros fp fp' j Hj Heq; cbn zeta; intros H64.
  - simpl. replace (Z.min 64 (j + Z.of_nat 0)) with j by lia. done.
  - cbn [foldl length].
    destruct (decide (j = 64%Z)) as [->|Hne].
    + replace (Z.min _ _) with (Z.min 64 (64 + Z.of_nat (length w))) by lia.
      apply IH; [lia | | lia].
      unfold gear_step. rewrite !u64_mod_pow by lia. rewrite !Z.shiftl_mul_pow2 by lia.
      rewrite (Zplus_mod (u64 (fp * _))), (Zplus_mod (u64 (fp' * _))).
      rewrite !u64_mod_pow by lia. rewrite (Zmult_mod fp), (Zmult_mod fp'). by rewrite Heq.
    + replace (Z.min 64 (j + _)) with (Z.min 64 (j + 1 + Z.of_nat (length w))) by lia.
      apply IH; [lia | apply gear_step_window; lia | lia].
Qed.

(** The decision to cut after a window of [bits] bytes or more depends on
    the window only: whatever the fingerprint before it, the test against the
    [bits]-bit mask gives the same answer. *)
Theorem cut_test_window w fp fp' bits :
  (0 < bits ≤ 64)%Z → (bits ≤ Z.of_nat (length w))%Z →
  Z.land (foldl gear_step fp w) (mask_of bits) = Z.land (foldl gear_step fp' w) (mask_of bits).
Proof.
  intros Hb Hw.
  assert (mask_of bits = Z.ones bits) as ->.
  { unfold mask_of. rewrite Z.shiftl_mul_pow2, Z.mul_1_l by lia.
    rewrite Z.ones_equiv. destruct (decide (bits = 64%Z)) as [->|]; [done|].
    assert (2 ^ bits < 2 ^ 64)%Z by (apply Z.pow_lt_mono_r; lia).
    assert (0 < 2 ^ bits)%Z by (apply Z.pow_pos_nonneg; lia).
    rewrite (u64_small (2 ^ bits)) by lia. rewrite u64_small by lia. lia. }
  rewrite !Z.land_ones by lia.
  pose proof (gear_window_mod w fp fp' 0) as H. cbn zeta in H.
  specialize (H ltac:(lia) ltac:(by rewrite Z.pow_0_r, !Z.mod_1_r) ltac:(lia)).
  set (k := Z.min 64 _) in H. assert (bits ≤ k)%Z by lia.
  assert (∀ x, x mod 2 ^ bits = (x mod 2 ^ k) mod 2 ^ bits)%Z as Hm.
  { intros x. symmetry. apply Z.mod_mod_divide. exists (2 ^ (k - bits))%Z. rewrite <- Z.pow_add_r by lia. f_equal. lia. }
  rewrite Hm, H, <- Hm. done.
Qed.

End cdc.

(** ** Witnesses *)
Definition gear4 : list Z := (λ i, Z.of_nat i * 37)%Z <$> seq 0 256.
Definition cfg4 : CDCConfig := MkCDCConfig 1 2 4 2 1 0.
Definition src4 : source := [Data [x61; x62]; Data [x63]; Last [x64; x65; x66; x67]].

Lemma CDCReader_correct_witness :
  let c := NewCDCReader src4 cfg4 in
  CDC_drain gear4 8 c = (newStreamPiece <$> cdc_split gear4 7 c (contents src4), Some EOF).
Proof. apply (CDCReader_correct gear4 src4 cfg4 8); simpl; [done | done | lia]. Defined.

Lemma CDC_resynchronises_witness :
  let c := NewCDCReader [] cfg4 in
  let t := [x63; x64; x65; x66; x67] in
  drop 1 (cdc_split gear4 7 c ([x61; x62] ++ t)) = drop 1 (cdc_split gear4 8 c ([x6e; x61; x62] ++ t)).
Proof.
  apply (CDC_resynchronises gear4 (NewCDCReader [] cfg4) [x61; x62] [x6e; x61; x62]
    [x63; x64; x65; x66; x67] [[x61; x62]] _ [[x6e; x61; x62]] _);
    [split; simpl; lia | vm_compute; reflexivity..].
Defined.

Lemma cut_test_window_witness :
  Z.land (foldl (gear_step gear4) 5%Z [x61; x62; x63]) (mask_of 3) =
  Z.land (foldl (gear_step gear4) 77%Z [x61; x62; x63]) (mask_of 3).
Proof. apply cut_test_window; simpl; lia. Defined.

(** ** Divergences from [io.Reader]'s contract *)

(** A reader that returns [(0, nil)] once while the buffer is empty ends the
    stream: [Next] answers [io.EOF] with bytes still unread. *)
Example CDC_zero_read_is_EOF :
  let c := NewCDCReader [Data []; Data [x61]] cfg4 in
  fst (CDC_Next gear4 c) = Err EOF ∧ cd_src (snd (CDC_Next gear4 c)) = [Data [x61]].
Proof. done. Qed.
