(* ===== verification/Placement.v ===== *)
(** * Placement: internal/placement (placement.go)

    Rendezvous hashing.  [sort.Slice] with the source's comparison is a merge
    sort by the order [before]; the order is total on nodes with distinct IDs,
    so there the result is the only possible one. *)
From S2P Require Import Prelude GoLib.

Record Node : Type := MkNode { ID : string; Addr : string; Domain : string }.
#[export] Instance Node_eq_dec : EqDecision Node.
Proof. solve_decision. Defined.

(** [binary.BigEndian.Uint64(sha256(chunkID + "|" + nodeID)[:8])] *)
Definition hrwScore (chunkID nodeID : string) : N :=
  be_uint64 (take 8 (sha256 (bytes_of (chunkID ++ "|" ++ nodeID)))).

Record scored : Type := MkScored { sc_node : Node; sc_score : N }.

(** The order of the result: higher score first, then smaller ID. *)
Definition before (a b : scored) : Prop :=
  (sc_score b < sc_score a)%N ∨
  sc_score a = sc_score b ∧ String.le (ID (sc_node a)) (ID (sc_node b)).
#[export] Instance before_dec : RelDecision before.
Proof. intros a b. unfold before. apply _. Defined.

Definition score_nodes (chunkID : string) (nodes : list Node) : list scored :=
  (λ nd, MkScored nd (hrwScore chunkID (ID nd))) <$> nodes.

(** The nodes in the order [sort.Slice] leaves them. *)
Definition ranked (chunkID : string) (nodes : list Node) : list Node :=
  sc_node <$> merge_sort before (score_nodes chunkID nodes).

Definition clamp (n : Z) (nodes : list Node) : nat :=
  let n := Z.to_nat n in if length nodes <? n then length nodes else n.

Definition PickFromNodes (chunkID : string) (n : Z) (nodes : list Node) : list Node :=
  if (n <=? 0)%Z || (length nodes =? 0) then []
  else take (clamp n nodes) (ranked chunkID nodes).

(** State of the two passes of [PickFromNodesByDomain]. *)
Record picks : Type := MkPicks
  { out : list Node; usedDomain : gset string; usedID : gset string }.

Definition pick_add (p : picks) (s : Node) (ud : gset string) : picks :=
  MkPicks (out p ++ [s]) ud ({[ID s]} ∪ usedID p).

Fixpoint first_pass (n : nat) (scoreds : list Node) (p : picks) : picks :=
  match scoreds with
  | [] => p
  | s :: scoreds =>
      if n <=? length (out p) then p
      else if bool_decide (Domain s ∈ usedDomain p) then first_pass n scoreds p
      else first_pass n scoreds (pick_add p s ({[Domain s]} ∪ usedDomain p))
  end.

Fixpoint second_pass (n : nat) (scoreds : list Node) (p : picks) : picks :=
  match scoreds with
  | [] => p
  | s :: scoreds =>
      if n <=? length (out p) then p
      else if bool_decide (ID s ∈ usedID p) then second_pass n scoreds p
      else second_pass n scoreds (pick_add p s (usedDomain p))
  end.

Definition hasDomain (nodes : list Node) : bool :=
  existsb (λ nd, negb (bool_decide (Domain nd = ""))) nodes.

Definition PickFromNodesByDomain (chunkID : string) (n : Z) (nodes : list Node) : list Node :=
  if (n <=? 0)%Z || (length nodes =? 0) then []
  else
    let k := clamp n nodes in
    if negb (hasDomain nodes) then PickFromNodes chunkID (Z.of_nat k) nodes
    else
      let scoreds := ranked chunkID nodes in
      let p := first_pass k scoreds (MkPicks [] ∅ ∅) in
      out (if length (out p) <? k then second_pass k scoreds p else p).

(** A [Placer] keeps its own copy of the node list. *)
Record Placer : Type := MkPlacer { nodes : list Node }.
Definition New (nodes : list Node) : Placer := MkPlacer nodes.
Definition Nodes (p : Placer) : list Node := nodes p.
Definition Pick (p : Placer) (chunkID : string) (n : Z) : list Node :=
  PickFromNodes chunkID n (nodes p).
Definition PickByDomain (p : Placer) (chunkID : string) (n : Z) : list Node :=
  PickFromNodesByDomain chunkID n (nodes p).

(** ** The order *)
#[export] Instance before_trans : Transitive before.
Proof.
  intros a b c [H1|[H1 H1']] [H2|[H2 H2']]; unfold before; [left; lia..|].
  right. split; [congruence|]. by transitivity (ID (sc_node b)).
Qed.
#[export] Instance before_total : Total before.
Proof.
  intros a b. unfold before.
  destruct (N.lt_trichotomy (sc_score a) (sc_score b)) as [H|[H|H]]; [auto | |auto].
  destruct (total String.le (ID (sc_node a)) (ID (sc_node b))); auto.
Qed.

(** The order on nodes that the ranking follows. *)
Definition rank_before (chunkID : string) (a b : Node) : Prop :=
  before (MkScored a (hrwScore chunkID (ID a))) (MkScored b (hrwScore chunkID (ID b))).

Section ranking.
Context (chunkID : string).

Lemma rank_before_antisymm (l : list Node) a b :
  NoDup (ID <$> l) → a ∈ l → b ∈ l →
  rank_before chunkID a b → rank_before chunkID b a → a = b.
Proof.
  intros Hnd Ha Hb H1 H2. assert (ID a = ID b) as Hid.
  { destruct H1 as [H1|[E1 H1]], H2 as [H2|[E2 H2]]; simpl in *; try lia.
    by apply (anti_symm String.le). }
  apply list_elem_of_lookup in Ha as [i Hi], Hb as [j Hj].
  assert (i = j) as ->; [|congruence].
  eapply (NoDup_lookup _ _ _ _ Hnd); rewrite list_lookup_fmap, ?Hi, ?Hj; simpl; by rewrite ?Hid.
Qed.

Lemma ranked_perm nodes : ranked chunkID nodes ≡ₚ nodes.
Proof.
  unfold ranked. rewrite (merge_sort_Permutation before). unfold score_nodes.
  rewrite <- list_fmap_compose. by rewrite list_fmap_id.
Qed.

Lemma merged_scores nodes s :
  s ∈ merge_sort before (score_nodes chunkID nodes) → sc_score s = hrwScore chunkID (ID (sc_node s)).
Proof.
  rewrite elem_of_merge_sort. unfold score_nodes. intros (nd & -> & _)%list_elem_of_fmap. done.
Qed.

Lemma ranked_sorted nodes : StronglySorted (rank_before chunkID) (ranked chunkID nodes).
Proof.
  unfold ranked. pose proof (merged_scores nodes) as Hs.
  pose proof (StronglySorted_merge_sort before (score_nodes chunkID nodes)) as Hss.
  induction Hss as [|s l Hss IH Hall]; [constructor|]. rewrite fmap_cons. constructor.
  - apply IH. intros x Hx. apply Hs. by right.
  - rewrite Forall_fmap. rewrite Forall_forall in Hall |- *. intros x Hx.
    specialize (Hall x Hx). unfold compose, rank_before.
    rewrite <- (Hs s), <- (Hs x) by (by left || by right). by destruct s, x.
Qed.

(** The ranking is the only sorted arrangement of the nodes. *)
Lemma ranked_unique nodes l :
  NoDup (ID <$> nodes) → StronglySorted (rank_before chunkID) l → l ≡ₚ nodes → ranked chunkID nodes = l.
Proof.
  intros Hnd Hss Hp. apply (StronglySorted_unique_strong (rank_before chunkID)).
  - intros x y Hx Hy. rewrite ranked_perm in Hx. rewrite Hp in Hy.
    by apply (rank_before_antisymm nodes).
  - apply ranked_sorted.
  - done.
  - by rewrite ranked_perm.
Qed.

Lemma NoDup_ID_filter (P : Node → Prop) `{∀ x, Decision (P x)} l :
  NoDup (ID <$> l) → NoDup (ID <$> filter P l).
Proof.
  induction l as [|x l IH]; [done|]. rewrite fmap_cons, filter_cons. intros [Hx Hnd]%NoDup_cons.
  case_decide; [|by apply IH]. rewrite fmap_cons. apply NoDup_cons. split; [|by apply IH].
  intros (y & Hy & [_ Hin]%list_elem_of_filter)%list_elem_of_fmap. apply Hx, list_elem_of_fmap. eauto.
Qed.

Lemma StronglySorted_filter {A} (R : relation A) (P : A → Prop) `{∀ x, Decision (P x)} l :
  StronglySorted R l → StronglySorted R (filter P l).
Proof.
  induction 1 as [|x l Hss IH Hall]; [constructor|]. rewrite filter_cons. case_decide; [|done].
  constructor; [done|]. rewrite Forall_forall in Hall |- *.
  intros y [_ Hy]%list_elem_of_filter. auto.
Qed.

Lemma ranked_filter (P : Node → Prop) `{∀ x, Decision (P x)} nodes :
  NoDup (ID <$> nodes) → ranked chunkID (filter P nodes) = filter P (ranked chunkID nodes).
Proof.
  intros Hnd. apply ranked_unique.
  - by apply NoDup_ID_filter.
  - apply StronglySorted_filter, ranked_sorted.
  - by rewrite ranked_perm.
Qed.

Lemma ranked_length nodes : length (ranked chunkID nodes) = length nodes.
Proof. by rewrite ranked_perm. Qed.

Lemma PickFromNodes_take n nodes :
  PickFromNodes chunkID n nodes = take (Z.to_nat n) (ranked chunkID nodes).
Proof.
  unfold PickFromNodes, clamp. destruct (Z.leb_spec n 0); simpl.
  { by replace (Z.to_nat n) with 0 by lia. }
  destruct (Nat.eqb_spec (length nodes) 0) as [H0|H0].
  { rewrite take_ge by (rewrite ranked_length; lia).
    assert (length (ranked chunkID nodes) = 0) by (rewrite ranked_length; lia).
    by destruct (ranked chunkID nodes). }
  destruct (Nat.ltb_spec (length nodes) (Z.to_nat n)); [|done].
  rewrite !take_ge; rewrite ?ranked_length; done || lia.
Qed.
End ranking.

(** [Pick] returns the top [n] nodes of the ranking: as many as asked for or
    all of them, and every node left out ranks after every node returned. *)
Theorem PickFromNodes_top chunkID n nodes :
  NoDup (ID <$> nodes) →
  let r := PickFromNodes chunkID n nodes in
  length r = Z.to_nat n `min` length nodes ∧ NoDup (ID <$> r) ∧
  StronglySorted (rank_before chunkID) r ∧
  ∃ rest, r ++ rest ≡ₚ nodes ∧ ∀ a b, a ∈ r → b ∈ rest → rank_before chunkID a b.
Proof.
  intros Hnd r. subst r. rewrite PickFromNodes_take.
  pose proof (ranked_sorted chunkID nodes) as Hss.
  pose proof (ranked_perm chunkID nodes) as Hp.
  rewrite <- (take_drop (Z.to_nat n) (ranked chunkID nodes)) in Hss, Hp.
  split_and!.
  - by rewrite length_take, ranked_length.
  - assert (NoDup (ID <$> (take (Z.to_nat n) (ranked chunkID nodes) ++
      drop (Z.to_nat n) (ranked chunkID nodes)))) as Hnd' by (by rewrite Hp).
    rewrite fmap_app in Hnd'. by apply NoDup_app in Hnd' as [? _].
  - by apply StronglySorted_app_1_l in Hss.
  - eexists. split; [exact Hp|]. intros a b. by apply StronglySorted_app_1_elem_of.
Qed.

(** The choice depends on the set of nodes only, not on the order in which
    they are listed. *)
Theorem placement_order_independent chunkID n nodes nodes' :
  NoDup (ID <$> nodes) → nodes ≡ₚ nodes' →
  PickFromNodes chunkID n nodes = PickFromNodes chunkID n nodes' ∧
  PickFromNodesByDomain chunkID n nodes = PickFromNodesByDomain chunkID n nodes'.
Proof.
  intros Hnd Hp. assert (ranked chunkID nodes = ranked chunkID nodes') as Hr.
  { apply ranked_unique; [done | apply ranked_sorted | by rewrite ranked_perm]. }
  assert (hasDomain nodes = hasDomain nodes') as Hd.
  { apply eq_true_iff_eq. unfold hasDomain. rewrite !existsb_exists.
    setoid_rewrite <- list_elem_of_In. by setoid_rewrite Hp. }
  unfold PickFromNodesByDomain. rewrite !PickFromNodes_take, Hr, Hd.
  unfold clamp. by rewrite (Permutation_length Hp).
Qed.

(** Minimal disruption: removing a node [x] from the cluster keeps every
    other chosen node; only the next-ranked node may take the place of [x]. *)
Theorem removal_minimal_disruption chunkID (n : nat) x nodes :
  NoDup (ID <$> nodes) →
  PickFromNodes chunkID (Z.of_nat n) (filter (λ y, y ≠ x) nodes) =
    take n (filter (λ y, y ≠ x) (PickFromNodes chunkID (Z.of_nat (S n)) nodes)).
Proof.
  intros Hnd. rewrite !PickFromNodes_take, ranked_filter, !Nat2Z.id by done.
  assert (NoDup (ranked chunkID nodes)) as Hl.
  { rewrite ranked_perm. by eapply NoDup_fmap_1. }
  revert n. induction Hl as [|y l Hy Hl IH]; intros n; [by rewrite !take_nil|].
  cbn [take]. rewrite !filter_cons. case_decide as Hyx.
  - destruct n as [|n]; [done|]. cbn [take]. by rewrite IH.
  - assert (y = x) as -> by (destruct (decide (y = x)); done).
    assert (∀ k, filter (λ y, y ≠ x) (take k l) = take k l) as Hf.
    { intros k. apply filter_all. intros z Hz ->. apply Hy. by eapply elem_of_take_weaken. }
    rewrite Hf, take_take, Nat.min_id.
    specialize (Hf (length l)). by rewrite take_ge in Hf by done; rewrite Hf.
Qed.

(** ** Failure domains *)
Definition domains (l : list Node) : gset string := list_to_set (Domain <$> l).
Definition IDs (l : list Node) : gset string := list_to_set (ID <$> l).

Lemma size_domains l : NoDup (Domain <$> l) → size (domains l) = length l.
Proof. intros Hnd. unfold domains. by rewrite size_list_to_set, length_fmap. Qed.
Lemma size_IDs l : NoDup (ID <$> l) → size (IDs l) = length l.
Proof. intros Hnd. unfold IDs. by rewrite size_list_to_set, length_fmap. Qed.

Lemma size_domains_le l : size (domains l) ≤ length l.
Proof.
  unfold domains. induction l as [|x l IH]; [done|].
  rewrite fmap_cons, list_to_set_cons, size_union_alt, size_singleton. cbn [length].
  apply le_n_S. etransitivity; [|exact IH]. apply subseteq_size. set_solver.
Qed.

Lemma domains_subset l l' : l ⊆ l' → domains l ⊆ domains l'.
Proof. unfold domains. set_solver. Qed.

Lemma first_pass_spec n l p :
  NoDup (Domain <$> out p) → usedDomain p = domains (out p) → usedID p = IDs (out p) →
  length (out p) ≤ n →
  let r := first_pass n l p in
  NoDup (Domain <$> out r) ∧ usedID r = IDs (out r) ∧ length (out r) ≤ n ∧
  (∃ s, out r = out p ++ s ∧ s `sublist_of` l) ∧
  (length (out r) = n ∨ domains l ⊆ domains (out r)).
Proof.
  revert p. induction l as [|x l IH]; intros p Hnd Hud Hui Hlen; cbn [first_pass].
  { split_and!; auto. exists []. by rewrite app_nil_r. right. set_solver. }
  destruct (Nat.leb_spec n (length (out p))) as [Hn|Hn].
  { split_and!; auto; [|left; lia]. exists []. rewrite app_nil_r. split; [done|].
    apply sublist_nil_l. }
  case_bool_decide as Hx.
  - destruct (IH p) as (H1 & H2 & H3 & (s & Hs & Hsub) & H4); try done. split_and!; try done.
    + exists s. split; [done|]. by apply sublist_cons.
    + destruct H4 as [?|H4]; [by left|]. right. rewrite Hud in Hx.
      assert (domains (out p) ⊆ domains (out (first_pass n l p))).
      { apply domains_subset. rewrite Hs. set_solver. }
      unfold domains in *. rewrite fmap_cons. set_solver.
  - set (p' := pick_add p x ({[Domain x]} ∪ usedDomain p)).
    destruct (IH p') as (H1 & H2 & H3 & (s & Hs & Hsub) & H4).
    + simpl. rewrite fmap_app. apply NoDup_app. split_and!; [done | | apply NoDup_singleton].
      intros d Hd. simpl. rewrite list_elem_of_singleton. intros ->. apply Hx. rewrite Hud.
      unfold domains. by apply elem_of_list_to_set.
    + simpl. rewrite Hud. unfold domains. rewrite fmap_app. apply leibniz_equiv. set_solver.
    + simpl. rewrite Hui. unfold IDs. rewrite fmap_app. apply leibniz_equiv. set_solver.
    + simpl. rewrite length_app. simpl. lia.
    + split_and!; try done.
      * exists (x :: s). rewrite Hs. simpl. rewrite <- app_assoc. split; [done|].
        by apply sublist_skip.
      * destruct H4 as [?|H4]; [by left|]. right.
        assert (x ∈ out (first_pass n l p')) by (rewrite Hs; simpl; set_solver).
        unfold domains in *. rewrite fmap_cons. set_solver.
Qed.

Lemma second_pass_spec n l p :
  NoDup (ID <$> out p) → usedID p = IDs (out p) → length (out p) ≤ n →
  let r := second_pass n l p in
  NoDup (ID <$> out r) ∧ length (out r) ≤ n ∧
  (∃ s, out r = out p ++ s ∧ s `sublist_of` l) ∧
  (length (out r) = n ∨ IDs l ⊆ IDs (out r)).
Proof.
  revert p. induction l as [|x l IH]; intros p Hnd Hui Hlen; cbn [second_pass].
  { split_and!; auto. exists []. by rewrite app_nil_r. right. set_solver. }
  destruct (Nat.leb_spec n (length (out p))) as [Hn|Hn].
  { split_and!; auto; [|left; lia]. exists []. rewrite app_nil_r. split; [done|].
    apply sublist_nil_l. }
  case_bool_decide as Hx.
  - destruct (IH p) as (H1 & H2 & (s & Hs & Hsub) & H4); try done. split_and!; try done.
    + exists s. split; [done|]. by apply sublist_cons.
    + destruct H4 as [?|H4]; [by left|]. right. rewrite Hui in Hx.
      assert (IDs (out p) ⊆ IDs (out (second_pass n l p))).
      { unfold IDs. rewrite Hs. set_solver. }
      unfold IDs in *. rewrite fmap_cons. set_solver.
  - set (p' := pick_add p x (usedDomain p)).
    destruct (IH p') as (H1 & H2 & (s & Hs & Hsub) & H4).
    + simpl. rewrite fmap_app. apply NoDup_app. split_and!; [done | | apply NoDup_singleton].
      intros d Hd. simpl. rewrite list_elem_of_singleton. intros ->. apply Hx. rewrite Hui.
      unfold IDs. by apply elem_of_list_to_set.
    + simpl. rewrite Hui. unfold IDs. rewrite fmap_app. apply leibniz_equiv. set_solver.
    + simpl. rewrite length_app. simpl. lia.
    + split_and!; try done.
      * exists (x :: s). rewrite Hs. simpl. rewrite <- app_assoc. split; [done|].
        by apply sublist_skip.
      * destruct H4 as [?|H4]; [by left|]. right.
        assert (x ∈ out (second_pass n l p')) by (rewrite Hs; simpl; set_solver).
        unfold IDs in *. rewrite fmap_cons. set_solver.
Qed.

Lemma NoDup_ID_sublist (l l' : list Node) :
  l `sublist_of` l' → NoDup (ID <$> l') → NoDup (ID <$> l).
Proof. intros Hs Hnd. apply (sublist_NoDup _ _ Hnd). by apply fmap_sublist. Qed.

Lemma domains_cover r1 l :
  NoDup (Domain <$> r1) → r1 ⊆ l → size (domains l) ≤ length r1 → domains l ⊆ domains r1.
Proof.
  intros Hnd Hsub Hle. assert (domains r1 ≡ domains l) as <-; [|done].
  apply set_subseteq_size_equiv; [by apply domains_subset|].
  by rewrite (size_domains r1).
Qed.

(** The two passes over the ranking [l], for [k] slots. *)
Lemma passes_spec k l :
  NoDup (ID <$> l) → k ≤ length l →
  let p := first_pass k l (MkPicks [] ∅ ∅) in
  let r := out (if length (out p) <? k then second_pass k l p else p) in
  r ⊆ l ∧ NoDup (ID <$> r) ∧ length r = k ∧
  NoDup (Domain <$> take (size (domains l)) r) ∧
  (size (domains l) ≤ k → domains l ⊆ domains (take (size (domains l)) r)).
Proof.
  intros Hid Hk. set (D := size (domains l)). cbn zeta.
  destruct (first_pass_spec k l (MkPicks [] ∅ ∅)) as (Hnd & Hui & Hlen & (s & Hs & Hsub) & Hfull);
    try done; [constructor | simpl; lia |].
  set (p := first_pass k l _) in *. simpl in Hs. subst s.
  assert (length (out p) ≤ D) as HleD.
  { subst D. rewrite <- size_domains by done.
    apply subseteq_size, domains_subset. by apply sublist_subseteq. }
  destruct (Nat.ltb_spec (length (out p)) k) as [Hlt|Hge].
  - destruct Hfull as [?|Hfull]; [lia|].
    assert (length (out p) = D) as HD.
    { apply Nat.le_antisymm; [done|]. subst D.
      rewrite <- size_domains by done.
      by apply subseteq_size. }
    destruct (second_pass_spec k l p) as (Hnd2 & Hlen2 & (s & Hs & Hsub2) & Hfull2);
      [by eapply NoDup_ID_sublist | done | done |].
    rewrite Hs in *. rewrite <- HD. rewrite take_app_length. split_and!; try done.
    + intros x [Hx|Hx]%elem_of_app;
        [by apply (sublist_subseteq _ _ Hsub) | by apply (sublist_subseteq _ _ Hsub2)].
    + destruct Hfull2 as [?|Hfull2]; [done|]. apply Nat.le_antisymm; [done|].
      transitivity (length l); [done|].
      rewrite <- (size_IDs l), <- (size_IDs (out p ++ s)) by done. by apply subseteq_size.
  - assert (length (out p) = k) as Hlk by lia.
    rewrite take_ge by lia. split_and!; try done.
    + by apply sublist_subseteq.
    + by eapply NoDup_ID_sublist.
    + intros HD. apply domains_cover; [done | by apply sublist_subseteq | subst D; lia].
Qed.

Lemma no_domains nodes : hasDomain nodes = false → ∀ x, x ∈ nodes → Domain x = "".
Proof.
  intros Hn x Hx. destruct (decide (Domain x = "")) as [|Hne]; [done|].
  assert (hasDomain nodes = true); [|congruence].
  apply existsb_exists. exists x. rewrite <- list_elem_of_In. split; [done|].
  by rewrite bool_decide_eq_false_2.
Qed.

Lemma clamp_le n nodes : clamp n nodes = Z.to_nat n `min` length nodes.
Proof. unfold clamp. destruct (Nat.ltb_spec (length nodes) (Z.to_nat n)); lia. Qed.

Lemma domains_perm l l' : l ≡ₚ l' → domains l = domains l'.
Proof. intros Hp. apply leibniz_equiv. unfold domains. by rewrite Hp. Qed.

(** Without domains in more than one place there is at most one domain. *)
Lemma one_domain nodes : hasDomain nodes = false → size (domains nodes) ≤ 1.
Proof.
  intros Hhd. pose proof (no_domains nodes Hhd) as Hnone. transitivity (size ({[""]} : gset string)); [|by rewrite size_singleton].
  apply subseteq_size. unfold domains. intros d. rewrite elem_of_list_to_set, list_elem_of_fmap.
  intros (x & -> & Hx). rewrite Hnone by done. set_solver.
Qed.

(** The three ways [PickFromNodesByDomain] goes. *)
Lemma by_domain_cases chunkID n nodes :
  let k := Z.to_nat n `min` length nodes in
  (k = 0 ∧ PickFromNodesByDomain chunkID n nodes = []) ∨
  (hasDomain nodes = false ∧ PickFromNodesByDomain chunkID n nodes = take k (ranked chunkID nodes)) ∨
  (hasDomain nodes = true ∧ PickFromNodesByDomain chunkID n nodes =
     let p := first_pass k (ranked chunkID nodes) (MkPicks [] ∅ ∅) in
     out (if length (out p) <? k then second_pass k (ranked chunkID nodes) p else p)).
Proof.
  intros k. unfold PickFromNodesByDomain. destruct (Z.leb_spec n 0) as [Hn|Hn]; simpl; [left; split; [lia|done]|].
  destruct (Nat.eqb_spec (length nodes) 0) as [H0|H0]; [left; split; [lia|done]|].
  rewrite clamp_le. fold k. destruct (hasDomain nodes); cbn [negb]; [by right; right|right; left].
  by rewrite PickFromNodes_take, Nat2Z.id.
Qed.

Lemma PickByDomain_picks chunkID n nodes :
  NoDup (ID <$> nodes) →
  let r := PickFromNodesByDomain chunkID n nodes in
  r ⊆ nodes ∧ NoDup (ID <$> r) ∧ length r = Z.to_nat n `min` length nodes.
Proof.
  intros Hid. cbn zeta.
  assert (NoDup (ID <$> ranked chunkID nodes)) as Hid' by (by rewrite ranked_perm).
  assert (ranked chunkID nodes ⊆ nodes) as Hsub by (intros x; by rewrite ranked_perm).
  destruct (by_domain_cases chunkID n nodes) as [[Hk ->]|[[_ ->]|[_ ->]]].
  - split_and!; [set_solver|constructor|by rewrite Hk].
  - split_and!.
    + intros x Hx. by eapply Hsub, elem_of_take_weaken.
    + eapply NoDup_ID_sublist; [apply sublist_take | done].
    + rewrite length_take, ranked_length. lia.
  - destruct (passes_spec (Z.to_nat n `min` length nodes) (ranked chunkID nodes)) as (H1 & H2 & H3 & _);
      [done | rewrite ranked_length; lia |].
    split_and!; [|done|done]. by transitivity (ranked chunkID nodes).
Qed.

(** C20: [PickFromNodesByDomain] returns [min n |nodes|] different nodes; with
    [D] the number of distinct failure domains, the first [D] of them are in
    pairwise different domains, and every domain is represented among them once
    [n] reaches [D].  Hence with [n ≤ D] no two replicas share a domain. *)
Theorem PickByDomain_spread chunkID n nodes :
  NoDup (ID <$> nodes) →
  let r := PickFromNodesByDomain chunkID n nodes in
  let D := size (domains nodes) in
  r ⊆ nodes ∧ NoDup (ID <$> r) ∧ length r = Z.to_nat n `min` length nodes ∧
  NoDup (Domain <$> take D r) ∧
  (D ≤ Z.to_nat n → ∀ x, x ∈ nodes → ∃ y, y ∈ take D r ∧ Domain y = Domain x) ∧
  (hasDomain nodes = false → r = PickFromNodes chunkID n nodes).
Proof.
  intros Hid r D. destruct (PickByDomain_picks chunkID n nodes Hid) as (H1 & H2 & H3).
  split; [done|]. split; [done|]. split; [done|]. subst r.
  assert (D ≤ length nodes) as HDle by apply size_domains_le.
  assert (∀ x, x ∈ nodes → D ≠ 0) as HD0.
  { intros x Hx H0. apply size_empty_inv in H0. unfold domains in H0. set_solver. }
  destruct (by_domain_cases chunkID n nodes) as [[Hk E]|[[Hhd E]|[Hhd E]]]; rewrite E in *.
  - rewrite take_nil. split_and!; [constructor| |].
    + intros HD x Hx. exfalso. apply (HD0 x Hx). lia.
    + intros _. symmetry. apply nil_length_inv. rewrite PickFromNodes_take, length_take, ranked_length. lia.
  - pose proof (no_domains nodes Hhd) as Hnone. assert (D ≤ 1) as HD1 by by apply one_domain.
    split_and!.
    + destruct D as [|[|]]; [constructor | |lia].
      destruct (take _ (ranked _ _)); simpl; [constructor|]. apply NoDup_singleton.
    + intros HD x Hx. pose proof (HD0 x Hx). destruct (take _ (ranked _ _)) as [|y l]; [simpl in H3; lia|].
      exists y. split; [destruct D; [done|by left]|]. rewrite !Hnone; [done|done|]. apply H1. by left.
    + intros _. rewrite PickFromNodes_take. destruct (decide (Z.to_nat n ≤ length nodes)).
      * f_equal. lia.
      * rewrite !take_ge; rewrite ?ranked_length; done || lia.
  - destruct (passes_spec (Z.to_nat n `min` length nodes) (ranked chunkID nodes)) as (_ & _ & _ & H4 & H5);
      [by rewrite ranked_perm | rewrite ranked_length; lia |].
    rewrite (domains_perm _ nodes) in H4, H5 by apply ranked_perm. fold D in H4, H5.
    split_and!; [done| |by rewrite Hhd].
    intros HD x Hx. assert (D ≤ Z.to_nat n `min` length nodes) as HDk by lia.
    specialize (H5 HDk (Domain x)). unfold domains in H5.
    rewrite !elem_of_list_to_set, !list_elem_of_fmap in H5.
    destruct H5 as (y & -> & Hy); [eauto|]. eauto.
Qed.

(** ** Witnesses *)
Definition nodes3 : list Node :=
  [MkNode "dn1" "dn1:8080" "rack1"; MkNode "dn2" "dn2:8080" "rack1"; MkNode "dn3" "dn3:8080" "rack2"].
Lemma nodes3_ok : NoDup (ID <$> nodes3).
Proof. apply (bool_decide_eq_true_1 _). vm_compute. reflexivity. Qed.

Lemma PickFromNodes_top_witness :
  length (PickFromNodes "c" 2 nodes3) = 2 ∧ NoDup (ID <$> PickFromNodes "c" 2 nodes3).
Proof.
  destruct (PickFromNodes_top "c" 2 nodes3 nodes3_ok) as (H1 & H2 & _). split; [exact H1 | exact H2].
Defined.
Lemma placement_order_independent_witness :
  PickFromNodesByDomain "c" 2 nodes3 = PickFromNodesByDomain "c" 2 (reverse nodes3).
Proof.
  apply (placement_order_independent "c" 2 nodes3 (reverse nodes3) nodes3_ok).
  symmetry. apply reverse_Permutation.
Defined.
Lemma removal_minimal_disruption_witness :
  PickFromNodes "c" (Z.of_nat 1) (filter (λ y, y ≠ MkNode "dn2" "dn2:8080" "rack1") nodes3) =
  take 1 (filter (λ y, y ≠ MkNode "dn2" "dn2:8080" "rack1") (PickFromNodes "c" (Z.of_nat 2) nodes3)).
Proof. apply (removal_minimal_disruption "c" 1 _ nodes3 nodes3_ok). Defined.
Lemma PickByDomain_spread_witness :
  length (PickFromNodesByDomain "c" 2 nodes3) = 2 ∧
  NoDup (Domain <$> take (size (domains nodes3)) (PickFromNodesByDomain "c" 2 nodes3)).
Proof.
  destruct (PickByDomain_spread "c" 2 nodes3 nodes3_ok) as (_ & _ & H1 & H2 & _).
  split; [exact H1 | exact H2].
Defined.
