(* ===== verification/UrlKey.v ===== *)
(** * Presigned URLs: internal/urlkey (urlkey.go)

    A [Signer] holds HMAC secrets by key id.  Every method takes the mutex for
    its whole body, so each is one atomic step on the state. *)
From S2P Require Import Prelude GF GoLib.
From Stdlib Require Import Strings.Byte Strings.Ascii.

Inductive urlkey_error : Type :=
  | ErrMissingSig | ErrMissingExp | ErrBadExp | ErrExpired | ErrBadSig | ErrEmptySecret
  | ErrUnknownKid | ErrDuplicateKid | ErrPrimaryRemove | ErrLastKidRemove | ErrEmptyKid.

Definition DefaultKid : string := "v1".

Record Signer : Type := MkSigner { keys : gmap string (list byte); primary : string }.

Definition Add (s : Signer) (kid : string) (secret : list byte) : result urlkey_error Signer :=
  if bool_decide (kid = "") then Err ErrEmptyKid
  else if length secret =? 0 then Err ErrEmptySecret
  else match keys s !! kid with
       | Some _ => Err ErrDuplicateKid
       | None => Ok (MkSigner (<[kid := secret]> (keys s)) (primary s))
       end.

Definition NewSigner (secret : list byte) : result urlkey_error Signer :=
  if length secret =? 0 then Err ErrEmptySecret
  else
    s ←? Add (MkSigner ∅ "") DefaultKid secret;
    Ok (MkSigner (keys s) DefaultKid).

(** The copy loop over [keys] stops at the first empty secret. *)
Definition NewMultiSigner (ks : gmap string (list byte)) (prim : string)
    : result urlkey_error Signer :=
  if size ks =? 0 then Err ErrEmptySecret
  else match ks !! prim with
       | None => Err ErrUnknownKid
       | Some _ =>
           if existsb (λ kv, length kv.2 =? 0) (map_to_list ks) then Err ErrEmptySecret
           else Ok (MkSigner ks prim)
       end.

Definition Primary (s : Signer) : string := primary s.
Definition Kids (s : Signer) : list string := sort_strings (map_to_list (keys s)).*1.

Definition SetPrimary (s : Signer) (kid : string) : result urlkey_error Signer :=
  match keys s !! kid with
  | None => Err ErrUnknownKid
  | Some _ => Ok (MkSigner (keys s) kid)
  end.

Definition Remove (s : Signer) (kid : string) : result urlkey_error Signer :=
  match keys s !! kid with
  | None => Err ErrUnknownKid
  | Some _ =>
      if bool_decide (kid = primary s) then Err ErrPrimaryRemove
      else if size (keys s) =? 1 then Err ErrLastKidRemove
      else Ok (MkSigner (delete kid (keys s)) (primary s))
  end.

(** [fmt.Fprintf(mac, "%s:%s:%d", method, path, expUnix)] *)
Definition sign_input (method path : string) (expUnix : Z) : string :=
  (method ++ ":" ++ path ++ ":" ++ itoa expUnix)%string.

Definition mac_hex (secret : list byte) (method path : string) (expUnix : Z) : string :=
  hex_encode (hmac_sha256 secret (bytes_of (sign_input method path expUnix))).

(** A missing primary reads as the nil secret. *)
Definition Sign (s : Signer) (method path : string) (expUnix : Z) : string * string :=
  let secret := default [] (keys s !! primary s) in
  (mac_hex secret method path expUnix, primary s).

(** [exp] is [time.Now().Add(ttl).Unix()]. *)
Definition url_query (s : Signer) (method path : string) (exp : Z) : string :=
  let '(sig, kid) := Sign s method path exp in
  ("kid=" ++ kid ++ "&sig=" ++ sig ++ "&exp=" ++ itoa exp)%string.

Definition BuildURL (s : Signer) (method path : string) (exp : Z) : string :=
  (path ++ "?" ++ url_query s method path exp)%string.

Definition verifyOne (secret : list byte) (method path : string) (expUnix : Z) (sig : string)
    : result urlkey_error unit :=
  if bool_decide (mac_hex secret method path expUnix = sig) then Ok () else Err ErrBadSig.

(** Without a kid every registered key is tried; the order of the map does not
    matter since all failures are the same. *)
Definition Verify (s : Signer) (method path : string) (q : url_values) (now : Z)
    : result urlkey_error unit :=
  let sig := q_get q "sig" in
  if bool_decide (sig = "") then Err ErrMissingSig
  else
    let expStr := q_get q "exp" in
    if bool_decide (expStr = "") then Err ErrMissingExp
    else match parse_int expStr with
    | None => Err ErrBadExp
    | Some expUnix =>
        if (expUnix <? now)%Z then Err ErrExpired
        else
          let kid := q_get q "kid" in
          if bool_decide (kid ≠ "") then
            match keys s !! kid with
            | None => Err ErrUnknownKid
            | Some secret => verifyOne secret method path expUnix sig
            end
          else if existsb (λ kv, is_ok (verifyOne kv.2 method path expUnix sig))
                    (map_to_list (keys s)) then Ok ()
          else Err ErrBadSig
    end.

(** ** Well-formed signers *)
Definition signer_ok (s : Signer) : Prop :=
  is_Some (keys s !! primary s) ∧ map_Forall (λ _ secret, secret ≠ []) (keys s).

Lemma nonempty_length {A} (l : list A) : (length l =? 0) = false ↔ l ≠ [].
Proof. destruct l; simpl; split; try done; intros []; done. Qed.

Inductive key_op : Type :=
  | OpAdd (kid : string) (secret : list byte) | OpSetPrimary (kid : string) | OpRemove (kid : string).

#[export] Instance key_op_eq_dec : EqDecision key_op.
Proof. solve_decision. Defined.

(** A failed operation leaves the signer as it was. *)
Definition apply_op (s : Signer) (op : key_op) : Signer :=
  match match op with
        | OpAdd kid secret => Add s kid secret
        | OpSetPrimary kid => SetPrimary s kid
        | OpRemove kid => Remove s kid
        end with
  | Ok s' => s'
  | Err _ => s
  end.
Definition run_ops (s : Signer) (ops : list key_op) : Signer := foldl apply_op s ops.

Lemma apply_op_ok s op : signer_ok s → signer_ok (apply_op s op).
Proof.
  intros [Hp Hne]. unfold apply_op. destruct op as [kid secret|kid|kid].
  - unfold Add. case_bool_decide; [done|]. destruct (length secret =? 0) eqn:E; [done|].
    destruct (keys s !! kid) eqn:Hk; [done|]. split; simpl.
    + destruct (decide (kid = primary s)) as [->|]; [rewrite lookup_insert_eq; eauto|].
      by rewrite lookup_insert_ne.
    + apply map_Forall_insert_2; [by apply nonempty_length | done].
  - unfold SetPrimary. destruct (keys s !! kid) eqn:Hk; [|done]. split; simpl; eauto.
  - unfold Remove. destruct (keys s !! kid) eqn:Hk; [|done]. case_bool_decide; [done|].
    destruct (size (keys s) =? 1); [done|]. split; simpl.
    + by rewrite lookup_delete_ne.
    + by apply map_Forall_delete.
Qed.

(** Both constructors build well-formed signers (the primary is registered,
    no secret is empty) and Add, SetPrimary and Remove keep them so: a signer
    always has a primary secret to sign with. *)
Theorem signer_invariant :
  (∀ secret s, NewSigner secret = Ok s → signer_ok s) ∧
  (∀ ks prim s, NewMultiSigner ks prim = Ok s → signer_ok s) ∧
  (∀ s ops, signer_ok s → signer_ok (run_ops s ops)).
Proof.
  split_and!.
  - intros secret s. unfold NewSigner, Add. simpl.
    destruct (length secret =? 0) eqn:E; [done|]. simpl. rewrite lookup_empty. simpl. intros. inv_ok.
    split; simpl; [rewrite lookup_insert_eq; eauto|]. apply map_Forall_insert_2; [|apply map_Forall_empty].
    by apply nonempty_length.
  - intros ks prim s. unfold NewMultiSigner. repeat (case_match; try done). intros. inv_ok.
    split; simpl; [eauto|]. intros kid secret Hk -> .
    match goal with H : existsb _ _ = false |- _ => apply not_true_iff_false in H; apply H end.
    apply existsb_exists. exists (kid, []). rewrite <- list_elem_of_In. split; [|done].
    by apply elem_of_map_to_list.
  - intros s ops. revert s. induction ops as [|op ops IH]; intros s Hs; [done|]. apply IH.
    by apply apply_op_ok.
Qed.

(** ** What is signed *)

(** The signed text determines the request: for methods without a colon,
    two requests with the same text agree on method, path and expiry. *)
Theorem sign_input_injective method path exp method' path' exp' :
  no_char ":" method → no_char ":" method' →
  sign_input method path exp = sign_input method' path' exp' →
  method = method' ∧ path = path' ∧ exp = exp'.
Proof.
  intros Hm Hm' H. unfold sign_input in H.
  rewrite !string_app_cons, !string_app_nil_l in H.
  assert (∀ z, no_char ":" (itoa z)) as Hz.
  { intros z [Hc|Hc]%itoa_chars; by vm_compute in Hc. }
  apply (f_equal (λ s, cut s ":")) in H. rewrite !cut_app in H by done.
  injection H as -> H. split; [done|].
  apply last_sep_inj in H as [-> H]; [|apply Hz..]. split; [done|]. by apply itoa_inj.
Qed.

(** ** Verification *)

(** The requirement [Verify] places on a signature. *)
Definition signed_by (s : Signer) (kid sig method path : string) (exp : Z) : Prop :=
  ∃ kid' secret, keys s !! kid' = Some secret ∧ (kid = "" ∨ kid = kid') ∧
    sig = mac_hex secret method path exp.

Lemma mac_hex_nonempty secret method path exp : mac_hex secret method path exp ≠ "".
Proof.
  intros H. apply (f_equal String.length) in H. unfold mac_hex in H.
  by rewrite hex_encode_length, hmac_sha256_length in H.
Qed.

Lemma verifyOne_ok secret method path exp sig :
  is_ok (verifyOne secret method path exp sig) = true ↔ sig = mac_hex secret method path exp.
Proof. unfold verifyOne. case_bool_decide; simpl; split; congruence. Qed.

(** [Verify] accepts exactly the requests whose expiry parses and has not
    passed and whose signature is the MAC of method, path and expiry under the
    key the URL names, or under some registered key when it names none. *)
Theorem Verify_accepts_iff s method path q now :
  Verify s method path q now = Ok () ↔
  ∃ exp, parse_int (q_get q "exp") = Some exp ∧ (now ≤ exp)%Z ∧
    signed_by s (q_get q "kid") (q_get q "sig") method path exp.
Proof.
  unfold Verify. cbn zeta.
  set (sig := q_get q "sig"). set (es := q_get q "exp"). set (kid := q_get q "kid").
  pose proof (λ secret, mac_hex_nonempty secret method path) as Hmac.
  case_bool_decide as Hs.
  { split; [done|]. intros (exp & _ & _ & kid' & secret & _ & _ & Hm). rewrite Hs in Hm.
    by destruct (Hmac secret exp). }
  case_bool_decide as He.
  { split; [done|]. intros (exp & Hp & _). by rewrite He in Hp. }
  destruct (parse_int es) as [exp|] eqn:Hp; [|split; [done|]; by intros (? & ? & _)].
  destruct (Z.ltb_spec exp now) as [Hx|Hx].
  { split; [done|]. intros (exp' & [= <-] & ? & _). lia. }
  transitivity (signed_by s kid sig method path exp);
    [|split; [eauto | by intros (exp' & [= <-] & _ & ?)]].
  unfold signed_by. case_bool_decide as Hk.
  - split.
    + intros H. destruct (keys s !! kid) as [secret|] eqn:E; [|done].
      exists kid, secret. split_and!; auto. apply verifyOne_ok. by rewrite H.
    + intros (kid' & secret & E & [?| <-] & ->); [done|]. rewrite E. unfold verifyOne.
      by rewrite bool_decide_true.
  - destruct (existsb _ _) eqn:Hex.
    + split; [intros _|done]. apply existsb_exists in Hex as ([kid' secret] & Hin & Hv).
      rewrite <- list_elem_of_In in Hin. apply elem_of_map_to_list in Hin.
      exists kid', secret. split_and!; [done | left; destruct (decide (kid = "")); naive_solver |].
      by apply verifyOne_ok in Hv.
    + split; [done|]. intros (kid' & secret & E & _ & Hm).
      apply not_true_iff_false in Hex. destruct Hex. apply existsb_exists.
      exists (kid', secret). rewrite <- list_elem_of_In. split; [by apply elem_of_map_to_list|].
      by apply verifyOne_ok.
Qed.

(** ** Rotation *)
Lemma apply_op_keeps s op kid secret :
  keys s !! kid = Some secret → op ≠ OpRemove kid → keys (apply_op s op) !! kid = Some secret.
Proof.
  intros Hk Hop. unfold apply_op. destruct op as [kid' secret'|kid'|kid'].
  - unfold Add. case_bool_decide; [done|]. destruct (length secret' =? 0); [done|].
    destruct (keys s !! kid') eqn:E; [done|]. simpl. rewrite lookup_insert_ne; [done|].
    intros ->. congruence.
  - unfold SetPrimary. by destruct (keys s !! kid').
  - unfold Remove. destruct (keys s !! kid'); [|done]. case_bool_decide; [done|].
    destruct (size (keys s) =? 1); [done|]. simpl. rewrite lookup_delete_ne; [done|]. congruence.
Qed.

Lemma apply_op_absent s op kid :
  keys s !! kid = None → (∀ secret, op ≠ OpAdd kid secret) → keys (apply_op s op) !! kid = None.
Proof.
  intros Hk Hop. unfold apply_op. destruct op as [kid' secret'|kid'|kid'].
  - unfold Add. case_bool_decide; [done|]. destruct (length secret' =? 0); [done|].
    destruct (keys s !! kid') eqn:E; [done|]. simpl. rewrite lookup_insert_ne; [done|].
    intros ->. by apply (Hop secret').
  - unfold SetPrimary. by destruct (keys s !! kid').
  - unfold Remove. destruct (keys s !! kid'); [|done]. case_bool_decide; [done|].
    destruct (size (keys s) =? 1); [done|]. simpl. by apply lookup_delete_None; right.
Qed.

Lemma run_ops_keeps s ops kid secret :
  keys s !! kid = Some secret → OpRemove kid ∉ ops → keys (run_ops s ops) !! kid = Some secret.
Proof.
  revert s. induction ops as [|op ops IH]; intros s Hk Hn; [done|].
  apply IH; [|set_solver]. apply apply_op_keeps; set_solver.
Qed.

Lemma run_ops_absent s ops kid :
  keys s !! kid = None → (∀ secret, OpAdd kid secret ∉ ops) → keys (run_ops s ops) !! kid = None.
Proof.
  revert s. induction ops as [|op ops IH]; intros s Hk Hn; [done|].
  apply IH; [|set_solver]. apply apply_op_absent; set_solver.
Qed.

(** The query [BuildURL] writes parses back to its three settings. *)
Lemma url_query_parse s method path exp :
  query_safe (primary s) →
  let q := ParseQuery (url_query s method path exp) in
  q_get q "kid" = primary s ∧ q_get q "sig" = (Sign s method path exp).1 ∧
  q_get q "exp" = itoa exp.
Proof.
  intros Hk. unfold url_query, ParseQuery. cbn [Sign].
  set (sig := mac_hex _ _ _ _). assert (query_safe sig) as Hs by apply hex_query_safe.
  assert (query_safe (itoa exp)) as He by apply itoa_query_safe.
  assert (split ("kid=" ++ primary s ++ "&sig=" ++ sig ++ "&exp=" ++ itoa exp) "&" =
    ["kid" ++ "=" ++ primary s; "sig" ++ "=" ++ sig; "exp" ++ "=" ++ itoa exp])%string as ->.
  { change ("kid=" ++ primary s ++ "&sig=" ++ sig ++ "&exp=" ++ itoa exp)%string with
      ("kid=" ++ primary s ++ String "&" ("sig=" ++ sig ++ String "&" ("exp=" ++ itoa exp)))%string.
    assert (∀ p v, no_char "&" p → query_safe v → no_char "&" (p ++ v)) as Hn.
    { intros p v Hp Hv. apply (query_safe_no_char _ "&") in Hv; [|set_solver].
      unfold no_char in *. rewrite chars_app. set_solver. }
    rewrite (string_app_assoc "kid="), split_app by (apply Hn; [by_decide | done]).
    rewrite (string_app_assoc "sig="), split_app by (apply Hn; [by_decide | done]).
    by rewrite split_no_sep by (apply Hn; [by_decide | done]). }
  cbn [foldl]. rewrite !add_setting_safe by (try done; by_decide).
  rewrite !lookup_insert_ne, lookup_empty by done. unfold q_get.
  split_and!; simplify_map_eq; done.
Qed.

(** C21: a presigned URL is accepted until it expires, through any sequence of
    key additions, primary changes and removals of other keys: rotation never
    invalidates an outstanding URL as long as its key is not removed. *)
Theorem presigned_url_survives_rotation s ops method path exp now :
  signer_ok s → query_safe (primary s) → primary s ≠ "" → OpRemove (primary s) ∉ ops →
  int64_ok exp = true → (now ≤ exp)%Z →
  Verify (run_ops s ops) method path (ParseQuery (url_query s method path exp)) now = Ok ().
Proof.
  intros [[secret Hp] _] Hsafe Hne Hops Hexp Hnow.
  pose proof (run_ops_keeps s ops _ _ Hp Hops) as Hk.
  destruct (url_query_parse s method path exp Hsafe) as (Hqk & Hqs & Hqe).
  unfold Verify. rewrite Hqk, Hqs, Hqe. unfold Sign. rewrite Hp. cbn [fst default].
  assert (mac_hex secret method path exp ≠ "") as Hmac by apply mac_hex_nonempty.
  rewrite (bool_decide_false (_ = "")) by done. rewrite parse_itoa by done.
  rewrite (bool_decide_false (itoa exp = "")).
  2:{ intros E. assert (parse_int (itoa exp) = Some exp) as Hx by (by apply parse_itoa).
      by rewrite E in Hx. }
  destruct (Z.ltb_spec exp now); [lia|].
  rewrite bool_decide_true by done. rewrite Hk. unfold verifyOne. by rewrite bool_decide_true.
Qed.

(** A removed key is really gone: until it is added again every URL that
    names it is rejected with ErrUnknownKid (or an earlier error), whatever else
    is done to the signer. *)
Theorem removed_key_rejected s s' ops kid method path q now :
  Remove s kid = Ok s' → (∀ secret, OpAdd kid secret ∉ ops) → kid ≠ "" → q_get q "kid" = kid →
  q_get q "sig" ≠ "" → (∃ exp, parse_int (q_get q "exp") = Some exp ∧ (now ≤ exp)%Z) →
  Verify (run_ops s' ops) method path q now = Err ErrUnknownKid.
Proof.
  intros Hr Hops Hne Hq Hs (exp & He & Hnow). unfold Remove in Hr.
  destruct (keys s !! kid); [|done]. case_bool_decide; [done|].
  destruct (size (keys s) =? 1); [done|]. inv_ok.
  assert (keys (run_ops (MkSigner (delete kid (keys s)) (primary s)) ops) !! kid = None) as Hk.
  { apply run_ops_absent; [|done]. apply lookup_delete_eq. }
  unfold Verify. rewrite bool_decide_false by done. rewrite bool_decide_false.
  2:{ intros E. by rewrite E in He. }
  rewrite He. destruct (Z.ltb_spec exp now); [lia|].
  rewrite Hq, bool_decide_true by done. by rewrite Hk.
Qed.

(** ** Witnesses *)
Definition secret1 : list byte := [x61; x62].
Definition secret2 : list byte := [x63].
Definition signer1 : Signer := MkSigner {["v1" := secret1]} "v1".
Definition rotate : list key_op := [OpAdd "v2" secret2; OpSetPrimary "v2"].
Lemma signer1_ok : signer_ok signer1.
Proof. split; [by eexists|]. apply map_Forall_singleton. done. Qed.

Lemma sign_input_injective_witness :
  "GET" = "GET" ∧ "/a" = "/a" ∧ 5%Z = 5%Z.
Proof. apply (sign_input_injective "GET" "/a" 5 "GET" "/a" 5); [by_decide | by_decide | reflexivity]. Defined.

Lemma presigned_url_survives_rotation_witness :
  Verify (run_ops signer1 rotate) "GET" "/v1/o/b/k"
    (ParseQuery (url_query signer1 "GET" "/v1/o/b/k" 1777200000)) 1777199999 = Ok ().
Proof.
  apply (presigned_url_survives_rotation signer1 rotate);
    [exact signer1_ok | by_decide | done | by_decide | reflexivity | lia].
Defined.

Definition signer12 : Signer := MkSigner (<["v2" := secret2]> {["v1" := secret1]}) "v2".
Definition q_v1 : url_values := {["kid" := ["v1"]; "sig" := ["00"]; "exp" := ["100"]]}.
Lemma removed_key_rejected_witness :
  Verify (run_ops (MkSigner (delete "v1" (keys signer12)) "v2") [OpAdd "v3" secret1]) "GET" "/" q_v1 5
    = Err ErrUnknownKid.
Proof.
  apply (removed_key_rejected signer12 _ _ "v1");
    [reflexivity | set_solver | done | reflexivity | done |].
  exists 100%Z. split; [reflexivity | lia].
Defined.
