(* ===== verification/Kv.v ===== *)
(** * The key-value interface of the metadata database

    bbolt is a third-party package.  [KV] is what internal/store calls of it: a
    bucket maps keys to values, [kv_put] may fail (an empty or oversized key, an
    I/O error), [kv_list] is the key order of [ForEach] and [Cursor].  [KVLaws]
    is the documented behaviour the store relies on; the [gmap] instance at the
    end shows the laws can hold. *)
From S2P Require Import Prelude GoLib.

Inductive kv_error : Type := ErrKeyRequired | ErrKeyTooLarge | ErrIO.

Class KV (M : Type → Type) : Type :=
  { kv_empty {V} : M V;
    kv_get {V} : M V → string → option V;
    kv_put {V} : M V → string → V → result kv_error (M V);
    kv_delete {V} : M V → string → M V;
    kv_list {V} : M V → list (string * V) }.

Class KVLaws (M : Type → Type) `{KV M} : Prop :=
  { get_empty {V} k : kv_get (kv_empty : M V) k = None;
    get_put {V} (m m' : M V) k v k' :
      kv_put m k v = Ok m' → kv_get m' k' = if decide (k = k') then Some v else kv_get m k';
    get_delete {V} (m : M V) k k' :
      kv_get (kv_delete m k) k' = if decide (k = k') then None else kv_get m k';
    elem_list {V} (m : M V) k v : (k, v) ∈ kv_list m ↔ kv_get m k = Some v;
    (** whether a put is accepted does not depend on the bucket's content *)
    put_domain {V} (m1 m2 m1' : M V) k v :
      kv_put m1 k v = Ok m1' → ∃ m2', kv_put m2 k v = Ok m2';
    list_sorted {V} (m : M V) : StronglySorted String.le (kv_list m).*1;
    list_NoDup {V} (m : M V) : NoDup (kv_list m).*1 }.

Section kv.
Context {M : Type → Type} {KVM : KV M} {HKV : KVLaws M} {V : Type}.
Implicit Types m : M V.

(** Buckets with the same contents. *)
#[export] Instance kv_equiv : Equiv (M V) := λ m m', ∀ k, kv_get m k = kv_get m' k.
#[export] Instance kv_equivalence : Equivalence (≡@{M V}).
Proof. split; [done | by intros m m' Hm k | intros m1 m2 m3 Hm1 Hm2 k; by rewrite Hm1, Hm2]. Qed.

#[export] Instance kv_get_proper : Proper ((≡) ==> (=) ==> (=)) (kv_get (V:=V)).
Proof. intros m m' Hm k k' <-. apply Hm. Qed.

#[export] Instance kv_delete_proper : Proper ((≡) ==> (=) ==> (≡)) (kv_delete (V:=V)).
Proof. intros m m' Hm k ? <- k'. rewrite !get_delete. case_decide; [done | apply Hm]. Qed.

Lemma kv_put_equiv m m' k v m1 :
  m ≡ m' → kv_put m k v = Ok m1 → ∃ m1', kv_put m' k v = Ok m1' ∧ m1 ≡ m1'.
Proof.
  intros Hm Hp. destruct (put_domain m m' m1 k v Hp) as [m1' Hp']. exists m1'. split; [done|].
  intros k'. rewrite (get_put _ _ _ _ _ Hp), (get_put _ _ _ _ _ Hp'). case_decide; [done|]. apply Hm.
Qed.

Lemma get_put_eq m m' k v : kv_put m k v = Ok m' → kv_get m' k = Some v.
Proof. intros Hp. rewrite (get_put _ _ _ _ _ Hp). by rewrite decide_True. Qed.
Lemma get_put_ne m m' k v k' : kv_put m k v = Ok m' → k ≠ k' → kv_get m' k' = kv_get m k'.
Proof. intros Hp Hne. rewrite (get_put _ _ _ _ _ Hp). by rewrite decide_False. Qed.
Lemma get_delete_eq m k : kv_get (kv_delete m k) k = None.
Proof. rewrite get_delete. by rewrite decide_True. Qed.
Lemma get_delete_ne m k k' : k ≠ k' → kv_get (kv_delete m k) k' = kv_get m k'.
Proof. intros. rewrite get_delete. by rewrite decide_False. Qed.

(** [Cursor.Seek(prefix)]: the first key not below [prefix], and its value. *)
Definition kv_seek m (prefix : string) : option (string * V) :=
  head (filter (λ kv, String.le prefix kv.1) (kv_list m)).

(** A [Seek] followed by a prefix test finds exactly the keys with the prefix. *)
Lemma le_prefix (p t : string) : String.le p (p ++ t).
Proof.
  unfold String.le. induction p as [|c p IH]; [by destruct t|].
  rewrite string_app_cons. unfold String.leb in *. simpl. 
  unfold Ascii.compare. by rewrite N.compare_refl.
Qed.

Lemma le_between_prefix (p k t : string) :
  String.le p k → String.le k (p ++ t) → ∃ u, k = (p ++ u)%string.
Proof.
  revert k. induction p as [|c p IH]; intros k H1 H2; [by exists k|].
  destruct k as [|d k]; [done|]. rewrite string_app_cons in H2.
  unfold String.le, String.leb in *. simpl in *. unfold Ascii.compare in *.
  destruct (N.compare_spec (Ascii.N_of_ascii c) (Ascii.N_of_ascii d)) as [E|E|E]; try done.
  - assert (c = d) as <-.
    { by rewrite <- (Ascii.ascii_N_embedding c), E, Ascii.ascii_N_embedding. }
    rewrite N.compare_refl in H2. destruct (IH k H1 H2) as [u ->]. exists u. by rewrite string_app_cons.
  - destruct (N.compare_spec (Ascii.N_of_ascii d) (Ascii.N_of_ascii c)); done || lia.
Qed.

Lemma kv_seek_prefix m p :
  (match kv_seek m p with Some (k, _) => has_prefix k p | None => false end) = true ↔
  ∃ t v, kv_get m (p ++ t) = Some v.
Proof.
  unfold kv_seek. pose proof (list_sorted m) as Hs.
  assert (∀ k v, (k, v) ∈ kv_list m → kv_get m k = Some v) as Hg by (intros k v; apply elem_list).
  assert (∀ k v, kv_get m k = Some v → (k, v) ∈ kv_list m) as Hl by (intros k v; apply elem_list).
  split.
  - destruct (filter _ _) as [|[k v] l] eqn:E; [done|]. simpl. intros [t ->]%has_prefix_spec.
    exists t, v. apply Hg. assert ((p ++ t, v)%string ∈ (p ++ t, v)%string :: l) as Hin by left.
    rewrite <- E in Hin. by apply list_elem_of_filter in Hin as [_ ?].
  - intros (t & v & Hget). apply Hl in Hget. clear Hg Hl.
    induction (kv_list m) as [|[k v'] l IH]; [by apply not_elem_of_nil in Hget|].
    rewrite fmap_cons in Hs. apply StronglySorted_cons in Hs as [Hall Hs]. simpl in Hall.
    rewrite filter_cons. simpl. case_decide as Hk.
    + simpl. apply has_prefix_spec. apply elem_of_cons in Hget as [[= <- <-]|Hget]; [eauto|].
      apply (le_between_prefix p k t Hk). rewrite Forall_forall in Hall. apply Hall.
      apply list_elem_of_fmap. by exists ((p ++ t)%string, v).
    + apply elem_of_cons in Hget as [[= <- <-]|Hget]; [by destruct Hk; apply le_prefix|]. by apply IH.
Qed.
End kv.

(** ** The instance: a finite map listed in key order *)
Definition key_le {V} (a b : string * V) : Prop := String.le a.1 b.1.
#[export] Instance key_le_dec {V} : RelDecision (@key_le V).
Proof. intros a b. unfold key_le. apply _. Defined.
#[export] Instance key_le_trans {V} : Transitive (@key_le V).
Proof. intros a b c. unfold key_le. apply transitivity. Qed.
#[export] Instance key_le_total {V} : Total (@key_le V).
Proof. intros a b. unfold key_le. apply (total String.le). Qed.

Definition map_put {V} (m : gmap string V) (k : string) (v : V) : result kv_error (gmap string V) :=
  if bool_decide (k = "") then Err ErrKeyRequired
  else if 32768 <? String.length k then Err ErrKeyTooLarge
  else Ok (<[k := v]> m).

#[export] Instance gmap_kv : KV (gmap string) :=
  {| kv_empty V := ∅;
     kv_get V m k := m !! k;
     kv_put V m k v := map_put m k v;
     kv_delete V m k := delete k m;
     kv_list V m := merge_sort key_le (map_to_list m) |}.

#[export] Instance gmap_kv_laws : KVLaws (gmap string).
Proof.
  split; simpl.
  - intros V k. apply lookup_empty.
  - intros V m m' k v k'. unfold map_put. case_bool_decide; [done|]. case_match; [done|].
    intros [= <-]. case_decide as Hk; [subst; apply lookup_insert_eq | by apply lookup_insert_ne].
  - intros V m k k'. case_decide as Hk; [subst; apply lookup_delete_eq | by apply lookup_delete_ne].
  - intros V m k v. rewrite elem_of_merge_sort. apply elem_of_map_to_list.
  - intros V m1 m2 m1' k v. unfold map_put. case_bool_decide; [done|]. case_match; eauto.
  - intros V m. apply (StronglySorted_fmap _ key_le); [done|]. apply (StronglySorted_merge_sort key_le).
  - intros V m. rewrite (merge_sort_Permutation key_le). apply NoDup_fst_map_to_list.
Qed.
