(* ===== verification/Meta.v ===== *)
(** * Metadata records and keys: internal/store/store.go (types, keys, validation)

    Go structs are records; [time.Time] is the nanosecond count since the zero
    time, so [IsZero] is [= 0]; a nil slice or map is the empty one, as their
    JSON forms with [omitempty] are.  A stored value is what [json.Unmarshal]
    makes of the bytes: a record, or [Garbage] when they do not decode. *)
From S2P Require Import Prelude GF GoLib Kv.
From Stdlib Require Import Strings.Ascii.

Inductive stored (A : Type) : Type := Enc (a : A) | Garbage (raw : string).
Arguments Enc {A} _.
Arguments Garbage {A} _.

Definition decode {A} (s : stored A) : option A :=
  match s with Enc a => Some a | Garbage _ => None end.

Definition IsZero (t : Z) : bool := (t =? 0)%Z.

(** ** Records *)
Record ChunkRef : Type := MkChunkRef { ChunkID : string; cr_Size : Z; Replicas : list string }.
Record ECParams : Type := MkECParams { ec_K : Z; ec_M : Z; ShardSize : Z; DataSize : Z }.
Record Stripe : Type := MkStripe { StripeID : string; Shards : list ChunkRef; DataLen : Z }.

Record ObjectMeta : Type := MkObjectMeta
  { Bucket : string; Key : string; Size : Z; ContentType : string; ETag : string;
    Chunks : list ChunkRef; EC : option ECParams; Stripes : list Stripe;
    Version : Z; CreatedAt : Z; Class_ : string;
    LegacyChunkID : string; LegacyReplicas : list string }.

Record BucketMeta : Type := MkBucketMeta { bm_Name : string; bm_CreatedAt : Z }.

Record MultipartPartMeta : Type := MkPart
  { PartNumber : Z; p_ETag : string; p_Size : Z; p_Chunks : list ChunkRef; p_CreatedAt : Z }.

Record MultipartUploadMeta : Type := MkUpload
  { u_Bucket : string; u_Key : string; UploadID : string; u_ContentType : string;
    u_CreatedAt : Z; Parts : gmap Z MultipartPartMeta }.

Record CompletePart : Type := MkCompletePart { cp_PartNumber : Z; cp_ETag : string }.

Record DNInfo : Type := MkDNInfo { dn_ID : string; dn_Addr : string; LastHB : Z; dn_Status : string }.

(** The JSON object of a runtime DN; a key absent from it is [None]. *)
Record RuntimeDN : Type := MkRuntimeDN
  { rd_addr : string; registered_at : option Z; rd_class : option string; rd_domain : option string }.

Record URLKeyEntry : Type := MkURLKeyEntry
  { Kid : string; SecretHex : string; IsPrimary : bool; uk_CreatedAt : Z }.

Definition IsEC (o : ObjectMeta) : bool :=
  match EC o with Some _ => 0 <? length (Stripes o) | None => false end.

(** ** Field updates *)
Definition with_version (o : ObjectMeta) (v : Z) : ObjectMeta :=
  MkObjectMeta (Bucket o) (Key o) (Size o) (ContentType o) (ETag o) (Chunks o) (EC o) (Stripes o)
    v (CreatedAt o) (Class_ o) (LegacyChunkID o) (LegacyReplicas o).
Definition with_created (o : ObjectMeta) (t : Z) : ObjectMeta :=
  MkObjectMeta (Bucket o) (Key o) (Size o) (ContentType o) (ETag o) (Chunks o) (EC o) (Stripes o)
    (Version o) t (Class_ o) (LegacyChunkID o) (LegacyReplicas o).
Definition with_chunks (o : ObjectMeta) (cs : list ChunkRef) : ObjectMeta :=
  MkObjectMeta (Bucket o) (Key o) (Size o) (ContentType o) (ETag o) cs (EC o) (Stripes o)
    (Version o) (CreatedAt o) (Class_ o) (LegacyChunkID o) (LegacyReplicas o).
Definition with_stripes (o : ObjectMeta) (ss : list Stripe) : ObjectMeta :=
  MkObjectMeta (Bucket o) (Key o) (Size o) (ContentType o) (ETag o) (Chunks o) (EC o) ss
    (Version o) (CreatedAt o) (Class_ o) (LegacyChunkID o) (LegacyReplicas o).
Definition without_legacy (o : ObjectMeta) : ObjectMeta :=
  MkObjectMeta (Bucket o) (Key o) (Size o) (ContentType o) (ETag o) (Chunks o) (EC o) (Stripes o)
    (Version o) (CreatedAt o) (Class_ o) "" [].
Definition with_replicas (c : ChunkRef) (r : list string) : ChunkRef :=
  MkChunkRef (ChunkID c) (cr_Size c) r.

(** ** Legacy records *)
Definition normalizeLegacy (o : ObjectMeta) : ObjectMeta :=
  let o :=
    if (length (Chunks o) =? 0) && (length (Stripes o) =? 0) && negb (bool_decide (LegacyChunkID o = ""))
    then with_chunks o [MkChunkRef (LegacyChunkID o) (Size o) (LegacyReplicas o)]
    else o in
  without_legacy o.

(** All the chunk ids an object refers to, whichever schema its record has. *)
Definition chunk_ids (o : ObjectMeta) : list string :=
  (ChunkID <$> Chunks o) ++ (Stripes o ≫= λ s, ChunkID <$> Shards s).

(** All its chunk references: replicated chunks and the shards of every stripe. *)
Definition refs (o : ObjectMeta) : list ChunkRef := Chunks o ++ (Stripes o ≫= Shards).

Lemma normalizeLegacy_fields o :
  Bucket (normalizeLegacy o) = Bucket o ∧ Key (normalizeLegacy o) = Key o ∧
  Version (normalizeLegacy o) = Version o ∧ Size (normalizeLegacy o) = Size o ∧
  Stripes (normalizeLegacy o) = Stripes o ∧ EC (normalizeLegacy o) = EC o.
Proof. unfold normalizeLegacy. by destruct (_ && _ && _). Qed.

(** Normalisation is idempotent, and leaves a record without legacy fields alone. *)
Lemma normalizeLegacy_idemp o : normalizeLegacy (normalizeLegacy o) = normalizeLegacy o.
Proof.
  unfold normalizeLegacy at 1.
  rewrite (bool_decide_true (LegacyChunkID (normalizeLegacy o) = "")).
  - rewrite andb_false_r. unfold normalizeLegacy. by destruct (_ && _ && _).
  - unfold normalizeLegacy. by destruct (_ && _ && _).
Qed.

(** ** Keys *)
Definition objKey (bucket key : string) : string := (bucket ++ "/" ++ key)%string.
Definition multipartKey (bucket key uploadID : string) : string :=
  (bucket ++ "/" ++ key ++ "/" ++ uploadID)%string.

(** Slash-free bucket names make both keys unambiguous. *)
Lemma objKey_inj b k b' k' :
  no_char "/" b → no_char "/" b' → objKey b k = objKey b' k' → b = b' ∧ k = k'.
Proof.
  unfold objKey. rewrite !string_app_cons, !string_app_nil_l. intros Hb Hb' H.
  apply (f_equal (λ s, cut s "/")) in H. rewrite !cut_app in H by done. by simplify_eq.
Qed.

Lemma objKey_bucket_inj b k k' : objKey b k = objKey b k' → k = k'.
Proof. unfold objKey. intros H. by apply string_app_inv_head, string_app_inv_head in H. Qed.

Lemma objKey_key_inj b b' k :  objKey b k = objKey b' k → b = b'.
Proof.
  unfold objKey. intros H. apply (f_equal chars) in H. rewrite !chars_app in H.
  apply chars_inj. apply app_inv_tail in H. done.
Qed.

Lemma multipartKey_inj b k u b' k' u' :
  no_char "/" b → no_char "/" b' → no_char "/" u → no_char "/" u' →
  multipartKey b k u = multipartKey b' k' u' → b = b' ∧ k = k' ∧ u = u'.
Proof.
  unfold multipartKey. rewrite !string_app_cons, !string_app_nil_l. intros Hb Hb' Hu Hu' H.
  apply (f_equal (λ s, cut s "/")) in H. rewrite !cut_app in H by done. injection H as -> H.
  by apply last_sep_inj in H as [-> ->].
Qed.

(** ** Validation *)
Definition validatePartNumber (n : Z) : bool := negb ((n <? 1) || (10000 <? n))%Z.

(** [net.ParseIP] of a name: four decimal fields of at most 255 without leading
    zeros.  An IPv6 literal has a colon, which the character test refuses too. *)
Definition ipv4_field (s : string) : bool :=
  match s with
  | EmptyString => false
  | String c t =>
      forallb is_digit (chars s) && (String.length s <=? 3) &&
      (bool_decide (t = "") || negb (bool_decide (c = "0"%char))) &&
      match parse_int s with Some n => (n <=? 255)%Z | None => false end
  end.
Definition parse_ipv4 (s : string) : bool :=
  let fields := split s "." in (length fields =? 4) && forallb ipv4_field fields.

Definition edge_char_ok (c : ascii) : bool :=
  negb (bool_decide (c = "."%char) || bool_decide (c = "-"%char)).

Definition name_char (c : ascii) : bool :=
  let n := N_of_ascii c in
  ((97 <=? n) && (n <=? 122) || (48 <=? n) && (n <=? 57))%N
  || bool_decide (c = "-"%char) || bool_decide (c = "."%char).

(** The loop over the characters, with [prevDot]. *)
Fixpoint name_loop (prevDot : bool) (l : list ascii) : bool :=
  match l with
  | [] => true
  | c :: l =>
      if negb (name_char c) then false
      else if bool_decide (c = "."%char) then if prevDot then false else name_loop true l
      else name_loop false l
  end.

(** [true] when the source returns nil; its error messages are not modelled. *)
Definition ValidateBucketName (name : string) : bool :=
  let l := chars name in
  if (String.length name <? 3) || (63 <? String.length name) then false
  else if parse_ipv4 name then false
  else match head l, last l with
  | Some c, Some d => if negb (edge_char_ok c) || negb (edge_char_ok d) then false else name_loop false l
  | _, _ => false
  end.

Example bucket_names :
  (ValidateBucketName <$> ["my-bucket"; "ab"; "192.168.0.1"; "a..b"; "-ab"; "Abc"; "a/b"; "a.b"])
  = [true; false; false; false; false; false; false; true].
Proof. reflexivity. Qed.

Lemma name_loop_spec prevDot l :
  name_loop prevDot l = true ↔
  Forall (λ c, name_char c = true) l ∧
  (∀ l1 l2, (if prevDot then "."%char :: l else l) ≠ l1 ++ "."%char :: "."%char :: l2).
Proof.
  revert prevDot. induction l as [|c l IH]; intros prevDot.
  - split; [intros _|done]. split; [constructor|].
    intros l1 l2. destruct prevDot; destruct l1 as [|? [|? ?]]; done.
  - cbn [name_loop]. destruct (name_char c) eqn:Hc; cbn [negb].
    2:{ split; [done|]. intros [Hall _]. apply Forall_cons in Hall as [? _]. congruence. }
    case_bool_decide as Hd; [subst c; destruct prevDot|].
    + split; [done|]. intros [_ Hn]. by destruct (Hn [] l).
    + rewrite IH. split.
      * intros [? ?]. split; [by constructor | done].
      * intros [Hall Hn]. apply Forall_cons in Hall as [_ ?]. done.
    + rewrite IH. split.
      * intros [Hall Hn]. split; [by constructor|]. intros l1 l2 E. destruct prevDot.
        -- destruct l1 as [|x [|y l1]]; simplify_eq/=; by apply (Hn l1 l2).
        -- destruct l1 as [|x l1]; simplify_eq/=. by apply (Hn l1 l2).
      * intros [Hall Hn]. apply Forall_cons in Hall as [_ Hall]. split; [done|].
        intros l1 l2 E. destruct prevDot.
        -- apply (Hn ("."%char :: c :: l1) l2). by rewrite E.
        -- apply (Hn (c :: l1) l2). by rewrite E.
Qed.

(** A bucket name is accepted exactly when it has 3 to 63 characters, all
    lowercase letters, digits, dots or hyphens, neither begins nor ends with a
    dot or hyphen, has no two consecutive dots and is not an IPv4 address. *)
Theorem ValidateBucketName_spec name :
  ValidateBucketName name = true ↔
  3 ≤ String.length name ≤ 63 ∧ Forall (λ c, name_char c = true) (chars name) ∧
  (∀ c, head (chars name) = Some c ∨ last (chars name) = Some c → c ≠ "."%char ∧ c ≠ "-"%char) ∧
  (∀ l1 l2, chars name ≠ l1 ++ "."%char :: "."%char :: l2) ∧ parse_ipv4 name = false.
Proof.
  unfold ValidateBucketName.
  destruct (Nat.ltb_spec (String.length name) 3); simpl; [split; [done | lia]|].
  destruct (Nat.ltb_spec 63 (String.length name)); simpl; [split; [done | lia]|].
  destruct (parse_ipv4 name); [split; [done | by intros (_ & _ & _ & _ & ?)]|].
  assert (∃ c, head (chars name) = Some c) as [c Hc].
  { destruct name; simpl in *; [lia | eauto]. }
  assert (∃ d, last (chars name) = Some d) as [d Hd].
  { destruct (last (chars name)) eqn:E; [eauto|]. apply last_None in E. by rewrite E in Hc. }
  rewrite Hc, Hd.
  assert (∀ c, edge_char_ok c = true ↔ c ≠ "."%char ∧ c ≠ "-"%char) as He.
  { intros c'. unfold edge_char_ok. rewrite negb_true_iff, orb_false_iff, !bool_decide_eq_false.
    tauto. }
  destruct (edge_char_ok c) eqn:Ec; simpl.
  2:{ split; [done|]. intros (_ & _ & Hedge & _). apply not_true_iff_false in Ec. destruct Ec.
      apply He, Hedge. by left. }
  destruct (edge_char_ok d) eqn:Ed; simpl.
  2:{ split; [done|]. intros (_ & _ & Hedge & _). apply not_true_iff_false in Ed. destruct Ed.
      apply He, Hedge. by right. }
  rewrite (name_loop_spec false). split.
  - intros [H1 H2]. split; [lia|]. split; [done|]. split; [|done].
    intros c' [[= <-]|[= <-]]; by apply He.
  - intros (_ & H1 & _ & H2 & _). done.
Qed.

Lemma valid_bucket_no_slash name : ValidateBucketName name = true → no_char "/" name.
Proof.
  unfold ValidateBucketName. repeat (case_match; [done|]). case_match; [|done]. case_match; [|done].
  case_match; [done|]. intros [Hall _]%(name_loop_spec false) Hin.
  rewrite Forall_forall in Hall. by specialize (Hall _ Hin).
Qed.
