(* ===== verification/Store.v ===== *)
(** * The metadata store: internal/store/store.go

    [DB] is the content of the six bbolt buckets; an [Update] transaction is a
    function that returns the new content or an error, and an error rolls back.
    [now] is what [time.Now().UTC()] returned.  The store's loops over [ForEach]
    run over the bindings the bucket has when the loop starts. *)
From S2P Require Import Prelude GF GoLib Kv Meta.

Inductive store_error : Type :=
  | ErrNotFound | ErrAlreadyExists | ErrBucketNotEmpty | ErrInvalidPart | ErrInvalidPartOrder
  | ErrInvalidBucketName | ErrRequired | ErrDecode | ErrIndex | ErrNotEC | ErrPrimaryKid
  | ErrKv (e : kv_error) | ErrIDs.

Section store.
Context {M : Type → Type} {KVM : KV M} {HKV : KVLaws M}.

Record DB : Type := MkDB
  { objects : M (stored ObjectMeta); buckets : M (stored BucketMeta);
    multipart : M (stored MultipartUploadMeta); dns : M (stored DNInfo);
    dns_runtime : M (stored RuntimeDN); urlkeys : M (stored URLKeyEntry) }.

(** [openInitialized] creates the buckets that do not exist. *)
Definition empty_db : DB := MkDB kv_empty kv_empty kv_empty kv_empty kv_empty kv_empty.

Definition set_objects (db : DB) m : DB :=
  MkDB m (buckets db) (multipart db) (dns db) (dns_runtime db) (urlkeys db).
Definition set_buckets (db : DB) m : DB :=
  MkDB (objects db) m (multipart db) (dns db) (dns_runtime db) (urlkeys db).
Definition set_multipart (db : DB) m : DB :=
  MkDB (objects db) (buckets db) m (dns db) (dns_runtime db) (urlkeys db).
Definition set_dns (db : DB) m : DB :=
  MkDB (objects db) (buckets db) (multipart db) m (dns_runtime db) (urlkeys db).
Definition set_dns_runtime (db : DB) m : DB :=
  MkDB (objects db) (buckets db) (multipart db) (dns db) m (urlkeys db).
Definition set_urlkeys (db : DB) m : DB :=
  MkDB (objects db) (buckets db) (multipart db) (dns db) (dns_runtime db) m.

Definition put {V} (m : M V) (k : string) (v : V) : result store_error (M V) :=
  match kv_put m k v with Ok m => Ok m | Err e => Err (ErrKv e) end.

(** [db.Update(fn)] *)
Definition Update {A} (fn : DB → result store_error (A * DB)) (db : DB) : result store_error A * DB :=
  match fn db with Ok (a, db') => (Ok a, db') | Err e => (Err e, db) end.

(** [b.Get(k)] then [json.Unmarshal]. *)
Definition get_decoded {A} (m : M (stored A)) (k : string) : result store_error A :=
  match kv_get m k with
  | None => Err ErrNotFound
  | Some raw => match decode raw with Some a => Ok a | None => Err ErrDecode end
  end.

(** [ForEach] decoding every value into a list. *)
Fixpoint decode_all {A} (l : list (string * stored A)) : result store_error (list A) :=
  match l with
  | [] => Ok []
  | (_, v) :: l =>
      match decode v with
      | None => Err ErrDecode
      | Some a => r ←? decode_all l; Ok (a :: r)
      end
  end.

(** ** Objects *)

(** The version of an overwrite: the previous record's plus one; 0 becomes 1. *)
Definition next_version (m : M (stored ObjectMeta)) (k : string) (obj : ObjectMeta) : ObjectMeta :=
  let obj := match kv_get m k with
             | Some prev => match decode prev with
                            | Some prevObj => with_version obj (i64 (Version prevObj + 1))
                            | None => obj
                            end
             | None => obj
             end in
  if (Version obj =? 0)%Z then with_version obj 1 else obj.

(** The transaction of [putObjectInternalFull]; returns the object as written. *)
Definition putObjectInternal (obj : ObjectMeta) (now : Z) (db : DB) : result store_error ObjectMeta * DB :=
  let k := objKey (Bucket obj) (Key obj) in
  Update (λ db,
    let obj := next_version (objects db) k obj in
    let obj := if IsZero (CreatedAt obj) then with_created obj now else obj in
    m ←? put (objects db) k (Enc obj);
    Ok (obj, set_objects db m)) db.

Definition GetObject (db : DB) (bucket key : string) : result store_error ObjectMeta :=
  o ←? get_decoded (objects db) (objKey bucket key);
  Ok (normalizeLegacy o).

Definition update_object (bucket key : string) (f : ObjectMeta → result store_error ObjectMeta) (db : DB)
    : result store_error unit * DB :=
  let k := objKey bucket key in
  Update (λ db,
    obj ←? get_decoded (objects db) k;
    obj ←? f (normalizeLegacy obj);
    m ←? put (objects db) k (Enc (without_legacy obj));
    Ok ((), set_objects db m)) db.

Definition UpdateChunkReplicas (bucket key : string) (chunkIndex : Z) (replicas : list string)
    : DB → result store_error unit * DB :=
  update_object bucket key (λ obj,
    if ((chunkIndex <? 0) || (Z.of_nat (length (Chunks obj)) <=? chunkIndex))%Z then Err ErrIndex
    else Ok (with_chunks obj
               (alter (λ c, with_replicas c replicas) (Z.to_nat chunkIndex) (Chunks obj)))).

Definition UpdateShardReplicas (bucket key : string) (stripeIndex shardIndex : Z) (replicas : list string)
    : DB → result store_error unit * DB :=
  update_object bucket key (λ obj,
    if negb (IsEC obj) then Err ErrNotEC
    else if ((stripeIndex <? 0) || (Z.of_nat (length (Stripes obj)) <=? stripeIndex))%Z then Err ErrIndex
    else match Stripes obj !! Z.to_nat stripeIndex with
    | None => Err ErrIndex
    | Some stripe =>
        if ((shardIndex <? 0) || (Z.of_nat (length (Shards stripe)) <=? shardIndex))%Z then Err ErrIndex
        else
          let shards := alter (λ c, with_replicas c replicas) (Z.to_nat shardIndex) (Shards stripe) in
          Ok (with_stripes obj
                (<[Z.to_nat stripeIndex := MkStripe (StripeID stripe) shards (DataLen stripe)]>
                   (Stripes obj)))
    end).

Definition deleteObjectInternal (bucket key : string) (db : DB) : result store_error unit * DB :=
  let k := objKey bucket key in
  Update (λ db,
    match kv_get (objects db) k with
    | None => Err ErrNotFound
    | Some _ => Ok ((), set_objects db (kv_delete (objects db) k))
    end) db.

Definition ListObjects (db : DB) : result store_error (list ObjectMeta) :=
  l ←? decode_all (kv_list (objects db));
  Ok (normalizeLegacy <$> l).

(** [limit ≤ 0] returns all matches. *)
Fixpoint prefix_loop (bucket prefix : string) (limit : Z) (l out : list ObjectMeta) : list ObjectMeta :=
  match l with
  | [] => out
  | o :: l =>
      if negb (bool_decide (bucket = "")) && negb (bool_decide (Bucket o = bucket))
      then prefix_loop bucket prefix limit l out
      else if negb (bool_decide (prefix = "")) && negb (has_prefix (Key o) prefix)
      then prefix_loop bucket prefix limit l out
      else
        let out := out ++ [o] in
        if ((0 <? limit) && (limit <=? Z.of_nat (length out)))%Z then out
        else prefix_loop bucket prefix limit l out
  end.
Definition ListObjectsByPrefix (db : DB) (bucket prefix : string) (limit : Z)
    : result store_error (list ObjectMeta) :=
  all ←? ListObjects db;
  Ok (prefix_loop bucket prefix limit all []).

(** ** Buckets *)
Definition createBucketInternal (name : string) (now : Z) (db : DB) : result store_error BucketMeta * DB :=
  if negb (ValidateBucketName name) then (Err ErrInvalidBucketName, db)
  else
    let meta := MkBucketMeta name now in
    Update (λ db,
      match kv_get (buckets db) name with
      | Some _ => Err ErrAlreadyExists
      | None => m ←? put (buckets db) name (Enc meta); Ok (meta, set_buckets db m)
      end) db.

Definition createBucketReplay (meta : BucketMeta) (now : Z) (db : DB) : result store_error unit * DB :=
  if bool_decide (bm_Name meta = "") then (Err ErrRequired, db)
  else
    let meta := if IsZero (bm_CreatedAt meta) then MkBucketMeta (bm_Name meta) now else meta in
    Update (λ db, m ←? put (buckets db) (bm_Name meta) (Enc meta); Ok ((), set_buckets db m)) db.

Definition GetBucket (db : DB) (name : string) : result store_error BucketMeta :=
  get_decoded (buckets db) name.

(** bbolt lists by key, which is the name: the final sort has nothing to move
    when every record carries its key. *)
Definition bucket_le (a b : BucketMeta) : Prop := String.le (bm_Name a) (bm_Name b).
#[export] Instance bucket_le_dec : RelDecision bucket_le.
Proof. intros a b. unfold bucket_le. apply _. Defined.
Definition ListBuckets (db : DB) : result store_error (list BucketMeta) :=
  l ←? decode_all (kv_list (buckets db));
  Ok (merge_sort bucket_le l).

Definition BucketHasObjects (db : DB) (name : string) : bool :=
  let prefix := (name ++ "/")%string in
  match kv_seek (objects db) prefix with Some (k, _) => has_prefix k prefix | None => false end.

Definition deleteBucketInternal (name : string) (db : DB) : result store_error unit * DB :=
  Update (λ db,
    match kv_get (buckets db) name with
    | None => Err ErrNotFound
    | Some _ => if BucketHasObjects db name then Err ErrBucketNotEmpty
                else Ok ((), set_buckets db (kv_delete (buckets db) name))
    end) db.

(** ** Multipart uploads *)

(** [for b.Get(multipartKey(...)) != nil { meta.UploadID = newMultipartUploadID() }]:
    [ids] is the stream of random ids. *)
Fixpoint fresh_upload_id (fuel : nat) (b : M (stored MultipartUploadMeta)) (bucket key : string)
    (ids : nat → string) (i : nat) : option string :=
  match kv_get b (multipartKey bucket key (ids i)) with
  | None => Some (ids i)
  | Some _ => match fuel with
              | 0 => None
              | S fuel => fresh_upload_id fuel b bucket key ids (i + 1)
              end
  end.

Definition CreateMultipartUpload_tx (bucket key contentType : string) (ids : nat → string) (now : Z)
    (db : DB) : result store_error MultipartUploadMeta * DB :=
  if bool_decide (bucket = "") || bool_decide (key = "") then (Err ErrRequired, db)
  else
    Update (λ db,
      match kv_get (buckets db) bucket with
      | None => Err ErrNotFound
      | Some _ =>
          match fresh_upload_id (length (kv_list (multipart db))) (multipart db) bucket key ids 0 with
          | None => Err ErrIDs
          | Some id =>
              let meta := MkUpload bucket key id contentType now ∅ in
              m ←? put (multipart db) (multipartKey bucket key id) (Enc meta);
              Ok (meta, set_multipart db m)
          end
      end) db.

Definition GetMultipartUpload (db : DB) (bucket key uploadID : string)
    : result store_error MultipartUploadMeta :=
  get_decoded (multipart db) (multipartKey bucket key uploadID).

Definition putMultipartUploadReplay (meta : MultipartUploadMeta) (now : Z) (db : DB)
    : result store_error unit * DB :=
  if bool_decide (u_Bucket meta = "") || bool_decide (u_Key meta = "")
     || bool_decide (UploadID meta = "") then (Err ErrRequired, db)
  else
    let meta := if IsZero (u_CreatedAt meta)
                then MkUpload (u_Bucket meta) (u_Key meta) (UploadID meta) (u_ContentType meta) now (Parts meta)
                else meta in
    Update (λ db,
      m ←? put (multipart db) (multipartKey (u_Bucket meta) (u_Key meta) (UploadID meta)) (Enc meta);
      Ok ((), set_multipart db m)) db.

Definition with_part (up : MultipartUploadMeta) (part : MultipartPartMeta) : MultipartUploadMeta :=
  MkUpload (u_Bucket up) (u_Key up) (UploadID up) (u_ContentType up) (u_CreatedAt up)
    (<[PartNumber part := part]> (Parts up)).

Definition putMultipartPartInternal (bucket key uploadID : string) (part : MultipartPartMeta) (db : DB)
    : result store_error unit * DB :=
  let k := multipartKey bucket key uploadID in
  Update (λ db,
    up ←? get_decoded (multipart db) k;
    m ←? put (multipart db) k (Enc (with_part up part));
    Ok ((), set_multipart db m)) db.

(** The checks of [PutMultipartPart] and the part it stores. *)
Definition prepare_part (part : MultipartPartMeta) (now : Z) : result store_error MultipartPartMeta :=
  if negb (validatePartNumber (PartNumber part)) then Err ErrInvalidPart
  else if bool_decide (p_ETag part = "") || (length (p_Chunks part) =? 0) then Err ErrInvalidPart
  else Ok (if IsZero (p_CreatedAt part)
           then MkPart (PartNumber part) (p_ETag part) (p_Size part) (p_Chunks part) now else part).

Definition PutMultipartPart_tx (bucket key uploadID : string) (part : MultipartPartMeta) (now : Z)
    (db : DB) : result store_error MultipartPartMeta * DB :=
  match prepare_part part now with
  | Err e => (Err e, db)
  | Ok part =>
      match putMultipartPartInternal bucket key uploadID part db with
      | (Ok _, db) => (Ok part, db)
      | (Err e, db) => (Err e, db)
      end
  end.

Definition part_le (a b : MultipartPartMeta) : Prop := (PartNumber a ≤ PartNumber b)%Z.
#[export] Instance part_le_dec : RelDecision part_le.
Proof. intros a b. unfold part_le. apply _. Defined.
Definition ListMultipartParts (db : DB) (bucket key uploadID : string)
    : result store_error (list MultipartPartMeta) :=
  up ←? GetMultipartUpload db bucket key uploadID;
  Ok (merge_sort part_le (map_to_list (Parts up)).*2).

(** The loop of [CompleteMultipartUpload] over the requested parts. *)
Record completion : Type := MkCompletion
  { prevPart : Z; c_etags : string; c_chunks : list ChunkRef; c_size : Z;
    completed : list MultipartPartMeta }.

Fixpoint complete_loop (ps : gmap Z MultipartPartMeta) (parts : list CompletePart) (st : completion)
    : result store_error completion :=
  match parts with
  | [] => Ok st
  | want :: parts =>
      if negb (validatePartNumber (cp_PartNumber want)) then Err ErrInvalidPart
      else if (cp_PartNumber want <=? prevPart st)%Z then Err ErrInvalidPartOrder
      else match ps !! cp_PartNumber want with
      | None => Err ErrInvalidPart
      | Some got =>
          if negb (bool_decide (cp_ETag want = "")) && negb (bool_decide (cp_ETag want = p_ETag got))
          then Err ErrInvalidPart
          else complete_loop ps parts
                 (MkCompletion (cp_PartNumber want) (c_etags st ++ p_ETag got) (c_chunks st ++ p_Chunks got)
                    (i64 (c_size st + p_Size got)) (completed st ++ [got]))
      end
  end.

Definition multipart_etag (etags : string) (n : nat) : string :=
  let q := String (Ascii.ascii_of_nat 34) EmptyString in
  (q ++ sha256_hex (bytes_of etags) ++ "-" ++ itoa (Z.of_nat n) ++ q)%string.

Definition CompleteMultipartUpload_tx (bucket key uploadID : string) (parts : list CompletePart) (now : Z)
    (db : DB) : result store_error (ObjectMeta * list MultipartPartMeta) * DB :=
  if length parts =? 0 then (Err ErrInvalidPart, db)
  else
    let mk := multipartKey bucket key uploadID in
    Update (λ db,
      up ←? get_decoded (multipart db) mk;
      st ←? complete_loop (Parts up) parts (MkCompletion 0 "" [] 0 []);
      let okey := objKey bucket key in
      let obj := MkObjectMeta bucket key (c_size st) (u_ContentType up)
                   (multipart_etag (c_etags st) (length parts)) (c_chunks st) None [] 0 now "" "" [] in
      let obj := next_version (objects db) okey obj in
      ob ←? put (objects db) okey (Enc obj);
      Ok ((obj, completed st), set_multipart (set_objects db ob) (kv_delete (multipart db) mk))) db.

Definition completeMultipartReplay (bucket key uploadID : string) (obj : option ObjectMeta) (db : DB)
    : result store_error unit * DB :=
  match obj with
  | None => (Err ErrRequired, db)
  | Some obj =>
      Update (λ db,
        ob ←? put (objects db) (objKey (Bucket obj) (Key obj)) (Enc obj);
        Ok ((), set_multipart (set_objects db ob)
                  (kv_delete (multipart db) (multipartKey bucket key uploadID)))) db
  end.

Definition abortMultipartUploadInternal (bucket key uploadID : string) (db : DB)
    : result store_error MultipartUploadMeta * DB :=
  let k := multipartKey bucket key uploadID in
  Update (λ db,
    up ←? get_decoded (multipart db) k;
    Ok (up, set_multipart db (kv_delete (multipart db) k))) db.

Fixpoint abort_expired_loop (cutoff limit : Z) (l : list (string * stored MultipartUploadMeta))
    (b : M (stored MultipartUploadMeta)) (removed : list MultipartUploadMeta)
    : result store_error (list MultipartUploadMeta * M (stored MultipartUploadMeta)) :=
  match l with
  | [] => Ok (removed, b)
  | (k, v) :: l =>
      if ((0 <? limit) && (limit <=? Z.of_nat (length removed)))%Z
      then abort_expired_loop cutoff limit l b removed
      else match decode v with
      | None => Err ErrDecode
      | Some up =>
          if IsZero (u_CreatedAt up) || negb (u_CreatedAt up <? cutoff)%Z
          then abort_expired_loop cutoff limit l b removed
          else abort_expired_loop cutoff limit l (kv_delete b k) (removed ++ [up])
      end
  end.
Definition AbortExpired_tx (cutoff limit : Z) (db : DB) : result store_error (list MultipartUploadMeta) * DB :=
  Update (λ db,
    '(removed, b) ←? abort_expired_loop cutoff limit (kv_list (multipart db)) (multipart db) [];
    Ok (removed, set_multipart db b)) db.

(** ** Data nodes *)
Definition PutDN (dn : DNInfo) (db : DB) : result store_error unit * DB :=
  Update (λ db, m ←? put (dns db) (dn_ID dn) (Enc dn); Ok ((), set_dns db m)) db.
Definition ListDNs (db : DB) : result store_error (list DNInfo) := decode_all (kv_list (dns db)).

Definition addRuntimeDNInternal (addr : string) (now : Z) (db : DB) : result store_error unit * DB :=
  if bool_decide (addr = "") then (Err ErrRequired, db)
  else Update (λ db,
    m ←? put (dns_runtime db) addr (Enc (MkRuntimeDN addr (Some now) None None));
    Ok ((), set_dns_runtime db m)) db.

Definition removeRuntimeDNInternal (addr : string) (db : DB) : result store_error unit * DB :=
  if bool_decide (addr = "") then (Err ErrRequired, db)
  else Update (λ db, Ok ((), set_dns_runtime db (kv_delete (dns_runtime db) addr))) db.

Definition ListRuntimeDNs (db : DB) : list string := sort_strings (kv_list (dns_runtime db)).*1.

(** An undecodable entry is replaced by one that has the address only. *)
Definition update_runtime (addr : string) (f : RuntimeDN → RuntimeDN) (db : DB)
    : result store_error unit * DB :=
  if bool_decide (addr = "") then (Err ErrRequired, db)
  else Update (λ db,
    match kv_get (dns_runtime db) addr with
    | None => Err ErrNotFound
    | Some raw =>
        let entry := match decode raw with Some e => e | None => MkRuntimeDN addr None None None end in
        m ←? put (dns_runtime db) addr (Enc (f entry));
        Ok ((), set_dns_runtime db m)
    end) db.

Definition label (s : string) : option string := if bool_decide (s = "") then None else Some s.
Definition SetRuntimeDNClass (addr class : string) : DB → result store_error unit * DB :=
  update_runtime addr (λ e, MkRuntimeDN (rd_addr e) (registered_at e) (label class) (rd_domain e)).
Definition SetRuntimeDNDomain (addr domain : string) : DB → result store_error unit * DB :=
  update_runtime addr (λ e, MkRuntimeDN (rd_addr e) (registered_at e) (rd_class e) (label domain)).

Definition runtime_label (f : RuntimeDN → option string) (raw : stored RuntimeDN) : string :=
  match decode raw with Some e => default "" (f e) | None => "" end.
Definition RuntimeDNClass (db : DB) (addr : string) : result store_error string :=
  match kv_get (dns_runtime db) addr with
  | None => Err ErrNotFound | Some raw => Ok (runtime_label rd_class raw) end.
Definition RuntimeDNDomain (db : DB) (addr : string) : result store_error string :=
  match kv_get (dns_runtime db) addr with
  | None => Err ErrNotFound | Some raw => Ok (runtime_label rd_domain raw) end.
Definition ListRuntimeDNsWithDomain (db : DB) : gmap string string :=
  foldl (λ out kv, <[kv.1 := runtime_label rd_domain kv.2]> out) ∅ (kv_list (dns_runtime db)).
Definition ListRuntimeDNsByClass (db : DB) (class : string) : list string :=
  sort_strings (filter (λ kv, runtime_label rd_class kv.2 = class) (kv_list (dns_runtime db))).*1.

Fixpoint seed_loop (addrs : list string) (now : Z) (b : M (stored RuntimeDN))
    : result store_error (M (stored RuntimeDN)) :=
  match addrs with
  | [] => Ok b
  | addr :: addrs =>
      b ←? put b addr (Enc (MkRuntimeDN addr (Some now) None None));
      seed_loop addrs now b
  end.
Definition SeedRuntimeDNs (addrs : list string) (now : Z) (db : DB) : result store_error unit * DB :=
  Update (λ db, b ←? seed_loop addrs now kv_empty; Ok ((), set_dns_runtime db b)) db.

(** ** URL keys *)
Definition set_primary (e : URLKeyEntry) (p : bool) : URLKeyEntry :=
  MkURLKeyEntry (Kid e) (SecretHex e) p (uk_CreatedAt e).

Fixpoint clear_primary_loop (l : list (string * stored URLKeyEntry)) (b : M (stored URLKeyEntry))
    : result store_error (M (stored URLKeyEntry)) :=
  match l with
  | [] => Ok b
  | (k, v) :: l =>
      match decode v with
      | None => Err ErrDecode
      | Some e =>
          if negb (IsPrimary e) then clear_primary_loop l b
          else b ←? put b k (Enc (set_primary e false)); clear_primary_loop l b
      end
  end.

Definition PutURLKey (kid secretHex : string) (isPrimary : bool) (now : Z) (db : DB)
    : result store_error unit * DB :=
  if bool_decide (kid = "") || bool_decide (secretHex = "") then (Err ErrRequired, db)
  else Update (λ db,
    b ←? (if isPrimary then clear_primary_loop (kv_list (urlkeys db)) (urlkeys db) else Ok (urlkeys db));
    let created := match kv_get b kid with
                   | Some prev => match decode prev with
                                  | Some pe => if IsZero (uk_CreatedAt pe) then now else uk_CreatedAt pe
                                  | None => now
                                  end
                   | None => now
                   end in
    b ←? put b kid (Enc (MkURLKeyEntry kid secretHex isPrimary created));
    Ok ((), set_urlkeys db b)) db.

Definition DeleteURLKey (kid : string) (db : DB) : result store_error unit * DB :=
  Update (λ db,
    e ←? get_decoded (urlkeys db) kid;
    if IsPrimary e then Err ErrPrimaryKid
    else Ok ((), set_urlkeys db (kv_delete (urlkeys db) kid))) db.

Definition kid_le (a b : URLKeyEntry) : Prop := String.le (Kid a) (Kid b).
#[export] Instance kid_le_dec : RelDecision kid_le.
Proof. intros a b. unfold kid_le. apply _. Defined.
Definition ListURLKeys (db : DB) : result store_error (list URLKeyEntry) :=
  l ←? decode_all (kv_list (urlkeys db)); Ok (merge_sort kid_le l).
End store.
