(* ===== verification/StoreProps.v ===== *)
(** * Properties of the metadata store (Store.v) *)
From S2P Require Import Prelude GF GoLib Kv Meta Store.

Section props.
Context {M : Type → Type} {KVM : KV M} {HKV : KVLaws M}.
Implicit Types db : @DB M.

(** ** Transactions *)
Lemma Update_ok {A} (fn : DB → result store_error (A * DB)) db a db' :
  Update fn db = (Ok a, db') ↔ fn db = Ok (a, db').
Proof. unfold Update. destruct (fn db) as [[a' d]|e]; split; intros; simplify_eq; done. Qed.

Lemma Update_cases {A} (fn : DB → result store_error (A * DB)) db (P : result store_error A * DB → Prop) :
  (∀ e, fn db = Err e → P (Err e, db)) → (∀ a db', fn db = Ok (a, db') → P (Ok a, db')) →
  P (Update fn db).
Proof. unfold Update. destruct (fn db) as [[a d]|e]; auto. Qed.

Lemma put_ok {V} (m m' : M V) k v : put m k v = Ok m' ↔ kv_put m k v = Ok m'.
Proof. unfold put. destruct (kv_put m k v); split; intros; simplify_eq; done. Qed.

Lemma get_decoded_ok {A} (m : M (stored A)) k a : get_decoded m k = Ok a ↔ kv_get m k = Some (Enc a).
Proof.
  unfold get_decoded. destruct (kv_get m k) as [[a'|raw]|]; simpl; split; intros; simplify_eq; done.
Qed.

(** ** Values and the keys they are stored under *)
Definition keyed {A} (P : string → A → Prop) (m : M (stored A)) : Prop :=
  ∀ k a, kv_get m k = Some (Enc a) → P k a.

Lemma keyed_put {A} P (m m' : M (stored A)) k a :
  put m k (Enc a) = Ok m' → keyed P m → P k a → keyed P m'.
Proof.
  intros Hp%put_ok Hm Ha k' a'. rewrite (get_put _ _ _ _ _ Hp). case_decide as Hk; [|by apply Hm].
  intros [= <-]. by subst.
Qed.
Lemma keyed_delete {A} P (m : M (stored A)) k : keyed P m → keyed P (kv_delete m k).
Proof. intros Hm k' a'. rewrite get_delete. case_decide; [done | apply Hm]. Qed.
Lemma keyed_empty {A} (P : string → A → Prop) : keyed P kv_empty.
Proof. intros k a. by rewrite get_empty. Qed.

(** ** What the store keeps true *)
Definition object_at (k : string) (o : ObjectMeta) : Prop := k = objKey (Bucket o) (Key o).
Definition bucket_at (k : string) (b : BucketMeta) : Prop :=
  k = bm_Name b ∧ ValidateBucketName k = true.
Definition part_ok (n : Z) (p : MultipartPartMeta) : Prop :=
  PartNumber p = n ∧ validatePartNumber n = true ∧ p_ETag p ≠ "" ∧ p_Chunks p ≠ [].
Definition upload_at (k : string) (u : MultipartUploadMeta) : Prop :=
  k = multipartKey (u_Bucket u) (u_Key u) (UploadID u) ∧ map_Forall part_ok (Parts u).
Definition runtime_at (k : string) (e : RuntimeDN) : Prop := k = rd_addr e.
Definition urlkey_at (k : string) (e : URLKeyEntry) : Prop := k = Kid e.
Definition one_primary (m : M (stored URLKeyEntry)) : Prop :=
  ∀ k1 e1 k2 e2, kv_get m k1 = Some (Enc e1) → kv_get m k2 = Some (Enc e2) →
    IsPrimary e1 = true → IsPrimary e2 = true → k1 = k2.

Record db_ok (db : DB) : Prop := MkDbOk
  { ok_objects : keyed object_at (objects db); ok_buckets : keyed bucket_at (buckets db);
    ok_multipart : keyed upload_at (multipart db); ok_runtime : keyed runtime_at (dns_runtime db);
    ok_urlkeys : keyed urlkey_at (urlkeys db); ok_primary : one_primary (urlkeys db) }.

Lemma empty_db_ok : db_ok empty_db.
Proof. split; try apply keyed_empty. intros k1 e1 k2 e2. simpl. by rewrite get_empty. Qed.

(** ** Every mutation of the store *)
Inductive store_op : Type :=
  | PutObject (obj : ObjectMeta) (now : Z)
  | UpdChunk (bucket key : string) (i : Z) (replicas : list string)
  | UpdShard (bucket key : string) (i j : Z) (replicas : list string)
  | DeleteObject (bucket key : string)
  | CreateBucket (name : string) (now : Z)
  | DeleteBucket (name : string)
  | CreateMultipart (bucket key contentType : string) (ids : nat → string) (now : Z)
  | PutPart (bucket key uploadID : string) (part : MultipartPartMeta) (now : Z)
  | CompleteMultipart (bucket key uploadID : string) (parts : list CompletePart) (now : Z)
  | AbortMultipart (bucket key uploadID : string)
  | AbortExpired (cutoff limit : Z)
  | PutDNInfo (dn : DNInfo)
  | AddRuntimeDN (addr : string) (now : Z)
  | RemoveRuntimeDN (addr : string)
  | SetClass (addr class : string)
  | SetDomain (addr domain : string)
  | SeedDNs (addrs : list string) (now : Z)
  | PutKey (kid secretHex : string) (isPrimary : bool) (now : Z)
  | DeleteKey (kid : string).

(** The error an operation reports, if any, and the database it leaves. *)
Definition outcome {A} (r : result store_error A * @DB M) : option store_error * DB :=
  match r with (Ok _, db) => (None, db) | (Err e, db) => (Some e, db) end.

Lemma outcome_snd {A} (r : result store_error A * @DB M) : (outcome r).2 = r.2.
Proof. by destruct r as [[a|e] db]. Qed.

Definition exec (op : store_op) (db : DB) : option store_error * DB :=
  match op with
  | PutObject obj now => outcome (putObjectInternal obj now db)
  | UpdChunk b k i r => outcome (UpdateChunkReplicas b k i r db)
  | UpdShard b k i j r => outcome (UpdateShardReplicas b k i j r db)
  | DeleteObject b k => outcome (deleteObjectInternal b k db)
  | CreateBucket name now => outcome (createBucketInternal name now db)
  | DeleteBucket name => outcome (deleteBucketInternal name db)
  | CreateMultipart b k ct ids now => outcome (CreateMultipartUpload_tx b k ct ids now db)
  | PutPart b k u p now => outcome (PutMultipartPart_tx b k u p now db)
  | CompleteMultipart b k u ps now => outcome (CompleteMultipartUpload_tx b k u ps now db)
  | AbortMultipart b k u => outcome (abortMultipartUploadInternal b k u db)
  | AbortExpired cutoff limit => outcome (AbortExpired_tx cutoff limit db)
  | PutDNInfo dn => outcome (PutDN dn db)
  | AddRuntimeDN addr now => outcome (addRuntimeDNInternal addr now db)
  | RemoveRuntimeDN addr => outcome (removeRuntimeDNInternal addr db)
  | SetClass addr c => outcome (SetRuntimeDNClass addr c db)
  | SetDomain addr d => outcome (SetRuntimeDNDomain addr d db)
  | SeedDNs addrs now => outcome (SeedRuntimeDNs addrs now db)
  | PutKey kid s p now => outcome (PutURLKey kid s p now db)
  | DeleteKey kid => outcome (DeleteURLKey kid db)
  end.

Definition exec_all (ops : list store_op) (db : DB) : DB := foldl (λ db op, (exec op db).2) db ops.

Lemma Update_err {A} (fn : DB → result store_error (A * DB)) db e db' :
  outcome (Update fn db) = (Some e, db') → db' = db.
Proof. unfold Update. destruct (fn db) as [[a d]|e']; simpl; intros; by simplify_eq. Qed.

Lemma failed_tx op db e db' : exec op db = (Some e, db') → db' = db.
Proof.
  destruct op; simpl; try (apply Update_err).
  - unfold createBucketInternal. case_match; [by intros [=] | apply Update_err].
  - unfold CreateMultipartUpload_tx. case_match; [by intros [=] | apply Update_err].
  - unfold PutMultipartPart_tx, putMultipartPartInternal. case_match; [|by intros [=]].
    apply Update_cases; simpl; [by intros ? _ [=] | by intros ? ? _ [=]].
  - unfold CompleteMultipartUpload_tx. case_match; [by intros [=] | apply Update_err].
  - unfold addRuntimeDNInternal. case_match; [by intros [=] | apply Update_err].
  - unfold removeRuntimeDNInternal. case_match; [by intros [=] | apply Update_err].
  - unfold SetRuntimeDNClass, update_runtime. case_match; [by intros [=] | apply Update_err].
  - unfold SetRuntimeDNDomain, update_runtime. case_match; [by intros [=] | apply Update_err].
  - unfold PutURLKey. case_match; [by intros [=] | apply Update_err].
Qed.

(** Every store mutation is all or nothing: an operation that reports an
    error leaves all six buckets exactly as they were. *)
Theorem failed_operation_changes_nothing op db e db' : exec op db = (Some e, db') → db' = db.
Proof. apply failed_tx. Qed.

(** ** Preservation *)
Lemma next_version_key m k o :
  Bucket (next_version m k o) = Bucket o ∧ Key (next_version m k o) = Key o.
Proof. unfold next_version. repeat case_match; done. Qed.

Ltac db_fields := split; simpl; eauto using keyed_delete.

Lemma putObject_ok obj now db : db_ok db → db_ok (outcome (putObjectInternal obj now db)).2.
Proof.
  intros [H1 H2 H3 H4 H5 H6]. unfold putObjectInternal. apply Update_cases; [done|].
  intros a db' H. inv_ok. simplify_eq. db_fields. eapply keyed_put; [done | done |].
  destruct (next_version_key (objects db) (objKey (Bucket obj) (Key obj)) obj) as [E1 E2].
  unfold object_at. case_match; simpl; by rewrite E1, E2.
Qed.

Lemma update_object_ok b k f db :
  (∀ o o', f o = Ok o' → Bucket o' = Bucket o ∧ Key o' = Key o) →
  db_ok db → db_ok (outcome (update_object b k f db)).2.
Proof.
  intros Hf [H1 H2 H3 H4 H5 H6]. unfold update_object. apply Update_cases; [done|].
  intros a db' H. inv_ok. simplify_eq. db_fields.
  match goal with Hg : get_decoded _ _ = Ok ?o, Hfo : f _ = Ok ?o' |- _ =>
    apply get_decoded_ok in Hg; apply H1 in Hg; apply Hf in Hfo as [E1 E2];
    destruct (normalizeLegacy_fields o) as (E3 & E4 & _) end.
  eapply keyed_put; [done | done |]. unfold object_at in *. simpl. congruence.
Qed.

Lemma UpdChunk_ok b k i r db : db_ok db → db_ok (outcome (UpdateChunkReplicas b k i r db)).2.
Proof. apply update_object_ok. intros o o'. case_match; [done|]. intros [= <-]. done. Qed.

Lemma UpdShard_ok b k i j r db : db_ok db → db_ok (outcome (UpdateShardReplicas b k i j r db)).2.
Proof. apply update_object_ok. intros o o'. repeat (case_match; try done). intros [= <-]. done. Qed.

Lemma createBucket_ok name now db : db_ok db → db_ok (outcome (createBucketInternal name now db)).2.
Proof.
  intros [H1 H2 H3 H4 H5 H6]. unfold createBucketInternal.
  destruct (ValidateBucketName name) eqn:Hv; [|done]. apply Update_cases; [done|].
  intros a db' H. case_match; [done|]. inv_ok. simplify_eq. db_fields.
  eapply keyed_put; [done | done |]. done.
Qed.

Lemma deleteObject_ok b k db : db_ok db → db_ok (outcome (deleteObjectInternal b k db)).2.
Proof.
  intros [H1 H2 H3 H4 H5 H6]. unfold deleteObjectInternal. apply Update_cases; [done|].
  intros a db' H. case_match; [|done]. simplify_eq. db_fields.
Qed.

Lemma deleteBucket_ok name db : db_ok db → db_ok (outcome (deleteBucketInternal name db)).2.
Proof.
  intros [H1 H2 H3 H4 H5 H6]. unfold deleteBucketInternal. apply Update_cases; [done|].
  intros a db' H. repeat (case_match; simplify_eq). db_fields.
Qed.
Lemma keyed_mono {A} (P Q : string → A → Prop) m : (∀ k a, P k a → Q k a) → keyed P m → keyed Q m.
Proof. intros HPQ Hm k a Hk. by apply HPQ, Hm. Qed.

Lemma createMultipart_ok b k ct ids now db :
  db_ok db → db_ok (outcome (CreateMultipartUpload_tx b k ct ids now db)).2.
Proof.
  intros [H1 H2 H3 H4 H5 H6]. unfold CreateMultipartUpload_tx. case_match; [done|].
  apply Update_cases; [done|]. intros a db' Ho. repeat (case_match; try done). inv_ok. simplify_eq.
  db_fields. eapply keyed_put; [done | done |]. split; [done|]. apply map_Forall_empty.
Qed.

Lemma prepare_part_ok p now p' : prepare_part p now = Ok p' → part_ok (PartNumber p') p'.
Proof.
  unfold prepare_part. destruct (validatePartNumber (PartNumber p)) eqn:Hv; [|done].
  destruct (_ || _) eqn:E; [done|]. apply orb_false_iff in E as [E1%bool_decide_eq_false E2].
  assert (p_Chunks p ≠ []) as Hc by (by destruct (p_Chunks p)).
  simpl. intros [= <-]. by destruct (IsZero (p_CreatedAt p)).
Qed.

Lemma putPart_ok b k u p now db : db_ok db → db_ok (outcome (PutMultipartPart_tx b k u p now db)).2.
Proof.
  intros [H1 H2 H3 H4 H5 H6]. unfold PutMultipartPart_tx, putMultipartPartInternal.
  destruct (prepare_part p now) as [p'|e] eqn:Hp; [|done]. apply prepare_part_ok in Hp.
  apply Update_cases; [done|]. intros a db' Ho. inv_ok. simplify_eq. db_fields.
  match goal with Hg : get_decoded _ _ = Ok _ |- _ =>
    apply get_decoded_ok in Hg; apply H3 in Hg as [Hk Hparts] end.
  eapply keyed_put; [done | done |]. split; [done|]. simpl. by apply map_Forall_insert_2.
Qed.

Lemma completeMultipart_ok b k u ps now db :
  db_ok db → db_ok (outcome (CompleteMultipartUpload_tx b k u ps now db)).2.
Proof.
  intros [H1 H2 H3 H4 H5 H6]. unfold CompleteMultipartUpload_tx. case_match; [done|].
  apply Update_cases; [done|]. intros a db' Ho. inv_ok. simplify_eq. db_fields.
  eapply keyed_put; [done | done |].
  unfold object_at. match goal with |- context [next_version ?m ?k ?o] =>
    destruct (next_version_key m k o) as [-> ->] end. done.
Qed.

Lemma abortMultipart_ok b k u db : db_ok db → db_ok (outcome (abortMultipartUploadInternal b k u db)).2.
Proof.
  intros [H1 H2 H3 H4 H5 H6]. unfold abortMultipartUploadInternal. apply Update_cases; [done|].
  intros a db' Ho. inv_ok. simplify_eq. db_fields.
Qed.

Lemma abort_expired_keyed P cutoff limit l b removed r b' :
  keyed P b → abort_expired_loop cutoff limit l b removed = Ok (r, b') → keyed P b'.
Proof.
  revert b removed. induction l as [|[k v] l IH]; intros b removed Hb Ho; simpl in Ho.
  - inv_ok. by simplify_eq.
  - repeat (case_match; try done); eauto. eapply IH; [|done]. by apply keyed_delete.
Qed.

Lemma abortExpired_ok cutoff limit db : db_ok db → db_ok (outcome (AbortExpired_tx cutoff limit db)).2.
Proof.
  intros [H1 H2 H3 H4 H5 H6]. unfold AbortExpired_tx. apply Update_cases; [done|].
  intros a db' Ho. apply rbind_ok in Ho as ([r b] & Hl & Ho). simplify_eq. db_fields.
  by eapply abort_expired_keyed.
Qed.

Lemma addRuntime_ok addr now db : db_ok db → db_ok (outcome (addRuntimeDNInternal addr now db)).2.
Proof.
  intros [H1 H2 H3 H4 H5 H6]. unfold addRuntimeDNInternal. case_match; [done|].
  apply Update_cases; [done|]. intros a db' Ho. inv_ok. simplify_eq. db_fields. by eapply keyed_put.
Qed.

Lemma removeRuntime_ok addr db : db_ok db → db_ok (outcome (removeRuntimeDNInternal addr db)).2.
Proof.
  intros [H1 H2 H3 H4 H5 H6]. unfold removeRuntimeDNInternal. case_match; [done|].
  apply Update_cases; [done|]. intros a db' Ho. simplify_eq. db_fields.
Qed.

Lemma update_runtime_ok addr f db :
  (∀ e, rd_addr (f e) = rd_addr e) → db_ok db → db_ok (outcome (update_runtime addr f db)).2.
Proof.
  intros Hf [H1 H2 H3 H4 H5 H6]. unfold update_runtime. case_match; [done|].
  apply Update_cases; [done|]. intros a db' Ho.
  destruct (kv_get (dns_runtime db) addr) as [raw|] eqn:Hg; [|done]. inv_ok. simplify_eq. db_fields.
  eapply keyed_put; [done | done |]. unfold runtime_at. rewrite Hf.
  destruct raw as [e|raw]; [by apply H4 | done].
Qed.

Lemma seed_loop_keyed addrs now (b b' : M (stored RuntimeDN)) :
  keyed runtime_at b → seed_loop addrs now b = Ok b' → keyed runtime_at b'.
Proof.
  revert b. induction addrs as [|addr addrs IH]; intros b Hb Ho; simpl in Ho; inv_ok; [done|].
  eapply IH; [|done]. by eapply keyed_put.
Qed.

Lemma seed_ok addrs now db : db_ok db → db_ok (outcome (SeedRuntimeDNs addrs now db)).2.
Proof.
  intros [H1 H2 H3 H4 H5 H6]. unfold SeedRuntimeDNs. apply Update_cases; [done|].
  intros a db' Ho. inv_ok. simplify_eq. db_fields. eapply seed_loop_keyed; [apply keyed_empty | done].
Qed.

(** ** URL keys *)
Definition cleared (s : stored URLKeyEntry) : stored URLKeyEntry :=
  match s with Enc e => Enc (set_primary e false) | g => g end.

Lemma cleared_not_primary e : IsPrimary e = false → set_primary e false = e.
Proof. destruct e. simpl. by intros ->. Qed.

Lemma clear_primary_loop_get l (b b' : M (stored URLKeyEntry)) k :
  NoDup l.*1 → (∀ k v, (k, v) ∈ l → kv_get b k = Some v) → clear_primary_loop l b = Ok b' →
  kv_get b' k = if decide (k ∈ l.*1) then cleared <$> kv_get b k else kv_get b k.
Proof.
  revert b. induction l as [|[k0 v] l IH]; intros b Hnd Hl Ho; simpl in Ho.
  - inv_ok. rewrite decide_False; [done|]. simpl. apply not_elem_of_nil.
  - rewrite fmap_cons in Hnd |- *. apply NoDup_cons in Hnd as [Hk0 Hnd]. simpl in Hk0.
    destruct v as [e|raw]; [|done]. simpl in Ho.
    assert (kv_get b k0 = Some (Enc e)) as Hb by (apply Hl; by left).
    assert (∀ b1 : M (stored URLKeyEntry), clear_primary_loop l b1 = Ok b' →
      kv_get b1 k0 = Some (Enc (set_primary e false)) →
      (∀ k', k0 ≠ k' → kv_get b1 k' = kv_get b k') →
      kv_get b' k = if decide (k ∈ k0 :: l.*1) then cleared <$> kv_get b k else kv_get b k) as Hstep.
    { intros b1 Hc Hb1 Hne. rewrite (IH b1); [|done| |done].
      - destruct (decide (k0 = k)) as [<-|Hk].
        + rewrite decide_False by done. rewrite decide_True by (by left). by rewrite Hb1, Hb.
        + rewrite (Hne k Hk). destruct (decide (k ∈ l.*1)) as [Hin|Hin].
          * rewrite decide_True by (by right). done.
          * rewrite decide_False; [done|]. intros [->|?]%elem_of_cons; done.
      - intros k1 v1 Hin. assert (k0 ≠ k1).
        { intros <-. apply Hk0, list_elem_of_fmap. by exists (k0, v1). }
        rewrite Hne by done. apply Hl. by right. }
    destruct (IsPrimary e) eqn:Hpe; simpl in Ho.
    + apply rbind_ok in Ho as (b1 & Hp%put_ok & Hc). apply (Hstep b1 Hc).
      * by eapply get_put_eq.
      * intros k' Hne. by eapply get_put_ne.
    + apply (Hstep b Ho); [|done]. by rewrite cleared_not_primary.
Qed.

Lemma clear_primary_get (b b' : M (stored URLKeyEntry)) k :
  clear_primary_loop (kv_list b) b = Ok b' → kv_get b' k = cleared <$> kv_get b k.
Proof.
  intros Ho. rewrite (clear_primary_loop_get (kv_list b) b b' k (list_NoDup b)); [|by intros; apply elem_list|done].
  case_decide as Hk; [done|]. destruct (kv_get b k) as [v|] eqn:E; [|done].
  destruct Hk. apply list_elem_of_fmap. exists (k, v). split; [done|]. by apply elem_list.
Qed.

Lemma cleared_keyed (b b' : M (stored URLKeyEntry)) :
  keyed urlkey_at b → clear_primary_loop (kv_list b) b = Ok b' →
  keyed urlkey_at b' ∧ ∀ k e, kv_get b' k = Some (Enc e) → IsPrimary e = false.
Proof.
  intros Hb Ho. split; intros k e; rewrite (clear_primary_get _ _ _ Ho);
    destruct (kv_get b k) as [[e'|raw]|] eqn:E; simpl; intros [= <-]; [|done].
  by apply Hb in E.
Qed.

Lemma putKey_ok kid s p now db : db_ok db → db_ok (outcome (PutURLKey kid s p now db)).2.
Proof.
  intros [H1 H2 H3 H4 H5 H6]. unfold PutURLKey. case_match; [done|].
  apply Update_cases; [done|]. intros a db' Ho.
  apply rbind_ok in Ho as (b & Hb & Ho). apply rbind_ok in Ho as (b2 & Hb2 & Ho). simplify_eq.
  assert (keyed urlkey_at b) as Hkb.
  { destruct p; [by apply cleared_keyed in Hb as [? _] | by simplify_eq]. }
  db_fields.
  - by eapply keyed_put.
  - apply put_ok in Hb2. intros k1 e1 k2 e2. rewrite !(get_put _ _ _ _ _ Hb2).
    destruct p.
    + apply cleared_keyed in Hb as [_ Hb]; [|done].
      intros G1 G2 P1 P2. destruct (decide (kid = k1)) as [<-|], (decide (kid = k2)) as [<-|];
        [done| | |]; match goal with G : kv_get b _ = Some (Enc ?e), P : IsPrimary ?e = true |- _ =>
          apply Hb in G; congruence end.
    + simplify_eq. intros G1 G2 P1 P2.
      destruct (decide (kid = k1)) as [<-|], (decide (kid = k2)) as [<-|]; simplify_eq/=.
      by eapply H6.
Qed.

Lemma deleteKey_ok kid db : db_ok db → db_ok (outcome (DeleteURLKey kid db)).2.
Proof.
  intros [H1 H2 H3 H4 H5 H6]. unfold DeleteURLKey. apply Update_cases; [done|].
  intros a db' Ho. apply rbind_ok in Ho as (e & He & Ho). case_match; [done|]. simplify_eq. db_fields.
  intros k1 e1 k2 e2. rewrite !get_delete. repeat case_decide; try done. apply H6.
Qed.

Lemma exec_ok op db : db_ok db → db_ok (exec op db).2.
Proof.
  destruct op; simpl;
    [apply putObject_ok | apply UpdChunk_ok | apply UpdShard_ok | apply deleteObject_ok
    | apply createBucket_ok | apply deleteBucket_ok | apply createMultipart_ok | apply putPart_ok
    | apply completeMultipart_ok | apply abortMultipart_ok | apply abortExpired_ok | | apply addRuntime_ok
    | apply removeRuntime_ok | by apply update_runtime_ok | by apply update_runtime_ok | apply seed_ok
    | apply putKey_ok | apply deleteKey_ok].
  intros [H1 H2 H3 H4 H5 H6]. unfold PutDN. apply Update_cases; [done|].
  intros a db' Ho. inv_ok. simplify_eq. db_fields.
Qed.

(** ** Objects *)
Definition same_but_objects db db' : Prop :=
  buckets db' = buckets db ∧ multipart db' = multipart db ∧ dns db' = dns db ∧
  dns_runtime db' = dns_runtime db ∧ urlkeys db' = urlkeys db.

Lemma GetObject_put db m b k o :
  put (objects db) (objKey b k) (Enc o) = Ok m →
  GetObject (set_objects db m) b k = Ok (normalizeLegacy o).
Proof.
  intros Hp%put_ok. unfold GetObject, get_decoded. simpl.
  by rewrite (get_put_eq _ _ _ _ Hp).
Qed.

Lemma next_version_succ db b k o prev : GetObject db b k = Ok prev → (0 ≤ Version prev < 2 ^ 63 - 1)%Z →
  Version (next_version (objects db) (objKey b k) o) = (Version prev + 1)%Z.
Proof.
  intros Hg Hv. apply rbind_ok in Hg as (p & Hg%get_decoded_ok & Hn).
  injection Hn as <-. destruct (normalizeLegacy_fields p) as (_ & _ & Ev & _). rewrite Ev in *.
  unfold next_version. rewrite Hg. simpl. rewrite i64_small by lia.
  destruct (Z.eqb_spec (Version p + 1) 0); [lia | done].
Qed.

(** A successful PutObject is read back by GetObject, gets version 1 (or the
    caller's) when the key is new and the previous version plus one when it is
    overwritten, a creation time if it had none, and touches nothing else. *)
Theorem PutObject_correct obj now db obj' db' :
  putObjectInternal obj now db = (Ok obj', db') →
  let b := Bucket obj in let k := Key obj in
  GetObject db' b k = Ok (normalizeLegacy obj') ∧
  (∀ prev, GetObject db b k = Ok prev → (0 ≤ Version prev < 2 ^ 63 - 1)%Z →
     Version obj' = (Version prev + 1)%Z) ∧
  (kv_get (objects db) (objKey b k) = None →
     Version obj' = if (Version obj =? 0)%Z then 1%Z else Version obj) ∧
  CreatedAt obj' = (if IsZero (CreatedAt obj) then now else CreatedAt obj) ∧
  Chunks obj' = Chunks obj ∧ Stripes obj' = Stripes obj ∧
  (∀ k', k' ≠ objKey b k → kv_get (objects db') k' = kv_get (objects db) k') ∧
  same_but_objects db db'.
Proof.
  unfold putObjectInternal. intros Ho%Update_ok. apply rbind_ok in Ho as (m & Hp & Ho).
  set (nv := next_version _ _ _) in *. injection Ho as Ho Hdb. subst db'.
  assert (Bucket obj' = Bucket obj ∧ Key obj' = Key obj ∧ Version obj' = Version nv ∧
    CreatedAt nv = CreatedAt obj ∧ Chunks nv = Chunks obj ∧ Stripes nv = Stripes obj ∧
    Chunks obj' = Chunks nv ∧ Stripes obj' = Stripes nv)
    as (E1 & E2 & E3 & E4 & E5 & E6 & E7 & E8).
  { subst nv obj'. unfold next_version. repeat case_match; done. }
  rewrite Ho in Hp. cbn zeta. split_and!; try done.
  - by apply GetObject_put.
  - intros prev Hg Hv. rewrite E3. by apply (next_version_succ db (Bucket obj) (Key obj)).
  - intros Hn. rewrite E3. subst nv. unfold next_version. rewrite Hn. by destruct (Version obj =? 0)%Z.
  - rewrite <- Ho, E4. destruct (IsZero (CreatedAt obj)); done.
  - congruence.
  - congruence.
  - intros k' Hk'. apply put_ok in Hp. simpl. eapply get_put_ne; [done | congruence].
Qed.

Lemma normalizeLegacy_without o : normalizeLegacy (without_legacy o) = without_legacy o.
Proof.
  unfold normalizeLegacy. rewrite (bool_decide_true (LegacyChunkID _ = "")) by done.
  by rewrite andb_false_r.
Qed.

Lemma update_object_spec b k f db db' :
  update_object b k f db = (Ok (), db') →
  ∃ o o', GetObject db b k = Ok o ∧ f o = Ok o' ∧
    GetObject db' b k = Ok (normalizeLegacy (without_legacy o')) ∧
    (∀ k', k' ≠ objKey b k → kv_get (objects db') k' = kv_get (objects db) k') ∧
    same_but_objects db db'.
Proof.
  unfold update_object. intros Ho%Update_ok.
  apply rbind_ok in Ho as (o & Hg & Ho). apply rbind_ok in Ho as (o' & Hf & Ho).
  apply rbind_ok in Ho as (m & Hp & Ho). simplify_eq.
  exists (normalizeLegacy o), o'. split_and!; try done.
  - unfold GetObject. by rewrite Hg.
  - by apply GetObject_put.
  - intros k' Hk'. apply put_ok in Hp. simpl. eapply get_put_ne; [done | congruence].
Qed.

(** Moving a chunk's replicas changes that replica list and nothing else:
    same version, chunk ids, sizes and order, same other objects and buckets; it
    succeeds only for an index inside the object's chunk list. *)
Theorem UpdateChunkReplicas_correct b k i r db db' :
  UpdateChunkReplicas b k i r db = (Ok (), db') →
  ∃ o o', GetObject db b k = Ok o ∧ GetObject db' b k = Ok o' ∧
    (0 ≤ i < Z.of_nat (length (Chunks o)))%Z ∧
    Version o' = Version o ∧ chunk_ids o' = chunk_ids o ∧ Size o' = Size o ∧
    Replicas <$> Chunks o' = <[Z.to_nat i := r]> (Replicas <$> Chunks o) ∧
    (∀ k', k' ≠ objKey b k → kv_get (objects db') k' = kv_get (objects db) k') ∧
    same_but_objects db db'.
Proof.
  intros (o & o' & Hg & Hf & Hg' & Hne & Hsame)%update_object_spec.
  destruct (Z.ltb_spec i 0); simpl in Hf; [done|].
  destruct (Z.leb_spec (Z.of_nat (length (Chunks o))) i); [done|].
  set (cs := alter _ _ _) in Hf. injection Hf as <-.
  rewrite normalizeLegacy_without in Hg'. exists o, (without_legacy (with_chunks o cs)).
  split_and!; try done.
  - unfold chunk_ids. simpl. f_equal. subst cs. apply list_eq. intros j.
    rewrite !list_lookup_fmap. destruct (decide (j = Z.to_nat i)) as [->|Hj].
    + rewrite list_lookup_alter_eq. by destruct (Chunks o !! Z.to_nat i).
    + by rewrite list_lookup_alter_ne.
  - simpl. subst cs. apply list_eq. intros j. rewrite list_lookup_fmap.
    destruct (decide (j = Z.to_nat i)) as [->|Hj].
    + rewrite list_lookup_alter_eq, list_lookup_insert_eq by (rewrite length_fmap; lia).
      destruct (lookup_lt_is_Some_2 (Chunks o) (Z.to_nat i)) as [c ->]; [lia | done].
    + rewrite list_lookup_alter_ne, list_lookup_insert_ne, list_lookup_fmap by done. done.
Qed.

(** ** Buckets *)

(** DeleteBucket removes a bucket only when no object of that bucket is
    stored; it refuses exactly when some object key lies under the bucket's
    prefix, and leaves every other bucket and all objects in place. *)
Theorem DeleteBucket_safe name db db' :
  db_ok db → deleteBucketInternal name db = (Ok (), db') →
  (∀ k o, kv_get (objects db) k = Some (Enc o) → Bucket o ≠ name) ∧
  GetBucket db' name = Err ErrNotFound ∧
  (∀ n, n ≠ name → kv_get (buckets db') n = kv_get (buckets db) n) ∧
  objects db' = objects db.
Proof.
  intros Hok. unfold deleteBucketInternal. intros Ho%Update_ok.
  destruct (kv_get (buckets db) name) as [raw|]; [|done].
  unfold BucketHasObjects in Ho.
  pose proof (kv_seek_prefix (objects db) (name ++ "/")%string) as Hseek.
  destruct (match kv_seek _ _ with Some _ => _ | None => _ end); [done|].
  injection Ho as <-. split_and!.
  - intros k o Hg Hb. apply (ok_objects _ Hok) in Hg as Hk. unfold object_at, objKey in Hk.
    rewrite Hb in Hk. destruct Hseek as [_ Hseek]. discriminate Hseek.
    exists (Key o), (Enc o). rewrite <- string_app_assoc. by rewrite <- Hk.
  - unfold GetBucket, get_decoded. simpl. by rewrite get_delete_eq.
  - intros n Hn. simpl. by apply get_delete_ne.
  - done.
Qed.

(** ** Multipart uploads *)
Definition sumZ (l : list Z) : Z := foldr Z.add 0%Z l.

Definition part_matches (ps : gmap Z MultipartPartMeta) (want : CompletePart) (got : MultipartPartMeta) : Prop :=
  ps !! cp_PartNumber want = Some got ∧ (cp_ETag want = "" ∨ cp_ETag want = p_ETag got).

Lemma complete_loop_spec ps parts st st' :
  complete_loop ps parts st = Ok st' → i64 (c_size st) = c_size st →
  ∃ got, completed st' = completed st ++ got ∧ Forall2 (part_matches ps) parts got ∧
    c_chunks st' = c_chunks st ++ concat (p_Chunks <$> got) ∧
    c_size st' = i64 (c_size st + sumZ (p_Size <$> got)) ∧
    Forall (λ w, (prevPart st < cp_PartNumber w)%Z) parts ∧
    StronglySorted Z.lt (cp_PartNumber <$> parts).
Proof.
  revert st. induction parts as [|w parts IH]; intros st Ho Hw; simpl in Ho.
  { inv_ok. exists []. rewrite !app_nil_r. split_and!; try done; try constructor.
    simpl. by rewrite Z.add_0_r. }
  case_match; [done|]. destruct (Z.leb_spec (cp_PartNumber w) (prevPart st)) as [Hle|Hlt]; [done|].
  destruct (ps !! cp_PartNumber w) as [g|] eqn:Hg; [|done]. case_match eqn:Hetag; [done|].
  apply IH in Ho as (got & H1 & H2 & H3 & H4 & H5 & H6);
    [|apply i64_idemp]. cbn [c_size prevPart completed c_chunks] in *.
  exists (g :: got). rewrite H1, H3, fmap_cons, <- !app_assoc. split_and!; try done.
  - constructor; [|done]. split; [done|]. apply andb_false_iff in Hetag.
    rewrite !negb_false_iff, !bool_decide_eq_true in Hetag. done.
  - rewrite H4, i64_add_l, fmap_cons. unfold sumZ. cbn [foldr]. f_equal. lia.
  - constructor; [done|]. eapply Forall_impl; [done|]. simpl. intros. lia.
  - rewrite fmap_cons. constructor; [done|]. by apply Forall_fmap.
Qed.

(** Completing a multipart upload publishes exactly the listed parts: they
    are in strictly increasing number order, each was uploaded with the requested
    ETag, the object's chunks are theirs in that order and its size their sum;
    the upload is gone and no other object or upload is touched. *)
Theorem CompleteMultipartUpload_correct b k u ps now db obj done db' :
  CompleteMultipartUpload_tx b k u ps now db = (Ok (obj, done), db') →
  ∃ up, GetMultipartUpload db b k u = Ok up ∧ ps ≠ [] ∧
    StronglySorted Z.lt (cp_PartNumber <$> ps) ∧ Forall2 (part_matches (Parts up)) ps done ∧
    Chunks obj = concat (p_Chunks <$> done) ∧ Size obj = i64 (sumZ (p_Size <$> done)) ∧
    GetObject db' b k = Ok obj ∧ GetMultipartUpload db' b k u = Err ErrNotFound ∧
    (∀ k', k' ≠ objKey b k → kv_get (objects db') k' = kv_get (objects db) k') ∧
    (∀ k', k' ≠ multipartKey b k u → kv_get (multipart db') k' = kv_get (multipart db) k') ∧
    buckets db' = buckets db ∧ dns_runtime db' = dns_runtime db ∧ urlkeys db' = urlkeys db.
Proof.
  unfold CompleteMultipartUpload_tx. destruct (Nat.eqb_spec (length ps) 0) as [|Hne]; [done|].
  intros Ho%Update_ok. apply rbind_ok in Ho as (up & Hup & Ho).
  apply rbind_ok in Ho as (st & Hst & Ho). cbn zeta in Ho. apply rbind_ok in Ho as (m & Hp & Ho).
  set (o0 := MkObjectMeta _ _ _ _ _ _ _ _ _ _ _ _ _) in *.
  assert (Chunks obj = c_chunks st ∧ Size obj = c_size st ∧ normalizeLegacy obj = obj ∧
          Bucket obj = b ∧ Key obj = k) as (E1 & E2 & E3 & E4 & E5).
  { injection Ho as <- _ _. unfold next_version. repeat case_match; subst o0; simpl;
      unfold normalizeLegacy; simpl; by rewrite andb_false_r. }
  injection Ho as Ho <- <-. rewrite Ho in Hp. apply complete_loop_spec in Hst as
    (got & H1 & H2 & H3 & H4 & H5 & H6); [|done]. simpl in *. rewrite H1, E1, E2, H3.
  exists up. split_and!; try done.
  - by intros ->.
  - unfold GetObject, get_decoded. simpl. apply put_ok in Hp.
    rewrite (get_put_eq _ _ _ _ Hp). simpl. by rewrite E3.
  - unfold GetMultipartUpload, get_decoded. simpl. by rewrite get_delete_eq.
  - intros k' Hk'. apply put_ok in Hp. simpl. eapply get_put_ne; [done | congruence].
  - intros k' Hk'. simpl. apply get_delete_ne. congruence.
Qed.

Lemma fresh_upload_id_some fuel b bucket key ids i :
  (∀ j, j ≤ fuel → is_Some (kv_get b (multipartKey bucket key (ids (i + j))))) ∨
  ∃ id, fresh_upload_id fuel b bucket key ids i = Some id ∧
        kv_get b (multipartKey bucket key id) = None.
Proof.
  revert i. induction fuel as [|fuel IH]; intros i; simpl.
  - destruct (kv_get b (multipartKey bucket key (ids i))) eqn:E; [left | right; eauto].
    intros j Hj. replace (i + j) with i by lia. by rewrite E.
  - destruct (kv_get b (multipartKey bucket key (ids i))) eqn:E; [|right; eauto].
    destruct (IH (i + 1)) as [Hall|?]; [left | by right].
    intros [|j] Hj; [rewrite Nat.add_0_r, E; eauto|].
    replace (i + S j) with (i + 1 + j) by lia. apply Hall. lia.
Qed.

(** The id loop of CreateMultipartUpload ends: if the random ids differ, one
    of the first [n+1] is unused when [n] uploads are pending; the upload gets a
    key no pending upload has, and can be read back. *)
Theorem CreateMultipartUpload_fresh b k ct ids now db :
  Inj (=) (=) ids →
  match CreateMultipartUpload_tx b k ct ids now db with
  | (Err e, db') => e ≠ ErrIDs ∧ db' = db
  | (Ok up, db') =>
      GetMultipartUpload db b k (UploadID up) = Err ErrNotFound ∧
      GetMultipartUpload db' b k (UploadID up) = Ok up ∧ Parts up = ∅ ∧
      is_Some (kv_get (buckets db) b)
  end.
Proof.
  intros Hinj. unfold CreateMultipartUpload_tx. destruct (_ || _); [done|].
  apply Update_cases; [intros e He | intros up db' Ho].
  - split; [|done]. intros ->. destruct (kv_get (buckets db) b); [|done].
    destruct (fresh_upload_id _ _ _ _ _ _) as [id|] eqn:Hid.
    { apply rbind_err in He as [He|(m & _ & He)]; [|done]. unfold put in He. by case_match. }
    destruct (fresh_upload_id_some (length (kv_list (multipart db))) (multipart db) b k ids 0)
      as [Hall|(id & E & _)]; [|congruence].
    set (n := length (kv_list (multipart db))) in *.
    set (ks := (λ j, multipartKey b k (ids j)) <$> seq 0 (S n)).
    assert (length ks ≤ n) as Hlen; [|subst ks; rewrite length_fmap, length_seq in Hlen; lia].
    subst n. rewrite <- (length_fmap fst). apply submseteq_length, NoDup_submseteq.
    + subst ks. apply NoDup_fmap_2_strong; [|apply NoDup_seq].
      intros x y _ _ E. apply Hinj. unfold multipartKey in E. by repeat apply string_app_inv_head in E.
    + intros x (j & -> & Hj%elem_of_seq)%list_elem_of_fmap.
      destruct (Hall j) as [v Hv]; [lia|]. simpl in Hv. apply elem_list in Hv.
      apply list_elem_of_fmap. by exists (multipartKey b k (ids j), v).
  - destruct (kv_get (buckets db) b) as [raw|]; [|done].
    destruct (fresh_upload_id _ _ _ _ _ _) as [id|] eqn:Hid; [|done].
    destruct (fresh_upload_id_some (length (kv_list (multipart db))) (multipart db) b k ids 0)
      as [Hall|(id' & E & Hfree)]; [|rewrite E in Hid; injection Hid as ->].
    { exfalso. clear Ho. revert Hid Hall. generalize 0 (length (kv_list (multipart db))).
      intros i f. revert i. induction f as [|f IH]; intros i Hid Hall; simpl in Hid.
      - destruct (Hall 0) as [v Hv]; [lia|]. rewrite Nat.add_0_r in Hv. by rewrite Hv in Hid.
      - destruct (Hall 0) as [v Hv]; [lia|]. rewrite Nat.add_0_r in Hv. rewrite Hv in Hid.
        apply (IH (i + 1)); [done|]. intros j Hj. replace (i + 1 + j) with (i + S j) by lia.
        apply Hall. lia. }
    apply rbind_ok in Ho as (m & Hp%put_ok & Ho). injection Ho as <- <-. simpl.
    unfold GetMultipartUpload, get_decoded. simpl.
    rewrite Hfree, (get_put_eq _ _ _ _ Hp). split_and!; try done; eauto.
Qed.

(** ** Runtime data nodes *)

(** Labels of runtime DNs: setting a class or domain is read back, keeps the
    other label, and registering the address again clears both labels. *)
Theorem runtime_labels addr class domain now db db1 db2 db3 :
  SetRuntimeDNClass addr class db = (Ok (), db1) →
  SetRuntimeDNDomain addr domain db1 = (Ok (), db2) →
  addRuntimeDNInternal addr now db2 = (Ok (), db3) →
  RuntimeDNClass db1 addr = Ok class ∧ RuntimeDNDomain db1 addr = RuntimeDNDomain db addr ∧
  RuntimeDNClass db2 addr = Ok class ∧ RuntimeDNDomain db2 addr = Ok domain ∧
  RuntimeDNClass db3 addr = Ok "" ∧ RuntimeDNDomain db3 addr = Ok "".
Proof.
  assert (∀ s, default "" (label s) = s) as Hlab.
  { intros s. unfold label. case_bool_decide; by subst. }
  unfold SetRuntimeDNClass, SetRuntimeDNDomain, update_runtime, addRuntimeDNInternal.
  destruct (bool_decide (addr = "")); [done|].
  intros H1%Update_ok H2%Update_ok H3%Update_ok.
  destruct (kv_get (dns_runtime db) addr) as [raw|] eqn:Hg; [|done].
  apply rbind_ok in H1 as (m1 & Hp1%put_ok & H1). injection H1 as <-. simpl in H2.
  rewrite (get_put_eq _ _ _ _ Hp1) in H2. simpl in H2.
  apply rbind_ok in H2 as (m2 & Hp2%put_ok & H2). injection H2 as <-. simpl in H3.
  apply rbind_ok in H3 as (m3 & Hp3%put_ok & H3). injection H3 as <-.
  unfold RuntimeDNClass, RuntimeDNDomain, runtime_label. simpl.
  rewrite Hg, (get_put_eq _ _ _ _ Hp1), (get_put_eq _ _ _ _ Hp2), (get_put_eq _ _ _ _ Hp3).
  simpl. rewrite !Hlab. split_and!; try done. by destruct raw.
Qed.
End props.

(** ** Witnesses, on the finite-map instance *)
Definition mdb : Type := @DB (gmap string).
Definition obj1 : ObjectMeta :=
  MkObjectMeta "photos" "cat.jpg" 3 "image/jpeg" "" [MkChunkRef "c1" 3 ["dn1"; "dn2"]] None [] 0 0 "" "" [].
Definition db0 : mdb := (createBucketInternal "photos" 7 (empty_db : mdb)).2.
Definition db1 : mdb := (putObjectInternal obj1 9 db0).2.
Definition obj1' : ObjectMeta := with_created (with_version obj1 1) 9.

Lemma failed_operation_changes_nothing_witness : (exec (DeleteBucket "photos") db1).2 = db1.
Proof. apply (failed_operation_changes_nothing (DeleteBucket "photos") db1 ErrBucketNotEmpty). reflexivity. Defined.

Lemma PutObject_correct_witness : GetObject db1 "photos" "cat.jpg" = Ok (normalizeLegacy obj1').
Proof. apply (PutObject_correct obj1 9 db0 obj1' db1). reflexivity. Defined.

Lemma UpdateChunkReplicas_correct_witness :
  ∃ o o', GetObject db1 "photos" "cat.jpg" = Ok o ∧ Version o' = Version o.
Proof.
  destruct (UpdateChunkReplicas_correct "photos" "cat.jpg" 0 ["dn3"] db1
    (UpdateChunkReplicas "photos" "cat.jpg" 0 ["dn3"] db1).2) as (o & o' & H & _ & _ & Hv & _);
    [reflexivity | exists o, o'; split; [exact H | exact Hv]].
Defined.

Definition db_empty_bucket : mdb := (createBucketInternal "music" 8 db1).2.
Lemma db_empty_bucket_ok : db_ok db_empty_bucket.
Proof.
  unfold db_empty_bucket, db1, db0. rewrite <- !outcome_snd.
  apply createBucket_ok, putObject_ok, createBucket_ok, empty_db_ok.
Qed.
Lemma DeleteBucket_safe_witness :
  GetBucket (deleteBucketInternal "music" db_empty_bucket).2 "music" = Err ErrNotFound.
Proof.
  apply (DeleteBucket_safe "music" db_empty_bucket (deleteBucketInternal "music" db_empty_bucket).2
    db_empty_bucket_ok). reflexivity.
Defined.

Definition ids1 (n : nat) : string := itoa (Z.of_nat n).
Lemma ids1_inj : Inj (=) (=) ids1.
Proof. intros x y H. apply itoa_inj in H. lia. Qed.
Definition db2 : mdb := (CreateMultipartUpload_tx "photos" "dog.jpg" "image/jpeg" ids1 10 db1).2.
Lemma CreateMultipartUpload_fresh_witness :
  match CreateMultipartUpload_tx "photos" "dog.jpg" "image/jpeg" ids1 10 db1 with
  | (Err e, db') => e ≠ ErrIDs ∧ db' = db1
  | (Ok up, db') =>
      GetMultipartUpload db1 "photos" "dog.jpg" (UploadID up) = Err ErrNotFound ∧
      GetMultipartUpload db' "photos" "dog.jpg" (UploadID up) = Ok up ∧ Parts up = ∅ ∧
      is_Some (kv_get (buckets db1) "photos")
  end.
Proof. exact (CreateMultipartUpload_fresh "photos" "dog.jpg" "image/jpeg" ids1 10 db1 ids1_inj). Defined.

Definition part1 : MultipartPartMeta := MkPart 1 "e1" 5 [MkChunkRef "p1" 5 ["dn1"]] 11.
Definition part2 : MultipartPartMeta := MkPart 2 "e2" 6 [MkChunkRef "p2" 6 ["dn1"]] 11.
Definition db3 : mdb :=
  (PutMultipartPart_tx "photos" "dog.jpg" "0" part1 11
    (PutMultipartPart_tx "photos" "dog.jpg" "0" part2 11 db2).2).2.
Definition complete12 : list CompletePart := [MkCompletePart 1 "e1"; MkCompletePart 2 ""].
Definition obj_dog : ObjectMeta :=
  MkObjectMeta "photos" "dog.jpg" 11 "image/jpeg" (multipart_etag "e1e2" 2)
    [MkChunkRef "p1" 5 ["dn1"]; MkChunkRef "p2" 6 ["dn1"]] None [] 1 12 "" "" [].
Lemma CompleteMultipartUpload_correct_witness :
  ∃ up, GetMultipartUpload db3 "photos" "dog.jpg" "0" = Ok up ∧
    Chunks obj_dog = concat (p_Chunks <$> [part1; part2]).
Proof.
  destruct (CompleteMultipartUpload_correct "photos" "dog.jpg" "0" complete12 12 db3 obj_dog [part1; part2]
    (CompleteMultipartUpload_tx "photos" "dog.jpg" "0" complete12 12 db3).2)
    as (up & H & _ & _ & _ & Hc & _); [|exists up; split; [exact H | exact Hc]].
  vm_compute. reflexivity.
Defined.

Definition db4 : mdb := (addRuntimeDNInternal "dn1:8080" 13 db1).2.
Definition db5 : mdb := (SetRuntimeDNClass "dn1:8080" "hot" db4).2.
Definition db6 : mdb := (SetRuntimeDNDomain "dn1:8080" "rack1" db5).2.
Definition db7 : mdb := (addRuntimeDNInternal "dn1:8080" 14 db6).2.
Lemma runtime_labels_witness : RuntimeDNClass db7 "dn1:8080" = Ok "" ∧ RuntimeDNClass db6 "dn1:8080" = Ok "hot".
Proof.
  destruct (runtime_labels "dn1:8080" "hot" "rack1" 14 db4 db5 db6 db7) as (_ & _ & H1 & _ & H2 & _);
    [reflexivity | reflexivity | reflexivity | split; [exact H2 | exact H1]].
Defined.

