(* ===== verification/Wal.v ===== *)
(** * The write-ahead log: internal/store/wal.go (type WAL)

    The log file is a sequence of tokens: the JSON text of an entry with its
    length, a newline, or a torn fragment of an entry.  A line is the tokens
    between newlines and decodes only when it is one whole entry; the scanner
    also gives up on a line of 1 MiB or more.  I/O outcomes are arguments of the
    operations.  The methods take the mutex, so their critical sections are the
    atomic steps; the flusher's fsync runs between two of them. *)
From S2P Require Import Prelude GoLib.

Section wal.
Context {P : Type}.

Record WALEntry : Type := MkEntry { Seq : Z; Timestamp : Z; Op : P }.

Inductive tok : Type := Rec (e : WALEntry) (len : nat) | Frag | NL.

Inductive wal_error : Type := ErrWrite | ErrFlush | ErrSync | ErrTruncated | ErrClosed.

(** A flush+fsync cycle in progress: the [pending] seq and [epoch] it observed
    and how much of the file its fsync covers. *)
Inductive flusher_phase : Type := Idle | Syncing (pending : Z) (ep : nat) (mark : nat).

Record WAL : Type := MkWAL
  { file : list tok;      (** what was written to the file *)
    nsync : nat;          (** the prefix of it that reached the disk *)
    buf : list tok;       (** bufio.Writer's pending bytes *)
    buf_err : bool;       (** its sticky error *)
    seq : Z; durableSeq : Z; closed : bool; epoch : nat; batched : bool;
    phase : flusher_phase;
    waiters : list (Z * nat);   (** parked Append calls: seq and epoch *)
    acked : list Z }.           (** seqs whose Append returned nil since the last Truncate *)

(** ** Reading the file *)
Fixpoint lines (l cur : list tok) : list (list tok) :=
  match l with
  | [] => match cur with [] => [] | _ => [cur] end
  | NL :: l => cur :: lines l []
  | t :: l => lines l (cur ++ [t])
  end.

Definition max_line : nat := Z.to_nat (1024 * 1024).

Definition decode_line (line : list tok) : option WALEntry :=
  match line with
  | [Rec e len] => if len <? max_line then Some e else None
  | _ => None
  end.

(** [for sc.Scan() { if Unmarshal fails { break } ... }] *)
Fixpoint scan_lines (ls : list (list tok)) : list WALEntry :=
  match ls with
  | [] => []
  | line :: ls => match decode_line line with
                  | None => []
                  | Some e => e :: scan_lines ls
                  end
  end.
Definition scan_file (f : list tok) : list WALEntry := scan_lines (lines f []).

Definition recoverLastSeq (f : list tok) : Z :=
  foldl (λ last e, if (last <? Seq e)%Z then Seq e else last) 0%Z (scan_file f).

(** The file is opened with O_APPEND: what it holds stays. *)
Definition OpenWALWithBatch (f : list tok) (batch : bool) : WAL :=
  let last := recoverLastSeq f in
  MkWAL f (length f) [] false last last false 0 batch Idle [] [].
Definition OpenWAL (f : list tok) : WAL := OpenWALWithBatch f false.

(** ** bufio *)
Definition set_buf (w : WAL) f ns b err : WAL :=
  MkWAL f ns b err (seq w) (durableSeq w) (closed w) (epoch w) (batched w) (phase w) (waiters w) (acked w).

(** [w.w.Flush()]: [None] for success; [Some (n, torn)] when the write of the
    buffer failed after [n] tokens and possibly part of the next one. *)
Definition flush (failure : option (nat * bool)) (w : WAL) : bool * WAL :=
  if buf_err w then (false, w)
  else match failure with
  | None => (true, set_buf w (file w ++ buf w) (nsync w) [] false)
  | Some (n, torn) =>
      (false, set_buf w (file w ++ take n (buf w) ++ (if torn : bool then [Frag] else [])) (nsync w)
                (drop n (buf w)) true)
  end.

(** A full buffer writes some of its bytes out before any Flush. *)
Definition spill (n : nat) (w : WAL) : WAL :=
  if buf_err w then w else set_buf w (file w ++ take n (buf w)) (nsync w) (drop n (buf w)) false.

(** [w.f.Sync()] in one critical section. *)
Definition sync (ok : bool) (w : WAL) : bool * WAL :=
  (ok, if ok then set_buf w (file w) (length (file w)) (buf w) (buf_err w) else w).

(** ** Append *)
Definition set_seq (w : WAL) (s : Z) : WAL :=
  MkWAL (file w) (nsync w) (buf w) (buf_err w) s (durableSeq w) (closed w) (epoch w) (batched w)
    (phase w) (waiters w) (acked w).
Definition ack (w : WAL) (s : Z) : WAL :=
  MkWAL (file w) (nsync w) (buf w) (buf_err w) (seq w) (durableSeq w) (closed w) (epoch w) (batched w)
    (phase w) (waiters w) (s :: acked w).
Definition set_waiters (w : WAL) (l : list (Z * nat)) : WAL :=
  MkWAL (file w) (nsync w) (buf w) (buf_err w) (seq w) (durableSeq w) (closed w) (epoch w) (batched w)
    (phase w) l (acked w).

(** Up to the return (inline mode) or the first [cond.Wait] (batched mode, where
    the result is [None]: see [append_wake]). *)
Definition Append (now : Z) (op : P) (len : nat) (flush_failure : option (nat * bool)) (sync_ok : bool)
    (w : WAL) : option (result wal_error Z) * WAL :=
  let s := i64 (seq w + 1) in
  let w := set_seq w s in
  if buf_err w then (Some (Err ErrWrite), w)
  else
    let w := set_buf w (file w) (nsync w) (buf w ++ [Rec (MkEntry s now op) len; NL]) false in
    if negb (batched w) then
      match flush flush_failure w with
      | (false, w) => (Some (Err ErrFlush), w)
      | (true, w) =>
          match sync sync_ok w with
          | (false, w) => (Some (Err ErrSync), w)
          | (true, w) => (Some (Ok s), ack w s)
          end
      end
    else (None, set_waiters w ((s, epoch w) :: waiters w)).

(** The parked call [(s, ep)] re-checks its condition; [None]: it waits on. *)
Definition append_wake (s : Z) (ep : nat) (w : WAL) : option (result wal_error Z * WAL) :=
  if (durableSeq w <? s)%Z && negb (closed w) && (epoch w =? ep) then None
  else
    let w' := set_waiters w (filter (λ x, x ≠ (s, ep)) (waiters w)) in
    if negb (epoch w =? ep) then Some (Err ErrTruncated, w')
    else if closed w && (durableSeq w <? s)%Z then Some (Err ErrClosed, w')
    else Some (Ok s, ack w' s).

(** ** Group commit *)
Definition set_phase (w : WAL) (p : flusher_phase) : WAL :=
  MkWAL (file w) (nsync w) (buf w) (buf_err w) (seq w) (durableSeq w) (closed w) (epoch w) (batched w)
    p (waiters w) (acked w).

(** [flushOnce] up to releasing the mutex before [f.Sync()]. *)
Definition flush_begin (failure : option (nat * bool)) (w : WAL) : WAL :=
  if (seq w <=? durableSeq w)%Z || closed w then w
  else match flush failure w with
  | (false, w) => w
  | (true, w) => set_phase w (Syncing (seq w) (epoch w) (length (file w)))
  end.

(** The fsync and the second critical section. *)
Definition flush_end (sync_ok : bool) (w : WAL) : WAL :=
  match phase w with
  | Idle => w
  | Syncing pending ep mark =>
      let w := set_phase w Idle in
      if negb sync_ok then w
      else
        (* the fsync was of the file of that epoch *)
        let w := if epoch w =? ep
                 then set_buf w (file w) (Nat.max (nsync w) mark) (buf w) (buf_err w) else w in
        if negb (epoch w =? ep) || closed w then w
        else if (durableSeq w <? pending)%Z
        then MkWAL (file w) (nsync w) (buf w) (buf_err w) (seq w) pending (closed w) (epoch w) (batched w)
               (phase w) (waiters w) (acked w)
        else w
  end.

(** ** Since, Truncate, Close *)
Definition Since (sinceSeq : Z) (flush_failure : option (nat * bool)) (w : WAL)
    : result wal_error (list WALEntry) * WAL :=
  match flush flush_failure w with
  | (false, w) => (Err ErrFlush, w)
  | (true, w) => (Ok (filter (λ e, (sinceSeq < Seq e)%Z) (scan_file (file w))), w)
  end.

(** [WriteSinceTo] streams the same entries; the count is what it returns. *)
Definition WriteSinceTo (sinceSeq : Z) (flush_failure : option (nat * bool)) (w : WAL)
    : result wal_error (nat * list WALEntry) * WAL :=
  match Since sinceSeq flush_failure w with
  | (Err e, w) => (Err e, w)
  | (Ok l, w) => (Ok (length l, l), w)
  end.

Definition LastSeq (w : WAL) : Z := seq w.

(** [os_ok]: the file operations after the flush succeed. *)
Definition Truncate (flush_failure : option (nat * bool)) (os_ok : bool) (w : WAL)
    : result wal_error Z * WAL :=
  let prev := seq w in
  match flush flush_failure w with
  | (false, w) => (Err ErrFlush, w)
  | (true, w) =>
      if negb os_ok then (Err ErrWrite, w)
      else (Ok prev, MkWAL [] 0 [] false 0 0 (closed w) (epoch w + 1) (batched w) (phase w) (waiters w) [])
  end.

(** The errors of the final flush and fsync are dropped. *)
Definition Close (flush_failure : option (nat * bool)) (sync_ok : bool) (w : WAL) : WAL :=
  if closed w then w
  else
    let w := MkWAL (file w) (nsync w) (buf w) (buf_err w) (seq w) (durableSeq w) true (epoch w) (batched w)
               (phase w) (waiters w) (acked w) in
    let '(_, w) := flush flush_failure w in
    let '(_, w) := sync sync_ok w in
    if (durableSeq w <? seq w)%Z
    then MkWAL (file w) (nsync w) (buf w) (buf_err w) (seq w) (seq w) (closed w) (epoch w) (batched w)
           (phase w) (waiters w) (acked w)
    else w.

(** ** Executions *)
Inductive wal_step : WAL → WAL → Prop :=
  | step_append now op len ff so w : (seq w < 2 ^ 63 - 1)%Z → wal_step w (Append now op len ff so w).2
  | step_wake s ep r w w' : (s, ep) ∈ waiters w → append_wake s ep w = Some (r, w') → wal_step w w'
  | step_spill n w : wal_step w (spill n w)
  | step_flush_begin ff w : batched w = true → phase w = Idle → wal_step w (flush_begin ff w)
  | step_flush_end so w : wal_step w (flush_end so w)
  | step_since s ff w : wal_step w (Since s ff w).2
  | step_truncate ff ok w : wal_step w (Truncate ff ok w).2
  | step_close w : buf_err w = false → wal_step w (Close None true w).

Inductive wal_reach (w0 : WAL) : WAL → Prop :=
  | reach_refl : wal_reach w0 w0
  | reach_step w w' : wal_reach w0 w → wal_step w w' → wal_reach w0 w'.

(** ** Well-formed files *)
Definition wf (es : list (WALEntry * nat)) : list tok := es ≫= λ p, [Rec p.1 p.2; NL].
Definition seqs (es : list (WALEntry * nat)) : list Z := (λ p, Seq p.1) <$> es.

Lemma seqs_app es es' : seqs (es ++ es') = seqs es ++ seqs es'.
Proof. apply fmap_app. Qed.
Lemma wf_app es es' : wf (es ++ es') = wf es ++ wf es'.
Proof. unfold wf. by rewrite bind_app. Qed.
Lemma wf_cons p es : wf (p :: es) = Rec p.1 p.2 :: NL :: wf es.
Proof. done. Qed.

Lemma wf_prefix es es' l : wf es ++ l = wf es' → ∃ es2, es' = es ++ es2.
Proof.
  revert es'. induction es as [|[e n] es IH]; intros es' E; [by exists es'|].
  destruct es' as [|[e' n'] es']; [done|]. rewrite !wf_cons in E. simpl in E. simplify_eq.
  destruct (IH es') as [es2 ->]; [done|]. by exists es2.
Qed.

Lemma lines_wf es l : lines (wf es ++ l) [] = ((λ p, [Rec p.1 p.2]) <$> es) ++ lines l [].
Proof.
  induction es as [|[e n] es IH]; [done|]. rewrite wf_cons, fmap_cons. simpl. by rewrite IH.
Qed.

Definition fits (es : list (WALEntry * nat)) : Prop := Forall (λ p, p.2 < max_line) es.

Lemma fits_of_file es : (∀ e n, Rec e n ∈ wf es → n < max_line) → fits es.
Proof.
  intros Hfit. apply Forall_forall. intros [e n] Hin. simpl. apply (Hfit e n).
  unfold wf. apply list_elem_of_bind. exists (e, n). split; [by left | done].
Qed.

Lemma scan_wf es l : fits es → scan_file (wf es ++ l) = es.*1 ++ scan_file l.
Proof.
  unfold scan_file. rewrite lines_wf. induction 1 as [|[e n] es Hn Hf IH]; [done|].
  rewrite !fmap_cons. cbn [app scan_lines decode_line fst snd]. simpl in Hn.
  destruct (Nat.ltb_spec n max_line); [|lia]. by rewrite IH.
Qed.

Lemma scan_wf_nil es : fits es → scan_file (wf es) = es.*1.
Proof. intros Hf. rewrite <- (app_nil_r (wf es)), scan_wf by done. apply app_nil_r. Qed.

Lemma foldl_max_ge (l : list WALEntry) a :
  (a ≤ foldl (λ last e, if (last <? Seq e)%Z then Seq e else last) a l)%Z.
Proof.
  revert a. induction l as [|e l IH]; intros a; [done|]. cbn [foldl].
  etransitivity; [|apply IH]. destruct (Z.ltb_spec a (Seq e)); lia.
Qed.

(** ** The invariant of an execution *)
Record inv (base : Z) (w : WAL) : Prop := MkInv
  { inv_order : (0 ≤ base ≤ durableSeq w)%Z ∧ (durableSeq w ≤ seq w)%Z ∧ nsync w ≤ length (file w);
    inv_synced : ∃ es, take (nsync w) (file w) = wf es ∧
      (∀ s, (base < s ≤ durableSeq w)%Z → s ∈ seqs es) ∧ (∀ s, s ∈ acked w → s ∈ seqs es);
    inv_written : buf_err w = false →
      ∃ es, file w ++ buf w = wf es ∧ (∀ s, (base < s ≤ seq w)%Z → s ∈ seqs es) ∧
        StronglySorted Z.lt (seqs es) ∧ (∀ s, s ∈ seqs es → (s ≤ seq w)%Z);
    inv_phase : ∀ p ep mark, phase w = Syncing p ep mark → ep = epoch w →
      mark ≤ length (file w) ∧ (p ≤ seq w)%Z ∧
      ∃ es, take mark (file w) = wf es ∧ (∀ s, (base < s ≤ p)%Z → s ∈ seqs es);
    inv_phase_epoch : ∀ p ep mark, phase w = Syncing p ep mark → ep ≤ epoch w;
    inv_waiters : ∀ s ep, (s, ep) ∈ waiters w → ep ≤ epoch w ∧ (ep = epoch w → (base < s)%Z) }.

(** A log as previous runs leave it: whole lines in sequence order. *)
Definition log_ok (f : list tok) : Prop :=
  ∃ es, f = wf es ∧ fits es ∧ StronglySorted Z.lt (seqs es).

Lemma foldl_max_all (l : list WALEntry) a e :
  e ∈ l → (Seq e ≤ foldl (λ last e, if (last <? Seq e)%Z then Seq e else last) a l)%Z.
Proof.
  revert a. induction l as [|e' l IH]; intros a; [by intros ?%not_elem_of_nil|].
  intros [->|Hin]%elem_of_cons; cbn [foldl]; [|by apply IH].
  etransitivity; [|apply foldl_max_ge]. destruct (Z.ltb_spec a (Seq e')); lia.
Qed.

Lemma inv_open f b : log_ok f → inv (recoverLastSeq f) (OpenWALWithBatch f b).
Proof.
  intros (es & -> & Hfit & Hss). assert (0 ≤ recoverLastSeq (wf es))%Z by apply foldl_max_ge.
  split; simpl; try done.
  - exists es. rewrite firstn_all. split_and!; [done | intros; lia | intros s Hs; by apply not_elem_of_nil in Hs].
  - intros _. exists es. rewrite app_nil_r. split_and!; [done | intros; lia | done |].
    intros s (p & -> & Hp)%list_elem_of_fmap. apply foldl_max_all. rewrite scan_wf_nil by done.
    apply list_elem_of_fmap. by exists p.
  - intros s ep Hs. by apply not_elem_of_nil in Hs.
Qed.

Lemma take_app_le {A} n (l k : list A) : n ≤ length l → take n (l ++ k) = take n l.
Proof. intros. rewrite take_app. replace (n - length l) with 0 by lia. by rewrite take_0, app_nil_r. Qed.

(** Only appending to the file keeps what was said of its prefixes. *)
Lemma inv_grow base w k b err :
  inv base w →
  (err = false → buf_err w = false ∧ k ++ b = buf w) →
  inv base (set_buf w (file w ++ k) (nsync w) b err).
Proof.
  intros [(Ho1 & Ho2 & Ho3) Hs Hw Hp Hpe Hwt] Hb. split; simpl; try done.
  - rewrite length_app. split_and!; lia.
  - by rewrite take_app_le.
  - intros ->. destruct (Hb eq_refl) as [Herr Hkb]. rewrite <- app_assoc, Hkb. auto.
  - intros p ep mark Hph Hep. destruct (Hp p ep mark Hph Hep) as (Hm & Hq & Hes).
    rewrite length_app, take_app_le by done. split_and!; [lia | lia | done].
Qed.

Lemma inv_flush base ff w : inv base w → inv base (flush ff w).2.
Proof.
  intros Hi. unfold flush. destruct (buf_err w) eqn:He; [done|].
  destruct ff as [[n torn]|]; simpl.
  - by apply inv_grow.
  - apply inv_grow; [done|]. by rewrite app_nil_r.
Qed.

Lemma flush_true ff w w' :
  flush ff w = (true, w') → buf_err w = false ∧ w' = set_buf w (file w ++ buf w) (nsync w) [] false.
Proof.
  unfold flush. destruct (buf_err w); [done|]. destruct ff as [[n torn]|]; [done|]. by intros [= <-].
Qed.

(** After a successful flush an fsync covers everything written so far. *)
Lemma inv_sync base w :
  inv base w → buf w = [] → buf_err w = false →
  inv base (sync true w).2 ∧ ∃ es, take (nsync (sync true w).2) (file w) = wf es ∧
    (∀ s, (base < s ≤ seq w)%Z → s ∈ seqs es).
Proof.
  intros [(Ho1 & Ho2 & Ho3) Hs Hw Hp Hpe Hwt] Hb He. simpl. rewrite firstn_all.
  destruct (Hw He) as (es & Hes & Hall & _). rewrite Hb, app_nil_r in Hes.
  split; [|by exists es]. split; simpl; try done.
  - rewrite firstn_all. exists es. split; [done|]. destruct Hs as (es0 & Htake & Hd & Ha).
    assert (∃ es2, es = es0 ++ es2) as [es2 ->].
    { apply (wf_prefix es0 es (drop (nsync w) (file w))). by rewrite <- Htake, take_drop. }
    split; [intros; apply Hall; lia|].
    intros s Hs. rewrite seqs_app. apply elem_of_app. left. by apply Ha.
Qed.

Lemma inv_ack base w s :
  inv base w →
  (∃ es, take (nsync w) (file w) = wf es ∧ s ∈ seqs es) → inv base (ack w s).
Proof.
  intros [Ho Hs Hw Hp Hpe Hwt] (es & Hes & Hin). split; simpl; try done.
  destruct Hs as (es' & Hes' & Hd & Ha). exists es'. split_and!; try done.
  assert (es' = es) as ->.
  { rewrite Hes in Hes'. clear -Hes'. revert es' Hes'. induction es as [|[e n] es IH]; intros [|[e' n'] es'];
      rewrite ?wf_cons; intros E; simplify_eq/=; [done|]. f_equal. auto. }
  intros s' [->|?]%elem_of_cons; auto.
Qed.

Lemma inv_set_waiters base w l :
  inv base w → (∀ s ep, (s, ep) ∈ l → ep ≤ epoch w ∧ (ep = epoch w → (base < s)%Z)) →
  inv base (set_waiters w l).
Proof. intros [Ho Hs Hw Hp Hpe Hwt] Hl. by split. Qed.

(** Writing the next entry into the buffer. *)
Lemma inv_write base w now op len :
  inv base w → buf_err w = false → (seq w < 2 ^ 63 - 1)%Z →
  let s := i64 (seq w + 1) in
  s = (seq w + 1)%Z ∧
  inv base (set_buf (set_seq w s) (file w) (nsync w) (buf w ++ [Rec (MkEntry s now op) len; NL]) false).
Proof.
  intros [(Ho1 & Ho2 & Ho3) Hs Hw Hp Hpe Hwt] He Hq s.
  assert (s = (seq w + 1)%Z) as Es by (subst s; apply i64_small; lia). split; [done|].
  split; simpl; try done.
  - split_and!; lia.
  - intros _. destruct (Hw He) as (es & Hes & Hall & Hss & Hle). exists (es ++ [(MkEntry s now op, len)]).
    rewrite wf_app, app_assoc, Hes, seqs_app. split_and!; [done | | |].
    + intros s' Hs'. apply elem_of_app. destruct (decide (s' = s)) as [->|].
      * right. simpl. by left.
      * left. apply Hall. lia.
    + apply StronglySorted_app_2; [|done | repeat constructor].
      intros x1 x2 Hx1 [->|?%not_elem_of_nil]%elem_of_cons; [|done]. simpl. apply Hle in Hx1. lia.
    + intros s' [Hs'|[->|?%not_elem_of_nil]%elem_of_cons]%elem_of_app; [|simpl; lia |done].
      apply Hle in Hs'. lia.
  - intros p ep mark Hph Hep. destruct (Hp p ep mark Hph Hep) as (? & ? & ?). split_and!; [lia | lia | done].
Qed.

Lemma inv_set_seq base w s : inv base w → buf_err w = true → (seq w ≤ s)%Z → inv base (set_seq w s).
Proof.
  intros [(Ho1 & Ho2 & Ho3) Hs Hw Hp Hpe Hwt] He Hq. split; simpl; try done.
  - split_and!; lia.
  - by rewrite He.
  - intros p ep mark Hph Hep. destruct (Hp p ep mark Hph Hep) as (? & ? & ?). split_and!; [lia | lia | done].
Qed.

Lemma inv_append base now op len ff so w :
  (seq w < 2 ^ 63 - 1)%Z → inv base w → inv base (Append now op len ff so w).2.
Proof.
  intros Hq Hi. unfold Append. pose proof (inv_order _ _ Hi) as (Ho1 & Ho2 & Ho3).
  destruct (buf_err w) eqn:He; cbn [buf_err set_seq]; rewrite He.
  { apply inv_set_seq; [done | done |]. rewrite i64_small; lia. }
  destruct (inv_write base w now op len Hi He Hq) as [Es Hi1].
  set (s := i64 (seq w + 1)) in *. cbn [file nsync buf set_seq] in *.
  set (w1 := set_buf _ _ _ _ _) in *.
  destruct (batched w1); cbn [negb].
  { apply inv_set_waiters; [done|]. intros s' ep [[= -> ->]|Hin]%elem_of_cons.
    - split; [done|]. intros _. lia.
    - by apply (inv_waiters _ _ Hi1). }
  pose proof (inv_flush base ff w1 Hi1) as Hi2.
  destruct (flush ff w1) as [[] w2] eqn:Hfl; [|done]. simpl in Hi2.
  apply flush_true in Hfl as [_ Ew2].
  destruct so; [|done]. destruct (inv_sync base w2) as [Hi3 (es & Hes & Hall)]; [done | by rewrite Ew2..|].
  destruct (sync true w2) as [[] w3] eqn:Hsy; simplify_eq/=.
  apply inv_ack; [done|]. injection Hsy as <-. exists es. split; [exact Hes|]. apply Hall. lia.
Qed.

Lemma inv_wake base s ep r w w' :
  (s, ep) ∈ waiters w → append_wake s ep w = Some (r, w') → inv base w → inv base w'.
Proof.
  intros Hin Hw Hi. unfold append_wake in Hw.
  destruct (_ && _ && _) eqn:Hcond; [done|].
  set (w1 := set_waiters w _) in *.
  assert (inv base w1) as Hi1.
  { apply inv_set_waiters; [done|]. intros s' ep' [_ Hin']%list_elem_of_filter.
    by apply (inv_waiters _ _ Hi). }
  destruct (Nat.eqb_spec (epoch w) ep) as [Hep|Hep]; cbn [negb] in Hw; [|by simplify_eq].
  destruct (closed w && (durableSeq w <? s)%Z) eqn:Hc; simplify_eq; [done|].
  apply inv_ack; [done|]. destruct (inv_synced _ _ Hi1) as (es & Hes & Hd & _).
  exists es. split; [done|]. apply Hd. simpl.
  destruct (inv_waiters _ _ Hi _ _ Hin) as [_ Hb]. specialize (Hb eq_refl). split; [done|].
  rewrite andb_true_r in Hcond.
  destruct (Z.ltb_spec (durableSeq w) s); [|done]. by destruct (closed w).
Qed.

Lemma inv_set_phase base w p :
  inv base w →
  (∀ q ep mark, p = Syncing q ep mark → ep = epoch w ∧ mark ≤ length (file w) ∧ (q ≤ seq w)%Z ∧
     ∃ es, take mark (file w) = wf es ∧ (∀ s, (base < s ≤ q)%Z → s ∈ seqs es)) →
  inv base (set_phase w p).
Proof.
  intros [Ho Hs Hw Hp Hpe Hwt] Hq. split; simpl; try done.
  - intros q ep mark Hph Hep. by destruct (Hq q ep mark Hph).
  - intros q ep mark Hph. by destruct (Hq q ep mark Hph) as [-> _].
Qed.

Lemma inv_flush_begin base ff w : inv base w → inv base (flush_begin ff w).
Proof.
  intros Hi. unfold flush_begin. destruct (_ || _); [done|].
  pose proof (inv_flush base ff w Hi) as Hi1.
  destruct (flush ff w) as [[] w1] eqn:Hfl; [|done]. apply flush_true in Hfl as [He Ew]. simpl in Hi1.
  apply inv_set_phase; [done|]. intros q ep mark [= <- <- <-].
  destruct (inv_written _ _ Hi1) as (es & Hes & Hall & _); [by subst w1|].
  assert (buf w1 = []) as Hb by (by subst w1). rewrite Hb, app_nil_r in Hes.
  split_and!; try done. exists es. by rewrite firstn_all.
Qed.

Lemma inv_flush_end base so w : inv base w → inv base (flush_end so w).
Proof.
  intros Hi. unfold flush_end. destruct (phase w) as [|pending ep mark] eqn:Hph; [done|].
  assert (inv base (set_phase w Idle)) as Hi1 by (by apply inv_set_phase).
  destruct so; cbn [negb]; [|done]. cbn [epoch set_phase].
  destruct (Nat.eqb_spec (epoch w) ep) as [<-|Hep].
  2:{ cbn [epoch set_phase]. rewrite (proj2 (Nat.eqb_neq (epoch w) ep) Hep). done. }
  cbn [epoch set_buf set_phase]. rewrite Nat.eqb_refl.
  destruct (inv_phase _ _ Hi pending (epoch w) mark Hph eq_refl) as (Hm & Hq & es & Hes & Hall).
  destruct (inv_order _ _ Hi) as (Ho1 & Ho2 & Ho3).
  destruct (inv_synced _ _ Hi) as (es0 & Hes0 & Hd & Ha).
  (* the longer of the two prefixes covers both *)
  assert (∃ es2, take (Nat.max (nsync w) mark) (file w) = wf es2 ∧
    (∀ s, s ∈ seqs es0 → s ∈ seqs es2) ∧ (∀ s, s ∈ seqs es → s ∈ seqs es2)) as (es2 & Hes2 & Hsub0 & Hsub).
  { assert (∀ a b ea eb, a ≤ b → take a (file w) = wf ea → take b (file w) = wf eb →
      ∀ s, s ∈ seqs ea → s ∈ seqs eb) as Hmono.
    { intros a b ea eb Hab Hea Heb s Hin.
      destruct (wf_prefix ea eb (drop a (take b (file w)))) as [e2 ->].
      - rewrite <- Hea, <- Heb. rewrite <- (take_drop a (take b (file w))) at 2.
        rewrite take_take. by replace (a `min` b) with a by lia.
      - rewrite seqs_app. apply elem_of_app. by left. }
    destruct (decide (mark ≤ nsync w)).
    - rewrite Nat.max_l by done. exists es0. split_and!; eauto.
    - rewrite Nat.max_r by lia. exists es. split_and!; [done | |done].
      apply (Hmono (nsync w) mark); [lia | done | done]. }
  assert (∀ d c, (durableSeq w ≤ d)%Z → (d ≤ Z.max (durableSeq w) pending)%Z →
    inv base (MkWAL (file w) (Nat.max (nsync w) mark) (buf w) (buf_err w) (seq w) d c
                (epoch w) (batched w) Idle (waiters w) (acked w))) as Hnew.
  { intros d c Hd1 Hd2. destruct Hi1 as [_ _ Hw _ _ Hwt]. split; simpl; try done.
    - split_and!; lia.
    - exists es2. split_and!; [done | |eauto]. intros s Hs.
      destruct (decide (s ≤ durableSeq w)%Z); [apply Hsub0, Hd; lia | apply Hsub, Hall; lia]. }
  cbn [negb orb]. cbn [closed set_buf set_phase].
  destruct (closed w) at 1; [apply (Hnew (durableSeq w) (closed w)); lia|].
  cbn [durableSeq set_buf set_phase].
  destruct (Z.ltb_spec (durableSeq w) pending) as [Hlt|Hge];
    [apply (Hnew pending (closed w)); lia | apply (Hnew (durableSeq w) (closed w)); lia].
Qed.

Lemma inv_truncate base ff ok w : inv base w → ∃ base', inv base' (Truncate ff ok w).2.
Proof.
  intros Hi. unfold Truncate. pose proof (inv_flush base ff w Hi) as Hi1.
  destruct (flush ff w) as [[] w1]; [|eauto]. destruct ok; cbn [negb]; [|eauto].
  exists 0%Z. cbn [snd] in Hi1. destruct Hi1 as [Ho Hs Hw Hp Hpe Hwt]. split; simpl; try done.
  - exists []. split_and!; [done | intros; lia | done].
  - intros _. exists []. split_and!; [done | intros; lia | constructor | by intros s ?%not_elem_of_nil].
  - intros p ep mark Hph ->. specialize (Hpe _ _ _ Hph). exfalso. lia.
  - intros p ep mark Hph. specialize (Hpe _ _ _ Hph). lia.
  - intros s ep Hin. destruct (Hwt _ _ Hin). split; [lia|]. intros ->. lia.
Qed.

Lemma inv_close base w : inv base w → buf_err w = false → inv base (Close None true w).
Proof.
  intros Hi He. unfold Close. destruct (closed w) eqn:Hcl; [done|].
  set (w0 := MkWAL _ _ _ _ _ _ true _ _ _ _ _).
  assert (inv base w0) as Hi0 by (destruct Hi; by split).
  pose proof (inv_flush base None w0 Hi0) as Hi1. unfold flush in *. cbn [buf_err w0] in *.
  rewrite He in *. cbn [snd] in Hi1. set (w1 := set_buf w0 _ _ _ _) in *.
  destruct (inv_sync base w1) as [Hi2 (es & Hes & Hall)]; [done..|].
  destruct (sync true w1) as [b w2] eqn:Hsy. cbn [snd] in *.
  assert (seq w2 = seq w ∧ file w2 = file w1) as [Eseq Efile] by (by injection Hsy as _ <-).
  change (seq w1) with (seq w) in Hall. rewrite <- Efile in Hes. rewrite <- Eseq in Hall.
  clearbody w1. destruct (Z.ltb_spec (durableSeq w2) (seq w2)); [|done].
  destruct Hi2 as [(Ho1 & Ho2 & Ho3) Hs Hw Hp Hpe Hwt]. simpl in *. split; simpl; try done.
  - split_and!; lia.
  - destruct Hs as (es' & Hes' & Hd & Ha). exists es'. split_and!; try done.
    intros s Hs'. rewrite Hes in Hes'. 
    destruct (wf_prefix es es' []) as [e2 ->]; [by rewrite app_nil_r|].
    rewrite seqs_app. apply elem_of_app. left. by apply Hall.
Qed.

Lemma inv_reach w0 w base : inv base w0 → wal_reach w0 w → ∃ base', inv base' w.
Proof.
  intros Hi. induction 1 as [|w w' Hr IH Hs]; [eauto|]. destruct IH as [b Hb].
  inversion Hs; subst; clear Hs.
  - exists b. by apply inv_append.
  - exists b. by eapply inv_wake.
  - exists b. unfold spill. destruct (buf_err w) eqn:He; [done|]. apply inv_grow; [done|].
    intros _. split; [done | apply take_drop].
  - exists b. by apply inv_flush_begin.
  - exists b. by apply inv_flush_end.
  - exists b. unfold Since. pose proof (inv_flush b ff w Hb) as Hf. by destruct (flush ff w) as [[] ?].
  - by eapply inv_truncate.
  - exists b. by apply inv_close.
Qed.


(** Since misses nothing and repeats nothing: unless an earlier write failed,
    it returns entries with strictly increasing sequence numbers above the given
    one, among them every acknowledged append above it. *)
Theorem Since_returns_acknowledged f b w w' s0 l :
  log_ok f → wal_reach (OpenWALWithBatch f b) w → buf_err w = false →
  (∀ e n, Rec e n ∈ file w ++ buf w → n < max_line) →
  Since s0 None w = (Ok l, w') →
  StronglySorted Z.lt (Seq <$> l) ∧ (∀ e, e ∈ l → (s0 < Seq e ≤ seq w)%Z) ∧
  (∀ s, s ∈ acked w → (s0 < s)%Z → ∃ e, e ∈ l ∧ Seq e = s).
Proof.
  intros Hf Hr He Hfit Hs. destruct (inv_reach _ _ _ (inv_open f b Hf) Hr) as [base Hi].
  unfold Since, flush in Hs. rewrite He in Hs. injection Hs as <- <-. cbn [file set_buf].
  destruct (inv_written _ _ Hi He) as (es & Hes & _ & Hss & Hle). rewrite Hes in Hfit |- *.
  rewrite scan_wf_nil by (by apply fits_of_file).
  destruct (inv_synced _ _ Hi) as (es0 & Hes0 & _ & Ha).
  assert (seqs es = Seq <$> es.*1) as Eseqs by (by rewrite <- list_fmap_compose).
  rewrite Eseqs in *. split_and!.
  - clear -Hss. induction es.*1 as [|e l IH]; [constructor|]. rewrite fmap_cons in Hss.
    apply StronglySorted_cons in Hss as [Hall Hss]. rewrite filter_cons.
    case_decide; [|by apply IH]. rewrite fmap_cons. constructor; [by apply IH|].
    rewrite Forall_fmap in Hall |- *. rewrite Forall_forall in Hall |- *.
    intros x [_ Hx]%list_elem_of_filter. by apply Hall.
  - intros e [Hlt Hin]%list_elem_of_filter. split; [done|]. apply Hle, list_elem_of_fmap. eauto.
  - intros s Hin Hlt. apply Ha in Hin.
    destruct (wf_prefix es0 es (drop (nsync w) (file w) ++ buf w)) as [es2 ->].
    { by rewrite app_assoc, <- Hes0, take_drop. }
    apply list_elem_of_fmap in Hin as ([e n] & -> & Hp). exists e. split; [|done].
    apply list_elem_of_filter. split; [done|]. rewrite fmap_app. apply elem_of_app. left.
    apply list_elem_of_fmap. by exists (e, n).
Qed.

(** ** Where the log falls short of its comments *)

Lemma lines_frag_rec es e n :
  lines (wf es ++ [Frag; Rec e n; NL]) [] = ((λ p, [Rec p.1 p.2]) <$> es) ++ [[Frag; Rec e n]].
Proof. by rewrite lines_wf. Qed.

(** A crash in the middle of a write leaves a torn last line, and the file is
    reopened for appending after it: the next Append reports success and is
    fsynced, but its line never decodes, so neither Since nor the next start sees
    the entry, and the next start hands out its sequence number again. *)
Theorem append_after_torn_tail_is_lost es now op len :
  fits es →
  let f := wf es ++ [Frag] in
  let s := i64 (recoverLastSeq f + 1) in
  let r := Append now op len None true (OpenWAL f) in
  r.1 = Some (Ok s) ∧ nsync r.2 = length (file r.2) ∧
  scan_file (file r.2) = es.*1 ∧ recoverLastSeq (file r.2) = recoverLastSeq f.
Proof.
  intros Hfit f s r.
  assert (file r.2 = wf es ++ [Frag; Rec (MkEntry s now op) len; NL]) as Hfile.
  { subst r f. unfold Append, OpenWAL, OpenWALWithBatch. simpl. by rewrite <- app_assoc. }
  assert (scan_file f = es.*1) as Hf.
  { subst f. rewrite scan_wf by done. apply app_nil_r. }
  assert (scan_file (file r.2) = es.*1) as Hr.
  { rewrite Hfile. rewrite scan_wf by done. apply app_nil_r. }
  split_and!; [done | done | done |]. unfold recoverLastSeq. by rewrite Hr, Hf.
Qed.

(** An entry of 1 MiB or more hides itself and everything after it. *)
Theorem oversized_entry_hides_the_rest es e n l :
  fits es → max_line ≤ n → scan_file (wf es ++ Rec e n :: NL :: l) = es.*1.
Proof.
  intros Hfit Hn. rewrite scan_wf by done. unfold scan_file. cbn [lines app scan_lines decode_line].
  destruct (Nat.ltb_spec n max_line); [lia|]. apply app_nil_r.
Qed.

(** bufio's error is sticky: after one failed flush no tick ever succeeds. *)
Theorem flush_error_is_permanent ff w : buf_err w = true → flush_begin ff w = w.
Proof. intros He. unfold flush_begin, flush. rewrite He. by destruct (_ || _). Qed.

(** Close drops the errors of its final flush and fsync and still declares the
    pending entries durable: a parked Append then returns success for an entry
    that was never written. *)
Theorem close_acknowledges_a_lost_write now op len :
  let w1 := (Append now op len None true (OpenWALWithBatch [] true)).2 in
  let w2 := Close (Some (0, false)) false w1 in
  ∃ w3, append_wake 1 0 w2 = Some (Ok 1%Z, w3) ∧ acked w3 = [1%Z] ∧ file w3 = [] ∧ nsync w3 = 0.
Proof. simpl. eexists. split; [reflexivity|]. done. Qed.
End wal.
Arguments WALEntry P : clear implicits.
Arguments tok P : clear implicits.
Arguments WAL P : clear implicits.

(** ** Witnesses *)
Definition w_batch : WAL nat := OpenWALWithBatch [] true.
Definition w_appended : WAL nat := (Append 5 7 40 None true w_batch).2.
Definition w_flushed : WAL nat := flush_end true (flush_begin None w_appended).
Definition w_acked : WAL nat := (default (Err ErrClosed, w_flushed) (append_wake 1 0 w_flushed)).2.
Lemma w_acked_reach : wal_reach (OpenWALWithBatch [] true) w_acked.
Proof.
  apply (reach_step _ w_flushed).
  - apply (reach_step _ (flush_begin None w_appended)); [|apply step_flush_end].
    apply (reach_step _ w_appended); [|by apply step_flush_begin].
    apply (reach_step _ w_batch); [apply reach_refl|]. apply step_append. vm_compute. reflexivity.
  - apply (step_wake 1 0 (Ok 1%Z)); [by left | reflexivity].
Qed.
Lemma log_ok_nil : log_ok (P := nat) [].
Proof. exists []. split_and!; constructor. Qed.
Lemma small_line : 40 < max_line.
Proof. apply Nat2Z.inj_lt. unfold max_line. rewrite Z2Nat.id; lia. Qed.
Lemma w_acked_fits : ∀ e n, Rec e n ∈ file w_acked ++ buf w_acked → n < max_line.
Proof.
  intros e n Hin. change (Rec e n ∈ [Rec (MkEntry 1 5 7) 40; NL]) in Hin.
  apply elem_of_cons in Hin as [[= _ ->]|[?|?%not_elem_of_nil]%elem_of_cons]; [|done..].
  apply small_line.
Qed.
Lemma Since_w_acked : Since 0 None w_acked = (Ok [MkEntry 1 5 7], set_buf w_acked (file w_acked) 2 [] false).
Proof.
  unfold Since, flush. cbn [buf_err]. change (buf_err w_acked) with false. cbv iota.
  change (file w_acked ++ buf w_acked) with (wf [(MkEntry 1 5 7, 40)]).
  cbn [file set_buf]. rewrite scan_wf_nil; [done|]. constructor; [apply small_line | constructor].
Qed.
Lemma Since_returns_acknowledged_witness : ∃ e, e ∈ [MkEntry 1 5 7] ∧ Seq e = 1%Z.
Proof.
  destruct (Since_returns_acknowledged [] true w_acked _ 0 [MkEntry 1 5 7]
    log_ok_nil w_acked_reach eq_refl w_acked_fits Since_w_acked) as (_ & _ & H).
  apply H; [by left | lia].
Defined.
