(* ===== verification/Replay.v ===== *)
(** * Replication by replay: internal/store/wal.go (ApplyEntry, ApplyAll, appendWAL)

    Every logged mutation of the leader's store appends one entry (several for
    AbortExpiredMultipartUploads) whose arguments are those below; a follower
    applies the entries in order to its own database. *)
From S2P Require Import Prelude GF GoLib Kv Meta Store StoreProps Wal.

(** The decoded arguments; [OpUnknown] is an unknown op or undecodable arguments. *)
Inductive walop : Type :=
  | OpPutObject (obj : ObjectMeta)
  | OpDeleteObject (bucket key : string)
  | OpCreateBucket (meta : BucketMeta)
  | OpDeleteBucket (name : string)
  | OpCreateMultipartUpload (meta : MultipartUploadMeta)
  | OpPutMultipartPart (bucket key uploadID : string) (part : MultipartPartMeta)
  | OpCompleteMultipartUpload (bucket key uploadID : string) (obj : option ObjectMeta)
  | OpAbortMultipartUpload (bucket key uploadID : string)
  | OpAddRuntimeDN (addr : string)
  | OpRemoveRuntimeDN (addr : string)
  | OpUnknown.

Section replay.
Context {M : Type → Type} {KVM : KV M} {HKV : KVLaws M}.
(** The time of registration does not decide whether bbolt accepts a record. *)
Context (runtime_put : ∀ addr t t' (m1 m2 m1' : M (stored RuntimeDN)),
  kv_put m1 addr (Enc (MkRuntimeDN addr (Some t) None None)) = Ok m1' →
  ∃ m2', kv_put m2 addr (Enc (MkRuntimeDN addr (Some t') None None)) = Ok m2').
Implicit Types db : @DB M.

(** ** The follower *)
Inductive apply_error : Type := ErrApply (e : store_error) | ErrUnknownOp.

Definition applied {A} (r : result store_error A * @DB M) : option apply_error * DB :=
  match r with (Ok _, db) => (None, db) | (Err e, db) => (Some (ErrApply e), db) end.

Definition ApplyEntry (e : WALEntry walop) (now : Z) (db : DB) : option apply_error * DB :=
  match Op e with
  | OpPutObject obj => applied (putObjectInternal obj now db)
  | OpDeleteObject b k => applied (deleteObjectInternal b k db)
  | OpCreateBucket meta => applied (createBucketReplay meta now db)
  | OpDeleteBucket name => applied (deleteBucketInternal name db)
  | OpCreateMultipartUpload up => applied (putMultipartUploadReplay up now db)
  | OpPutMultipartPart b k u part => applied (putMultipartPartInternal b k u part db)
  | OpCompleteMultipartUpload b k u obj => applied (completeMultipartReplay b k u obj db)
  | OpAbortMultipartUpload b k u =>
      match abortMultipartUploadInternal b k u db with
      | (Err ErrNotFound, db) => (None, db)
      | r => applied r
      end
  | OpAddRuntimeDN addr => applied (addRuntimeDNInternal addr now db)
  | OpRemoveRuntimeDN addr => applied (removeRuntimeDNInternal addr db)
  | OpUnknown => (Some ErrUnknownOp, db)
  end.

(** Stops at the first error. *)
Fixpoint ApplyAll (entries : list (WALEntry walop)) (now : Z) (db : DB) : option apply_error * DB :=
  match entries with
  | [] => (None, db)
  | e :: entries =>
      match ApplyEntry e now db with
      | (None, db) => ApplyAll entries now db
      | (Some err, db) => (Some err, db)
      end
  end.

(** ** The leader: what each mutation hands to [appendWAL] when it succeeded *)
Definition log1 {A} (f : A → walop) (r : result store_error A * @DB M) : list walop :=
  match r.1 with Ok a => [f a] | Err _ => [] end.

Definition log_of (op : store_op) (db : DB) : list walop :=
  match op with
  | PutObject obj now => log1 OpPutObject (putObjectInternal obj now db)
  | DeleteObject b k => log1 (λ _, OpDeleteObject b k) (deleteObjectInternal b k db)
  | CreateBucket name now => log1 OpCreateBucket (createBucketInternal name now db)
  | DeleteBucket name => log1 (λ _, OpDeleteBucket name) (deleteBucketInternal name db)
  | CreateMultipart b k ct ids now => log1 OpCreateMultipartUpload (CreateMultipartUpload_tx b k ct ids now db)
  | PutPart b k u p now => log1 (OpPutMultipartPart b k u) (PutMultipartPart_tx b k u p now db)
  | CompleteMultipart b k u ps now =>
      log1 (λ r, OpCompleteMultipartUpload b k u (Some r.1)) (CompleteMultipartUpload_tx b k u ps now db)
  | AbortMultipart b k u => log1 (λ _, OpAbortMultipartUpload b k u) (abortMultipartUploadInternal b k u db)
  | AbortExpired cutoff limit =>
      match (AbortExpired_tx cutoff limit db).1 with
      | Ok removed => (λ up, OpAbortMultipartUpload (u_Bucket up) (u_Key up) (UploadID up)) <$> removed
      | Err _ => []
      end
  | AddRuntimeDN addr now => log1 (λ _, OpAddRuntimeDN addr) (addRuntimeDNInternal addr now db)
  | RemoveRuntimeDN addr => log1 (λ _, OpRemoveRuntimeDN addr) (removeRuntimeDNInternal addr db)
  | UpdChunk _ _ _ _ | UpdShard _ _ _ _ _ | PutDNInfo _ | SetClass _ _ | SetDomain _ _
  | SeedDNs _ _ | PutKey _ _ _ _ | DeleteKey _ => []
  end.

Fixpoint leader_log (ops : list store_op) (db : DB) : list walop :=
  match ops with
  | [] => []
  | op :: ops => log_of op db ++ leader_log ops (exec op db).2
  end.

(** ** The refinement *)

(** The follower's view: the same objects, buckets and uploads and the same set of
    data nodes (their registration times and labels are each store's own). *)
Record sim (l f : DB) : Prop := MkSim
  { sim_objects : objects l ≡ objects f; sim_buckets : buckets l ≡ buckets f;
    sim_multipart : multipart l ≡ multipart f;
    sim_runtime : ∀ k, is_Some (kv_get (dns_runtime l) k) ↔ is_Some (kv_get (dns_runtime f) k) }.

(** The mutations whose effect on that view is logged, with a working clock. *)
Definition replicated (op : store_op) : Prop :=
  match op with
  | UpdChunk _ _ _ _ | UpdShard _ _ _ _ _ | SeedDNs _ _ => False
  | PutObject _ now | CreateBucket _ now => now ≠ 0%Z
  | CreateMultipart _ _ _ ids now => now ≠ 0%Z ∧ ∀ i, ids i ≠ ""
  | _ => True
  end.

#[export] Instance sim_equivalence : Equivalence sim.
Proof.
  split.
  - intros d. by split.
  - intros d d' [H1 H2 H3 H4]. by split; symmetry.
  - intros d1 d2 d3 [H1 H2 H3 H4] [G1 G2 G3 G4].
    split; [by etransitivity.. | intros k; by rewrite H4, G4].
Qed.

Lemma put_equiv {V} (m m' m1 : M V) k v :
  m ≡ m' → put m k v = Ok m1 → ∃ m1', put m' k v = Ok m1' ∧ m1 ≡ m1'.
Proof.
  intros Hm Hp%put_ok. destruct (kv_put_equiv m m' k v m1 Hm Hp) as (m1' & Hp' & He).
  exists m1'. split; [by apply put_ok | done].
Qed.

Lemma get_decoded_equiv {A} (m m' : M (stored A)) k : m ≡ m' → get_decoded m k = get_decoded m' k.
Proof. intros Hm. unfold get_decoded. by rewrite (Hm k). Qed.

Lemma has_objects_equiv l f name : objects l ≡ objects f → BucketHasObjects l name = BucketHasObjects f name.
Proof.
  intros Hm. apply eq_true_iff_eq. unfold BucketHasObjects. rewrite !kv_seek_prefix.
  by setoid_rewrite (λ k, Hm k).
Qed.

Lemma next_version_equiv m m' k o : m ≡ m' → next_version m k o = next_version m' k o.
Proof. intros Hm. unfold next_version. by rewrite (Hm k). Qed.

(** The logged object already has the version the follower would compute. *)
Lemma next_version_replay m k o o' :
  Version o' = Version (next_version m k o) → next_version m k o' = o'.
Proof.
  intros Hv. unfold next_version in *.
  assert (∀ v, Version o' = v → with_version o' v = o') as Hid by (intros v <-; by destruct o').
  destruct (kv_get m k) as [raw|]; [destruct (decode raw) as [p|]|]; simpl in *.
  - destruct (i64 (Version p + 1) =? 0)%Z eqn:E; simpl in *.
    + rewrite <- (Hid 1%Z) at 2 by done. by destruct o'.
    + by apply Hid.
  - destruct (Version o =? 0)%Z eqn:E; simpl in Hv; rewrite Hv; [done|]. by rewrite E.
  - destruct (Version o =? 0)%Z eqn:E; simpl in Hv; rewrite Hv; [done|]. by rewrite E.
Qed.

Lemma putObject_replay obj now now' obj' l l' f :
  now ≠ 0%Z → sim l f → putObjectInternal obj now l = (Ok obj', l') →
  ∃ f', putObjectInternal obj' now' f = (Ok obj', f') ∧ sim l' f'.
Proof.
  intros Hnow [S1 S2 S3 S4] Ho. unfold putObjectInternal in *. apply Update_ok in Ho.
  apply rbind_ok in Ho as (m & Hp & Ho). set (k := objKey (Bucket obj) (Key obj)) in *.
  injection Ho as Hobj <-.
  destruct (next_version_key (objects l) k obj) as [E1 E2].
  assert (CreatedAt (next_version (objects l) k obj) = CreatedAt obj) as E3.
  { unfold next_version. repeat case_match; done. }
  assert (objKey (Bucket obj') (Key obj') = k) as Hk.
  { rewrite <- Hobj. destruct (IsZero _); simpl; by rewrite E1, E2. }
  assert (IsZero (CreatedAt obj') = false) as Hz.
  { rewrite <- Hobj. rewrite E3. destruct (IsZero (CreatedAt obj)) eqn:E; simpl; [|by rewrite E3].
    unfold IsZero. by apply Z.eqb_neq. }
  assert (next_version (objects f) k obj' = obj') as Hnv.
  { rewrite <- (next_version_equiv (objects l)) by done.
    apply (next_version_replay _ _ obj). rewrite <- Hobj. by destruct (IsZero _). }
  rewrite Hobj in Hp. destruct (put_equiv _ _ _ _ _ S1 Hp) as (m' & Hp' & Hm).
  exists (set_objects f m'). split; [|by split].
  apply Update_ok. rewrite Hk, Hnv, Hz, Hp'. done.
Qed.
Lemma ApplyAll_app es1 es2 now db db1 :
  ApplyAll es1 now db = (None, db1) → ApplyAll (es1 ++ es2) now db = ApplyAll es2 now db1.
Proof.
  revert db. induction es1 as [|e es1 IH]; intros db He; simpl in *; [by simplify_eq|].
  destruct (ApplyEntry e now db) as [[err|] d]; [done | by apply IH].
Qed.

Lemma ApplyAll_one e now db : ApplyAll [e] now db = ApplyEntry e now db.
Proof. simpl. by destruct (ApplyEntry e now db) as [[err|] d]. Qed.

(** What a leader operation and the replay of its entries have to agree on. *)
Definition replays (log : list walop) (l' : DB) (now' : Z) (f : DB) : Prop :=
  ∀ es, Op <$> es = log → ∃ f', ApplyAll es now' f = (None, f') ∧ sim l' f'.

Lemma replays_nil l' now' f : sim l' f → replays [] l' now' f.
Proof. intros Hs es He. destruct es; [|done]. by exists f. Qed.

Lemma replays_one o l' now' f f' :
  (∀ e, Op e = o → ApplyEntry e now' f = (None, f')) → sim l' f' → replays [o] l' now' f.
Proof.
  intros Ha Hs es He. destruct es as [|e [|]]; simplify_eq/=. exists f'. split; [|done].
  by rewrite (Ha e).
Qed.

(** A transaction that failed logs nothing and changes nothing. *)
Lemma replays_tx {A} (g : A → walop) (fn : DB → result store_error (A * DB)) l f now' :
  sim l f →
  (∀ a l', fn l = Ok (a, l') → replays [g a] l' now' f) →
  replays (log1 g (Update fn l)) (outcome (Update fn l)).2 now' f.
Proof.
  intros Hs Hok. unfold log1. apply (Update_cases fn l (λ r, replays (match r.1 with Ok a => [g a] | Err _ => [] end)
    (outcome r).2 now' f)); simpl.
  - intros e _. by apply replays_nil.
  - intros a l' Hfn. by apply Hok.
Qed.

Section one_op.
Context (l f : @DB M) (now' : Z) (Hsim : sim l f) (Hok : db_ok l).

Lemma deleteObject_replays b k :
  replays (log_of (DeleteObject b k) l) (exec (DeleteObject b k) l).2 now' f.
Proof.
  destruct Hsim as [S1 S2 S3 S4]. apply replays_tx; [done|]. intros [] l' Hfn.
  destruct (kv_get (objects l) (objKey b k)) as [raw|] eqn:Hg; [|done]. injection Hfn as <-.
  apply (replays_one _ _ _ _ (set_objects f (kv_delete (objects f) (objKey b k)))).
  - intros e He. unfold ApplyEntry. rewrite He. unfold deleteObjectInternal, Update.
    by rewrite <- (S1 (objKey b k)), Hg.
  - split; simpl; try done. by rewrite S1.
Qed.

Lemma createBucket_replays name now :
  now ≠ 0%Z → replays (log_of (CreateBucket name now) l) (exec (CreateBucket name now) l).2 now' f.
Proof.
  intros Hnow. destruct Hsim as [S1 S2 S3 S4]. simpl. unfold createBucketInternal.
  destruct (ValidateBucketName name) eqn:Hv; simpl; [|by apply replays_nil].
  apply (replays_tx OpCreateBucket); [done|]. intros meta l' Hfn.
  destruct (kv_get (buckets l) name); [done|]. apply rbind_ok in Hfn as (m & Hp & Hfn).
  injection Hfn as <- <-. destruct (put_equiv _ _ _ _ _ S2 Hp) as (m' & Hp' & Hm).
  apply (replays_one _ _ _ _ (set_buckets f m')); [|by split].
  intros e He. unfold ApplyEntry. rewrite He. unfold createBucketReplay. simpl.
  rewrite bool_decide_false by (by intros ->).
  unfold IsZero. rewrite (proj2 (Z.eqb_neq now 0) Hnow). simpl.
  unfold applied, Update. by rewrite Hp'.
Qed.

Lemma deleteBucket_replays name :
  replays (log_of (DeleteBucket name) l) (exec (DeleteBucket name) l).2 now' f.
Proof.
  destruct Hsim as [S1 S2 S3 S4]. apply replays_tx; [done|]. intros [] l' Hfn.
  destruct (kv_get (buckets l) name) as [raw|] eqn:Hg; [|done].
  destruct (BucketHasObjects l name) eqn:Hb; [done|]. injection Hfn as <-.
  apply (replays_one _ _ _ _ (set_buckets f (kv_delete (buckets f) name))).
  - intros e He. unfold ApplyEntry. rewrite He. unfold deleteBucketInternal, Update.
    rewrite <- (S2 name), Hg, <- (has_objects_equiv l f name S1), Hb. done.
  - split; simpl; try done. by rewrite S2.
Qed.

Lemma createMultipart_replays b k ct ids now :
  now ≠ 0%Z → (∀ i, ids i ≠ "") →
  replays (log_of (CreateMultipart b k ct ids now) l) (exec (CreateMultipart b k ct ids now) l).2 now' f.
Proof.
  intros Hnow Hids. destruct Hsim as [S1 S2 S3 S4]. simpl. unfold CreateMultipartUpload_tx.
  destruct (bool_decide (b = "")) eqn:Hb; [by apply replays_nil|].
  destruct (bool_decide (k = "")) eqn:Hk; [by apply replays_nil|]. simpl.
  apply (replays_tx OpCreateMultipartUpload); [done|]. intros meta l' Hfn.
  destruct (kv_get (buckets l) b); [|done].
  destruct (fresh_upload_id _ _ _ _ _ _) as [id|] eqn:Hid; [|done].
  assert (id ≠ "") as Hne.
  { revert Hid. generalize 0 (length (kv_list (multipart l))). intros i fuel. revert i.
    induction fuel as [|fuel IH]; intros i; simpl; case_match; try done; [|apply IH|];
      intros [= <-]; apply Hids. }
  apply rbind_ok in Hfn as (m & Hp & Hfn). injection Hfn as <- <-.
  destruct (put_equiv _ _ _ _ _ S3 Hp) as (m' & Hp' & Hm).
  apply (replays_one _ _ _ _ (set_multipart f m')); [|by split].
  intros e He. unfold ApplyEntry. rewrite He. unfold putMultipartUploadReplay. simpl.
  rewrite Hb, Hk, bool_decide_false by done. unfold IsZero. rewrite (proj2 (Z.eqb_neq now 0) Hnow). simpl.
  unfold applied, Update. by rewrite Hp'.
Qed.

Lemma putPart_replays b k u p now :
  replays (log_of (PutPart b k u p now) l) (exec (PutPart b k u p now) l).2 now' f.
Proof.
  destruct Hsim as [S1 S2 S3 S4]. simpl. unfold PutMultipartPart_tx, putMultipartPartInternal.
  destruct (prepare_part p now) as [p'|e]; [|by apply replays_nil]. unfold Update.
  destruct (get_decoded (multipart l) (multipartKey b k u)) as [up|e] eqn:Hg; simpl; [|by apply replays_nil].
  destruct (put (multipart l) _ _) as [m|e] eqn:Hp; simpl; [|by apply replays_nil].
  destruct (put_equiv _ _ _ _ _ S3 Hp) as (m' & Hp' & Hm).
  apply (replays_one _ _ _ _ (set_multipart f m')); [|by split].
  intros e He. unfold ApplyEntry. rewrite He. unfold putMultipartPartInternal, applied, Update.
  by rewrite <- (get_decoded_equiv _ _ _ S3), Hg; simpl; rewrite Hp'.
Qed.

Lemma completeMultipart_replays b k u ps now :
  replays (log_of (CompleteMultipart b k u ps now) l) (exec (CompleteMultipart b k u ps now) l).2 now' f.
Proof.
  destruct Hsim as [S1 S2 S3 S4]. simpl. unfold CompleteMultipartUpload_tx.
  destruct (length ps =? 0); [by apply replays_nil|].
  apply (replays_tx (λ r, OpCompleteMultipartUpload b k u (Some r.1))); [done|].
  intros [obj done] l' Hfn. apply rbind_ok in Hfn as (up & Hup & Hfn).
  apply rbind_ok in Hfn as (st & Hst & Hfn). cbn zeta in Hfn. apply rbind_ok in Hfn as (m & Hp & Hfn).
  set (o0 := MkObjectMeta _ _ _ _ _ _ _ _ _ _ _ _ _) in *.
  destruct (next_version_key (objects l) (objKey b k) o0) as [E1 E2].
  injection Hfn as <- <- <-.
  destruct (put_equiv _ _ _ _ _ S1 Hp) as (m' & Hp' & Hm).
  apply (replays_one _ _ _ _ (set_multipart (set_objects f m') (kv_delete (multipart f) (multipartKey b k u)))).
  - intros e He. unfold ApplyEntry. rewrite He. unfold completeMultipartReplay, applied, Update. simpl.
    rewrite E1, E2. simpl. by rewrite Hp'.
  - split; simpl; try done. by rewrite S3.
Qed.

Lemma abort_entry e b k u up d d' :
  Op e = OpAbortMultipartUpload b k u → multipart d ≡ multipart d' →
  (kv_get (multipart d) (multipartKey b k u) = Some (Enc up) ∨
   kv_get (multipart d) (multipartKey b k u) = None) →
  ∃ d2, ApplyEntry e now' d' = (None, d2) ∧
    multipart d2 ≡ kv_delete (multipart d) (multipartKey b k u) ∧
    objects d2 = objects d' ∧ buckets d2 = buckets d' ∧ dns_runtime d2 = dns_runtime d'.
Proof.
  intros He Hm Hg. unfold ApplyEntry. rewrite He. unfold abortMultipartUploadInternal, Update, get_decoded.
  rewrite <- (Hm (multipartKey b k u)). destruct Hg as [-> | Hg]; [|rewrite Hg]; simpl; eexists;
    (split; [done|]); split_and!; simpl; try done.
  - by rewrite Hm.
  - intros k'. rewrite get_delete. case_decide as Hk; [|by rewrite (Hm k')].
    subst k'. by rewrite <- (Hm _).
Qed.

Lemma abortMultipart_replays b k u :
  replays (log_of (AbortMultipart b k u) l) (exec (AbortMultipart b k u) l).2 now' f.
Proof.
  apply replays_tx; [done|]. intros up l' Hfn. apply rbind_ok in Hfn as (up' & Hg & Hfn).
  injection Hfn as <- <-. apply get_decoded_ok in Hg.
  intros es He. destruct es as [|e [|]]; simplify_eq/=.
  destruct Hsim as [S1 S2 S3 S4].
  destruct (abort_entry e b k u up' l f) as (d2 & Ha & Hm & Eo & Eb & Er); [done | done | by left |].
  rewrite Ha. exists d2. split; [done|]. split; simpl; [by rewrite Eo | by rewrite Eb | by rewrite Hm | by rewrite Er].
Qed.

(** Deleting the keys of a list of uploads. *)
Definition key_of (up : MultipartUploadMeta) : string :=
  multipartKey (u_Bucket up) (u_Key up) (UploadID up).

Lemma abort_expired_spec cutoff limit kvs (b : M (stored MultipartUploadMeta)) removed r b' :
  (∀ k up, (k, Enc up) ∈ kvs → k = key_of up) →
  abort_expired_loop cutoff limit kvs b removed = Ok (r, b') →
  ∃ ups, r = removed ++ ups ∧ (∀ up, up ∈ ups → (key_of up, Enc up) ∈ kvs) ∧
    b' = foldl (λ b up, kv_delete b (key_of up)) b ups.
Proof.
  revert b removed. induction kvs as [|[k v] kvs IH]; intros b removed Hk Hr; simpl in Hr.
  - injection Hr as <- <-. exists []. rewrite app_nil_r. split_and!; try done.
    by intros up ?%not_elem_of_nil.
  - assert (∀ k up, (k, Enc up) ∈ kvs → k = key_of up) as Hk' by (intros; apply Hk; by right).
    assert (∀ b removed, abort_expired_loop cutoff limit kvs b removed = Ok (r, b') →
      ∃ ups, r = removed ++ ups ∧ (∀ up, up ∈ ups → (key_of up, Enc up) ∈ (k, v) :: kvs) ∧
        b' = foldl (λ b up, kv_delete b (key_of up)) b ups) as IH'.
    { intros b1 r1 H1. destruct (IH b1 r1 Hk' H1) as (ups & E1 & E2 & E3). exists ups.
      split_and!; try done. intros up Hup. right. auto. }
    destruct (_ && _); [by apply IH'|]. destruct (decode v) as [up|] eqn:Hd; [|done].
    destruct (_ || _); [by apply IH'|].
    destruct v as [up'|]; [|done]. injection Hd as ->.
    assert (k = key_of up) as -> by (apply Hk; by left).
    destruct (IH' _ _ Hr) as (ups & -> & Hups & ->).
    exists (up :: ups). rewrite <- app_assoc. split_and!; [done | |done].
    intros up' [->|?]%elem_of_cons; [by left | by apply Hups].
Qed.

Lemma abort_all_replays ups d d' :
  objects d ≡ objects d' → buckets d ≡ buckets d' → multipart d ≡ multipart d' →
  (∀ k, is_Some (kv_get (dns_runtime d) k) ↔ is_Some (kv_get (dns_runtime d') k)) →
  (∀ up, up ∈ ups → kv_get (multipart d) (key_of up) = None ∨
     ∃ up', kv_get (multipart d) (key_of up) = Some (Enc up')) →
  replays ((λ up, OpAbortMultipartUpload (u_Bucket up) (u_Key up) (UploadID up)) <$> ups)
    (set_multipart d (foldl (λ b up, kv_delete b (key_of up)) (multipart d) ups)) now' d'.
Proof.
  revert d d'. induction ups as [|up ups IH]; intros d d' S1 S2 S3 S4 Hups.
  - apply replays_nil. by split.
  - intros es He. destruct es as [|e es]; [done|]. rewrite !fmap_cons in He. injection He as He Hes.
    assert (∃ x, kv_get (multipart d) (key_of up) = Some (Enc x) ∨ kv_get (multipart d) (key_of up) = None)
      as [x Hx].
    { destruct (Hups up) as [?|[x ?]]; [by left | exists up; by right | exists x; by left]. }
    destruct (abort_entry e _ _ _ x d d' He S3 Hx) as (d2 & Ha & Hm & Eo & Eb & Er).
    cbn [ApplyAll]. rewrite Ha. cbn [foldl].
    set (d1 := set_multipart d (kv_delete (multipart d) (key_of up))).
    destruct (IH d1 d2) with (es := es) as (f' & Hf' & Hs').
    + by rewrite Eo.
    + by rewrite Eb.
    + by rewrite Hm.
    + by rewrite Er.
    + intros up' Hup'. simpl. rewrite get_delete. case_decide; [by left|]. apply Hups. by right.
    + done.
    + exists f'. split; [done|]. exact Hs'.
Qed.

Lemma abortExpired_replays cutoff limit :
  replays (log_of (AbortExpired cutoff limit) l) (exec (AbortExpired cutoff limit) l).2 now' f.
Proof.
  destruct Hsim as [S1 S2 S3 S4]. simpl. unfold AbortExpired_tx, Update.
  destruct (abort_expired_loop _ _ _ _ _) as [[r b']|e] eqn:Hr; simpl; [|by apply replays_nil].
  apply abort_expired_spec in Hr as (ups & -> & Hups & ->).
  - apply abort_all_replays; try done. intros up Hup. right. exists up. by apply elem_list, Hups.
  - intros k up Hin. apply elem_list in Hin. by apply (ok_multipart _ Hok) in Hin as [-> _].
Qed.

Lemma addRuntime_replays addr now :
  replays (log_of (AddRuntimeDN addr now) l) (exec (AddRuntimeDN addr now) l).2 now' f.
Proof.
  destruct Hsim as [S1 S2 S3 S4]. simpl. unfold addRuntimeDNInternal.
  destruct (bool_decide (addr = "")) eqn:Ha; [by apply replays_nil|].
  apply (replays_tx (λ _, OpAddRuntimeDN addr)); [done|]. intros [] l' Hfn.
  apply rbind_ok in Hfn as (m & Hp & Hfn). injection Hfn as <-. apply put_ok in Hp.
  destruct (runtime_put addr now now' _ (dns_runtime f) m Hp) as [m' Hp'].
  apply (replays_one _ _ _ _ (set_dns_runtime f m')).
  - intros e He. unfold ApplyEntry. rewrite He. unfold addRuntimeDNInternal. rewrite Ha.
    unfold applied, Update, put. by rewrite Hp'.
  - split; simpl; try done. intros k. rewrite (get_put _ _ _ _ _ Hp), (get_put _ _ _ _ _ Hp').
    destruct (decide (addr = k)); [split; intros _; eauto | apply S4].
Qed.

Lemma removeRuntime_replays addr :
  replays (log_of (RemoveRuntimeDN addr) l) (exec (RemoveRuntimeDN addr) l).2 now' f.
Proof.
  destruct Hsim as [S1 S2 S3 S4]. simpl. unfold removeRuntimeDNInternal.
  destruct (bool_decide (addr = "")) eqn:Ha; [by apply replays_nil|].
  apply (replays_tx (λ _, OpRemoveRuntimeDN addr)); [done|]. intros [] l' [= <-].
  apply (replays_one _ _ _ _ (set_dns_runtime f (kv_delete (dns_runtime f) addr))).
  - intros e He. unfold ApplyEntry. rewrite He. unfold removeRuntimeDNInternal. by rewrite Ha.
  - split; simpl; try done. intros k. rewrite !get_delete. destruct (decide (addr = k)); [done | apply S4].
Qed.

(** Mutations that log nothing and stay outside the replicated view. *)
Lemma unlogged_sim op :
  objects (exec op l).2 = objects l → buckets (exec op l).2 = buckets l →
  multipart (exec op l).2 = multipart l →
  (∀ k, is_Some (kv_get (dns_runtime (exec op l).2) k) ↔ is_Some (kv_get (dns_runtime l) k)) →
  sim (exec op l).2 f.
Proof.
  intros E1 E2 E3 E4. destruct Hsim as [S1 S2 S3 S4].
  split; [by rewrite E1 | by rewrite E2 | by rewrite E3 | intros k; by rewrite E4].
Qed.

Lemma update_runtime_sim addr g : sim (outcome (update_runtime addr g l)).2 f.
Proof.
  destruct Hsim as [S1 S2 S3 S4]. unfold update_runtime. destruct (bool_decide _); [done|].
  apply Update_cases; [done|]. intros [] l' Hfn.
  destruct (kv_get (dns_runtime l) addr) as [raw|] eqn:Hg; [|done].
  apply rbind_ok in Hfn as (m & Hp%put_ok & Hfn). injection Hfn as <-. split; simpl; try done.
  intros k. rewrite (get_put _ _ _ _ _ Hp). case_decide as Hk; [|apply S4]. subst k.
  rewrite <- S4, Hg. split; intros _; eauto.
Qed.

Lemma op_replays op :
  replicated op → replays (log_of op l) (exec op l).2 now' f.
Proof.
  intros Hr. destruct op; try done.
  - simpl in Hr. simpl. unfold log1. destruct (putObjectInternal obj now l) as [[obj'|e] l'] eqn:Ho; simpl.
    + destruct (putObject_replay obj now now' obj' l l' f Hr Hsim Ho) as (f' & Hf' & Hs').
      apply (replays_one _ _ _ _ f'); [|done]. intros e He. unfold ApplyEntry. by rewrite He, Hf'.
    + assert (l' = l) as -> by (apply (failed_tx (PutObject obj now) l e); simpl; by rewrite Ho).
      by apply replays_nil.
  - apply deleteObject_replays.
  - by apply createBucket_replays.
  - apply deleteBucket_replays.
  - destruct Hr. by apply createMultipart_replays.
  - apply putPart_replays.
  - apply completeMultipart_replays.
  - apply abortMultipart_replays.
  - apply abortExpired_replays.
  - apply replays_nil. simpl. unfold PutDN, Update.
    destruct (put _ _ _); simpl; [|done]. destruct Hsim. by split.
  - apply addRuntime_replays.
  - apply removeRuntime_replays.
  - apply replays_nil, update_runtime_sim.
  - apply replays_nil, update_runtime_sim.
  - apply replays_nil. simpl. unfold PutURLKey. destruct (_ || _); [done|].
    apply Update_cases; [done|]. intros [] l' Hfn. inv_ok. simplify_eq. destruct Hsim. by split.
  - apply replays_nil. simpl. unfold DeleteURLKey. apply Update_cases; [done|].
    intros [] l' Hfn. inv_ok. case_match; simplify_eq. destruct Hsim. by split.
Qed.
End one_op.

End replay.

(** ** Witness *)
Lemma gmap_runtime_put addr t t' (m1 m2 m1' : gmap string (stored RuntimeDN)) :
  kv_put m1 addr (Enc (MkRuntimeDN addr (Some t) None None)) = Ok m1' →
  ∃ m2', kv_put m2 addr (Enc (MkRuntimeDN addr (Some t') None None)) = Ok m2'.
Proof. simpl. unfold map_put. case_bool_decide; [done|]. case_match; eauto. Qed.

Definition ops1 : list store_op :=
  [CreateBucket "photos" 7; PutObject obj1 9; PutObject obj1 10; AddRuntimeDN "dn1:8080" 11;
   DeleteObject "photos" "dog.jpg"; SetClass "dn1:8080" "hot"].
Definition entries1 : list (WALEntry walop) :=
  (λ o, MkEntry 1 5 o) <$> leader_log ops1 (empty_db : mdb).

(** ** What is not replicated *)

(** Moving replicas changes the objects of the leader and logs nothing: a follower
    that replayed the log still has the old addresses. *)
Theorem replica_moves_are_not_logged :
  let op := UpdChunk "photos" "cat.jpg" 0 ["dn3"] in
  log_of op db1 = [] ∧
  ∃ o o', GetObject db1 "photos" "cat.jpg" = Ok o ∧ GetObject (exec op db1).2 "photos" "cat.jpg" = Ok o' ∧
    Replicas <$> Chunks o = [["dn1"; "dn2"]] ∧ Replicas <$> Chunks o' = [["dn3"]].
Proof. split; [done|]. do 2 eexists. split_and!; reflexivity. Qed.

(** Replay is not idempotent: applying an entry twice bumps the version. *)
Theorem replay_twice_bumps_version :
  let e := MkEntry 1 5 (OpPutObject obj1') in
  let f := (ApplyEntry e 100 (empty_db : mdb)).2 in
  Version <$> [default obj1 (match GetObject f "photos" "cat.jpg" with Ok o => Some o | _ => None end);
               default obj1 (match GetObject (ApplyEntry e 100 f).2 "photos" "cat.jpg" with Ok o => Some o | _ => None end)]
  = [1; 2]%Z.
Proof. reflexivity. Qed.
