(* ===== verification/DataNode.v ===== *)
(** * Data node: internal/dn/dn.go

    The directory tree <dataDir>/chunks is a map from (directory, file name) to
    files; deeper or shallower files do not occur.  Handlers are functions from
    the request and the outcome of the file operations to the response status
    and the new server. *)
From S2P Require Import Prelude GF GoLib.
From Stdlib Require Import Strings.Byte Strings.Ascii.

Record File : Type := MkFile { f_Data : list byte; f_MTime : Z }.
Abbreviation path := (string * string)%type.
Abbreviation tree := (gmap path File).

Record ChunkInfo : Type := MkChunkInfo { ci_ID : string; ci_Size : Z; ci_MTime : Z }.

Record Server : Type := MkServer
  { dn_id : string; disk : tree; chunkCount : Z; bytesTotal : Z }.

(** [(s[:n], s[n:])] *)
Fixpoint split_at (n : nat) (s : string) : string * string :=
  match n, s with
  | S n, String c s => let '(a, b) := split_at n s in (String c a, b)
  | _, _ => (EmptyString, s)
  end.

Definition chunkPath (id : string) : path := split_at 2 id.
Definition tmp_of (p : path) : path := (p.1, p.2 ++ ".tmp")%string.

Definition validChunkID (s : string) : bool := (String.length s =? 64) && forallb is_hex (chars s).

Definition hashHex (b : list byte) : string := sha256_hex b.

(** The chunk id a walk recovers from a path. *)
Definition walk_id (p : path) : option string :=
  let '(dir, base) := p in
  if negb (String.length dir =? 2) || negb (String.length base =? 62) then None
  else if validChunkID (dir ++ base) then Some (dir ++ base)%string else None.

Definition file_size (f : File) : Z := Z.of_nat (length (f_Data f)).

(** [rescan] counts every file of the tree. *)
Definition rescan (t : tree) : Z * Z :=
  foldr (λ pf acc, (i64 (acc.1 + 1), i64 (acc.2 + file_size pf.2))) (0, 0)%Z (map_to_list t).
Definition NewServer (id : string) (t : tree) : Server :=
  MkServer id t (rescan t).1 (rescan t).2.

(** ** Handlers *)

(** Outcomes of the file operations of one PUT: Stat, MkdirAll, WriteFile
    ([Some n]: it failed after writing [n] bytes), Rename. *)
Record put_io : Type := MkPutIO
  { stat_ok : bool; mkdir_ok : bool; write_fails : option nat; rename_ok : bool }.
Definition io_fine : put_io := MkPutIO true true None true.

Definition set_disk (s : Server) (t : tree) : Server :=
  MkServer (dn_id s) t (chunkCount s) (bytesTotal s).

(** [open_ok] is false where opening an existing file fails. *)
Definition handleGet (id : string) (open_ok : bool) (s : Server) : Z * option (list byte) :=
  if negb (validChunkID id) then (400%Z, None)
  else match disk s !! chunkPath id with
       | None => (404%Z, None)
       | Some f => if open_ok then (200%Z, Some (f_Data f)) else (500%Z, None)
       end.

(** [body] is [None] when reading the request failed. *)
Definition handlePut (id : string) (body : option (list byte)) (force : bool) (now : Z) (io : put_io)
    (s : Server) : Z * Server :=
  if negb (validChunkID id) then (400%Z, s)
  else match body with
  | None => (400%Z, s)
  | Some body =>
      if bool_decide (hashHex body ≠ id) then (400%Z, s)
      else
        let p := chunkPath id in
        if negb force && (stat_ok io && bool_decide (is_Some (disk s !! p))) then (200%Z, s)
        else if negb (mkdir_ok io) then (500%Z, s)
        else match write_fails io with
        | Some n => (500%Z, set_disk s (<[tmp_of p := MkFile (take n body) now]> (disk s)))
        | None =>
            let t := <[tmp_of p := MkFile body now]> (disk s) in
            if negb (rename_ok io) then (500%Z, set_disk s t)
            else (201%Z, MkServer (dn_id s) (<[p := MkFile body now]> (delete (tmp_of p) t))
                           (i64 (chunkCount s + 1)) (i64 (bytesTotal s + Z.of_nat (length body))))
        end
  end.

Definition handleDelete (id : string) (stat_ok remove_ok : bool) (s : Server) : Z * Server :=
  if negb (validChunkID id) then (400%Z, s)
  else
    let p := chunkPath id in
    match disk s !! p with
    | None => (404%Z, s)
    | Some f =>
        if negb stat_ok then (404%Z, s)
        else if negb remove_ok then (500%Z, s)
        else (204%Z, MkServer (dn_id s) (delete p (disk s)) (i64 (chunkCount s - 1))
                       (i64 (bytesTotal s - file_size f)))
    end.

Definition info_le (a b : ChunkInfo) : Prop := String.le (ci_ID a) (ci_ID b).
#[export] Instance info_le_dec : RelDecision info_le.
Proof. intros a b. unfold info_le. apply _. Defined.
#[export] Instance info_le_trans : Transitive info_le.
Proof. intros a b c. unfold info_le. apply transitivity. Qed.
#[export] Instance info_le_total : Total info_le.
Proof. intros a b. unfold info_le. apply (total String.le). Qed.

(** The walk of [handleListChunks], then the sort by id. *)
Definition walk_info (pf : path * File) : option ChunkInfo :=
  id ← walk_id pf.1; Some (MkChunkInfo id (file_size pf.2) (f_MTime pf.2)).
Definition handleListChunks (s : Server) : list ChunkInfo :=
  merge_sort info_le (omap walk_info (map_to_list (disk s))).

Definition handleHealth (s : Server) : Z * Z := (chunkCount s, bytesTotal s).

(** ** Paths and ids *)
Lemma split_at_app n s : String.append (split_at n s).1 (split_at n s).2 = s.
Proof.
  revert s. induction n as [|n IH]; intros [|c s]; try done. simpl.
  specialize (IH s). destruct (split_at n s) as [a b]. simpl in *. rewrite string_app_cons. by f_equal.
Qed.
Lemma split_at_length n s :
  String.length (split_at n s).1 = n `min` String.length s.
Proof.
  revert s. induction n as [|n IH]; intros [|c s]; try done. simpl.
  specialize (IH s). destruct (split_at n s) as [a b]. simpl in *. lia.
Qed.

#[export] Instance chunkPath_inj : Inj (=) (=) chunkPath.
Proof. intros x y E. unfold chunkPath in E. by rewrite <- (split_at_app 2 x), <- (split_at_app 2 y), E. Qed.

Lemma walk_id_chunkPath id : validChunkID id = true → walk_id (chunkPath id) = Some id.
Proof.
  intros Hv. pose proof Hv as Hv'. unfold validChunkID in Hv'.
  apply andb_true_iff in Hv' as [Hl%Nat.eqb_eq _].
  unfold walk_id, chunkPath. pose proof (split_at_app 2 id) as Happ.
  pose proof (split_at_length 2 id) as Hlen. rewrite Hl in Hlen.
  destruct (split_at 2 id) as [a b]. simpl in *.
  assert (String.length b = 62) as Hb.
  { apply (f_equal String.length) in Happ. rewrite string_length_app in Happ. lia. }
  rewrite Hlen, Hb. simpl. by rewrite Happ, Hv.
Qed.

Lemma walk_id_some p id : walk_id p = Some id → validChunkID id = true ∧ p = chunkPath id.
Proof.
  unfold walk_id. destruct p as [dir base].
  destruct (Nat.eqb_spec (String.length dir) 2) as [Hd|]; [|done].
  destruct (Nat.eqb_spec (String.length base) 62) as [Hb|]; [|done]. simpl.
  destruct (validChunkID (dir ++ base)) eqn:Hv; [|done]. intros [= <-]. split; [done|].
  by destruct dir as [|c1 [|c2 [|]]].
Qed.

(** A temporary file is never taken for a chunk. *)
Lemma tmp_of_not_chunk p id' : validChunkID id' = true → tmp_of p ≠ chunkPath id'.
Proof.
  intros Hv E. pose proof (split_at_app 2 id') as Happ. fold (chunkPath id') in Happ.
  rewrite <- E in Happ. cbn [fst snd tmp_of] in Happ.
  unfold validChunkID in Hv. apply andb_true_iff in Hv as [_ Hf]. rewrite forallb_forall in Hf.
  specialize (Hf "t"%char). discriminate Hf. rewrite <- list_elem_of_In, <- Happ, !chars_app.
  simpl. set_solver.
Qed.
Lemma tmp_not_chunk id id' : validChunkID id' = true → tmp_of (chunkPath id) ≠ chunkPath id'.
Proof. apply tmp_of_not_chunk. Qed.

(** ** The content-addressing invariant *)
Definition addressed (t : tree) : Prop :=
  ∀ id f, validChunkID id = true → t !! chunkPath id = Some f → sha256_hex (f_Data f) = id.

(** What can happen to a node's disk. *)
Inductive request : Type :=
  | Put (id : string) (body : option (list byte)) (force : bool) (now : Z) (io : put_io)
  | Delete (id : string) (stat_ok remove_ok : bool)
  | Reboot.

Definition serve (s : Server) (r : request) : Server :=
  match r with
  | Put id body force now io => (handlePut id body force now io s).2
  | Delete id st ok => (handleDelete id st ok s).2
  | Reboot => NewServer (dn_id s) (disk s)
  end.

Lemma handlePut_cases id body force now io s :
  let r := handlePut id body force now io s in
  disk r.2 = disk s ∨
  (∃ f, disk r.2 = <[tmp_of (chunkPath id) := f]> (disk s)) ∨
  (∃ b, body = Some b ∧ validChunkID id = true ∧ sha256_hex b = id ∧ r.1 = 201%Z ∧
     disk r.2 = <[chunkPath id := MkFile b now]> (delete (tmp_of (chunkPath id)) (disk s))).
Proof.
  unfold handlePut. destruct (validChunkID id) eqn:Hv; [|by left]. simpl.
  destruct body as [b|]; [|by left]. case_bool_decide as Hh; [by left|].
  destruct (negb force && _); [by left|]. destruct (mkdir_ok io); [|by left]. simpl.
  destruct (write_fails io) as [n|]; [right; left; eexists; done|].
  destruct (rename_ok io); simpl; [|right; left; eexists; done].
  right. right. exists b. unfold hashHex in Hh. split_and!; try done.
  - f_equal. apply map_eq. intros p. destruct (decide (p = tmp_of (chunkPath id))) as [->|].
    + by rewrite !lookup_delete_eq.
    + by rewrite !lookup_delete_ne, lookup_insert_ne.
Qed.

Lemma handleDelete_cases id st ok s :
  disk (handleDelete id st ok s).2 = disk s ∨ disk (handleDelete id st ok s).2 = delete (chunkPath id) (disk s).
Proof.
  unfold handleDelete. destruct (negb (validChunkID id)); [by left|].
  destruct (disk s !! chunkPath id); [|by left].
  destruct st; [|by left]. destruct ok; [by right | by left].
Qed.

Lemma serve_addressed s r : addressed (disk s) → addressed (disk (serve s r)).
Proof.
  intros Ha id f Hv Hf. destruct r as [id' body force now io|id' st ok|]; simpl in Hf.
  - destruct (handlePut_cases id' body force now io s) as [E|[[f' E]|(b & _ & _ & Hb & _ & E)]];
      rewrite E in Hf; [by apply Ha| |].
    + rewrite lookup_insert_ne in Hf by (by apply tmp_not_chunk). by apply Ha.
    + destruct (decide (id' = id)) as [->|Hne].
      * rewrite lookup_insert_eq in Hf. by injection Hf as <-.
      * rewrite lookup_insert_ne in Hf by (by intros ?%(inj chunkPath)).
        rewrite lookup_delete_ne in Hf by (by apply tmp_not_chunk). by apply Ha.
  - destruct (handleDelete_cases id' st ok s) as [E|E]; rewrite E in Hf; [by apply Ha|].
    apply lookup_delete_Some in Hf as [_ Hf]. by apply Ha.
  - by apply Ha.
Qed.

Lemma addressed_foldl s rs : addressed (disk s) → addressed (disk (foldl serve s rs)).
Proof. revert s. induction rs as [|r rs IH]; intros s Ha; [done|]. by apply IH, serve_addressed. Qed.


Lemma sha256_hex_valid b : validChunkID (sha256_hex b) = true.
Proof.
  unfold validChunkID. rewrite sha256_hex_length. simpl. apply forallb_forall.
  intros c Hc. apply list_elem_of_In in Hc. by eapply hex_encode_is_hex.
Qed.

(** What a node acknowledged it stores, under the hash of the bytes sent. *)
Lemma put_acked id body force now io s :
  (handlePut id body force now io s).1 ∈ [200; 201]%Z →
  validChunkID id = true ∧ (∃ b, body = Some b ∧ sha256_hex b = id) ∧
  is_Some (disk (handlePut id body force now io s).2 !! chunkPath id).
Proof.
  unfold handlePut. destruct (validChunkID id) eqn:Hv; [|set_solver]. cbn [negb].
  destruct body as [b|]; [|set_solver].
  destruct (decide (hashHex b = id)) as [Hh|Hh];
    [rewrite bool_decide_eq_false_2 by auto | rewrite bool_decide_eq_true_2 by auto; set_solver].
  destruct (negb force && _) eqn:Hf.
  { apply andb_true_iff in Hf as [_ [_ Hf%bool_decide_eq_true]%andb_true_iff]. intros _. split_and!; eauto. }
  destruct (mkdir_ok io); [|set_solver]. cbn [negb].
  destruct (write_fails io); [set_solver|]. destruct (rename_ok io); [|set_solver]. cbn [negb snd disk].
  intros _. split_and!; [done|eauto|]. rewrite lookup_insert_eq. eauto.
Qed.

Lemma put_frame id body force now io s id' :
  validChunkID id' = true → id' ≠ id →
  disk (handlePut id body force now io s).2 !! chunkPath id' = disk s !! chunkPath id'.
Proof.
  intros Hv Hne. destruct (handlePut_cases id body force now io s) as [->|[[f' ->]|(b & _ & _ & _ & _ & ->)]];
    [done| |].
  - by rewrite lookup_insert_ne by (by apply tmp_not_chunk).
  - rewrite lookup_insert_ne by (by intros ?%(inj chunkPath)).
    by rewrite lookup_delete_ne by (by apply tmp_not_chunk).
Qed.

Lemma put_keeps id body force now io s id' :
  validChunkID id' = true → is_Some (disk s !! chunkPath id') →
  is_Some (disk (handlePut id body force now io s).2 !! chunkPath id').
Proof.
  intros Hv Hs. destruct (decide (id' = id)) as [->|Hne]; [|by rewrite put_frame].
  destruct (handlePut_cases id body force now io s) as [->|[[f' ->]|(b & _ & _ & _ & _ & ->)]]; [done| |].
  - by rewrite lookup_insert_ne by (by apply tmp_not_chunk).
  - rewrite lookup_insert_eq. eauto.
Qed.

Lemma delete_frame id st ok s id' :
  id' ≠ id → disk (handleDelete id st ok s).2 !! chunkPath id' = disk s !! chunkPath id'.
Proof.
  intros Hne. destruct (handleDelete_cases id st ok s) as [->| ->]; [done|].
  rewrite lookup_delete_ne; [done|]. by intros ?%(inj chunkPath).
Qed.

(** A chunk that was accepted can be read back until it is deleted: after a PUT
    answered 200 or 201, whatever else is put and whichever other chunks are
    deleted, GET returns bytes with the chunk's hash. *)
Theorem accepted_chunk_is_kept s id body force now io rs :
  addressed (disk s) → (handlePut id body force now io s).1 ∈ [200; 201]%Z →
  Forall (λ r, match r with Delete id' _ _ => id' ≠ id | _ => True end) rs →
  ∃ b, handleGet id true (foldl serve (serve s (Put id body force now io)) rs) = (200%Z, Some b) ∧
       sha256_hex b = id.
Proof.
  intros Ha (Hv & _ & Hs)%put_acked Hrs. fold (serve s (Put id body force now io)) in Hs.
  assert (addressed (disk (serve s (Put id body force now io)))) as Ha' by by apply serve_addressed.
  revert Ha' Hs. generalize (serve s (Put id body force now io)). clear s Ha.
  induction Hrs as [|r rs Hr _ IH]; intros s Ha Hs.
  - destruct Hs as [f Hf]. exists (f_Data f). unfold handleGet. rewrite Hv. simpl. rewrite Hf. eauto.
  - apply IH; [by apply serve_addressed|]. destruct r as [id' body' force' now' io'|id' st ok|]; simpl.
    + by apply put_keeps.
    + rewrite delete_frame; auto.
    + done.
Qed.

(** ** Listing *)
Lemma elem_of_list_chunks s ci :
  ci ∈ handleListChunks s ↔
  validChunkID (ci_ID ci) = true ∧ ∃ f, disk s !! chunkPath (ci_ID ci) = Some f ∧
    ci_Size ci = file_size f ∧ ci_MTime ci = f_MTime f.
Proof.
  unfold handleListChunks. rewrite elem_of_merge_sort, list_elem_of_omap. split.
  - intros ([p f] & Hin & Hw). apply elem_of_map_to_list in Hin. unfold walk_info in Hw. simpl in Hw.
    destruct (walk_id p) as [id|] eqn:Hid; [|done]. apply walk_id_some in Hid as [Hv ->].
    injection Hw as <-. simpl. eauto.
  - intros (Hv & f & Hf & Hs & Hm). exists (chunkPath (ci_ID ci), f).
    split; [by apply elem_of_map_to_list|]. unfold walk_info. simpl. rewrite walk_id_chunkPath by done.
    simpl. destruct ci; simpl in *. by subst.
Qed.

Lemma NoDup_list_chunks s : NoDup (ci_ID <$> handleListChunks s).
Proof.
  unfold handleListChunks. rewrite (merge_sort_Permutation info_le).
  assert (ci_ID <$> omap walk_info (map_to_list (disk s)) =
          omap (λ pf, walk_id pf.1) (map_to_list (disk s))) as ->.
  { induction (map_to_list (disk s)) as [|pf l IH]; [done|]. rewrite !omap_cons. unfold walk_info at 1.
    destruct (walk_id pf.1) as [id|]; [|done]. cbn [mbind option_bind]. rewrite fmap_cons. by rewrite IH. }
  apply NoDup_omap_inj; [|apply NoDup_map_to_list].
  intros [p f] [q g] id Hp%elem_of_map_to_list Hq%elem_of_map_to_list.
  intros [_ E]%walk_id_some [_ E']%walk_id_some. simpl in E, E'. congruence.
Qed.

(** ** Counters *)
Definition sizes (t : tree) : Z := foldr (λ pf acc, (acc + file_size pf.2)%Z) 0%Z (map_to_list t).
Definition counted (s : Server) : Prop :=
  chunkCount s = i64 (Z.of_nat (size (disk s))) ∧ bytesTotal s = i64 (sizes (disk s)).

Lemma sizes_insert p f t : t !! p = None → sizes (<[p := f]> t) = (sizes t + file_size f)%Z.
Proof.
  intros Hp. unfold sizes.
  assert (∀ l l' : list (path * File), l ≡ₚ l' →
    foldr (λ pf acc, (acc + file_size pf.2)%Z) 0%Z l = foldr (λ pf acc, (acc + file_size pf.2)%Z) 0%Z l') as Hperm.
  { induction 1; simpl; lia. }
  rewrite (Hperm _ _ (map_to_list_insert t p f Hp)). done.
Qed.

Lemma sizes_delete p f t : t !! p = Some f → sizes (delete p t) = (sizes t - file_size f)%Z.
Proof.
  intros Hp. rewrite <- (insert_delete_id t p f Hp) at 2.
  rewrite sizes_insert by apply lookup_delete_eq. lia.
Qed.

Lemma rescan_counts t : rescan t = (i64 (Z.of_nat (size t)), i64 (sizes t)).
Proof.
  unfold rescan, sizes. rewrite <- length_map_to_list.
  induction (map_to_list t) as [|[p f] l IH]; [done|]. cbn [foldr length fst snd].
  rewrite IH. cbn [fst snd]. rewrite !i64_add_l. do 2 f_equal. lia.
Qed.

Definition no_tmp (t : tree) : Prop := ∀ p, t !! tmp_of p = None.
Definition tracked (s : Server) : Prop := no_tmp (disk s) ∧ handleHealth s = rescan (disk s).

(** Requests that do not overwrite, on a file system that does what it is told. *)
Definition plain_request (r : request) : Prop :=
  match r with
  | Put _ _ force _ io => force = false ∧ io = io_fine
  | Delete _ st ok => st = true ∧ ok = true
  | Reboot => True
  end.

Lemma put_tracked id body now s :
  tracked s → tracked (handlePut id body false now io_fine s).2.
Proof.
  intros [Ht Hc]. unfold handlePut.
  destruct (validChunkID id) eqn:Hv; [|done]. cbn [negb]. destruct body as [b|]; [|done].
  case_bool_decide as Hh; [done|]. cbn [negb andb stat_ok io_fine].
  case_bool_decide as He; [done|]. apply eq_None_not_Some in He. simpl.
  rewrite delete_insert_id by apply Ht. split; simpl.
  - intros p. rewrite lookup_insert_ne; [apply Ht|]. intros E. by apply (tmp_of_not_chunk p id).
  - unfold handleHealth in *. simpl. rewrite rescan_counts in *. injection Hc as -> ->.
    rewrite map_size_insert_None, sizes_insert by done. rewrite !i64_add_l.
    unfold file_size. simpl. do 2 f_equal. lia.
Qed.

Lemma delete_tracked id s : tracked s → tracked (handleDelete id true true s).2.
Proof.
  intros [Ht Hc]. unfold handleDelete. destruct (negb (validChunkID id)); [done|].
  destruct (disk s !! chunkPath id) as [f|] eqn:Hf; [|done]. split; simpl.
  - intros p. rewrite lookup_delete_None. right. apply Ht.
  - unfold handleHealth in *. simpl. rewrite rescan_counts in *. injection Hc as -> ->.
    rewrite map_size_delete_Some, (sizes_delete _ f) by eauto.
    assert (size (disk s) ≠ 0) as Hsz.
    { intros E. apply map_size_empty_inv in E. by rewrite E, lookup_empty in Hf. }
    unfold Z.sub. rewrite !i64_add_l. do 2 f_equal. lia.
Qed.

Lemma serve_tracked s r : plain_request r → tracked s → tracked (serve s r).
Proof.
  intros Hr Ht. destruct r as [id' body force now io|id' st ok|]; simpl.
  - destruct Hr as [-> ->]. by apply put_tracked.
  - destruct Hr as [-> ->]. by apply delete_tracked.
  - destruct Ht as [Ht _]. split; [done|]. unfold handleHealth. simpl. by destruct (rescan (disk s)).
Qed.

(** The health counters are exact for a node whose file operations succeed and
    that is not asked to force-overwrite: after any such requests the chunk count
    and byte total are those of the files on disk. *)
Theorem health_counters_exact id t rs :
  no_tmp t → Forall plain_request rs →
  let s := foldl serve (NewServer id t) rs in
  handleHealth s = (i64 (Z.of_nat (size (disk s))), i64 (sizes (disk s))).
Proof.
  intros Ht Hrs s. subst s. rewrite <- rescan_counts.
  assert (tracked (NewServer id t)) as H0.
  { split; [done|]. unfold handleHealth. simpl. by destruct (rescan t). }
  revert H0. generalize (NewServer id t).
  induction Hrs as [|r rs Hr _ IH]; intros s Hs; [apply Hs|]. by apply IH, serve_tracked.
Qed.

(** A forced overwrite counts the chunk a second time, although the number of
    files does not change. *)
Lemma forced_overwrite_drifts id b now f s :
  sha256_hex b = id → no_tmp (disk s) → disk s !! chunkPath id = Some f →
  let s' := serve s (Put id (Some b) true now io_fine) in
  size (disk s') = size (disk s) ∧ chunkCount s' = i64 (chunkCount s + 1).
Proof.
  intros <- Ht Hf. simpl. unfold handlePut, hashHex. rewrite sha256_hex_valid. cbn [negb andb].
  rewrite bool_decide_eq_false_2 by (by intros []). simpl. split; [|done].
  rewrite delete_insert_id by apply Ht. by rewrite map_size_insert_Some.
Qed.

(** ** Witnesses *)
Definition w_body : list byte := ["k"; "v"; "f"; "s"]%byte.
Definition w_id : string := hashHex w_body.
Definition w_node : Server := NewServer "dn1" ∅.
Definition w_requests : list request :=
  [Put w_id (Some w_body) false 10 io_fine; Delete "00" true true; Reboot].

#[local] Opaque sha256_hex.
Lemma w_id_spec : sha256_hex w_body = w_id.
Proof. unfold w_id, hashHex. reflexivity. Qed.
Lemma w_id_long : "00" ≠ w_id.
Proof.
  intros E. assert (String.length w_id = 2) as Hl by by rewrite <- E.
  unfold w_id, hashHex in Hl. by rewrite sha256_hex_length in Hl.
Qed.
#[local] Opaque w_id.

Lemma put_fresh_status id b force now s :
  sha256_hex b = id → disk s !! chunkPath id = None →
  (handlePut id (Some b) force now io_fine s).1 = 201%Z.
Proof.
  intros <- Hd. unfold handlePut, hashHex. rewrite sha256_hex_valid, Hd. cbn [negb].
  rewrite bool_decide_eq_false_2 by (by intros []).
  by rewrite bool_decide_eq_false_2, !andb_false_r by (by intros []).
Qed.

Lemma empty_addressed : addressed ∅.
Proof. intros id f _ Hf. by rewrite lookup_empty in Hf. Qed.

Lemma w_put_status : (handlePut w_id (Some w_body) false 10 io_fine w_node).1 ∈ [200; 201]%Z.
Proof.
  rewrite (put_fresh_status w_id w_body false 10 w_node); [set_solver|apply w_id_spec|apply lookup_empty].
Qed.

Lemma accepted_chunk_is_kept_witness :
  ∃ b, handleGet w_id true (foldl serve w_node w_requests) = (200%Z, Some b) ∧ sha256_hex b = w_id.
Proof.
  apply (accepted_chunk_is_kept w_node w_id (Some w_body) false 10 io_fine [Delete "00" true true; Reboot]).
  - apply empty_addressed.
  - apply w_put_status.
  - repeat constructor. apply w_id_long.
Defined.

Lemma get_after_put id b s :
  sha256_hex b = id → disk s !! chunkPath id = Some (MkFile b 0) → handleGet id true s = (200%Z, Some b).
Proof.
  intros <- Hd. unfold handleGet. by rewrite sha256_hex_valid, Hd.
Qed.

Lemma singleton_addressed id b now : sha256_hex b = id → addressed {[chunkPath id := MkFile b now]}.
Proof.
  intros Hb id' f Hv Hf. apply lookup_singleton_Some in Hf as [E <-].
  apply (inj chunkPath) in E. by rewrite <- E.
Qed.
Definition w_stored : Server := MkServer "dn1" {[chunkPath w_id := MkFile w_body 0]} 1 4.


Lemma health_counters_exact_witness :
  let s := foldl serve w_node w_requests in
  handleHealth s = (i64 (Z.of_nat (size (disk s))), i64 (sizes (disk s))).
Proof.
  apply (health_counters_exact "dn1" ∅ w_requests).
  - intros p. apply lookup_empty.
  - repeat constructor.
Defined.
