(* ===== verification/Merkle.v ===== *)
(** * Flat Merkle summary of a data node: internal/dn/merkle.go

    [computeMerkle] is the walk that fills the 256 prefix buckets followed by the
    hashing loop; [listBucket] reads one directory.  SHA-256 is GoLib's executable
    one, so a root comparison can only go wrong by a collision of two byte strings
    that the code itself hashes: [root_input] and [bucket_input] are those strings. *)
From S2P Require Import Prelude GF GoLib DataNode.
From Stdlib Require Import Strings.Byte Strings.Ascii.

Record MerkleBucket : Type := MkMerkleBucket { mb_Idx : nat; mb_Hash : string; mb_Count : nat }.
Record MerkleResponse : Type := MkMerkleResponse
  { mr_DN : string; mr_Root : string; mr_Total : nat; mr_Buckets : list MerkleBucket }.

(** [strconv.ParseInt(dir, 16, 32)] on the lower-case hex names that reach it. *)
Definition hex_val (c : ascii) : option nat :=
  let n := nat_of_ascii c in
  if (48 <=? n) && (n <=? 57) then Some (n - 48)
  else if (97 <=? n) && (n <=? 102) then Some (n - 87) else None.
Definition parse_hex (s : string) : option nat :=
  foldl (λ acc c, a ← acc; v ← hex_val c; Some (16 * a + v)) (Some 0) (chars s).

Definition hexNibble (n : nat) : ascii :=
  if n <? 10 then ascii_of_nat (48 + n) else ascii_of_nat (97 + (n - 10)).
Definition bucket_prefix (idx : nat) : string :=
  String (hexNibble (idx / 16)) (String (hexNibble (idx mod 16)) EmptyString).

(** ** The walk and the hashing loop *)
Definition add_to_bucket (st : list (list string) * nat) (pf : path * File) : list (list string) * nat :=
  match walk_id pf.1 with
  | None => st
  | Some id =>
      match parse_hex pf.1.1 with
      | None => st
      | Some idx => (alter (λ ids, ids ++ [id]) idx st.1, S st.2)
      end
  end.
Definition fill_buckets (t : tree) : list (list string) * nat :=
  foldl add_to_bucket (replicate 256 [], 0) (map_to_list t).

(** The bytes written to a bucket's hash: every id followed by a newline. *)
Definition bucket_bytes (ids : list string) : list byte :=
  ids ≫= λ id, bytes_of id ++ ["010"%byte].

Definition hash_bucket (buckets : list (list string)) (st : list MerkleBucket * list byte) (i : nat)
    : list MerkleBucket * list byte :=
  let ids := sort_strings (buckets !!! i) in
  let bsum := sha256 (bucket_bytes ids) in
  (st.1 ++ [MkMerkleBucket i (hex_encode bsum) (length ids)], st.2 ++ bsum).

Definition computeMerkle (s : Server) : MerkleResponse :=
  let '(buckets, total) := fill_buckets (disk s) in
  let '(resp, rootH) := for_range 0 256 (hash_bucket buckets) ([], []) in
  MkMerkleResponse (dn_id s) (hex_encode (sha256 rootH)) total resp.

(** One directory of the tree; a directory that does not exist lists nothing. *)
Definition dir_entry (prefix : string) (pf : path * File) : option string :=
  let '(dir, base) := pf.1 in
  if negb (bool_decide (dir = prefix)) then None
  else if negb (String.length base =? 62) then None
  else if validChunkID (prefix ++ base) then Some (prefix ++ base)%string else None.
Definition listBucket (idx : Z) (s : Server) : list string :=
  if (idx <? 0)%Z || (255 <? idx)%Z then []
  else sort_strings (omap (dir_entry (bucket_prefix (Z.to_nat idx))) (map_to_list (disk s))).

Definition handleMerkleBucket (idxStr : string) (s : Server) : Z * list string :=
  match parse_int idxStr with
  | None => (400%Z, [])
  | Some idx => if (idx <? 0)%Z || (255 <? idx)%Z then (400%Z, []) else (200%Z, listBucket idx s)
  end.

(** ** Hexadecimal directory names *)
Lemma hex_val_nibble c : is_hex c = true → ∃ n, hex_val c = Some n ∧ n < 16 ∧ hexNibble n = c.
Proof.
  assert (match hex_val c with
          | Some n => (n <? 16) && Ascii.eqb (hexNibble n) c | None => negb (is_hex c) end = true) as H
    by (destruct c as [[] [] [] [] [] [] [] []]; reflexivity).
  intros Hc. destruct (hex_val c) as [n|]; [|by rewrite Hc in H].
  apply andb_true_iff in H as [Hn%Nat.ltb_lt He%Ascii.eqb_eq]. eauto.
Qed.

Lemma hexNibble_spec n : n < 16 → hex_val (hexNibble n) = Some n ∧ is_hex (hexNibble n) = true.
Proof.
  intros Hn. do 16 (destruct n as [|n]; [by vm_compute|]). lia.
Qed.

Lemma parse_hex_prefix dir i :
  String.length dir = 2 → forallb is_hex (chars dir) = true → i < 256 →
  parse_hex dir = Some i ↔ dir = bucket_prefix i.
Proof.
  intros Hl Hh Hi. destruct dir as [|a [|b [|]]]; try done. simpl in Hh.
  apply andb_true_iff in Hh as [Ha Hh]. apply andb_true_iff in Hh as [Hb _].
  destruct (hex_val_nibble a Ha) as (n & Hn & Hn16 & Hna).
  destruct (hex_val_nibble b Hb) as (m & Hm & Hm16 & Hmb).
  unfold parse_hex. cbn [chars foldl mbind option_bind]. rewrite Hn. cbn [option_bind]. rewrite Hm.
  cbn [option_bind]. unfold bucket_prefix. split.
  - intros [= <-]. rewrite <- Hna, <- Hmb. repeat f_equal.
    + apply (Nat.div_unique _ _ _ m); lia.
    + apply (Nat.mod_unique _ _ n); lia.
  - intros E. assert (a = hexNibble (i / 16)) as Ea by congruence.
    assert (b = hexNibble (i mod 16)) as Eb by congruence. assert (i / 16 < 16) by (apply Nat.Div0.div_lt_upper_bound; lia).
    assert (i mod 16 < 16) by (apply Nat.mod_upper_bound; lia).
    rewrite Ea, (proj1 (hexNibble_spec _ H)) in Hn. rewrite Eb, (proj1 (hexNibble_spec _ H0)) in Hm.
    injection Hn as <-. injection Hm as <-.
    change (Some (16 * (16 * 0 + i / 16) + i mod 16) = Some i). f_equal. pose proof (Nat.div_mod_eq i 16). lia.
Qed.

(** The directory of a chunk id names a bucket. *)
Lemma bucket_of_id p id : walk_id p = Some id → ∃ i, i < 256 ∧ parse_hex p.1 = Some i ∧ p.1 = bucket_prefix i.
Proof.
  intros Hw. assert (String.length p.1 = 2 ∧ forallb is_hex (chars p.1) = true) as [Hl Hh].
  { unfold walk_id in Hw. destruct p as [dir base]. simpl.
    destruct (Nat.eqb_spec (String.length dir) 2); [|done].
    destruct (Nat.eqb_spec (String.length base) 62); [|done]. simpl in Hw.
    destruct (validChunkID (dir ++ base)) eqn:Hv; [|done]. split; [done|].
    apply andb_true_iff in Hv as [_ Hv]. rewrite chars_app, forallb_app in Hv.
    by apply andb_true_iff in Hv as [? _]. }
  assert (∃ i, i < 256 ∧ parse_hex p.1 = Some i) as (i & Hi & Hp).
  { destruct p as [dir base]. simpl in *. destruct dir as [|a [|b [|]]]; try done. simpl in Hh.
    apply andb_true_iff in Hh as [Ha Hh]. apply andb_true_iff in Hh as [Hb _].
    destruct (hex_val_nibble a Ha) as (n & Hn & Hn16 & Hna).
    destruct (hex_val_nibble b Hb) as (m & Hm & Hm16 & Hmb).
    exists (16 * n + m). split; [lia|]. unfold parse_hex. cbn [chars foldl mbind option_bind].
    rewrite Hn. cbn [option_bind]. by rewrite Hm. }
  exists i. split_and!; [done|done|]. by apply parse_hex_prefix.
Qed.

(** ** Contents of the buckets *)
Definition in_bucket (i : nat) (pf : path * File) : option string :=
  if bool_decide (parse_hex pf.1.1 = Some i) then walk_id pf.1 else None.

Lemma dir_entry_in_bucket i pf : i < 256 → dir_entry (bucket_prefix i) pf = in_bucket i pf.
Proof.
  intros Hi. destruct pf as [[dir base] f]. unfold in_bucket, dir_entry. simpl.
  case_bool_decide as Hd; simpl.
  - subst dir. assert (i / 16 < 16) by (apply Nat.Div0.div_lt_upper_bound; lia).
    assert (i mod 16 < 16) by (apply Nat.mod_upper_bound; lia).
    rewrite bool_decide_eq_true_2; [done|]. apply parse_hex_prefix; [done| |done|done].
    unfold bucket_prefix. cbn [chars forallb].
    by rewrite (proj2 (hexNibble_spec _ H)), (proj2 (hexNibble_spec _ H0)).
  - destruct (walk_id (dir, base)) as [id|] eqn:Hw; [|by case_bool_decide].
    destruct (bucket_of_id _ _ Hw) as (j & Hj & Hp & E). simpl in Hp, E.
    rewrite bool_decide_eq_false_2; [done|]. rewrite Hp. intros [= ->]. done.
Qed.

Lemma fill_buckets_from l bs n :
  length bs = 256 →
  let r := foldl add_to_bucket (bs, n) l in
  length r.1 = 256 ∧ r.2 = n + length (omap (λ pf, walk_id pf.1) l) ∧
  ∀ i, i < 256 → r.1 !!! i = bs !!! i ++ omap (in_bucket i) l.
Proof.
  revert bs n. induction l as [|pf l IH]; intros bs n Hbs.
  { split_and!; [done|simpl; lia|]. intros i _. by rewrite app_nil_r. }
  intros r. assert (r = foldl add_to_bucket (add_to_bucket (bs, n) pf) l) as -> by done.
  destruct (walk_id pf.1) as [id|] eqn:Hw.
  - destruct (bucket_of_id _ _ Hw) as (j & Hj & Hp & _).
    assert (add_to_bucket (bs, n) pf = (alter (λ ids, ids ++ [id]) j bs, S n)) as ->.
    { unfold add_to_bucket. by rewrite Hw, Hp. }
    destruct (IH (alter (λ ids, ids ++ [id]) j bs) (S n)) as (Hl & Hn & Hb).
    { by rewrite length_alter. }
    split_and!; [done| |].
    { rewrite Hn, omap_cons, Hw. cbn [length]. lia. }
    intros i Hi. rewrite Hb by done.
    assert (in_bucket i pf = if decide (i = j) then Some id else None) as Hin.
    { unfold in_bucket. rewrite Hp, Hw. case_decide; case_bool_decide; congruence. }
    destruct (lookup_lt_is_Some_2 bs i) as [ids Hids]; [lia|].
    rewrite !list_lookup_total_alt. simpl. rewrite Hin. case_decide as E.
    + subst. rewrite list_lookup_alter_eq, Hids. simpl. by rewrite <- app_assoc.
    + by rewrite list_lookup_alter_ne.
  - assert (add_to_bucket (bs, n) pf = (bs, n)) as -> by (unfold add_to_bucket; by rewrite Hw).
    destruct (IH bs n Hbs) as (Hl & Hn & Hb). split_and!; [done| |].
    { by rewrite Hn, omap_cons, Hw. }
    intros i Hi. rewrite Hb by done. simpl.
    replace (in_bucket i pf) with (None : option string); [done|].
    unfold in_bucket. rewrite Hw. by case_bool_decide.
Qed.

Lemma bucket_listed t i s : disk s = t → i < 256 →
  sort_strings ((fill_buckets t).1 !!! i) = listBucket (Z.of_nat i) s.
Proof.
  intros <- Hi. unfold listBucket. rewrite (proj2 (Z.ltb_ge _ _)), (proj2 (Z.ltb_ge _ _)) by lia. simpl.
  destruct (fill_buckets_from (map_to_list (disk s)) (replicate 256 []) 0) as (_ & _ & Hb); [done|].
  unfold fill_buckets. rewrite Hb by done. rewrite lookup_total_replicate_2 by done. simpl. f_equal.
  rewrite Nat2Z.id. clear Hb. induction (map_to_list (disk s)) as [|pf l IH]; [done|]. cbn [omap list_omap].
  by rewrite dir_entry_in_bucket, IH.
Qed.

(** ** What is hashed *)
Definition bucket_input (s : Server) (i : nat) : list byte := bucket_bytes (listBucket (Z.of_nat i) s).
Definition root_input (s : Server) : list byte := seq 0 256 ≫= λ i, sha256 (bucket_input s i).
Definition summary (s : Server) (i : nat) : MerkleBucket :=
  MkMerkleBucket i (hex_encode (sha256 (bucket_input s i))) (length (listBucket (Z.of_nat i) s)).

Lemma hash_loop s l st :
  (∀ i, i ∈ l → i < 256) →
  foldl (hash_bucket (fill_buckets (disk s)).1) st l =
  (st.1 ++ (summary s <$> l), st.2 ++ (l ≫= λ i, sha256 (bucket_input s i))).
Proof.
  revert st. induction l as [|i l IH]; intros st Hl.
  { destruct st. simpl. by rewrite !app_nil_r. }
  cbn [foldl]. rewrite IH by (intros j Hj; apply Hl; by right).
  unfold hash_bucket. rewrite (bucket_listed _ i s) by (try done; apply Hl; by left).
  cbn [fst snd]. fold (bucket_input s i). simpl. by rewrite <- !app_assoc.
Qed.

Lemma computeMerkle_eq s :
  computeMerkle s = MkMerkleResponse (dn_id s) (hex_encode (sha256 (root_input s)))
    (fill_buckets (disk s)).2 (summary s <$> seq 0 256).
Proof.
  unfold computeMerkle, for_range. pose proof (hash_loop s (seq 0 256) ([], [])) as Hl.
  destruct (fill_buckets (disk s)) as [bs n] eqn:E. cbn [fst snd] in Hl.
  rewrite Hl; [done|]. intros i [_ Hi]%elem_of_seq. lia.
Qed.

(** The node has a file for this chunk. *)
Definition holds (s : Server) (id : string) : Prop :=
  validChunkID id = true ∧ is_Some (disk s !! chunkPath id).

Lemma elem_of_listBucket s i id : i < 256 →
  id ∈ listBucket (Z.of_nat i) s ↔ holds s id ∧ (chunkPath id).1 = bucket_prefix i.
Proof.
  intros Hi. unfold listBucket. rewrite (proj2 (Z.ltb_ge _ _)), (proj2 (Z.ltb_ge _ _)) by lia. simpl.
  rewrite elem_of_sort_strings, list_elem_of_omap, Nat2Z.id. split.
  - intros ([p f] & Hin & He). apply elem_of_map_to_list in Hin. rewrite dir_entry_in_bucket in He by done.
    unfold in_bucket in He. simpl in He. case_bool_decide as Hp; [|done].
    destruct (bucket_of_id _ _ He) as (j & Hj & Hp' & E). apply walk_id_some in He as [Hv ->].
    split; [split; [done|by rewrite Hin]|]. congruence.
  - intros [[Hv [f Hf]] Hp]. exists (chunkPath id, f). split; [by apply elem_of_map_to_list|].
    rewrite dir_entry_in_bucket by done. pose proof (walk_id_chunkPath id Hv) as Hw.
    destruct (bucket_of_id _ _ Hw) as (j & Hj & Hp' & E). unfold in_bucket. simpl.
    rewrite bool_decide_eq_true_2; [done|]. rewrite Hp'. f_equal.
    assert (parse_hex (bucket_prefix j) = parse_hex (bucket_prefix i)) as E' by congruence.
    assert (∀ k, k < 256 → parse_hex (bucket_prefix k) = Some k) as Hk.
    { intros k Hk. unfold bucket_prefix.
      assert (k / 16 < 16) as H1 by (apply Nat.Div0.div_lt_upper_bound; lia).
      assert (k mod 16 < 16) as H2 by (apply Nat.mod_upper_bound; lia).
      apply parse_hex_prefix; [done| |done|done]. cbn [chars forallb].
      by rewrite (proj2 (hexNibble_spec _ H1)), (proj2 (hexNibble_spec _ H2)). }
    rewrite !Hk in E' by done. by injection E'.
Qed.

Lemma holds_listed s id : holds s id ↔ ∃ i, i < 256 ∧ id ∈ listBucket (Z.of_nat i) s.
Proof.
  split.
  - intros Hh. pose proof (walk_id_chunkPath id (proj1 Hh)) as Hw.
    destruct (bucket_of_id _ _ Hw) as (i & Hi & _ & Hp). exists i. split; [done|].
    by apply elem_of_listBucket.
  - intros (i & Hi & Hin). by apply elem_of_listBucket in Hin as [? _].
Qed.

Lemma NoDup_listBucket s i : i < 256 → NoDup (listBucket (Z.of_nat i) s).
Proof.
  intros Hi. unfold listBucket. rewrite (proj2 (Z.ltb_ge _ _)), (proj2 (Z.ltb_ge _ _)) by lia. simpl.
  rewrite sort_strings_Permutation, Nat2Z.id. apply NoDup_omap_inj; [|apply NoDup_map_to_list].
  intros [p f] [q g] id Hp%elem_of_map_to_list Hq%elem_of_map_to_list.
  rewrite !dir_entry_in_bucket by done. unfold in_bucket. simpl.
  do 2 case_bool_decide; try done.
  intros [_ ->]%walk_id_some [_ ->]%walk_id_some. congruence.
Qed.

Lemma listBucket_same s1 s2 i : i < 256 →
  (∀ id, holds s1 id ↔ holds s2 id) → listBucket (Z.of_nat i) s1 = listBucket (Z.of_nat i) s2.
Proof.
  intros Hi Hs. assert (∀ s, sort_strings (listBucket (Z.of_nat i) s) = listBucket (Z.of_nat i) s) as Hsort.
  { intros s. unfold listBucket. rewrite (proj2 (Z.ltb_ge _ _)), (proj2 (Z.ltb_ge _ _)) by lia. simpl.
    apply sort_strings_perm, sort_strings_Permutation. }
  rewrite <- (Hsort s1), <- (Hsort s2). apply sort_strings_perm.
  apply NoDup_Permutation; try by apply NoDup_listBucket.
  intros id. by rewrite !elem_of_listBucket, Hs.
Qed.

Lemma bytes_of_length s : length (bytes_of s) = String.length s.
Proof. induction s as [|c s IH]; [done|]. cbn [String.length]. rewrite <- IH. done. Qed.

Lemma bucket_bytes_inj l1 l2 :
  Forall (λ id, String.length id = 64) l1 → Forall (λ id, String.length id = 64) l2 →
  bucket_bytes l1 = bucket_bytes l2 → l1 = l2.
Proof.
  intros H1. revert l2. induction H1 as [|x l1 Hx _ IH]; intros l2 H2 E.
  - destruct l2 as [|y l2]; [done|]. apply (f_equal length) in E. unfold bucket_bytes in E.
    rewrite bind_cons, !length_app in E. simpl in E. lia.
  - destruct H2 as [|y l2 Hy H2].
    + apply (f_equal length) in E. unfold bucket_bytes in E. rewrite bind_cons, !length_app in E. simpl in E. lia.
    + unfold bucket_bytes in E. rewrite !bind_cons in E. apply app_inj_1 in E as [E1 E2].
      * apply app_inv_tail, (inj bytes_of) in E1. subst. f_equal. by apply IH.
      * by rewrite !length_app, !bytes_of_length, Hx, Hy.
Qed.

Lemma listBucket_lengths s i : i < 256 → Forall (λ id, String.length id = 64) (listBucket (Z.of_nat i) s).
Proof.
  intros Hi. apply Forall_forall. intros id [[Hv _] _]%elem_of_listBucket; [|done].
  by apply andb_true_iff in Hv as [?%Nat.eqb_eq _].
Qed.

Lemma blocks_inj {A} (f g : nat → list A) l k :
  (∀ i, length (f i) = k) → (∀ i, length (g i) = k) → l ≫= f = l ≫= g → Forall (λ i, f i = g i) l.
Proof.
  intros Hf Hg. induction l as [|i l IH]; intros E; [constructor|].
  rewrite !bind_cons in E. apply app_inj_1 in E as [E1 E2]; [|by rewrite Hf, Hg].
  constructor; auto.
Qed.

(** Two different byte strings with the same SHA-256. *)
Definition collide (x y : list byte) : Prop := x ≠ y ∧ sha256 x = sha256 y.

Lemma bucket_hash_decides s1 s2 i : i < 256 →
  sha256 (bucket_input s1 i) = sha256 (bucket_input s2 i) →
  listBucket (Z.of_nat i) s1 = listBucket (Z.of_nat i) s2 ∨ collide (bucket_input s1 i) (bucket_input s2 i).
Proof.
  intros Hi E. destruct (decide (bucket_input s1 i = bucket_input s2 i)) as [E'|E']; [left|by right].
  by apply bucket_bytes_inj in E'; [..|apply listBucket_lengths|apply listBucket_lengths].
Qed.

(** C26: nodes with the same chunk ids produce the same Merkle summary, whatever the
    order of the walk; and if two roots agree the nodes hold the same ids, or the
    strings the code hashed (the two root inputs, or the inputs of one bucket)
    are an explicit SHA-256 collision. *)
Theorem merkle_root_decides_inventory s1 s2 :
  ((∀ id, holds s1 id ↔ holds s2 id) →
     mr_Root (computeMerkle s1) = mr_Root (computeMerkle s2) ∧
     mr_Buckets (computeMerkle s1) = mr_Buckets (computeMerkle s2)) ∧
  (mr_Root (computeMerkle s1) = mr_Root (computeMerkle s2) →
     (∀ id, holds s1 id ↔ holds s2 id) ∨ collide (root_input s1) (root_input s2) ∨
     ∃ i, i < 256 ∧ collide (bucket_input s1 i) (bucket_input s2 i)).
Proof.
  rewrite !computeMerkle_eq. cbn [mr_Root mr_Buckets]. split.
  - intros Hs.
    assert (∀ i, i ∈ seq 0 256 → listBucket (Z.of_nat i) s1 = listBucket (Z.of_nat i) s2) as Hl.
    { intros i [_ Hi]%elem_of_seq. apply listBucket_same; [lia|done]. }
    split; [do 2 f_equal; apply bind_ext_in|apply list_fmap_ext].
    + intros i Hin. unfold bucket_input. by rewrite (Hl i Hin).
    + intros j i Hin%list_elem_of_lookup_2. unfold summary, bucket_input. by rewrite (Hl i Hin).
  - intros E%(inj hex_encode).
    destruct (decide (root_input s1 = root_input s2)) as [Er|Er]; [|right; by left].
    apply (blocks_inj _ _ _ 32) in Er; [|intros; apply sha256_length|intros; apply sha256_length].
    destruct (decide (Forall (λ i, bucket_input s1 i = bucket_input s2 i) (seq 0 256))) as [Hb|Hb].
    + left. intros id.
      assert (∀ i, i < 256 → listBucket (Z.of_nat i) s1 = listBucket (Z.of_nat i) s2) as Hl.
      { intros i Hi. apply bucket_bytes_inj; try by apply listBucket_lengths.
        rewrite Forall_forall in Hb. apply Hb, elem_of_seq. lia. }
      rewrite !holds_listed. split; intros (i & Hi & Hin); exists i; (split; [done|]).
      * by rewrite <- Hl.
      * by rewrite Hl.
    + right. right. apply not_Forall_Exists, Exists_exists in Hb as (i & Hin & Hne); [|apply _].
      exists i. rewrite Forall_forall in Er. split; [|split; [done|by apply Er]].
      apply elem_of_seq in Hin. lia.
Qed.

(** The bucket endpoint and the summary describe the same listing: bucket [i]'s
    hash and count are those of [listBucket i], which lists, once each, the ids
    held under prefix [i]; every id held is in one of the 256 listings. *)
Theorem merkle_bucket_listing s i :
  i < 256 →
  mr_Buckets (computeMerkle s) !! i =
    Some (MkMerkleBucket i (sha256_hex (bucket_bytes (listBucket (Z.of_nat i) s)))
                         (length (listBucket (Z.of_nat i) s))) ∧
  handleMerkleBucket (itoa (Z.of_nat i)) s = (200%Z, listBucket (Z.of_nat i) s) ∧
  NoDup (listBucket (Z.of_nat i) s) ∧
  (∀ id, id ∈ listBucket (Z.of_nat i) s ↔ holds s id ∧ (chunkPath id).1 = bucket_prefix i) ∧
  ∀ id, holds s id → ∃ j, j < 256 ∧ id ∈ listBucket (Z.of_nat j) s.
Proof.
  intros Hi. split_and!.
  - rewrite computeMerkle_eq. cbn [mr_Buckets]. rewrite list_lookup_fmap, lookup_seq_lt by done. done.
  - unfold handleMerkleBucket. rewrite parse_itoa.
    + by rewrite (proj2 (Z.ltb_ge _ _)), (proj2 (Z.ltb_ge _ _)) by lia.
    + unfold int64_ok. apply andb_true_iff. split; [apply Z.leb_le|apply Z.ltb_lt]; lia.
  - by apply NoDup_listBucket.
  - intros id. by apply elem_of_listBucket.
  - intros id. apply holds_listed.
Qed.

Lemma merkle_bucket_listing_witness :
  mr_Buckets (computeMerkle w_stored) !! 7 =
    Some (MkMerkleBucket 7 (sha256_hex (bucket_bytes (listBucket 7 w_stored)))
                         (length (listBucket 7 w_stored))).
Proof. apply (merkle_bucket_listing w_stored 7). apply Nat.ltb_lt. reflexivity. Defined.
