(* ===== verification/AntiEntropy.v ===== *)
(** * Anti-entropy: the audit of internal/coord/anti_entropy.go

    The audit compares what the metadata expects on every data node with the Merkle
    summary the node answers (Merkle.v).  The answers of the nodes are the input
    [ask]; the goroutines finish in the order [sched]. *)
From S2P Require Import Prelude GF GoLib Meta DataNode Merkle.
From Stdlib Require Import Strings.Byte.

(** What a node answers to /chunks/merkle, /chunks/merkle/bucket?idx= and
    /chunks/scrub-status; [None] for any failure. *)
Record dn_answers : Type := MkAnswers
  { a_merkle : option MerkleResponse; a_bucket : nat → option (list string); a_corrupt : option (list string) }.

Record DNAuditEntry : Type := MkAudit
  { DN : string; Reachable : bool; ExpectedTotal : nat; ActualTotal : nat; RootMatch : bool;
    MissingFromDN : list string; ExtraOnDN : list string; BucketsExamined : nat; Note : option nat }.

(** ** What the metadata expects *)
Definition validHex64 (s : string) : bool := (String.length s =? 64) && forallb is_hex (chars s).
Notation Expected := (gmap nat (list string)).

Definition add_expected (out : gmap string Expected) (dn id : string) : gmap string Expected :=
  if bool_decide (dn = "") || negb (validHex64 id) then out
  else match parse_hex (String.substring 0 2 id) with
       | None => out
       | Some idx =>
           let m := default ∅ (out !! dn) in
           <[dn := <[idx := default [] (m !! idx) ++ [id]]> m]> out
       end.
Definition add_ref (out : gmap string Expected) (c : ChunkRef) : gmap string Expected :=
  foldl (λ out dn, add_expected out dn (ChunkID c)) out (Replicas c).
Definition add_object (out : gmap string Expected) (o : ObjectMeta) : gmap string Expected :=
  let out := foldl add_ref out (Chunks o) in
  foldl (λ out st, foldl add_ref out (Shards st)) out (Stripes o).
Definition expectedChunksByDN (objs : list ObjectMeta) : gmap string Expected :=
  (λ byBucket : Expected, sort_strings <$> byBucket) <$> foldl add_object ∅ objs.

(** ** Hashes, as the node computes them *)
Definition bucket_of (m : Expected) (i : nat) : list string := default [] (m !! i).
Definition bucketHash (ids : list string) : string := hex_encode (sha256 (bucket_bytes ids)).
Definition computeExpectedRoot (byBucket : Expected) : string :=
  hex_encode (sha256 (seq 0 256 ≫= λ i, sha256 (bucket_bytes (bucket_of byBucket i)))).

Definition str_lt (a b : string) : bool := negb (bool_decide (String.le b a)).
(** [fuel] bounds the steps of the walk: the two lengths are enough. *)
Fixpoint diff_loop (fuel : nat) (a b onlyA onlyB : list string) : list string * list string :=
  match fuel, a, b with
  | S fuel, x :: a', y :: b' =>
      if str_lt x y then diff_loop fuel a' b (onlyA ++ [x]) onlyB
      else if str_lt y x then diff_loop fuel a b' onlyA (onlyB ++ [y])
      else diff_loop fuel a' b' onlyA onlyB
  | _, _, _ => (onlyA ++ a, onlyB ++ b)
  end.
Definition symmetricDiff (a b : list string) : list string * list string :=
  diff_loop (length a + length b) a b [] [].

(** ** The audit of one node *)
Definition audit_bucket (q : dn_answers) (exp : Expected) (e : DNAuditEntry) (b : MerkleBucket) : DNAuditEntry :=
  let ids := bucket_of exp (mb_Idx b) in
  if bool_decide (bucketHash ids = mb_Hash b) then e
  else
    match a_bucket q (mb_Idx b) with
    | None => MkAudit (DN e) (Reachable e) (ExpectedTotal e) (ActualTotal e) (RootMatch e) (MissingFromDN e)
                (ExtraOnDN e) (S (BucketsExamined e)) (Some (mb_Idx b))
    | Some actual =>
        let '(miss, extra) := symmetricDiff ids actual in
        MkAudit (DN e) (Reachable e) (ExpectedTotal e) (ActualTotal e) (RootMatch e) (MissingFromDN e ++ miss)
          (ExtraOnDN e ++ extra) (S (BucketsExamined e)) (Note e)
    end.

Definition auditOneDN (dn : string) (q : dn_answers) (exp : Expected) : DNAuditEntry :=
  let total := sum_list (length <$> (map_to_list exp).*2) in
  match a_merkle q with
  | None => MkAudit dn false total 0 false [] [] 0 None
  | Some r =>
      if bool_decide (computeExpectedRoot exp = mr_Root r)
      then MkAudit dn true total (mr_Total r) true [] [] 0 None
      else
        let e := foldl (audit_bucket q exp) (MkAudit dn true total (mr_Total r) false [] [] 0 None) (mr_Buckets r) in
        MkAudit (DN e) (Reachable e) (ExpectedTotal e) (ActualTotal e) (RootMatch e)
          (sort_strings (MissingFromDN e)) (sort_strings (ExtraOnDN e)) (BucketsExamined e) (Note e)
  end.

Definition entry_le (a b : DNAuditEntry) : Prop := String.le (DN a) (DN b).
#[export] Instance entry_le_dec : RelDecision entry_le.
Proof. intros a b. unfold entry_le. apply _. Defined.
#[export] Instance entry_le_trans : Transitive entry_le.
Proof. intros a b c. unfold entry_le. apply transitivity. Qed.
#[export] Instance entry_le_total : Total entry_le.
Proof. intros a b. unfold entry_le. apply (total String.le). Qed.

Section audit.
Context (sched : list string → list string).
Context (ask : string → dn_answers).

(** [dns] is the registry, [objs] the objects. *)
Definition runAntiEntropy (objs : list ObjectMeta) (dns : list string) : list DNAuditEntry :=
  let expected := expectedChunksByDN objs in
  merge_sort entry_le ((λ dn, auditOneDN dn (ask dn) (default ∅ (expected !! dn))) <$> sched dns).

End audit.

(** ** Multiplicities *)
Definition times {A} `{EqDecision A} (x : A) (l : list A) : nat := length (filter (x =.) l).

Lemma times_cons {A} `{EqDecision A} (x y : A) l : times x (y :: l) = (if decide (x = y) then 1 else 0) + times x l.
Proof. unfold times. rewrite filter_cons. by case_decide. Qed.
Lemma times_app {A} `{EqDecision A} (x : A) l l' : times x (l ++ l') = times x l + times x l'.
Proof. unfold times. by rewrite filter_app, length_app. Qed.
Lemma times_pos {A} `{EqDecision A} (x : A) l : 0 < times x l ↔ x ∈ l.
Proof.
  induction l as [|y l IH]; [by rewrite elem_of_nil; split; [vm_compute; lia|]|].
  rewrite times_cons, elem_of_cons, <- IH. case_decide; [split; [by left|lia]|].
  split; [by right|]. intros [?|?]; [done|lia].
Qed.
Lemma times_NoDup {A} `{EqDecision A} (x : A) l : NoDup l → times x l ≤ 1.
Proof.
  induction 1 as [|y l Hy _ IH]; [by vm_compute; lia|]. rewrite times_cons. case_decide; [|lia].
  destruct (decide (0 < times x l)) as [Hx%times_pos|]; [by subst|lia].
Qed.
#[export] Instance times_Permutation {A} `{EqDecision A} (x : A) : Proper ((≡ₚ) ==> (=)) (times x).
Proof. intros l l' H. unfold times. by rewrite H. Qed.

(** ** The two-pointer walk *)
Lemma str_lt_le a b : str_lt a b = true → String.le a b ∧ ¬ String.le b a.
Proof.
  unfold str_lt. rewrite negb_true_iff, bool_decide_eq_false. intros H. split; [|done].
  by destruct (total String.le a b).
Qed.
Lemma lt_all_absent x y l : str_lt x y = true → StronglySorted String.le (y :: l) → times x (y :: l) = 0.
Proof.
  intros [Hle Hn]%str_lt_le Hs. destruct (decide (0 < times x (y :: l))) as [Hin%times_pos|]; [|lia].
  exfalso. apply elem_of_cons in Hin as [->|Hin]; [done|].
  apply StronglySorted_inv in Hs as [_ Hs]. rewrite Forall_forall in Hs. by apply Hn, Hs.
Qed.

Lemma diff_loop_times fuel a b onlyA onlyB id :
  StronglySorted String.le a → StronglySorted String.le b → length a + length b ≤ fuel →
  let r := diff_loop fuel a b onlyA onlyB in
  times id r.1 = times id onlyA + (times id a - times id b) ∧
  times id r.2 = times id onlyB + (times id b - times id a).
Proof.
  revert a b onlyA onlyB. induction fuel as [|fuel IH]; intros a b onlyA onlyB Ha Hb Hf; cbn zeta.
  { destruct a, b; simpl in Hf; try lia. cbn [diff_loop fst snd]. rewrite !times_app.
    change (times id (@nil string)) with 0. lia. }
  destruct a as [|x a], b as [|y b]; cbn [diff_loop fst snd length] in *.
  1-3: rewrite !times_app; change (times id (@nil string)) with 0; lia.
  destruct (str_lt x y) eqn:Hxy; [|destruct (str_lt y x) eqn:Hyx].
  - edestruct (IH a (y :: b)) as [-> ->]; [by eapply StronglySorted_inv|done|simpl; lia|].
    pose proof (lt_all_absent _ _ _ Hxy Hb) as H0. rewrite times_app, (times_cons id x a), (times_cons id x []).
    change (times id (@nil string)) with 0. case_decide; subst; lia.
  - edestruct (IH (x :: a) b) as [-> ->]; [done|by eapply StronglySorted_inv|simpl; lia|].
    pose proof (lt_all_absent _ _ _ Hyx Ha) as H0. rewrite times_app, (times_cons id y b), (times_cons id y []).
    change (times id (@nil string)) with 0. case_decide; subst; lia.
  - assert (x = y) as ->.
    { apply negb_false_iff, bool_decide_eq_true in Hxy, Hyx. by apply (anti_symm String.le). }
    edestruct (IH a b) as [-> ->]; [by eapply StronglySorted_inv|by eapply StronglySorted_inv|lia|].
    rewrite !times_cons. lia.
Qed.

Lemma symmetricDiff_times a b id :
  StronglySorted String.le a → StronglySorted String.le b →
  times id (symmetricDiff a b).1 = times id a - times id b ∧
  times id (symmetricDiff a b).2 = times id b - times id a.
Proof. intros Ha Hb. by apply (diff_loop_times _ a b [] [] id Ha Hb). Qed.

Lemma symmetricDiff_same a : symmetricDiff a a = ([], []).
Proof.
  unfold symmetricDiff. assert (∀ n, length a ≤ n → diff_loop n a a [] [] = ([], [])) as H; [|apply H; lia].
  induction a as [|x a IH]; intros [|n] Hl; simpl in *; try done; [lia|].
  unfold str_lt. rewrite bool_decide_eq_true_2 by reflexivity. simpl. apply IH. lia.
Qed.

Lemma symmetricDiff_nil a b : symmetricDiff a b = ([], []) → a = b.
Proof.
  unfold symmetricDiff. assert (∀ n a b oa ob, length a + length b ≤ n →
    diff_loop n a b oa ob = ([], []) → oa = [] ∧ ob = [] ∧ a = b) as H.
  2:{ intros E. by apply H in E as (_ & _ & ?). }
  clear. induction n as [|n IH]; intros a b oa ob Hl E.
  { destruct a, b; simpl in Hl; try lia. injection E as [-> _]%app_eq_nil [-> _]%app_eq_nil. done. }
  destruct a as [|x a], b as [|y b]; cbn [diff_loop length] in *;
    try (injection E as [-> ?]%app_eq_nil [-> ?]%app_eq_nil; naive_solver).
  destruct (str_lt x y) eqn:Hxy; [|destruct (str_lt y x) eqn:Hyx].
  - apply IH in E as (E & _); [|simpl; lia]. by apply app_eq_nil in E as [_ ?].
  - apply IH in E as (_ & E & _); [|simpl; lia]. by apply app_eq_nil in E as [_ ?].
  - apply negb_false_iff, bool_decide_eq_true in Hxy, Hyx. apply IH in E as (-> & -> & ->); [|lia].
    split_and!; [done|done|]. f_equal. by apply (anti_symm String.le).
Qed.

(** ** What the expected buckets hold *)
(** The (address, chunk id) pairs the metadata lists, in the order of the walk. *)
Definition places (objs : list ObjectMeta) : list (string * string) :=
  objs ≫= λ o, refs o ≫= λ c, (λ dn, (dn, ChunkID c)) <$> Replicas c.

Definition at_place (dn : string) (i : nat) (p : string * string) : option string :=
  if bool_decide (p.1 = dn) && bool_decide (p.1 ≠ "") && validHex64 p.2 && bool_decide ((chunkPath p.2).1 = bucket_prefix i)
  then Some p.2 else None.

Lemma foldl_bind {A B C} (f : A → C → A) (g : B → list C) (a : A) (l : list B) :
  foldl f a (l ≫= g) = foldl (λ a b, foldl f a (g b)) a l.
Proof. revert a. induction l as [|b l IH]; intros a; [done|]. rewrite bind_cons, foldl_app, IH. done. Qed.
Lemma foldl_fmap {A B C} (f : A → C → A) (g : B → C) (a : A) (l : list B) :
  foldl f a (g <$> l) = foldl (λ a b, f a (g b)) a l.
Proof. revert a. induction l as [|b l IH]; intros a; [done|]. apply IH. Qed.
Lemma foldl_ext_eq {A B} (f g : A → B → A) (a : A) (l : list B) :
  (∀ a b, f a b = g a b) → foldl f a l = foldl g a l.
Proof. intros H. revert a. induction l as [|b l IH]; intros a; [done|]. simpl. rewrite H. apply IH. Qed.

Lemma add_objects_places objs out :
  foldl add_object out objs = foldl (λ out p, add_expected out p.1 p.2) out (places objs).
Proof.
  unfold places. rewrite foldl_bind. apply foldl_ext_eq. intros out' o. rewrite foldl_bind.
  rewrite (foldl_ext_eq _ add_ref) by (intros ? c; by rewrite foldl_fmap).
  unfold refs. by rewrite foldl_app, foldl_bind.
Qed.

Lemma expected_idx id : validHex64 id = true →
  ∃ i, i < 256 ∧ parse_hex (String.substring 0 2 id) = Some i ∧ (chunkPath id).1 = bucket_prefix i.
Proof.
  intros Hv. destruct (bucket_of_id _ _ (walk_id_chunkPath id Hv)) as (i & Hi & Hp & Hb).
  exists i. split_and!; [done| |done]. rewrite <- Hp. f_equal.
  destruct id as [|a [|b id]]; [done|done|]. unfold chunkPath. cbn [split_at fst].
  change (String.substring 0 2 (String a (String b id))) with (String a (String b (String.substring 0 0 id))).
  by destruct id.
Qed.

Lemma bucket_prefix_inj i j : i < 256 → j < 256 → bucket_prefix i = bucket_prefix j → i = j.
Proof.
  intros Hi Hj E. unfold bucket_prefix in E.
  assert (hexNibble (i / 16) = hexNibble (j / 16)) as E1 by congruence.
  assert (hexNibble (i mod 16) = hexNibble (j mod 16)) as E2 by congruence. clear E.
  assert (∀ n m, n < 16 → m < 16 → hexNibble n = hexNibble m → n = m) as H.
  { intros n m Hn Hm H. apply (f_equal hex_val) in H.
    rewrite (proj1 (hexNibble_spec _ Hn)), (proj1 (hexNibble_spec _ Hm)) in H. by injection H. }
  apply H in E1, E2; try (by apply Nat.mod_upper_bound); try (by apply Nat.Div0.div_lt_upper_bound).
  pose proof (Nat.div_mod_eq i 16). pose proof (Nat.div_mod_eq j 16). lia.
Qed.

Notation expected_at out dn i := (bucket_of (default ∅ (out !! dn)) i).

Lemma add_expected_at out p dn i : i < 256 →
  expected_at (add_expected out p.1 p.2) dn i = expected_at out dn i ++ omap (at_place dn i) [p].
Proof.
  intros Hi. destruct p as [d id]. unfold add_expected, at_place. simpl.
  case_bool_decide as Hd; [subst d; simpl; by rewrite andb_false_r, app_nil_r|].
  destruct (validHex64 id) eqn:Hv; simpl; [|by rewrite andb_false_r, app_nil_r].
  destruct (expected_idx _ Hv) as (j & Hj & Hp & Hb). rewrite Hp, Hb.
  destruct (decide (d = dn)) as [->|Hne].
  2:{ rewrite lookup_insert_ne by done. rewrite (bool_decide_eq_false_2 (d = dn)) by done. simpl. by rewrite app_nil_r. }
  rewrite lookup_insert_eq, (bool_decide_eq_true_2 (dn = dn)), (bool_decide_eq_true_2 (dn ≠ "")) by done. simpl. unfold bucket_of.
  destruct (decide (j = i)) as [->|Hne].
  - rewrite lookup_insert_eq, bool_decide_eq_true_2 by done. done.
  - rewrite lookup_insert_ne by done. rewrite bool_decide_eq_false_2; [by rewrite app_nil_r|].
    intros E. by apply bucket_prefix_inj in E.
Qed.

Lemma add_all_at l out dn i : i < 256 →
  expected_at (foldl (λ out p, add_expected out p.1 p.2) out l) dn i = expected_at out dn i ++ omap (at_place dn i) l.
Proof.
  intros Hi. revert out. induction l as [|p l IH]; intros out; [by rewrite app_nil_r|].
  simpl foldl. rewrite IH, add_expected_at by done. rewrite <- app_assoc. f_equal.
  change (p :: l) with ([p] ++ l). by rewrite omap_app.
Qed.

Lemma expected_bucket objs dn i : i < 256 →
  expected_at (expectedChunksByDN objs) dn i = sort_strings (omap (at_place dn i) (places objs)).
Proof.
  intros Hi. unfold expectedChunksByDN. rewrite add_objects_places, lookup_fmap.
  pose proof (add_all_at (places objs) ∅ dn i Hi) as H. rewrite lookup_empty in H. 
  change (bucket_of (default ∅ None) i) with (@nil string) in H. rewrite app_nil_l in H. rewrite <- H. clear H.
  destruct (foldl _ ∅ (places objs) !! dn) as [m|]; [|done]. simpl. unfold bucket_of.
  rewrite lookup_fmap. by destruct (m !! i).
Qed.

Lemma at_place_some dn i p id :
  at_place dn i p = Some id ↔
  p = (dn, id) ∧ dn ≠ "" ∧ validHex64 id = true ∧ (chunkPath id).1 = bucket_prefix i.
Proof.
  destruct p as [d id']. unfold at_place. simpl. split.
  - intros H. repeat case_bool_decide; try done; destruct (validHex64 id') eqn:?; simpl in H; try done.
    by simplify_eq.
  - intros ([= -> ->] & Hne & -> & Hb). rewrite !bool_decide_eq_true_2; done.
Qed.

Lemma times_omap_place dn i id l : dn ≠ "" →
  times id (omap (at_place dn i) l) =
  if decide (validHex64 id = true ∧ (chunkPath id).1 = bucket_prefix i) then times (dn, id) l else 0.
Proof.
  intros Hdn. induction l as [|p l IH]; [by case_decide|]. rewrite omap_cons, times_cons.
  destruct (at_place dn i p) as [id'|] eqn:Hp.
  - rewrite times_cons, IH. apply at_place_some in Hp as (-> & _ & Hv & Hb).
    repeat case_decide; simplify_eq; try done; try lia. exfalso; eauto.
  - rewrite IH. repeat case_decide; try done. subst p. 
    assert (at_place dn i (dn, id) = Some id) by (apply at_place_some; naive_solver). congruence.
Qed.

(** How often [id] is expected in bucket [i] of [dn]. *)
Lemma times_expected objs dn i id : i < 256 → dn ≠ "" →
  times id (expected_at (expectedChunksByDN objs) dn i) =
  if decide (validHex64 id = true ∧ (chunkPath id).1 = bucket_prefix i) then times (dn, id) (places objs) else 0.
Proof. intros Hi Hdn. rewrite expected_bucket, sort_strings_Permutation by done. by apply times_omap_place. Qed.

(** ** The audit of a node that answers for [s] *)
Lemma surjective_pairing_2 {A B} (p : A * B) a b : p.1 = a → p.2 = b → p = (a, b).
Proof. destruct p. simpl. congruence. Qed.
Lemma sort_strings_sorted l : StronglySorted String.le (sort_strings l).
Proof. apply (StronglySorted_merge_sort String.le). Qed.
Lemma sorted_listBucket s i : StronglySorted String.le (listBucket i s).
Proof. unfold listBucket. case_match; [constructor|apply sort_strings_sorted]. Qed.
Definition answers (s : Server) (q : dn_answers) : Prop :=
  a_merkle q = Some (computeMerkle s) ∧ ∀ i, i < 256 → a_bucket q i = Some (listBucket (Z.of_nat i) s).

Definition exp_root_input (exp : Expected) : list byte := seq 0 256 ≫= λ i, sha256 (bucket_bytes (bucket_of exp i)).
(** Two strings hashed by the audit and by the node that collide. *)
Definition audit_collision (exp : Expected) (s : Server) : Prop :=
  collide (exp_root_input exp) (root_input s) ∨
  ∃ i, i < 256 ∧ collide (bucket_bytes (bucket_of exp i)) (bucket_input s i).
#[export] Instance collide_dec x y : Decision (collide x y).
Proof. unfold collide. apply _. Defined.
Lemma audit_collision_dec exp s : audit_collision exp s ∨ ¬ audit_collision exp s.
Proof.
  unfold audit_collision. destruct (decide (collide (exp_root_input exp) (root_input s))); [by left; left|].
  destruct (decide (Exists (λ i, collide (bucket_bytes (bucket_of exp i)) (bucket_input s i)) (seq 0 256))) as [He|He];
    rewrite Exists_exists in He; setoid_rewrite elem_of_seq in He.
  - left. right. destruct He as (i & Hi & ?). exists i. split; [lia|done].
  - right. intros [?|(i & Hi & ?)]; [done|]. apply He. exists i. split; [lia|done].
Qed.

Section one_audit.
Context (exp : Expected) (s : Server) (q : dn_answers).
Context (Hexp : ∀ i, i < 256 → StronglySorted String.le (bucket_of exp i) ∧
                   Forall (λ id, String.length id = 64) (bucket_of exp i)).
Context (Hq : answers s q) (Hnc : ¬ audit_collision exp s).
#[local] Notation listed i := (listBucket (Z.of_nat i) s).

Lemma bucket_hash_exact i : i < 256 →
  bucketHash (bucket_of exp i) = mb_Hash (summary s i) ↔ bucket_of exp i = listed i.
Proof.
  intros Hi. unfold bucketHash, summary, bucket_input. cbn [mb_Hash]. split; [|by intros ->].
  intros E%(inj hex_encode). apply bucket_bytes_inj; [by apply Hexp|by apply listBucket_lengths|].
  destruct (decide (bucket_bytes (bucket_of exp i) = bucket_bytes (listed i))) as [|Hne]; [done|].
  destruct Hnc. right. by exists i.
Qed.

Lemma root_exact : computeExpectedRoot exp = mr_Root (computeMerkle s) ↔ ∀ i, i < 256 → bucket_of exp i = listed i.
Proof.
  rewrite computeMerkle_eq. cbn [mr_Root]. split.
  - intros E%(inj hex_encode) i Hi.
    destruct (decide (exp_root_input exp = root_input s)) as [Er|Er]; [|destruct Hnc; left; by split].
    apply (blocks_inj _ _ _ 32) in Er; [|intros; apply sha256_length..].
    rewrite Forall_forall in Er. apply bucket_hash_exact; [done|].
    unfold bucketHash, summary. cbn [mb_Hash]. f_equal. apply Er, elem_of_seq. lia.
  - intros H. unfold computeExpectedRoot. do 2 f_equal. apply bind_ext_in. intros i [_ Hi]%elem_of_seq.
    unfold bucket_input. rewrite H by lia. done.
Qed.

Lemma audit_buckets l e :
  (∀ i, i ∈ l → i < 256) →
  let e' := foldl (audit_bucket q exp) e (summary s <$> l) in
  Reachable e' = Reachable e ∧ RootMatch e' = RootMatch e ∧ DN e' = DN e ∧
  MissingFromDN e' = MissingFromDN e ++ (l ≫= λ i, (symmetricDiff (bucket_of exp i) (listed i)).1) ∧
  ExtraOnDN e' = ExtraOnDN e ++ (l ≫= λ i, (symmetricDiff (bucket_of exp i) (listed i)).2).
Proof.
  revert e. induction l as [|i l IH]; intros e Hl; [by rewrite !app_nil_r|].
  assert (i < 256) as Hi by (apply Hl; by left). cbn [fmap list_fmap foldl].
  destruct (IH (audit_bucket q exp e (summary s i))) as (H1 & H2 & H0 & H3 & H4); [intros j Hj; apply Hl; by right|].
  cbv zeta. rewrite H0, H1, H2, H3, H4, !bind_cons. clear IH H0 H1 H2 H3 H4. unfold audit_bucket.
  cbn [mb_Idx mb_Hash summary].
  pose proof (bucket_hash_exact i Hi) as Hx. unfold summary in Hx. cbn [mb_Hash] in Hx.
  case_bool_decide as Hh.
  - apply Hx in Hh. rewrite Hh, symmetricDiff_same. done.
  - destruct Hq as [_ ->]; [|done].
    destruct (symmetricDiff (bucket_of exp i) (listed i)) as [miss extra] eqn:Hd.
    cbn [fst snd Reachable RootMatch DN MissingFromDN ExtraOnDN]. by rewrite !app_assoc.
Qed.

Lemma audit_one dn :
  let e := auditOneDN dn q exp in
  Reachable e = true ∧ DN e = dn ∧
  (RootMatch e = true ↔ MissingFromDN e = [] ∧ ExtraOnDN e = []) ∧
  (∀ id, id ∈ MissingFromDN e ↔ ∃ i, i < 256 ∧ times id (listed i) < times id (bucket_of exp i)) ∧
  (∀ id, id ∈ ExtraOnDN e ↔ ∃ i, i < 256 ∧ times id (bucket_of exp i) < times id (listed i)).
Proof.
  cbv zeta. unfold auditOneDN. rewrite (proj1 Hq). case_bool_decide as Hroot.
  - cbn [Reachable RootMatch MissingFromDN ExtraOnDN DN]. rewrite root_exact in Hroot.
    split_and!; [done|done|done|..]; intros id; (split; [by intros ?%elem_of_nil|]);
      intros (i & Hi & Ht); rewrite Hroot in Ht by done; lia.
  - rewrite root_exact in Hroot. cbn [Reachable RootMatch MissingFromDN ExtraOnDN DN].
    assert (mr_Buckets (computeMerkle s) = summary s <$> seq 0 256) as -> by by rewrite computeMerkle_eq.
    match goal with |- context [foldl _ ?e0 _] =>
      destruct (audit_buckets (seq 0 256) e0) as (-> & -> & -> & -> & ->); [intros i [_ ?]%elem_of_seq; lia|] end.
    cbn [Reachable RootMatch MissingFromDN ExtraOnDN DN]. rewrite !app_nil_l.
    assert (∀ f id, id ∈ sort_strings (seq 0 256 ≫= f) ↔ ∃ i, i < 256 ∧ id ∈ f i) as Hin.
    { intros f id. rewrite elem_of_sort_strings, list_elem_of_bind. setoid_rewrite elem_of_seq.
      split; intros (i & Hi & Hx); exists i; (split; [|lia || done]); [lia|done]. }
    split_and!; [done|done| |..].
    { split; [done|]. intros [E1 E2]. destruct Hroot. intros i Hi. apply symmetricDiff_nil, surjective_pairing_2.
      - apply elem_of_nil_inv. intros id Hid. eapply (not_elem_of_nil id). rewrite <- E1. apply Hin. eauto.
      - apply elem_of_nil_inv. intros id Hid. eapply (not_elem_of_nil id). rewrite <- E2. apply Hin. eauto. }
    all: intros id; rewrite Hin; f_equiv; intros i;
      (destruct (decide (i < 256)) as [Hi|]; [|naive_solver]);
      destruct (Hexp i Hi) as [Hs _]; rewrite <- times_pos;
      destruct (symmetricDiff_times (bucket_of exp i) (listed i) id Hs (sorted_listBucket s (Z.of_nat i))) as [E1 E2];
      rewrite ?E1, ?E2;
      split; intros [? ?]; (split; [done|lia]).
Qed.
End one_audit.

(** ** The audit of the cluster *)
Lemma expected_lists_ok objs dn i : i < 256 →
  StronglySorted String.le (bucket_of (default ∅ (expectedChunksByDN objs !! dn)) i) ∧
  Forall (λ id, String.length id = 64) (bucket_of (default ∅ (expectedChunksByDN objs !! dn)) i).
Proof.
  intros Hi. rewrite expected_bucket by done. split; [apply sort_strings_sorted|].
  apply Forall_forall. intros id. rewrite elem_of_sort_strings, list_elem_of_omap.
  intros (p & _ & (_ & _ & Hv & _)%at_place_some). by apply andb_true_iff in Hv as [?%Nat.eqb_eq _].
Qed.

Lemma held_in (P Q : Prop) `{Decision P, Decision (P ∧ Q)} : Q →
  (if decide (P ∧ Q) then 1 else 0) = (if decide P then 1 else 0).
Proof. intros HQ. repeat case_decide; tauto. Qed.

Lemma expected_somewhere objs dn s id (P : nat → nat → Prop) :
  dn ≠ "" → (∀ n, ¬ P n n) →
  (∃ i, i < 256 ∧ P (times id (listBucket (Z.of_nat i) s))
                    (times id (bucket_of (default ∅ (expectedChunksByDN objs !! dn)) i))) ↔
  validHex64 id = true ∧ P (if decide (holds s id) then 1 else 0) (times (dn, id) (places objs)).
Proof.
  intros Hdn HP.
  assert (∀ i, i < 256 → times id (listBucket (Z.of_nat i) s) =
    if decide (holds s id ∧ (chunkPath id).1 = bucket_prefix i) then 1 else 0) as Hheld.
  { intros i Hi. pose proof (times_pos id (listBucket (Z.of_nat i) s)) as Hp.
    pose proof (times_NoDup id _ (NoDup_listBucket s i Hi)). rewrite elem_of_listBucket in Hp by done.
    case_decide as Hc; [apply Hp in Hc; lia|].
    assert (¬ 0 < times id (listBucket (Z.of_nat i) s)) by (by intros ?%Hp). lia. }
  split.
  - intros (i & Hi & Hlt). rewrite Hheld, times_expected in Hlt by done.
    destruct (decide (validHex64 id = true ∧ (chunkPath id).1 = bucket_prefix i)) as [[Hv Hb]|Hv].
    + split; [done|]. by rewrite (held_in _ _ Hb) in Hlt.
    + rewrite decide_False in Hlt by (intros [[? ?] ?]; by apply Hv). by apply HP in Hlt.
  - intros [Hv Hlt]. destruct (expected_idx id Hv) as (i & Hi & _ & Hb). exists i. split; [done|].
    rewrite Hheld, times_expected, (held_in _ _ Hb) by done. by rewrite (decide_True (P := _ ∧ _)).
Qed.

Lemma auditOneDN_DN dn q exp : DN (auditOneDN dn q exp) = dn.
Proof.
  assert (∀ l e, DN (foldl (audit_bucket q exp) e l) = DN e) as H.
  { induction l as [|b l IH]; intros e; [done|]. simpl. rewrite IH. unfold audit_bucket. by repeat case_match. }
  unfold auditOneDN. case_match; [|done]. case_bool_decide; [done|]. cbn [DN]. by rewrite H.
Qed.


#[local] Opaque sha256 sha256_hex w_id.
Definition w_ae_obj : ObjectMeta :=
  MkObjectMeta "photos" "cat.jpg" 4 "" "" [MkChunkRef w_id 4 ["h1:80"]] None [] 0 0 "" "" [].
Definition w_ask (_ : string) : dn_answers :=
  MkAnswers (Some (computeMerkle w_stored)) (λ i, Some (listBucket (Z.of_nat i) w_stored)) None.
