(* ===== verification/Scrub.v ===== *)
(** * Bit-rot scrubber of a data node: internal/dn/scrubber.go

    One [scrubOne] is a read of the chunk file followed by an update under
    scrubMu; the scan loop is the sequence of those updates in walk order.  The
    state file is the value json.Unmarshal sees: a document of this shape, or
    anything else.  Its temp file is never read back and is left out. *)
From S2P Require Import Prelude GF GoLib DataNode.
From Stdlib Require Import Strings.Byte.

Inductive state_json : Type :=
  | Shape (Version : Z) (Corrupt : list string)
  | NotShape.

Record scrubState : Type := MkScrub
  { enabled : bool; interval : Z; lastScanStarted : Z; lastScanEnd : Z;
    chunksScrubbed : Z; corrupt : gset string }.
Definition no_scrub : scrubState := MkScrub false 0 0 0 0 ∅.

(** The server with its scrubber and the file scrub-state.json. *)
Record ScrubNode : Type := MkScrubNode { srv : Server; scrub : scrubState; state_file : option state_json }.

Record ScrubStatus : Type := MkScrubStatus
  { ss_DN : string; Running : bool; IntervalSeconds : Z; LastScanStarted : Z; LastScanEnd : Z;
    ChunksScrubbed : Z; CorruptCount : nat; Corrupt : list string }.

Definition loadCorruptSet (file : option state_json) : gset string :=
  match file with
  | Some (Shape 1 ids) => list_to_set (filter (λ id, validChunkID id = true) ids)
  | _ => ∅
  end.

(** [ok] is false where marshalling, writing or renaming failed. *)
Definition persistCorruptSetLocked (ok : bool) (n : ScrubNode) : ScrubNode :=
  if ok then MkScrubNode (srv n) (scrub n) (Some (Shape 1 (sort_strings (elements (corrupt (scrub n))))))
  else n.

Definition StartScrubber (iv : Z) (n : ScrubNode) : ScrubNode :=
  if (iv <=? 0)%Z then n
  else if enabled (scrub n) then n
  else MkScrubNode (srv n) (MkScrub true iv 0 0 0 (loadCorruptSet (state_file n))) (state_file n).

Definition scrubbed (s : scrubState) (c : gset string) : scrubState :=
  MkScrub (enabled s) (interval s) (lastScanStarted s) (lastScanEnd s) (i64 (chunksScrubbed s + 1)) c.
Definition set_scrub (n : ScrubNode) (s : scrubState) : ScrubNode := MkScrubNode (srv n) s (state_file n).

Definition markCorrupt (id : string) (ok : bool) (n : ScrubNode) : ScrubNode :=
  let was := bool_decide (id ∈ corrupt (scrub n)) in
  let n' := set_scrub n (scrubbed (scrub n) ({[id]} ∪ corrupt (scrub n))) in
  if was then n' else persistCorruptSetLocked ok n'.

(** [data] is what reading the file returned, [None] for an error. *)
Definition scrubOne (id : string) (data : option (list byte)) (ok : bool) (n : ScrubNode) : ScrubNode :=
  match data with
  | None => markCorrupt id ok n
  | Some b =>
      if bool_decide (sha256_hex b ≠ id) then markCorrupt id ok n
      else
        let was := bool_decide (id ∈ corrupt (scrub n)) in
        let n' := set_scrub n (scrubbed (scrub n) (corrupt (scrub n) ∖ {[id]})) in
        if was then persistCorruptSetLocked ok n' else n'
  end.

(** One scan of [scrubLoop]: the chunk files in the order of the walk. *)
Definition scan_started (now : Z) (n : ScrubNode) : ScrubNode :=
  let s := scrub n in
  set_scrub n (MkScrub (enabled s) (interval s) now (lastScanEnd s) (chunksScrubbed s) (corrupt s)).
Definition scan_ended (now : Z) (n : ScrubNode) : ScrubNode :=
  let s := scrub n in
  set_scrub n (MkScrub (enabled s) (interval s) (lastScanStarted s) now (chunksScrubbed s) (corrupt s)).
Definition walk_ids (t : tree) : list string :=
  sort_strings (omap (λ pf, walk_id pf.1) (map_to_list t)).
Definition scan_file (ok : bool) (n : ScrubNode) (id : string) : ScrubNode :=
  scrubOne id (f_Data <$> disk (srv n) !! chunkPath id) ok n.
Definition scrub_scan (started ended : Z) (ok : bool) (n : ScrubNode) : ScrubNode :=
  scan_ended ended (foldl (scan_file ok) (scan_started started n) (walk_ids (disk (srv n)))).

Definition handleScrubStatus (n : ScrubNode) : ScrubStatus :=
  let st := scrub n in
  let ids := sort_strings (elements (corrupt st)) in
  MkScrubStatus (dn_id (srv n)) (enabled st) (interval st) (lastScanStarted st) (lastScanEnd st)
    (chunksScrubbed st) (length ids) ids.

(** ** One scan *)
Lemma corrupt_markCorrupt id ok n : corrupt (scrub (markCorrupt id ok n)) = {[id]} ∪ corrupt (scrub n).
Proof. unfold markCorrupt. case_bool_decide; [done|]. by destruct ok. Qed.

Lemma corrupt_scrubOne id data ok n :
  corrupt (scrub (scrubOne id data ok n)) =
  if bool_decide (sha256_hex <$> data = Some id) then corrupt (scrub n) ∖ {[id]}
  else {[id]} ∪ corrupt (scrub n).
Proof.
  unfold scrubOne. destruct data as [b|]; [|apply corrupt_markCorrupt]. cbn [fmap option_fmap option_map].
  destruct (decide (sha256_hex b = id)) as [E|E].
  - rewrite (bool_decide_eq_false_2 (sha256_hex b ≠ id)) by auto.
    rewrite (bool_decide_eq_true_2 (Some _ = Some _)) by congruence.
    case_bool_decide; [|done]. by destruct ok.
  - rewrite (bool_decide_eq_true_2 (sha256_hex b ≠ id)) by auto.
    rewrite (bool_decide_eq_false_2 (Some _ = Some _)) by congruence. apply corrupt_markCorrupt.
Qed.

Lemma scrubOne_frame id data ok n :
  srv (scrubOne id data ok n) = srv n ∧
  chunksScrubbed (scrub (scrubOne id data ok n)) = i64 (chunksScrubbed (scrub n) + 1).
Proof.
  unfold scrubOne, markCorrupt. destruct data as [b|]; repeat case_bool_decide; by destruct ok.
Qed.

Lemma elem_of_walk_ids t id :
  id ∈ walk_ids t ↔ validChunkID id = true ∧ is_Some (t !! chunkPath id).
Proof.
  unfold walk_ids. rewrite elem_of_sort_strings, list_elem_of_omap. split.
  - intros ([p f] & Hin%elem_of_map_to_list & Hw). simpl in Hw.
    apply walk_id_some in Hw as [Hv ->]. split; [done|]. by rewrite Hin.
  - intros [Hv [f Hf]]. exists (chunkPath id, f). split; [by apply elem_of_map_to_list|].
    by apply walk_id_chunkPath.
Qed.

Lemma scan_frame ok l n : srv (foldl (scan_file ok) n l) = srv n.
Proof.
  revert n. induction l as [|id l IH]; intros n; [done|]. cbn [foldl]. rewrite IH. apply scrubOne_frame.
Qed.

Lemma scan_corrupt ok l n id :
  id ∈ corrupt (scrub (foldl (scan_file ok) n l)) ↔
  (id ∈ l ∧ sha256_hex <$> (f_Data <$> disk (srv n) !! chunkPath id) ≠ Some id) ∨
  (id ∉ l ∧ id ∈ corrupt (scrub n)).
Proof.
  revert n. induction l as [|x l IH]; intros n; [set_solver|]. cbn [foldl]. rewrite IH.
  unfold scan_file. rewrite corrupt_scrubOne. destruct (scrubOne_frame x
    (f_Data <$> disk (srv n) !! chunkPath x) ok n) as [-> _].
  set (rot y := sha256_hex <$> (f_Data <$> disk (srv n) !! chunkPath y) ≠ Some y). fold (rot id).
  assert (id ∈ (if bool_decide (sha256_hex <$> (f_Data <$> disk (srv n) !! chunkPath x) = Some x)
      then corrupt (scrub n) ∖ {[x]} else {[x]} ∪ corrupt (scrub n)) ↔
    (id = x ∧ rot x) ∨ (id ≠ x ∧ id ∈ corrupt (scrub n))) as ->.
  { destruct (decide (sha256_hex <$> (f_Data <$> disk (srv n) !! chunkPath x) = Some x)) as [E|E].
    - rewrite bool_decide_eq_true_2, elem_of_difference, elem_of_singleton by done. unfold rot. tauto.
    - rewrite bool_decide_eq_false_2, elem_of_union, elem_of_singleton by done.
      destruct (decide (id = x)); tauto. }
  rewrite elem_of_cons. destruct (decide (id ∈ l)), (decide (id = x)) as [->|Hne]; tauto.
Qed.

(** One scan over an undisturbed disk leaves in the corrupt set, of the chunks on
    disk, exactly those whose bytes no longer hash to their name: new rot is
    reported, repaired chunks are cleared.  It changes no file, and no other
    entry of the set. *)
Theorem scan_reports_exactly_the_rot started ended ok n :
  let n' := scrub_scan started ended ok n in
  srv n' = srv n ∧
  ∀ id, id ∈ Corrupt (handleScrubStatus n') ↔
    match (if validChunkID id then disk (srv n) !! chunkPath id else None) with
    | Some f => sha256_hex (f_Data f) ≠ id
    | None => id ∈ corrupt (scrub n)
    end.
Proof.
  intros n'. split; [exact (scan_frame ok _ (scan_started started n))|]. intros id. unfold handleScrubStatus. cbn [Corrupt].
  rewrite elem_of_sort_strings, elem_of_elements.
  change (corrupt (scrub n')) with
    (corrupt (scrub (foldl (scan_file ok) (scan_started started n) (walk_ids (disk (srv n)))))).
  rewrite scan_corrupt, elem_of_walk_ids. cbn [scan_started set_scrub srv scrub corrupt].
  destruct (validChunkID id); [|naive_solver].
  destruct (disk (srv n) !! chunkPath id) as [f|]; simpl; [|naive_solver].
  split; [|intros H; left; split; [eauto|congruence]].
  intros [[_ H]|[H _]] E; [by rewrite E in H|]. apply H. eauto.
Qed.

(** A chunk deleted after it was found corrupt is never visited again and stays in
    the set: the set is not bounded by what is on disk. *)
Lemma deleted_chunk_stays_corrupt started ended ok n id :
  disk (srv n) !! chunkPath id = None → id ∈ corrupt (scrub n) →
  id ∈ corrupt (scrub (scrub_scan started ended ok n)).
Proof.
  intros Hd Hc. change (id ∈ corrupt (scrub (foldl (scan_file ok) (scan_started started n)
    (walk_ids (disk (srv n)))))).
  rewrite scan_corrupt. right. split; [|done]. rewrite elem_of_walk_ids, Hd. by intros [_ []].
Qed.

(** ** Restarts *)
Inductive event : Type :=
  | Scrubbed (id : string) (data : option (list byte))
  | Scan (started ended : Z)
  | Serve (r : request)
  | Boot (iv : Z).

(** One event, where the writes of the state file succeed. *)
Definition node_step (n : ScrubNode) (e : event) : ScrubNode :=
  match e with
  | Scrubbed id data => if validChunkID id then scrubOne id data true n else n
  | Scan started ended => scrub_scan started ended true n
  | Serve r => MkScrubNode (serve (srv n) r) (scrub n) (state_file n)
  | Boot iv => StartScrubber iv (MkScrubNode (NewServer (dn_id (srv n)) (disk (srv n))) no_scrub (state_file n))
  end.

Definition state_saved (n : ScrubNode) : Prop :=
  loadCorruptSet (state_file n) = corrupt (scrub n) ∧
  ∀ id, id ∈ corrupt (scrub n) → validChunkID id = true.

Lemma load_persist (c : gset string) :
  (∀ id, id ∈ c → validChunkID id = true) →
  loadCorruptSet (Some (Shape 1 (sort_strings (elements c)))) = c.
Proof.
  intros Hc. simpl. apply set_eq. intros id.
  rewrite elem_of_list_to_set, list_elem_of_filter, elem_of_sort_strings, elem_of_elements.
  naive_solver.
Qed.

Lemma loaded_valid file id : id ∈ loadCorruptSet file → validChunkID id = true.
Proof.
  unfold loadCorruptSet. destruct file as [[v ids|]|]; [|set_solver..].
  destruct v as [|[]|]; try set_solver. rewrite elem_of_list_to_set, list_elem_of_filter. naive_solver.
Qed.

Lemma persist_saved n :
  (∀ id, id ∈ corrupt (scrub n) → validChunkID id = true) → state_saved (persistCorruptSetLocked true n).
Proof. intros Hn. split; [|done]. cbn -[loadCorruptSet]. by apply load_persist. Qed.

Lemma scrubOne_saved id data n :
  validChunkID id = true → state_saved n → state_saved (scrubOne id data true n).
Proof.
  intros Hv [Hl Hn]. assert (state_saved (markCorrupt id true n)) as Hmark.
  { unfold markCorrupt. case_bool_decide as Hin.
    - split; simpl; [|set_solver]. rewrite Hl. set_solver.
    - apply persist_saved. simpl. set_solver. }
  unfold scrubOne. destruct data as [b|]; [|done]. case_bool_decide; [done|]. case_bool_decide as Hin.
  - apply persist_saved. simpl. set_solver.
  - split; simpl; [|set_solver]. rewrite Hl. set_solver.
Qed.

Lemma boot_saved iv n : (0 < iv)%Z → state_saved (node_step n (Boot iv)).
Proof.
  intros Hiv. unfold node_step, StartScrubber. rewrite (proj2 (Z.leb_gt _ _)) by done.
  cbn [enabled no_scrub scrub]. split; [done|]. simpl. intros id. apply loaded_valid.
Qed.

Lemma node_step_saved n e :
  (∀ iv, e = Boot iv → (0 < iv)%Z) → state_saved n → state_saved (node_step n e).
Proof.
  intros Hiv Hs. destruct e as [id data|t0 t1|r|iv]; simpl.
  - destruct (validChunkID id) eqn:Hv; [|done]. by apply scrubOne_saved.
  - change (state_saved (foldl (scan_file true) (scan_started t0 n) (walk_ids (disk (srv n))))).
    assert (∀ id, id ∈ walk_ids (disk (srv n)) → validChunkID id = true) as Hids
      by (intros id Hid; by apply elem_of_walk_ids in Hid as [? _]).
    assert (state_saved (scan_started t0 n)) as Hs' by done. clear Hs Hiv.
    revert Hids Hs'. generalize (scan_started t0 n). induction (walk_ids (disk (srv n))) as [|id l IH];
      intros m Hids Hm; [done|]. cbn [foldl]. apply IH.
    + intros x Hx. apply Hids. by right.
    + apply scrubOne_saved; [|done]. apply Hids. by left.
  - done.
  - by apply (boot_saved iv n), Hiv.
Qed.

(** The corrupt set survives a crash at any moment between two updates: whatever a
    node scrubbed, served and rebooted before, a restart reloads exactly the set
    that was in memory. *)
Theorem corrupt_set_survives_restart n iv0 evs iv :
  (0 < iv0)%Z → (0 < iv)%Z → Forall (λ e, match e with Boot iv => (0 < iv)%Z | _ => True end) evs →
  let before := foldl node_step (node_step n (Boot iv0)) evs in
  corrupt (scrub (node_step before (Boot iv))) = corrupt (scrub before).
Proof.
  intros Hiv0 Hiv Hevs. cbn zeta. assert (∀ m, state_saved m → state_saved (foldl node_step m evs)) as Hall.
  { induction Hevs as [|e evs He _ IH]; intros m Hm; [done|]. cbn [foldl]. apply IH.
    apply node_step_saved; [|done]. by intros iv' ->. }
  destruct (Hall _ (boot_saved iv0 n Hiv0)) as [Hl _]. rewrite <- Hl.
  set (m := foldl node_step _ evs). unfold node_step, StartScrubber.
  by rewrite (proj2 (Z.leb_gt _ _)) by done.
Qed.

Definition w_scrub_node : ScrubNode := MkScrubNode w_stored no_scrub None.
Lemma corrupt_set_survives_restart_witness :
  let before := foldl node_step (node_step w_scrub_node (Boot 60))
    [Scrubbed w_id None; Serve (Delete w_id true true); Boot 30; Scan 1 2] in
  corrupt (scrub (node_step before (Boot 60))) = corrupt (scrub before).
Proof. apply corrupt_set_survives_restart; [done|done|repeat constructor]. Defined.
