(* ===== verification/Transport.v ===== *)
(** * The chunk service: what gc, rebalance and repair ask of the coordinator

    internal/gc, internal/rebalance and internal/repair each declare an interface
    Coordinator with the methods they call.  [ChunkService] has those methods over
    a world [W]; [ChunkServiceLaws] is what their clients rely on, in terms of
    [chunk_at], the listing entry of a chunk on a node.  Coordinator.v implements
    the class and proves the laws for a cluster of data nodes. *)
From S2P Require Import Prelude GF GoLib DataNode.
From Stdlib Require Import Strings.Byte.

Class ChunkService (E W : Type) : Type :=
  { DNs : W → list string;
    PlaceChunk : string → W → list string;
    PlaceN : string → Z → W → list string;
    PlaceNFromAddrs : string → Z → list string → list string;
    ListChunks : string → W → result E (list ChunkInfo) * W;
    DeleteChunkFrom : string → string → W → result E () * W;
    PutChunkTo : string → string → list byte → W → result E () * W;
    PutChunkToForce : string → string → list byte → W → result E () * W;
    ReadChunk : string → list string → W → result E (list byte * string) * W;
    (** observations used by the laws, not by the clients *)
    chunk_at : W → string → string → option ChunkInfo;
    sound : W → Prop }.

(** Worlds that place chunks alike. *)
Definition same_config {E W} `{!ChunkService E W} (w w' : W) : Prop :=
  DNs w' = DNs w ∧ (∀ id, PlaceChunk id w' = PlaceChunk id w) ∧ (∀ k n, PlaceN k n w' = PlaceN k n w).
Definition same_chunks {E W} `{!ChunkService E W} (w w' : W) : Prop :=
  ∀ a id, chunk_at w' a id = chunk_at w a id.
(** The worlds differ at most in chunk [id] of node [addr]. *)
Definition only_changes {E W} `{!ChunkService E W} (addr id : string) (w w' : W) : Prop :=
  ∀ a i, (a, i) ≠ (addr, id) → chunk_at w' a i = chunk_at w a i.

(** No node loses a chunk. *)
Definition keeps_chunks {E W} `{!ChunkService E W} (w w' : W) : Prop :=
  ∀ a i, is_Some (chunk_at w a i) → is_Some (chunk_at w' a i).

Class ChunkServiceLaws (E W : Type) `{!ChunkService E W} : Prop :=
  { chunk_id_law (w : W) addr id ci : chunk_at w addr id = Some ci → ci_ID ci = id;
    list_law addr (w : W) r w' : ListChunks addr w = (r, w') → sound w →
      sound w' ∧ same_config w w' ∧ same_chunks w w' ∧
      ∀ l, r = Ok l → NoDup (ci_ID <$> l) ∧ ∀ ci, ci ∈ l ↔ chunk_at w addr (ci_ID ci) = Some ci;
    delete_law addr id (w : W) r w' : DeleteChunkFrom addr id w = (r, w') → sound w →
      sound w' ∧ same_config w w' ∧ only_changes addr id w w' ∧
      (chunk_at w' addr id = chunk_at w addr id ∨ chunk_at w' addr id = None) ∧
      (r = Ok () → chunk_at w' addr id = None);
    put_law addr id b (w : W) r w' : PutChunkTo addr id b w = (r, w') → sound w →
      sound w' ∧ same_config w w' ∧ only_changes addr id w w' ∧
      (is_Some (chunk_at w addr id) → is_Some (chunk_at w' addr id)) ∧
      (r = Ok () → is_Some (chunk_at w' addr id) ∧ sha256_hex b = id);
    put_force_law addr id b (w : W) r w' : PutChunkToForce addr id b w = (r, w') → sound w →
      sound w' ∧ same_config w w' ∧ only_changes addr id w w' ∧
      (is_Some (chunk_at w addr id) → is_Some (chunk_at w' addr id)) ∧
      (r = Ok () → is_Some (chunk_at w' addr id) ∧ sha256_hex b = id);
    read_law id addrs (w : W) r w' : ReadChunk id addrs w = (r, w') → sound w →
      sound w' ∧ same_config w w' ∧ same_chunks w w' ∧
      ∀ b addr, r = Ok (b, addr) → addr ∈ addrs ∧ is_Some (chunk_at w addr id) ∧ sha256_hex b = id }.

Section service.
Context {E W : Type} `{HC : !ChunkService E W}.

#[export] Instance same_config_preorder : PreOrder (same_config (W:=W)).
Proof.
  split; [by intros w|]. intros w1 w2 w3 (H1 & H2 & H3) (H1' & H2' & H3').
  split_and!; intros; congruence.
Qed.
#[export] Instance same_chunks_preorder : PreOrder (same_chunks (W:=W)).
Proof. split; [by intros w|]. intros w1 w2 w3 H H' a id. by rewrite H', H. Qed.

#[export] Instance keeps_chunks_preorder : PreOrder (keeps_chunks (W:=W)).
Proof. split; [by intros w a i|]. intros w1 w2 w3 H H' a i Hi. by apply H', H. Qed.

Lemma same_chunks_keeps (w w' : W) : same_chunks w w' → keeps_chunks w w'.
Proof. intros Hs a i. by rewrite Hs. Qed.

Lemma changed_keeps a id (w w' : W) :
  only_changes a id w w' → (is_Some (chunk_at w a id) → is_Some (chunk_at w' a id)) → keeps_chunks w w'.
Proof.
  intros Ho Hk a' i Hi. destruct (decide ((a', i) = (a, id))) as [E0|Hne]; [|by rewrite Ho].
  injection E0 as -> ->. by apply Hk.
Qed.

Lemma same_chunks_only a id (w w' : W) : same_chunks w w' → only_changes a id w w'.
Proof. intros Hs ? ? _. apply Hs. Qed.
End service.
