(* ===== verification/Coordinator.v ===== *)
(** * Coordinator: internal/coordinator/coordinator.go

    The world is a coordinator, the data nodes by address and a call counter.
    What the network and the node's file system do to the n-th HTTP call is
    [net n]: it may not arrive, its reply may be lost after it took effect, or
    it is answered.  [sched] is the order in which a fan-out's calls complete;
    they go to different nodes. *)
From S2P Require Import Prelude GF GoLib DataNode Placement Transport.
From Stdlib Require Import Strings.Byte.

Inductive coord_error : Type :=
  | ErrNoNodes | ErrReplicationFactor | ErrQuorumWrite | ErrTooFewNodes
  | ErrNoTargets | ErrInvalidQuorum | ErrQuorumTooLarge | ErrQuorumNotReached
  | ErrNetwork | ErrStatus (code : Z) | ErrAllReplicasFailed | ErrPartialDelete.

Record Coordinator : Type := MkCoordinator
  { placer : Placer; replicationFactor : Z; quorumWrite : Z; timeout : Z; dnScheme : string }.
Record Config : Type := MkConfig
  { cfg_Nodes : list Node; ReplicationFactor : Z; QuorumWrite : Z; Timeout : Z; DNScheme : string }.

Definition New (cfg : Config) : result coord_error Coordinator :=
  let n := Z.of_nat (length (cfg_Nodes cfg)) in
  if (n =? 0)%Z then Err ErrNoNodes
  else
    let r := if (ReplicationFactor cfg <=? 0)%Z then Z.min 3 n else ReplicationFactor cfg in
    if (n <? r)%Z then Err ErrReplicationFactor
    else
      let q := if (QuorumWrite cfg <=? 0)%Z then (r / 2 + 1)%Z else QuorumWrite cfg in
      if (r <? q)%Z then Err ErrQuorumWrite
      else
        let t := if (Timeout cfg <=? 0)%Z then 10000000000%Z else Timeout cfg in
        let scheme := if bool_decide (DNScheme cfg = "") then "http"%string else DNScheme cfg in
        Ok (MkCoordinator (Placement.New (cfg_Nodes cfg)) r q t scheme).

Definition NewWithAddrs (addrs : list string) (replicationFactor quorumWrite timeout : Z)
    : result coord_error Coordinator :=
  New (MkConfig ((λ a, MkNode a a "") <$> addrs) replicationFactor quorumWrite timeout "").

Definition Nodes (c : Coordinator) : list Node := Placement.Nodes (placer c).
Definition coord_DNs (c : Coordinator) : list string := Addr <$> Nodes c.

Definition UpdateNodes (nodes : list Node) (c : Coordinator) : result coord_error () * Coordinator :=
  let n := Z.of_nat (length nodes) in
  if (n =? 0)%Z then (Err ErrNoNodes, c)
  else if (n <? replicationFactor c)%Z then (Err ErrTooFewNodes, c)
  else (Ok (), MkCoordinator (Placement.New nodes) (replicationFactor c) (quorumWrite c) (timeout c) (dnScheme c)).

Definition coord_PlaceN (key : string) (n : Z) (c : Coordinator) : list string :=
  Addr <$> PickByDomain (placer c) key n.
Definition coord_PlaceChunk (chunkID : string) (c : Coordinator) : list string :=
  Addr <$> PickByDomain (placer c) chunkID (replicationFactor c).
Definition coord_PlaceNFromAddrs (key : string) (n : Z) (addrs : list string) : list string :=
  if (length addrs =? 0) || (n <=? 0)%Z then []
  else Addr <$> PickFromNodes key n ((λ a, MkNode a a "") <$> addrs).

(** ** HTTP calls to data nodes *)
Inductive fault : Type := Answered | NotDelivered | ReplyLost.
Record outcome : Type := MkOutcome
  { o_fault : fault; o_now : Z; o_io : put_io; o_open : bool; o_remove : bool }.

Record Cluster : Type := MkCluster { coord : Coordinator; dns : gmap string Server; calls : nat }.

Section cluster.
Context (net : nat → outcome) (sched : list string → list string).

Definition call {A} (addr : string) (h : outcome → Server → A * Server) (w : Cluster)
    : option A * Cluster :=
  let o := net (calls w) in
  let missed := MkCluster (coord w) (dns w) (S (calls w)) in
  match dns w !! addr with
  | None => (None, missed)
  | Some s =>
      let '(a, s') := h o s in
      let served := MkCluster (coord w) (<[addr := s']> (dns w)) (S (calls w)) in
      match o_fault o with
      | Answered => (Some a, served)
      | NotDelivered => (None, missed)
      | ReplyLost => (None, served)
      end
  end.

Definition checked (ok : list Z) (r : option Z * Cluster) : result coord_error () * Cluster :=
  match r with
  | (None, w) => (Err ErrNetwork, w)
  | (Some st, w) => if bool_decide (st ∈ ok) then (Ok (), w) else (Err (ErrStatus st), w)
  end.

Definition put_call (force : bool) (chunkID : string) (data : list byte) (o : outcome) (s : Server)
    : Z * Server := handlePut chunkID (Some data) force (o_now o) (o_io o) s.
Definition putChunk (addr chunkID : string) (data : list byte) (w : Cluster) : result coord_error () * Cluster :=
  checked [200; 201]%Z (call addr (put_call false chunkID data) w).
Definition coord_PutChunkToForce (addr chunkID : string) (data : list byte) (w : Cluster)
    : result coord_error () * Cluster :=
  checked [201; 200]%Z (call addr (put_call true chunkID data) w).
Definition deleteChunk (addr chunkID : string) (w : Cluster) : result coord_error () * Cluster :=
  checked [204; 404]%Z
    (call addr (λ o s, handleDelete chunkID (stat_ok (o_io o)) (o_remove o) s) w).

Definition getChunk (addr chunkID : string) (w : Cluster) : result coord_error (list byte) * Cluster :=
  match call addr (λ o s, (handleGet chunkID (o_open o) s, s)) w with
  | (None, w) => (Err ErrNetwork, w)
  | (Some (st, body), w) =>
      match body with
      | Some b => if (st =? 200)%Z then (Ok b, w) else (Err (ErrStatus st), w)
      | None => (Err (ErrStatus st), w)
      end
  end.

Definition coord_ListChunks (addr : string) (w : Cluster) : result coord_error (list ChunkInfo) * Cluster :=
  match call addr (λ _ s, (handleListChunks s, s)) w with
  | (None, w) => (Err ErrNetwork, w)
  | (Some l, w) => (Ok l, w)
  end.

(** The goroutines of a write, in completion order: the acknowledging addresses. *)
Fixpoint fan_out (chunkID : string) (data : list byte) (targets : list string) (w : Cluster)
    : list string * Cluster :=
  match targets with
  | [] => ([], w)
  | addr :: targets =>
      let '(r, w) := putChunk addr chunkID data w in
      let '(ok, w) := fan_out chunkID data targets w in
      (match r with Ok _ => addr :: ok | Err _ => ok end, w)
  end.

(** Both writes return the acknowledging addresses also with an error. *)
Definition WriteChunk (chunkID : string) (data : list byte) (w : Cluster)
    : (list string * option coord_error) * Cluster :=
  let targets := coord_PlaceChunk chunkID (coord w) in
  if length targets =? 0 then (([], Some ErrNoTargets), w)
  else
    let '(ok, w') := fan_out chunkID data (sched targets) w in
    if (Z.of_nat (length ok) <? quorumWrite (coord w))%Z then ((ok, Some ErrQuorumNotReached), w')
    else ((ok, None), w').

Definition WriteChunkToAddrsW (chunkID : string) (data : list byte) (targets : list string) (q : Z) (w : Cluster)
    : (list string * option coord_error) * Cluster :=
  if length targets =? 0 then (([], Some ErrNoTargets), w)
  else if (q <? 0)%Z then (([], Some ErrInvalidQuorum), w)
  else
    let q := if (q =? 0)%Z then quorumWrite (coord w) else q in
    if (Z.of_nat (length targets) <? q)%Z then (([], Some ErrQuorumTooLarge), w)
    else
      let '(ok, w') := fan_out chunkID data (sched targets) w in
      if (Z.of_nat (length ok) <? q)%Z then ((ok, Some ErrQuorumNotReached), w')
      else ((ok, None), w').
Definition WriteChunkToAddrs (chunkID : string) (data : list byte) (targets : list string) (w : Cluster)
    : (list string * option coord_error) * Cluster :=
  WriteChunkToAddrsW chunkID data targets 0 w.

Fixpoint coord_ReadChunk (chunkID : string) (candidates : list string) (w : Cluster)
    : result coord_error (list byte * string) * Cluster :=
  match candidates with
  | [] => (Err ErrAllReplicasFailed, w)
  | addr :: candidates =>
      match getChunk addr chunkID w with
      | (Ok body, w) => (Ok (body, addr), w)
      | (Err _, w) => coord_ReadChunk chunkID candidates w
      end
  end.

Fixpoint delete_loop (chunkID : string) (replicas : list string) (w : Cluster) : nat * Cluster :=
  match replicas with
  | [] => (0, w)
  | addr :: replicas =>
      let '(r, w) := deleteChunk addr chunkID w in
      let '(errs, w) := delete_loop chunkID replicas w in
      (match r with Ok _ => errs | Err _ => S errs end, w)
  end.
Definition DeleteChunk (chunkID : string) (replicas : list string) (w : Cluster) : result coord_error () * Cluster :=
  let '(errs, w) := delete_loop chunkID replicas w in
  (if 0 <? errs then Err ErrPartialDelete else Ok (), w).

(** ** The cluster as a chunk service *)
Definition node_chunk (s : Server) (id : string) : option ChunkInfo :=
  if validChunkID id then
    f ← disk s !! chunkPath id; Some (MkChunkInfo id (file_size f) (f_MTime f))
  else None.
Definition cluster_chunk (w : Cluster) (addr id : string) : option ChunkInfo :=
  s ← dns w !! addr; node_chunk s id.
Definition cluster_sound (w : Cluster) : Prop := ∀ addr s, dns w !! addr = Some s → addressed (disk s).

Definition cluster_service : ChunkService coord_error Cluster :=
  {| DNs w := coord_DNs (coord w); PlaceChunk id w := coord_PlaceChunk id (coord w);
     PlaceN k n w := coord_PlaceN k n (coord w); PlaceNFromAddrs := coord_PlaceNFromAddrs;
     ListChunks := coord_ListChunks; DeleteChunkFrom := deleteChunk;
     PutChunkTo := putChunk; PutChunkToForce := coord_PutChunkToForce;
     ReadChunk := coord_ReadChunk; chunk_at := cluster_chunk; sound := cluster_sound |}.
#[local] Existing Instance cluster_service.

Lemma node_chunk_some s id : is_Some (node_chunk s id) ↔ validChunkID id = true ∧ is_Some (disk s !! chunkPath id).
Proof.
  unfold node_chunk. destruct (validChunkID id); [|split; [by intros []|by intros []]].
  destruct (disk s !! chunkPath id); simpl; split; try naive_solver; eauto.
Qed.

(** What one call can have done. *)
Lemma call_cases {A} addr (h : outcome → Server → A * Server) w r w' :
  call addr h w = (r, w') →
  coord w' = coord w ∧ calls w' = S (calls w) ∧
  (r = None ∧ dns w' = dns w ∨
   ∃ s, dns w !! addr = Some s ∧ dns w' = <[addr := (h (net (calls w)) s).2]> (dns w) ∧
        (r = None ∨ r = Some (h (net (calls w)) s).1)).
Proof.
  unfold call. destruct (dns w !! addr) as [s|] eqn:Hs; [|intros [= <- <-]; auto].
  destruct (h (net (calls w)) s) as [a s'] eqn:Hh.
  destruct (o_fault (net (calls w))); intros [= <- <-]; split_and!; auto; right; exists s; by rewrite Hh; auto.
Qed.

(** A call that leaves the node as it was changes nothing. *)
Lemma call_readonly {A} addr (h : outcome → Server → A * Server) w r w' :
  (∀ o s, (h o s).2 = s) → call addr h w = (r, w') →
  coord w' = coord w ∧ calls w' = S (calls w) ∧ dns w' = dns w ∧
  ∀ a, r = Some a → ∃ s, dns w !! addr = Some s ∧ a = (h (net (calls w)) s).1.
Proof.
  intros Hh Hc. apply call_cases in Hc as (Hco & Hn & [[-> Hd]|(s & Hs & Hd & Hr)]); [done|].
  rewrite Hh, insert_id in Hd by done. split_and!; try done.
  destruct Hr as [->| ->]; [done|]. intros a [= <-]. eauto.
Qed.

Lemma checked_ok ok o w r w' :
  checked ok (o, w) = (r, w') → w' = w ∧ (r = Ok () → ∃ st, o = Some st ∧ st ∈ ok).
Proof.
  unfold checked. destruct o as [st|]; [case_bool_decide|]; intros [= <- <-]; split; eauto; done.
Qed.

(** A call that changes one chunk of the node. *)
Lemma changing_call id addr (h : outcome → Server → Z * Server) ok w r w' :
  (∀ o s, addressed (disk s) → addressed (disk (h o s).2)) →
  (∀ o s id', id' ≠ id → node_chunk (h o s).2 id' = node_chunk s id') →
  checked ok (call addr h w) = (r, w') → sound w →
  sound w' ∧ same_config w w' ∧ only_changes addr id w w' ∧
  (chunk_at w' addr id = chunk_at w addr id ∨
   ∃ s o, dns w !! addr = Some s ∧ o = net (calls w) ∧ chunk_at w' addr id = node_chunk (h o s).2 id) ∧
  (r = Ok () → ∃ s o, dns w !! addr = Some s ∧ o = net (calls w) ∧ (h o s).1 ∈ ok ∧
     chunk_at w' addr id = node_chunk (h o s).2 id).
Proof.
  intros Ha Hf Hc Hw. destruct (call addr h w) as [o1 w1] eqn:Hcall.
  apply checked_ok in Hc as [-> Hok].
  apply call_cases in Hcall as (Hco & _ & [[-> Hd]|(s & Hs & Hd & Hr)]).
  - assert (same_chunks w w1) as Hsame by (intros a i; simpl; unfold cluster_chunk; by rewrite Hd).
    split_and!.
    + intros a s Hs. rewrite Hd in Hs. by apply (Hw a).
    + unfold same_config. simpl. by rewrite Hco.
    + by apply same_chunks_only.
    + left. apply Hsame.
    + intros ->. by destruct Hok as (st & ? & _).
  - assert (cluster_chunk w1 addr id = node_chunk (h (net (calls w)) s).2 id) as Hchunk
      by (unfold cluster_chunk; by rewrite Hd, lookup_insert_eq).
    split_and!.
    + intros a s' Hs'. rewrite Hd in Hs'. apply lookup_insert_Some in Hs' as [[<- <-]|[_ Hs']].
      * by apply Ha, (Hw addr).
      * by apply (Hw a).
    + unfold same_config. simpl. by rewrite Hco.
    + intros a i Hne. simpl. unfold cluster_chunk. rewrite Hd.
      destruct (decide (a = addr)) as [->|]; [|by rewrite lookup_insert_ne].
      rewrite lookup_insert_eq, Hs. simpl. apply Hf. congruence.
    + right. exists s, (net (calls w)). auto.
    + intros ->. destruct Hok as (st & -> & Hst); [done|]. destruct Hr as [?|Hr]; [done|].
      injection Hr as ->. eauto 6.
Qed.

Lemma put_call_law force addr id b ok w r w' :
  (∀ st, st ∈ ok → st ∈ [200; 201]%Z) →
  checked ok (call addr (put_call force id b) w) = (r, w') → sound w →
  sound w' ∧ same_config w w' ∧ only_changes addr id w w' ∧
  (is_Some (chunk_at w addr id) → is_Some (chunk_at w' addr id)) ∧
  (r = Ok () → is_Some (chunk_at w' addr id) ∧ sha256_hex b = id).
Proof.
  intros Hst Hc Hw. apply (changing_call id) in Hc as (H1 & H2 & H3 & H4 & H5); [|..|done].
  - split_and!; try done.
    + intros Hsome. destruct H4 as [->|(s & o & Hs & _ & ->)]; [done|].
      simpl in Hsome. unfold cluster_chunk in Hsome. rewrite Hs in Hsome. simpl in Hsome.
      apply node_chunk_some in Hsome as [Hv Hd]. apply node_chunk_some. split; [done|]. by apply put_keeps.
    + intros Hr. destruct (H5 Hr) as (s & o & Hs & _ & Hok & ->).
      apply Hst, put_acked in Hok as (Hv & (b' & [= <-] & Hh) & Hd). split; [|done].
      by apply node_chunk_some.
  - intros o s. apply (serve_addressed s (Put id (Some b) force (o_now o) (o_io o))).
  - intros o s id' Hne. unfold node_chunk. destruct (validChunkID id') eqn:Hv; [|done].
    unfold put_call. by rewrite put_frame.
Qed.

Lemma getChunk_law addr id w r w' :
  getChunk addr id w = (r, w') →
  coord w' = coord w ∧ calls w' = S (calls w) ∧ dns w' = dns w ∧
  ∀ b, r = Ok b → ∃ s, dns w !! addr = Some s ∧ handleGet id (o_open (net (calls w))) s = (200%Z, Some b).
Proof.
  unfold getChunk. intros Hr. destruct (call addr _ w) as [o w1] eqn:Hcall.
  apply call_readonly in Hcall as (Hco & Hn & Hd & Ho); [|done].
  destruct o as [[st [body|]]|]; [destruct (Z.eqb_spec st 200) as [->|]| |];
    injection Hr as <- <-; split_and!; try done.
  intros b [= <-]. destruct (Ho _ eq_refl) as (s & Hs & E). eauto.
Qed.

Lemma handleGet_ok id ok s b : addressed (disk s) → handleGet id ok s = (200%Z, Some b) →
  is_Some (node_chunk s id) ∧ sha256_hex b = id.
Proof.
  intros Ha. unfold handleGet. destruct (validChunkID id) eqn:Hv; [|done]. simpl.
  destruct (disk s !! chunkPath id) as [f|] eqn:Hf; [|done]. destruct ok; [|done].
  intros [= <-]. split; [|by apply Ha]. apply node_chunk_some. rewrite Hf. eauto.
Qed.

Lemma ReadChunk_law id addrs w r w' :
  coord_ReadChunk id addrs w = (r, w') → sound w →
  sound w' ∧ same_config w w' ∧ same_chunks w w' ∧
  ∀ b addr, r = Ok (b, addr) → addr ∈ addrs ∧ is_Some (chunk_at w addr id) ∧ sha256_hex b = id.
Proof.
  revert w. induction addrs as [|a addrs IH]; intros w Hr Hw; simpl in Hr.
  { injection Hr as <- <-. by split_and!. }
  destruct (getChunk a id w) as [o w1] eqn:Hget.
  apply getChunk_law in Hget as (Hco & _ & Hd & Ho).
  assert (sound w1) as Hw1 by (intros x s; rewrite Hd; apply Hw).
  assert (same_config w w1) as Hc1 by (unfold same_config; simpl; by rewrite Hco).
  assert (same_chunks w w1) as Hs1 by (intros x i; simpl; unfold cluster_chunk; by rewrite Hd).
  destruct o as [body|e].
  - injection Hr as <- <-. split_and!; try done. intros b addr [= <- <-].
    destruct (Ho body eq_refl) as (s & Hs & [Hn Hh]%handleGet_ok); [|by apply (Hw a)].
    split_and!; [set_solver| |done]. simpl. unfold cluster_chunk. by rewrite Hs.
  - destruct (IH w1 Hr Hw1) as (H1 & H2 & H3 & H4). split_and!; [done|by etrans|by etrans|].
    intros b addr Hb. destruct (H4 b addr Hb) as (Hin & Hat & Hh). rewrite Hs1 in Hat. set_solver.
Qed.

Lemma list_chunks_law s ci : ci ∈ handleListChunks s ↔ node_chunk s (ci_ID ci) = Some ci.
Proof.
  rewrite elem_of_list_chunks. unfold node_chunk.
  destruct (validChunkID (ci_ID ci)); [|naive_solver].
  destruct (disk s !! chunkPath (ci_ID ci)) as [f|]; simpl; [|naive_solver].
  destruct ci as [id sz mt]. simpl. naive_solver.
Qed.

Lemma delete_chunk id st ok s :
  (node_chunk (handleDelete id st ok s).2 id = node_chunk s id ∨ node_chunk (handleDelete id st ok s).2 id = None) ∧
  (st = true → (handleDelete id st ok s).1 ∈ [204; 404]%Z → node_chunk (handleDelete id st ok s).2 id = None).
Proof.
  unfold handleDelete, node_chunk. destruct (validChunkID id) eqn:Hv; cbn [negb]; [|auto].
  destruct (disk s !! chunkPath id) as [f|] eqn:Hf.
  - destruct st; cbn [negb snd fst]; [|split; [left; by rewrite Hf|done]].
    destruct ok; cbn [negb snd fst disk set_disk].
    + rewrite lookup_delete_eq. auto.
    + split; [left; by rewrite Hf|set_solver].
  - cbn [snd fst]. rewrite Hf. auto.
Qed.

(** With data nodes whose Stat works, the cluster is a chunk service. *)
Lemma cluster_laws : (∀ n, stat_ok (o_io (net n)) = true) → ChunkServiceLaws coord_error Cluster.
Proof.
  intros Hstat. split.
  - intros w addr id ci. simpl. unfold cluster_chunk, node_chunk. destruct (dns w !! addr) as [s|]; [|done].
    simpl. destruct (validChunkID id); [|done]. destruct (disk s !! chunkPath id); [|done]. by intros [= <-].
  - intros addr w r w' Hr Hw. simpl in Hr. unfold coord_ListChunks in Hr.
    destruct (call addr _ w) as [o w1] eqn:Hcall.
    apply call_readonly in Hcall as (Hco & _ & Hd & Ho); [|done].
    assert (w' = w1 ∧ ∀ l, r = Ok l → o = Some l) as [-> Hl]
      by (destruct o; injection Hr as <- <-; split; try done; by intros ? [= ->]).
    split_and!.
    + intros x s. rewrite Hd. apply Hw.
    + unfold same_config. simpl. by rewrite Hco.
    + intros x i. simpl. unfold cluster_chunk. by rewrite Hd.
    + intros l Hrl. destruct (Ho l (Hl l Hrl)) as (s & Hs & ->). cbn [fst].
      split; [apply NoDup_list_chunks|]. intros ci. rewrite list_chunks_law. simpl. unfold cluster_chunk. by rewrite Hs.
  - intros addr id w r w' Hr Hw. simpl in Hr. unfold deleteChunk in Hr.
    apply (changing_call id) in Hr as (H1 & H2 & H3 & H4 & H5); [|..|done].
    + split_and!; try done.
      * destruct H4 as [->|(s & o & Hs & -> & E)]; [by left|]. rewrite E.
        simpl. unfold cluster_chunk. rewrite Hs. simpl. apply delete_chunk.
      * intros Hr. destruct (H5 Hr) as (s & o & Hs & -> & Hok & ->). by apply delete_chunk.
    + intros o s. apply (serve_addressed s (Delete id (stat_ok (o_io o)) (o_remove o))).
    + intros o s id' Hne. unfold node_chunk. by rewrite delete_frame.
  - intros addr id b w r w'. apply (put_call_law false). done.
  - intros addr id b w r w'. apply (put_call_law true). set_solver.
  - intros id addrs w r w'. apply ReadChunk_law.
Qed.
(** ** Quorum writes *)
Lemma put_keeps_chunks a id b w r w' : putChunk a id b w = (r, w') → sound w →
  sound w' ∧ same_config w w' ∧ keeps_chunks w w' ∧
  (r = Ok () → is_Some (chunk_at w' a id) ∧ sha256_hex b = id).
Proof.
  intros Hp Hw. apply (put_call_law false) in Hp as (H1 & H2 & H3 & H4 & H5); [|done..].
  split_and!; try done. by eapply changed_keeps.
Qed.

Lemma fan_out_spec id b targets w ok w' :
  fan_out id b targets w = (ok, w') → sound w →
  ok `sublist_of` targets ∧ sound w' ∧ same_config w w' ∧ keeps_chunks w w' ∧
  ∀ a, a ∈ ok → is_Some (chunk_at w' a id) ∧ sha256_hex b = id.
Proof.
  revert w ok w'. induction targets as [|a targets IH]; intros w ok w' Hf Hw; simpl in Hf.
  { injection Hf as <- <-. split_and!; try done. by intros ? ?%elem_of_nil. }
  destruct (putChunk a id b w) as [r w1] eqn:Hput.
  destruct (fan_out id b targets w1) as [ok1 w2] eqn:Hrest.
  apply put_keeps_chunks in Hput as (Hw1 & Hc1 & Hk1 & Hok1); [|done].
  destruct (IH w1 ok1 w2 Hrest Hw1) as (Hsub & Hw2 & Hc2 & Hk2 & Hok2).
  assert (keeps_chunks w w2) as Hk by (by etrans).
  destruct r as [[]|e]; injection Hf as <- <-; split_and!; try done; try by etrans.
  - by constructor.
  - intros x [->|Hx]%elem_of_cons; [|by apply Hok2]. destruct (Hok1 eq_refl) as [Hat Hh].
    split; [by apply Hk2|done].
  - by constructor.
Qed.

(** From call [n] on, the network and the nodes' disks answer. *)
Definition fine_from (n : nat) : Prop :=
  ∀ k, n ≤ k → o_fault (net k) = Answered ∧ o_open (net k) = true.

Lemma getChunk_fine a id w : fine_from (calls w) → sound w → is_Some (chunk_at w a id) →
  ∃ b w', getChunk a id w = (Ok b, w') ∧ sha256_hex b = id.
Proof.
  intros Hfine Hw Hat. simpl in Hat. unfold cluster_chunk in Hat.
  destruct (dns w !! a) as [s|] eqn:Hs; [|by destruct Hat].
  apply node_chunk_some in Hat as [Hv [f Hf]].
  destruct (Hfine (calls w)) as [Hans Hopen]; [done|].
  assert (handleGet id true s = (200%Z, Some (f_Data f))) as Hg
    by (unfold handleGet; rewrite Hv; simpl; by rewrite Hf).
  unfold getChunk, call. rewrite Hs, Hopen, Hg, Hans. simpl.
  eexists _, _. split; [done|]. by apply (Hw a s Hs).
Qed.

Lemma ReadChunk_fine id cs w :
  fine_from (calls w) → sound w → (∃ a, a ∈ cs ∧ is_Some (chunk_at w a id)) →
  ∃ b a w', coord_ReadChunk id cs w = (Ok (b, a), w') ∧ a ∈ cs ∧ sha256_hex b = id.
Proof.
  revert w. induction cs as [|c cs IH]; intros w Hfine Hw (a & Ha & Hat); [set_solver|]. simpl.
  destruct (getChunk c id w) as [r w1] eqn:Hget. pose proof Hget as (Hco & Hn & Hd & Ho)%getChunk_law.
  assert (sound w1) as Hw1 by (intros x s; rewrite Hd; apply Hw).
  destruct r as [b|e].
  - exists b, c, w1. destruct (Ho b eq_refl) as (s & Hs & [_ Hh]%handleGet_ok); [|by apply (Hw c)].
    split_and!; [done|set_solver|done].
  - destruct (decide (a = c)) as [->|Hne].
    { destruct (getChunk_fine c id w) as (b & w2 & E & _); [done..|]. rewrite E in Hget. done. }
    destruct (IH w1) as (b & x & w2 & E & Hx & Hh); [|done| |].
    + rewrite Hn. intros k Hk. apply Hfine. lia.
    + exists a. split; [set_solver|]. simpl in *. unfold cluster_chunk. by rewrite Hd.
    + exists b, x, w2. split_and!; [done|set_solver|done].
Qed.

(** The cluster after the nodes at [down] have gone. *)
Definition without_nodes (down : gset string) (w : Cluster) : Cluster :=
  MkCluster (coord w) (filter (λ kv, kv.1 ∉ down) (dns w)) (calls w).

Lemma NoDup_fmap_inv {A B} (f : A → B) l x y :
  NoDup (f <$> l) → x ∈ l → y ∈ l → f x = f y → x = y.
Proof.
  intros Hn Hx Hy E. induction l as [|z l IH]; [set_solver|].
  rewrite fmap_cons in Hn. apply NoDup_cons in Hn as [Hz Hn].
  apply elem_of_cons in Hx, Hy.
  destruct Hx as [->|Hx], Hy as [->|Hy]; [done| | |by apply IH].
  - exfalso. apply Hz, list_elem_of_fmap. eauto.
  - exfalso. apply Hz, list_elem_of_fmap. exists x. by rewrite <- E.
Qed.

Lemma PlaceN_spec key n c :
  NoDup (ID <$> Nodes c) → NoDup (Addr <$> Nodes c) →
  NoDup (coord_PlaceN key n c) ∧ coord_PlaceN key n c ⊆ coord_DNs c ∧
  length (coord_PlaceN key n c) = Z.to_nat n `min` length (Nodes c).
Proof.
  intros Hid Haddr. unfold coord_PlaceN, PickByDomain.
  destruct (PickByDomain_picks key n (nodes (placer c)) Hid) as (Hsub & Hn & Hl).
  split_and!.
  - apply NoDup_fmap_2_strong; [|by eapply NoDup_fmap_1].
    intros x y Hx Hy. apply (NoDup_fmap_inv Addr (Nodes c)); [done|by apply Hsub..].
  - intros a (x & -> & Hx)%list_elem_of_fmap. apply list_elem_of_fmap. exists x. split; [done|by apply Hsub].
  - by rewrite length_fmap.
Qed.
Lemma PlaceChunk_spec id c :
  NoDup (ID <$> Nodes c) → NoDup (Addr <$> Nodes c) →
  NoDup (coord_PlaceChunk id c) ∧ coord_PlaceChunk id c ⊆ coord_DNs c ∧
  length (coord_PlaceChunk id c) = Z.to_nat (replicationFactor c) `min` length (Nodes c).
Proof. apply PlaceN_spec. Qed.

(** An acknowledged quorum write survives the loss of any nodes fewer than the
    quorum: the acknowledging replicas are distinct, placed nodes, at least
    quorumWrite of them, and whichever fewer than quorumWrite nodes go away, a
    read over the acknowledged replicas that the remaining nodes answer returns
    bytes with the chunk's hash. *)
Theorem quorum_write_survives_failures id data w acked w' down :
  (∀ l, sched l ≡ₚ l) → sound w →
  NoDup (ID <$> Nodes (coord w)) → NoDup (Addr <$> Nodes (coord w)) →
  WriteChunk id data w = ((acked, None), w') →
  (Z.of_nat (size down) < quorumWrite (coord w))%Z → fine_from (calls w') →
  (quorumWrite (coord w) ≤ Z.of_nat (length acked))%Z ∧ NoDup acked ∧
  acked ⊆ coord_PlaceChunk id (coord w) ∧
  ∃ b a w'', coord_ReadChunk id acked (without_nodes down w') = (Ok (b, a), w'') ∧
             a ∈ acked ∧ a ∉ down ∧ sha256_hex b = id ∧ sha256_hex data = id.
Proof.
  intros Hsched Hw Hid Haddr Hwr Hdown Hfine. unfold WriteChunk in Hwr.
  destruct (length (coord_PlaceChunk id (coord w)) =? 0); [done|].
  destruct (fan_out id data (sched _) w) as [ok w1] eqn:Hfan.
  destruct (Z.ltb_spec (Z.of_nat (length ok)) (quorumWrite (coord w))) as [|Hq]; [done|].
  injection Hwr as <- <-. apply fan_out_spec in Hfan as (Hsub & Hw1 & _ & _ & Hok); [|done].
  destruct (PlaceChunk_spec id (coord w) Hid Haddr) as (Hnd & _ & _).
  assert (NoDup ok) as Hnok by (eapply sublist_NoDup; [|exact Hsub]; by rewrite Hsched).
  assert (∃ a, a ∈ ok ∧ a ∉ down) as (a & Ha & Hadown).
  { destruct (decide (Forall (λ a, a ∈ down) ok)) as [Hall|Hex].
    - exfalso. assert ((list_to_set ok : gset string) ⊆ down) as Hs
        by (intros x Hx; rewrite Forall_forall in Hall; apply Hall; set_solver).
      apply subseteq_size in Hs. rewrite size_list_to_set in Hs by done. lia.
    - apply not_Forall_Exists, Exists_exists in Hex; [done|apply _]. }
  destruct (Hok a Ha) as [Hat Hhash].
  split_and!; [done|done|intros x Hx; rewrite <- Hsched; by eapply sublist_subseteq|].
  assert (sound (without_nodes down w1)) as Hwd.
  { intros x s Hs. apply map_lookup_filter_Some in Hs as [Hs _]. by apply (Hw1 x). }
  destruct (ReadChunk_fine id ok (without_nodes down w1)) as (b & x & w2 & E & Hx & Hh); [done|done| |].
  { exists a. split; [done|]. simpl in *. unfold cluster_chunk in *. simpl.
    destruct (dns w1 !! a) as [s|] eqn:Hs; [|by destruct Hat].
    erewrite (proj2 (map_lookup_filter_Some _ _ _ _)); [done|]. by split. }
  exists b, x, w2. split_and!; try done. intros Hxd.
  apply ReadChunk_law in E as (_ & _ & _ & E); [|done]. destruct (E b x eq_refl) as (_ & Hat' & _).
  simpl in Hat'. unfold cluster_chunk in Hat'. simpl in Hat'.
  rewrite map_lookup_filter_None_2 in Hat'; [by destruct Hat'|]. right. intros s _. simpl. tauto.
Qed.

(** A write to nodes that are all up, on a network that answers, is acknowledged by
    every target. *)
Definition all_fine : Prop := ∀ n, o_fault (net n) = Answered ∧ o_io (net n) = io_fine.

Lemma put_fine_status id b now s : sha256_hex b = id → (handlePut id (Some b) false now io_fine s).1 ∈ [200; 201]%Z.
Proof.
  intros <-. unfold handlePut, hashHex. rewrite sha256_hex_valid. cbn [negb].
  rewrite bool_decide_eq_false_2 by (by intros []). cbn -[tmp_of].
  destruct (bool_decide _); cbn [fst]; set_solver.
Qed.

Lemma fan_out_all_up id b targets w :
  all_fine → sha256_hex b = id → (∀ a, a ∈ targets → is_Some (dns w !! a)) →
  (fan_out id b targets w).1 = targets.
Proof.
  intros Hfine Hb. revert w. induction targets as [|a targets IH]; intros w Hup; [done|]. simpl.
  destruct (Hup a) as [s Hs]; [by left|]. destruct (Hfine (calls w)) as [Hans Hio].
  unfold putChunk, call, put_call. rewrite Hs, Hio, Hans.
  pose proof (put_fine_status id b (o_now (net (calls w))) s Hb) as Hst.
  destruct (handlePut id (Some b) false (o_now (net (calls w))) io_fine s) as [st s'] eqn:Hput.
  cbn [fst] in Hst. cbn [checked]. rewrite bool_decide_eq_true_2 by done.
  specialize (IH (MkCluster (coord w) (<[a := s']> (dns w)) (S (calls w)))).
  destruct (fan_out id b targets _) as [ok w2]. cbn [fst] in *. f_equal. apply IH.
  intros x Hx. cbn [dns]. destruct (decide (x = a)) as [->|].
  - rewrite lookup_insert_eq. eauto.
  - rewrite lookup_insert_ne by done. apply Hup. by right.
Qed.

Lemma WriteChunk_all_up id b w :
  all_fine → (∀ l, sched l ≡ₚ l) → sha256_hex b = id →
  NoDup (ID <$> Nodes (coord w)) → NoDup (Addr <$> Nodes (coord w)) →
  (∀ a, a ∈ coord_DNs (coord w) → is_Some (dns w !! a)) →
  (1 ≤ quorumWrite (coord w) ≤ replicationFactor (coord w))%Z →
  (replicationFactor (coord w) ≤ Z.of_nat (length (Nodes (coord w))))%Z →
  ∃ w', WriteChunk id b w = ((sched (coord_PlaceChunk id (coord w)), None), w').
Proof.
  intros Hfine Hsched Hb Hid Haddr Hup Hq Hr.
  destruct (PlaceChunk_spec id (coord w) Hid Haddr) as (_ & Hsub & Hl).
  unfold WriteChunk. rewrite (proj2 (Nat.eqb_neq _ _)) by lia.
  pose proof (fan_out_all_up id b (sched (coord_PlaceChunk id (coord w))) w Hfine Hb) as Hfan.
  destruct (fan_out _ _ _ _) as [ok w']. cbn [fst] in Hfan. rewrite Hfan.
  - pose proof (Permutation_length (Hsched (coord_PlaceChunk id (coord w)))). rewrite (proj2 (Z.ltb_ge _ _)) by lia. eauto.
  - intros a Ha. rewrite Hsched in Ha. by apply Hup, Hsub.
Qed.
End cluster.

(** ** Configuration *)
Definition config_ok (c : Coordinator) : Prop :=
  (1 ≤ quorumWrite c ≤ replicationFactor c)%Z ∧
  (replicationFactor c ≤ Z.of_nat (length (Nodes c)))%Z.

(** Every coordinator that [New] builds, and every later [UpdateNodes], keeps
    1 ≤ quorum ≤ R ≤ the number of nodes; the default quorum is a majority of R,
    and a rejected update leaves the coordinator as it was. *)
Theorem coordinator_config cfg c updates :
  New cfg = Ok c →
  let c' := foldl (λ c nodes, (UpdateNodes nodes c).2) c updates in
  config_ok c' ∧ replicationFactor c' = replicationFactor c ∧ quorumWrite c' = quorumWrite c ∧
  ((QuorumWrite cfg ≤ 0)%Z → (replicationFactor c < 2 * quorumWrite c')%Z) ∧
  ∀ nodes e c'', UpdateNodes nodes c' = (Err e, c'') → c'' = c'.
Proof.
  intros Hnew.
  assert (config_ok c ∧ ((QuorumWrite cfg ≤ 0)%Z → (replicationFactor c < 2 * quorumWrite c)%Z)) as [Hok Hmaj].
  { revert Hnew. unfold New. destruct (Z.eqb_spec (Z.of_nat (length (cfg_Nodes cfg))) 0); [done|].
    set (r := if (ReplicationFactor cfg <=? 0)%Z then _ else _).
    assert (1 ≤ r)%Z as Hr by (subst r; destruct (Z.leb_spec (ReplicationFactor cfg) 0); lia). clearbody r.
    destruct (Z.ltb_spec (Z.of_nat (length (cfg_Nodes cfg))) r); [done|].
    set (q := if (QuorumWrite cfg <=? 0)%Z then _ else _).
    assert (1 ≤ q ∧ (QuorumWrite cfg ≤ 0 → r < 2 * q))%Z as Hq.
    { subst q. destruct (Z.leb_spec (QuorumWrite cfg) 0); [|lia].
      pose proof (Z.div_mod r 2). pose proof (Z.mod_pos_bound r 2). lia. }
    destruct (Z.ltb_spec r q); [done|]. clearbody q. intros [= <-].
    unfold config_ok, Nodes, Placement.Nodes, Placement.New. cbn [quorumWrite replicationFactor placer nodes]. lia. }
  assert (∀ c1, config_ok c1 →
    let c' := foldl (λ c nodes, (UpdateNodes nodes c).2) c1 updates in
    config_ok c' ∧ replicationFactor c' = replicationFactor c1 ∧ quorumWrite c' = quorumWrite c1) as Hall.
  { clear. induction updates as [|nodes updates IH]; intros c1 Hc1; [done|]. cbn [foldl].
    assert (config_ok (UpdateNodes nodes c1).2 ∧
      replicationFactor (UpdateNodes nodes c1).2 = replicationFactor c1 ∧
      quorumWrite (UpdateNodes nodes c1).2 = quorumWrite c1) as (H1 & <- & <-); [|by apply IH].
    unfold UpdateNodes. destruct (Z.of_nat (length nodes) =? 0)%Z; [done|].
    destruct (Z.ltb_spec (Z.of_nat (length nodes)) (replicationFactor c1)); [done|].
    split; [|done]. split; [apply Hc1|done]. }
  intros c'. destruct (Hall c Hok) as (H1 & H2 & H3). fold c' in H1, H2, H3.
  split_and!; [done|done|done|by rewrite H3|].
  intros nodes e c''. unfold UpdateNodes. repeat case_match; congruence.
Qed.

(** A data node that cannot stat a chunk's file answers 404, which the coordinator
    counts as deleted: the caller is told the chunk is gone while it is still there. *)
Lemma delete_hides_stat_failure id s f :
  validChunkID id = true → disk s !! chunkPath id = Some f → handleDelete id false true s = (404%Z, s).
Proof. intros Hv Hf. unfold handleDelete. by rewrite Hv, Hf. Qed.

(** ** Witnesses *)
#[local] Opaque sha256_hex w_id.
Definition w_nodes : list Node := [MkNode "dn1" "h1:80" ""; MkNode "dn2" "h2:80" ""; MkNode "dn3" "h3:80" ""].
Definition w_config : Config := MkConfig w_nodes 0 0 0 "".
Definition w_coord : Coordinator := MkCoordinator (Placement.New w_nodes) 3 2 10000000000 "http".
Definition w_net (n : nat) : outcome := MkOutcome Answered (Z.of_nat n) io_fine true true.

(** On a network without faults, a node that has the chunk serves it and a node that does
    not takes it. *)
Lemma w_read_one w a s :
  dns w !! a = Some s → disk s !! chunkPath w_id = Some (MkFile w_body 0) →
  ∃ w', coord_ReadChunk w_net w_id [a] w = (Ok (w_body, a), w') ∧ dns w' = dns w.
Proof.
  intros Hs Hf. pose proof (get_after_put _ _ _ w_id_spec Hf) as Hget.
  cbn [coord_ReadChunk]. unfold getChunk, call. rewrite Hs. cbn [w_net o_open o_fault]. rewrite Hget.
  eexists. split; [reflexivity|]. cbn [dns]. by apply insert_id.
Qed.
Lemma w_put_one w a s :
  dns w !! a = Some s → disk s !! chunkPath w_id = None →
  ∃ w', putChunk w_net a w_id w_body w = (Ok (), w').
Proof.
  intros Hs Hf. unfold putChunk, call, put_call. rewrite Hs. cbn [w_net o_fault o_now o_io].
  pose proof (put_fresh_status w_id w_body false (Z.of_nat (calls w)) s w_id_spec Hf) as Hput.
  destruct (handlePut _ _ _ _ _ _) as [st s']. cbn [fst] in Hput. subst st. cbn [checked].
  rewrite bool_decide_eq_true_2 by (apply list_elem_of_further, list_elem_of_here). by eexists.
Qed.

Definition w_cluster : Cluster :=
  MkCluster w_coord (list_to_map ((λ a, (a, MkServer a ∅ 0 0)) <$> ["h1:80"; "h2:80"; "h3:80"])) 0.

Lemma w_cluster_sound : cluster_sound w_cluster.
Proof.
  intros a s Hs. apply elem_of_list_to_map_2, list_elem_of_fmap in Hs as (x & [= -> ->] & _).
  apply empty_addressed.
Qed.
Lemma w_nodes_ok : NoDup (ID <$> w_nodes) ∧ NoDup (Addr <$> w_nodes).
Proof. split; by_decide. Qed.

Lemma w_all_up a : a ∈ ["h1:80"; "h2:80"; "h3:80"]%string → is_Some (dns w_cluster !! a).
Proof.
  intros Ha. do 3 (apply elem_of_cons in Ha as [->|Ha]; [eexists; vm_compute; reflexivity|]).
  by apply elem_of_nil in Ha.
Qed.

Lemma w_write : ∃ w', WriteChunk w_net id w_id w_body w_cluster = ((coord_PlaceChunk w_id w_coord, None), w').
Proof.
  apply (WriteChunk_all_up w_net id).
  - by intros n.
  - done.
  - apply w_id_spec.
  - apply w_nodes_ok.
  - apply w_nodes_ok.
  - intros a. apply w_all_up.
  - done.
  - done.
Qed.

Lemma quorum_write_survives_failures_witness :
  ∃ w' b a w'', WriteChunk w_net id w_id w_body w_cluster = ((coord_PlaceChunk w_id w_coord, None), w') ∧
    coord_ReadChunk w_net w_id (coord_PlaceChunk w_id w_coord) (without_nodes {["h1:80"]} w') = (Ok (b, a), w'') ∧
    a ∉ ({["h1:80"]} : gset string) ∧ sha256_hex b = w_id.
Proof.
  destruct w_write as [w' Hw].
  destruct (quorum_write_survives_failures w_net id w_id w_body w_cluster _ w' {["h1:80"]}
    (λ l, Permutation_refl l) w_cluster_sound (proj1 w_nodes_ok) (proj2 w_nodes_ok) Hw)
    as (_ & _ & _ & b & a & w'' & E & _ & Ha & Hh & _).
  - rewrite size_singleton. by apply Z.ltb_lt.
  - intros n _. split; reflexivity.
  - exists w', b, a, w''. exact (conj Hw (conj E (conj Ha Hh))).
Defined.

Lemma coordinator_config_witness : config_ok (UpdateNodes (take 2 w_nodes) w_coord).2.
Proof. apply (coordinator_config w_config w_coord [take 2 w_nodes]). reflexivity. Defined.
