(* ===== verification/Gc.v ===== *)
(** * Garbage collection: internal/gc/gc.go

    Proved for any chunk service (Transport.v).  [sched] is the order in which the
    goroutines of [Run] complete; the semaphore only bounds how many run at once.
    [clock addr id] is the Unix time read when the age of a sweep is computed. *)
From S2P Require Import Prelude GF GoLib Kv Meta DataNode Transport Placement Coordinator.
From Stdlib Require Import Strings.Byte.

Record Sweep : Type := MkSweep { sw_Addr : string; sw_ChunkID : string; sw_Size : Z; AgeSec : Z }.
Record Plan : Type := MkPlan { Scanned : nat; ClaimedKeys : nat; Sweeps : list Sweep }.
(** An entry of [Errors] is the address, the id prefix and the cause. *)
Record RunStats (E : Type) : Type := MkRunStats
  { Deleted : nat; Failed : nat; BytesFreed : Z; Errors : list (string * string * E) }.
Arguments MkRunStats {E}.
Arguments Deleted {E}.
Arguments Failed {E}.
Arguments BytesFreed {E}.
Arguments Errors {E}.

Definition DefaultMinAge : Z := 60000000000.

Definition idPrefix (id : string) : string :=
  if String.length id <=? 16 then id else String.substring 0 16 id.

(** map[chunkID]map[addr]bool *)
Abbreviation claim_map := (gmap string (gset string)).
Definition claim_add (out : claim_map) (c : ChunkRef) : claim_map :=
  <[ChunkID c := default ∅ (out !! ChunkID c) ∪ list_to_set (Replicas c)]> out.
Definition buildClaimedSet (objs : list ObjectMeta) : claim_map :=
  foldl (λ out o,
    let out := foldl claim_add out (Chunks o) in
    foldl (λ out st, foldl claim_add out (Shards st)) out (Stripes o)) ∅ objs.
Definition countPairs (m : claim_map) : nat := map_fold (λ _ s n, n + size s) 0 m.

Definition sweep_le (a b : Sweep) : Prop :=
  (sw_Addr a = sw_Addr b ∧ String.le (sw_ChunkID a) (sw_ChunkID b)) ∨
  (sw_Addr a ≠ sw_Addr b ∧ String.le (sw_Addr a) (sw_Addr b)).
#[export] Instance sweep_le_dec : RelDecision sweep_le.
Proof. intros a b. unfold sweep_le. apply _. Defined.

Section gc.
Context {E W : Type} {HC : ChunkService E W} {HL : ChunkServiceLaws E W}.
Context (sched : list Sweep → list Sweep) (clock : string → string → Z).

(** The chunks of one node that no record claims and that are old enough. *)
Fixpoint sweep_node (claimed : claim_map) (cutoff : Z) (addr : string) (chunks : list ChunkInfo)
    : list Sweep :=
  match chunks with
  | [] => []
  | c :: chunks =>
      let rest := sweep_node claimed cutoff addr chunks in
      if bool_decide (addr ∈ default ∅ (claimed !! ci_ID c)) then rest
      else if (cutoff <? ci_MTime c)%Z then rest
      else MkSweep addr (ci_ID c) (ci_Size c) (clock addr (ci_ID c) - ci_MTime c) :: rest
  end.

Fixpoint plan_loop (claimed : claim_map) (cutoff : Z) (addrs : list string) (plan : Plan) (w : W)
    : result E Plan * W :=
  match addrs with
  | [] => (Ok plan, w)
  | addr :: addrs =>
      match ListChunks addr w with
      | (Err e, w) => (Err e, w)
      | (Ok chunks, w) =>
          plan_loop claimed cutoff addrs
            (MkPlan (Scanned plan + length chunks) (ClaimedKeys plan)
                    (Sweeps plan ++ sweep_node claimed cutoff addr chunks)) w
      end
  end.

(** Unix seconds of [now - minAge], both in nanoseconds. *)
Definition cutoff_of (now minAge : Z) : Z :=
  ((now - (if minAge <=? 0 then DefaultMinAge else minAge)) / 1000000000)%Z.

Inductive gc_error : Type := ErrListObjects | ErrListChunks (e : E).

(** [objs] is what [ListObjects] returned, [None] for an error. *)
Definition ComputePlan (objs : option (list ObjectMeta)) (minAge now : Z) (w : W)
    : result gc_error Plan * W :=
  match objs with
  | None => (Err ErrListObjects, w)
  | Some objs =>
      let claimed := buildClaimedSet objs in
      let '(r, w) := plan_loop claimed (cutoff_of now minAge) (DNs w)
                       (MkPlan 0 (countPairs claimed) []) w in
      (match r with
       | Err e => Err (ErrListChunks e)
       | Ok plan => Ok (MkPlan (Scanned plan) (ClaimedKeys plan) (merge_sort sweep_le (Sweeps plan)))
       end, w)
  end.

Definition run_one (st : RunStats E * W) (s : Sweep) : RunStats E * W :=
  let '(stats, w) := st in
  match DeleteChunkFrom (sw_Addr s) (sw_ChunkID s) w with
  | (Ok _, w) => (MkRunStats (S (Deleted stats)) (Failed stats) (i64 (BytesFreed stats + sw_Size s))
                             (Errors stats), w)
  | (Err e, w) => (MkRunStats (Deleted stats) (S (Failed stats)) (BytesFreed stats)
                     (Errors stats ++ [(sw_Addr s, idPrefix (sw_ChunkID s), e)]), w)
  end.
Definition Run (plan : Plan) (w : W) : RunStats E * W :=
  foldl run_one (MkRunStats 0 0 0 [], w) (sched (Sweeps plan)).

(** ** The claimed set *)
(** Some record places a replica of [id] on [addr]. *)
Definition claims (objs : list ObjectMeta) (addr id : string) : Prop :=
  ∃ o c, o ∈ objs ∧ c ∈ refs o ∧ ChunkID c = id ∧ addr ∈ Replicas c.

Lemma buildClaimedSet_refs objs : buildClaimedSet objs = foldl claim_add ∅ (objs ≫= refs).
Proof.
  unfold buildClaimedSet. generalize (∅ : claim_map). induction objs as [|o objs IH]; intros m; [done|].
  rewrite bind_cons, foldl_app. cbn [foldl]. rewrite IH. f_equal. unfold refs. rewrite foldl_app.
  generalize (foldl claim_add m (Chunks o)). induction (Stripes o) as [|s l IHs]; intros m'; [done|].
  rewrite bind_cons, foldl_app. cbn [foldl]. apply IHs.
Qed.

Lemma claim_fold_spec l m addr id :
  addr ∈ default ∅ (foldl claim_add m l !! id) ↔
  addr ∈ default ∅ (m !! id) ∨ ∃ c, c ∈ l ∧ ChunkID c = id ∧ addr ∈ Replicas c.
Proof.
  revert m. induction l as [|c l IH]; intros m; simpl.
  - split; [by left|]. intros [H|(c & Hc%elem_of_nil & _)]; done.
  - rewrite IH. unfold claim_add. destruct (decide (ChunkID c = id)) as [<-|Hne].
    + rewrite lookup_insert_eq. simpl. rewrite elem_of_union, elem_of_list_to_set.
      setoid_rewrite elem_of_cons. naive_solver.
    + rewrite lookup_insert_ne by done. setoid_rewrite elem_of_cons. naive_solver.
Qed.

Lemma buildClaimedSet_spec objs addr id :
  addr ∈ default ∅ (buildClaimedSet objs !! id) ↔ claims objs addr id.
Proof.
  rewrite buildClaimedSet_refs, claim_fold_spec, lookup_empty. unfold claims.
  setoid_rewrite list_elem_of_bind. set_solver.
Qed.

(** ** The plan *)
Lemma sweep_node_spec claimed cutoff addr chunks a i :
  (∃ s, s ∈ sweep_node claimed cutoff addr chunks ∧ sw_Addr s = a ∧ sw_ChunkID s = i) ↔
  a = addr ∧ ∃ c, c ∈ chunks ∧ ci_ID c = i ∧ addr ∉ default ∅ (claimed !! i) ∧ (ci_MTime c ≤ cutoff)%Z.
Proof.
  induction chunks as [|c chunks IH]; simpl; [set_solver|].
  destruct (decide (addr ∈ default ∅ (claimed !! ci_ID c))) as [Hc|Hc].
  - rewrite bool_decide_eq_true_2, IH by done. setoid_rewrite elem_of_cons. naive_solver.
  - rewrite bool_decide_eq_false_2 by done.
    destruct (Z.ltb_spec cutoff (ci_MTime c)) as [Hm|Hm].
    + rewrite IH. setoid_rewrite elem_of_cons. naive_solver lia.
    + setoid_rewrite elem_of_cons. split.
      * intros (s & [->|Hs] & <- & <-); simpl; [split; [done|]; exists c; eauto|].
        destruct (proj1 IH) as [-> (c' & Hc')]; [eauto|]. split; [done|]. exists c'. naive_solver.
      * intros (-> & c' & [->|Hc'] & <- & Hn & Hle); [eexists; split; [by left|done]|].
        destruct (proj2 IH) as (s & Hs & E1 & E2); [naive_solver|]. exists s. auto.
Qed.

Definition swept (l : list Sweep) (addr id : string) : Prop :=
  ∃ s, s ∈ l ∧ sw_Addr s = addr ∧ sw_ChunkID s = id.

Lemma plan_loop_spec claimed cutoff addrs plan w r w' :
  plan_loop claimed cutoff addrs plan w = (r, w') → sound w →
  sound w' ∧ same_config w w' ∧ same_chunks w w' ∧
  ∀ p, r = Ok p → ∀ a i, swept (Sweeps p) a i ↔
    swept (Sweeps plan) a i ∨
    (a ∈ addrs ∧ ∃ ci, chunk_at w a i = Some ci ∧ a ∉ default ∅ (claimed !! i) ∧ (ci_MTime ci ≤ cutoff)%Z).
Proof.
  revert plan w. induction addrs as [|addr addrs IH]; intros plan w Hr Hw; simpl in Hr.
  { injection Hr as <- <-. split_and!; try done. intros p [= <-] a i.
    split; [by left|]. intros [H|[H%elem_of_nil _]]; done. }
  destruct (ListChunks addr w) as [[l|e] w1] eqn:Hl.
  - destruct (list_law _ _ _ _ Hl Hw) as (Hw1 & Hc1 & Hs1 & Hlist).
    destruct (Hlist l eq_refl) as [_ Hin].
    destruct (IH _ w1 Hr Hw1) as (Hw' & Hc' & Hs' & Hp). split_and!; [done|by etrans|by etrans|].
    intros p Hrp a i. rewrite (Hp p Hrp a i). cbn [Sweeps].
    assert (swept (Sweeps plan ++ sweep_node claimed cutoff addr l) a i ↔
      swept (Sweeps plan) a i ∨ swept (sweep_node claimed cutoff addr l) a i) as ->
      by (unfold swept; setoid_rewrite elem_of_app; naive_solver).
    unfold swept at 2. rewrite sweep_node_spec, Hs1.
    assert ((∃ c, c ∈ l ∧ ci_ID c = i ∧ addr ∉ default ∅ (claimed !! i) ∧ (ci_MTime c ≤ cutoff)%Z) ↔
      (∃ ci, chunk_at w addr i = Some ci ∧ addr ∉ default ∅ (claimed !! i) ∧ (ci_MTime ci ≤ cutoff)%Z)) as Heq.
    { split.
      - intros (c & Hc & <- & Hn & Hm). apply Hin in Hc. eauto.
      - intros (c & Hc & Hn & Hm). pose proof (chunk_id_law _ _ _ _ Hc) as <-. apply Hin in Hc. eauto. }
    rewrite elem_of_cons. split.
    + intros [[H|[-> H%Heq]]|[H1 H2]]; auto.
    + intros [H|[[->|H1] H2]]; auto. left. right. split; [done|]. by apply Heq.
  - injection Hr as <- <-. destruct (list_law _ _ _ _ Hl Hw) as (Hw1 & Hc1 & Hs1 & _). done.
Qed.

(** What a plan sweeps: the old chunks of the configured nodes that no record claims. *)
Lemma ComputePlan_spec objs minAge now w plan w1 :
  ComputePlan (Some objs) minAge now w = (Ok plan, w1) → sound w →
  sound w1 ∧ same_chunks w w1 ∧
  ∀ a i, swept (Sweeps plan) a i ↔
    a ∈ DNs w ∧ ¬ claims objs a i ∧
    ∃ ci, chunk_at w a i = Some ci ∧ (ci_MTime ci ≤ cutoff_of now minAge)%Z.
Proof.
  unfold ComputePlan. intros Hp Hw. destruct (plan_loop _ _ _ _ w) as [r w'] eqn:Hl.
  destruct (plan_loop_spec _ _ _ _ _ _ _ Hl Hw) as (Hw' & _ & Hs & Hspec).
  destruct r as [p|e]; [|done]. injection Hp as <- <-. split_and!; [done|done|]. intros a i. cbn [Sweeps].
  assert (swept (merge_sort sweep_le (Sweeps p)) a i ↔ swept (Sweeps p) a i) as ->
    by (unfold swept; by setoid_rewrite elem_of_merge_sort).
  rewrite (Hspec p eq_refl a i). cbn [Sweeps]. unfold swept at 1. setoid_rewrite elem_of_nil.
  setoid_rewrite buildClaimedSet_spec. naive_solver.
Qed.

(** ** The run *)
Definition total_bytes (l : list Sweep) : Z := foldr (λ s acc, (sw_Size s + acc)%Z) 0%Z l.

Lemma run_fold l stats w stats' w' :
  foldl run_one (stats, w) l = (stats', w') → sound w →
  sound w' ∧ (∀ a i, ¬ swept l a i → chunk_at w' a i = chunk_at w a i) ∧
  (∀ a i, chunk_at w' a i = chunk_at w a i ∨ chunk_at w' a i = None) ∧
  Deleted stats' + Failed stats' = Deleted stats + Failed stats + length l ∧ Failed stats ≤ Failed stats' ∧
  (Failed stats' = Failed stats → (∀ a i, swept l a i → chunk_at w' a i = None) ∧
     (BytesFreed stats' = i64 (BytesFreed stats + total_bytes l) ∨ l = [])).
Proof.
  revert stats w. induction l as [|s l IH]; intros stats w Hr Hw; simpl in Hr.
  { injection Hr as <- <-. split_and!; auto. intros _. split; [|by right]. by intros a i (s & Hs%elem_of_nil & _). }
  destruct (DeleteChunkFrom (sw_Addr s) (sw_ChunkID s) w) as [r w1] eqn:Hdel.
  destruct (delete_law _ _ _ _ _ Hdel Hw) as (Hw1 & _ & Honly & Hgone & Hok).
  assert (∀ a i, chunk_at w1 a i = chunk_at w a i ∨ chunk_at w1 a i = None) as Hstep.
  { intros a i. destruct (decide ((a, i) = (sw_Addr s, sw_ChunkID s))) as [[= -> ->]|Hne]; [done|].
    left. by apply Honly. }
  set (st1 := match r with Ok _ => _ | Err e => _ end) in Hr.
  assert (∃ stats1, foldl run_one (stats1, w1) l = (stats', w') ∧
    Deleted stats1 + Failed stats1 = S (Deleted stats + Failed stats) ∧ Failed stats ≤ Failed stats1 ∧
    (Failed stats1 = Failed stats → r = Ok () ∧ BytesFreed stats1 = i64 (BytesFreed stats + sw_Size s)))
    as (stats1 & Hrest & Hcount & Hle & Hsucc).
  { destruct r as [[]|e]; subst st1; eexists; (split; [exact Hr|]); simpl; split_and!; auto; lia. }
  destruct (IH _ _ Hrest Hw1) as (Hw' & Hframe & Hmono & Hcnt & Hle' & Hall).
  split_and!; [done| | |simpl; lia|lia|].
  - intros a i Hns. rewrite Hframe; [apply Honly|].
    + intros [= -> ->]. apply Hns. exists s. split; [by left|done].
    + intros (x & Hx & Ex). apply Hns. exists x. split; [by right|done].
  - intros a i. destruct (Hmono a i) as [->|]; auto.
  - intros Hf. assert (Failed stats1 = Failed stats) as E1 by lia.
    destruct (Hsucc E1) as [-> Hb]. destruct Hall as [Hall Hbytes]; [lia|]. split.
    + intros a i (x & [->|Hx]%elem_of_cons & <- & <-); [|apply Hall; by exists x].
      destruct (Hmono (sw_Addr s) (sw_ChunkID s)) as [->|]; [by apply Hok|done].
    + left. simpl. destruct Hbytes as [->| ->].
      * rewrite Hb, i64_add_l. f_equal. lia.
      * simpl. injection Hrest as <- <-. rewrite Hb. f_equal. simpl. lia.
Qed.

Lemma Run_spec plan w stats w' :
  (∀ l, sched l ≡ₚ l) → Run plan w = (stats, w') → sound w →
  sound w' ∧ (∀ a i, ¬ swept (Sweeps plan) a i → chunk_at w' a i = chunk_at w a i) ∧
  (∀ a i, chunk_at w' a i = chunk_at w a i ∨ chunk_at w' a i = None) ∧
  Deleted stats + Failed stats = length (Sweeps plan) ∧
  (Failed stats = 0 → (∀ a i, swept (Sweeps plan) a i → chunk_at w' a i = None)).
Proof.
  intros Hsched Hr Hw. destruct (run_fold _ _ _ _ _ Hr Hw) as (H1 & H2 & H3 & H4 & _ & H5).
  assert (∀ a i, swept (sched (Sweeps plan)) a i ↔ swept (Sweeps plan) a i) as Hs
    by (intros a i; unfold swept; by setoid_rewrite Hsched).
  split_and!; [done| |done| |].
  - intros a i. rewrite <- Hs. apply H2.
  - rewrite H4. simpl. by apply Permutation_length.
  - intros Hf a i. rewrite <- Hs. by apply H5.
Qed.

(** C27: garbage collection deletes only garbage: whatever happened between planning
    and running, and in whatever order the deletions complete, [Run] changes a
    chunk only by deleting it, and only where the plan's snapshot had no record
    claiming that replica and the chunk was at least [minAge] old. *)
Theorem gc_deletes_only_garbage objs minAge now w plan w1 w2 stats w3 :
  (∀ l, sched l ≡ₚ l) → sound w → sound w2 →
  ComputePlan (Some objs) minAge now w = (Ok plan, w1) → Run plan w2 = (stats, w3) →
  Deleted stats + Failed stats = length (Sweeps plan) ∧
  ∀ a i, chunk_at w3 a i ≠ chunk_at w2 a i →
    chunk_at w3 a i = None ∧ a ∈ DNs w ∧ ¬ claims objs a i ∧
    ∃ ci, chunk_at w a i = Some ci ∧ (ci_MTime ci ≤ cutoff_of now minAge)%Z.
Proof.
  intros Hsched Hw Hw2 (_ & _ & Hplan)%ComputePlan_spec Hrun; [|done].
  destruct (Run_spec _ _ _ _ Hsched Hrun Hw2) as (_ & Hframe & Hmono & Hcnt & _). split; [done|].
  intros a i Hne. destruct (Hmono a i) as [Em|Em]; [done|]. split; [done|]. apply Hplan.
  destruct (decide (Exists (λ s, sw_Addr s = a ∧ sw_ChunkID s = i) (Sweeps plan))) as [Hex|Hex].
  - apply Exists_exists in Hex as (s & Hs & E1 & E2). by exists s.
  - exfalso. apply Hne, Hframe. intros (s & Hs & E1 & E2). apply Hex, Exists_exists. eauto.
Qed.

(** A collection that runs right after its planning and reports no failure leaves
    no garbage: every chunk still on a configured node is claimed by a record of
    the snapshot or younger than [minAge], and all other chunks are untouched. *)
Theorem gc_leaves_no_garbage objs minAge now w plan w1 stats w3 :
  (∀ l, sched l ≡ₚ l) → sound w →
  ComputePlan (Some objs) minAge now w = (Ok plan, w1) → Run plan w1 = (stats, w3) → Failed stats = 0 →
  ∀ a i ci, chunk_at w a i = Some ci →
    chunk_at w3 a i =
      if decide (a ∈ DNs w ∧ a ∉ default ∅ (buildClaimedSet objs !! i) ∧ (ci_MTime ci ≤ cutoff_of now minAge)%Z)
      then None else Some ci.
Proof.
  intros Hsched Hw (Hw1 & Hsame & Hplan)%ComputePlan_spec Hrun Hf a i ci Hci; [|done].
  destruct (Run_spec _ _ _ _ Hsched Hrun Hw1) as (_ & Hframe & _ & _ & Hgone).
  assert (swept (Sweeps plan) a i ↔
    a ∈ DNs w ∧ a ∉ default ∅ (buildClaimedSet objs !! i) ∧ (ci_MTime ci ≤ cutoff_of now minAge)%Z) as Hsw.
  { rewrite Hplan, buildClaimedSet_spec, Hci. split; [|naive_solver].
    intros (? & ? & ci' & [= <-] & ?). done. }
  case_decide as Hd.
  - apply Hgone; [done|]. by apply Hsw.
  - rewrite Hframe, Hsame; [done|]. by rewrite Hsw.
Qed.

(** The listing of objects is taken before the listing of chunks, and a PUT of bytes
    a node already has does not touch the file's mtime (DataNode.handlePut): a write
    acknowledged between planning and running is deleted all the same. *)
Lemma acknowledged_write_is_swept objs minAge now w plan w1 addr b w2 stats w3 :
  (∀ l, sched l ≡ₚ l) → sound w →
  ComputePlan (Some objs) minAge now w = (Ok plan, w1) →
  swept (Sweeps plan) addr (sha256_hex b) →
  PutChunkTo addr (sha256_hex b) b w1 = (Ok (), w2) →
  Run plan w2 = (stats, w3) → Failed stats = 0 → chunk_at w3 addr (sha256_hex b) = None.
Proof.
  intros Hsched Hw (Hw1 & _ & _)%ComputePlan_spec Hsw Hput Hrun Hf; [|done].
  destruct (put_law _ _ _ _ _ _ Hput Hw1) as (Hw2 & _).
  by apply (Run_spec _ _ _ _ Hsched Hrun Hw2).
Qed.
End gc.

(** ** Witnesses: one node that holds one unclaimed chunk *)
#[local] Opaque sha256_hex w_id.
Definition w_gc_coord : Coordinator.Coordinator :=
  MkCoordinator (Placement.New [MkNode "dn1" "h1:80" ""]) 1 1 10000000000 "http".
Definition w_gc_cluster : Cluster := MkCluster w_gc_coord {["h1:80" := w_stored]} 0.
Definition w_gc_laws : @ChunkServiceLaws coord_error Cluster (cluster_service w_net) :=
  cluster_laws w_net id (λ _, eq_refl).
Definition w_clock (addr id : string) : Z := 100.
Definition w_ci : ChunkInfo := MkChunkInfo w_id 4 0.

Lemma w_list_chunks : handleListChunks w_stored = [w_ci].
Proof.
  apply Permutation_singleton_r, NoDup_Permutation.
  - eapply NoDup_fmap_1, NoDup_list_chunks.
  - apply NoDup_singleton.
  - intros ci. rewrite elem_of_list_chunks, list_elem_of_singleton. unfold w_stored. cbn [disk]. split.
    + intros (_ & f & Hf & Hs & Hm). apply lookup_singleton_Some in Hf as [E%(inj chunkPath) <-].
      destruct ci. simpl in *. subst. done.
    + intros ->. cbn [w_ci ci_ID ci_Size ci_MTime].
      split; [rewrite <- w_id_spec; apply sha256_hex_valid|].
      exists (MkFile w_body 0). split; [apply lookup_singleton_eq|done].
Qed.

Lemma w_gc_sound : cluster_sound w_gc_cluster.
Proof.
  intros a s Hs. unfold w_gc_cluster in Hs. cbn [dns] in Hs. apply lookup_singleton_Some in Hs as [_ <-].
  unfold w_stored. cbn [disk]. apply singleton_addressed, w_id_spec.
Qed.

#[local] Opaque handleListChunks.
Definition w_plan : Plan := MkPlan 1 0 [MkSweep "h1:80" w_id 4 100].
Lemma w_ComputePlan :
  ComputePlan (HC := cluster_service w_net) w_clock (Some []) 0 70000000000 w_gc_cluster =
    (Ok w_plan, MkCluster w_gc_coord {["h1:80" := w_stored]} 1).
Proof.
  unfold ComputePlan. cbn [DNs cluster_service w_gc_cluster].
  change (coord_DNs (coord w_gc_cluster)) with ["h1:80"%string].
  cbn [plan_loop ListChunks cluster_service]. unfold coord_ListChunks, call, w_gc_cluster. cbn [dns calls coord].
  rewrite lookup_singleton_eq. cbn [w_net o_fault]. rewrite insert_singleton_eq, w_list_chunks.
  cbn [length sweep_node w_ci ci_ID ci_MTime ci_Size]. unfold buildClaimedSet. cbn [foldl].
  rewrite lookup_empty. cbn [default from_option].
  rewrite bool_decide_eq_false_2 by apply not_elem_of_empty. reflexivity.
Qed.

Definition w_gc_planned : Cluster := MkCluster w_gc_coord {["h1:80" := w_stored]} 1.
Lemma w_Run : ∃ w3, Run (HC := cluster_service w_net) id w_plan w_gc_planned = (MkRunStats 1 0 4 [], w3).
Proof.
  assert ((handleDelete w_id true true w_stored).1 = 204%Z) as Hst.
  { unfold handleDelete. rewrite <- w_id_spec, sha256_hex_valid, w_id_spec. cbn [negb].
    unfold w_stored. cbn [disk]. by rewrite lookup_singleton_eq. }
  destruct (handleDelete w_id true true w_stored) as [st s'] eqn:Hdel. cbn [fst] in Hst. subst st.
  unfold Run, w_plan, w_gc_planned. cbn [Sweeps id foldl run_one sw_Addr sw_ChunkID DeleteChunkFrom cluster_service].
  unfold deleteChunk, call. cbn [dns calls coord]. rewrite lookup_singleton_eq.
  cbn [w_net o_io o_remove o_fault io_fine stat_ok]. rewrite Hdel. cbn [checked].
  rewrite bool_decide_eq_true_2 by apply list_elem_of_here. eexists. reflexivity.
Qed.

Lemma gc_deletes_only_garbage_witness :
  ∃ stats w3, Run (HC := cluster_service w_net) id w_plan w_gc_planned = (stats, w3) ∧
    Deleted stats + Failed stats = 1.
Proof.
  destruct w_Run as [w3 Hrun]. exists (MkRunStats 1 0 4 []), w3. split; [exact Hrun|].
  exact (proj1 (gc_deletes_only_garbage (HL := w_gc_laws) id w_clock [] 0 70000000000 w_gc_cluster
    w_plan w_gc_planned w_gc_planned _ w3 (λ l, Permutation_refl l) w_gc_sound w_gc_sound
    w_ComputePlan Hrun)).
Defined.

Lemma gc_leaves_no_garbage_witness :
  ∃ stats w3, Run (HC := cluster_service w_net) id w_plan w_gc_planned = (stats, w3) ∧
    cluster_chunk w3 "h1:80" w_id = None.
Proof.
  destruct w_Run as [w3 Hrun]. exists (MkRunStats 1 0 4 []), w3. split; [exact Hrun|].
  assert (cluster_chunk w_gc_cluster "h1:80" w_id = Some w_ci) as Hat.
  { unfold cluster_chunk, w_gc_cluster. cbn [dns]. rewrite lookup_singleton_eq. cbn [mbind option_bind].
    apply (list_chunks_law w_stored w_ci). rewrite w_list_chunks. by left. }
  pose proof (gc_leaves_no_garbage (HL := w_gc_laws) id w_clock [] 0 70000000000 w_gc_cluster
    w_plan w_gc_planned _ w3 (λ l, Permutation_refl l) w_gc_sound w_ComputePlan Hrun eq_refl
    "h1:80" w_id w_ci Hat) as Hgone.
  cbn [chunk_at cluster_service] in Hgone. rewrite Hgone, decide_True; [reflexivity|].
  unfold buildClaimedSet. cbn [foldl]. rewrite lookup_empty. cbn [default from_option].
  split_and!; [by left|apply not_elem_of_empty|done].
Defined.
