(* ===== verification/Election.v ===== *)
(** * Leader election: internal/election/election.go

    The handlers and the steps of the Run goroutine are functions on [Elector].
    The cluster is a step relation: every lock-protected section is one step, the
    Run goroutine of a node has a control point [pc], and [sent] holds every
    message ever sent.  A message may be delivered late, repeatedly or never; peer
    URLs lead to the peer they name.  [ballots] records, for the proofs only, each
    vote a node gives (voter, term, candidate). *)
From S2P Require Import Prelude GoLib.

Inductive State : Type := Follower | Candidate | Leader.
#[export] Instance State_eq_dec : EqDecision State.
Proof. solve_decision. Defined.

Record Peer : Type := MkPeer { PID : string; URL : string }.
Record Config : Type := MkConfig
  { SelfID : string; Peers : list Peer; HeartbeatInterval : Z;
    ElectionTimeoutMin : Z; ElectionTimeoutMax : Z; ReplicateTimeout : Z }.

(** [hbCh] is whether the wake-up channel of capacity one holds a token. *)
Record Elector : Type := MkElector
  { cfg : Config; state : State; currentTerm : Z; votedFor : string; leader : string;
    lastHB : Z; hbCh : bool }.

Definition New (c : Config) (now : Z) : Elector :=
  let hb := if (HeartbeatInterval c <=? 0)%Z then 500000000%Z else HeartbeatInterval c in
  let tmin := if (ElectionTimeoutMin c <=? 0)%Z then 1500000000%Z else ElectionTimeoutMin c in
  let tmax := if (ElectionTimeoutMax c <=? tmin)%Z then 3000000000%Z else ElectionTimeoutMax c in
  let rt := if (ReplicateTimeout c <=? 0)%Z then 2000000000%Z else ReplicateTimeout c in
  MkElector (MkConfig (SelfID c) (Peers c) hb tmin tmax rt) Follower 0 "" "" now false.

Definition LeaderURL (e : Elector) : string :=
  if bool_decide (leader e = "") then ""
  else match filter (λ p, PID p = leader e) (Peers (cfg e)) with
       | p :: _ => URL p
       | [] => ""
       end.
Definition IsLeader (e : Elector) : bool := bool_decide (state e = Leader).

Definition set_state (e : Elector) (s : State) : Elector :=
  MkElector (cfg e) s (currentTerm e) (votedFor e) (leader e) (lastHB e) (hbCh e).
Definition set_term (e : Elector) (t : Z) : Elector :=
  MkElector (cfg e) (state e) t "" (leader e) (lastHB e) (hbCh e).
Definition set_leader (e : Elector) (l : string) : Elector :=
  MkElector (cfg e) (state e) (currentTerm e) (votedFor e) l (lastHB e) (hbCh e).
Definition set_vote (e : Elector) (c : string) : Elector :=
  MkElector (cfg e) (state e) (currentTerm e) c (leader e) (lastHB e) (hbCh e).
Definition set_hb (e : Elector) (now : Z) : Elector :=
  MkElector (cfg e) (state e) (currentTerm e) (votedFor e) (leader e) now (hbCh e).
Definition signalHeartbeat (e : Elector) : Elector :=
  MkElector (cfg e) (state e) (currentTerm e) (votedFor e) (leader e) (lastHB e) true.

(** ** HTTP handlers *)
Inductive reply : Type := BadRequest | Vote (VoteGranted : bool) (Term : Z).

Definition parseTerm (s : string) : option Z :=
  if bool_decide (s = "") then None
  else match ParseUint s with (t, true) => Some t | (_, false) => None end.
(** The callers drop the error, and keep the value that comes with it. *)
Definition parseSeq (s : string) : Z :=
  if bool_decide (s = "") then 0%Z else (ParseUint s).1.

(** [voterSeq] is what LastLogSeqFn returns, [None] where it is not set. *)
Definition HandleVote (term candidate last_log_seq : string) (voterSeq : option Z) (now : Z) (e : Elector)
    : reply * Elector :=
  match parseTerm term with
  | None => (BadRequest, e)
  | Some term =>
      if bool_decide (candidate = "") then (BadRequest, e)
      else
        let candidateLogSeq := parseSeq last_log_seq in
        if (term <? currentTerm e)%Z then (Vote false (currentTerm e), e)
        else
          let e := if (currentTerm e <? term)%Z
                   then set_leader (set_state (set_term e term) Follower) "" else e in
          if match voterSeq with Some v => (candidateLogSeq <? v)%Z | None => false end
          then (Vote false (currentTerm e), e)
          else if bool_decide (votedFor e = "") || bool_decide (votedFor e = candidate)
          then (Vote true (currentTerm e), signalHeartbeat (set_hb (set_vote e candidate) now))
          else (Vote false (currentTerm e), e)
  end.

Definition HandleHeartbeat (term leader : string) (now : Z) (e : Elector) : reply * Elector :=
  match parseTerm term with
  | None => (BadRequest, e)
  | Some term =>
      if (term <? currentTerm e)%Z then (Vote false (currentTerm e), e)
      else
        let e := if (currentTerm e <? term)%Z then set_term e term else e in
        (Vote true (currentTerm e),
         signalHeartbeat (set_hb (set_leader (set_state e Follower) leader) now))
  end.

(** [fn] is the registered AppendEntryFn's answer, [None] where there is none; the
    middle component is whether it was called. *)
Definition HandleAppendWAL (term : string) (fn : option bool) (now : Z) (e : Elector) : Z * bool * Elector :=
  match parseTerm term with
  | None => (400%Z, false, e)
  | Some term =>
      if (term <? currentTerm e)%Z then (409%Z, false, e)
      else
        let e := if (currentTerm e <? term)%Z
                 then set_hb (set_state (set_term e term) Follower) now else e in
        match fn with
        | None => (503%Z, false, e)
        | Some false => (500%Z, true, e)
        | Some true => (200%Z, true, e)
        end
  end.

(** ** The Run goroutine *)
Definition follower_timeout (e : Elector) : Elector :=
  if bool_decide (state e = Follower) then set_state e Candidate else e.

Definition start_campaign (e : Elector) : Z * Elector :=
  let term := u64 (currentTerm e + 1) in
  (term, set_leader (set_vote (set_term e term) (SelfID (cfg e))) "").

(** A reply from a higher term makes the node step down. *)
Definition step_down (peerTerm : Z) (e : Elector) : Elector :=
  if (currentTerm e <? peerTerm)%Z then set_leader (set_state (set_term e peerTerm) Follower) "" else e.

(** One goroutine of [runCandidate] with its peer's answer; a bad status is an error. *)
Definition vote_reply (term : Z) (r : reply) (votes : nat) (e : Elector) : nat * Elector :=
  match r with
  | BadRequest => (votes, e)
  | Vote ok peerTerm =>
      if (term <? peerTerm)%Z then (votes, step_down peerTerm e)
      else (if ok then S votes else votes, e)
  end.

Definition quorum (e : Elector) : nat := length (Peers (cfg e)) / 2 + 1.

Definition finish_campaign (term : Z) (votes : nat) (now : Z) (e : Elector) : Elector :=
  if bool_decide (state e ≠ Candidate) || bool_decide (currentTerm e ≠ term) then e
  else if quorum e <=? votes then set_leader (set_state e Leader) (SelfID (cfg e))
  else set_hb (set_state e Follower) now.

(** One goroutine of [broadcastHeartbeat]. *)
Definition heartbeat_reply (term : Z) (r : reply) (e : Elector) : Elector :=
  match r with
  | BadRequest => e
  | Vote _ peerTerm => if (term <? peerTerm)%Z then step_down peerTerm e else e
  end.

(** [ReplicateEntry] after its peers answered: [acks] counts the node itself. *)
Definition ReplicateEntry_result (acks : nat) (e : Elector) : bool := quorum e <=? acks.

(** ** Facts about the handlers *)
Definition term_ok (t : Z) : Prop := (0 ≤ t ≤ max_u64)%Z.

Lemma parseTerm_itoa t : term_ok t → parseTerm (itoa t) = Some t.
Proof.
  intros Ht. unfold parseTerm. pose proof (ParseUint_itoa t Ht) as Hp. rewrite Hp.
  rewrite bool_decide_eq_false_2; [done|]. intros E. unfold ParseUint in Hp.
  rewrite E in Hp. rewrite bool_decide_eq_true_2 in Hp; done.
Qed.

Lemma parseSeq_itoa t : term_ok t → parseSeq (itoa t) = t.
Proof.
  intros Ht. pose proof (parseTerm_itoa t Ht) as Hp. unfold parseTerm, parseSeq in *.
  case_bool_decide; [done|]. destruct (ParseUint (itoa t)) as [v []]; [|done]. by injection Hp.
Qed.

Lemma uint_loop_range l n : term_ok n → term_ok (uint_loop l n).1.
Proof.
  revert n. induction l as [|c l IH]; intros n Hn; [done|]. simpl.
  destruct (negb (is_digit c)) eqn:Hc; [done|].
  destruct (Z.ltb_spec max_u64 (n * 10 + (Z.of_N (Ascii.N_of_ascii c) - 48))); [done|].
  apply IH. apply negb_false_iff, andb_true_iff in Hc as [Hc%N.leb_le _].
  split; [|done]. unfold term_ok in Hn. lia.
Qed.

Lemma parseTerm_range s t : parseTerm s = Some t → term_ok t.
Proof.
  unfold parseTerm, ParseUint. case_bool_decide; [done|].
  pose proof (uint_loop_range (chars s) 0) as Hr. destruct (uint_loop (chars s) 0) as [v []]; [|done].
  intros [= <-]. by apply Hr.
Qed.

(** How a step may change a node: terms never go back, a vote once given in a term
    stays, and no one becomes leader. *)
Definition evolves (e e' : Elector) : Prop :=
  cfg e' = cfg e ∧ (currentTerm e ≤ currentTerm e')%Z ∧ (term_ok (currentTerm e) → term_ok (currentTerm e')) ∧
  (currentTerm e' = currentTerm e → votedFor e ≠ "" → votedFor e' = votedFor e) ∧
  (state e' = Leader → state e = Leader ∧ currentTerm e' = currentTerm e).

#[export] Instance evolves_preorder : PreOrder evolves.
Proof.
  split; [by intros e; split_and!|]. intros e1 e2 e3 (C1 & T1 & O1 & V1 & L1) (C2 & T2 & O2 & V2 & L2).
  split_and!; [congruence|lia|auto| |].
  - intros Et Hv. assert (currentTerm e2 = currentTerm e1) as E1 by lia.
    rewrite V2; [by apply V1|lia|]. by rewrite V1.
  - intros [H E]%L2. destruct (L1 H). split; [done|lia].
Qed.

Lemma step_down_evolves t e : term_ok t → evolves e (step_down t e).
Proof.
  intros Ht. unfold step_down. destruct (Z.ltb_spec (currentTerm e) t); [|done].
  split_and!; simpl; [done|lia|done|lia|done].
Qed.

Lemma HandleVote_evolves term c seq v now e : evolves e (HandleVote term c seq v now e).2.
Proof.
  unfold HandleVote. destruct (parseTerm term) as [t|] eqn:Ht; [|done].
  apply parseTerm_range in Ht. case_bool_decide; [done|].
  destruct (Z.ltb_spec t (currentTerm e)); [done|].
  set (e1 := if (currentTerm e <? t)%Z then _ else e).
  assert (evolves e e1) as H1 by (apply (step_down_evolves t e Ht)).
  destruct (match v with Some v => _ | None => false end); [done|].
  destruct (bool_decide (votedFor e1 = "") || bool_decide (votedFor e1 = c)) eqn:Hv; [|done].
  etrans; [exact H1|]. split_and!; simpl; try done. intros _ Hne.
  apply orb_true_iff in Hv as [?%bool_decide_eq_true|?%bool_decide_eq_true]; done.
Qed.

Lemma HandleHeartbeat_evolves term l now e : evolves e (HandleHeartbeat term l now e).2.
Proof.
  unfold HandleHeartbeat. destruct (parseTerm term) as [t|] eqn:Ht; [|done].
  apply parseTerm_range in Ht. destruct (Z.ltb_spec t (currentTerm e)); [done|].
  destruct (Z.ltb_spec (currentTerm e) t); split_and!; simpl; try done; lia.
Qed.

Lemma HandleAppendWAL_evolves term fn now e : evolves e (HandleAppendWAL term fn now e).2.
Proof.
  unfold HandleAppendWAL. destruct (parseTerm term) as [t|] eqn:Ht; [|done].
  apply parseTerm_range in Ht. destruct (Z.ltb_spec t (currentTerm e)); [done|].
  assert (evolves e (if (currentTerm e <? t)%Z then set_hb (set_state (set_term e t) Follower) now else e)).
  { destruct (Z.ltb_spec (currentTerm e) t); [|done]. split_and!; simpl; try done; lia. }
  by destruct fn as [[]|].
Qed.

Lemma HandleVote_spec term c seq v now e rt :
  (HandleVote term c seq v now e).1 = Vote true rt ↔
  parseTerm term = Some rt ∧ c ≠ "" ∧ (currentTerm e ≤ rt)%Z ∧
  (∀ own, v = Some own → (own ≤ parseSeq seq)%Z) ∧
  (rt = currentTerm e → votedFor e = "" ∨ votedFor e = c).
Proof.
  unfold HandleVote. destruct (parseTerm term) as [t|]; [|split; [done|by intros [? _]]].
  case_bool_decide as Hc; [split; [done|by intros (_ & ? & _)]|].
  destruct (Z.ltb_spec t (currentTerm e)) as [Ht|Ht].
  { split; [done|]. intros ([= ->] & _ & ? & _). lia. }
  set (e1 := if (currentTerm e <? t)%Z then _ else e).
  assert (currentTerm e1 = t ∧ votedFor e1 = if (currentTerm e <? t)%Z then ""%string else votedFor e) as [He1 Hv1].
  { subst e1. destruct (Z.ltb_spec (currentTerm e) t); simpl; [done|]. split; [lia|done]. }
  rewrite He1, Hv1. destruct v as [own|].
  - destruct (Z.ltb_spec (parseSeq seq) own) as [Hs|Hs].
    { split; [done|]. intros (_ & _ & _ & H & _). specialize (H own eq_refl). lia. }
    destruct (Z.ltb_spec (currentTerm e) t) as [Hlt|Hge]; simpl.
    + split; [intros [= <-]|by intros ([= <-] & _)]. split_and!; try done; [|lia]. by intros ? [= <-].
    + destruct (bool_decide (votedFor e = "") || bool_decide (votedFor e = c)) eqn:Hv; simpl.
      * apply orb_true_iff in Hv. rewrite !bool_decide_eq_true in Hv.
        split; [intros [= <-]|by intros ([= <-] & _)]. split_and!; try done. by intros ? [= <-].
      * apply orb_false_iff in Hv. rewrite !bool_decide_eq_false in Hv.
        split; [done|]. intros ([= <-] & _ & _ & _ & H). exfalso. destruct H; [lia|tauto..].
  - destruct (Z.ltb_spec (currentTerm e) t) as [Hlt|Hge]; simpl.
    + split; [intros [= <-]|by intros ([= <-] & _)]. split_and!; try done. lia.
    + destruct (bool_decide (votedFor e = "") || bool_decide (votedFor e = c)) eqn:Hv; simpl.
      * apply orb_true_iff in Hv. rewrite !bool_decide_eq_true in Hv.
        split; [intros [= <-]|by intros ([= <-] & _)]. by split_and!.
      * apply orb_false_iff in Hv. rewrite !bool_decide_eq_false in Hv.
        split; [done|]. intros ([= <-] & _ & _ & _ & H). exfalso. destruct H; [lia|tauto..].
Qed.

(** What a granted vote leaves behind. *)
Lemma HandleVote_granted term c seq v now e rt e' :
  HandleVote term c seq v now e = (Vote true rt, e') →
  parseTerm term = Some rt ∧ c ≠ "" ∧ currentTerm e' = rt ∧ votedFor e' = c ∧ (currentTerm e ≤ rt)%Z ∧
  (rt = currentTerm e → votedFor e = "" ∨ votedFor e = c).
Proof.
  unfold HandleVote. destruct (parseTerm term) as [t|]; [|done].
  case_bool_decide as Hc; [done|]. destruct (Z.ltb_spec t (currentTerm e)) as [Ht|Ht]; [done|].
  set (e1 := if (currentTerm e <? t)%Z then _ else e).
  destruct (match v with Some v => _ | None => false end); [done|].
  destruct (bool_decide (votedFor e1 = "") || bool_decide (votedFor e1 = c)) eqn:Hv; [|done].
  intros [= <- <-]. simpl. apply orb_true_iff in Hv. rewrite !bool_decide_eq_true in Hv.
  subst e1. destruct (Z.ltb_spec (currentTerm e) t); simpl in *; split_and!; try done; try lia.
  f_equal. lia.
Qed.

(** A vote is granted exactly to a named candidate whose term is not behind, whose
    log is at least as long as the voter's, and whom the voter may still vote for
    in that term; the granting node is then in that term with that vote. *)
Theorem HandleVote_grants_iff term c seq v now e rt :
  ((HandleVote term c seq v now e).1 = Vote true rt ↔
   parseTerm term = Some rt ∧ c ≠ "" ∧ (currentTerm e ≤ rt)%Z ∧
   (∀ own, v = Some own → (own ≤ parseSeq seq)%Z) ∧
   (rt = currentTerm e → votedFor e = "" ∨ votedFor e = c)) ∧
  ((HandleVote term c seq v now e).1 = Vote true rt →
   currentTerm (HandleVote term c seq v now e).2 = rt ∧ votedFor (HandleVote term c seq v now e).2 = c).
Proof.
  split; [apply HandleVote_spec|]. intros Hg.
  destruct (HandleVote term c seq v now e) as [r e'] eqn:Hv. simpl in *. subst r.
  by apply HandleVote_granted in Hv as (_ & _ & ? & ? & _).
Qed.

(** ** The cluster *)
Inductive message : Type :=
  | MVote (from : string) (term seq : Z)
  | MVoted (voter cand : string) (term : Z) (r : reply)
  | MBeat (from : string) (term : Z)
  | MBeatReply (from to : string) (term : Z) (r : reply)
  | MAppend (from : string) (term : Z).

(** Control points of [Run]: about to read the state; waiting in runFollower; about
    to start runCandidate; collecting votes ([answered] are the peers whose
    goroutines are done); in runLeader's loop; past its state check, before
    broadcastHeartbeat reads the term. *)
Inductive pc : Type :=
  | AtDispatch | InFollower | InCandidate
  | Campaigning (term : Z) (answered : gset string) (votes : nat)
  | InLeader | InBroadcast.

(** [replicating] counts the calls of ReplicateEntry that have checked the state and
    not yet read the term. *)
Record node : Type := MkNode { el : Elector; at_pc : pc; replicating : nat }.
Record world : Type := MkWorld
  { nodes : gmap string node; sent : list message; ballots : list (string * Z * string) }.

Definition upd (w : world) (i : string) (n : node) (ms : list message) (bs : list (string * Z * string)) : world :=
  MkWorld (<[i := n]> (nodes w)) (ms ++ sent w) (bs ++ ballots w).
Definition with_el (n : node) (e : Elector) : node := MkNode e (at_pc n) (replicating n).
Definition goto (n : node) (e : Elector) (p : pc) : node := MkNode e p (replicating n).

Definition dispatch (s : State) : pc :=
  match s with Follower => InFollower | Candidate => InCandidate | Leader => InBroadcast end.

Inductive step (w : world) : world → Prop :=
  | S_dispatch i n : nodes w !! i = Some n → at_pc n = AtDispatch →
      step w (upd w i (goto n (el n) (dispatch (state (el n)))) [] [])
  | S_wake i n : nodes w !! i = Some n → at_pc n = InFollower → hbCh (el n) = true →
      step w (upd w i (with_el n (MkElector (cfg (el n)) (state (el n)) (currentTerm (el n)) (votedFor (el n))
                                   (leader (el n)) (lastHB (el n)) false)) [] [])
  | S_timeout i n : nodes w !! i = Some n → at_pc n = InFollower →
      step w (upd w i (goto n (follower_timeout (el n)) AtDispatch) [] [])
  | S_campaign i n : nodes w !! i = Some n → at_pc n = InCandidate →
      step w (upd w i (goto n (start_campaign (el n)).2 (Campaigning (start_campaign (el n)).1 ∅ 1)) []
                [(i, (start_campaign (el n)).1, i)])
  | S_request i n term answered votes seq : nodes w !! i = Some n →
      at_pc n = Campaigning term answered votes → term_ok seq →
      step w (upd w i n [MVote i term seq] [])
  | S_vote j n c term seq v now : nodes w !! j = Some n → MVote c term seq ∈ sent w → j ≠ c →
      step w (upd w j (with_el n (HandleVote (itoa term) c (itoa seq) v now (el n)).2)
                [MVoted j c term (HandleVote (itoa term) c (itoa seq) v now (el n)).1]
                (match (HandleVote (itoa term) c (itoa seq) v now (el n)).1 with
                 | Vote true _ => [(j, term, c)]
                 | _ => []
                 end))
  | S_voted i n term answered votes j r : nodes w !! i = Some n →
      at_pc n = Campaigning term answered votes → MVoted j i term r ∈ sent w → j ≠ i → j ∉ answered →
      j ∈ PID <$> Peers (cfg (el n)) →
      step w (upd w i (goto n (vote_reply term r votes (el n)).2
                        (Campaigning term ({[j]} ∪ answered) (vote_reply term r votes (el n)).1)) [] [])
  | S_finish i n term answered votes now : nodes w !! i = Some n →
      at_pc n = Campaigning term answered votes →
      step w (upd w i (goto n (finish_campaign term votes now (el n)) AtDispatch) [] [])
  | S_tick i n : nodes w !! i = Some n → at_pc n = InLeader →
      step w (upd w i (goto n (el n) (if IsLeader (el n) then InBroadcast else AtDispatch)) [] [])
  | S_broadcast i n : nodes w !! i = Some n → at_pc n = InBroadcast →
      step w (upd w i (goto n (el n) InLeader) [MBeat i (currentTerm (el n))] [])
  | S_beat j n l term now : nodes w !! j = Some n → MBeat l term ∈ sent w → j ≠ l →
      step w (upd w j (with_el n (HandleHeartbeat (itoa term) l now (el n)).2)
                [MBeatReply j l term (HandleHeartbeat (itoa term) l now (el n)).1] [])
  | S_beat_reply i n j term r : nodes w !! i = Some n → MBeatReply j i term r ∈ sent w →
      step w (upd w i (with_el n (heartbeat_reply term r (el n))) [] [])
  | S_replicate i n : nodes w !! i = Some n → IsLeader (el n) = true →
      step w (upd w i (MkNode (el n) (at_pc n) (S (replicating n))) [] [])
  | S_push i n k : nodes w !! i = Some n → replicating n = S k →
      step w (upd w i (MkNode (el n) (at_pc n) k) [MAppend i (currentTerm (el n))] [])
  | S_append j n l term fn now : nodes w !! j = Some n → MAppend l term ∈ sent w → j ≠ l →
      step w (upd w j (with_el n (HandleAppendWAL (itoa term) fn now (el n)).2) [] []).

Lemma size_list_to_set_le (l : list string) : size (list_to_set l : gset string) ≤ length l.
Proof.
  induction l as [|x l IH]; [done|]. rewrite list_to_set_cons. simpl.
  rewrite size_union_alt, size_singleton.
  assert (size ((list_to_set l : gset string) ∖ {[x]}) ≤ size (list_to_set l : gset string)) by (apply subseteq_size; set_solver).
  lia.
Qed.

(** ** Safety *)
Section safety.
Context (peers : list Peer).
Let members : gset string := list_to_set (PID <$> peers).
Let majority : nat := length peers / 2 + 1.

(** A majority gave [i] their vote of term [t]. *)
Definition elected (bs : list (string * Z * string)) (i : string) (t : Z) : Prop :=
  ∃ vs : gset string, vs ⊆ members ∧ majority ≤ size vs ∧ ∀ v, v ∈ vs → (v, t, i) ∈ bs.

Definition campaign_ok (bs : list (string * Z * string)) (i : string) (p : pc) : Prop :=
  match p with
  | Campaigning t ans votes =>
      term_ok t ∧ ans ⊆ members ∧ i ∉ ans ∧
      ∃ vs : gset string, vs ⊆ {[i]} ∪ ans ∧ size vs = votes ∧ ∀ v, v ∈ vs → (v, t, i) ∈ bs
  | _ => True
  end.
Definition not_leading (p : pc) (s : State) : Prop :=
  match p with InCandidate | Campaigning _ _ _ => s ≠ Leader | _ => True end.

Definition reply_ok (r : reply) : Prop := match r with BadRequest => True | Vote _ t => term_ok t end.
Definition message_ok (bs : list (string * Z * string)) (m : message) : Prop :=
  match m with
  | MVote _ t s => term_ok t ∧ term_ok s
  | MVoted j c t r => reply_ok r ∧ match r with Vote true _ => (j, t, c) ∈ bs | _ => True end
  | MBeat _ t | MAppend _ t => term_ok t
  | MBeatReply _ _ _ r => reply_ok r
  end.

Record node_ok (w : world) (i : string) (n : node) : Prop := MkNodeOk
  { no_self : SelfID (cfg (el n)) = i; no_peers : Peers (cfg (el n)) = peers; no_member : i ∈ members;
    no_term : term_ok (currentTerm (el n));
    no_camp : campaign_ok (ballots w) i (at_pc n);
    no_pc : not_leading (at_pc n) (state (el n));
    no_lead : state (el n) = Leader → elected (ballots w) i (currentTerm (el n)) }.

Record inv (w : world) : Prop := MkInv
  { inv_nodes i n : nodes w !! i = Some n → node_ok w i n;
    inv_sent m : m ∈ sent w → message_ok (ballots w) m;
    inv_ballot v t c : (v, t, c) ∈ ballots w → c ≠ "" ∧
      ∃ n, nodes w !! v = Some n ∧ (t ≤ currentTerm (el n))%Z ∧
           (t = currentTerm (el n) → votedFor (el n) = c);
    inv_unique v t c c' : (v, t, c) ∈ ballots w → (v, t, c') ∈ ballots w → c = c' }.

Lemma elected_mono bs bs' i t : elected bs i t → elected (bs' ++ bs) i t.
Proof. intros (vs & H1 & H2 & H3). exists vs. split_and!; [done|done|]. intros v Hv. apply elem_of_app. auto. Qed.
Lemma campaign_mono bs bs' i p : campaign_ok bs i p → campaign_ok (bs' ++ bs) i p.
Proof.
  destruct p; try done. intros (H0 & H1 & H2 & vs & H3 & H4 & H5). split_and!; [done|done|done|].
  exists vs. split_and!; [done|done|]. intros v Hv. apply elem_of_app. auto.
Qed.
Lemma message_mono bs bs' m : message_ok bs m → message_ok (bs' ++ bs) m.
Proof. destruct m as [| ? ? ? [|[]] | | |]; try done. intros [? ?]. split; [done|]. apply elem_of_app. auto. Qed.

(** One node moves, sends [ms] and casts [bs]. *)
Lemma inv_upd w i n n' ms bs :
  inv w → nodes w !! i = Some n →
  cfg (el n') = cfg (el n) → (currentTerm (el n) ≤ currentTerm (el n'))%Z → term_ok (currentTerm (el n')) →
  (currentTerm (el n') = currentTerm (el n) → votedFor (el n) ≠ "" → votedFor (el n') = votedFor (el n)) →
  campaign_ok (bs ++ ballots w) i (at_pc n') → not_leading (at_pc n') (state (el n')) →
  (state (el n') = Leader → elected (bs ++ ballots w) i (currentTerm (el n'))) →
  (∀ m, m ∈ ms → message_ok (bs ++ ballots w) m) →
  (∀ v t c, (v, t, c) ∈ bs → v = i ∧ c ≠ "" ∧ t = currentTerm (el n') ∧ votedFor (el n') = c ∧
     (t = currentTerm (el n) → votedFor (el n) = "" ∨ votedFor (el n) = c)) →
  inv (upd w i n' ms bs).
Proof.
  intros [Hn Hs Hb Hu] Hi Hcfg Hle Hok Hv Hcamp Hpc Hlead Hms Hbs. destruct (Hn i n Hi) as [E1 E2 E3 _ _ _ _].
  assert (∀ v t c c', (v, t, c) ∈ bs → (v, t, c') ∈ ballots w → c = c') as Hnew.
  { intros v t c c' (-> & _ & -> & Hvote & Hfree)%Hbs Hold.
    destruct (Hb _ _ _ Hold) as (Hc' & n0 & Hn0 & Hle0 & Hsame). rewrite Hi in Hn0. injection Hn0 as <-.
    assert (currentTerm (el n') = currentTerm (el n)) as Et by lia. specialize (Hsame Et).
    destruct (Hfree Et); congruence. }
  split; simpl.
  - intros j m. destruct (decide (j = i)) as [->|Hne].
    + rewrite lookup_insert_eq. intros [= <-]. split; simpl; congruence || auto.
    + rewrite lookup_insert_ne by done. intros Hj. destruct (Hn j m Hj).
      split; simpl; auto using campaign_mono, elected_mono.
  - intros m [Hm|Hm]%elem_of_app; [by apply Hms|]. by apply message_mono, Hs.
  - intros v t c [Hin|Hin]%elem_of_app.
    + apply Hbs in Hin as (-> & Hc & -> & Hvote & _). split; [done|]. exists n'.
      rewrite lookup_insert_eq. split_and!; auto; lia.
    + destruct (Hb v t c Hin) as (Hc & m & Hm & Hle0 & Hsame). split; [done|].
      destruct (decide (v = i)) as [->|Hne]; [|exists m; by rewrite lookup_insert_ne].
      rewrite Hi in Hm. injection Hm as <-. exists n'. rewrite lookup_insert_eq.
      split_and!; [done|lia|]. intros ->. assert (currentTerm (el n') = currentTerm (el n)) as Et by lia.
      specialize (Hsame Et). rewrite Hv; congruence.
  - intros v t c c' [H1|H1]%elem_of_app [H2|H2]%elem_of_app; eauto.
    + apply Hbs in H1 as (_ & _ & _ & <- & _), H2 as (_ & _ & _ & <- & _). done.
    + symmetry. eauto.
Qed.

(** The common case: the elector evolves and casts no vote. *)
Lemma inv_evolve w i n e p k ms :
  inv w → nodes w !! i = Some n → evolves (el n) e →
  campaign_ok (ballots w) i p → not_leading p (state e) →
  (∀ m, m ∈ ms → message_ok (ballots w) m) →
  inv (upd w i (MkNode e p k) ms []).
Proof.
  intros Hw Hi (H1 & H2 & H3 & H4 & H5) Hc Hp Hms. destruct (inv_nodes w Hw i n Hi).
  apply (inv_upd w i n); simpl; auto.
  - intros [Hl Et]%H5. rewrite Et. auto.
  - intros v t c []%elem_of_nil.
Qed.

Lemma not_leading_evolves p e e' : evolves e e' → not_leading p (state e) → not_leading p (state e').
Proof. intros (_ & _ & _ & _ & H) Hp. destruct p; simpl in *; try done; by intros [? _]%H. Qed.

Lemma handle_reply_ok r : (∃ term c seq v now e, term_ok (currentTerm e) ∧ r = (HandleVote term c seq v now e).1) ∨
  (∃ term l now e, term_ok (currentTerm e) ∧ r = (HandleHeartbeat term l now e).1) → reply_ok r.
Proof.
  intros [(term & c & seq & v & now & e & He & ->)|(term & l & now & e & He & ->)].
  - unfold HandleVote. destruct (parseTerm term) as [t|] eqn:Ht; [|done]. apply parseTerm_range in Ht.
    case_bool_decide; [done|]. destruct (t <? currentTerm e)%Z; [done|].
    destruct (match v with Some _ => _ | None => false end), (currentTerm e <? t)%Z;
      [done..| |]; destruct (_ || _); done.
  - unfold HandleHeartbeat. destruct (parseTerm term) as [t|] eqn:Ht; [|done]. apply parseTerm_range in Ht.
    destruct (t <? currentTerm e)%Z; [done|]. by destruct (currentTerm e <? t)%Z.
Qed.

(** Terms are 64-bit counters: no node is about to wrap around. *)
Definition no_wrap (w : world) : Prop :=
  ∀ i n, nodes w !! i = Some n → (currentTerm (el n) < max_u64)%Z.

Lemma inv_campaign w i n :
  "" ∉ members → inv w → no_wrap w → nodes w !! i = Some n → at_pc n = InCandidate →
  inv (upd w i (goto n (start_campaign (el n)).2 (Campaigning (start_campaign (el n)).1 ∅ 1)) []
         [(i, (start_campaign (el n)).1, i)]).
Proof.
  intros Hne Hw Hwrap Hi Hpc. destruct (inv_nodes w Hw i n Hi) as [Hself Hpeers Hmem Hterm _ Hnl _].
  rewrite Hpc in Hnl. simpl in Hnl. specialize (Hwrap i n Hi). unfold term_ok, max_u64 in *.
  assert (u64 (currentTerm (el n) + 1) = (currentTerm (el n) + 1)%Z) as Hu by (apply u64_small; lia).
  unfold start_campaign. cbn [fst snd]. rewrite Hu. apply (inv_upd w i n); simpl; try done.
  - lia.
  - unfold term_ok, max_u64. lia.
  - lia.
  - split_and!; [unfold term_ok, max_u64; lia|set_solver|set_solver|]. exists {[i]}. split_and!; [set_solver|by rewrite size_singleton|].
    intros v ->%elem_of_singleton. by left.
  - intros m []%elem_of_nil.
  - intros v t c [= -> -> ->]%list_elem_of_singleton. split_and!; [done| |done|done|lia].
    intros ->. done.
Qed.

Lemma inv_vote w j n c term seq v now :
  inv w → nodes w !! j = Some n → MVote c term seq ∈ sent w →
  inv (upd w j (with_el n (HandleVote (itoa term) c (itoa seq) v now (el n)).2)
         [MVoted j c term (HandleVote (itoa term) c (itoa seq) v now (el n)).1]
         (match (HandleVote (itoa term) c (itoa seq) v now (el n)).1 with
          | Vote true _ => [(j, term, c)] | _ => [] end)).
Proof.
  intros Hw Hj Hm. destruct (inv_nodes w Hw j n Hj) as [Hself Hpeers Hmem Hterm Hcamp Hnl Hlead].
  destruct (inv_sent w Hw _ Hm) as [Ht _].
  pose proof (HandleVote_evolves (itoa term) c (itoa seq) v now (el n)) as Hev.
  assert (reply_ok (HandleVote (itoa term) c (itoa seq) v now (el n)).1) as Hr
    by (apply handle_reply_ok; left; eauto 10).
  destruct (HandleVote (itoa term) c (itoa seq) v now (el n)) as [r e] eqn:Hvote. cbn [fst snd] in *.
  destruct r as [|[] rt]; [apply (inv_evolve w _ n); try done; [by eapply not_leading_evolves|] | |
    apply (inv_evolve w _ n); try done; [by eapply not_leading_evolves|]];
    try (intros m ->%list_elem_of_singleton; by split).
  apply HandleVote_granted in Hvote as (Hp & Hc & Hcur & Hfor & Hle & Hfree).
  rewrite parseTerm_itoa in Hp by done. injection Hp as <-.
  destruct Hev as (E1 & E2 & E3 & E4 & E5). apply (inv_upd w j n); simpl; auto.
  - by apply (campaign_mono _ [_]).
  - eapply not_leading_evolves; [|done]. by split_and!.
  - intros [Hl Et]%E5. rewrite Et. by apply (elected_mono _ [_]), Hlead.
  - intros m ->%list_elem_of_singleton. split; [done|]. by left.
  - intros v0 t c0 [= -> -> ->]%list_elem_of_singleton. by split_and!.
Qed.

Lemma inv_voted w i n term answered votes j r :
  inv w → nodes w !! i = Some n → at_pc n = Campaigning term answered votes →
  MVoted j i term r ∈ sent w → j ≠ i → j ∉ answered → j ∈ PID <$> Peers (cfg (el n)) →
  inv (upd w i (goto n (vote_reply term r votes (el n)).2
                 (Campaigning term ({[j]} ∪ answered) (vote_reply term r votes (el n)).1)) [] []).
Proof.
  intros Hw Hi Hpc Hm Hji Hj Hpeer. destruct (inv_nodes w Hw i n Hi) as [_ Hpeers _ _ Hcamp Hnl _].
  rewrite Hpc in Hcamp, Hnl. destruct Hcamp as (Ht & Ha & Hia & vs & Hvs & Hsize & Hall).
  destruct (inv_sent w Hw _ Hm) as [Hr Hgranted].
  assert (evolves (el n) (vote_reply term r votes (el n)).2) as Hev.
  { destruct r as [|ok t]; simpl; [done|]. destruct (term <? t)%Z; [|done]. by apply step_down_evolves. }
  apply (inv_evolve w _ n); try done; [|by eapply (not_leading_evolves (Campaigning _ _ _))|by intros m []%elem_of_nil].
  assert (j ∈ members) as Hjm by (unfold members; rewrite elem_of_list_to_set, <- Hpeers; done).
  split_and!; [done|set_solver|set_solver|].
  assert ((vote_reply term r votes (el n)).1 = votes ∨
    ((vote_reply term r votes (el n)).1 = S votes ∧ (j, term, i) ∈ ballots w)) as [->|[-> Hb]].
  { destruct r as [|ok t]; simpl; [by left|]. destruct (term <? t)%Z; [by left|].
    destruct ok; [by right|by left]. }
  - exists vs. split_and!; [set_solver|done|done].
  - exists ({[j]} ∪ vs). split_and!; [set_solver| |set_solver].
    rewrite size_union, size_singleton by set_solver. lia.
Qed.

Lemma inv_finish w i n term answered votes now :
  inv w → nodes w !! i = Some n → at_pc n = Campaigning term answered votes →
  inv (upd w i (goto n (finish_campaign term votes now (el n)) AtDispatch) [] []).
Proof.
  intros Hw Hi Hpc. destruct (inv_nodes w Hw i n Hi) as [_ Hpeers Him Hterm Hcamp Hnl _].
  rewrite Hpc in Hcamp, Hnl. destruct Hcamp as (Ht & Ha & Hia & vs & Hvs & Hsize & Hall).
  unfold finish_campaign. destruct (bool_decide (state (el n) ≠ Candidate) || _) eqn:Hd.
  { apply (inv_evolve w _ n); try done. by intros m []%elem_of_nil. }
  apply orb_false_iff in Hd as [_ Hd%bool_decide_eq_false]. apply dec_stable in Hd.
  destruct (Nat.leb_spec (quorum (el n)) votes) as [Hq|Hq].
  - apply (inv_upd w i n); simpl; try done; [|by intros m []%elem_of_nil|by intros v t c []%elem_of_nil].
    intros _. exists vs. rewrite Hd. unfold quorum in Hq. rewrite Hpeers in Hq.
    split_and!; [set_solver|unfold majority; lia|done].
  - apply (inv_evolve w _ n); try done. by intros m []%elem_of_nil.
Qed.

Lemma step_inv w w' : "" ∉ members → no_wrap w → step w w' → inv w → inv w'.
Proof.
  intros Hne Hwrap Hstep Hw.
  assert (∀ m : message, m ∈ [] → message_ok (ballots w) m) as Hnil by (by intros m []%elem_of_nil).
  destruct Hstep as [i n Hi Hpc|i n Hi Hpc _|i n Hi Hpc|i n Hi Hpc|i n t a v s Hi Hpc Hs|j n c t s v now Hi Hm _
    |i n t a v j r Hi Hpc Hm Hji Hj Hp|i n t a v now Hi Hpc|i n Hi Hpc|i n Hi Hpc|j n l t now Hi Hm _
    |i n j t r Hi Hm|i n Hi _|i n k Hi _|j n l t fn now Hi Hm _];
    destruct (inv_nodes w Hw _ n Hi) as [_ _ _ Hterm Hcamp Hnl _].
  - apply (inv_evolve w _ n); try done; by destruct (state (el n)).
  - rewrite Hpc in Hnl, Hcamp. apply (inv_evolve w _ n); rewrite ?Hpc; done.
  - apply (inv_evolve w _ n); try done. unfold follower_timeout. case_bool_decide; [|done]. by split_and!.
  - by apply inv_campaign.
  - destruct n as [e p k]. apply (inv_evolve w _ (MkNode e p k)); try done.
    intros m ->%list_elem_of_singleton. simpl in *. subst p. split; [|done]. apply Hcamp.
  - by apply inv_vote.
  - by eapply inv_voted.
  - by eapply inv_finish.
  - apply (inv_evolve w _ n); try done; by destruct (IsLeader (el n)).
  - apply (inv_evolve w _ n); try done. by intros m ->%list_elem_of_singleton.
  - pose proof (HandleHeartbeat_evolves (itoa t) l now (el n)) as Hev.
    apply (inv_evolve w _ n); try done; [by eapply not_leading_evolves|].
    intros m ->%list_elem_of_singleton. apply handle_reply_ok. right. eauto 10.
  - assert (evolves (el n) (heartbeat_reply t r (el n))) as Hev.
    { apply (inv_sent w Hw) in Hm. destruct r as [|ok rt]; [done|]. simpl.
      destruct (t <? rt)%Z; [|done]. by apply step_down_evolves. }
    apply (inv_evolve w _ n); try done. by eapply not_leading_evolves.
  - by apply (inv_evolve w _ n).
  - apply (inv_evolve w _ n); try done. by intros m ->%list_elem_of_singleton.
  - pose proof (HandleAppendWAL_evolves (itoa t) fn now (el n)) as Hev.
    apply (inv_evolve w _ n); try done. by eapply not_leading_evolves.
Qed.

(** A cluster that has just started, every node configured with the same peers. *)
Definition initial (w : world) : Prop :=
  sent w = [] ∧ ballots w = [] ∧
  ∀ i n, nodes w !! i = Some n → i ∈ members ∧
    ∃ c now, SelfID c = i ∧ Peers c = peers ∧ n = MkNode (New c now) AtDispatch 0.

Lemma initial_inv w : initial w → inv w.
Proof.
  intros (Hs & Hb & Hn). split.
  - intros i n Hi. destruct (Hn i n Hi) as (Hm & c & now & <- & Hp & ->). by split.
  - rewrite Hs. by intros m []%elem_of_nil.
  - rewrite Hb. by intros v t c []%elem_of_nil.
  - rewrite Hb. by intros v t c c' []%elem_of_nil.
Qed.

Definition next (w w' : world) : Prop := no_wrap w ∧ step w w'.

Lemma reachable_inv w0 w : "" ∉ members → initial w0 → rtc next w0 w → inv w.
Proof.
  intros Hne Hi%initial_inv. induction 1 as [w|w w1 w2 [Hwrap Hstep] _ IH]; [done|].
  apply IH. by eapply step_inv.
Qed.

Lemma elected_unique w t i j : inv w → elected (ballots w) i t → elected (ballots w) j t → i = j.
Proof.
  intros Hw (vs & Hv1 & Hv2 & Hv3) (us & Hu1 & Hu2 & Hu3).
  assert (size members ≤ length peers) as Hm.
  { unfold members. rewrite <- (length_fmap PID peers). apply size_list_to_set_le. }
  destruct (decide (vs ∩ us = ∅)) as [He|He].
  - assert (size (vs ∪ us) ≤ size members) as Hle by (apply subseteq_size; set_solver).
    rewrite size_union in Hle by set_solver. unfold majority in *.
    pose proof (Nat.div_mod_eq (length peers) 2). pose proof (Nat.mod_upper_bound (length peers) 2). lia.
  - apply set_choose_L in He as [v [Hv Hu]%elem_of_intersection].
    eapply (inv_unique w Hw v t); auto.
Qed.

(** C28: there is at most one leader per term, and no node votes for two candidates in
    one term, in every execution of a cluster that started together: whatever
    messages are lost, delayed or delivered twice and whenever timers fire, as
    long as no node restarts and no term reaches 2^64-1. *)
Theorem election_safety w0 w :
  "" ∉ members → initial w0 → rtc next w0 w →
  (∀ i j ni nj, nodes w !! i = Some ni → nodes w !! j = Some nj →
     IsLeader (el ni) = true → IsLeader (el nj) = true →
     currentTerm (el ni) = currentTerm (el nj) → i = j) ∧
  (∀ v t c c' rt rt', MVoted v c t (Vote true rt) ∈ sent w → MVoted v c' t (Vote true rt') ∈ sent w → c = c').
Proof.
  intros Hne Hi Hr. pose proof (reachable_inv w0 w Hne Hi Hr) as Hw. split.
  - intros i j ni nj Hni Hnj Hli%bool_decide_eq_true Hlj%bool_decide_eq_true Ht.
    apply (elected_unique w (currentTerm (el ni))); [done| |rewrite Ht].
    + by apply (inv_nodes w Hw i ni Hni).
    + by apply (inv_nodes w Hw j nj Hnj).
  - intros v t c c' rt rt' [_ H1]%(inv_sent w Hw) [_ H2]%(inv_sent w Hw). by eapply (inv_unique w Hw).
Qed.
End safety.

(** ** Witnesses and counterexamples: three nodes *)
Definition w_peers : list Peer := [MkPeer "a" "http://a"; MkPeer "b" "http://b"; MkPeer "c" "http://c"].
Definition w_conf (i : string) : Config := MkConfig i w_peers 0 0 0 0.
Definition w_node (i : string) : node := MkNode (New (w_conf i) 0) AtDispatch 0.
Definition w_world : world := MkWorld {["a" := w_node "a"; "b" := w_node "b"; "c" := w_node "c"]} [] [].

Lemma w_initial : initial w_peers w_world.
Proof.
  split_and!; [done|done|]. intros i n Hi. unfold w_world in Hi. cbn [nodes] in Hi.
  apply lookup_insert_Some in Hi as [[<- <-]|[_ Hi]]; [|apply lookup_insert_Some in Hi as [[<- <-]|[_ Hi]]];
    [..|apply lookup_singleton_Some in Hi as [<- <-]];
    (split; [set_solver|]); eexists (w_conf _), 0%Z; done.
Qed.

Lemma no_wrap_dec w : bool_decide (map_Forall (λ _ n, (currentTerm (el n) < max_u64)%Z) (nodes w)) = true → no_wrap w.
Proof. intros H%bool_decide_eq_true i n Hi. by apply (map_Forall_lookup_1 _ _ _ _ H Hi). Qed.

(** One step of a concrete execution. *)
Ltac premise :=
  match goal with
  | |- _ ∈ _ => cbn; repeat first [apply list_elem_of_here | apply list_elem_of_further]
  | |- _ ∉ ∅ => apply not_elem_of_empty
  | |- term_ok _ => done
  | |- _ ≠ _ => done
  | |- _ => vm_compute; reflexivity
  end.
Tactic Notation "go" uconstr(H) :=
  eapply rtc_l; [split; [apply no_wrap_dec; vm_compute; reflexivity|eapply H; premise]|].

(** Node [i] times out and starts a campaign. *)
Tactic Notation "campaign" constr(i) :=
  go (S_dispatch _ i); go (S_timeout _ i); go (S_dispatch _ i); go (S_campaign _ i).

(** [a] wins term 1 with the vote of [b] and is about to broadcast; [c] loses term 1,
    wins term 2 with the vote of [a]; now [a]'s broadcast reads the term of the
    node it no longer leads, and [b] takes [a] for the leader of term 2.  A call of
    ReplicateEntry that began while [a] led goes wrong in the same way: [b] applies
    the entry. *)
Lemma stale_leader_heartbeat :
  ∃ w b c, rtc next w_world w ∧ MBeat "a" 2 ∈ sent w ∧ MAppend "a" 2 ∈ sent w ∧
    nodes w !! "c" = Some c ∧ IsLeader (el c) = true ∧ currentTerm (el c) = 2%Z ∧
    nodes w !! "b" = Some b ∧ leader (el b) = "a"%string ∧
    (HandleAppendWAL (itoa 2) (Some true) 0 (el b)).1 = (200%Z, true).
Proof.
  do 3 eexists. split.
  - campaign "a"%string.
    go (S_request _ "a" _ 1 ∅ 1 0).
    go (S_vote _ "b" _ "a" 1 0 None 0).
    go (S_voted _ "a" _ 1 ∅ 1 "b").
    go (S_finish _ "a" _ 1 {["b"]} 2 0).
    go (S_dispatch _ "a").
    go (S_replicate _ "a").
    campaign "c"%string.
    go (S_finish _ "c" _ 1 ∅ 1 0).
    campaign "c"%string.
    go (S_request _ "c" _ 2 ∅ 1 0).
    go (S_vote _ "a" _ "c" 2 0 None 0).
    go (S_voted _ "c" _ 2 ∅ 1 "a").
    go (S_finish _ "c" _ 2 {["a"]} 2 0).
    go (S_broadcast _ "a").
    go (S_beat _ "b" _ "a" 2 0).
    go (S_push _ "a" _ 0).
    apply rtc_refl.
  - split; [premise|]. split; [premise|]. split_and!; vm_compute; reflexivity.
Qed.

Lemma election_safety_witness : ∃ w, rtc next w_world w ∧
  ∀ i j ni nj, nodes w !! i = Some ni → nodes w !! j = Some nj →
    IsLeader (el ni) = true → IsLeader (el nj) = true →
    currentTerm (el ni) = currentTerm (el nj) → i = j.
Proof.
  destruct stale_leader_heartbeat as (w & b & c & Hr & _). exists w. split; [exact Hr|].
  refine (proj1 (election_safety w_peers w_world w _ w_initial Hr)). set_solver.
Defined.

(** Terms and votes are only in memory: a node that restarts can vote a second time in
    the same term. *)
Lemma restart_votes_twice e term c1 c2 now now' rt :
  (HandleVote term c1 "" None now e).1 = Vote true rt → (0 ≤ rt)%Z → c2 ≠ "" →
  (HandleVote term c2 "" None now' (New (cfg e) now')).1 = Vote true rt.
Proof.
  intros (Hp & _ & _ & _ & _)%HandleVote_spec Hrt Hc. apply HandleVote_spec. by split_and!; auto.
Qed.

(** A sequence number out of range is read as 2^64-1 and passes every voter's check of
    the log. *)
Lemma out_of_range_seq_is_maximal : parseSeq "99999999999999999999" = max_u64.
Proof. reflexivity. Qed.
