(* ===== verification/Replicas.v ===== *)
(** * Replica lists in the metadata

    What internal/rebalance and internal/repair rely on of the store's
    UpdateChunkReplicas and UpdateShardReplicas: which chunks an object names never
    changes, and a list of replicas that hold the chunk keeps the metadata backed
    by what the nodes store. *)
From S2P Require Import Prelude GF GoLib Kv Meta Store StoreProps DataNode Transport.

Section replicas.
Context {M : Type → Type} {KVM : KV M} {HKV : KVLaws M}.
Notation DB := (@DB M).

(** The chunk ids of an object by position. *)
Definition skeleton (o : ObjectMeta) : list string * list (list string) :=
  (ChunkID <$> Chunks o, (λ s, ChunkID <$> Shards s) <$> Stripes o).
Definition skeleton_at (db : DB) (b k : string) : option (list string * list (list string)) :=
  match GetObject db b k with Ok o => Some (skeleton o) | Err _ => None end.
Definition same_names (db db' : DB) : Prop := ∀ b k, skeleton_at db' b k = skeleton_at db b k.

#[export] Instance same_names_preorder : PreOrder same_names.
Proof. split; [by intros db b k|]. intros d1 d2 d3 H1 H2 b k. by rewrite H2, H1. Qed.

(** Object (b, k) has chunk [id] at position [i], or as shard [j] of stripe [i]. *)
Definition names_chunk (db : DB) (b k : string) (i : nat) (id : string) : Prop :=
  ∃ sk, skeleton_at db b k = Some sk ∧ sk.1 !! i = Some id.
Definition names_shard (db : DB) (b k : string) (i j : nat) (id : string) : Prop :=
  ∃ sk ids, skeleton_at db b k = Some sk ∧ sk.2 !! i = Some ids ∧ ids !! j = Some id.

Lemma GetObject_key db b k b' k' : objKey b' k' = objKey b k → GetObject db b' k' = GetObject db b k.
Proof. intros E. unfold GetObject. by rewrite E. Qed.

Lemma update_object_get b k f db db' :
  update_object b k f db = (Ok (), db') →
  ∃ o o', GetObject db b k = Ok o ∧ f o = Ok o' ∧
    ∀ b' k', GetObject db' b' k' =
      if decide (objKey b' k' = objKey b k) then Ok (without_legacy o') else GetObject db b' k'.
Proof.
  intros (o & o' & Hg & Hf & Hg' & Hne & _)%update_object_spec. exists o, o'. split_and!; [done|done|].
  intros b' k'. case_decide as E.
  - rewrite (GetObject_key db' b k b' k' E), Hg'. f_equal.
    unfold normalizeLegacy. rewrite (bool_decide_true (LegacyChunkID _ = "")) by done.
    by rewrite andb_false_r.
  - unfold GetObject, get_decoded. by rewrite Hne.
Qed.

Lemma update_object_err b k f db e db' : update_object b k f db = (Err e, db') → db' = db.
Proof. unfold update_object, Update. repeat case_match; congruence. Qed.

Lemma UpdateChunkReplicas_get b k (i : nat) r db db' :
  UpdateChunkReplicas b k (Z.of_nat i) r db = (Ok (), db') →
  ∃ o, GetObject db b k = Ok o ∧ i < length (Chunks o) ∧
    ∀ b' k', GetObject db' b' k' =
      if decide (objKey b' k' = objKey b k)
      then Ok (without_legacy (with_chunks o (alter (λ c, with_replicas c r) i (Chunks o))))
      else GetObject db b' k'.
Proof.
  intros (o & o' & Hg & Hf & Hget)%update_object_get. exists o. split; [done|].
  destruct (Z.ltb_spec (Z.of_nat i) 0); simpl in Hf; [done|].
  destruct (Z.leb_spec (Z.of_nat (length (Chunks o))) (Z.of_nat i)); [done|].
  rewrite Nat2Z.id in Hf. injection Hf as <-. split; [lia|done].
Qed.

Lemma UpdateShardReplicas_get b k (i j : nat) r db db' :
  UpdateShardReplicas b k (Z.of_nat i) (Z.of_nat j) r db = (Ok (), db') →
  ∃ o s, GetObject db b k = Ok o ∧ Stripes o !! i = Some s ∧ j < length (Shards s) ∧
    ∀ b' k', GetObject db' b' k' =
      if decide (objKey b' k' = objKey b k)
      then Ok (without_legacy (with_stripes o
             (<[i := MkStripe (StripeID s) (alter (λ c, with_replicas c r) j (Shards s)) (DataLen s)]> (Stripes o))))
      else GetObject db b' k'.
Proof.
  intros (o & o' & Hg & Hf & Hget)%update_object_get. exists o.
  destruct (negb (IsEC o)); [done|].
  destruct (Z.ltb_spec (Z.of_nat i) 0); simpl in Hf; [done|].
  destruct (Z.leb_spec (Z.of_nat (length (Stripes o))) (Z.of_nat i)); [done|].
  rewrite Nat2Z.id in Hf. destruct (Stripes o !! i) as [s|]; [|done].
  destruct (Z.ltb_spec (Z.of_nat j) 0); simpl in Hf; [done|].
  destruct (Z.leb_spec (Z.of_nat (length (Shards s))) (Z.of_nat j)); [done|].
  rewrite Nat2Z.id in Hf. injection Hf as <-. exists s. split_and!; [done|done|lia|done].
Qed.

Lemma ChunkID_alter r (i : nat) (l : list ChunkRef) : ChunkID <$> alter (λ c, with_replicas c r) i l = ChunkID <$> l.
Proof.
  apply list_eq. intros j. rewrite !list_lookup_fmap. destruct (decide (j = i)) as [->|Hj].
  - rewrite list_lookup_alter_eq. by destruct (l !! i).
  - by rewrite list_lookup_alter_ne.
Qed.

Lemma UpdateChunkReplicas_names b k i r db db' :
  UpdateChunkReplicas b k (Z.of_nat i) r db = (Ok (), db') → same_names db db'.
Proof.
  intros (o & Hg & _ & Hget)%UpdateChunkReplicas_get b' k'. unfold skeleton_at. rewrite Hget.
  case_decide as E; [|done]. rewrite (GetObject_key db b k b' k' E), Hg. f_equal.
  unfold skeleton. cbn [Chunks Stripes with_chunks without_legacy]. by rewrite ChunkID_alter.
Qed.

Lemma UpdateShardReplicas_names b k i j r db db' :
  UpdateShardReplicas b k (Z.of_nat i) (Z.of_nat j) r db = (Ok (), db') → same_names db db'.
Proof.
  intros (o & s & Hg & Hs & _ & Hget)%UpdateShardReplicas_get b' k'. unfold skeleton_at. rewrite Hget.
  case_decide as E; [|done]. rewrite (GetObject_key db b k b' k' E), Hg. f_equal.
  unfold skeleton. cbn [Chunks Stripes with_stripes without_legacy]. f_equal.
  rewrite list_fmap_insert. cbn [Shards]. rewrite ChunkID_alter.
  apply list_insert_id. by rewrite list_lookup_fmap, Hs.
Qed.

Lemma names_chunk_mono db db' b k i id : same_names db db' → names_chunk db b k i id → names_chunk db' b k i id.
Proof. intros Hs (sk & H & Hi). exists sk. by rewrite Hs. Qed.
Lemma names_shard_mono db db' b k i j id :
  same_names db db' → names_shard db b k i j id → names_shard db' b k i j id.
Proof. intros Hs (sk & ids & H & Hi). exists sk, ids. by rewrite Hs. Qed.

(** Shard [j] of stripe [i] of an object. *)
Definition shard_at (db : DB) (b k : string) (i j : nat) : option ChunkRef :=
  match GetObject db b k with Ok o => s ← Stripes o !! i; Shards s !! j | Err _ => None end.

Lemma shard_at_key db b k b' k' i j : objKey b' k' = objKey b k → shard_at db b' k' i j = shard_at db b k i j.
Proof. intros E. unfold shard_at. by rewrite (GetObject_key db b k b' k' E). Qed.

Lemma shard_at_names db b k i j c : shard_at db b k i j = Some c → names_shard db b k i j (ChunkID c).
Proof.
  unfold shard_at, names_shard, skeleton_at. destruct (GetObject db b k) as [o|]; [|done].
  destruct (Stripes o !! i) as [s|] eqn:Hs; [|done]. simpl. intros Hc.
  exists (skeleton o), (ChunkID <$> Shards s). unfold skeleton. simpl.
  by rewrite !list_lookup_fmap, Hs, Hc.
Qed.

Lemma UpdateShardReplicas_at b k i j r db db' b' k' i' j' :
  UpdateShardReplicas b k (Z.of_nat i) (Z.of_nat j) r db = (Ok (), db') →
  shard_at db' b' k' i' j' =
    if decide (objKey b' k' = objKey b k ∧ i' = i ∧ j' = j)
    then (λ c, with_replicas c r) <$> shard_at db b k i j else shard_at db b' k' i' j'.
Proof.
  intros (o & s & Hg & Hs & Hj & Hget)%UpdateShardReplicas_get. unfold shard_at. rewrite Hget, Hg, Hs. cbn [mbind option_bind].
  destruct (decide (objKey b' k' = objKey b k)) as [E|E]; [|by rewrite decide_False by naive_solver].
  rewrite (GetObject_key db b k b' k' E), Hg. cbn [Stripes with_stripes without_legacy].
  destruct (decide (i' = i)) as [->|Hi].
  - rewrite list_lookup_insert_eq by (by eapply lookup_lt_Some). rewrite Hs. cbn [mbind option_bind Shards].
    destruct (decide (j' = j)) as [->|Hne].
    + by rewrite decide_True, list_lookup_alter_eq by done.
    + by rewrite decide_False, list_lookup_alter_ne by naive_solver.
  - by rewrite decide_False, list_lookup_insert_ne by naive_solver.
Qed.

(** [ListObjects] returns what [GetObject] returns. *)
Lemma decode_all_elem {A} (l : list (string * stored A)) r a :
  decode_all l = Ok r → a ∈ r → ∃ k, (k, Enc a) ∈ l.
Proof.
  revert r. induction l as [|[k v] l IH]; intros r Hr Ha; simpl in Hr; [injection Hr as <-; by apply elem_of_nil in Ha|].
  destruct v as [a'|]; simpl in Hr; [|done]. apply rbind_ok in Hr as (r' & Hr' & Hr). injection Hr as <-.
  apply elem_of_cons in Ha as [->|Ha]; [exists k; by left|].
  destruct (IH r' Hr' Ha) as [k' Hk']. exists k'. by right.
Qed.

Lemma ListObjects_get db objs o :
  db_ok db → ListObjects db = Ok objs → o ∈ objs → GetObject db (Bucket o) (Key o) = Ok o.
Proof.
  intros Hok Hl Ho. unfold ListObjects in Hl. apply rbind_ok in Hl as (l & Hl & E). injection E as <-.
  apply list_elem_of_fmap in Ho as (o' & -> & Ho'). destruct (decode_all_elem _ _ _ Hl Ho') as [k Hk].
  apply elem_list in Hk. destruct (normalizeLegacy_fields o') as (-> & -> & _).
  unfold GetObject, get_decoded. rewrite <- (ok_objects db Hok k o' Hk), Hk. done.
Qed.

(** ** Backed metadata *)
Section backed.
Context {E W : Type} {HC : ChunkService E W}.

(** Every replica the metadata lists stores the chunk, except those of which [P] holds
    (object key, chunk id, address). *)
Definition backed_or (P : string → string → string → Prop) (w : W) (db : DB) : Prop :=
  ∀ b k o c a, GetObject db b k = Ok o → c ∈ refs o → a ∈ Replicas c →
    is_Some (chunk_at w a (ChunkID c)) ∨ P (objKey b k) (ChunkID c) a.
Definition backed : W → DB → Prop := backed_or (λ _ _ _, False).

(** The replicas that [db] lists. *)
Definition listed (db : DB) (ok id a : string) : Prop :=
  ∃ b k o c, objKey b k = ok ∧ GetObject db b k = Ok o ∧ c ∈ refs o ∧ ChunkID c = id ∧ a ∈ Replicas c.
Lemma listed_backed w db : backed_or (listed db) w db.
Proof. intros b k o c a Hg Hc Ha. right. exists b, k, o, c. done. Qed.

Lemma backed_mono P w w' db : keeps_chunks w w' → backed_or P w db → backed_or P w' db.
Proof. intros Hk Hb b k o c a Hg Hc Ha. destruct (Hb _ _ _ _ _ Hg Hc Ha); [left; by apply Hk|by right]. Qed.

Lemma elem_of_alter_replicas (r : list string) (i : nat) (l : list ChunkRef) c :
  c ∈ alter (λ c, with_replicas c r) i l → c ∈ l ∨ ∃ c0, l !! i = Some c0 ∧ c = with_replicas c0 r.
Proof.
  intros (j & Hj)%list_elem_of_lookup. destruct (decide (j = i)) as [->|Hne].
  - rewrite list_lookup_alter_eq in Hj. destruct (l !! i) as [c0|]; [|done]. injection Hj as <-. eauto.
  - rewrite list_lookup_alter_ne in Hj by done. left. by eapply list_elem_of_lookup_2.
Qed.

Lemma UpdateChunkReplicas_backed P w b k i r id db db' :
  UpdateChunkReplicas b k (Z.of_nat i) r db = (Ok (), db') → names_chunk db b k i id →
  (∀ a, a ∈ r → is_Some (chunk_at w a id)) → backed_or P w db → backed_or P w db'.
Proof.
  intros (o & Hg & _ & Hget)%UpdateChunkReplicas_get (sk & Hsk & Hi) Hr Hb b' k' o' c a Hg' Hc Ha.
  unfold skeleton_at in Hsk. rewrite Hg in Hsk. injection Hsk as <-.
  rewrite Hget in Hg'. case_decide as Ek; [|by eapply Hb]. injection Hg' as <-.
  unfold refs in Hc. cbn [Chunks Stripes with_chunks without_legacy] in Hc.
  assert (c ∈ refs o ∨ ∃ c0, Chunks o !! i = Some c0 ∧ c = with_replicas c0 r) as [Hin|(c0 & Hc0 & ->)].
  { unfold refs. apply elem_of_app in Hc as [Hc|Hc]; [|left; apply elem_of_app; by right].
    apply elem_of_alter_replicas in Hc as [Hc|Hc]; [left; apply elem_of_app; by left|by right]. }
  - rewrite Ek. by eapply (Hb b k).
  - simpl in *. rewrite list_lookup_fmap, Hc0 in Hi. injection Hi as ->. left. by apply Hr.
Qed.

Lemma UpdateShardReplicas_backed P w b k i j r id db db' :
  UpdateShardReplicas b k (Z.of_nat i) (Z.of_nat j) r db = (Ok (), db') → names_shard db b k i j id →
  (∀ a, a ∈ r → is_Some (chunk_at w a id)) → backed_or P w db → backed_or P w db'.
Proof.
  intros (o & s & Hg & Hs & _ & Hget)%UpdateShardReplicas_get (sk & ids & Hsk & Hi & Hj) Hr Hb
    b' k' o' c a Hg' Hc Ha.
  unfold skeleton_at in Hsk. rewrite Hg in Hsk. injection Hsk as <-.
  rewrite Hget in Hg'. case_decide as Ek; [|by eapply Hb]. injection Hg' as <-.
  unfold refs in Hc. cbn [Chunks Stripes with_stripes without_legacy] in Hc. simpl in Hi. rewrite list_lookup_fmap, Hs in Hi. injection Hi as <-.
  assert (c ∈ refs o ∨ ∃ c0, Shards s !! j = Some c0 ∧ c = with_replicas c0 r) as [Hin|(c0 & Hc0 & ->)].
  { unfold refs. apply elem_of_app in Hc as [Hc|Hc]; [left; apply elem_of_app; by left|].
    apply list_elem_of_bind in Hc as (s' & Hc & Hs').
    apply list_elem_of_lookup in Hs' as (l & Hl). destruct (decide (l = i)) as [->|Hne].
    - rewrite list_lookup_insert_eq in Hl by (by eapply lookup_lt_Some). injection Hl as <-. cbn [Shards] in Hc.
      apply elem_of_alter_replicas in Hc as [Hc|Hc]; [left|by right].
      apply elem_of_app. right. apply list_elem_of_bind. exists s.
      split; [done|]. by eapply list_elem_of_lookup_2.
    - rewrite list_lookup_insert_ne in Hl by done. left. apply elem_of_app. right.
      apply list_elem_of_bind. exists s'. split; [done|]. by eapply list_elem_of_lookup_2. }
  - rewrite Ek. by eapply (Hb b k).
  - simpl in *. rewrite list_lookup_fmap, Hc0 in Hj. injection Hj as ->. left. by apply Hr.
Qed.
End backed.
End replicas.
