(* ===== verification/Rebalance.v ===== *)
(** * Rebalancing: internal/rebalance/rebalance.go

    For any chunk service (Transport.v) and the metadata store's own transactions
    (Store.v).  The goroutines of [Run] are taken one at a time, in the order
    [sched]; migrations touch different records and only ever add chunks. *)
From S2P Require Import Prelude GF GoLib Placement Kv Meta Store StoreProps DataNode Transport Coordinator.
From S2P Require Import Replicas.
From Stdlib Require Import Strings.Byte.

Inductive MigrationKind : Type := KindChunk | KindShard.

Record Migration : Type := MkMigration
  { mg_Bucket : string; mg_Key : string; mg_Kind : MigrationKind; mg_ChunkID : string; mg_Size : Z;
    mg_ChunkIndex : nat; mg_Actual : list string; mg_Desired : list string;
    mg_Missing : list string; mg_Surplus : list string;
    mg_StripeIndex : nat; mg_ShardIndex : nat; mg_OldAddr : string; mg_NewAddr : string }.
Record Plan : Type := MkPlan { Scanned : nat; Migrations : list Migration }.

(** ** Lists of addresses *)
Definition sortedCopy (l : list string) : list string := sort_strings l.
Definition setDiff (a b : list string) : list string :=
  let bset : gset string := list_to_set b in filter (λ x, x ∉ bset) a.
Definition intersect (a b : list string) : list string :=
  let bset : gset string := list_to_set b in filter (λ x, x ∈ bset) a.
Fixpoint unique_loop (l : list string) (seen : gset string) (out : list string) : list string :=
  match l with
  | [] => out
  | x :: l => if bool_decide (x ∈ seen) then unique_loop l seen out
              else unique_loop l ({[x]} ∪ seen) (out ++ [x])
  end.
Definition uniqueSorted (l : list string) : list string := sort_strings (unique_loop l ∅ []).

Lemma elem_of_setDiff x a b : x ∈ setDiff a b ↔ x ∈ a ∧ x ∉ b.
Proof. unfold setDiff. rewrite list_elem_of_filter, elem_of_list_to_set. tauto. Qed.
Lemma elem_of_intersect x a b : x ∈ intersect a b ↔ x ∈ a ∧ x ∈ b.
Proof. unfold intersect. rewrite list_elem_of_filter, elem_of_list_to_set. tauto. Qed.
Lemma elem_of_sortedCopy x l : x ∈ sortedCopy l ↔ x ∈ l.
Proof. apply elem_of_sort_strings. Qed.

Lemma unique_loop_spec l seen out :
  (∀ x, x ∈ seen ↔ x ∈ out) → NoDup out →
  NoDup (unique_loop l seen out) ∧ ∀ x, x ∈ unique_loop l seen out ↔ x ∈ out ∨ x ∈ l.
Proof.
  revert seen out. induction l as [|y l IH]; intros seen out Hseen Hout; simpl.
  { split; [done|]. intros x. split; [by left|]. intros [?|?%elem_of_nil]; done. }
  case_bool_decide as Hy.
  - destruct (IH seen out Hseen Hout) as [H1 H2]. split; [done|]. intros x. rewrite H2, elem_of_cons.
    apply Hseen in Hy. naive_solver.
  - destruct (IH ({[y]} ∪ seen) (out ++ [y])) as [H1 H2].
    + intros x. rewrite elem_of_union, elem_of_singleton, elem_of_app, list_elem_of_singleton, Hseen. tauto.
    + apply NoDup_app. split_and!; [done| |apply NoDup_singleton].
      intros x Hx ->%list_elem_of_singleton. by apply Hy, Hseen.
    + split; [done|]. intros x. rewrite H2, elem_of_app, list_elem_of_singleton, elem_of_cons. tauto.
Qed.

Lemma uniqueSorted_spec l : NoDup (uniqueSorted l) ∧ ∀ x, x ∈ uniqueSorted l ↔ x ∈ l.
Proof.
  destruct (unique_loop_spec l ∅ []) as [H1 H2]; [set_solver|constructor|]. unfold uniqueSorted. split.
  - by rewrite sort_strings_Permutation.
  - intros x. rewrite elem_of_sort_strings, H2. split; [intros [?%elem_of_nil|]; done|by right].
Qed.

Section rebalance.
Context {E W : Type} {HC : ChunkService E W}.
Context {M : Type → Type} {KVM : KV M}.
Notation DB := (@DB M).
Context (sched : list Migration → list Migration).
(** The class resolver: absent, or a lookup that may fail. *)
Context (class : option (string → option (list string))).

(** ** Planning *)
Definition classedDNs (label : string) (want : Z) : option (list string) :=
  match class with
  | None => None
  | Some resolve =>
      if bool_decide (label = "") then None
      else match resolve label with
           | None => None
           | Some dns =>
               (* an empty answer is the nil slice, which callers read as "no subset" *)
               if (Z.of_nat (length dns) <? want)%Z || (length dns =? 0) then None else Some dns
           end
  end.

Definition max_replicas (l : list ChunkRef) : nat :=
  foldl (λ r c, if r <? length (Replicas c) then length (Replicas c) else r) 0 l.

Fixpoint plan_chunk_loop (obj : ObjectMeta) (subset : option (list string)) (w : W) (ci : nat)
    (l : list ChunkRef) : list Migration :=
  match l with
  | [] => []
  | chunk :: l =>
      let desired :=
        match subset with
        | Some s => sortedCopy (PlaceNFromAddrs (ChunkID chunk) (Z.of_nat (length (Replicas chunk))) s)
        | None => sortedCopy (PlaceChunk (ChunkID chunk) w)
        end in
      let actual := sortedCopy (Replicas chunk) in
      let missing := setDiff desired actual in
      let surplus := setDiff actual desired in
      let rest := plan_chunk_loop obj subset w (S ci) l in
      if length missing =? 0 then rest
      else MkMigration (Bucket obj) (Key obj) KindChunk (ChunkID chunk) (cr_Size chunk)
             ci actual desired missing surplus 0 0 "" "" :: rest
  end.
Definition planChunks (obj : ObjectMeta) (w : W) : list Migration :=
  let r := max_replicas (Chunks obj) in
  plan_chunk_loop obj (classedDNs (Class_ obj) (Z.of_nat r)) w 0 (Chunks obj).

(** The shards of one stripe, handing out the unused addresses in order. *)
Fixpoint plan_shard_loop (obj : ObjectMeta) (si shi : nat) (desiredSet : gset string)
    (unused : list string) (l : list ChunkRef) : list Migration :=
  match l with
  | [] => []
  | sh :: l =>
      match Replicas sh with
      | [] => plan_shard_loop obj si (S shi) desiredSet unused l
      | addr :: _ =>
          if bool_decide (addr ∈ desiredSet) then plan_shard_loop obj si (S shi) desiredSet unused l
          else match unused with
               | [] => plan_shard_loop obj si (S shi) desiredSet unused l
               | newAddr :: unused =>
                   MkMigration (Bucket obj) (Key obj) KindShard (ChunkID sh) (cr_Size sh)
                     0 [] [] [] [] si shi addr newAddr
                   :: plan_shard_loop obj si (S shi) desiredSet unused l
               end
      end
  end.

Definition actual_set (shards : list ChunkRef) : gset string :=
  list_to_set (omap (λ sh, head (Replicas sh)) shards).

Fixpoint plan_stripe_loop (obj : ObjectMeta) (want : Z) (subset : option (list string)) (w : W) (si : nat)
    (l : list Stripe) : list Migration :=
  match l with
  | [] => []
  | stripe :: l =>
      let desired := match subset with
                     | Some s => PlaceNFromAddrs (StripeID stripe) want s
                     | None => PlaceN (StripeID stripe) want w
                     end in
      let unused := sort_strings (filter (λ a, a ∉ actual_set (Shards stripe)) desired) in
      plan_shard_loop obj si 0 (list_to_set desired) unused (Shards stripe)
      ++ plan_stripe_loop obj want subset w (S si) l
  end.
Definition planEC (obj : ObjectMeta) (w : W) : list Migration :=
  match EC obj with
  | None => []
  | Some ec =>
      let want := (ec_K ec + ec_M ec)%Z in
      plan_stripe_loop obj want (classedDNs (Class_ obj) want) w 0 (Stripes obj)
  end.

(** [objs] is what [ListObjects] returned. *)
Definition ComputePlan (objs : result store_error (list ObjectMeta)) (w : W) : result store_error Plan :=
  objs ←? objs;
  Ok (MkPlan (length objs) (objs ≫= λ obj, if IsEC obj then planEC obj w else planChunks obj w)).

(** ** Migrating *)
Inductive migrate_error : Type :=
  | NoActual | ReadSource (e : E) | UpdateMeta (e : store_error) | PartialCopy (errs : list (string * E))
  | MissingAddr | PutFailed (e : E).
Record migrateResult : Type := MkResult { mr_ok : bool; bytesCopied : Z; mr_err : option migrate_error }.

Record RunStats : Type := MkRunStats
  { Migrated : nat; Failed : nat; BytesCopied : Z; Errors : list migrate_error }.

Fixpoint copy_loop (chunkID : string) (data : list byte) (missing : list string) (w : W)
    : list string * list (string * E) * Z * W :=
  match missing with
  | [] => ([], [], 0%Z, w)
  | dst :: missing =>
      let '(r, w) := PutChunkTo dst chunkID data w in
      let '(ok, errs, n, w) := copy_loop chunkID data missing w in
      match r with
      | Ok _ => (dst :: ok, errs, i64 (n + Z.of_nat (length data)), w)
      | Err e => (ok, (dst, e) :: errs, n, w)
      end
  end.

Definition migrateChunk (mg : Migration) (wd : W * DB) : migrateResult * (W * DB) :=
  let '(w, db) := wd in
  if length (mg_Actual mg) =? 0 then (MkResult false 0 (Some NoActual), (w, db))
  else
    match ReadChunk (mg_ChunkID mg) (mg_Actual mg) w with
    | (Err e, w) => (MkResult false 0 (Some (ReadSource e)), (w, db))
    | (Ok (data, _), w) =>
        let '(successfulMissing, copyErrs, n, w) := copy_loop (mg_ChunkID mg) data (mg_Missing mg) w in
        let finalReplicas :=
          if length copyErrs =? 0
          then uniqueSorted (intersect (mg_Actual mg) (mg_Desired mg) ++ successfulMissing)
          else uniqueSorted (mg_Actual mg ++ successfulMissing) in
        match UpdateChunkReplicas (mg_Bucket mg) (mg_Key mg) (Z.of_nat (mg_ChunkIndex mg)) finalReplicas db with
        | (Err e, db) => (MkResult false n (Some (UpdateMeta e)), (w, db))
        | (Ok _, db) =>
            if length copyErrs =? 0 then (MkResult true n None, (w, db))
            else (MkResult false n (Some (PartialCopy copyErrs)), (w, db))
        end
    end.

Definition migrateShard (mg : Migration) (wd : W * DB) : migrateResult * (W * DB) :=
  let '(w, db) := wd in
  if bool_decide (mg_OldAddr mg = "") || bool_decide (mg_NewAddr mg = "")
  then (MkResult false 0 (Some MissingAddr), (w, db))
  else
    match ReadChunk (mg_ChunkID mg) [mg_OldAddr mg] w with
    | (Err e, w) => (MkResult false 0 (Some (ReadSource e)), (w, db))
    | (Ok (data, _), w) =>
        match PutChunkTo (mg_NewAddr mg) (mg_ChunkID mg) data w with
        | (Err e, w) => (MkResult false 0 (Some (PutFailed e)), (w, db))
        | (Ok _, w) =>
            let n := Z.of_nat (length data) in
            match UpdateShardReplicas (mg_Bucket mg) (mg_Key mg) (Z.of_nat (mg_StripeIndex mg))
                    (Z.of_nat (mg_ShardIndex mg)) [mg_NewAddr mg] db with
            | (Err e, db) => (MkResult false n (Some (UpdateMeta e)), (w, db))
            | (Ok _, db) => (MkResult true n None, (w, db))
            end
        end
    end.

Definition migrateOne (mg : Migration) (wd : W * DB) : migrateResult * (W * DB) :=
  match mg_Kind mg with KindShard => migrateShard mg wd | KindChunk => migrateChunk mg wd end.

Definition run_one (st : RunStats * (W * DB)) (mg : Migration) : RunStats * (W * DB) :=
  let '(stats, wd) := st in
  let '(r, wd) := migrateOne mg wd in
  (MkRunStats (if mr_ok r then S (Migrated stats) else Migrated stats)
              (if mr_ok r then Failed stats else S (Failed stats))
              (i64 (BytesCopied stats + bytesCopied r))
              (match mr_err r with Some e => Errors stats ++ [e] | None => Errors stats end), wd).
Definition Run (plan : Plan) (wd : W * DB) : RunStats * (W * DB) :=
  foldl run_one (MkRunStats 0 0 0 [], wd) (sched (Migrations plan)).

(** ** One migration *)
Context {HL : ChunkServiceLaws E W} {HKV : KVLaws M}.

Lemma copy_loop_spec id data missing w ok errs n w' :
  copy_loop id data missing w = (ok, errs, n, w') → sound w →
  sound w' ∧ same_config w w' ∧ keeps_chunks w w' ∧ ok `sublist_of` missing ∧
  (∀ a, a ∈ ok → is_Some (chunk_at w' a id)) ∧ (errs = [] → ok = missing).
Proof.
  revert w ok errs n w'. induction missing as [|dst missing IH]; intros w ok errs n w' Hc Hw; simpl in Hc.
  { injection Hc as <- <- <- <-. split_and!; try done. intros a []%elem_of_nil. }
  destruct (PutChunkTo dst id data w) as [r w1] eqn:Hput.
  destruct (put_law _ _ _ _ _ _ Hput Hw) as (Hw1 & Hc1 & Ho1 & Hk1 & Hok1).
  assert (keeps_chunks w w1) as Hkeep by by eapply changed_keeps.
  destruct (copy_loop id data missing w1) as [[[ok1 errs1] n1] w2] eqn:Hrest.
  destruct (IH _ _ _ _ _ Hrest Hw1) as (Hw2 & Hc2 & Hk2 & Hsub & Hat & Hall).
  destruct r as [[]|e]; injection Hc as <- <- <- <-; split_and!; try done; try by etrans.
  - by constructor.
  - intros a [->|Ha]%elem_of_cons; [|by apply Hat]. by apply Hk2, Hok1.
  - intros ->. by rewrite Hall.
  - by constructor.
Qed.

(** What a migration does to the metadata and the nodes, in the terms of the plan. *)
Lemma migrateChunk_spec mg w db r w' db' :
  migrateChunk mg (w, db) = (r, (w', db')) → sound w →
  sound w' ∧ same_config w w' ∧ keeps_chunks w w' ∧
  (db' = db ∧ mr_ok r = false ∨
   ∃ final, UpdateChunkReplicas (mg_Bucket mg) (mg_Key mg) (Z.of_nat (mg_ChunkIndex mg)) final db = (Ok (), db') ∧
     (∀ a, a ∈ final → a ∈ mg_Actual mg ∨ is_Some (chunk_at w' a (mg_ChunkID mg))) ∧
     if mr_ok r
     then NoDup final ∧ ∀ a, a ∈ final ↔ (a ∈ mg_Actual mg ∧ a ∈ mg_Desired mg) ∨ a ∈ mg_Missing mg
     else ∀ a, a ∈ mg_Actual mg → a ∈ final).
Proof.
  unfold migrateChunk. intros Hm Hw. destruct (length (mg_Actual mg) =? 0).
  { injection Hm as <- <- <-. split_and!; auto; done. }
  destruct (ReadChunk (mg_ChunkID mg) (mg_Actual mg) w) as [rd w1] eqn:Hread.
  destruct (read_law _ _ _ _ _ Hread Hw) as (Hw1 & Hc1 & Hs1 & _). apply same_chunks_keeps in Hs1.
  destruct rd as [[data src]|e]; [|injection Hm as <- <- <-; split_and!; auto].
  destruct (copy_loop _ _ _ w1) as [[[ok errs] n] w2] eqn:Hcopy.
  destruct (copy_loop_spec _ _ _ _ _ _ _ _ Hcopy Hw1) as (Hw2 & Hc2 & Hk2 & Hsub & Hat & Hall).
  assert (keeps_chunks w w2) as Hk by (by etrans). assert (same_config w w2) as Hc by (by etrans).
  set (final := if length errs =? 0 then _ else _) in Hm.
  destruct (UpdateChunkReplicas _ _ _ final db) as [u db1] eqn:Hupd.
  assert (u = Ok () ∨ db1 = db) as Hdb.
  { destruct u as [[]|e]; [by left|right]. by apply update_object_err in Hupd. }
  destruct u as [[]|e]; [|destruct Hdb as [?| ->]; [done|]; injection Hm as <- <- <-; split_and!; auto].
  destruct (Nat.eqb_spec (length errs) 0) as [He|He]; injection Hm as <- <- <-;
    (split_and!; [done..|right]); exists final; (split; [done|]); subst final; simpl.
  - apply nil_length_inv in He. specialize (Hall He).
    destruct (uniqueSorted_spec (intersect (mg_Actual mg) (mg_Desired mg) ++ ok)) as [Hnd Hin].
    split; [|split; [done|]]; intros a; rewrite Hin, elem_of_app, elem_of_intersect.
    + intros [[? _]|Ha]; [by left|right; by apply Hat].
    + by rewrite Hall.
  - destruct (uniqueSorted_spec (mg_Actual mg ++ ok)) as [_ Hin].
    split; intros a; rewrite Hin, elem_of_app; [|by left]. intros [?|?]; [by left|right; by apply Hat].
Qed.

Lemma migrateShard_spec mg w db r w' db' :
  migrateShard mg (w, db) = (r, (w', db')) → sound w →
  sound w' ∧ same_config w w' ∧ keeps_chunks w w' ∧
  (db' = db ∧ mr_ok r = false ∨
   mr_ok r = true ∧ is_Some (chunk_at w' (mg_NewAddr mg) (mg_ChunkID mg)) ∧
   UpdateShardReplicas (mg_Bucket mg) (mg_Key mg) (Z.of_nat (mg_StripeIndex mg)) (Z.of_nat (mg_ShardIndex mg))
     [mg_NewAddr mg] db = (Ok (), db')).
Proof.
  unfold migrateShard. intros Hm Hw. destruct (_ || _).
  { injection Hm as <- <- <-. split_and!; auto; done. }
  destruct (ReadChunk (mg_ChunkID mg) [mg_OldAddr mg] w) as [rd w1] eqn:Hread.
  destruct (read_law _ _ _ _ _ Hread Hw) as (Hw1 & Hc1 & Hs1 & _). apply same_chunks_keeps in Hs1.
  destruct rd as [[data src]|e]; [|injection Hm as <- <- <-; split_and!; auto].
  destruct (PutChunkTo _ _ data w1) as [p w2] eqn:Hput.
  destruct (put_law _ _ _ _ _ _ Hput Hw1) as (Hw2 & Hc2 & Ho2 & Hk2 & Hok2).
  assert (keeps_chunks w1 w2) as Hkeep by by eapply changed_keeps.
  assert (keeps_chunks w w2) as Hk by (by etrans). assert (same_config w w2) as Hc by (by etrans).
  destruct p as [[]|e]; [|injection Hm as <- <- <-; split_and!; auto].
  destruct (UpdateShardReplicas _ _ _ _ _ db) as [[[]|e] db1] eqn:Hupd; injection Hm as <- <- <-.
  - split_and!; [done..|right]. split_and!; [done| |done]. by apply Hok2.
  - assert (db1 = db) as -> by (by apply update_object_err in Hupd).
    split_and!; auto.
Qed.

(** ** A run of a fresh plan *)
Definition planned (w : W) (db : DB) (mg : Migration) : Prop :=
  match mg_Kind mg with
  | KindChunk => names_chunk db (mg_Bucket mg) (mg_Key mg) (mg_ChunkIndex mg) (mg_ChunkID mg) ∧
      ∀ a, a ∈ mg_Actual mg → is_Some (chunk_at w a (mg_ChunkID mg))
  | KindShard => names_shard db (mg_Bucket mg) (mg_Key mg) (mg_StripeIndex mg) (mg_ShardIndex mg) (mg_ChunkID mg)
  end.

Lemma planned_mono w w' db db' mg :
  keeps_chunks w w' → same_names db db' → planned w db mg → planned w' db' mg.
Proof.
  intros Hk Hn. unfold planned. destruct (mg_Kind mg).
  - intros [H1 H2]. split; [by eapply names_chunk_mono|]. intros a Ha. by apply Hk, H2.
  - by apply names_shard_mono.
Qed.

Lemma plan_chunk_loop_spec obj subset w ci l mg :
  mg ∈ plan_chunk_loop obj subset w ci l →
  ∃ i c, l !! i = Some c ∧ mg_Bucket mg = Bucket obj ∧ mg_Key mg = Key obj ∧ mg_Kind mg = KindChunk ∧
    mg_ChunkIndex mg = ci + i ∧ mg_ChunkID mg = ChunkID c ∧ mg_Actual mg = sortedCopy (Replicas c) ∧
    mg_Missing mg = setDiff (mg_Desired mg) (mg_Actual mg) ∧
    (subset = None → mg_Desired mg = sortedCopy (PlaceChunk (ChunkID c) w)).
Proof.
  revert ci. induction l as [|c l IH]; intros ci Hin; simpl in Hin; [by apply elem_of_nil in Hin|].
  assert (mg ∈ plan_chunk_loop obj subset w (S ci) l →
    ∃ i c', (c :: l) !! i = Some c' ∧ mg_Bucket mg = Bucket obj ∧ mg_Key mg = Key obj ∧ mg_Kind mg = KindChunk ∧
      mg_ChunkIndex mg = ci + i ∧ mg_ChunkID mg = ChunkID c' ∧ mg_Actual mg = sortedCopy (Replicas c') ∧
      mg_Missing mg = setDiff (mg_Desired mg) (mg_Actual mg) ∧
      (subset = None → mg_Desired mg = sortedCopy (PlaceChunk (ChunkID c') w))) as Hrest.
  { intros (i & c' & H1 & H2 & H3 & H4 & H5 & H6)%IH. exists (S i), c'. split_and!; first [done|lia|apply H6]. }
  destruct (length _ =? 0); [by apply Hrest|]. apply elem_of_cons in Hin as [->|Hin]; [|by apply Hrest].
  exists 0, c. simpl. split_and!; first [done|lia|by intros ->].
Qed.

Lemma plan_shard_loop_spec obj si shi ds unused l mg :
  mg ∈ plan_shard_loop obj si shi ds unused l →
  ∃ i c, l !! i = Some c ∧ mg_Bucket mg = Bucket obj ∧ mg_Key mg = Key obj ∧ mg_Kind mg = KindShard ∧
    mg_StripeIndex mg = si ∧ mg_ShardIndex mg = shi + i ∧ mg_ChunkID mg = ChunkID c.
Proof.
  revert shi unused. induction l as [|c l IH]; intros shi unused Hin; simpl in Hin; [by apply elem_of_nil in Hin|].
  assert (∀ unused, mg ∈ plan_shard_loop obj si (S shi) ds unused l →
    ∃ i c', (c :: l) !! i = Some c' ∧ mg_Bucket mg = Bucket obj ∧ mg_Key mg = Key obj ∧ mg_Kind mg = KindShard ∧
      mg_StripeIndex mg = si ∧ mg_ShardIndex mg = shi + i ∧ mg_ChunkID mg = ChunkID c') as Hrest.
  { intros u (i & c' & H1 & H2 & H3 & H4 & H5 & H6 & H7)%IH. exists (S i), c'. split_and!; first [done|lia]. }
  destruct (Replicas c) as [|addr rs]; [by eapply Hrest|]. case_bool_decide; [by eapply Hrest|].
  destruct unused as [|na unused]; [by eapply Hrest|].
  apply elem_of_cons in Hin as [->|Hin]; [|by eapply Hrest].
  exists 0, c. simpl. split_and!; first [done|lia].
Qed.

Lemma plan_stripe_loop_spec obj want subset w si l mg :
  mg ∈ plan_stripe_loop obj want subset w si l →
  ∃ i j s c, l !! i = Some s ∧ Shards s !! j = Some c ∧ mg_Bucket mg = Bucket obj ∧ mg_Key mg = Key obj ∧
    mg_Kind mg = KindShard ∧ mg_StripeIndex mg = si + i ∧ mg_ShardIndex mg = j ∧ mg_ChunkID mg = ChunkID c.
Proof.
  revert si. induction l as [|s l IH]; intros si Hin; simpl in Hin; [by apply elem_of_nil in Hin|].
  apply elem_of_app in Hin as [(j & c & H1 & H2 & H3 & H4 & H5 & H6 & H7)%plan_shard_loop_spec|Hin].
  - exists 0, j, s, c. split_and!; try done; lia.
  - destruct (IH _ Hin) as (i & j & s' & c & H1 & H2 & H3 & H4 & H5 & H6 & H7).
    exists (S i), j, s', c. split_and!; first [done|lia|apply H7].
Qed.

Lemma ComputePlan_planned w db objs plan :
  db_ok db → ListObjects db = Ok objs → ComputePlan (Ok objs) w = Ok plan → backed w db →
  Forall (planned w db) (Migrations plan).
Proof.
  intros Hok Hl Hp Hb. unfold ComputePlan in Hp. simpl in Hp. injection Hp as <-. apply Forall_forall.
  intros mg (o & Hin & Ho)%list_elem_of_bind. pose proof (ListObjects_get db objs o Hok Hl Ho) as Hg.
  assert (skeleton_at db (Bucket o) (Key o) = Some (skeleton o)) as Hsk by (unfold skeleton_at; by rewrite Hg).
  unfold planned. destruct (IsEC o).
  - unfold planEC in Hin. destruct (EC o) as [ec|]; [|by apply elem_of_nil in Hin].
    apply plan_stripe_loop_spec in Hin as (i & j & s & c & Hi & Hj & -> & -> & -> & -> & -> & ->).
    exists (skeleton o), (ChunkID <$> Shards s). split_and!; [done| |].
    + unfold skeleton. simpl. by rewrite list_lookup_fmap, Hi.
    + by rewrite list_lookup_fmap, Hj.
  - apply plan_chunk_loop_spec in Hin as (i & c & Hi & -> & -> & -> & -> & -> & -> & _). split.
    + exists (skeleton o). split; [done|]. unfold skeleton. simpl. by rewrite list_lookup_fmap, Hi.
    + intros a. rewrite elem_of_sortedCopy. intros Ha. destruct (Hb _ _ o c a Hg) as [?|[]]; [|done..].
      unfold refs. apply elem_of_app. left. by eapply list_elem_of_lookup_2.
Qed.

Lemma migrateOne_backed mg w db r w' db' :
  migrateOne mg (w, db) = (r, (w', db')) → sound w → planned w db mg → backed w db →
  sound w' ∧ keeps_chunks w w' ∧ same_names db db' ∧ backed w' db'.
Proof.
  unfold migrateOne, planned. intros Hm Hw Hp Hb. destruct (mg_Kind mg).
  - destruct (migrateChunk_spec _ _ _ _ _ _ Hm Hw) as (Hw' & _ & Hk & [[-> _]|(final & Hu & Hfin & _)]).
    { split_and!; [done|done|done|by eapply backed_mono]. }
    split_and!; [done|done|by eapply UpdateChunkReplicas_names|].
    eapply UpdateChunkReplicas_backed; [exact Hu|apply Hp| |by eapply backed_mono].
    intros a [Ha|Ha]%Hfin; [|done]. by apply Hk, Hp.
  - destruct (migrateShard_spec _ _ _ _ _ _ Hm Hw) as (Hw' & _ & Hk & [[-> _]|(_ & Hnew & Hu)]).
    { split_and!; [done|done|done|by eapply backed_mono]. }
    split_and!; [done|done|by eapply UpdateShardReplicas_names|].
    eapply UpdateShardReplicas_backed; [exact Hu|exact Hp| |by eapply backed_mono].
    by intros a ->%list_elem_of_singleton.
Qed.

Lemma run_backed l stats w db stats' w' db' :
  foldl run_one (stats, (w, db)) l = (stats', (w', db')) →
  sound w → Forall (planned w db) l → backed w db →
  sound w' ∧ keeps_chunks w w' ∧ same_names db db' ∧ backed w' db' ∧
  Migrated stats' + Failed stats' = Migrated stats + Failed stats + length l.
Proof.
  revert stats w db. induction l as [|mg l IH]; intros stats w db Hr Hw Hp Hb; cbn [foldl] in Hr.
  { injection Hr as <- <- <-. split_and!; first [done|simpl; lia]. }
  apply Forall_cons in Hp as [Hmg Hl]. unfold run_one at 2 in Hr.
  destruct (migrateOne mg (w, db)) as [r [w1 db1]] eqn:Hm.
  destruct (migrateOne_backed _ _ _ _ _ _ Hm Hw Hmg Hb) as (Hw1 & Hk1 & Hn1 & Hb1).
  destruct (IH _ _ _ Hr Hw1) as (Hw' & Hk' & Hn' & Hb' & Hc); [|done|].
  { eapply Forall_impl; [exact Hl|]. intros m. by apply planned_mono. }
  split_and!; [done|by etrans|by etrans|done|]. rewrite Hc. simpl. destruct (mr_ok r); simpl; lia.
Qed.

(** Rebalancing never loses a replica: if every replica the metadata lists holds its
    chunk when the plan is made, then after running it, in whatever order and
    whatever reads, copies or updates fail, no node has lost a chunk, no object's
    chunk list has changed, and every replica listed, old or new, holds its chunk. *)
Theorem rebalance_keeps_metadata_backed w db objs plan stats w' db' :
  (∀ l, sched l ≡ₚ l) → db_ok db → sound w → backed w db →
  ListObjects db = Ok objs → ComputePlan (Ok objs) w = Ok plan →
  Run plan (w, db) = (stats, (w', db')) →
  keeps_chunks w w' ∧ same_names db db' ∧ backed w' db' ∧
  Migrated stats + Failed stats = length (Migrations plan).
Proof.
  intros Hsched Hok Hw Hb Hl Hp Hr.
  destruct (run_backed _ _ _ _ _ _ _ Hr Hw) as (_ & H1 & H2 & H3 & H4); [|done|].
  - rewrite Hsched. by eapply ComputePlan_planned.
  - split_and!; [done..|]. rewrite H4. simpl. by apply Permutation_length.
Qed.

(** A successful migration converges: afterwards the chunk's replica list is, without
    repetition, the placement the coordinator wants, and planning that chunk again
    finds nothing to move. *)
Theorem migrated_chunk_is_placed obj w db mg r w' db' :
  sound w → GetObject db (Bucket obj) (Key obj) = Ok obj →
  classedDNs (Class_ obj) (Z.of_nat (max_replicas (Chunks obj))) = None →
  mg ∈ planChunks obj w → migrateOne mg (w, db) = (r, (w', db')) → mr_ok r = true →
  ∃ obj' c', GetObject db' (Bucket obj) (Key obj) = Ok obj' ∧
    Chunks obj' !! mg_ChunkIndex mg = Some c' ∧ ChunkID c' = mg_ChunkID mg ∧
    NoDup (Replicas c') ∧ (∀ a, a ∈ Replicas c' ↔ a ∈ PlaceChunk (ChunkID c') w') ∧
    plan_chunk_loop obj' None w' (mg_ChunkIndex mg) [c'] = [].
Proof.
  intros Hw Hg Hclass Hin Hm Hr. unfold planChunks in Hin. rewrite Hclass in Hin.
  apply plan_chunk_loop_spec in Hin as (i & c & Hi & Eb & Ek & Hkind & Ei & Eid & Eact & Emiss & Edes).
  specialize (Edes eq_refl). unfold migrateOne in Hm. rewrite Hkind in Hm.
  destruct (migrateChunk_spec _ _ _ _ _ _ Hm Hw) as (_ & (_ & Hplace & _) & _ & [[_ ?]|(final & Hu & _ & Hfin)]);
    [congruence|]. rewrite Hr in Hfin. destruct Hfin as [Hnd Hfin].
  rewrite Eb, Ek in Hu. apply UpdateChunkReplicas_get in Hu as (o & Hg' & Hlt & Hget).
  rewrite Hg in Hg'. injection Hg' as <-.
  assert (∀ a, a ∈ final ↔ a ∈ PlaceChunk (ChunkID c) w') as Hiff.
  { intros a. rewrite Hfin, Emiss, elem_of_setDiff, Edes, Eact, !elem_of_sortedCopy, Hplace.
    destruct (decide (a ∈ Replicas c)); tauto. }
  eexists _, (with_replicas c final). rewrite Hget, decide_True by done. split; [done|].
  rewrite Ei. cbn [Chunks with_chunks without_legacy]. rewrite Nat.add_0_l, list_lookup_alter_eq, Hi.
  split_and!; [done|by rewrite Eid|done|done|]. simpl.
  assert (setDiff (sortedCopy (PlaceChunk (ChunkID c) w')) (sortedCopy final) = []) as ->; [|done].
  apply elem_of_nil_inv. intros a. rewrite elem_of_setDiff, !elem_of_sortedCopy, Hiff. tauto.
Qed.

(** A migration names the chunk it moves only by its position: run after the object was
    overwritten, it gives the new object's chunk at that position the replica list
    of the old one. *)
Lemma stale_migration_misplaces mg final db db' o c :
  UpdateChunkReplicas (mg_Bucket mg) (mg_Key mg) (Z.of_nat (mg_ChunkIndex mg)) final db = (Ok (), db') →
  GetObject db (mg_Bucket mg) (mg_Key mg) = Ok o → Chunks o !! mg_ChunkIndex mg = Some c →
  ChunkID c ≠ mg_ChunkID mg →
  ∃ o' c', GetObject db' (mg_Bucket mg) (mg_Key mg) = Ok o' ∧ Chunks o' !! mg_ChunkIndex mg = Some c' ∧
    ChunkID c' = ChunkID c ∧ Replicas c' = final.
Proof.
  intros (o1 & Hg1 & _ & Hget)%UpdateChunkReplicas_get Hg Hc _. rewrite Hg in Hg1. injection Hg1 as <-.
  eexists _, (with_replicas c final). rewrite Hget, decide_True by done. split; [done|].
  cbn [Chunks with_chunks without_legacy]. by rewrite list_lookup_alter_eq, Hc.
Qed.
End rebalance.

(** ** Witnesses: node dn1 left the placement; its one chunk moves to dn2 *)
#[local] Opaque sha256_hex w_id.
Definition w_rb_obj : ObjectMeta :=
  MkObjectMeta "photos" "cat.jpg" 4 "" "" [MkChunkRef w_id 4 ["h1:80"]] None [] 0 0 "" "" [].
Definition w_rb_db : mdb := (putObjectInternal w_rb_obj 9 db0).2.
Definition w_rb_stored : ObjectMeta := with_created (with_version w_rb_obj 1) 9.
Definition w_rb_coord : Coordinator.Coordinator :=
  MkCoordinator (Placement.New [MkNode "dn2" "h2:80" ""]) 1 1 10000000000 "http".
Definition w_rb_cluster : Cluster :=
  MkCluster w_rb_coord {["h1:80" := w_stored; "h2:80" := MkServer "dn2" ∅ 0 0]} 0.
Definition w_rb_laws : @ChunkServiceLaws coord_error Cluster (cluster_service w_net) :=
  cluster_laws w_net id (λ _, eq_refl).

Lemma w_rb_db_ok : db_ok w_rb_db.
Proof.
  unfold w_rb_db, db0. rewrite <- !outcome_snd. apply putObject_ok, createBucket_ok, empty_db_ok.
Qed.
Lemma w_rb_objects : objects w_rb_db = {[objKey "photos" "cat.jpg" := Enc w_rb_stored]}.
Proof. reflexivity. Qed.
Lemma w_rb_get b k o : GetObject w_rb_db b k = Ok o → o = w_rb_stored.
Proof.
  unfold GetObject, get_decoded. rewrite w_rb_objects.
  change (kv_get ?m ?k) with (m !! k). destruct (_ !! _) as [v|] eqn:Hg; [|done].
  apply lookup_singleton_Some in Hg as [_ <-]. by intros [= <-].
Qed.

Lemma w_rb_get_stored : GetObject w_rb_db "photos" "cat.jpg" = Ok w_rb_stored.
Proof.
  unfold GetObject, get_decoded. rewrite w_rb_objects. change (kv_get ?m ?k) with (m !! k).
  rewrite lookup_singleton_eq. reflexivity.
Qed.

Lemma w_rb_sound : cluster_sound w_rb_cluster.
Proof.
  intros a s Hs. unfold w_rb_cluster in Hs. cbn [dns] in Hs.
  apply lookup_insert_Some in Hs as [[<- <-]|[_ [<- <-]%lookup_singleton_Some]].
  - unfold w_stored. cbn [disk]. apply singleton_addressed, w_id_spec.
  - apply empty_addressed.
Qed.

Lemma w_rb_backed : backed (HC := cluster_service w_net) w_rb_cluster w_rb_db.
Proof.
  intros b k o c a ->%w_rb_get. unfold refs, w_rb_stored, w_rb_obj. cbn.
  intros Hc. apply list_elem_of_singleton in Hc as ->. cbn [Replicas ChunkID].
  intros Ha. apply list_elem_of_singleton in Ha as ->.
  left. unfold cluster_chunk. apply (proj2 (node_chunk_some w_stored w_id)).
  rewrite <- w_id_spec, sha256_hex_valid. split; [done|].
  unfold w_stored. cbn [disk]. rewrite w_id_spec, lookup_singleton_eq. eauto.
Qed.

Lemma rebalance_keeps_metadata_backed_witness :
  ∃ plan (stats : @RunStats coord_error) w' db', ComputePlan (HC := cluster_service w_net) None (Ok [w_rb_stored]) w_rb_cluster = Ok plan ∧
    length (Migrations plan) = 1 ∧ backed (HC := cluster_service w_net) w' (db' : mdb) ∧
    Migrated stats + Failed stats = 1.
Proof.
  destruct (ComputePlan (HC := cluster_service w_net) None (Ok [w_rb_stored]) w_rb_cluster) as [plan|] eqn:Hp;
    [|done].
  assert (length (Migrations plan) = 1) as Hlen by (injection Hp as <-; reflexivity).
  destruct (Run (HC := cluster_service w_net) id plan (w_rb_cluster, w_rb_db)) as [stats [w' db']] eqn:Hrun.
  destruct (rebalance_keeps_metadata_backed (HL := w_rb_laws) id None w_rb_cluster w_rb_db [w_rb_stored]
    plan stats w' db' (λ l, Permutation_refl l) w_rb_db_ok w_rb_sound w_rb_backed eq_refl Hp Hrun)
    as (_ & _ & Hb & Hc).
  exists plan, stats, w', db'. rewrite Hlen in Hc. exact (conj eq_refl (conj Hlen (conj Hb Hc))).
Defined.

Definition w_mg : Migration :=
  MkMigration "photos" "cat.jpg" KindChunk w_id 4 0 ["h1:80"] ["h2:80"] ["h2:80"] ["h1:80"] 0 0 "" "".
Lemma w_planChunks : planChunks (HC := cluster_service w_net) None w_rb_stored w_rb_cluster = [w_mg].
Proof. reflexivity. Qed.
Lemma w_migrate : ∃ w' db', migrateOne (HC := cluster_service w_net) w_mg (w_rb_cluster, w_rb_db) =
  (MkResult true 4 None, (w', db')).
Proof.
  destruct (w_read_one w_rb_cluster "h1:80" w_stored) as (w1 & Hr & Hd);
    [apply lookup_insert_eq|apply lookup_singleton_eq|].
  destruct (w_put_one w1 "h2:80" (MkServer "dn2" ∅ 0 0)) as (w2 & Hw).
  { rewrite Hd. unfold w_rb_cluster. cbn [dns]. rewrite lookup_insert_ne by done. apply lookup_singleton_eq. }
  { apply lookup_empty. }
  unfold migrateOne, migrateChunk. cbn [mg_Kind mg_ChunkID mg_Actual mg_Missing w_mg length Nat.eqb].
  cbn [ReadChunk cluster_service]. rewrite Hr. cbn [copy_loop PutChunkTo cluster_service]. rewrite Hw.
  eexists _, _. reflexivity.
Qed.

Lemma migrated_chunk_is_placed_witness :
  ∃ w' db' obj' c', migrateOne (HC := cluster_service w_net) w_mg (w_rb_cluster, w_rb_db) =
      (MkResult true 4 None, (w', db')) ∧
    GetObject db' "photos" "cat.jpg" = Ok obj' ∧ Chunks obj' !! 0 = Some c' ∧ ChunkID c' = w_id.
Proof.
  destruct w_migrate as (w' & db' & Hm).
  destruct (migrated_chunk_is_placed (HL := w_rb_laws) None w_rb_stored w_rb_cluster w_rb_db w_mg (MkResult true 4 None) w' db'
    w_rb_sound w_rb_get_stored eq_refl) as (obj' & c' & Hg & Hc & Hid & _); [|exact Hm|reflexivity|].
  - rewrite w_planChunks. apply list_elem_of_here.
  - exists w', db', obj', c'. exact (conj Hm (conj Hg (conj Hc Hid))).
Defined.
