(* ===== verification/Repair.v ===== *)
(** * Repair of erasure-coded stripes: internal/repair/repair.go

    For any chunk service (Transport.v), the encoder of ReedSolomon.v and the store's
    own transactions (Store.v).  The goroutines of [Run] are taken one at a time, in
    the order [sched]; each works on a stripe of its own.  A nil and an empty shard
    are both []. *)
From S2P Require Import Prelude GF Matrix ReedSolomon GoLib Placement Kv Meta Store StoreProps DataNode.
From S2P Require Import Transport Coordinator Replicas.
From Stdlib Require Import Strings.Byte.

Record SurvivorRef : Type := MkSurvivor { sv_ShardIndex : nat; sv_ChunkID : string; sv_Addr : string }.
Record DeadShard : Type := MkDead
  { ds_ShardIndex : nat; ds_ChunkID : string; ds_OldAddr : string; ds_NewAddr : string;
    ds_Size : Z; ds_Force : bool }.
Record StripeRepair : Type := MkStripeRepair
  { sr_Bucket : string; sr_Key : string; sr_StripeIndex : nat; sr_K : Z; sr_M : Z;
    sr_Survivors : list SurvivorRef; sr_DeadShards : list DeadShard }.
Record Plan : Type := MkPlan
  { Scanned : nat; Repairs : list StripeRepair; Unrepairable : list StripeRepair }.

#[local] Instance ChunkRef_inhabited : Inhabited ChunkRef := populate (MkChunkRef "" 0 []).

Section repair.
Context {E W : Type} {HC : ChunkService E W}.
Context {M : Type → Type} {KVM : KV M}.
Notation DB := (@DB M).
Context (sched : list StripeRepair → list StripeRepair).

(** ** Planning *)
(** The shards of a stripe whose first address is live, and the positions of the others. *)
Fixpoint classify (live : gset string) (shi : nat) (l : list ChunkRef) : list SurvivorRef * list nat :=
  match l with
  | [] => ([], [])
  | sh :: l =>
      let '(survivors, deadIdx) := classify live (S shi) l in
      match Replicas sh with
      | [] => (survivors, shi :: deadIdx)
      | addr :: _ =>
          if bool_decide (addr ∈ live) then (MkSurvivor shi (ChunkID sh) addr :: survivors, deadIdx)
          else (survivors, shi :: deadIdx)
      end
  end.

Definition dead_at (shards : list ChunkRef) (newAddr : string) (shi : nat) : DeadShard :=
  let sh := shards !!! shi in
  MkDead shi (ChunkID sh) (default "" (head (Replicas sh))) newAddr (cr_Size sh) false.

(** Hands the unused addresses to the dead positions, in order, while there are any. *)
Fixpoint allocate (shards : list ChunkRef) (unused : list string) (deadIdx : list nat) : list DeadShard :=
  match unused, deadIdx with
  | newAddr :: unused, shi :: deadIdx => dead_at shards newAddr shi :: allocate shards unused deadIdx
  | _, _ => []
  end.

(** The desired addresses no survivor is on. *)
Definition unused_addrs (stripe : Stripe) (want : Z) (survivors : list SurvivorRef) (w : W) : list string :=
  let actualSet : gset string := list_to_set (sv_Addr <$> survivors) in
  sort_strings (filter (λ a, a ∉ actualSet) (PlaceN (StripeID stripe) want w)).

(** The stripes of one object, from index [si] on: what they add to the plan. *)
Definition plan_stripe (obj : ObjectMeta) (k m : Z) (w : W) (si : nat) (stripe : Stripe) (plan : Plan) : Plan :=
  let plan := MkPlan (S (Scanned plan)) (Repairs plan) (Unrepairable plan) in
  let '(survivors, deadIdx) := classify (list_to_set (DNs w)) 0 (Shards stripe) in
  let rep := MkStripeRepair (Bucket obj) (Key obj) si k m survivors in
  if length deadIdx =? 0 then plan
  else if (Z.of_nat (length survivors) <? k)%Z then
    MkPlan (Scanned plan) (Repairs plan) (Unrepairable plan ++ [rep (dead_at (Shards stripe) "" <$> deadIdx)])
  else
    let dead := allocate (Shards stripe) (unused_addrs stripe (k + m) survivors w) deadIdx in
    if 0 <? length dead then MkPlan (Scanned plan) (Repairs plan ++ [rep dead]) (Unrepairable plan)
    else plan.
Fixpoint plan_stripes (obj : ObjectMeta) (k m : Z) (w : W) (si : nat) (l : list Stripe) (plan : Plan) : Plan :=
  match l with
  | [] => plan
  | stripe :: l => plan_stripes obj k m w (S si) l (plan_stripe obj k m w si stripe plan)
  end.
Definition plan_object (w : W) (plan : Plan) (obj : ObjectMeta) : Plan :=
  if negb (IsEC obj) then plan
  else match EC obj with
       | None => plan (* not with IsEC *)
       | Some ec => plan_stripes obj (ec_K ec) (ec_M ec) w 0 (Stripes obj) plan
       end.
Definition ComputePlan (objs : result store_error (list ObjectMeta)) (w : W) : result store_error Plan :=
  objs ←? objs; Ok (foldl (plan_object w) (MkPlan 0 [] []) objs).

(** ** Repairing *)
Inductive repair_error : Type :=
  | EncoderErr (e : rs_error) | TooFewSurvivors | ReadSurvivor (e : E) | ReconstructErr (e : rs_error)
  | EncodeErr (e : rs_error) | RebuiltNil | PutShard (e : E) | MetaUpdate (e : store_error)
  | IndexPanic.

Fixpoint fetch_loop (l : list SurvivorRef) (shards : list shard) (w : W)
    : result repair_error (list shard) * W :=
  match l with
  | [] => (Ok shards, w)
  | s :: l =>
      match ReadChunk (sv_ChunkID s) [sv_Addr s] w with
      | (Err e, w) => (Err (ReadSurvivor e), w)
      | (Ok (data, _), w) =>
          if length shards <=? sv_ShardIndex s then (Err IndexPanic, w)
          else fetch_loop l (<[sv_ShardIndex s := data]> shards) w
      end
  end.

(** Steps 2 and 3: the data from the survivors, and the parity from the data if some of
    it is dead. *)
Definition decode (enc : Encoder) (k m : nat) (dead : list DeadShard) (shards : list shard)
    : result repair_error (list shard) :=
  match Reconstruct enc shards with
  | Err e => Err (ReconstructErr e)
  | Ok shards =>
      if existsb (λ d, k <=? ds_ShardIndex d) dead then
        match Encode enc (take k shards) with
        | Err e => Err (EncodeErr e)
        | Ok parity => Ok (for_range 0 m (λ shards i, <[k + i := parity !!! i]> shards) shards)
        end
      else Ok shards
  end.

(** Steps 1 to 3: the shards of the stripe rebuilt from K survivors. *)
Definition rebuild (rep : StripeRepair) (w : W) : result repair_error (list shard) * W :=
  match NewEncoder (sr_K rep) (sr_M rep) with
  | Err e => (Err (EncoderErr e), w)
  | Ok enc =>
      let k := Z.to_nat (sr_K rep) in
      let m := Z.to_nat (sr_M rep) in
      if (Z.of_nat (length (sr_Survivors rep)) <? sr_K rep)%Z then (Err TooFewSurvivors, w)
      else
        let '(r, w) := fetch_loop (take k (sr_Survivors rep)) (replicate (k + m) []) w in
        (shards ←? r; decode enc k m (sr_DeadShards rep) shards, w)
  end.

(** Step 4; the count is of the bytes written. *)
Fixpoint put_loop (rep : StripeRepair) (dead : list DeadShard) (shards : list shard) (n : Z) (wd : W * DB)
    : result repair_error () * Z * (W * DB) :=
  match dead with
  | [] => (Ok (), n, wd)
  | d :: dead =>
      match shards !! ds_ShardIndex d with
      | None => (Err IndexPanic, n, wd)
      | Some data =>
          if length data =? 0 then (Err RebuiltNil, n, wd)
          else
            let put := if ds_Force d then PutChunkToForce else PutChunkTo in
            match put (ds_NewAddr d) (ds_ChunkID d) data wd.1 with
            | (Err e, w) => (Err (PutShard e), n, (w, wd.2))
            | (Ok _, w) =>
                let n := i64 (n + Z.of_nat (length data)) in
                match UpdateShardReplicas (sr_Bucket rep) (sr_Key rep) (Z.of_nat (sr_StripeIndex rep))
                        (Z.of_nat (ds_ShardIndex d)) [ds_NewAddr d] wd.2 with
                | (Err e, db) => (Err (MetaUpdate e), n, (w, db))
                | (Ok _, db) => put_loop rep dead shards n (w, db)
                end
            end
      end
  end.

Definition repairStripe (rep : StripeRepair) (wd : W * DB) : result repair_error () * Z * (W * DB) :=
  let '(r, w) := rebuild rep wd.1 in
  match r with
  | Err e => (Err e, 0%Z, (w, wd.2))
  | Ok shards => put_loop rep (sr_DeadShards rep) shards 0 (w, wd.2)
  end.

Record RunStats : Type := MkRunStats
  { rp_Stripes : nat; Repaired : nat; rp_Failed : nat; BytesWritten : Z; rp_Errors : list repair_error }.
Definition run_one (st : RunStats * (W * DB)) (rep : StripeRepair) : RunStats * (W * DB) :=
  let '(stats, wd) := st in
  let '(r, n, wd) := repairStripe rep wd in
  (match r with
   | Ok _ => MkRunStats (S (rp_Stripes stats)) (S (Repaired stats)) (rp_Failed stats)
               (i64 (BytesWritten stats + n)) (rp_Errors stats)
   | Err e => MkRunStats (S (rp_Stripes stats)) (Repaired stats) (S (rp_Failed stats))
               (i64 (BytesWritten stats + n)) (rp_Errors stats ++ [e])
   end, wd).
Definition Run (plan : Plan) (wd : W * DB) : RunStats * (W * DB) :=
  foldl run_one (MkRunStats 0 0 0 0 [], wd) (sched (Repairs plan)).

Context {HL : ChunkServiceLaws E W} {HKV : KVLaws M}.

(** ** Rebuilding *)
Definition collision : Prop := ∃ b b' : list byte, b ≠ b' ∧ sha256_hex b = sha256_hex b'.

(** The survivors are distinct shards of the stripe [full], named by their hashes. *)
Definition survivor_of (full : list shard) (s : SurvivorRef) : Prop :=
  ∃ b, full !! sv_ShardIndex s = Some b ∧ sv_ChunkID s = sha256_hex b.
Definition survivors_of (full : list shard) (rep : StripeRepair) : Prop :=
  Forall (survivor_of full) (sr_Survivors rep) ∧ NoDup (sv_ShardIndex <$> sr_Survivors rep).

Lemma fetch_loop_frame l shards w r w' :
  fetch_loop l shards w = (r, w') → sound w → sound w' ∧ same_config w w' ∧ same_chunks w w'.
Proof.
  revert shards w. induction l as [|s l IH]; intros shards w Hf Hw; cbn [fetch_loop] in Hf.
  { by injection Hf as <- <-. }
  destruct (ReadChunk _ _ w) as [rd w1] eqn:Hread.
  destruct (read_law _ _ _ _ _ Hread Hw) as (Hw1 & Hc1 & Hs1 & _).
  destruct rd as [[data src]|e]; [|by injection Hf as <- <-].
  destruct (_ <=? _); [by injection Hf as <- <-|].
  destruct (IH _ _ Hf Hw1) as (? & ? & ?). split_and!; [done|by etrans|by etrans].
Qed.

Lemma fetch_loop_spec full l shards w r w' :
  fetch_loop l shards w = (r, w') → sound w → Forall (survivor_of full) l → erasure full shards →
  collision ∨
  match r with
  | Err e => ∃ e', e = ReadSurvivor e'
  | Ok shards' => erasure full shards' ∧ (∀ i, shards !! i = full !! i → shards' !! i = full !! i) ∧
      ∀ s, s ∈ l → shards' !! sv_ShardIndex s = full !! sv_ShardIndex s
  end.
Proof.
  revert shards w. induction l as [|s l IH]; intros shards w Hf Hw Hl Her; cbn [fetch_loop] in Hf.
  { injection Hf as <- <-. right. split_and!; [done|done|]. by intros s ?%elem_of_nil. }
  apply Forall_cons in Hl as [(b & Hb & Hid) Hl].
  destruct (ReadChunk (sv_ChunkID s) [sv_Addr s] w) as [rd w1] eqn:Hread.
  destruct (read_law _ _ _ _ _ Hread Hw) as (Hw1 & _ & _ & Hok).
  destruct rd as [[data src]|e]; [|injection Hf as <- <-; eauto].
  destruct (Hok data src eq_refl) as (_ & _ & Hh).
  pose proof (Forall2_length _ _ _ Her) as Hlen. pose proof (lookup_lt_Some _ _ _ Hb) as Hlt.
  destruct (Nat.leb_spec (length shards) (sv_ShardIndex s)); [lia|].
  destruct (decide (data = b)) as [->|Hne]; [|left; exists data, b; split; [done|congruence]].
  destruct (IH _ _ Hf Hw1 Hl) as [?|Hr]; [|by left|right].
  { rewrite <- (list_insert_id full (sv_ShardIndex s) b) by done. apply Forall2_insert; [done|by left]. }
  destruct r as [shards'|e]; [|done]. destruct Hr as (H1 & H2 & H3).
  assert (∀ i, i = sv_ShardIndex s ∨ shards !! i = full !! i → shards' !! i = full !! i) as H4.
  { intros i Hi. apply H2. destruct (decide (i = sv_ShardIndex s)) as [->|Hn].
    - by rewrite list_lookup_insert_eq, Hb by lia.
    - rewrite list_lookup_insert_ne by done. by destruct Hi. }
  split_and!; [done|auto|]. intros s' [->|?]%elem_of_cons; [apply H4; by left|by apply H3].
Qed.

Lemma surv_from_in i l n s : l !! n = Some s → s ≠ [] → i + n ∈ surv_from i l.
Proof.
  revert i n. induction l as [|x l IH]; intros i n Hn Hs; [done|]. simpl. apply elem_of_app.
  destruct n as [|n]; simpl in Hn.
  - left. injection Hn as ->. destruct s; [done|]. rewrite Nat.add_0_r. by left.
  - right. replace (i + S n) with (i + 1 + n) by lia. by apply IH.
Qed.

(** Fetched survivors count as survivors of the erasure. *)
Lemma fetched_survive (idx : list nat) shards :
  NoDup idx → (∀ i, i ∈ idx → ∃ b, shards !! i = Some b ∧ b ≠ []) → length idx ≤ survivors shards.
Proof.
  intros Hnd Hin. apply submseteq_length, NoDup_submseteq; [done|].
  intros i Hi. destruct (Hin i Hi) as (b & Hb & Hne). by apply (surv_from_in 0 shards i b).
Qed.

Lemma write_parity k m (parity shards : list shard) :
  length shards = k + m →
  let shards' := for_range 0 m (λ shards i, <[k + i := parity !!! i]> shards) shards in
  ∀ i, shards' !! i = if decide (k ≤ i < k + m) then Some (parity !!! (i - k)) else shards !! i.
Proof.
  intros Hlen. cbv zeta.
  pose (P := λ n (l : list shard), length l = k + m ∧
    ∀ i, l !! i = if decide (k ≤ i < k + n) then Some (parity !!! (i - k)) else shards !! i).
  apply (for_range_0_ind P); unfold P.
  - split; [done|]. intros i. by rewrite decide_False by lia.
  - intros n l Hn [Hl Hi]. split; [by rewrite length_insert|]. intros i.
    destruct (decide (i = k + n)) as [->|Hne].
    + rewrite list_lookup_insert_eq, decide_True by lia. do 2 f_equal. lia.
    + rewrite list_lookup_insert_ne, Hi by done. repeat case_decide; try done; lia.
Qed.

(** The shards that [Encode] makes are non-empty and as many as the encoder says. *)
Lemma encoded_shards k m enc dataShards parity :
  NewEncoder k m = Ok enc → Encode enc dataShards = Ok parity →
  length dataShards = enc_k enc ∧ length parity = enc_m enc ∧
  enc_k enc = Z.to_nat k ∧ enc_m enc = Z.to_nat m ∧ (0 < k)%Z ∧
  ∀ i b, (dataShards ++ parity) !! i = Some b → b ≠ [].
Proof.
  intros Hnew Henc. pose proof (NewEncoder_inv _ _ _ Hnew) as (Hkm & Hk & Hm & Hmat).
  assert (enc_k enc ≠ 0) as Hk0 by lia.
  destruct (Encode_inv _ _ _ Henc Hk0) as (L & HL0 & Hdata).
  destruct (Encode_ok enc L dataShards (enc_shaped _ _ _ Hmat) Hdata Hk0 HL0) as (p & Hp & [Hpl _] & _).
  rewrite Henc in Hp. injection Hp as <-. split_and!; [apply Hdata|done|done|done|lia|].
  intros i b Hb. destruct (codeword_byte k m enc dataShards parity L Hnew Henc HL0 Hdata i b 0 Hb) as (Hl & _);
    [lia|]. intros ->. simpl in Hl. lia.
Qed.

Lemma decode_spec k m enc dataShards parity shards dead :
  NewEncoder k m = Ok enc → Encode enc dataShards = Ok parity →
  erasure (dataShards ++ parity) shards → enc_k enc ≤ survivors shards →
  ∃ full, decode enc (enc_k enc) (enc_m enc) dead shards = Ok full ∧
    ∀ d, d ∈ dead → full !! ds_ShardIndex d = (dataShards ++ parity) !! ds_ShardIndex d.
Proof.
  intros Hnew Henc Her Hsurv. destruct (encoded_shards _ _ _ _ _ Hnew Henc) as (Hdl & Hpl & _).
  destruct (Reconstruct_erasure _ _ _ _ _ _ Hnew Henc Her Hsurv) as (full & HR & Htake & Hdrop).
  unfold decode. rewrite HR.
  assert (∀ i, i < enc_k enc → full !! i = (dataShards ++ parity) !! i) as Hdata.
  { intros i Hi. rewrite lookup_app_l by lia. rewrite <- Htake, lookup_take, decide_True; done. }
  assert (length full = enc_k enc + enc_m enc) as Hfl.
  { pose proof (Forall2_length _ _ _ Her) as Hl. rewrite length_app in Hl.
    apply (f_equal length) in Htake, Hdrop. rewrite length_take in Htake. rewrite !length_drop in Hdrop. lia. }
  destruct (existsb _ _) eqn:Hex.
  - rewrite Htake, Henc. eexists. split; [done|]. intros d _. rewrite write_parity by done.
    case_decide as Hi; [|destruct (decide (ds_ShardIndex d < enc_k enc)); [by apply Hdata|]].
    + rewrite lookup_app_r, Hdl by lia. symmetry. apply list_lookup_lookup_total_lt. lia.
    + rewrite !(proj2 (lookup_ge_None _ _)); [done|rewrite length_app; lia|lia].
  - exists full. split; [done|]. intros d Hd. apply Hdata.
    destruct (Nat.ltb_spec (ds_ShardIndex d) (enc_k enc)) as [|Hge]; [done|].
    rewrite <- not_true_iff_false, existsb_exists in Hex. destruct Hex. exists d.
    split; [by apply list_elem_of_In|]. by apply Nat.leb_le.
Qed.

(** A stripe is rebuilt to what was written.  For shards that [Encode] made and
    metadata that names them by their hashes, rebuilding from any K readable survivors
    gives every dead shard, data or parity, its original bytes; it can only stop
    because a survivor could not be read, or exhibit a SHA-256 collision. *)
Theorem rebuild_original rep enc dataShards parity w r w' :
  NewEncoder (sr_K rep) (sr_M rep) = Ok enc → Encode enc dataShards = Ok parity →
  survivors_of (dataShards ++ parity) rep → (sr_K rep ≤ Z.of_nat (length (sr_Survivors rep)))%Z →
  sound w → rebuild rep w = (r, w') →
  collision ∨
  match r with
  | Err e => ∃ e', e = ReadSurvivor e'
  | Ok shards => ∀ d, d ∈ sr_DeadShards rep →
      shards !! ds_ShardIndex d = (dataShards ++ parity) !! ds_ShardIndex d
  end.
Proof.
  intros Hnew Henc [Hsv Hnd] Hlen Hw Hr. unfold rebuild in Hr. rewrite Hnew in Hr.
  destruct (encoded_shards _ _ _ _ _ Hnew Henc) as (_ & _ & Hk & Hm & Hpos & Hfull).
  pose proof (encoded_shards _ _ _ _ _ Hnew Henc) as (Hdl & Hpl & _).
  destruct (Z.ltb_spec (Z.of_nat (length (sr_Survivors rep))) (sr_K rep)); [lia|].
  rewrite <- Hk, <- Hm in Hr. set (sv := take (enc_k enc) (sr_Survivors rep)) in *.
  destruct (fetch_loop sv _ w) as [f w1] eqn:Hf. injection Hr as Hr ->.
  assert (erasure (dataShards ++ parity) (replicate (enc_k enc + enc_m enc) [])) as Her0.
  { apply Forall2_same_length_lookup. rewrite length_app, length_replicate. split; [lia|].
    intros i s t _ [-> _]%lookup_replicate. by right. }
  destruct (fetch_loop_spec _ _ _ _ _ _ Hf Hw (Forall_take _ _ _ Hsv) Her0) as [?|Hfr]; [by left|right].
  destruct f as [shards|e]; [|destruct Hfr as [e' ->]; simpl in Hr; subst r; eauto].
  destruct Hfr as (Her & _ & Hget). simpl in Hr.
  assert (enc_k enc ≤ survivors shards) as Hsurv.
  { assert (length (sv_ShardIndex <$> sv) = enc_k enc) as <-.
    { rewrite length_fmap. unfold sv. rewrite length_take. lia. }
    apply fetched_survive.
    - unfold sv. rewrite fmap_take. eapply sublist_NoDup; [exact Hnd|apply sublist_take].
    - intros i (s & -> & Hs)%list_elem_of_fmap. rewrite (Hget s Hs).
      assert (s ∈ sr_Survivors rep) as Hs' by (unfold sv in Hs; by eapply elem_of_take_weaken).
      rewrite Forall_forall in Hsv. destruct (Hsv s Hs') as (b & Hb & _). eauto. }
  destruct (decode_spec _ _ _ _ _ _ (sr_DeadShards rep) Hnew Henc Her Hsurv) as (full & Hd & Hdead).
  rewrite Hd in Hr. by subst r.
Qed.

(** ** Planning *)
(** A shard is live when its first address is one of the coordinator's nodes. *)
Definition live_shard (w : W) (c : ChunkRef) : Prop := ∃ a, head (Replicas c) = Some a ∧ a ∈ DNs w.

Lemma classify_spec live shi l sv dead :
  classify live shi l = (sv, dead) →
  (∀ i, i ∈ dead ↔ ∃ j c, i = shi + j ∧ l !! j = Some c ∧ ∀ a, head (Replicas c) = Some a → a ∉ live) ∧
  NoDup dead ∧
  (∀ s, s ∈ sv → ∃ j c, l !! j = Some c ∧ head (Replicas c) = Some (sv_Addr s) ∧ sv_Addr s ∈ live ∧
     sv_ShardIndex s = shi + j ∧ sv_ChunkID s = ChunkID c) ∧
  NoDup (sv_ShardIndex <$> sv).
Proof.
  revert shi sv dead. induction l as [|sh l IH]; intros shi sv dead Hc; cbn [classify] in Hc.
  { injection Hc as <- <-. split_and!; try constructor; try by intros ? ?%elem_of_nil.
    - by intros ?%elem_of_nil.
    - by intros (j & c & _ & ? & _). }
  destruct (classify live (S shi) l) as [sv1 dead1] eqn:Hl.
  destruct (IH _ _ _ Hl) as (H1 & H2 & H3 & H4).
  assert (∀ i, i ∈ dead1 → S shi ≤ i) as Hge1 by (intros i (j & c & -> & _)%H1; lia).
  assert (∀ i, i ∈ sv_ShardIndex <$> sv1 → S shi ≤ i) as Hge2.
  { intros i (s & -> & (j & c & _ & _ & _ & -> & _)%H3)%list_elem_of_fmap. lia. }
  assert (∀ s, s ∈ sv1 → ∃ j c, (sh :: l) !! j = Some c ∧ head (Replicas c) = Some (sv_Addr s) ∧
    sv_Addr s ∈ live ∧ sv_ShardIndex s = shi + j ∧ sv_ChunkID s = ChunkID c) as H3'.
  { intros s (j & c & ? & ? & ? & ? & ?)%H3. exists (S j), c. split_and!; first [done|lia]. }
  assert (∀ i, i ∈ dead1 ↔ ∃ j c, i = shi + S j ∧ l !! j = Some c ∧ ∀ a, head (Replicas c) = Some a → a ∉ live) as H1'.
  { intros i. rewrite H1. by setoid_rewrite Nat.add_succ_r. }
  destruct (Replicas sh) as [|addr rs] eqn:Hsh; [|case_bool_decide as Hin]; injection Hc as <- <-.
  1, 3: split_and!; [|constructor; [by intros ?%Hge1; lia|done]|done|done];
    intros i; rewrite elem_of_cons, H1'; split;
      [intros [->|(j & c & -> & ? & ?)]; [exists 0, sh; rewrite Hsh; simpl; split_and!; [lia|done|naive_solver]
        |by exists (S j), c]
      |intros ([|j] & c & -> & Hj & Hd); [left; lia|right; by exists j, c]].
  split_and!.
  - intros i. rewrite H1'. split; [intros (j & c & -> & ? & ?); by exists (S j), c|].
    intros ([|j] & c & -> & Hj & Hd); [|by exists j, c]. injection Hj as <-. rewrite Hsh in Hd. by destruct (Hd addr).
  - done.
  - intros s [->|Hs]%elem_of_cons; [|by apply H3']. exists 0, sh. rewrite Hsh. simpl. split_and!; first [done|lia].
  - simpl. constructor; [by intros ?%Hge2; lia|done].
Qed.

Lemma allocate_spec shards unused deadIdx :
  ∃ n, ds_NewAddr <$> allocate shards unused deadIdx = take n unused ∧
       ds_ShardIndex <$> allocate shards unused deadIdx = take n deadIdx ∧
       Forall (λ d, d = dead_at shards (ds_NewAddr d) (ds_ShardIndex d)) (allocate shards unused deadIdx).
Proof.
  revert deadIdx. induction unused as [|na unused IH]; intros deadIdx; [by exists 0|].
  destruct deadIdx as [|shi deadIdx]; [by exists 0|].
  destruct (IH deadIdx) as (n & H1 & H2 & H3). exists (S n). cbn [allocate fmap list_fmap]. simpl.
  rewrite H1, H2. split_and!; [done|done|by constructor].
Qed.

(** What a planned repair is, for stripe [si] of object [obj]. *)
Definition stripe_planned (w : W) (obj : ObjectMeta) (k m : Z) (si : nat) (stripe : Stripe) (rep : StripeRepair) : Prop :=
  ∃ sv dead, classify (list_to_set (DNs w)) 0 (Shards stripe) = (sv, dead) ∧ (k ≤ Z.of_nat (length sv))%Z ∧
    rep = MkStripeRepair (Bucket obj) (Key obj) si k m sv
            (allocate (Shards stripe) (unused_addrs stripe (k + m) sv w) dead).

Lemma plan_stripe_repairs obj k m w si stripe plan rep :
  rep ∈ Repairs (plan_stripe obj k m w si stripe plan) →
  rep ∈ Repairs plan ∨ stripe_planned w obj k m si stripe rep.
Proof.
  unfold plan_stripe. destruct (classify _ 0 (Shards stripe)) as [sv dead] eqn:Hc.
  destruct (length dead =? 0); [by left|]. destruct (Z.ltb_spec (Z.of_nat (length sv)) k); [by left|].
  destruct (0 <? _); [|by left]. cbn [Repairs]. intros [?| ->%list_elem_of_singleton]%elem_of_app; [by left|right].
  by exists sv, dead.
Qed.

Lemma plan_stripes_repairs obj k m w si l plan rep :
  rep ∈ Repairs (plan_stripes obj k m w si l plan) →
  rep ∈ Repairs plan ∨ ∃ i stripe, l !! i = Some stripe ∧ stripe_planned w obj k m (si + i) stripe rep.
Proof.
  revert si plan. induction l as [|stripe l IH]; intros si plan Hr; [by left|]. cbn [plan_stripes] in Hr.
  apply IH in Hr as [[?|?]%plan_stripe_repairs|(i & s & Hi & Hs)]; [by left| |].
  - right. exists 0, stripe. by rewrite Nat.add_0_r.
  - right. exists (S i), s. by rewrite Nat.add_succ_r.
Qed.

Lemma ComputePlan_repairs objs w plan rep :
  ComputePlan (Ok objs) w = Ok plan → rep ∈ Repairs plan →
  ∃ o ec si stripe, o ∈ objs ∧ EC o = Some ec ∧ Stripes o !! si = Some stripe ∧
    stripe_planned w o (ec_K ec) (ec_M ec) si stripe rep.
Proof.
  intros [= <-]. assert (∀ p, rep ∈ Repairs (foldl (plan_object w) p objs) →
    rep ∈ Repairs p ∨ ∃ o ec si stripe, o ∈ objs ∧ EC o = Some ec ∧ Stripes o !! si = Some stripe ∧
      stripe_planned w o (ec_K ec) (ec_M ec) si stripe rep) as H.
  { induction objs as [|o objs IH]; intros p Hr; [by left|]. cbn [foldl] in Hr.
    apply IH in Hr as [Hr|(o' & ec & si & s & ? & ?)].
    - unfold plan_object in Hr. destruct (negb (IsEC o)); [by left|].
      destruct (EC o) as [ec|] eqn:Hec; [|by left].
      apply plan_stripes_repairs in Hr as [?|(i & s & Hi & Hs)]; [by left|right].
      exists o, ec, i, s. split_and!; [by left|done..].
    - right. exists o', ec, si, s. split; [by right|done]. }
  intros Hr. by destruct (H _ Hr) as [?%elem_of_nil|?].
Qed.

(** The dead shards of a planned repair are shards of the metadata that are not live. *)
Definition planned (w : W) (db : DB) (rep : StripeRepair) : Prop :=
  ∀ d, d ∈ sr_DeadShards rep → ∃ c,
    shard_at db (sr_Bucket rep) (sr_Key rep) (sr_StripeIndex rep) (ds_ShardIndex d) = Some c ∧
    ChunkID c = ds_ChunkID d ∧ ¬ live_shard w c.

Lemma stripe_planned_dead w db o k m si stripe rep :
  GetObject db (Bucket o) (Key o) = Ok o → Stripes o !! si = Some stripe →
  stripe_planned w o k m si stripe rep → planned w db rep.
Proof.
  intros Hg Hs (sv & dead & Hc & _ & ->) d Hd. cbn [sr_Bucket sr_Key sr_StripeIndex sr_DeadShards] in *.
  destruct (allocate_spec (Shards stripe) (unused_addrs stripe (k + m) sv w) dead) as (n & _ & Hidx & Hall).
  rewrite Forall_forall in Hall. pose proof (Hall d Hd) as Ed.
  assert (ds_ShardIndex d ∈ dead) as Hin.
  { assert (ds_ShardIndex d ∈ take n dead) as H%elem_of_take_weaken by (rewrite <- Hidx; by apply list_elem_of_fmap_2).
    done. }
  destruct (classify_spec _ _ _ _ _ Hc) as (H1 & _). apply H1 in Hin as (j & c & Ej & Hj & Hdead).
  rewrite Nat.add_0_l in Ej. unfold shard_at. rewrite Hg, Hs. cbn [mbind option_bind].
  exists c. rewrite Ej. split; [done|]. rewrite Ed, Ej. unfold dead_at. cbn [ds_ChunkID].
  rewrite (list_lookup_total_correct _ _ _ Hj). split; [done|].
  intros (a & Ha & Hin). by apply (Hdead a Ha), elem_of_list_to_set.
Qed.

(** ** Running *)
(** Nothing but the shards at [pos] changed in the metadata. *)
Definition others_kept (pos : string → nat → nat → Prop) (db db' : DB) : Prop :=
  ∀ b k i j, ¬ pos (objKey b k) i j → shard_at db' b k i j = shard_at db b k i j.
Definition dead_pos (rep : StripeRepair) (dead : list DeadShard) (ok : string) (i j : nat) : Prop :=
  ok = objKey (sr_Bucket rep) (sr_Key rep) ∧ i = sr_StripeIndex rep ∧ j ∈ ds_ShardIndex <$> dead.

Lemma put_any_law force addr id b (w : W) r w' :
  (if force : bool then PutChunkToForce else PutChunkTo) addr id b w = (r, w') → sound w →
  sound w' ∧ same_config w w' ∧ keeps_chunks w w' ∧ (r = Ok () → is_Some (chunk_at w' addr id)).
Proof.
  intros Hp Hw. destruct force.
  - destruct (put_force_law _ _ _ _ _ _ Hp Hw) as (? & ? & Ho & Hk & Hok).
    split_and!; [done|done|by eapply changed_keeps|]. intros E0. by apply Hok.
  - destruct (put_law _ _ _ _ _ _ Hp Hw) as (? & ? & Ho & Hk & Hok).
    split_and!; [done|done|by eapply changed_keeps|]. intros E0. by apply Hok.
Qed.

Lemma put_loop_spec P rep dead shards n w db r n' w' db' :
  put_loop rep dead shards n (w, db) = (r, n', (w', db')) → sound w → backed_or P w db →
  (∀ d, d ∈ dead → names_shard db (sr_Bucket rep) (sr_Key rep) (sr_StripeIndex rep) (ds_ShardIndex d) (ds_ChunkID d)) →
  sound w' ∧ same_config w w' ∧ keeps_chunks w w' ∧ same_names db db' ∧ backed_or P w' db' ∧
  others_kept (dead_pos rep dead) db db' ∧
  (r = Ok () → NoDup (ds_ShardIndex <$> dead) → ∀ d, d ∈ dead →
     is_Some (chunk_at w' (ds_NewAddr d) (ds_ChunkID d)) ∧
     Replicas <$> shard_at db' (sr_Bucket rep) (sr_Key rep) (sr_StripeIndex rep) (ds_ShardIndex d)
       = Some [ds_NewAddr d]).
Proof.
  revert n w db. induction dead as [|d dead IH]; intros n w db Hp Hw Hb Hn; cbn [put_loop] in Hp.
  { injection Hp as <- <- <- <-. split_and!; try done. by intros _ _ d ?%elem_of_nil. }
  destruct (shards !! ds_ShardIndex d) as [data|]; [|by injection Hp as <- <- <- <-].
  destruct (length data =? 0); [by injection Hp as <- <- <- <-|].
  cbn [fst snd] in Hp. destruct ((if ds_Force d then _ else _) _ _ _ w) as [[[]|e] w1] eqn:Hput.
  all: destruct (put_any_law _ _ _ _ _ _ _ Hput Hw) as (Hw1 & Hc1 & Hk1 & Hok1).
  2:{ injection Hp as <- <- <- <-. split_and!; try done. by eapply backed_mono. }
  destruct (UpdateShardReplicas _ _ _ _ _ db) as [[[]|e] db1] eqn:Hupd.
  2:{ apply update_object_err in Hupd as ->. injection Hp as <- <- <- <-. split_and!; try done. by eapply backed_mono. }
  pose proof (UpdateShardReplicas_names _ _ _ _ _ _ _ Hupd) as Hn1.
  destruct (IH _ _ _ Hp Hw1) as (Hw' & Hc' & Hk' & Hn' & Hb' & Ho' & Hdone).
  { eapply UpdateShardReplicas_backed; [exact Hupd|apply Hn; by left| |by eapply backed_mono].
    intros a ->%list_elem_of_singleton. by apply Hok1. }
  { intros d' Hd'. eapply names_shard_mono; [exact Hn1|]. apply Hn. by right. }
  split_and!; [done|by etrans|by etrans|by etrans|done| |].
  - intros b k i j Hpos. rewrite Ho'.
    + rewrite (UpdateShardReplicas_at _ _ _ _ _ _ _ _ _ _ _ Hupd), decide_False; [done|].
      intros (? & ? & ?). apply Hpos. split_and!; [done|done|]. subst j. by left.
    + intros (? & ? & ?). apply Hpos. split_and!; [done|done|by right].
  - intros -> [Hnotin Hnd]%NoDup_cons d' [->|Hd']%elem_of_cons; [|by apply Hdone].
    split; [by apply Hk', Hok1|]. rewrite Ho' by (by intros (_ & _ & ?)).
    rewrite (UpdateShardReplicas_at _ _ _ _ _ _ _ _ _ _ _ Hupd), decide_True by done.
    apply UpdateShardReplicas_get in Hupd as (o & s & Hg & Hs & Hj & _). unfold shard_at. rewrite Hg, Hs.
    cbn [mbind option_bind]. by destruct (lookup_lt_is_Some_2 _ _ Hj) as [c ->].
Qed.

Lemma rebuild_frame rep w r w' :
  rebuild rep w = (r, w') → sound w → sound w' ∧ same_config w w' ∧ same_chunks w w'.
Proof.
  unfold rebuild. intros Hr Hw. destruct (NewEncoder _ _) as [enc|e]; [|by injection Hr as <- <-].
  destruct (_ <? _)%Z; [by injection Hr as <- <-|].
  destruct (fetch_loop _ _ w) as [f w1] eqn:Hf. injection Hr as _ <-. by eapply fetch_loop_frame.
Qed.

Lemma repairStripe_spec P rep w db r n w' db' :
  repairStripe rep (w, db) = (r, n, (w', db')) → sound w → backed_or P w db →
  (∀ d, d ∈ sr_DeadShards rep →
     names_shard db (sr_Bucket rep) (sr_Key rep) (sr_StripeIndex rep) (ds_ShardIndex d) (ds_ChunkID d)) →
  sound w' ∧ same_config w w' ∧ keeps_chunks w w' ∧ same_names db db' ∧ backed_or P w' db' ∧
  others_kept (dead_pos rep (sr_DeadShards rep)) db db' ∧
  (r = Ok () → NoDup (ds_ShardIndex <$> sr_DeadShards rep) → ∀ d, d ∈ sr_DeadShards rep →
     is_Some (chunk_at w' (ds_NewAddr d) (ds_ChunkID d)) ∧
     Replicas <$> shard_at db' (sr_Bucket rep) (sr_Key rep) (sr_StripeIndex rep) (ds_ShardIndex d)
       = Some [ds_NewAddr d]).
Proof.
  unfold repairStripe. intros Hr Hw Hb Hn. cbn [fst snd] in Hr.
  destruct (rebuild rep w) as [rb w1] eqn:Hreb.
  destruct (rebuild_frame _ _ _ _ Hreb Hw) as (Hw1 & Hc1 & Hs1%same_chunks_keeps).
  destruct rb as [shards|e].
  - destruct (put_loop_spec P _ _ _ _ _ _ _ _ _ _ Hr Hw1) as (? & ? & ? & ? & ? & ? & ?);
      [by eapply backed_mono|done|]. split_and!; [done|by etrans|by etrans|done..].
  - injection Hr as <- <- <- <-. split_and!; try done. by eapply backed_mono.
Qed.

(** The shards of [db0] that were live are listed as they were. *)
Definition live_kept (w0 : W) (db0 db : DB) : Prop :=
  ∀ b k i j c, shard_at db0 b k i j = Some c → live_shard w0 c → shard_at db b k i j = Some c.

Lemma run_spec w0 db0 l stats w db stats' w' db' :
  foldl run_one (stats, (w, db)) l = (stats', (w', db')) → sound w →
  Forall (planned w0 db0) l → same_names db0 db → live_kept w0 db0 db → backed_or (listed db0) w db →
  keeps_chunks w w' ∧ same_names db db' ∧ backed_or (listed db0) w' db' ∧ live_kept w0 db0 db' ∧
  rp_Stripes stats' = rp_Stripes stats + length l ∧
  Repaired stats' + rp_Failed stats' = Repaired stats + rp_Failed stats + length l.
Proof.
  revert stats w db. induction l as [|rep l IH]; intros stats w db Hr Hw Hp Hn Hl Hb; cbn [foldl] in Hr.
  { injection Hr as <- <- <-. split_and!; first [done|simpl; lia]. }
  apply Forall_cons in Hp as [Hrep Hp]. unfold run_one at 2 in Hr.
  destruct (repairStripe rep (w, db)) as [[r n] [w1 db1]] eqn:Hs.
  destruct (repairStripe_spec (listed db0) _ _ _ _ _ _ _ Hs Hw Hb) as (Hw1 & _ & Hk1 & Hn1 & Hb1 & Ho1 & _).
  { intros d Hd. destruct (Hrep d Hd) as (c & Hc & <- & _).
    eapply names_shard_mono; [exact Hn|]. by apply shard_at_names. }
  destruct (IH _ _ _ Hr Hw1 Hp) as (Hk' & Hn' & Hb' & Hl' & Hc1 & Hc2); [by etrans| |done|].
  { intros b k i j c Hc Hlive. rewrite Ho1; [by apply Hl|].
    intros (Hok & -> & (d & -> & Hd)%list_elem_of_fmap). destruct (Hrep d Hd) as (c' & Hc' & _ & Hdead).
    rewrite <- (shard_at_key _ _ _ b k) in Hc' by done. rewrite Hc in Hc'. by injection Hc' as <-. }
  split_and!; [by etrans|by etrans|done|done|..]; rewrite ?Hc1, ?Hc2; destruct r; simpl; lia.
Qed.

(** Repair never makes things worse: after running a plan, in whatever order and
    whatever reads, writes or updates fail, no node has lost a chunk, no object's list
    of shards has changed, a shard whose first address was live is listed exactly as
    before, and every address the metadata now lists was listed before or holds the
    shard. *)
Theorem repair_is_safe w db objs plan stats w' db' :
  (∀ l, sched l ≡ₚ l) → db_ok db → sound w →
  ListObjects db = Ok objs → ComputePlan (Ok objs) w = Ok plan →
  Run plan (w, db) = (stats, (w', db')) →
  keeps_chunks w w' ∧ same_names db db' ∧ live_kept w db db' ∧ backed_or (listed db) w' db' ∧
  rp_Stripes stats = length (Repairs plan) ∧ Repaired stats + rp_Failed stats = rp_Stripes stats.
Proof.
  intros Hsched Hok Hw Hl Hp Hr.
  assert (Forall (planned w db) (sched (Repairs plan))) as Hplanned.
  { rewrite Hsched. apply Forall_forall. intros rep Hrep.
    destruct (ComputePlan_repairs _ _ _ _ Hp Hrep) as (o & ec & si & stripe & Ho & _ & Hs & Hsp).
    eapply stripe_planned_dead; [by eapply ListObjects_get|done|done]. }
  destruct (run_spec w db _ _ _ _ _ _ _ Hr Hw Hplanned) as (H1 & H2 & H3 & H4 & H5 & H6);
    [done|by intros b k i j c|apply listed_backed|].
  simpl in H5, H6. rewrite H5, H6, Hsched. by split_and!.
Qed.

(** A planned stripe that is repaired is whole again: every shard handed a new address
    is listed there and held there; the new addresses are distinct desired nodes
    that hold no survivor of the stripe. *)
Theorem repaired_stripe_restored w0 db0 objs plan rep w db r n w' db' :
  db_ok db0 → ListObjects db0 = Ok objs → same_names db0 db → ComputePlan (Ok objs) w0 = Ok plan → rep ∈ Repairs plan →
  (∀ key n, NoDup (PlaceN key n w0)) →
  sound w → repairStripe rep (w, db) = (Ok r, n, (w', db')) →
  (∀ d, d ∈ sr_DeadShards rep →
     is_Some (chunk_at w' (ds_NewAddr d) (ds_ChunkID d)) ∧
     Replicas <$> shard_at db' (sr_Bucket rep) (sr_Key rep) (sr_StripeIndex rep) (ds_ShardIndex d)
       = Some [ds_NewAddr d]) ∧
  NoDup (ds_NewAddr <$> sr_DeadShards rep) ∧
  (∀ d s, d ∈ sr_DeadShards rep → s ∈ sr_Survivors rep → ds_NewAddr d ≠ sv_Addr s).
Proof.
  intros Hok Hl Hn Hp Hrep Hplace Hw Hr. destruct r.
  destruct (ComputePlan_repairs _ _ _ _ Hp Hrep) as (o & ec & si & stripe & Ho & _ & Hs & Hsp).
  pose proof (stripe_planned_dead _ _ _ _ _ _ _ _ (ListObjects_get _ _ _ Hok Hl Ho) Hs Hsp) as Hplanned.
  destruct Hsp as (sv & dead & Hc & _ & ->).
  cbn [sr_DeadShards sr_Survivors] in *.
  destruct (allocate_spec (Shards stripe) (unused_addrs stripe (ec_K ec + ec_M ec) sv w0) dead)
    as (m & Hna & Hidx & _).
  assert (NoDup (unused_addrs stripe (ec_K ec + ec_M ec) sv w0)) as Hund.
  { unfold unused_addrs. rewrite sort_strings_Permutation. by apply NoDup_filter. }
  destruct (repairStripe_spec (listed db) _ _ _ _ _ _ _ Hr Hw (listed_backed w db)) as (_ & _ & _ & _ & _ & _ & Hdone).
  { intros d Hd. destruct (Hplanned d Hd) as (c & Hat & <- & _).
    eapply names_shard_mono; [exact Hn|]. by apply shard_at_names. }
  split; [|split].
  - intros d Hd. apply Hdone; [done| |done]. cbn [sr_DeadShards]. rewrite Hidx.
    eapply sublist_NoDup; [|apply sublist_take]. by destruct (classify_spec _ _ _ _ _ Hc) as (_ & ? & _).
  - rewrite Hna. eapply sublist_NoDup; [exact Hund|apply sublist_take].
  - intros d s Hd Hsv Eq. assert (ds_NewAddr d ∈ take m (unused_addrs stripe (ec_K ec + ec_M ec) sv w0)) as H.
    { rewrite <- Hna. by apply list_elem_of_fmap_2. }
    apply elem_of_take_weaken in H. unfold unused_addrs in H.
    rewrite elem_of_sort_strings, list_elem_of_filter, elem_of_list_to_set in H. destruct H as [H _].
    apply H. rewrite Eq. by apply list_elem_of_fmap_2.
Qed.
End repair.

(** A stripe with more dead shards than unused addresses is repaired in part, and counted as
    repaired. *)
Lemma partial_repair_is_planned shards na i j :
  allocate shards [na] [i; j] = [dead_at shards na i].
Proof. reflexivity. Qed.

(** ** Witnesses: a (1,1) stripe whose parity was on a node that is gone *)
#[local] Opaque sha256_hex w_id.
Definition w_stripe : Stripe := MkStripe "s1" [MkChunkRef w_id 4 ["h1:80"]; MkChunkRef w_id 4 ["h0:80"]] 4.
Definition w_rp_obj : ObjectMeta :=
  MkObjectMeta "photos" "cat.jpg" 4 "" "" [] (Some (MkECParams 1 1 4 4)) [w_stripe] 0 0 "" "" [].
Definition w_rp_stored : ObjectMeta := with_created (with_version w_rp_obj 1) 9.
Definition w_rp_db : mdb := (putObjectInternal w_rp_obj 9 db0).2.
Definition w_rp_coord : Coordinator.Coordinator :=
  MkCoordinator (Placement.New [MkNode "dn1" "h1:80" ""; MkNode "dn2" "h2:80" ""]) 1 1 10000000000 "http".
Definition w_rp_cluster : Cluster :=
  MkCluster w_rp_coord {["h1:80" := w_stored; "h2:80" := MkServer "dn2" ∅ 0 0]} 0.
Definition w_rp_laws : @ChunkServiceLaws coord_error Cluster (cluster_service w_net) :=
  cluster_laws w_net id (λ _, eq_refl).
Definition w_rep : StripeRepair :=
  MkStripeRepair "photos" "cat.jpg" 0 1 1 [MkSurvivor 0 w_id "h1:80"] [MkDead 1 w_id "h0:80" "h2:80" 4 false].

Lemma w_rp_db_ok : db_ok w_rp_db.
Proof.
  unfold w_rp_db, db0. rewrite <- !outcome_snd. apply putObject_ok, createBucket_ok, empty_db_ok.
Qed.
Lemma w_rp_sound : cluster_sound w_rp_cluster.
Proof.
  intros a s Hs. unfold w_rp_cluster in Hs. cbn [dns] in Hs.
  apply lookup_insert_Some in Hs as [[<- <-]|[_ [<- <-]%lookup_singleton_Some]].
  - unfold w_stored. cbn [disk]. apply singleton_addressed, w_id_spec.
  - apply empty_addressed.
Qed.

Lemma w_place : coord_PlaceN "s1" 2 w_rp_coord = ["h2:80"; "h1:80"]%string.
Proof. vm_compute. reflexivity. Qed.

Lemma w_rp_plan :
  ComputePlan (HC := cluster_service w_net) (Ok [w_rp_stored]) w_rp_cluster = Ok (MkPlan 1 [w_rep] []).
Proof.
  unfold ComputePlan, plan_object, w_rp_stored. cbn [rbind foldl IsEC EC Stripes w_rp_obj with_created with_version
    plan_stripes negb length Nat.eqb]. unfold plan_stripe, unused_addrs.
  change (PlaceN (StripeID w_stripe) (ec_K (MkECParams 1 1 4 4) + ec_M (MkECParams 1 1 4 4)) w_rp_cluster)
    with (coord_PlaceN "s1" 2 w_rp_coord). rewrite w_place. reflexivity.
Qed.
Lemma w_rp_objects : ListObjects w_rp_db = Ok [w_rp_stored].
Proof. reflexivity. Qed.

Lemma repair_is_safe_witness :
  ∃ (stats : @RunStats coord_error) w' db', Run (HC := cluster_service w_net) id (MkPlan 1 [w_rep] [])
      (w_rp_cluster, w_rp_db) = (stats, (w', db')) ∧
    same_names w_rp_db db' ∧ Repaired stats + rp_Failed stats = 1.
Proof.
  destruct (Run (HC := cluster_service w_net) id (MkPlan 1 [w_rep] []) (w_rp_cluster, w_rp_db))
    as [stats [w' db']] eqn:Hrun.
  destruct (repair_is_safe (HL := w_rp_laws) id w_rp_cluster w_rp_db [w_rp_stored] (MkPlan 1 [w_rep] []) stats w' db'
    (λ l, Permutation_refl l) w_rp_db_ok w_rp_sound w_rp_objects w_rp_plan Hrun)
    as (_ & Hn & _ & _ & H1 & H2).
  exists stats, w', db'. rewrite H1 in H2. exact (conj eq_refl (conj Hn H2)).
Defined.

Definition w_enc11 : Encoder :=
  Eval vm_compute in match NewEncoder 1 1 with Ok e => e | Err _ => MkEncoder 0 0 (newMatrix 0 0) end.
Lemma w_new11 : NewEncoder 1 1 = Ok w_enc11.
Proof. vm_compute. reflexivity. Qed.
Lemma w_encode11 : Encode w_enc11 [w_body] = Ok [w_body].
Proof. vm_compute. reflexivity. Qed.
Lemma w_survivors : survivors_of ([w_body] ++ [w_body]) w_rep.
Proof.
  split; [|apply NoDup_singleton]. apply Forall_singleton. exists w_body.
  split; [reflexivity|]. symmetry. apply w_id_spec.
Qed.

Lemma w_rebuild : ∃ w', rebuild (HC := cluster_service w_net) w_rep w_rp_cluster = (Ok [w_body; w_body], w') ∧
  dns w' = dns w_rp_cluster.
Proof.
  destruct (w_read_one w_rp_cluster "h1:80" w_stored) as (w1 & Hr & Hd);
    [apply lookup_insert_eq|apply lookup_singleton_eq|].
  exists w1. split; [|exact Hd]. unfold rebuild. cbn [sr_K sr_M sr_Survivors sr_DeadShards w_rep].
  rewrite w_new11. cbn [length Z.of_nat Z.ltb Z.compare Pos.compare].
  change (take (Z.to_nat 1) [MkSurvivor 0 w_id "h1:80"]) with [MkSurvivor 0 w_id "h1:80"].
  cbn [fetch_loop sv_ChunkID sv_Addr]. cbn [ReadChunk cluster_service]. rewrite Hr.
  f_equal.
Qed.

Lemma rebuild_original_witness :
  ∃ shards w', rebuild (HC := cluster_service w_net) w_rep w_rp_cluster = (Ok shards, w') ∧
    (collision ∨ ∀ d, d ∈ sr_DeadShards w_rep → shards !! ds_ShardIndex d = ([w_body] ++ [w_body]) !! ds_ShardIndex d).
Proof.
  destruct w_rebuild as (w' & Hr & _). exists [w_body; w_body], w'. split; [exact Hr|].
  exact (rebuild_original (HL := w_rp_laws) w_rep w_enc11 [w_body] [w_body] w_rp_cluster _ w'
    w_new11 w_encode11 w_survivors (Z.le_refl 1) w_rp_sound Hr).
Defined.

Lemma w_repair : ∃ n w' db', repairStripe (HC := cluster_service w_net) w_rep (w_rp_cluster, w_rp_db) =
  (Ok (), n, (w', db')).
Proof.
  destruct w_rebuild as (w1 & Hr & Hd). unfold repairStripe. cbn [fst snd]. rewrite Hr.
  destruct (w_put_one w1 "h2:80" (MkServer "dn2" ∅ 0 0)) as (w2 & Hw).
  { rewrite Hd. unfold w_rp_cluster. cbn [dns]. rewrite lookup_insert_ne by done. apply lookup_singleton_eq. }
  { apply lookup_empty. }
  cbn [put_loop sr_DeadShards w_rep ds_ShardIndex lookup list_lookup length Nat.eqb ds_Force ds_NewAddr ds_ChunkID
    w_body PutChunkTo cluster_service fst snd].
  fold w_body. rewrite Hw. eexists _, _, _. reflexivity.
Qed.
Lemma repaired_stripe_restored_witness :
  ∃ n w' db', repairStripe (HC := cluster_service w_net) w_rep (w_rp_cluster, w_rp_db) = (Ok (), n, (w', db')) ∧
    Replicas <$> shard_at db' "photos" "cat.jpg" 0 1 = Some ["h2:80"].
Proof.
  destruct w_repair as (n & w' & db' & Hr). exists n, w', db'. split; [exact Hr|].
  refine (proj2 (proj1 (repaired_stripe_restored (HL := w_rp_laws) w_rp_cluster w_rp_db [w_rp_stored]
    (MkPlan 1 [w_rep] []) w_rep w_rp_cluster w_rp_db () n w' db'
    w_rp_db_ok w_rp_objects (reflexivity _) w_rp_plan (list_elem_of_here _ _) _ w_rp_sound Hr)
    (MkDead 1 w_id "h0:80" "h2:80" 4 false) (list_elem_of_here _ _))).
  intros key m. apply (PlaceN_spec key m w_rp_coord); apply NoDup_cons; (split; [|apply NoDup_singleton]);
    intros H; apply list_elem_of_singleton in H; discriminate H.
Defined.
