(* ===== verification/AutoRepair.v ===== *)
(** * Anti-entropy: the repair of internal/coord/anti_entropy.go

    The audit of AntiEntropy.v turned into work.  Copies of replicated chunks run on a
    pool of workers: [pass_step] is one move of one worker, so every interleaving of
    the throttle check, the copy and the count is a run.  Stripes run after it through
    repair.Run (Repair.v), one at a time in the order [sched]. *)
From S2P Require Import Prelude GF Matrix ReedSolomon GoLib Placement Kv Meta Store StoreProps DataNode.
From S2P Require Import Merkle AntiEntropy Transport Coordinator Replicas Repair.
From Stdlib Require Import Strings.Byte.

Record AntiEntropyRepairOpts : Type := MkOpts
  { o_Corrupt : bool; o_DryRun : bool; o_EC : bool; o_MaxRepairs : Z; o_Concurrency : nat }.
Inductive repair_mode : Type :=
  | repairModeReplication | repairModeECDeferred | repairModeECInline | repairModeECSummary
  | repairModeThrottled | repairModeNoSource | repairModeSkip.
Inductive repair_reason : Type := repairReasonMissing | repairReasonCorrupt | reasonECStats.
#[export] Instance repair_mode_eq : EqDecision repair_mode.
Proof. solve_decision. Defined.
#[export] Instance repair_reason_eq : EqDecision repair_reason.
Proof. solve_decision. Defined.

Record ChunkRepairOutcome : Type := MkOutcome
  { TargetDN : string; oc_ChunkID : string; SourceDN : string; Mode : repair_mode; Reason : repair_reason;
    oc_OK : bool; Planned : bool; oc_Err : bool }.
Record job : Type := MkJob { j_target : string; j_chunkID : string; j_reason : repair_reason }.

(** ** What the pass knows, built once before it starts *)
Record view : Type := MkView
  { chunkOwners : gmap string (list string); ecChunks : gset string;
    dnHas : gmap string (gset string); corruptByDN : gmap string (list string) }.

Definition add_owner (m : gmap string (list string)) (c : ChunkRef) : gmap string (list string) :=
  <[ChunkID c := default [] (m !! ChunkID c) ++ Replicas c]> m.
Definition owners_of (objs : list ObjectMeta) : gmap string (list string) :=
  foldl (λ m o, foldl (λ m st, foldl add_owner m (Shards st)) (foldl add_owner m (Chunks o)) (Stripes o)) ∅ objs.
Definition ec_chunks (objs : list ObjectMeta) : gset string :=
  list_to_set (objs ≫= λ o, Stripes o ≫= λ st, ChunkID <$> Shards st).
Definition dn_missing (audit : list DNAuditEntry) : gmap string (gset string) :=
  foldl (λ m e, if Reachable e then <[DN e := list_to_set (MissingFromDN e)]> m else m) ∅ audit.
Definition collectCorruptByDN (ask : string → dn_answers) (audit : list DNAuditEntry) : gmap string (list string) :=
  foldl (λ m e, if Reachable e then
                  match a_corrupt (ask (DN e)) with Some ids => <[DN e := ids]> m | None => m end
                else m) ∅ audit.
Definition hasCorrupt (l : list string) (id : string) : bool := existsb (λ c, bool_decide (c = id)) l.
Definition corrupt_at (v : view) (dn id : string) : bool := hasCorrupt (default [] (corruptByDN v !! dn)) id.
Definition make_view (ask : string → dn_answers) (opts : AntiEntropyRepairOpts) (audit : list DNAuditEntry)
    (objs : list ObjectMeta) : view :=
  MkView (owners_of objs) (ec_chunks objs) (dn_missing audit)
    (if o_Corrupt opts then collectCorruptByDN ask audit else ∅).

(** ** Stripes to rebuild, one entry per (bucket, key, index) *)
Notation ecKey := (string * string * nat)%type.
Definition ec_shard (opts : AntiEntropyRepairOpts) (v : view) (rep : StripeRepair) (shi : nat) (sh : ChunkRef)
    : StripeRepair :=
  match Replicas sh with
  | [] => rep
  | addr :: _ =>
      let add_dead force := MkStripeRepair (sr_Bucket rep) (sr_Key rep) (sr_StripeIndex rep) (sr_K rep) (sr_M rep)
        (sr_Survivors rep) (sr_DeadShards rep ++ [MkDead shi (ChunkID sh) addr addr (cr_Size sh) force]) in
      let missingHere := match dnHas v !! addr with Some gone => bool_decide (ChunkID sh ∈ gone) | None => false end in
      let corruptHere := o_Corrupt opts && corrupt_at v addr (ChunkID sh) in
      if missingHere then add_dead false
      else if corruptHere then add_dead true
      else match dnHas v !! addr with
           | None => rep
           | Some _ =>
               if corrupt_at v addr (ChunkID sh) then rep
               else MkStripeRepair (sr_Bucket rep) (sr_Key rep) (sr_StripeIndex rep) (sr_K rep) (sr_M rep)
                      (sr_Survivors rep ++ [MkSurvivor shi (ChunkID sh) addr]) (sr_DeadShards rep)
           end
  end.
Fixpoint ec_shards (opts : AntiEntropyRepairOpts) (v : view) (rep : StripeRepair) (shi : nat) (l : list ChunkRef)
    : StripeRepair :=
  match l with [] => rep | sh :: l => ec_shards opts v (ec_shard opts v rep shi sh) (S shi) l end.

Fixpoint ec_stripes (opts : AntiEntropyRepairOpts) (v : view) (o : ObjectMeta) (k m : Z) (si : nat) (l : list Stripe)
    (plan : gmap ecKey StripeRepair) : gmap ecKey StripeRepair :=
  match l with
  | [] => plan
  | st :: l =>
      let rep := ec_shards opts v (MkStripeRepair (Bucket o) (Key o) si k m [] []) 0 (Shards st) in
      ec_stripes opts v o k m (S si) l
        (if 0 <? length (sr_DeadShards rep) then <[(Bucket o, Key o, si) := rep]> plan else plan)
  end.
Definition ec_object (opts : AntiEntropyRepairOpts) (v : view) (plan : gmap ecKey StripeRepair) (o : ObjectMeta)
    : gmap ecKey StripeRepair :=
  match EC o with
  | Some ec => if IsEC o then ec_stripes opts v o (ec_K ec) (ec_M ec) 0 (Stripes o) plan else plan
  | None => plan (* not with IsEC *)
  end.
Definition ec_plan (opts : AntiEntropyRepairOpts) (v : view) (objs : list ObjectMeta) : gmap ecKey StripeRepair :=
  if o_EC opts then foldl (ec_object opts v) ∅ objs else ∅.

Definition ecKey_le (a b : ecKey) : bool :=
  if negb (bool_decide (a.1.1 = b.1.1)) then str_lt a.1.1 b.1.1
  else if negb (bool_decide (a.1.2 = b.1.2)) then str_lt a.1.2 b.1.2
  else a.2 <=? b.2.

(** ** Jobs of the replication pass *)
Definition skip_row (e : DNAuditEntry) (id : string) : ChunkRepairOutcome :=
  MkOutcome (DN e) id "" repairModeSkip repairReasonMissing false false true.
Definition entry_jobs (v : view) (e : DNAuditEntry) : list job :=
  ((λ id, MkJob (DN e) id repairReasonMissing) <$> MissingFromDN e) ++
  ((λ id, MkJob (DN e) id repairReasonCorrupt) <$> default [] (corruptByDN v !! DN e)).
Definition collect_jobs (v : view) (audit : list DNAuditEntry) : list job * list ChunkRepairOutcome :=
  foldl (λ '(jobs, skipped) e,
    if negb (Reachable e) then (jobs, skipped ++ (skip_row e <$> MissingFromDN e))
    else (jobs ++ entry_jobs v e, skipped)) ([], []) audit.

(** ** One job *)
Definition healthy_owner (v : view) (target id owner : string) : bool :=
  negb (bool_decide (owner = target)) &&
  match dnHas v !! owner with
  | None => false
  | Some gone => negb (bool_decide (id ∈ gone)) && negb (corrupt_at v owner id)
  end.
(** The loop leaves [srcDN] at the first healthy owner, and "" if there is none. *)
Definition pick_source (v : view) (j : job) : string :=
  default "" (head (filter (λ o, healthy_owner v (j_target j) (j_chunkID j) o) (default [] (chunkOwners v !! j_chunkID j)))).

Inductive decision : Type :=
  | Skipped (oc : ChunkRepairOutcome) | Reported (oc : ChunkRepairOutcome) | CopyFrom (src : string).
Definition throttled (opts : AntiEntropyRepairOpts) (successCount : Z) : bool :=
  (0 <? o_MaxRepairs opts)%Z && (o_MaxRepairs opts <=? successCount)%Z.
Definition decide_job (opts : AntiEntropyRepairOpts) (v : view) (successCount : Z) (j : job) : decision :=
  let row src mode planned err := MkOutcome (j_target j) (j_chunkID j) src mode (j_reason j) false planned err in
  if throttled opts successCount then Skipped (row "" repairModeThrottled false true)
  else if bool_decide (j_chunkID j ∈ ecChunks v) then
    if negb (o_EC opts) then Skipped (row "" repairModeECDeferred false true)
    else Reported (row "" repairModeECInline (o_DryRun opts) false)
  else
    let srcDN := pick_source v j in
    if bool_decide (srcDN = "") then Skipped (row "" repairModeNoSource false true)
    else if o_DryRun opts then Reported (row srcDN repairModeReplication true false)
    else CopyFrom srcDN.

Section autorepair.
Context {E W : Type} {HC : ChunkService E W}.
Context {M : Type → Type} {KVM : KV M}.
Notation DB := (@DB M).

Definition copyChunk (src : string) (j : job) (w : W) : ChunkRepairOutcome * W :=
  let row ok := MkOutcome (j_target j) (j_chunkID j) src repairModeReplication (j_reason j) ok false (negb ok) in
  match ReadChunk (j_chunkID j) [src] w with
  | (Err _, w) => (row false, w)
  | (Ok (body, _), w) =>
      let put := if bool_decide (j_reason j = repairReasonCorrupt) then PutChunkToForce else PutChunkTo in
      match put (j_target j) (j_chunkID j) body w with
      | (Err _, w) => (row false, w)
      | (Ok _, w) => (row true, w)
      end
  end.

(** ** The pool: a job waits, is dispatched, and then decided or copied *)
Record pass : Type := MkPass
  { pending : list job; workers : list (job * option string); successCount : Z;
    p_Repairs : list ChunkRepairOutcome; p_Skipped : list ChunkRepairOutcome; p_world : W }.

Inductive pass_step (opts : AntiEntropyRepairOpts) (v : view) (conc : nat) : pass → pass → Prop :=
  | st_dispatch j js ws n r s w :
      length ws < conc →
      pass_step opts v conc (MkPass (j :: js) ws n r s w) (MkPass js (ws ++ [(j, None)]) n r s w)
  | st_skip j js l1 l2 n r s w oc :
      decide_job opts v n j = Skipped oc →
      pass_step opts v conc (MkPass js (l1 ++ (j, None) :: l2) n r s w) (MkPass js (l1 ++ l2) n r (s ++ [oc]) w)
  | st_report j js l1 l2 n r s w oc :
      decide_job opts v n j = Reported oc →
      pass_step opts v conc (MkPass js (l1 ++ (j, None) :: l2) n r s w) (MkPass js (l1 ++ l2) n (r ++ [oc]) s w)
  | st_start j js l1 l2 n r s w src :
      decide_job opts v n j = CopyFrom src →
      pass_step opts v conc (MkPass js (l1 ++ (j, None) :: l2) n r s w) (MkPass js (l1 ++ (j, Some src) :: l2) n r s w)
  | st_copy j js l1 l2 src n r s w oc w' :
      copyChunk src j w = (oc, w') →
      pass_step opts v conc (MkPass js (l1 ++ (j, Some src) :: l2) n r s w)
        (MkPass js (l1 ++ l2) (if oc_OK oc then n + 1 else n)%Z (r ++ [oc]) s w').

Definition pass_start (jobs : list job) (skipped : list ChunkRepairOutcome) (w : W) : pass :=
  MkPass jobs [] 0 [] skipped w.
Definition pass_done (p : pass) : Prop := pending p = [] ∧ workers p = [].
Definition pool_size (opts : AntiEntropyRepairOpts) (jobs : list job) : nat :=
  let repConc := if o_Concurrency opts <? 1 then 1 else o_Concurrency opts in
  if (length jobs <? repConc) && (0 <? length jobs) then length jobs else repConc.

(** ** The stripes *)
Definition mark_rows (idx : gmap string nat) (f : ChunkRepairOutcome → ChunkRepairOutcome) (dead : list DeadShard)
    (rows : list ChunkRepairOutcome) : list ChunkRepairOutcome :=
  foldl (λ rows d, match idx !! ds_ChunkID d with Some i => alter f i rows | None => rows end) rows dead.
Definition as_throttled (oc : ChunkRepairOutcome) : ChunkRepairOutcome :=
  MkOutcome (TargetDN oc) (oc_ChunkID oc) (SourceDN oc) repairModeThrottled (Reason oc) (oc_OK oc) (Planned oc) true.
Definition as_ok (oc : ChunkRepairOutcome) : ChunkRepairOutcome :=
  MkOutcome (TargetDN oc) (oc_ChunkID oc) (SourceDN oc) (Mode oc) (Reason oc) true (Planned oc) (oc_Err oc).
Definition as_failed (errs : nat) (oc : ChunkRepairOutcome) : ChunkRepairOutcome :=
  MkOutcome (TargetDN oc) (oc_ChunkID oc) (SourceDN oc) (Mode oc) (Reason oc) (oc_OK oc) (Planned oc) (0 <? errs).

Definition outcome_idx (rows : list ChunkRepairOutcome) : gmap string nat :=
  foldl (λ m p, if bool_decide (Mode p.2 = repairModeECInline) then <[oc_ChunkID p.2 := p.1]> m else m) ∅
    (zip (seq 0 (length rows)) rows).

Definition ec_budget (opts : AntiEntropyRepairOpts) (success : Z) : Z :=
  if (0 <? o_MaxRepairs opts)%Z then Z.max 0 (o_MaxRepairs opts - success) else (-1)%Z.
(** The stripes within the budget, and the rows with the others throttled. *)
Definition partition_step (budget : Z) (idx : gmap string nat) (st : list StripeRepair * list ChunkRepairOutcome)
    (kr : ecKey * StripeRepair) : list StripeRepair * list ChunkRepairOutcome :=
  if (budget =? 0)%Z || (0 <? budget)%Z && (budget <=? Z.of_nat (length st.1))%Z
  then (st.1, mark_rows idx as_throttled (sr_DeadShards kr.2) st.2)
  else (st.1 ++ [kr.2], st.2).
Definition partition_ec (budget : Z) (idx : gmap string nat) (plan : list (ecKey * StripeRepair))
    (rows : list ChunkRepairOutcome) : list StripeRepair * list ChunkRepairOutcome :=
  foldl (partition_step budget idx) ([], rows) plan.

Record ec_state : Type := MkEC
  { e_success : Z; e_attempted : nat; e_repaired : nat; e_failed : nat; e_bytes : Z; e_errors : nat;
    e_rows : list ChunkRepairOutcome; e_wd : W * DB }.
Definition ec_run_one (idx : gmap string nat) (st : ec_state) (rep : StripeRepair) : ec_state :=
  let '(stats, wd) := Run id (MkPlan 0 [rep] []) (e_wd st) in
  let errs := length (rp_Errors stats) in
  let ok := (Repaired stats =? 1) && (errs =? 0) in
  MkEC (if ok then e_success st + 1 else e_success st)%Z (S (e_attempted st)) (e_repaired st + Repaired stats)
    (e_failed st + rp_Failed stats) (i64 (e_bytes st + BytesWritten stats)) (e_errors st + errs)
    (mark_rows idx (if ok then as_ok else as_failed errs) (sr_DeadShards rep) (e_rows st)) wd.

Context (sched : list StripeRepair → list StripeRepair).
Definition ec_pass (opts : AntiEntropyRepairOpts) (plan : gmap ecKey StripeRepair) (success : Z)
    (rows : list ChunkRepairOutcome) (wd : W * DB) : Z * list ChunkRepairOutcome * (W * DB) :=
  if o_EC opts && negb (bool_decide (plan = ∅)) && negb (o_DryRun opts) then
    let idx := outcome_idx rows in
    let '(scheduled, rows) :=
      partition_ec (ec_budget opts success) idx (merge_sort (λ a b, ecKey_le a.1 b.1) (map_to_list plan)) rows in
    let st := foldl (ec_run_one idx) (MkEC success 0 0 0 0 0 rows wd) (sched scheduled) in
    (e_success st,
     if 0 <? e_attempted st then
       e_rows st ++ [MkOutcome "(ec-summary)" "" "" repairModeECSummary reasonECStats (e_errors st =? 0) false
                       (0 <? e_errors st)]
     else e_rows st, e_wd st)
  else (success, rows, wd).

(** ** The call: the audit done, the pool run to its end, then the stripes *)
Record repair_report : Type := MkReport
  { rr_Repairs : list ChunkRepairOutcome; rr_Skipped : list ChunkRepairOutcome; rr_success : Z }.
Definition runAntiEntropyRepair (opts : AntiEntropyRepairOpts) (ask : string → dn_answers)
    (audit : list DNAuditEntry) (objs : list ObjectMeta) (wd : W * DB) (rep : repair_report) (wd' : W * DB) : Prop :=
  let v := make_view ask opts audit objs in
  let '(jobs, skipped) := collect_jobs v audit in
  ∃ p, rtc (pass_step opts v (pool_size opts jobs)) (pass_start jobs skipped wd.1) p ∧ pass_done p ∧
    ec_pass opts (ec_plan opts v objs) (successCount p) (p_Repairs p) (p_world p, wd.2) =
      (rr_success rep, rr_Repairs rep, wd') ∧
    rr_Skipped rep = p_Skipped p.

Context {HL : ChunkServiceLaws E W} {HKV : KVLaws M}.

(** ** The pool *)
Definition busy (ws : list (job * option string)) : nat := length (filter (λ x, is_Some x.2) ws).
Definition row_job (oc : ChunkRepairOutcome) : job := MkJob (TargetDN oc) (oc_ChunkID oc) (Reason oc).
Definition all_rows (p : pass) : list ChunkRepairOutcome := p_Repairs p ++ p_Skipped p.
Definition ok_rows (rows : list ChunkRepairOutcome) : nat := length (filter (λ oc, oc_OK oc = true) rows).
(** What a state has yet to do: every move lowers it. *)
Definition work (p : pass) : nat := 3 * length (pending p) + 2 * length (workers p) - busy (workers p).

Lemma busy_app l1 l2 : busy (l1 ++ l2) = busy l1 + busy l2.
Proof. unfold busy. by rewrite filter_app, length_app. Qed.
Lemma busy_idle j l : busy ((j, None) :: l) = busy l.
Proof. unfold busy. rewrite filter_cons_False; [done|]. simpl. by intros [? ?]. Qed.
Lemma busy_busy j src l : busy ((j, Some src) :: l) = S (busy l).
Proof. unfold busy. rewrite filter_cons_True; [done|]. simpl. eauto. Qed.
Lemma busy_length l : busy l ≤ length l.
Proof. apply length_filter. Qed.
Hint Rewrite busy_app busy_idle busy_busy @length_app @length_cons : pool.

Lemma copyChunk_row src j w oc w' :
  copyChunk src j w = (oc, w') → row_job oc = j ∧ Mode oc = repairModeReplication.
Proof.
  unfold copyChunk. destruct j as [t i r]. intros H.
  destruct (ReadChunk _ _ w) as [[[b a]|e] w1]; [|by injection H as <- _].
  destruct ((if bool_decide _ then _ else _) _ _ _ w1) as [[[]|e] w2]; by injection H as <- _.
Qed.
Lemma decide_job_row opts v n j :
  match decide_job opts v n j with
  | Skipped oc | Reported oc => row_job oc = j ∧ oc_OK oc = false
  | CopyFrom src => throttled opts n = false ∧ o_DryRun opts = false ∧ src = pick_source v j
  end.
Proof.
  unfold decide_job. destruct j as [t i r]. destruct (throttled opts n) eqn:Ht; [done|].
  case_bool_decide; [by destruct (o_EC opts)|]. case_bool_decide; [done|]. by destruct (o_DryRun opts) eqn:?.
Qed.

(** What every state of a run satisfies. *)
Record pool_inv (opts : AntiEntropyRepairOpts) (conc : nat) (jobs : list job) (skipped : list ChunkRepairOutcome)
    (p : pass) : Prop :=
  { pi_workers : length (workers p) ≤ conc;
    pi_count : successCount p = Z.of_nat (ok_rows (p_Repairs p));
    pi_cap : (0 < o_MaxRepairs opts)%Z →
             (successCount p + Z.of_nat (busy (workers p)) ≤ o_MaxRepairs opts + Z.of_nat conc - 1)%Z;
    pi_jobs : pending p ++ (workers p).*1 ++ (row_job <$> all_rows p) ≡ₚ jobs ++ (row_job <$> skipped) }.

Lemma ok_rows_snoc rows oc : ok_rows (rows ++ [oc]) = (if oc_OK oc then S (ok_rows rows) else ok_rows rows).
Proof.
  unfold ok_rows. rewrite filter_app, length_app, filter_cons. destruct (oc_OK oc); simpl; lia.
Qed.

Lemma pass_step_work opts v conc p p' : pass_step opts v conc p p' → work p' < work p.
Proof.
  destruct 1; unfold work; cbn [pending workers]; autorewrite with pool; cbn [length].
  all: first [pose proof (busy_length ws) | pose proof (busy_length l1); pose proof (busy_length l2)].
  all: try change (busy []) with 0; lia.
Qed.

Lemma pool_inv_step opts v conc jobs skipped p p' :
  pool_inv opts conc jobs skipped p → pass_step opts v conc p p' → pool_inv opts conc jobs skipped p'.
Proof.
  intros [Hw Hc Hcap Hj] Hstep. destruct Hstep; cbn [pending workers successCount p_Repairs p_Skipped] in *;
    unfold all_rows in *; cbn [pending workers successCount p_Repairs p_Skipped] in *;
    try (pose proof (decide_job_row opts v n j) as Hd; rewrite H in Hd; destruct Hd as [Hrow Hok]);
    try (destruct (copyChunk_row _ _ _ _ _ H) as [Hrow Hmode]);
    (split; unfold all_rows; cbn [pending workers successCount p_Repairs p_Skipped]);
    rewrite ?ok_rows_snoc, ?Hok; autorewrite with pool in *; try (change (busy []) with 0); cbn [length]; try lia.
  all: try (rewrite <- Hj, !fmap_app; cbn [fmap list_fmap fst]; rewrite ?Hrow; solve_Permutation).
  - intros Hmax. specialize (Hcap Hmax). pose proof (busy_length l1). pose proof (busy_length l2).
    destruct Hok as [_ _]. unfold throttled in Hrow. lia.
  - by destruct (oc_OK oc); lia.
  - intros Hmax. specialize (Hcap Hmax). destruct (oc_OK oc); lia.
Qed.

Lemma pool_inv_run opts v conc jobs skipped w p :
  1 ≤ conc → rtc (pass_step opts v conc) (pass_start jobs skipped w) p → pool_inv opts conc jobs skipped p.
Proof.
  intros Hconc. apply (rtc_ind_r (λ p, pool_inv opts conc jobs skipped p)).
  - split; unfold all_rows, pass_start; cbn [pending workers successCount p_Repairs p_Skipped];
      change (busy []) with 0; cbn [length]; [lia|done|lia|done].
  - intros p1 p2 _ Hs Hp. by eapply pool_inv_step.
Qed.

Lemma pass_progress opts v conc p : 1 ≤ conc → pass_done p ∨ ∃ p', pass_step opts v conc p p'.
Proof.
  intros Hconc. destruct p as [[|j js] [|[j' src] ws] n r s w]; [by left|right..].
  2:{ eexists. apply st_dispatch. simpl. lia. }
  all: destruct src as [src|];
    [destruct (copyChunk src j' w) as [oc w'] eqn:Hc; eexists; by apply (st_copy _ _ _ _ _ [])|].
  all: destruct (decide_job opts v n j') as [oc|oc|src] eqn:Hd; eexists;
    [by apply (st_skip _ _ _ _ _ [])|by apply (st_report _ _ _ _ _ [])|by apply (st_start _ _ _ _ _ [])].
Qed.

(** C33: The pool always finishes its work. Whatever the workers do next the measure
    [work] goes down; a state that is not finished has a next move; and when it is
    finished every job, each exactly once, has a row among the repairs or among the
    skipped. *)
Theorem repair_pool_completes opts v conc jobs skipped w p :
  1 ≤ conc → rtc (pass_step opts v conc) (pass_start jobs skipped w) p →
  (∀ p', pass_step opts v conc p p' → work p' < work p) ∧
  (pass_done p ∨ ∃ p', pass_step opts v conc p p') ∧
  (pass_done p → row_job <$> all_rows p ≡ₚ jobs ++ (row_job <$> skipped)).
Proof.
  intros Hconc Hrun. split_and!.
  - intros p'. apply pass_step_work.
  - by apply pass_progress.
  - destruct (pool_inv_run _ _ _ _ _ _ _ Hconc Hrun) as [_ _ _ Hj]. intros [Hp Hw].
    by rewrite Hp, Hw in Hj.
Qed.

(** ** The budget of the stripes *)
Lemma partition_ec_length budget idx plan rows scheduled rows' :
  partition_ec budget idx plan rows = (scheduled, rows') →
  (0 ≤ budget)%Z → (Z.of_nat (length scheduled) ≤ budget)%Z.
Proof.
  unfold partition_ec. intros H Hb.
  assert (∀ l st, (Z.of_nat (length st.1) ≤ budget)%Z →
    (Z.of_nat (length (foldl (partition_step budget idx) st l).1) ≤ budget)%Z) as Hl.
  { induction l as [|kr l IH]; intros st Hs; [done|]. apply IH. unfold partition_step.
    case_match eqn:Hcond; [done|]. cbn [fst]. rewrite length_app. simpl. lia. }
  specialize (Hl plan ([], rows)). rewrite H in Hl. apply Hl. simpl. lia.
Qed.

Lemma ec_run_success idx l st :
  (e_success (foldl (ec_run_one idx) st l) ≤ e_success st + Z.of_nat (length l))%Z.
Proof.
  revert st. induction l as [|rep l IH]; intros st; cbn [foldl length]; [lia|].
  etrans; [apply IH|]. unfold ec_run_one. destruct (Run _ _ _) as [stats wd]. cbn [e_success].
  case_match; lia.
Qed.

Lemma ec_pass_success opts plan n rows wd n' rows' wd' :
  (∀ l, sched l ≡ₚ l) → ec_pass opts plan n rows wd = (n', rows', wd') → (0 < o_MaxRepairs opts)%Z →
  (n' ≤ Z.max n (o_MaxRepairs opts))%Z.
Proof.
  intros Hsched H Hmax. unfold ec_pass in H. destruct (_ && _); [|injection H as <- _ _; lia].
  destruct (partition_ec _ _ _ _) as [scheduled rows1] eqn:Hp. injection H as <- _ _.
  etrans; [apply ec_run_success|]. cbn [e_success]. rewrite Hsched.
  apply partition_ec_length in Hp; unfold ec_budget in *; rewrite (proj2 (Z.ltb_lt _ _) Hmax) in *; lia.
Qed.

Lemma pool_size_spec opts jobs :
  1 ≤ pool_size opts jobs ∧ (o_Concurrency opts ≤ 1 → pool_size opts jobs = 1).
Proof.
  unfold pool_size. set (c := if o_Concurrency opts <? 1 then 1 else o_Concurrency opts).
  assert (1 ≤ c ∧ (o_Concurrency opts ≤ 1 → c = 1)) by (subst c; destruct (Nat.ltb_spec (o_Concurrency opts) 1); lia).
  destruct (Nat.ltb_spec (length jobs) c), (Nat.ltb_spec 0 (length jobs)); cbn [andb]; lia.
Qed.

(** C32: The cap on repairs holds up to the workers in flight: with [max_repairs] set, a call
    never makes more successful repairs than the cap plus the pool size less one, so
    with a single worker never more than the cap; and until the stripes start the
    count is that of the rows marked OK. *)
Theorem repair_cap opts ask audit objs wd rep wd' :
  (∀ l, sched l ≡ₚ l) → (0 < o_MaxRepairs opts)%Z →
  runAntiEntropyRepair opts ask audit objs wd rep wd' →
  let jobs := (collect_jobs (make_view ask opts audit objs) audit).1 in
  (rr_success rep ≤ o_MaxRepairs opts + Z.of_nat (pool_size opts jobs) - 1)%Z ∧
  (o_Concurrency opts ≤ 1 → (rr_success rep ≤ o_MaxRepairs opts)%Z) ∧
  (o_EC opts = false → rr_success rep = Z.of_nat (ok_rows (rr_Repairs rep))).
Proof.
  unfold runAntiEntropyRepair. intros Hsched Hmax Hrun.
  destruct (collect_jobs _ audit) as [jobs skipped]. destruct Hrun as (p & Hrun & Hdone & Hec & _). cbn [fst].
  destruct (pool_size_spec opts jobs) as [Hpool Hone].
  destruct (pool_inv_run _ _ _ _ _ _ _ Hpool Hrun) as [_ Hc Hcap _]. specialize (Hcap Hmax).
  pose proof (ec_pass_success _ _ _ _ _ _ _ _ Hsched Hec Hmax) as Hle. split_and!; [lia| |].
  - intros H1. rewrite Hone in Hcap by done. lia.
  - intros Hno. unfold ec_pass in Hec. rewrite Hno in Hec. by injection Hec as <- <- _.
Qed.

(** ** What the pool does to the cluster *)
Lemma copyChunk_spec src j w oc w' :
  copyChunk src j w = (oc, w') → sound w →
  sound w' ∧ keeps_chunks w w' ∧ (oc_OK oc = true → is_Some (chunk_at w' (j_target j) (j_chunkID j))).
Proof.
  unfold copyChunk. intros H Hw.
  destruct (ReadChunk (j_chunkID j) [src] w) as [rd w1] eqn:Hread.
  destruct (read_law _ _ _ _ _ Hread Hw) as (Hw1 & _ & Hs1%same_chunks_keeps & _).
  destruct rd as [[body a]|e]; [|by injection H as <- <-].
  set (put := if bool_decide (j_reason j = repairReasonCorrupt) then PutChunkToForce else PutChunkTo) in H.
  destruct (put (j_target j) (j_chunkID j) body w1) as [r w2] eqn:Hput.
  assert (sound w2 ∧ keeps_chunks w1 w2 ∧ (r = Ok () → is_Some (chunk_at w2 (j_target j) (j_chunkID j))))
    as (Hw2 & Hk2 & Hok).
  { unfold put in Hput. destruct (bool_decide _);
      [destruct (put_force_law _ _ _ _ _ _ Hput Hw1) as (? & _ & Ho & Hk & Hr)
      |destruct (put_law _ _ _ _ _ _ Hput Hw1) as (? & _ & Ho & Hk & Hr)];
      (split_and!; [done|by eapply changed_keeps|by intros [? _]%Hr]). }
  destruct r as [[]|e]; injection H as <- <-; (split_and!; [done|by etrans|]); [by intros _; apply Hok|done].
Qed.

Definition copied (w : W) (oc : ChunkRepairOutcome) : Prop :=
  oc_OK oc = true → Mode oc = repairModeReplication → is_Some (chunk_at w (TargetDN oc) (oc_ChunkID oc)).
Lemma copied_mono w w' oc : keeps_chunks w w' → copied w oc → copied w' oc.
Proof. intros Hk Hc H1 H2. by apply Hk, Hc. Qed.

Record pass_safe (opts : AntiEntropyRepairOpts) (w0 : W) (p : pass) : Prop :=
  { ps_sound : sound (p_world p);
    ps_keeps : keeps_chunks w0 (p_world p);
    ps_rows : Forall (copied (p_world p)) (p_Repairs p);
    ps_dry : o_DryRun opts = true →
             p_world p = w0 ∧ Forall (λ oc, oc_OK oc = false) (p_Repairs p) ∧ Forall (λ x, x.2 = None) (workers p) }.

Lemma pass_safe_step opts v conc w0 p p' : pass_safe opts w0 p → pass_step opts v conc p p' → pass_safe opts w0 p'.
Proof.
  intros [Hs Hk Hr Hd] Hstep. destruct Hstep; cbn [workers p_world p_Repairs] in *;
    try (pose proof (decide_job_row opts v n j) as Hrow; rewrite H in Hrow).
  - split; [done|done|done|]. intros Hdry. destruct (Hd Hdry) as (? & ? & ?). split_and!; [done|done|].
    apply Forall_app. split; [done|by apply Forall_singleton].
  - split; [done|done|done|]. intros Hdry. destruct (Hd Hdry) as (? & ? & [? [_ ?]%Forall_cons]%Forall_app).
    split_and!; [done|done|]. by apply Forall_app.
  - destruct Hrow as [_ Hok]. split; [done|done| |].
    + apply Forall_app. split; [done|]. apply Forall_singleton. intros E0. cbn [p_world] in *. congruence.
    + intros Hdry. destruct (Hd Hdry) as (? & ? & [? [_ ?]%Forall_cons]%Forall_app).
      split_and!; [done|apply Forall_app; split; [done|by apply Forall_singleton]|by apply Forall_app].
  - split; [done|done|done|]. intros Hdry. destruct Hrow as (_ & Hno & _). congruence.
  - destruct (copyChunk_spec _ _ _ _ _ H Hs) as (Hs' & Hk' & Hok). destruct (copyChunk_row _ _ _ _ _ H) as [Hj _].
    split; [done|by etrans| |].
    + apply Forall_app. split; [eapply Forall_impl; [exact Hr|]; intros oc'; by apply copied_mono|].
      apply Forall_singleton. intros E0 _. rewrite <- Hj in Hok. by apply Hok.
    + intros Hdry. destruct (Hd Hdry) as (_ & _ & [_ [Hnone _]%Forall_cons]%Forall_app). done.
Qed.

Lemma pass_safe_run opts v conc jobs skipped w p :
  sound w → rtc (pass_step opts v conc) (pass_start jobs skipped w) p → pass_safe opts w p.
Proof.
  intros Hw. apply (rtc_ind_r (λ p, pass_safe opts w p)).
  - split; cbn [pass_start p_world p_Repairs workers]; [done|done|by apply Forall_nil|].
    intros _. split_and!; [done|by apply Forall_nil|by apply Forall_nil].
  - intros p1 p2 _ Hs Hp. by eapply pass_safe_step.
Qed.

(** ** What the stripes do *)
Definition rep_named (db : DB) (rep : StripeRepair) : Prop :=
  ∀ d, d ∈ sr_DeadShards rep →
    names_shard db (sr_Bucket rep) (sr_Key rep) (sr_StripeIndex rep) (ds_ShardIndex d) (ds_ChunkID d).

Lemma ec_shards_named opts v db rep shi l :
  (∀ n sh, l !! n = Some sh → names_shard db (sr_Bucket rep) (sr_Key rep) (sr_StripeIndex rep) (shi + n) (ChunkID sh)) →
  rep_named db rep → rep_named db (ec_shards opts v rep shi l).
Proof.
  revert rep shi. induction l as [|sh l IH]; intros rep shi Hl Hrep; [done|]. cbn [ec_shards].
  assert (rep_named db (ec_shard opts v rep shi sh) ∧ sr_Bucket (ec_shard opts v rep shi sh) = sr_Bucket rep ∧
    sr_Key (ec_shard opts v rep shi sh) = sr_Key rep ∧
    sr_StripeIndex (ec_shard opts v rep shi sh) = sr_StripeIndex rep) as (H1 & H2 & H3 & H4).
  { assert (names_shard db (sr_Bucket rep) (sr_Key rep) (sr_StripeIndex rep) shi (ChunkID sh)) as Hsh.
    { rewrite <- (Nat.add_0_r shi). by apply Hl. }
    unfold ec_shard. destruct (Replicas sh) as [|addr r]; [done|].
    repeat case_match; (split; [|done]); try exact Hrep;
      intros d; cbn [sr_DeadShards sr_Bucket sr_Key sr_StripeIndex];
      (intros [?| ->%list_elem_of_singleton]%elem_of_app; [by apply Hrep|done]). }
  apply IH; [|done]. intros n sh' Hn. rewrite H2, H3, H4. replace (S shi + n) with (shi + S n) by lia. by apply Hl.
Qed.

Lemma ec_stripes_named opts v db o k m si l plan :
  (∀ n st, l !! n = Some st → ∀ j sh, Shards st !! j = Some sh →
     names_shard db (Bucket o) (Key o) (si + n) j (ChunkID sh)) →
  map_Forall (λ _, rep_named db) plan → map_Forall (λ _, rep_named db) (ec_stripes opts v o k m si l plan).
Proof.
  revert si plan. induction l as [|st l IH]; intros si plan Hl Hp; [done|]. cbn [ec_stripes]. apply IH.
  - intros n st' Hn. replace (S si + n) with (si + S n) by lia. by apply Hl.
  - case_match; [|done]. apply map_Forall_insert_2; [|done]. apply ec_shards_named; [|by intros d ?%elem_of_nil].
    intros n sh Hn. cbn [sr_Bucket sr_Key sr_StripeIndex]. rewrite <- (Nat.add_0_r si). by apply (Hl 0 st).
Qed.

Lemma ec_plan_named opts v db objs : db_ok db → ListObjects db = Ok objs →
  map_Forall (λ _, rep_named db) (ec_plan opts v objs).
Proof.
  intros Hok Hl. unfold ec_plan. destruct (o_EC opts); [|apply map_Forall_empty].
  assert (∀ o, o ∈ objs → GetObject db (Bucket o) (Key o) = Ok o) as Hg by (intros o Ho; by eapply ListObjects_get).
  clear Hl. assert (map_Forall (λ _ : ecKey, rep_named db) ∅) as H0 by apply map_Forall_empty.
  revert H0. generalize (∅ : gmap ecKey StripeRepair). induction objs as [|o objs IH]; intros plan Hp; [done|].
  cbn [foldl]. apply IH; [intros o' Ho'; apply Hg; by right|]. unfold ec_object.
  destruct (EC o) as [ec|]; [|done]. destruct (IsEC o); [|done]. apply ec_stripes_named; [|done].
  intros n st Hn j sh Hj. rewrite Nat.add_0_l. apply shard_at_names. unfold shard_at. rewrite Hg by (by left).
  by rewrite Hn.
Qed.

Lemma partition_ec_sub budget idx plan rows :
  (∀ rep, rep ∈ (partition_ec budget idx plan rows).1 → rep ∈ plan.*2).
Proof.
  unfold partition_ec.
  assert (∀ l st rep, rep ∈ (foldl (partition_step budget idx) st l).1 → rep ∈ st.1 ∨ rep ∈ l.*2) as Hl.
  { induction l as [|kr l IH]; intros st rep Hin; [by left|]. apply IH in Hin as [Hin|Hin]; [|right; by right].
    unfold partition_step in Hin. case_match; [by left|]. cbn [fst] in Hin.
    apply elem_of_app in Hin as [?| ->%list_elem_of_singleton]; [by left|]. right. by left. }
  intros rep Hin. apply Hl in Hin as [Hin|?]; [by apply elem_of_nil in Hin|done].
Qed.

(** Rows are found through [idx], which points at rows of stripes only. *)
Definition stripe_rows (idx : gmap string nat) (rows : list ChunkRepairOutcome) : Prop :=
  ∀ id i oc, idx !! id = Some i → rows !! i = Some oc → Mode oc ≠ repairModeReplication.
Lemma mark_rows_copied idx f dead rows w :
  (∀ oc, Mode oc ≠ repairModeReplication → Mode (f oc) ≠ repairModeReplication) →
  stripe_rows idx rows → Forall (copied w) rows →
  stripe_rows idx (mark_rows idx f dead rows) ∧ Forall (copied w) (mark_rows idx f dead rows).
Proof.
  intros Hf. revert rows. induction dead as [|d dead IH]; intros rows Hs Hc; [done|].
  unfold mark_rows. cbn [foldl]. apply IH; destruct (idx !! ds_ChunkID d) as [i|] eqn:Hi; try done.
  - intros id k oc Hid Hk. destruct (decide (k = i)) as [->|Hne].
    + rewrite list_lookup_alter_eq in Hk. destruct (rows !! i) as [oc'|] eqn:Hr; [|done].
      injection Hk as <-. by eapply Hf, Hs.
    + rewrite list_lookup_alter_ne in Hk by done. by eapply Hs.
  - apply Forall_lookup. intros k oc Hk. destruct (decide (k = i)) as [->|Hne].
    + rewrite list_lookup_alter_eq in Hk. destruct (rows !! i) as [oc'|] eqn:Hr; [|done].
      injection Hk as <-. intros _ Hm. exfalso. by eapply Hf, Hm; eapply Hs.
    + rewrite list_lookup_alter_ne in Hk by done. rewrite Forall_lookup in Hc. by eapply Hc.
Qed.

Lemma outcome_idx_rows rows : stripe_rows (outcome_idx rows) rows.
Proof.
  unfold outcome_idx. set (f := λ (m : gmap string nat) (p : nat * ChunkRepairOutcome), _).
  assert (∀ l (m : gmap string nat), (∀ i oc, (i, oc) ∈ l → rows !! i = Some oc) → stripe_rows m rows →
    stripe_rows (foldl f m l) rows) as H.
  { induction l as [|[i oc] l IH]; intros m Hl Hm; [done|]. cbn [foldl].
    apply IH; [intros; apply Hl; by right|]. unfold f. cbn [fst snd]. case_bool_decide as Hmode; [|done].
    intros id k oc' [[_ <-]|[_ Hk]]%lookup_insert_Some Hr; [|by eapply Hm].
    rewrite (Hl i oc) in Hr by (by left). injection Hr as <-. by rewrite Hmode. }
  apply H; [|by intros id i oc]. intros i oc Hin. apply elem_of_lookup_zip_with in Hin as (n & k & oc1 & [= -> ->] & Hk & Hoc).
  by apply lookup_seq in Hk as [-> _].
Qed.

Lemma partition_ec_copied budget idx plan rows w :
  stripe_rows idx rows → Forall (copied w) rows →
  stripe_rows idx (partition_ec budget idx plan rows).2 ∧ Forall (copied w) (partition_ec budget idx plan rows).2.
Proof.
  unfold partition_ec. generalize (@nil StripeRepair) as sc. revert rows.
  induction plan as [|kr plan IH]; intros rows sc Hs Hc; [done|]. cbn [foldl].
  unfold partition_step at 2 4. case_match; [|by apply IH]. cbn [fst snd].
  destruct (mark_rows_copied idx as_throttled (sr_DeadShards kr.2) rows w) as [H1 H2]; [done|done|done|].
  by apply IH.
Qed.

Record ec_safe (db0 : DB) (idx : gmap string nat) (w0 : W) (st : ec_state) : Prop :=
  { es_sound : sound (e_wd st).1;
    es_keeps : keeps_chunks w0 (e_wd st).1;
    es_names : same_names db0 (e_wd st).2;
    es_backed : backed_or (listed db0) (e_wd st).1 (e_wd st).2;
    es_idx : stripe_rows idx (e_rows st);
    es_rows : Forall (copied (e_wd st).1) (e_rows st) }.

Lemma ec_run_safe db0 idx w0 l st :
  Forall (rep_named db0) l → ec_safe db0 idx w0 st → ec_safe db0 idx w0 (foldl (ec_run_one idx) st l).
Proof.
  revert st. induction l as [|rep l IH]; intros st Hl Hst; [done|]. apply Forall_cons in Hl as [Hrep Hl].
  cbn [foldl]. apply IH; [done|]. destruct Hst as [Hs Hk Hn Hb Hi Hr]. unfold ec_run_one, Run. cbn [id Repairs foldl].
  unfold run_one. destruct (e_wd st) as [w db] eqn:Hwd. cbn [fst snd] in *.
  destruct (repairStripe rep (w, db)) as [[r n] [w' db']] eqn:Hrun.
  destruct (repairStripe_spec (listed db0) _ _ _ _ _ _ _ Hrun Hs Hb) as (Hs' & _ & Hk' & Hn' & Hb' & _).
  { intros d Hd. eapply names_shard_mono; [exact Hn|by apply Hrep]. }
  assert (Forall (copied w') (e_rows st)) as Hr'.
  { eapply Forall_impl; [exact Hr|]. intros oc. by apply copied_mono. }
  assert (∀ ok errs, stripe_rows idx (mark_rows idx (if ok : bool then as_ok else as_failed errs) (sr_DeadShards rep) (e_rows st)) ∧
    Forall (copied w') (mark_rows idx (if ok : bool then as_ok else as_failed errs) (sr_DeadShards rep) (e_rows st))) as Hm.
  { intros ok errs. apply mark_rows_copied; [by destruct ok|done|done]. }
  destruct r; split; cbn [e_wd e_rows fst snd]; first [done|by etrans|apply Hm].
Qed.

Lemma repair_run_safe opts ask audit db0 objs w db rep w' db' :
  (∀ l, sched l ≡ₚ l) → db_ok db0 → ListObjects db0 = Ok objs → same_names db0 db → sound w →
  runAntiEntropyRepair opts ask audit objs (w, db) rep (w', db') →
  sound w' ∧ keeps_chunks w w' ∧ same_names db db' ∧ backed_or (listed db) w' db' ∧ Forall (copied w') (rr_Repairs rep).
Proof.
  unfold runAntiEntropyRepair. intros Hsched Hok Hl Hn Hw Hrun.
  destruct (collect_jobs _ audit) as [jobs skipped]. destruct Hrun as (p & Hrun & Hdone & Hec & _). cbn [fst snd] in *.
  destruct (pass_safe_run _ _ _ _ _ _ _ Hw Hrun) as [Hs Hk Hr _]. unfold ec_pass in Hec.
  destruct (o_EC opts && _ && negb (o_DryRun opts)) eqn:Hgo.
  - pose proof (ec_plan_named opts (make_view ask opts audit objs) db0 objs Hok Hl) as Hnamed.
    set (plan := merge_sort _ _) in Hec. set (idx := outcome_idx _) in Hec. set (budget := ec_budget _ _) in Hec.
    destruct (partition_ec_copied budget idx plan (p_Repairs p) (p_world p)) as [Hpi Hpc]; [apply outcome_idx_rows|done|].
    pose proof (partition_ec_sub budget idx plan (p_Repairs p)) as Hsub.
    destruct (partition_ec budget idx plan (p_Repairs p)) as [scheduled rows]. cbn [fst snd] in *.
    set (st0 := MkEC _ _ _ _ _ _ rows _) in Hec.
    assert (ec_safe db idx w (foldl (ec_run_one idx) st0 (sched scheduled))) as Hsafe.
    { apply ec_run_safe.
      - rewrite Hsched. apply Forall_forall. intros r Hr0. apply Hsub, list_elem_of_fmap in Hr0 as ([key r'] & -> & Hin).
        unfold plan in Hin. rewrite merge_sort_Permutation, elem_of_map_to_list in Hin.
        intros d Hd0. eapply names_shard_mono; [exact Hn|]. by eapply Hnamed.
      - split; cbn [e_wd e_rows fst snd st0]; first [done|apply listed_backed]. }
    destruct Hsafe as [Hs' Hk' Hn' Hb' _ Hc']. injection Hec as _ <- Hwd. rewrite Hwd in *.
    split_and!; [done|done|done|done|].
    case_match; [|done]. apply Forall_app. split; [done|]. apply Forall_singleton. by intros _ [=].
  - injection Hec as _ <- <- <-. by split_and!; try apply listed_backed.
Qed.


(** With two workers both may pass the check before either is counted: a cap of one
    lets two copies through. *)
Lemma cap_overshoots opts v j1 j2 src1 src2 w oc1 w1 oc2 w2 :
  decide_job opts v 0 j1 = CopyFrom src1 → decide_job opts v 0 j2 = CopyFrom src2 →
  copyChunk src1 j1 w = (oc1, w1) → oc_OK oc1 = true →
  copyChunk src2 j2 w1 = (oc2, w2) → oc_OK oc2 = true →
  ∃ p, rtc (pass_step opts v 2) (pass_start [j1; j2] [] w) p ∧ pass_done p ∧ successCount p = 2%Z.
Proof.
  intros Hd1 Hd2 Hc1 Hok1 Hc2 Hok2. exists (MkPass [] [] 2 [oc1; oc2] [] w2). split; [|done].
  eapply rtc_l; [apply st_dispatch; simpl; lia|]. eapply rtc_l; [apply st_dispatch; simpl; lia|].
  eapply rtc_l; [by apply (st_start _ _ _ _ _ [])|]. eapply rtc_l; [by apply (st_start _ _ _ _ _ [(j1, Some src1)])|].
  eapply rtc_l; [by apply (st_copy _ _ _ _ _ [])|]. rewrite Hok1.
  eapply rtc_l; [by apply (st_copy _ _ _ _ _ [])|]. rewrite Hok2. apply rtc_refl.
Qed.
End autorepair.

(** An unreachable node has no row of missing chunks, so no job is ever skipped because
    its target is unreachable. *)
Lemma no_skip_rows ask objs dns v order :
  (collect_jobs v (runAntiEntropy order ask objs dns)).2 = [].
Proof.
  assert (∀ e, e ∈ runAntiEntropy order ask objs dns → Reachable e = false → MissingFromDN e = []) as H.
  { intros e He. unfold runAntiEntropy in He. rewrite (elem_of_merge_sort entry_le) in He.
    apply list_elem_of_fmap in He as (dn & -> & _). generalize (default ∅ (expectedChunksByDN objs !! dn)) as m. intros m Hr.
    unfold auditOneDN in *. destruct (a_merkle (ask dn)) as [r|]; [|done].
    exfalso. case_bool_decide; [done|]. revert Hr. cbn [Reachable].
    assert (∀ l e, Reachable (foldl (audit_bucket (ask dn) m) e l) = Reachable e) as Hl.
    { induction l as [|b l IH]; intros e; [done|]. cbn [foldl]. rewrite IH. unfold audit_bucket. by repeat case_match. }
    by rewrite Hl. }
  unfold collect_jobs. revert H. generalize (runAntiEntropy order ask objs dns) as l. intros l.
  assert (∀ l (st : list job * list ChunkRepairOutcome), (∀ e, e ∈ l → Reachable e = false → MissingFromDN e = []) →
    (foldl (λ '(jobs, skipped) e,
       if negb (Reachable e) then (jobs, skipped ++ (skip_row e <$> MissingFromDN e))
       else (jobs ++ entry_jobs v e, skipped)) st l).2 = st.2) as Hl; [|intros H; by rewrite Hl].
  clear l. induction l as [|e l IH]; intros [jobs skipped] H; [done|]. cbn [foldl].
  rewrite IH by (intros e' He'; apply H; by right).
  destruct (Reachable e) eqn:Hr; cbn [negb snd]; [done|]. rewrite H, app_nil_r by (done || by left). done.
Qed.

(** ** The counters and the memory of unrecoverable chunks *)
Definition unrecoverableSeenCap : Z := 100000.
Definition markUnrecoverableFirstSeen (id : string) (seen : gset string) : bool * gset string :=
  if bool_decide (id ∈ seen) then (false, seen)
  else
    let seen := if (Z.of_nat (size seen) <? unrecoverableSeenCap)%Z then seen else ∅ in
    (true, {[id]} ∪ seen).

Record counters : Type := MkCounters
  { c_missing : nat; c_corrupt : nat; c_ec : nat; c_unrecoverable : nat; c_skip : nat; c_ec_deferred : nat;
    c_throttled : nat; unrecoverableSeen : gset string }.
Definition count_skipped (c : counters) (sk : ChunkRepairOutcome) : counters :=
  match Mode sk with
  | repairModeNoSource =>
      let '(first, seen) := markUnrecoverableFirstSeen (oc_ChunkID sk) (unrecoverableSeen c) in
      MkCounters (c_missing c) (c_corrupt c) (c_ec c) (if first then S (c_unrecoverable c) else c_unrecoverable c)
        (c_skip c) (c_ec_deferred c) (c_throttled c) seen
  | repairModeSkip =>
      MkCounters (c_missing c) (c_corrupt c) (c_ec c) (c_unrecoverable c) (S (c_skip c)) (c_ec_deferred c)
        (c_throttled c) (unrecoverableSeen c)
  | repairModeECDeferred =>
      MkCounters (c_missing c) (c_corrupt c) (c_ec c) (c_unrecoverable c) (c_skip c) (S (c_ec_deferred c))
        (c_throttled c) (unrecoverableSeen c)
  | repairModeThrottled =>
      MkCounters (c_missing c) (c_corrupt c) (c_ec c) (c_unrecoverable c) (c_skip c) (c_ec_deferred c)
        (S (c_throttled c)) (unrecoverableSeen c)
  | _ => c
  end.
Definition count_repair (c : counters) (oc : ChunkRepairOutcome) : counters :=
  if negb (oc_OK oc) || Planned oc then c
  else match Mode oc, Reason oc with
       | repairModeReplication, repairReasonMissing =>
           MkCounters (S (c_missing c)) (c_corrupt c) (c_ec c) (c_unrecoverable c) (c_skip c) (c_ec_deferred c)
             (c_throttled c) (unrecoverableSeen c)
       | repairModeReplication, repairReasonCorrupt =>
           MkCounters (c_missing c) (S (c_corrupt c)) (c_ec c) (c_unrecoverable c) (c_skip c) (c_ec_deferred c)
             (c_throttled c) (unrecoverableSeen c)
       | repairModeECInline, _ =>
           MkCounters (c_missing c) (c_corrupt c) (S (c_ec c)) (c_unrecoverable c) (c_skip c) (c_ec_deferred c)
             (c_throttled c) (unrecoverableSeen c)
       | _, _ => c
       end.
Definition count_report (c : counters) (r : repair_report) : counters :=
  foldl count_repair (foldl count_skipped c (rr_Skipped r)) (rr_Repairs r).

(** A stripe left out by the cap keeps its row among the repairs, where it is not counted
    as throttled. *)
Lemma throttled_stripe_uncounted c oc : count_repair c (as_throttled oc) = c.
Proof. unfold count_repair. cbn. by destruct (negb _ || _). Qed.

(** The memory of unrecoverable chunks never outgrows its cap, and reports an id it
    holds only once. *)
Lemma unrecoverable_memory id seen :
  (Z.of_nat (size seen) ≤ unrecoverableSeenCap)%Z →
  let '(first, seen') := markUnrecoverableFirstSeen id seen in
  (Z.of_nat (size seen') ≤ unrecoverableSeenCap)%Z ∧ id ∈ seen' ∧ (first = false ↔ id ∈ seen).
Proof.
  intros Hcap. unfold markUnrecoverableFirstSeen. case_bool_decide as Hin; [done|].
  split_and!; [|set_solver|naive_solver].
  destruct (Z.ltb_spec (Z.of_nat (size seen)) unrecoverableSeenCap); unfold unrecoverableSeenCap in *.
  - rewrite size_union by set_solver. rewrite size_singleton. lia.
  - rewrite size_union by set_solver. rewrite size_singleton, size_empty. lia.
Qed.

(** ** Witnesses: one copy from h1 to h2 *)
#[local] Opaque sha256_hex w_id.
Definition w_ar_opts : AntiEntropyRepairOpts := MkOpts false false false 1 2.
Definition w_ar_raw (id : string) : ObjectMeta :=
  MkObjectMeta "photos" "dog.jpg" 4 "" "" [MkChunkRef id 4 ["h1:80"; "h2:80"]] None [] 0 0 "" "" [].
Definition w_ar_obj (id : string) : ObjectMeta := with_created (with_version (w_ar_raw id) 1) 9.
Definition w_ar_db : mdb := (putObjectInternal (w_ar_raw w_id) 9 db0).2.
Definition w_ar_audit (id : string) : list DNAuditEntry :=
  [MkAudit "h1:80" true 1 1 true [] [] 0 None; MkAudit "h2:80" true 1 0 false [id] [] 1 None].
Definition w_ar_job (id : string) : job := MkJob "h2:80" id repairReasonMissing.
Definition w_ar_view (id : string) : view := make_view w_ask w_ar_opts (w_ar_audit id) [w_ar_obj id].

Lemma w_ar_source id : pick_source (w_ar_view id) (w_ar_job id) = "h1:80".
Proof.
  unfold pick_source. assert (chunkOwners (w_ar_view id) !! id = Some ["h1:80"; "h2:80"]) as Ho.
  { change (chunkOwners (w_ar_view id)) with (add_owner ∅ (MkChunkRef id 4 ["h1:80"; "h2:80"])).
    unfold add_owner. cbn [ChunkID Replicas]. by rewrite lookup_insert_eq, lookup_empty. }
  cbn [j_chunkID j_target w_ar_job]. rewrite Ho. cbn [default].
  assert (healthy_owner (w_ar_view id) "h2:80" id "h1:80" = true) as Hh.
  { unfold healthy_owner. assert (dnHas (w_ar_view id) !! "h1:80" = Some ∅) as -> by reflexivity.
    assert (corrupt_at (w_ar_view id) "h1:80" id = false) as -> by reflexivity.
    rewrite (bool_decide_eq_false_2 (id ∈ ∅)) by set_solver. reflexivity. }
  simpl default. rewrite filter_cons_True by (rewrite Hh; done). reflexivity.
Qed.

Section one_copy.
Context {M : Type → Type} {KVM : KV M}.
Context {E W : Type} {HC : ChunkService E W}.
Lemma w_one_copy id oc (w w' : W) (db : @DB M) :
  copyChunk "h1:80" (w_ar_job id) w = (oc, w') →
  runAntiEntropyRepair (λ l, l) w_ar_opts w_ask (w_ar_audit id) [w_ar_obj id] (w, db)
    (MkReport [oc] [] (if oc_OK oc then 1 else 0)) (w', db).
Proof.
  intros Hc. unfold runAntiEntropyRepair. fold (w_ar_view id).
  assert (collect_jobs (w_ar_view id) (w_ar_audit id) = ([w_ar_job id], [])) as -> by reflexivity.
  exists (MkPass [] [] (if oc_OK oc then 1 else 0)%Z [oc] [] w'). split_and!; [|done|reflexivity|reflexivity].
  eapply rtc_l; [apply st_dispatch; apply Nat.ltb_lt; reflexivity|].
  eapply rtc_l; [apply (st_start _ _ _ _ _ [] [] _ _ _ _ "h1:80")|].
  - unfold decide_job. rewrite w_ar_source. rewrite bool_decide_eq_false_2; [reflexivity|].
    change (ecChunks (w_ar_view id)) with (∅ : gset string). set_solver.
  - eapply rtc_l; [by apply (st_copy _ _ _ _ _ [] [])|]. destruct (oc_OK oc); apply rtc_refl.
Qed.
End one_copy.

Lemma w_ar_copy : ∃ oc w', copyChunk (HC := cluster_service w_net) "h1:80" (w_ar_job w_id) w_rp_cluster = (oc, w') ∧ oc_OK oc = true.
Proof.
  destruct (w_read_one w_rp_cluster "h1:80" w_stored) as (w1 & Hr & Hd);
    [apply lookup_insert_eq|apply lookup_singleton_eq|].
  destruct (w_put_one w1 "h2:80" (MkServer "dn2" ∅ 0 0)) as (w2 & Hw).
  { rewrite Hd. unfold w_rp_cluster. cbn [dns]. rewrite lookup_insert_ne by done. apply lookup_singleton_eq. }
  { apply lookup_empty. }
  exists (MkOutcome "h2:80" w_id "h1:80" repairModeReplication repairReasonMissing true false false), w2.
  split; [|reflexivity]. unfold copyChunk. cbn [ReadChunk cluster_service j_chunkID j_target j_reason w_ar_job].
  rewrite Hr, bool_decide_eq_false_2 by done. cbn [PutChunkTo cluster_service]. by rewrite Hw.
Qed.

Lemma repair_pool_completes_witness :
  pass_done (pass_start [w_ar_job w_id] [] w_rp_cluster) ∨
  ∃ p', pass_step (HC := cluster_service w_net) w_ar_opts (w_ar_view w_id) 2
          (pass_start [w_ar_job w_id] [] w_rp_cluster) p'.
Proof.
  apply (repair_pool_completes (HC := cluster_service w_net) w_ar_opts (w_ar_view w_id) 2 [w_ar_job w_id] []
    w_rp_cluster (pass_start [w_ar_job w_id] [] w_rp_cluster)); [apply Nat.leb_le; reflexivity|apply rtc_refl].
Defined.

Lemma repair_cap_witness :
  ∃ rep wd', runAntiEntropyRepair (HC := cluster_service w_net) (λ l, l) w_ar_opts w_ask (w_ar_audit w_id)
      [w_ar_obj w_id] (w_rp_cluster, w_rp_db) rep wd' ∧
    rr_success rep = 1%Z ∧ rr_success rep = Z.of_nat (ok_rows (rr_Repairs rep)).
Proof.
  destruct w_ar_copy as (oc & w' & Hc & Hok).
  pose proof (w_one_copy (HC := cluster_service w_net) w_id oc w_rp_cluster w' w_rp_db Hc) as Hrun.
  eexists _, _. split; [exact Hrun|]. split; [cbn [rr_success]; rewrite Hok; reflexivity|].
  refine (proj2 (proj2 (repair_cap (HC := cluster_service w_net) (λ l, l) w_ar_opts w_ask (w_ar_audit w_id)
    [w_ar_obj w_id] (w_rp_cluster, w_rp_db) _ _ (λ l, Permutation_refl l) _ Hrun)) _); reflexivity.
Defined.

Lemma w_ar_objects : ListObjects w_ar_db = Ok [w_ar_obj w_id].
Proof. reflexivity. Qed.
Lemma w_ar_db_ok : db_ok w_ar_db.
Proof.
  unfold w_ar_db, db0. rewrite <- !outcome_snd. apply putObject_ok, createBucket_ok, empty_db_ok.
Qed.

