(* ===== verification/Follower.v ===== *)
(** * Follower edges: internal/edge/replica.go, and the primary's side of it in edge.go

    The primary commits a mutation to its store and then appends the entry to its log:
    [p_pending] are the entries committed and not yet appended.  A follower pulls the
    log since the last sequence number it knows, or a whole snapshot.  What the
    network answers is an input of [followerSyncOnce]. *)
From S2P Require Import Prelude GF GoLib Kv Meta Store StoreProps Wal Replay Election.

(** ** Roles *)
Inductive Role : Type := RolePrimary | RoleFollower.

Definition effectiveRole (elector : option Elector) (role : Role) : Role :=
  match elector with
  | Some e => if IsLeader e then RolePrimary else RoleFollower
  | None => role
  end.
(** [primaryURL] is the one configured, for a follower. *)
Definition effectivePrimaryURL (elector : option Elector) (primaryURL : option string) : string :=
  match elector with
  | Some e => LeaderURL e
  | None => default "" primaryURL
  end.
(** The status 503 and the X-KVFS-Primary header, if any; [None] lets the write pass. *)
Definition rejectIfFollowerWrite (elector : option Elector) (role : Role) (primaryURL : option string)
    : option (Z * option string) :=
  match effectiveRole elector role with
  | RolePrimary => None
  | RoleFollower =>
      let url := effectivePrimaryURL elector primaryURL in
      Some (503%Z, if bool_decide (url = "") then None else Some url)
  end.
(** The edge a sync pulls from; [None]: there is nothing to do. *)
Definition sync_source (elector : option Elector) (primaryURL : string) : option string :=
  match elector with
  | Some e => if IsLeader e then None
              else if bool_decide (LeaderURL e = "") then None else Some (LeaderURL e)
  | None => Some primaryURL
  end.

Section follower.
Context {M : Type → Type} {KVM : KV M}.
Notation DB := (@DB M).

(** ** The primary *)
Record Primary : Type := MkPrimary { p_db : DB; p_pending : list walop; p_wal : WAL walop }.

Definition commit (op : store_op) (p : Primary) : Primary :=
  MkPrimary (exec op (p_db p)).2 (p_pending p ++ log_of op (p_db p)) (p_wal p).
(** The [i]-th committed entry is appended; [None] where there is none. *)
Definition log_entry (i : nat) (now : Z) (len : nat) (p : Primary) : option Primary :=
  o ← p_pending p !! i;
  Some (MkPrimary (p_db p) (delete i (p_pending p)) (Append now o len None true (p_wal p)).2).
(** The X-KVFS-WAL-Seq header is read before the body is written. *)
Definition handleMetaSnapshot (p : Primary) : Z * DB := (LastSeq (p_wal p), p_db p).
(** The X-KVFS-WAL-Last-Seq header and the entries. *)
Definition handleWAL (since : Z) (p : Primary) : (Z * list (WALEntry walop)) * Primary :=
  match WriteSinceTo since None (p_wal p) with
  | (Ok (_, l), w) => ((LastSeq (p_wal p), l), MkPrimary (p_db p) (p_pending p) w)
  | (Err _, w) => ((LastSeq (p_wal p), []), MkPrimary (p_db p) (p_pending p) w)
  end.
(** The log compaction of the snapshot scheduler. *)
Definition compact (p : Primary) : Primary :=
  MkPrimary (p_db p) (p_pending p) (Truncate None true (p_wal p)).2.

(** ** The follower *)
Record followerState : Type := MkFollower
  { f_db : DB; lastSize : Z; lastErr : bool; totalRuns : nat; totalErrs : nat;
    syncSeq : nat; activePath : option nat; lastWALSeq : Z }.

Definition recordOK (n : Z) (f : followerState) : followerState :=
  MkFollower (f_db f) n false (S (totalRuns f)) (totalErrs f) (syncSeq f) (activePath f) (lastWALSeq f).
Definition recordErr (f : followerState) : followerState :=
  MkFollower (f_db f) (lastSize f) true (totalRuns f) (S (totalErrs f)) (syncSeq f) (activePath f) (lastWALSeq f).
Definition set_walseq (v : Z) (f : followerState) : followerState :=
  MkFollower (f_db f) (lastSize f) (lastErr f) (totalRuns f) (totalErrs f) (syncSeq f) (activePath f) v.
Definition set_fdb (db : DB) (f : followerState) : followerState :=
  MkFollower db (lastSize f) (lastErr f) (totalRuns f) (totalErrs f) (syncSeq f) (activePath f) (lastWALSeq f).

(** The answer to the log request: [None] is any failure up to decoding. *)
Definition wal_reply : Type := option (option Z * list (WALEntry walop)).

Definition followerWALPull (sinceSeq now : Z) (r : wal_reply) (f : followerState) : option Z * followerState :=
  match r with
  | None => (None, f)
  | Some (hdr, []) =>
      (Some 0%Z, match hdr with
                 | Some v => if (sinceSeq <? v)%Z then set_walseq v f else f
                 | None => f
                 end)
  | Some (_, e :: es) =>
      match ApplyAll (e :: es) now (f_db f) with
      | (Some _, db) => (None, set_fdb db f)
      | (None, db) =>
          (Some (Z.of_nat (length (e :: es))), set_walseq (Seq (List.last es e)) (set_fdb db f))
      end
  end.

(** The answer to the snapshot request, with its size and what became of the copy. *)
Inductive copy_result : Type := OpenFailed | CopyFailed | ReloadFailed | Loaded.
Inductive snapshot_reply : Type :=
  | SnapFailed
  | SnapReply (hdr : option Z) (body : DB) (n : Z) (io : copy_result).

Definition pull_snapshot (r : snapshot_reply) (f : followerState) : bool * followerState :=
  match r with
  | SnapFailed => (false, recordErr f)
  | SnapReply hdr body n io =>
      let seq := S (syncSeq f) in
      let f := MkFollower (f_db f) (lastSize f) (lastErr f) (totalRuns f) (totalErrs f) seq (activePath f) (lastWALSeq f) in
      match io with
      | Loaded =>
          (true, recordOK n (MkFollower body (lastSize f) (lastErr f) (totalRuns f) (totalErrs f) seq (Some seq)
                               (default 0%Z hdr)))
      | _ => (false, recordErr f)
      end
  end.

(** [wal url since] and [snap url] are the network's answers. *)
Definition followerSyncOnce (elector : option Elector) (primaryURL : string) (now : Z)
    (wal : string → Z → wal_reply) (snap : string → snapshot_reply) (f : followerState) : bool * followerState :=
  match sync_source elector primaryURL with
  | None => (true, f)
  | Some url =>
      if (0 <? lastWALSeq f)%Z then
        match followerWALPull (lastWALSeq f) now (wal url (lastWALSeq f)) f with
        | (Some applied, f) => (true, recordOK applied f)
        | (None, f) => pull_snapshot (snap url) f
        end
      else pull_snapshot (snap url) f
  end.

Context {HKV : KVLaws M}.
Context (runtime_put : ∀ addr t t' (m1 m2 m1' : M (stored RuntimeDN)),
  kv_put m1 addr (Enc (MkRuntimeDN addr (Some t) None None)) = Ok m1' →
  ∃ m2', kv_put m2 addr (Enc (MkRuntimeDN addr (Some t') None None)) = Ok m2').

(** ** Lagging behind *)
(** Applying the entries [xs], each at whatever time, meets no error and leads from [f] to
    the view of [l]. *)
Fixpoint follows (xs : list walop) (l f : DB) : Prop :=
  match xs with
  | [] => sim l f
  | o :: xs => ∀ e now, Op e = o → ∃ f', ApplyEntry e now f = (None, f') ∧ follows xs l f'
  end.

Lemma follows_app xs ys l l' f :
  follows xs l f → (∀ f, sim l f → follows ys l' f) → follows (xs ++ ys) l' f.
Proof.
  revert f. induction xs as [|x xs IH]; intros f Hx Hy; [by apply Hy|]. intros e now He.
  destruct (Hx e now He) as (f' & Ha & Hf). exists f'. split; [done|]. by apply IH.
Qed.

Lemma follows_apply es ys l f now :
  follows ((Op <$> es) ++ ys) l f → ∃ f', ApplyAll es now f = (None, f') ∧ follows ys l f'.
Proof.
  revert f. induction es as [|e es IH]; intros f Hf; [by exists f|].
  destruct (Hf e now eq_refl) as (f1 & Ha & Hf1). cbn [ApplyAll]. rewrite Ha. by apply IH.
Qed.

Definition is_abort (o : walop) : Prop := match o with OpAbortMultipartUpload _ _ _ => True | _ => False end.

(** Entries that apply together apply one by one, when their times do not matter or there
    is only one. *)
Lemma follows_of_replays xs l f :
  (∀ now, replays xs l now f) → length xs ≤ 1 ∨ Forall is_abort xs → follows xs l f.
Proof.
  intros Hr [Hlen|Habort].
  - destruct xs as [|x [|]]; [|intros e now He|simpl in Hlen; lia].
    + by destruct (Hr 0%Z [] eq_refl) as (f' & [= ->] & ?).
    + destruct (Hr now [e]) as (f' & Ha & Hs); [by rewrite <- He|]. rewrite ApplyAll_one in Ha. eauto.
  - revert f Hr. induction Habort as [|x xs Hx Hxs IH]; intros f Hr.
    + by destruct (Hr 0%Z [] eq_refl) as (f' & [= ->] & ?).
    + intros e now He.
      assert (∀ now', ApplyEntry e now' f = ApplyEntry e now f) as Htime.
      { intros now'. unfold ApplyEntry. rewrite He. by destruct x. }
      destruct (ApplyEntry e now f) as [[err|] f1] eqn:Ha.
      * destruct (Hr now (e :: ((λ o, MkEntry 0 0 o) <$> xs))) as (f' & Hf & _).
        { rewrite fmap_cons, He. f_equal. rewrite <- list_fmap_compose. apply list_fmap_id. }
        cbn [ApplyAll] in Hf. by rewrite Ha in Hf.
      * exists f1. split; [done|]. apply IH. intros now' es Hes.
        destruct (Hr now' (e :: es)) as (f' & Hf & Hs); [by rewrite fmap_cons, He, Hes|].
        cbn [ApplyAll] in Hf. rewrite Htime in Hf. eauto.
Qed.

Lemma log_of_short op (db : DB) : length (log_of op db) ≤ 1 ∨ Forall is_abort (log_of op db).
Proof.
  destruct op; simpl; unfold log1; try (left; case_match; simpl; lia); try (left; simpl; lia).
  case_match; [right|left; simpl; lia]. apply Forall_fmap, Forall_forall. done.
Qed.

Lemma op_follows op (l f : DB) :
  db_ok l → replicated op → sim l f → follows (log_of op l) (exec op l).2 f.
Proof.
  intros Hok Hr Hs. apply follows_of_replays; [|apply log_of_short].
  intros now. by apply op_replays.
Qed.

(** ** A log written by successful inline appends *)
Definition log_is (w : WAL walop) (es : list (WALEntry walop)) : Prop :=
  batched w = false ∧ buf w = [] ∧ buf_err w = false ∧ Wal.seq w = Z.of_nat (length es) ∧
  (∀ i e, es !! i = Some e → Seq e = Z.of_nat (S i)) ∧
  ∃ l, file w = wf l ∧ fits l ∧ l.*1 = es.

Lemma log_is_open : log_is (OpenWAL []) [].
Proof. split_and!; try done. exists []. split_and!; try done. constructor. Qed.

Lemma log_is_append w es now o len :
  log_is w es → len < max_line → (Wal.seq w < 2 ^ 63 - 1)%Z →
  ∃ e, Op e = o ∧ log_is (Append now o len None true w).2 (es ++ [e]).
Proof.
  intros (Hb & Hbuf & Herr & Hs & Hseqs & l & Hfile & Hfits & Hes) Hlen Hmax.
  exists (MkEntry (Z.of_nat (S (length es))) now o). split; [done|].
  assert (i64 (Wal.seq w + 1) = Z.of_nat (S (length es))) as Hnext by (rewrite i64_small; lia).
  unfold Append. rewrite Hnext. cbn [buf_err set_seq]. rewrite Herr. cbn [batched set_buf set_seq].
  rewrite Hb. cbn [negb]. unfold flush. cbn [buf_err set_buf sync snd ack].
  unfold log_is. cbn. split_and!; try done.
  - rewrite length_app. simpl. lia.
  - intros i e [Hi|[Hge Hi]]%lookup_app_Some; [by apply Hseqs|].
    apply list_lookup_singleton_Some in Hi as [Hi <-]. simpl. f_equal. lia.
  - exists (l ++ [(MkEntry (Z.of_nat (S (length es))) now o, len)]). rewrite Hbuf, Hfile, wf_app. split_and!.
    + done.
    + apply Forall_app. split; [done|]. by apply Forall_singleton.
    + by rewrite fmap_app, Hes.
Qed.

Lemma drop_newer es k n :
  (∀ i e, es !! i = Some e → Seq e = (Z.of_nat (k + S i))%Z) → (0 ≤ n)%Z →
  filter (λ e : WALEntry walop, (n < Seq e)%Z) es = drop (Z.to_nat (n - Z.of_nat k)) es.
Proof.
  revert k. induction es as [|e es IH]; intros k Hs Hn; [by rewrite drop_nil|].
  pose proof (Hs 0 e eq_refl) as He. rewrite filter_cons.
  assert (∀ i e, es !! i = Some e → Seq e = Z.of_nat (S k + S i)) as Hs'.
  { intros i x Hx. rewrite (Hs (S i) x Hx). f_equal. lia. }
  rewrite (IH (S k) Hs' Hn). case_decide as Hlt.
  - replace (Z.to_nat (n - Z.of_nat k)) with 0 by lia.
    replace (Z.to_nat (n - Z.of_nat (S k))) with 0 by lia. done.
  - destruct (Z.to_nat (n - Z.of_nat k)) as [|m] eqn:Hm; [lia|]. simpl. f_equal. lia.
Qed.

Lemma handleWAL_is p es since :
  log_is (p_wal p) es → (0 ≤ since)%Z →
  ∃ w, handleWAL since p = ((Z.of_nat (length es), drop (Z.to_nat since) es), MkPrimary (p_db p) (p_pending p) w) ∧
    log_is w es.
Proof.
  intros (Hb & Hbuf & Herr & Hs & Hseqs & l & Hfile & Hfits & Hes) Hsince.
  unfold handleWAL, WriteSinceTo, Since, flush, LastSeq. rewrite Herr, Hbuf, app_nil_r, Hs.
  cbn [file set_buf]. rewrite Hfile, scan_wf_nil, Hes by done.
  rewrite (drop_newer es 0 since) by done. rewrite Z.sub_0_r. eexists. split; [done|].
  unfold log_is. cbn. split_and!; try done. by exists l.
Qed.

(** ** Primary and follower together *)
Record pair : Type := MkPair { primary : Primary; replica : followerState }.

(** The answers a sync can get: to the log request, none or the primary's; to the snapshot
    request, a failure or the primary's, when every committed entry is logged. *)
Definition wal_answer (p : Primary) (wal : string → Z → wal_reply) : Prop :=
  ∀ url since, wal url since = None ∨
    wal url since = Some (Some (handleWAL since p).1.1, (handleWAL since p).1.2).
Definition snap_answer (p : Primary) (snap : string → snapshot_reply) : Prop :=
  ∀ url, snap url = SnapFailed ∨ ∃ n io, snap url = SnapReply (Some (handleMetaSnapshot p).1) (handleMetaSnapshot p).2 n io ∧
    p_pending p = [].

(** Mutations are logged in the order of their commits; the log is not compacted. *)
Inductive step (w : pair) : pair → Prop :=
  | S_commit op : replicated op → step w (MkPair (commit op (primary w)) (replica w))
  | S_log now len p' : log_entry 0 now len (primary w) = Some p' → len < max_line →
      (Wal.seq (p_wal (primary w)) < 2 ^ 63 - 1)%Z → step w (MkPair p' (replica w))
  | S_serve since : (0 ≤ since)%Z → step w (MkPair (handleWAL since (primary w)).2 (replica w))
  | S_sync el url now wal snap : wal_answer (primary w) wal → snap_answer (primary w) snap →
      step w (MkPair (primary w) (followerSyncOnce el url now wal snap (replica w)).2).

Record tracks (w : pair) : Prop := MkTracks
  { tr_ok : db_ok (p_db (primary w));
    tr_log : ∃ es, log_is (p_wal (primary w)) es ∧
      (0 ≤ lastWALSeq (replica w) ≤ Z.of_nat (length es))%Z ∧
      ((0 < lastWALSeq (replica w))%Z →
         follows ((Op <$> drop (Z.to_nat (lastWALSeq (replica w))) es) ++ p_pending (primary w))
           (p_db (primary w)) (f_db (replica w))) }.

Lemma drop_last_seq (es : list (WALEntry walop)) n e d :
  (∀ i e, es !! i = Some e → Seq e = Z.of_nat (S i)) → drop n es = e :: d →
  Seq (List.last d e) = Z.of_nat (length es).
Proof.
  intros Hs Hd. assert (List.last d e = List.last es e) as ->.
  { rewrite <- (take_drop n es), Hd. clear. induction (take n es) as [|x l IH]; [by destruct d|].
    simpl. rewrite <- IH. by destruct l. }
  assert (es ≠ []) as Hne by (intros ->; by rewrite drop_nil in Hd).
  destruct (exists_last Hne) as (l & x & ->). rewrite List.last_last.
  rewrite (Hs (length l) x) by (by rewrite lookup_app_r, Nat.sub_diag by lia).
  rewrite length_app. simpl. f_equal. lia.
Qed.

Lemma followerWALPull_tracks p f now es r :
  log_is (p_wal p) es → (0 < lastWALSeq f ≤ Z.of_nat (length es))%Z →
  follows ((Op <$> drop (Z.to_nat (lastWALSeq f)) es) ++ p_pending p) (p_db p) (f_db f) →
  r = None ∨ r = Some (Some (handleWAL (lastWALSeq f) p).1.1, (handleWAL (lastWALSeq f) p).1.2) →
  (r = None ∧ followerWALPull (lastWALSeq f) now r f = (None, f)) ∨
  ∃ n f', followerWALPull (lastWALSeq f) now r f = (Some n, f') ∧
    lastWALSeq f' = Z.of_nat (length es) ∧ follows (p_pending p) (p_db p) (f_db f').
Proof.
  intros Hlog Hn Hf [->| ->]; [by left|right].
  destruct (handleWAL_is p es (lastWALSeq f) Hlog) as (w & -> & _); [lia|]. cbn [fst snd].
  destruct Hlog as (_ & _ & _ & _ & Hseqs & _).
  destruct (drop (Z.to_nat (lastWALSeq f)) es) as [|e d] eqn:Hd; cbn [followerWALPull].
  - assert (lastWALSeq f = Z.of_nat (length es)) as Hlast.
    { apply (f_equal length) in Hd. rewrite length_drop in Hd. simpl in Hd. lia. }
    rewrite Hlast, Z.ltb_irrefl. eexists _, _. split; [done|]. split; [done|exact Hf].
  - destruct (follows_apply (e :: d) _ _ _ now Hf) as (db & Ha & Hf'). rewrite Ha.
    eexists _, _. split; [done|]. split; [by apply (drop_last_seq es (Z.to_nat (lastWALSeq f)))|exact Hf'].
Qed.

(** A sync keeps the follower on track; one that succeeds leaves it at the end of the log. *)
Lemma sync_tracks p f el url now wal snap ok f' :
  tracks (MkPair p f) → wal_answer p wal → snap_answer p snap →
  followerSyncOnce el url now wal snap f = (ok, f') →
  tracks (MkPair p f') ∧
  (ok = true → sync_source el url ≠ None → lastWALSeq f' = LastSeq (p_wal p) ∧
     follows (p_pending p) (p_db p) (f_db f')).
Proof.
  intros [Hok (es & Hlog & Hn & Hf)] Hwal Hsnap Hs. cbn [primary replica] in *.
  assert (LastSeq (p_wal p) = Z.of_nat (length es)) as Hlast by apply Hlog.
  assert (∀ g, lastWALSeq g = lastWALSeq f → f_db g = f_db f → tracks (MkPair p g)) as Hsame.
  { intros g E1 E2. split; [done|]. exists es. cbn [primary replica]. rewrite E1, E2.
    exact (conj Hlog (conj Hn Hf)). }
  assert (∀ u f1, lastWALSeq f1 = lastWALSeq f → f_db f1 = f_db f → pull_snapshot (snap u) f1 = (ok, f') →
    tracks (MkPair p f') ∧ (ok = true → sync_source el url ≠ None → lastWALSeq f' = LastSeq (p_wal p) ∧
     follows (p_pending p) (p_db p) (f_db f'))) as Hpull.
  { intros u f1 E1 E2 Hp. destruct (Hsnap u) as [Hu|(n & io & Hu & Hpend)]; rewrite Hu in Hp; cbn [pull_snapshot] in Hp.
    { injection Hp as <- <-. split; [by apply Hsame|done]. }
    destruct io; injection Hp as <- <-; [split; [by apply Hsame|done]..|].
    assert (follows (p_pending p) (p_db p) (p_db p)) as Hnow by (by rewrite Hpend).
    split; [|done]. split; [done|]. exists es. cbn [primary replica lastWALSeq recordOK f_db handleMetaSnapshot fst snd default].
    rewrite Hlast, Nat2Z.id, drop_all. split_and!; [done|lia|lia|done]. }
  unfold followerSyncOnce in Hs. destruct (sync_source el url) as [u|] eqn:Hsrc.
  2:{ injection Hs as <- <-. split; [by apply Hsame|done]. }
  destruct (Z.ltb_spec 0 (lastWALSeq f)) as [Hpos|_]; [|by apply (Hpull u f)].
  destruct (followerWALPull_tracks p f now es (wal u (lastWALSeq f)) Hlog) as [[_ Hw]|(n & f1 & Hw & E1 & Hf1)];
    [lia|by apply Hf|by apply Hwal|rewrite Hw in Hs; by apply (Hpull u f)|].
  rewrite Hw in Hs. injection Hs as <- <-. cbn [recordOK lastWALSeq f_db]. split; [|by rewrite E1, Hlast].
  split; [done|]. exists es. cbn [primary replica recordOK lastWALSeq f_db]. rewrite E1, Nat2Z.id, drop_all.
  split_and!; [done|lia|lia|done].
Qed.

Lemma step_tracks w w' : step w w' → tracks w → tracks w'.
Proof.
  intros Hst Ht. destruct Hst as [op Hr|now len p' Hlog Hlen Hmax|since Hs|el url now wal snap Hwal Hsnap].
  - destruct Ht as [Hok (es & Hes & Hn & Hf)]. split; [by apply exec_ok|].
    exists es. split; [done|]. split; [done|]. intros Hpos. cbn [commit primary replica p_pending p_db].
    rewrite app_assoc. eapply follows_app; [by apply Hf|]. intros f Hs. by apply op_follows.
  - destruct Ht as [Hok (es & Hes & Hn & Hf)]. unfold log_entry in Hlog.
    destruct (p_pending (primary w)) as [|o rest] eqn:Hp; [done|]. injection Hlog as <-.
    split; [done|]. destruct (log_is_append _ _ now o len Hes Hlen Hmax) as (e & <- & Hes').
    exists (es ++ [e]). cbn [primary replica p_wal p_pending p_db]. split; [exact Hes'|].
    rewrite length_app. split; [simpl; lia|]. intros Hpos. rewrite drop_app_le, fmap_app, <- app_assoc by lia.
    by apply Hf.
  - destruct Ht as [Hok (es & Hes & Hn & Hf)].
    destruct (handleWAL_is _ es since Hes Hs) as (w1 & -> & Hes'). split; [done|]. by exists es.
  - destruct w as [p f]. cbn [primary replica] in *.
    destruct (followerSyncOnce el url now wal snap f) as [ok f'] eqn:Hsync.
    by apply (sync_tracks _ _ _ _ _ _ _ _ _ Ht Hwal Hsnap Hsync).
Qed.

(** A primary with an empty log and a follower that has not synced. *)
Definition initial (w : pair) : Prop :=
  db_ok (p_db (primary w)) ∧ p_wal (primary w) = OpenWAL [] ∧ lastWALSeq (replica w) = 0%Z.

Lemma reachable_tracks w0 w : initial w0 → rtc step w0 w → tracks w.
Proof.
  intros (Hok & Hw & Hl) Hr. assert (tracks w0) as H0.
  { split; [done|]. exists []. rewrite Hw, Hl. split; [apply log_is_open|]. split; [simpl; lia|lia]. }
  clear Hok Hw Hl. induction Hr as [|w1 w2 w3 Hs Hr IH]; [done|]. apply IH. by eapply step_tracks.
Qed.


(** ** What the follower misses *)
(** Once the log was compacted, its sequence numbers start again at 1: a follower that is
    ahead of them gets nothing, reports success and keeps its old metadata. *)
Lemma compacted_log_hides_writes p es f now snap :
  log_is (p_wal p) es → (0 < lastWALSeq f)%Z → (Z.of_nat (length es) ≤ lastWALSeq f)%Z →
  let '(ok, f') := followerSyncOnce None "primary" now (λ _ since, Some (Some (handleWAL since p).1.1, (handleWAL since p).1.2))
                     snap f in
  ok = true ∧ f_db f' = f_db f ∧ lastWALSeq f' = lastWALSeq f ∧ lastErr f' = false.
Proof.
  intros Hlog Hpos Hge. unfold followerSyncOnce. cbn [sync_source].
  destruct (Z.ltb_spec 0 (lastWALSeq f)); [|lia].
  destruct (handleWAL_is p es (lastWALSeq f) Hlog) as (w & -> & _); [lia|]. cbn [fst snd].
  rewrite drop_ge by lia. cbn [followerWALPull]. destruct (Z.ltb_spec (lastWALSeq f) (Z.of_nat (length es))); [lia|done].
Qed.
Lemma compact_restarts p es : log_is (p_wal p) es → log_is (p_wal (compact p)) [].
Proof.
  intros (Hb & Hbuf & Herr & _). unfold compact, Truncate, flush. rewrite Herr. cbn.
  split_and!; try done. exists []. split_and!; try done. constructor.
Qed.
End follower.

(** ** Concrete histories *)
Definition mprimary : Type := @Primary (gmap string).
Definition no_fault_wal (p : mprimary) (url : string) (since : Z) : wal_reply :=
  Some (Some (handleWAL since p).1.1, (handleWAL since p).1.2).
Definition no_fault_snap (p : mprimary) (url : string) : @snapshot_reply (gmap string) :=
  SnapReply (Some (handleMetaSnapshot p).1) (handleMetaSnapshot p).2 4096 Loaded.
Definition commit_log (op : store_op) (p : mprimary) : mprimary :=
  let p := commit op p in default p (log_entry 0 50 200 p).

Definition w_p0 : mprimary := MkPrimary empty_db [] (OpenWAL []).
Definition w_f0 : @followerState (gmap string) := MkFollower empty_db 0 false 0 0 0 None 0.
Definition w_put (n : Z) : store_op :=
  PutObject (MkObjectMeta "photos" "cat.jpg" n "" "" [MkChunkRef "c1" n ["dn1"]] None [] 0 0 "" "" []) 9.
Definition w_p1 : mprimary := commit_log (CreateBucket "photos" 7) w_p0.
Definition w_f1 := (followerSyncOnce None "primary" 60 (no_fault_wal w_p1) (no_fault_snap w_p1) w_f0).2.
Definition w_p2 : mprimary := commit_log (w_put 5) (commit_log (w_put 3) w_p1).

Lemma no_fault_answers (p : mprimary) :
  wal_answer p (no_fault_wal p) ∧ (p_pending p = [] → snap_answer p (no_fault_snap p)).
Proof. split; [intros url since; by right|]. intros Hp url. right. exists 4096%Z, Loaded. done. Qed.

Lemma no_fault_sync (p : mprimary) url now f :
  (followerSyncOnce None url now (no_fault_wal p) (no_fault_snap p) f).1 = true.
Proof.
  unfold followerSyncOnce. cbn [sync_source]. destruct (0 <? lastWALSeq f)%Z; [|done].
  by destruct (followerWALPull _ _ _ _) as [[n|] f'].
Qed.

Lemma commit_log_steps op (p : mprimary) f o :
  replicated op → log_of op (p_db p) = [o] → p_pending p = [] → (Wal.seq (p_wal p) < 2 ^ 63 - 1)%Z →
  rtc (step (M := gmap string)) (MkPair p f) (MkPair (commit_log op p) f).
Proof.
  intros Hr Ho Hp Hs. eapply rtc_l; [by apply S_commit|]. cbn [primary replica].
  eapply rtc_l; [|apply rtc_refl]. unfold commit_log, log_entry, commit. cbn [p_pending p_db p_wal].
  rewrite Hp, Ho. simpl. eapply (S_log (MkPair _ f) 50 200); [reflexivity| |exact Hs].
  apply Nat2Z.inj_lt. unfold max_line. rewrite Z2Nat.id; lia.
Qed.


Lemma short_lines (es : list (WALEntry walop)) : fits ((λ e, (e, 200)) <$> es).
Proof.
  apply Forall_fmap, Forall_forall. intros e _. cbn.
  apply Nat2Z.inj_lt. unfold max_line. rewrite Z2Nat.id; lia.
Qed.

(** Entries are appended after the transaction, outside its lock: two writes of the same
    object can be committed in one order and logged in the other, and a follower that
    pulls the log keeps the overwritten one. *)
Definition w_race : mprimary := commit (w_put 5) (commit (w_put 3) w_p1).
Definition w_raced : mprimary :=
  default w_race (p ← log_entry 1 50 200 w_race; log_entry 0 51 200 p).
Definition w_entry (s now : Z) (o : walop) : WALEntry walop := MkEntry s now o.
Definition w_raced_log : list (WALEntry walop) :=
  [w_entry 1 50 (OpCreateBucket (MkBucketMeta "photos" 7));
   w_entry 2 50 (OpPutObject (MkObjectMeta "photos" "cat.jpg" 5 "" "" [MkChunkRef "c1" 5 ["dn1"]] None [] 2 9 "" "" []));
   w_entry 3 51 (OpPutObject (MkObjectMeta "photos" "cat.jpg" 3 "" "" [MkChunkRef "c1" 3 ["dn1"]] None [] 1 9 "" "" []))].

Lemma w_raced_log_is : log_is (p_wal w_raced) w_raced_log.
Proof.
  split_and!; try reflexivity.
  - intros [|[|[|i]]] e; simpl; intros [= <-]; reflexivity.
  - exists ((λ e, (e, 200)) <$> w_raced_log). split_and!; [reflexivity|apply short_lines|reflexivity].
Qed.

Lemma log_order_can_invert :
  p_pending w_raced = [] ∧
  ∃ f', followerWALPull 1 70 (no_fault_wal w_raced "primary" 1) w_f1 = (Some 2%Z, f') ∧
    Size <$> (match GetObject (p_db w_raced) "photos" "cat.jpg" with Ok o => Some o | Err _ => None end) = Some 5%Z ∧
    Size <$> (match GetObject (f_db f') "photos" "cat.jpg" with Ok o => Some o | Err _ => None end) = Some 3%Z.
Proof.
  split; [reflexivity|]. unfold no_fault_wal.
  destruct (handleWAL_is w_raced w_raced_log 1 w_raced_log_is) as (w & -> & _); [done|]. cbn [fst snd].
  eexists. split; [reflexivity|]. split; reflexivity.
Qed.

(** The snapshot's sequence number is read before the snapshot is taken: a write that falls
    in between is in both, and the follower applies it twice. *)
Definition w_snap_raced := (pull_snapshot (SnapReply (Some (handleMetaSnapshot w_p1).1) (handleMetaSnapshot w_p2).2 4096 Loaded) w_f1).2.
Definition w_p2_log : list (WALEntry walop) :=
  [w_entry 1 50 (OpCreateBucket (MkBucketMeta "photos" 7));
   w_entry 2 50 (OpPutObject (MkObjectMeta "photos" "cat.jpg" 3 "" "" [MkChunkRef "c1" 3 ["dn1"]] None [] 1 9 "" "" []));
   w_entry 3 50 (OpPutObject (MkObjectMeta "photos" "cat.jpg" 5 "" "" [MkChunkRef "c1" 5 ["dn1"]] None [] 2 9 "" "" []))].
Lemma w_p2_log_is : log_is (p_wal w_p2) w_p2_log.
Proof.
  split_and!; try reflexivity.
  - intros [|[|[|i]]] e; simpl; intros [= <-]; reflexivity.
  - exists ((λ e, (e, 200)) <$> w_p2_log). split_and!; [reflexivity|apply short_lines|reflexivity].
Qed.
Lemma snapshot_race_bumps_version :
  ∃ f', followerWALPull 1 70 (no_fault_wal w_p2 "primary" 1) w_snap_raced = (Some 2%Z, f') ∧
    Version <$> (match GetObject (p_db w_p2) "photos" "cat.jpg" with Ok o => Some o | Err _ => None end) = Some 2%Z ∧
    Version <$> (match GetObject (f_db f') "photos" "cat.jpg" with Ok o => Some o | Err _ => None end) = Some 4%Z.
Proof.
  unfold no_fault_wal.
  destruct (handleWAL_is w_p2 w_p2_log 1 w_p2_log_is) as (w & -> & _); [done|]. cbn [fst snd].
  eexists. split; [reflexivity|]. split; reflexivity.
Qed.
