(* ===== verification/Heartbeat.v ===== *)
(** * Liveness of data nodes: internal/heartbeat/heartbeat.go

    A tick probes every address of the registry; the probes run concurrently and their
    updates, each under the mutex, happen in the order [sched].  A probe's outcome is
    its latency in milliseconds and an error, if any. *)
From S2P Require Import Prelude GF GoLib.

Record Status : Type := MkStatus
  { st_Addr : string; Healthy : bool; LastSeen : Z; LastError : string; LatencyMS : Z;
    ConsecFails : Z; TotalProbes : Z }.
Record Monitor : Type := MkMonitor { statuses : gmap string Status; failThreshold : Z; probeTimeout : Z }.

Definition New (failThreshold probeTimeout : Z) : Monitor :=
  MkMonitor ∅ (if (failThreshold <=? 0)%Z then 3%Z else failThreshold)
    (if (probeTimeout <=? 0)%Z then 2000000000%Z else probeTimeout).

Definition set_statuses (m : Monitor) (s : gmap string Status) : Monitor :=
  MkMonitor s (failThreshold m) (probeTimeout m).

(** [LastSeen] 0 is the zero time. *)
Definition fresh_status (addr : string) : Status := MkStatus addr true 0 "" 0 0 0.
Definition probed (threshold now lat : Z) (err : option string) (st : Status) : Status :=
  let probes := u64 (TotalProbes st + 1) in
  match err with
  | None => MkStatus (st_Addr st) true now "" lat 0 probes
  | Some e =>
      let fails := i64 (ConsecFails st + 1) in
      MkStatus (st_Addr st) (if (threshold <=? fails)%Z then false else Healthy st)
        (LastSeen st) e lat fails probes
  end.
Definition update (addr : string) (now lat : Z) (err : option string) (m : Monitor) : Monitor :=
  let st := default (fresh_status addr) (statuses m !! addr) in
  set_statuses m (<[addr := probed (failThreshold m) now lat err st]> (statuses m)).

Section tick.
Context (sched : list string → list string).
(** What the probe of an address finds in this tick: the time, latency and error. *)
Context (probe : string → Z * Z * option string).

Definition update_probed (m : Monitor) (addr : string) : Monitor :=
  let '(now, lat, err) := probe addr in update addr now lat err m.
Definition Tick (addrs : list string) (m : Monitor) : Monitor :=
  if length addrs =? 0 then m
  else
    let live : gset string := list_to_set addrs in
    let m := set_statuses m (filter (λ x, x.1 ∈ live) (statuses m)) in
    foldl update_probed m (sched addrs).
End tick.

Definition Snapshot (m : Monitor) : list Status :=
  omap (λ a, statuses m !! a) (sort_strings (elements (dom (statuses m)))).
Definition HealthyAddrs (m : Monitor) : list string :=
  sort_strings (elements (dom (filter (λ x, Healthy x.2 = true) (statuses m)))).

(** ** The history of an address *)
(** The errors of the trailing failures of a history, newest first. *)
Fixpoint trailing_failures (h : list (option string)) : list string :=
  match h with
  | Some e :: h => e :: trailing_failures h
  | _ => []
  end.

(** What the status of a probed address says of its probes since it was last registered,
    newest first. *)
Record summarises (threshold : Z) (h : list (option string)) (st : Status) : Prop := MkSummarises
  { sm_fails : ConsecFails st = Z.of_nat (length (trailing_failures h));
    sm_error : LastError st = default "" (head (trailing_failures h));
    sm_probes : TotalProbes st = Z.of_nat (length h);
    sm_healthy : Healthy st = bool_decide (ConsecFails st < threshold)%Z }.

Lemma probed_summarises threshold h now lat err st :
  (1 ≤ threshold)%Z → (Z.of_nat (length h) + 1 < 2 ^ 63)%Z → summarises threshold h st →
  summarises threshold (err :: h) (probed threshold now lat err st).
Proof.
  intros Ht Hlen [Hf He Hp Hh]. unfold probed.
  assert (length (trailing_failures h) ≤ length h) as Hle.
  { clear. induction h as [|[e|] h IH]; simpl; lia. }
  rewrite Hp, u64_small by lia. destruct err as [e|]; split; simpl; try lia; try done.
  - rewrite Hf, i64_small by lia. lia.
  - rewrite Hh, Hf, i64_small by lia. destruct (Z.leb_spec threshold (Z.of_nat (length (trailing_failures h)) + 1)).
    + rewrite bool_decide_eq_false_2; [done|lia].
    + rewrite !bool_decide_eq_true_2; [done|lia..].
  - rewrite bool_decide_eq_true_2; [done|lia].
Qed.

(** [hist] has the registered addresses with their probes. *)
Definition history : Type := string → option (list (option string)).
Definition monitors (hist : history) (m : Monitor) : Prop :=
  (1 ≤ failThreshold m)%Z ∧
  ∀ a, match hist a, statuses m !! a with
       | Some h, Some st => st_Addr st = a ∧ summarises (failThreshold m) h st
       | None, None => True
       | _, _ => False
       end.

Record tick : Type := MkTick
  { t_addrs : list string; t_probe : string → Z * Z * option string; t_sched : list string → list string }.
Definition run_tick (m : Monitor) (t : tick) : Monitor := Tick (t_sched t) (t_probe t) (t_addrs t) m.
(** A tick without addresses does nothing; any other forgets the addresses it does not name. *)
Definition tick_history (hist : history) (t : tick) : history := λ a,
  if bool_decide (t_addrs t = []) then hist a
  else if bool_decide (a ∈ t_addrs t) then Some ((t_probe t a).2 :: default [] (hist a)) else None.
Definition tick_ok (t : tick) : Prop := NoDup (t_addrs t) ∧ ∀ l, t_sched t l ≡ₚ l.

Lemma foldl_update_statuses probe l m a :
  NoDup l →
  failThreshold (foldl (update_probed probe) m l) = failThreshold m ∧
  statuses (foldl (update_probed probe) m l) !! a =
    if bool_decide (a ∈ l)
    then Some (probed (failThreshold m) (probe a).1.1 (probe a).1.2 (probe a).2 (default (fresh_status a) (statuses m !! a)))
    else statuses m !! a.
Proof.
  revert m. induction l as [|x l IH]; intros m Hnd; [by rewrite bool_decide_eq_false_2 by apply not_elem_of_nil|].
  apply NoDup_cons in Hnd as [Hx Hnd]. cbn [foldl]. destruct (IH (update_probed probe m x) Hnd) as [H1 H2].
  assert (failThreshold (update_probed probe m x) = failThreshold m) as Ht.
  { unfold update_probed. by destruct (probe x) as [[? ?] ?]. }
  rewrite Ht in H1, H2. split; [done|]. rewrite H2.
  assert (statuses (update_probed probe m x) =
    <[x := probed (failThreshold m) (probe x).1.1 (probe x).1.2 (probe x).2 (default (fresh_status x) (statuses m !! x))]>
      (statuses m)) as ->.
  { unfold update_probed. by destruct (probe x) as [[? ?] ?]. }
  destruct (decide (a = x)) as [->|Hne].
  - by rewrite bool_decide_eq_false_2, lookup_insert_eq, bool_decide_eq_true_2 by (done || by left).
  - rewrite lookup_insert_ne by done. destruct (decide (a ∈ l)) as [Hin|Hin].
    + by rewrite !bool_decide_eq_true_2 by (done || by right).
    + rewrite !bool_decide_eq_false_2; [done| |done]. by intros [?|?]%elem_of_cons.
Qed.

Lemma run_tick_monitors hist m t :
  tick_ok t → (∀ a h, hist a = Some h → Z.of_nat (length h) + 1 < 2 ^ 63)%Z →
  monitors hist m → monitors (tick_history hist t) (run_tick m t).
Proof.
  intros [Hnd Hsched] Hlen [Ht Hm]. unfold run_tick, Tick, tick_history.
  destruct (Nat.eqb_spec (length (t_addrs t)) 0) as [H0|H0].
  { apply nil_length_inv in H0. by rewrite bool_decide_eq_true_2. }
  rewrite bool_decide_eq_false_2 by (intros E; by rewrite E in H0).
  set (m1 := set_statuses m _).
  assert (NoDup (t_sched t (t_addrs t))) as Hnd' by (by rewrite Hsched).
  split.
  { by destruct (foldl_update_statuses (t_probe t) (t_sched t (t_addrs t)) m1 "" Hnd') as [-> _]. }
  intros a. destruct (foldl_update_statuses (t_probe t) (t_sched t (t_addrs t)) m1 a Hnd') as [-> ->].
  assert (statuses m1 !! a = if bool_decide (a ∈ t_addrs t) then statuses m !! a else None) as ->.
  { subst m1. cbn [statuses set_statuses]. case_bool_decide as Hin.
    - destruct (statuses m !! a) as [st|] eqn:Hst.
      + apply map_lookup_filter_Some. split; [done|]. by apply elem_of_list_to_set.
      + apply map_lookup_filter_None. by left.
    - apply map_lookup_filter_None. right. intros st _. cbn. by rewrite elem_of_list_to_set. }
  cbn [failThreshold set_statuses m1]. destruct (decide (a ∈ t_addrs t)) as [Hin|Hin].
  - rewrite !bool_decide_eq_true_2; [|by rewrite ?Hsched..].
    specialize (Hm a). destruct (hist a) as [h|] eqn:Hh, (statuses m !! a) as [st|]; [|done|done|]; cbn [default].
    + destruct Hm as [Ha Hs]. split; [unfold probed; by destruct (t_probe t a).2|].
      apply probed_summarises; [done|by eapply Hlen|done].
    + split; [unfold probed; by destruct (t_probe t a).2|].
      apply probed_summarises; [done|simpl; lia|]. split; try done. cbn. by rewrite bool_decide_eq_true_2 by lia.
  - rewrite !bool_decide_eq_false_2; [|by rewrite ?Hsched..]. done.
Qed.

(** The monitor's verdicts are exact.  After any ticks over registries without
    repetition, whatever order their probes answered in, the monitor knows exactly the
    addresses of the last non-empty registry; an address is healthy exactly when fewer
    than failThreshold of its latest probes in a row failed, and its counters and last
    error are those of its probes since it was registered. *)
Theorem heartbeat_exact threshold timeout ticks :
  Forall tick_ok ticks → (Z.of_nat (length ticks) + 1 < 2 ^ 63)%Z →
  let m := foldl run_tick (New threshold timeout) ticks in
  let hist := foldl tick_history (λ _, None) ticks in
  monitors hist m ∧
  (∀ a, a ∈ HealthyAddrs m ↔ ∃ h, hist a = Some h ∧ (Z.of_nat (length (trailing_failures h)) < failThreshold m)%Z) ∧
  (∀ a, a ∈ st_Addr <$> Snapshot m ↔ is_Some (hist a)) ∧ StronglySorted String.le (st_Addr <$> Snapshot m).
Proof.
  intros Hok Hlen m hist.
  assert (monitors hist m) as Hmon.
  { assert (∀ h0 m0 n, monitors h0 m0 → (∀ a h, h0 a = Some h → length h ≤ n) →
      (Z.of_nat (n + length ticks) + 1 < 2 ^ 63)%Z → monitors (foldl tick_history h0 ticks) (foldl run_tick m0 ticks)) as Hall.
    { clear hist m Hlen. induction Hok as [|t ticks Ht _ IH]; intros h0 m0 n Hm Hn Hb; [done|]. cbn [foldl].
      simpl in Hb. apply (IH _ _ (S n)); [|intros a h|lia].
      - apply run_tick_monitors; [done| |done]. intros a h Ha. specialize (Hn a h Ha). lia.
      - unfold tick_history. repeat case_bool_decide; [intros Ha; specialize (Hn a h Ha); lia| |done].
        intros [= <-]. simpl. destruct (h0 a) as [h1|] eqn:Ha; simpl; [specialize (Hn a h1 Ha)|]; lia. }
    apply (Hall _ _ 0); [|done|simpl; lia]. split; [|done].
    cbn. destruct (Z.leb_spec threshold 0); lia. }
  clearbody hist m. destruct Hmon as [Ht Hmon].
  assert (∀ a, a ∈ st_Addr <$> Snapshot m ↔ is_Some (statuses m !! a)) as Hsnap.
  { intros a. unfold Snapshot. rewrite list_elem_of_fmap. setoid_rewrite list_elem_of_omap. split.
    - intros (st & -> & b & _ & Hb). pose proof (Hmon b) as Hb'. rewrite Hb in Hb'.
      destruct (hist b); [|done]. destruct Hb' as [-> _]. rewrite Hb. eauto.
    - intros [st Hst]. exists st. pose proof (Hmon a) as Ha. rewrite Hst in Ha. destruct (hist a); [|done].
      split; [by destruct Ha|]. exists a. split; [|done].
      apply elem_of_sort_strings, elem_of_elements, elem_of_dom. rewrite Hst. eauto. }
  split_and!; [done|..].
  - intros a. unfold HealthyAddrs. rewrite elem_of_sort_strings, elem_of_elements, elem_of_dom. split.
    + intros [st [Hst Hh]%map_lookup_filter_Some]. cbn in Hh. specialize (Hmon a). rewrite Hst in Hmon.
      destruct (hist a) as [h|]; [|done]. destruct Hmon as [_ [Hf _ _ Hhealthy]]. exists h. split; [done|].
      rewrite Hhealthy in Hh. apply bool_decide_eq_true in Hh. lia.
    + intros (h & Hh & Hlt). specialize (Hmon a). rewrite Hh in Hmon. destruct (statuses m !! a) as [st|] eqn:Hst; [|done].
      destruct Hmon as [_ [Hf _ _ Hhealthy]]. exists st. apply map_lookup_filter_Some. split; [done|]. cbn.
      rewrite Hhealthy. apply bool_decide_eq_true. lia.
  - intros a. rewrite Hsnap. specialize (Hmon a). destruct (hist a), (statuses m !! a); try done; split; intros []; eauto; done.
  - unfold Snapshot.
    assert (∀ l, (∀ a, a ∈ l → is_Some (statuses m !! a)) → st_Addr <$> omap (λ a, statuses m !! a) l = l) as ->.
    { induction l as [|a l IH]; intros Hl; [done|]. destruct (Hl a) as [st Hst]; [by left|].
      cbn [omap list_omap]. rewrite Hst. rewrite fmap_cons, IH by (intros b Hb; apply Hl; by right). f_equal.
      specialize (Hmon a). rewrite Hst in Hmon. destruct (hist a); [|done]. by destruct Hmon. }
    + apply (StronglySorted_merge_sort String.le).
    + intros a Ha. by apply elem_of_dom, elem_of_elements, elem_of_sort_strings.
Qed.

(** An empty registry evicts nothing: the nodes removed last stay in the snapshot. *)
Lemma empty_tick_evicts_nothing sched probe m : Tick sched probe [] m = m.
Proof. reflexivity. Qed.

(** ** Witness: dn2 fails three times in a row, then dn1 is removed *)
Definition w_probe (a : string) : Z * Z * option string :=
  if bool_decide (a = "dn2") then (5, 0, Some "refused")%Z else (5, 1, None)%Z.
Definition w_ticks : list tick :=
  [MkTick ["dn1"; "dn2"] w_probe id; MkTick ["dn1"; "dn2"] w_probe reverse; MkTick ["dn1"; "dn2"; "dn3"] w_probe id;
   MkTick ["dn2"; "dn3"] w_probe id].
Lemma w_ticks_ok : Forall tick_ok w_ticks.
Proof.
  unfold w_ticks. rewrite !Forall_cons. split_and!; [..|constructor].
  all: unfold tick_ok; cbn [t_addrs t_sched]; (split; [by_decide|]).
  2: apply reverse_Permutation.
  all: intros l; apply Permutation_refl.
Qed.
Lemma heartbeat_exact_witness :
  "dn3" ∈ HealthyAddrs (foldl run_tick (New 0 0) w_ticks) ∧ "dn2" ∉ HealthyAddrs (foldl run_tick (New 0 0) w_ticks).
Proof.
  destruct (heartbeat_exact 0 0 w_ticks w_ticks_ok) as (_ & H & _); [by apply Z.ltb_lt|]. split.
  - apply H. eexists. split; [reflexivity|]. by apply Z.ltb_lt.
  - intros (h & Hh & Hlt)%H. vm_compute in Hh. injection Hh as <-. by apply Z.ltb_lt in Hlt.
Defined.
