(* ===== verification/Snapshots.v ===== *)
(** * Metadata snapshots: internal/store/snapshot.go and scheduler.go

    The snapshot directory is a map from file names to entries.  The outcome of every
    file operation is an input.  [sort.Slice] is not stable: [newest_first] is any
    sort by modification time. *)
From S2P Require Import Prelude GF GoLib Kv Meta Store StoreProps Wal Replay Follower.

(** A broken-down UTC time, as [time.Now().UTC()] formats it. *)
Record UTC : Type := MkUTC { year : Z; month : Z; day : Z; hour : Z; minute : Z; second : Z }.
Fixpoint zeros (n : nat) : string := match n with 0 => "" | S n => ("0" ++ zeros n)%string end.
Definition pad (width : nat) (z : Z) : string := let s := itoa z in (zeros (width - String.length s) ++ s)%string.
(** Layout 20060102T150405Z. *)
Definition format_stamp (t : UTC) : string :=
  (pad 4 (year t) ++ pad 2 (month t) ++ pad 2 (day t) ++ "T" ++ pad 2 (hour t) ++ pad 2 (minute t)
   ++ pad 2 (second t) ++ "Z")%string.

Definition snapshotPrefix : string := "kvfs-meta-snap-".
Definition snapshotSuffix : string := ".bbolt".
(** [strings.HasSuffix] *)
Definition has_suffix (s suf : string) : bool := has_prefix (string_of (rev (bytes_of s))) (string_of (rev (bytes_of suf))).
Definition is_snapshot_name (name : string) : bool := has_prefix name snapshotPrefix && has_suffix name snapshotSuffix.

Section snapshots.
Context {M : Type → Type} {KVM : KV M}.
Notation DB := (@DB M).

(** ** Snapshot and statistics *)
(** [Snapshot] writes the database as of one read transaction. *)
Definition Snapshot (db : DB) : DB := db.

Record MetaStats : Type := MkMetaStats
  { ms_Objects : nat; ECObjects : nat; ChunkCount : nat; StripeCount : nat; ShardCount : nat;
    ms_DNs : nat; RuntimeDNs : nat; URLKeys : nat; BBoltBytes : Z }.
Definition count_object (s : MetaStats) (o : ObjectMeta) : MetaStats :=
  if IsEC o
  then MkMetaStats (ms_Objects s) (S (ECObjects s)) (ChunkCount s) (StripeCount s + length (Stripes o))
         (ShardCount s + sum_list (length <$> (Shards <$> Stripes o))) (ms_DNs s) (RuntimeDNs s) (URLKeys s) (BBoltBytes s)
  else MkMetaStats (ms_Objects s) (ECObjects s) (ChunkCount s + length (Chunks o)) (StripeCount s)
         (ShardCount s) (ms_DNs s) (RuntimeDNs s) (URLKeys s) (BBoltBytes s).
Definition len_or_zero {A} (r : result store_error (list A)) : nat := match r with Ok l => length l | Err _ => 0 end.
(** The objects are decoded as they are stored, without the legacy fields being folded in. *)
Definition Stats (size : Z) (db : DB) : result store_error MetaStats :=
  objs ←? decode_all (kv_list (objects db));
  Ok (foldl count_object
        (MkMetaStats (length objs) 0 0 0 0 (len_or_zero (ListDNs db)) (length (ListRuntimeDNs db))
           (len_or_zero (ListURLKeys db)) size) objs).

(** ** The directory *)
Record dirent : Type := MkDirent { e_dir : bool; e_size : Z; e_mod : Z; e_db : option DB }.
Notation Dir := (gmap string dirent).

Record SnapshotInfo : Type := MkInfo { si_Name : string; SizeBytes : Z; ModTime : Z }.
Context (newest_first : list SnapshotInfo → list SnapshotInfo).

(** The entries the scheduler takes for snapshots; [info_ok] is whether Info() succeeds. *)
Definition snapshot_entry (info_ok : string → bool) (x : string * dirent) : option SnapshotInfo :=
  let '(name, e) := x in
  if e_dir e || negb (is_snapshot_name name) then None
  else if info_ok name then Some (MkInfo name (e_size e) (e_mod e)) else None.
Definition snapshots (info_ok : string → bool) (d : Dir) : list SnapshotInfo :=
  omap (snapshot_entry info_ok) (map_to_list d).
(** [readdir] is whether the directory could be read. *)
Definition listSnapshots (readdir : bool) (info_ok : string → bool) (d : Dir) : list SnapshotInfo :=
  if readdir then newest_first (snapshots info_ok d) else [].

(** Removes the files in order; stops at the first that cannot be removed. *)
Fixpoint remove_loop (remove_ok : string → bool) (l : list SnapshotInfo) (d : Dir) : bool * Dir :=
  match l with
  | [] => (true, d)
  | s :: l => if remove_ok (si_Name s) then remove_loop remove_ok l (delete (si_Name s) d) else (false, d)
  end.
Definition prune (keep : Z) (readdir : bool) (info_ok remove_ok : string → bool) (d : Dir) : bool * Dir :=
  if negb readdir then (false, d)
  else
    let snaps := snapshots info_ok d in
    if (Z.of_nat (length snaps) <=? keep)%Z then (true, d)
    else remove_loop remove_ok (drop (Z.to_nat keep) (newest_first snaps)) d.

(** ** The scheduler *)
Record SnapshotScheduler : Type := MkScheduler
  { interval : Z; keep : Z; lastRun : option UTC; sn_lastSize : Z; sn_lastErr : bool; runs : Z; errs : Z }.
Definition NewSnapshotScheduler (interval keep : Z) : SnapshotScheduler :=
  MkScheduler interval (if (keep <=? 0)%Z then 7%Z else keep) None 0 false 0 0.
Definition sched_recordOK (now : UTC) (size : Z) (s : SnapshotScheduler) : SnapshotScheduler :=
  MkScheduler (interval s) (keep s) (Some now) size false (u64 (runs s + 1)) (errs s).
Definition sched_recordErr (s : SnapshotScheduler) : SnapshotScheduler :=
  MkScheduler (interval s) (keep s) (lastRun s) (sn_lastSize s) true (runs s) (u64 (errs s + 1)).

(** The outcomes of a run's file operations; [sz]: the bytes the snapshot wrote. *)
Record run_io : Type := MkRunIO
  { open_ok : bool; sz : option Z; close_ok : bool; rename_ok : bool; readdir_ok : bool;
    info_ok : string → bool; remove_ok : string → bool; truncate_flush : option (nat * bool); truncate_ok : bool }.
Definition snapshot_name (now : UTC) : string := (snapshotPrefix ++ format_stamp now ++ snapshotSuffix)%string.

(** The removal of the temporary file, whose error is ignored. *)
Definition drop_tmp (io : run_io) (tmp : string) (d : Dir) : Dir := if remove_ok io tmp then delete tmp d else d.

(** [mtime] is the new file's modification time; [wal] is absent where the log is off. *)
Definition runOnce (now : UTC) (mtime : Z) (io : run_io) (db : DB) (wal : option (WAL walop)) (d : Dir) (s : SnapshotScheduler)
    : SnapshotScheduler * Dir * option (WAL walop) :=
  let full := snapshot_name now in
  let tmp := (full ++ ".tmp")%string in
  if negb (open_ok io) then (sched_recordErr s, d, wal)
  else
    match sz io, close_ok io with
    | Some n, true =>
        let e := MkDirent false n mtime (Some (Snapshot db)) in
        if negb (rename_ok io) then (sched_recordErr s, drop_tmp io tmp (<[tmp := e]> d), wal)
        else
          let d := <[full := e]> (delete tmp d) in
          let s := sched_recordOK now n s in
          let '(ok, d) := prune (keep s) (readdir_ok io) (info_ok io) (remove_ok io) d in
          let s := if ok then s else sched_recordErr s in
          match wal with
          | None => (s, d, None)
          | Some w =>
              match Truncate (truncate_flush io) (truncate_ok io) w with
              | (Ok _, w) => (s, d, Some w)
              | (Err _, w) => (sched_recordErr s, d, Some w)
              end
          end
    | _, _ => (sched_recordErr s, drop_tmp io tmp (<[tmp := MkDirent false 0 mtime None]> d), wal)
    end.

Definition newer_eq (a b : SnapshotInfo) : Prop := (ModTime b ≤ ModTime a)%Z.
Context (Hperm : ∀ l, newest_first l ≡ₚ l) (Hsorted : ∀ l, StronglySorted newer_eq (newest_first l)).

Lemma elem_of_snapshots ok d si :
  si ∈ snapshots ok d ↔ ∃ e, d !! si_Name si = Some e ∧ snapshot_entry ok (si_Name si, e) = Some si.
Proof.
  unfold snapshots. rewrite list_elem_of_omap. split.
  - intros ([n e] & Hin & Hs). apply elem_of_map_to_list in Hin. assert (si_Name si = n) as ->; [|eauto].
    unfold snapshot_entry in Hs. repeat case_match; try done. by injection Hs as <-.
  - intros (e & He & Hs). exists (si_Name si, e). split; [by apply elem_of_map_to_list|done].
Qed.

Lemma NoDup_snapshots ok d : NoDup (si_Name <$> snapshots ok d).
Proof.
  unfold snapshots. pose proof (NoDup_fst_map_to_list d) as Hnd. induction (map_to_list d) as [|[n e] l IH]; [constructor|].
  cbn [fmap list_fmap fst] in Hnd. apply NoDup_cons in Hnd as [Hn Hnd]. cbn [omap list_omap].
  destruct (snapshot_entry ok (n, e)) as [si|] eqn:Hs; [|by apply IH]. cbn [fmap list_fmap].
  apply NoDup_cons. split; [|by apply IH]. intros Hin'.
  apply list_elem_of_fmap in Hin' as (si' & Hname & Hin'). apply list_elem_of_omap in Hin' as ([n' e'] & Hin & Hs').
  assert (si_Name si = n ∧ si_Name si' = n') as [En En'].
  { unfold snapshot_entry in Hs, Hs'. repeat case_match; try done. by injection Hs as <-; injection Hs' as <-. }
  apply Hn. apply list_elem_of_fmap. exists (n', e'). split; [simpl; congruence|done].
Qed.

Lemma remove_loop_spec rm l d b d' :
  remove_loop rm l d = (b, d') →
  (∀ n, n ∉ si_Name <$> l → d' !! n = d !! n) ∧ (∀ n, d' !! n = d !! n ∨ d' !! n = None) ∧
  (b = true → ∀ n, n ∈ si_Name <$> l → d' !! n = None) ∧ ((∀ n, rm n = true) → b = true).
Proof.
  revert d. induction l as [|s l IH]; intros d Hr; cbn [remove_loop] in Hr.
  { injection Hr as <- <-. split_and!; auto. by intros _ n ?%elem_of_nil. }
  destruct (rm (si_Name s)) eqn:Hrm.
  - destruct (IH _ Hr) as (H1 & H2 & H3 & H4). split_and!; [..|done].
    + intros n Hn. rewrite fmap_cons, not_elem_of_cons in Hn. destruct Hn as [Hne Hn].
      rewrite H1 by done. by rewrite lookup_delete_ne.
    + intros n. destruct (decide (n = si_Name s)) as [->|Hne].
      * right. destruct (H2 (si_Name s)) as [->|?]; [apply lookup_delete_eq|done].
      * destruct (H2 n) as [->|?]; [left; by rewrite lookup_delete_ne|by right].
    + intros Hb n Hn. rewrite fmap_cons, elem_of_cons in Hn. destruct Hn as [->|Hn]; [|by apply H3].
      destruct (H2 (si_Name s)) as [->|?]; [apply lookup_delete_eq|done].
  - injection Hr as <- <-. split_and!; auto; [done|]. intros Hall. by rewrite Hall in Hrm.
Qed.

(** Rotation keeps the newest snapshots.  When every entry can be examined and
    removed, pruning succeeds and leaves exactly [keep] snapshots, or all where there
    are no more than that; none that it removed is newer than one it kept; and files
    that are not snapshots are untouched, as they are whatever fails. *)
Theorem prune_keeps_newest keep readdir ok rm d b d' :
  (0 ≤ keep)%Z → prune keep readdir ok rm d = (b, d') →
  (∀ n e, d !! n = Some e → snapshot_entry ok (n, e) = None → d' !! n = Some e) ∧
  (readdir = true → (∀ n, ok n = true) → (∀ n, rm n = true) →
     b = true ∧
     ∃ kept gone, kept ++ gone ≡ₚ snapshots ok d ∧
       length kept = Z.to_nat keep `min` length (snapshots ok d) ∧
       (∀ x y, x ∈ kept → y ∈ gone → newer_eq x y) ∧
       (∀ x, x ∈ kept → d' !! si_Name x = d !! si_Name x) ∧ (∀ y, y ∈ gone → d' !! si_Name y = None)).
Proof.
  intros Hkeep. unfold prune. destruct readdir; cbn [negb]; [|by intros [= <- <-]].
  destruct (Z.leb_spec (Z.of_nat (length (snapshots ok d))) keep) as [Hle|Hgt].
  { intros [= <- <-]. split; [done|]. intros _ _ _. split; [done|]. exists (snapshots ok d), [].
    rewrite app_nil_r. split_and!; [done|lia|by intros ? ? _ ?%elem_of_nil|done|by intros ? ?%elem_of_nil]. }
  set (k := Z.to_nat keep). set (l := newest_first (snapshots ok d)). intros Hr.
  assert (l ≡ₚ snapshots ok d) as Hl by apply Hperm.
  assert (NoDup (si_Name <$> l)) as Hnd by (rewrite Hl; apply NoDup_snapshots).
  destruct (remove_loop_spec _ _ _ _ _ Hr) as (H1 & H2 & H3 & H4). split.
  - intros n e He Hs. rewrite H1; [done|]. intros (si & -> & Hin)%list_elem_of_fmap.
    assert (si ∈ snapshots ok d) as Hsi by (rewrite <- Hl; eapply elem_of_sublist; [exact Hin|apply sublist_drop]).
    apply elem_of_snapshots in Hsi as (e' & He' & Hs'). rewrite He in He'. injection He' as <-. by rewrite Hs in Hs'.
  - intros _ _ Hrm. rewrite H4 by done. split; [done|]. exists (take k l), (drop k l). rewrite take_drop.
    split_and!; [done|rewrite length_take, Hl; lia| | |].
    + intros x y Hx Hy. pose proof (Hsorted (snapshots ok d)) as Hs. fold l in Hs.
      rewrite <- (take_drop k l) in Hs. by eapply (StronglySorted_app_1_elem_of _ _ _ _ _ Hs).
    + intros x Hx. apply H1. intros (y & E & Hy)%list_elem_of_fmap.
      rewrite <- (take_drop k l), fmap_app in Hnd. apply NoDup_app in Hnd as (_ & Hdis & _).
      apply (Hdis (si_Name x)); [by apply list_elem_of_fmap_2|]. rewrite E. by apply list_elem_of_fmap_2.
    + intros y Hy. apply H3; [by apply H4|]. by apply list_elem_of_fmap_2.
Qed.
End snapshots.

(** The run truncates the log after the snapshot was taken: a write acknowledged in between
    is in neither. *)
Lemma truncation_drops_later_writes :
  GetObject (Snapshot (p_db w_p1)) "photos" "cat.jpg" = Err ErrNotFound ∧
  is_ok (GetObject (p_db w_p2) "photos" "cat.jpg") = true ∧ p_pending w_p2 = [] ∧
  log_is (p_wal (compact w_p2)) [].
Proof. split_and!; [reflexivity..|]. apply (compact_restarts w_p2 w_p2_log w_p2_log_is). Qed.

(** ** Witness *)
#[local] Instance newer_eq_dec (a b : SnapshotInfo) : Decision (newer_eq a b).
Proof. unfold newer_eq. apply _. Defined.
#[local] Instance newer_eq_trans : Transitive newer_eq.
Proof. intros a b c. unfold newer_eq. lia. Qed.
#[local] Instance newer_eq_total : Total newer_eq.
Proof. intros a b. unfold newer_eq. lia. Qed.

Definition w_snap (t : Z) : @dirent (gmap string) := MkDirent false 4096 t (Some empty_db).
Definition w_name (h : Z) : string := snapshot_name (MkUTC 2026 4 30 h 0 0).
Definition w_dir : gmap string (@dirent (gmap string)) :=
  {[w_name 1 := w_snap 10; w_name 2 := w_snap 20; w_name 3 := w_snap 30; "edge.db" := w_snap 0]}.
Definition w_pruned := prune (merge_sort newer_eq) 2 true (λ _, true) (λ _, true) w_dir.
Lemma prune_keeps_newest_witness :
  w_pruned.2 !! "edge.db" = Some (w_snap 0) ∧
  ∃ kept gone, kept ++ gone ≡ₚ snapshots (λ _, true) w_dir ∧ length kept = 2.
Proof.
  destruct (prune_keeps_newest (merge_sort newer_eq) (merge_sort_Permutation newer_eq)
    (StronglySorted_merge_sort newer_eq) 2 true (λ _, true) (λ _, true) w_dir w_pruned.1 w_pruned.2)
    as [H1 H2]; [done|exact (surjective_pairing w_pruned)|].
  split; [apply H1; reflexivity|].
  destruct H2 as (_ & kept & gone & Hp & Hl & _); [done..|]. exists kept, gone. split; [exact Hp|].
  rewrite Hl. vm_compute. reflexivity.
Defined.
