(* ===== verification/Edge.v ===== *)
(** * The edge's data path: PUT, GET, HEAD and DELETE of internal/edge/edge.go

    Metadata lives behind [MetaService]: the edge's own store or a coord daemon
    ([commitPutMeta], [lookupMeta], [deleteMeta], [placeN] pick one).  Chunks go to the
    cluster of Coordinator.v.  A request body is an io.Reader given by its deliveries
    (Chunker.v).  [sched] and [isched] are the orders in which concurrent calls
    complete.  A client that disconnects is not modelled. *)
From S2P Require Import Prelude GF Matrix ReedSolomon GoLib Chunker Cdc Placement UrlKey Kv Meta Store.
From S2P Require Import DataNode Transport Coordinator Election Follower.
From Stdlib Require Import Strings.Byte Strings.Ascii.

(** ** Where the metadata is *)
Inductive meta_error : Type := MetaNotFound | MetaFailed.
Class MetaService (X : Type) : Type :=
  { ms_placeN : string → Z → Cluster → X → result meta_error (list string) * X;
    ms_classDNs : string → X → option (list string);
    ms_commit : ObjectMeta → X → result meta_error ObjectMeta * X;
    ms_lookup : string → string → X → result meta_error ObjectMeta * X;
    ms_delete : string → string → X → result meta_error unit * X;
    (** the record a lookup of (bucket, key) may return now *)
    ms_stored : X → string → string → option ObjectMeta }.

(** What the handlers rely on: a commit that succeeds makes its record the stored one,
    up to the version and the time it was given; one that fails before it is sent
    changes nothing; a lookup that succeeds returns the stored record; after a delete that
    succeeds there is none. *)
Definition committed (o o' : ObjectMeta) : Prop :=
  ∃ v t, o' = normalizeLegacy (with_created (with_version o v) t).
Class MetaServiceLaws (X : Type) `{!MetaService X} : Prop :=
  { commit_law o (x : X) o' x' : ms_commit o x = (Ok o', x') →
      ∃ os, ms_stored x' (Bucket o) (Key o) = Some os ∧ committed o os;
    lookup_law b k (x : X) r x' : ms_lookup b k x = (r, x') →
      ms_stored x' b k = ms_stored x b k ∧
      match r with Ok o => ms_stored x b k = Some o | Err _ => True end;
    place_law key n w (x : X) r x' : ms_placeN key n w x = (r, x') →
      ∀ b k, ms_stored x' b k = ms_stored x b k;
    remove_law b k (x x' : X) : ms_delete b k x = (Ok (), x') → ms_stored x' b k = None }.

(** ** Headers *)
(** Zero: the header is absent. *)
Definition parseQuorumHeader (v : string) (max : Z) : option Z :=
  let v := TrimSpace v in
  if bool_decide (v = "") then Some 0%Z
  else match parse_int v with
       | None => None
       | Some n =>
           if (n <? 1)%Z then None
           else if (0 <? max)%Z && (max <? n)%Z then None
           else Some n
       end.
Definition parseEC (hdr : string) : option (Z * Z) :=
  match SplitN2 hdr "+"%char with
  | [a; b] =>
      match parse_int (TrimSpace a), parse_int (TrimSpace b) with
      | Some k, Some m => if (k <=? 0)%Z || (m <=? 0)%Z then None else Some (k, m)
      | _, _ => None
      end
  | _ => None
  end.
Definition maxReplicas (chunks : list ChunkRef) : nat :=
  match chunks with
  | [] => 0
  | c :: chunks => foldl (λ m c, if length (Replicas c) <? m then length (Replicas c) else m) (length (Replicas c)) chunks
  end.

(** ** The server and its readers *)
Record EdgeServer : Type := MkEdge
  { ed_ChunkSize : Z; ed_CDCEnabled : bool; ed_CDCConfig : CDCConfig; ed_PreferClass : string;
    ed_SkipAuth : bool; ed_Signer : Signer; ed_Elector : option Elector; ed_Role : Role;
    ed_PrimaryURL : option string }.
Definition chunkSize (e : EdgeServer) : Z :=
  if (ed_ChunkSize e <=? 0)%Z then Z.of_nat DefaultChunkSize else ed_ChunkSize e.

Record request : Type := MkRequest
  { q_method : string; q_path : string; q_query : url_values; q_bucket : string; q_key : string;
    q_EC : string; q_W : string; q_R : string; q_ContentType : string; q_body : source }.
Definition verifyAuth (e : EdgeServer) (now : Z) (q : request) : bool :=
  ed_SkipAuth e || is_ok (Verify (ed_Signer e) (q_method q) (q_path q) (q_query q) now).
Definition rejects_write (e : EdgeServer) : bool :=
  match rejectIfFollowerWrite (ed_Elector e) (ed_Role e) (ed_PrimaryURL e) with Some _ => true | None => false end.
Definition content_type (q : request) : string :=
  if bool_decide (q_ContentType q = "") then "application/octet-stream" else q_ContentType q.

(** Status 0: the handler panics and the connection is dropped. *)
Inductive put_reply : Type := PutRefused (status : Z) | PutCreated (meta : ObjectMeta).
(** Status, Content-Length header if set, and the bytes written. *)
Record get_reply : Type := MkGet { g_status : Z; g_length : option Z; g_body : list byte }.
Definition get_error (status : Z) : get_reply := MkGet status None [].

(** The bytes of all deliveries, whatever their order. *)
Definition delivered (d : delivery) : list byte := match d with Data b | Last b => b | Fail => [] end.
Definition body_fuel (src : source) : nat := S (length (src ≫= delivered)).

Section edge.
Context (gear : list Z).
Context (net : nat → outcome) (sched : list string → list string) (isched : list nat → list nat).
Context {X : Type} {HM : MetaService X}.

Inductive pieceReader : Type := FixedReader (r : Reader) | CDCPieces (c : CDCReader).
Definition Next (r : pieceReader) : result io_error StreamPiece * pieceReader :=
  match r with
  | FixedReader r => let '(p, r) := Reader_Next r in (p, FixedReader r)
  | CDCPieces c => let '(p, c) := CDC_Next gear c in (p, CDCPieces c)
  end.
Definition newPutReader (e : EdgeServer) (src : source) : pieceReader :=
  if ed_CDCEnabled e then CDCPieces (NewCDCReader src (ed_CDCConfig e))
  else FixedReader (NewReader src (chunkSize e)).

(** ** Writing one chunk *)
Definition writeChunkPreferClassW (e : EdgeServer) (chunkID : string) (data : list byte) (wq : Z) (w : Cluster) (x : X)
    : option (list string) * (Cluster * X) :=
  let r := replicationFactor (coord w) in
  let write targets x :=
    let '((replicas, err), w) := WriteChunkToAddrsW net sched chunkID data targets wq w in
    (match err with None => Some replicas | Some _ => None end, (w, x)) in
  let placed := match ms_placeN chunkID r w x with
                | (Err _, x) => (None, (w, x))
                | (Ok targets, x) => write targets x
                end in
  if bool_decide (ed_PreferClass e = "") then placed
  else match ms_classDNs (ed_PreferClass e) x with
       | None => placed
       | Some classDNs =>
           if (Z.of_nat (length classDNs) <? r)%Z then placed
           else write (coord_PlaceNFromAddrs chunkID r classDNs) x
       end.

(** The loop of handlePut; every piece takes at least a byte of the body. *)
Fixpoint put_loop (fuel : nat) (e : EdgeServer) (wq : Z) (rd : pieceReader) (chunkRefs : list ChunkRef) (totalSize : Z)
    (w : Cluster) (x : X) : result Z (list ChunkRef * Z) * (Cluster * X) :=
  match fuel with
  | 0 => (Err 0%Z, (w, x))
  | S fuel =>
      match Next rd with
      | (Err EOF, _) => (Ok (chunkRefs, totalSize), (w, x))
      | (Err _, _) => (Err 400%Z, (w, x))
      | (Ok piece, rd) =>
          match writeChunkPreferClassW e (p_ID piece) (p_Data piece) wq w x with
          | (None, wx) => (Err 502%Z, wx)
          | (Some replicas, (w, x)) =>
              put_loop fuel e wq rd (chunkRefs ++ [MkChunkRef (p_ID piece) (Chunker.p_Size piece) replicas])
                (i64 (totalSize + Chunker.p_Size piece)) w x
          end
      end
  end.

Definition commit_reply (meta : ObjectMeta) (w : Cluster) (x : X) : put_reply * (Cluster * X) :=
  match ms_commit meta x with
  | (Err _, x) => (PutRefused 500, (w, x))
  | (Ok meta, x) => (PutCreated meta, (w, x))
  end.

Definition put_replicated (e : EdgeServer) (q : request) (w : Cluster) (x : X) : put_reply * (Cluster * X) :=
  match parseQuorumHeader (q_W q) (replicationFactor (coord w)) with
  | None => (PutRefused 400, (w, x))
  | Some wq =>
      match put_loop (body_fuel (q_body q)) e wq (newPutReader e (q_body q)) [] 0 w x with
      | (Err st, wx) => (PutRefused st, wx)
      | (Ok (chunkRefs, totalSize), (w, x)) =>
          if length chunkRefs =? 0 then (PutRefused 400, (w, x))
          else
            commit_reply (MkObjectMeta (q_bucket q) (q_key q) totalSize (content_type q) "" chunkRefs None []
              0 0 (ed_PreferClass e) "" []) w x
      end
  end.

(** ** Erasure-coded PUT *)
(** [padded] is zero-filled to K shards of [shardSz] bytes. *)
Record stripePayload : Type := MkPayload { sp_raw : list byte; sp_padded : list byte; sp_shardSz : nat }.
Definition payload (raw : list byte) (shardSz k : nat) : stripePayload :=
  MkPayload raw (raw ++ replicate (shardSz * k - length raw) x00) shardSz.
Inductive stripe_reader : Type := FixedStripes (src : source) | CDCStripes (c : CDCReader).
(** The error is [None] when more may follow and [UnexpectedEOF] with the last payload. *)
Definition nextStripe (e : EdgeServer) (k : nat) (rd : stripe_reader)
    : result io_error (stripePayload * option io_error) * stripe_reader :=
  match rd with
  | CDCStripes c =>
      match CDC_Next gear c with
      | (Err er, c) => (Err er, CDCStripes c)
      | (Ok p, c) =>
          let ssz := (length (p_Data p) + k - 1) / k in
          let ssz := if ssz =? 0 then 1 else ssz in
          (Ok (payload (p_Data p) ssz k, None), CDCStripes c)
      end
  | FixedStripes src =>
      let shardSize := Z.to_nat (chunkSize e) in
      let '(buf, err, src) := io_read_full (io_fuel src) src (k * shardSize) [] in
      match err with
      | Some EOF => (Err EOF, FixedStripes src)
      | Some ReadError => (Err ReadError, FixedStripes src)
      | err => (Ok (payload buf shardSize k, err), FixedStripes src)
      end
  end.

Definition data_shards (k : nat) (p : stripePayload) : list shard :=
  (λ di, take (sp_shardSz p) (drop (di * sp_shardSz p) (sp_padded p))) <$> seq 0 k.

(** The shards of a stripe, one node each; [None]: a node refused. *)
Fixpoint put_shards (addrs : list string) (all : list shard) (refs : list ChunkRef) (w : Cluster)
    : option (list ChunkRef) * Cluster :=
  match all with
  | [] => (Some refs, w)
  | sh :: all =>
      let shardID := sha256_hex sh in
      let addr := addrs !!! length refs in
      match putChunk net addr shardID sh w with
      | (Err _, w) => (None, w)
      | (Ok _, w) => put_shards addrs all (refs ++ [MkChunkRef shardID (Z.of_nat (length sh)) [addr]]) w
      end
  end.

Definition put_stripe (e : EdgeServer) (enc : Encoder) (k m : nat) (p : stripePayload) (w : Cluster) (x : X)
    : result Z Stripe * (Cluster * X) :=
  let dataShards := data_shards k p in
  match Encode enc dataShards with
  | Err _ => (Err 500%Z, (w, x))
  | Ok parityShards =>
      let stripeID := sha256_hex (concat dataShards) in
      match ms_placeN stripeID (Z.of_nat (k + m)) w x with
      | (Err _, x) => (Err 502%Z, (w, x))
      | (Ok dnAddrs, x) =>
          if length dnAddrs <? k + m then (Err 502%Z, (w, x))
          else
            match put_shards dnAddrs (dataShards ++ parityShards) [] w with
            | (None, w) => (Err 502%Z, (w, x))
            | (Some shardRefs, w) =>
                (Ok (MkStripe stripeID shardRefs
                       (if ed_CDCEnabled e then Z.of_nat (length (sp_raw p)) else 0%Z)), (w, x))
            end
      end
  end.

Fixpoint ec_put_loop (fuel : nat) (e : EdgeServer) (enc : Encoder) (k m : nat) (rd : stripe_reader)
    (stripes : list Stripe) (dataLen : Z) (w : Cluster) (x : X) : result Z (list Stripe * Z) * (Cluster * X) :=
  match fuel with
  | 0 => (Err 0%Z, (w, x))
  | S fuel =>
      match nextStripe e k rd with
      | (Err EOF, _) => (Ok (stripes, dataLen), (w, x))
      | (Err _, _) => (Err 400%Z, (w, x))
      | (Ok (p, rerr), rd) =>
          let dataLen := i64 (dataLen + Z.of_nat (length (sp_raw p))) in
          match put_stripe e enc k m p w x with
          | (Err st, wx) => (Err st, wx)
          | (Ok stripe, (w, x)) =>
              match rerr with
              | Some UnexpectedEOF => (Ok (stripes ++ [stripe], dataLen), (w, x))
              | _ => ec_put_loop fuel e enc k m rd (stripes ++ [stripe]) dataLen w x
              end
          end
      end
  end.

Definition handlePutECStream (e : EdgeServer) (q : request) (w : Cluster) (x : X) : put_reply * (Cluster * X) :=
  match parseEC (q_EC q) with
  | None => (PutRefused 400, (w, x))
  | Some (k, m) =>
      if (Z.of_nat (length (coord_DNs (coord w))) <? i64 (k + m))%Z then (PutRefused 400, (w, x))
      else
        match NewEncoder k m with
        | Err ErrPanic => (PutRefused 0, (w, x))
        | Err _ => (PutRefused 400, (w, x))
        | Ok enc =>
            let rd := if ed_CDCEnabled e then CDCStripes (NewCDCReader (q_body q) (ed_CDCConfig e))
                      else FixedStripes (q_body q) in
            match ec_put_loop (body_fuel (q_body q)) e enc (Z.to_nat k) (Z.to_nat m) rd [] 0 w x with
            | (Err st, wx) => (PutRefused st, wx)
            | (Ok (stripes, dataLen), (w, x)) =>
                if (dataLen =? 0)%Z then (PutRefused 400, (w, x))
                else
                  commit_reply (MkObjectMeta (q_bucket q) (q_key q) dataLen (content_type q) "" []
                    (Some (MkECParams k m (chunkSize e) dataLen)) stripes 0 0 (ed_PreferClass e) "" []) w x
            end
        end
  end.

Definition handlePut (e : EdgeServer) (now : Z) (q : request) (w : Cluster) (x : X) : put_reply * (Cluster * X) :=
  if rejects_write e then (PutRefused 503, (w, x))
  else if negb (verifyAuth e now q) then (PutRefused 401, (w, x))
  else if bool_decide (q_bucket q = "") || bool_decide (q_key q = "") then (PutRefused 400, (w, x))
  else if negb (bool_decide (q_EC q = "")) then handlePutECStream e q w x
  else put_replicated e q w x.

(** ** GET *)
Definition verified_read (chunkID : string) (replicas : list string) (w : Cluster) : option (list byte) * Cluster :=
  match coord_ReadChunk net chunkID replicas w with
  | (Ok (data, _), w) => (if bool_decide (sha256_hex data = chunkID) then Some data else None, w)
  | (Err _, w) => (None, w)
  end.

(** The first [r] replicas, all of which must agree. *)
Fixpoint agreement_loop (chunkID : string) (addrs : list string) (first : option (list byte)) (w : Cluster)
    : option (option (list byte)) * Cluster :=
  match addrs with
  | [] => (Some first, w)
  | a :: addrs =>
      match verified_read chunkID [a] w with
      | (None, w) => (None, w)
      | (Some data, w) =>
          match first with
          | None => agreement_loop chunkID addrs (Some data) w
          | Some f => if bool_decide (data = f) then agreement_loop chunkID addrs first w else (None, w)
          end
      end
  end.
Definition readChunkAgreement (chunkID : string) (replicas : list string) (r : Z) (w : Cluster)
    : option (list byte) * Cluster :=
  if (r <=? 0)%Z || (Z.of_nat (length replicas) <? r)%Z then (None, w)
  else
    let '(res, w) := agreement_loop chunkID (sched (take (Z.to_nat r) replicas)) None w in
    (match res with Some (Some data) => Some data | _ => None end, w).

Definition read_chunk (rq : Z) (c : ChunkRef) (w : Cluster) : option (list byte) * Cluster :=
  if (1 <? rq)%Z then readChunkAgreement (ChunkID c) (Replicas c) rq w
  else match coord_ReadChunk net (ChunkID c) (Replicas c) w with
       | (Ok (data, _), w) => (Some data, w)
       | (Err _, w) => (None, w)
       end.
Fixpoint get_loop (i : nat) (meta : ObjectMeta) (rq : Z) (chunks : list ChunkRef) (out : get_reply) (w : Cluster)
    : get_reply * Cluster :=
  match chunks with
  | [] => (out, w)
  | c :: chunks =>
      let '(data, w) := read_chunk rq c w in
      match data with
      | None => (if i =? 0 then get_error 502 else out, w)
      | Some data =>
          if negb (Z.of_nat (length data) =? cr_Size c)%Z then (out, w)
          else
            let len := if i =? 0 then Some (Size meta) else g_length out in
            get_loop (S i) meta rq chunks (MkGet 200 len (g_body out ++ data)) w
      end
  end.

(** The shards of a stripe, fetched together: the first [quorum] verified ones count. *)
Fixpoint fetch_shards (quorum : nat) (order : list nat) (shards : list ChunkRef) (out : list shard) (survivors : nat)
    (w : Cluster) : list shard * nat * Cluster :=
  match order with
  | [] => (out, survivors, w)
  | idx :: order =>
      match shards !! idx with
      | None => fetch_shards quorum order shards out survivors w
      | Some ref =>
          let '(data, w) := verified_read (ChunkID ref) (Replicas ref) w in
          match data with
          | Some data =>
              if survivors =? quorum then fetch_shards quorum order shards out survivors w
              else fetch_shards quorum order shards (<[idx := data]> out) (S survivors) w
          | None => fetch_shards quorum order shards out survivors w
          end
      end
  end.
Definition parallelFetchShards (shards : list ChunkRef) (quorum : nat) (w : Cluster) : list shard * nat * Cluster :=
  let total := length shards in
  fetch_shards quorum (isched (seq 0 total)) shards (replicate total []) 0 w.

(** Writes the data shards of a stripe, trimmed to what is left of the stripe or of the
    object. *)
Fixpoint write_shards (dataShards : list shard) (remaining : Z) (stripeRemaining : option Z) (body : list byte)
    : list byte * Z :=
  match dataShards with
  | [] => (body, remaining)
  | sh :: dataShards =>
      if negb (0 <? remaining)%Z then (body, remaining)
      else
        let toWrite := match stripeRemaining with
                       | Some sr => if (sr <? Z.of_nat (length sh))%Z then take (Z.to_nat sr) sh else sh
                       | None => if (remaining <? Z.of_nat (length sh))%Z then take (Z.to_nat remaining) sh else sh
                       end in
        let n := Z.of_nat (length toWrite) in
        let body := body ++ toWrite in
        let remaining := (remaining - n)%Z in
        match stripeRemaining with
        | Some sr => if (sr - n <=? 0)%Z then (body, remaining)
                     else write_shards dataShards remaining (Some (sr - n)%Z) body
        | None => write_shards dataShards remaining None body
        end
  end.

Fixpoint ec_get_loop (enc : Encoder) (k : nat) (stripeIdx : nat) (stripes : list Stripe) (remaining : Z)
    (out : get_reply) (w : Cluster) : get_reply * Cluster :=
  match stripes with
  | [] => (out, w)
  | stripe :: stripes =>
      let fail st := if stripeIdx =? 0 then MkGet st (g_length out) [] else out in
      let '(shards, survivors, w) := parallelFetchShards (Shards stripe) k w in
      if length shards <? k then (MkGet 0 (g_length out) (g_body out), w)
      else if survivors <? k then (fail 503%Z, w)
      else
        match Reconstruct enc shards with
        | Err _ => (fail 500%Z, w)
        | Ok shards =>
            let stripeRemaining := if (0 <? DataLen stripe)%Z then Some (DataLen stripe) else None in
            let '(body, remaining) := write_shards (take k shards) remaining stripeRemaining (g_body out) in
            ec_get_loop enc k (S stripeIdx) stripes remaining (MkGet 200 (g_length out) body) w
        end
  end.
Definition handleGetEC (meta : ObjectMeta) (ec : ECParams) (w : Cluster) : get_reply * Cluster :=
  match NewEncoder (ec_K ec) (ec_M ec) with
  | Err ErrPanic => (get_error 0, w)
  | Err _ => (get_error 500, w)
  | Ok enc =>
      ec_get_loop enc (Z.to_nat (ec_K ec)) 0 (Stripes meta) (DataSize ec) (MkGet 200 (Some (Size meta)) []) w
  end.

Definition get_replicated (q : request) (meta : ObjectMeta) (w : Cluster) : get_reply * Cluster :=
  match parseQuorumHeader (q_R q) (Z.of_nat (maxReplicas (Chunks meta))) with
  | None => (get_error 400, w)
  | Some rq => get_loop 0 meta rq (Chunks meta) (MkGet 200 None []) w
  end.
Definition get_object (q : request) (meta : ObjectMeta) (w : Cluster) : get_reply * Cluster :=
  match EC meta with
  | Some ec => if IsEC meta then handleGetEC meta ec w else get_replicated q meta w
  | None => get_replicated q meta w
  end.
Definition lookup_status (er : meta_error) : Z := match er with MetaNotFound => 404 | MetaFailed => 500 end.
Definition handleGet (e : EdgeServer) (now : Z) (q : request) (w : Cluster) (x : X) : get_reply * (Cluster * X) :=
  if negb (verifyAuth e now q) then (get_error 401, (w, x))
  else match ms_lookup (q_bucket q) (q_key q) x with
       | (Err er, x) => (get_error (lookup_status er), (w, x))
       | (Ok meta, x) => let '(r, w) := get_object q meta w in (r, (w, x))
       end.
Definition handleHead (e : EdgeServer) (now : Z) (q : request) (x : X) : Z * option ObjectMeta * X :=
  if negb (verifyAuth e now q) then (401%Z, None, x)
  else match ms_lookup (q_bucket q) (q_key q) x with
       | (Err er, x) => (lookup_status er, None, x)
       | (Ok meta, x) => (200%Z, Some meta, x)
       end.

(** ** DELETE: every chunk and shard, whatever fails, then the record *)
Definition delete_refs (l : list ChunkRef) (w : Cluster) : Cluster :=
  foldl (λ w c, (DeleteChunk net (ChunkID c) (Replicas c) w).2) w l.
Definition handleDelete (e : EdgeServer) (now : Z) (q : request) (w : Cluster) (x : X) : Z * (Cluster * X) :=
  if rejects_write e then (503%Z, (w, x))
  else if negb (verifyAuth e now q) then (401%Z, (w, x))
  else match ms_lookup (q_bucket q) (q_key q) x with
       | (Err er, x) => (lookup_status er, (w, x))
       | (Ok meta, x) =>
           let w := delete_refs (Chunks meta) w in
           let w := delete_refs (Stripes meta ≫= Shards) w in
           match ms_delete (q_bucket q) (q_key q) x with
           | (Err _, x) => (500%Z, (w, x))
           | (Ok _, x) => (204%Z, (w, x))
           end
       end.
End edge.
