(* ===== verification/EdgeProps.v ===== *)
(** * The edge's data path: what a GET returns of what was PUT *)
From S2P Require Import Prelude GF Matrix ReedSolomon GoLib Chunker Cdc Placement UrlKey Kv Meta Store.
From S2P Require Import DataNode Transport Coordinator Election Follower Repair Edge.
From Stdlib Require Import Strings.Byte.

Section edge.
Context (gear : list Z).
Context (net : nat → outcome) (sched : list string → list string) (isched : list nat → list nat).
Context {X : Type} {HM : MetaService X} {HML : MetaServiceLaws X}.
Context (Hsched : ∀ l, sched l ≡ₚ l) (Hisched : ∀ l, isched l ≡ₚ l).
#[local] Instance edge_cluster : ChunkService coord_error Cluster := cluster_service net.
Notation Next := (Edge.Next gear).

(** ** The readers deliver the body *)
Definition bytes_left (r : pieceReader) : list byte :=
  match r with FixedReader r => contents (r_src r) | CDCPieces c => pending c end.
Definition pieces_ok (r : pieceReader) : Prop :=
  match r with
  | FixedReader r => clean (r_src r) ∧ 1 ≤ r_chunkSize r ∧ r_buf r = true ∧ (r_done r = true → contents (r_src r) = [])
  | CDCPieces c => reader_ok c
  end.

Lemma Next_spec r : pieces_ok r →
  match Next r with
  | (Ok p, r') => ∃ data, p = newStreamPiece data ∧ data ≠ [] ∧ bytes_left r = data ++ bytes_left r' ∧ pieces_ok r'
  | (Err er, _) => er = EOF ∧ bytes_left r = []
  end.
Proof.
  destruct r as [[src c buf done_]|c]; cbn [Edge.Next pieces_ok bytes_left r_src r_chunkSize r_done r_buf].
  - intros (Hc & H1 & -> & Hd). destruct done_; [by rewrite Hd|].
    pose proof (Reader_Next_spec src c Hc H1) as Hn. cbn zeta in Hn.
    destruct (Reader_Next _) as [[p|er] r']; [|exact Hn].
    destruct Hn as (Hne & -> & Hdone & Hc' & Hct & Hcs & Hbuf). exists (take c (contents src)).
    cbn [bytes_left pieces_ok]. rewrite Hct, take_drop, Hcs, Hbuf. split_and!; try done.
    + destruct (contents src), c; done || lia.
    + intros Ht. destruct Hdone as [[_ Hlt]|Hf]; [by rewrite drop_ge by lia|congruence].
  - intros Hok. pose proof (CDC_Next_spec gear c Hok) as Hn. cbn zeta in Hn.
    destruct (CDC_Next gear c) as [[p|er] c']; [|exact Hn].
    destruct Hn as (Hne & -> & Hp & _ & Hok'). eexists. split; [reflexivity|]. cbn [bytes_left]. rewrite Hp, take_drop.
    split_and!; [|done|done]. destruct (cut_prefix_bounds gear c (pending c) (proj1 Hok) Hne) as (Hk & _).
    intros E. apply (f_equal length) in E. rewrite length_take in E. simpl in E. lia.
Qed.

Lemma newPutReader_ok e src :
  clean src → (ed_CDCEnabled e = true → progressing src) →
  pieces_ok (newPutReader e src) ∧ bytes_left (newPutReader e src) = contents src.
Proof.
  intros Hc Hp. unfold newPutReader. destruct (ed_CDCEnabled e).
  - split; [|done]. split_and!; [apply normalize_cfg_ok|done|by apply Hp|simpl; lia|done].
  - split; [|done]. cbn [pieces_ok NewReader r_src r_chunkSize r_buf r_done]. split_and!; [done| |done|done].
    unfold chunkSize. destruct (Z.leb_spec (ed_ChunkSize e) 0).
    + case_match; [|lia]. unfold DefaultChunkSize. lia.
    + destruct (Z.leb_spec (ed_ChunkSize e) 0); lia.
Qed.

(** ** Writing chunks *)
Lemma checked_coord ok o w r w' : checked ok (o, w) = (r, w') → w' = w.
Proof. by intros [-> _]%checked_ok. Qed.
Lemma putChunk_coord a id b w r w' : putChunk net a id b w = (r, w') → coord w' = coord w.
Proof.
  unfold putChunk. destruct (call _ _ _ _) as [o w1] eqn:Hc. intros ->%checked_coord.
  by apply call_cases in Hc as (-> & _).
Qed.
Lemma fan_out_coord id b targets w ok w' : fan_out net id b targets w = (ok, w') → coord w' = coord w.
Proof.
  revert w ok w'. induction targets as [|a targets IH]; intros w ok w'; cbn [fan_out]; [by intros [= <- <-]|].
  destruct (putChunk net a id b w) as [r w1] eqn:Hp. destruct (fan_out net id b targets w1) as [ok1 w2] eqn:Hf.
  intros [= _ <-]. by rewrite (IH _ _ _ Hf), (putChunk_coord _ _ _ _ _ _ Hp).
Qed.

(** The quorum a write asks for. *)
Definition quorum_of (wq : Z) (w : Cluster) : Z := if (wq =? 0)%Z then quorumWrite (coord w) else wq.
(** Addresses an edge with the coordinator [co] may write a chunk to. *)
Definition placement (co : Coordinator) (targets : list string) : Prop :=
  (∃ key n w x x', coord w = co ∧ ms_placeN key n w x = (Ok targets, x')) ∨
  (∃ key n c dns x, ms_classDNs c x = Some dns ∧ targets = coord_PlaceNFromAddrs key n dns).
(** [c] names the bytes [data], which its replicas hold. *)
Definition wrote (co : Coordinator) (w : Cluster) (q : Z) (data : list byte) (c : ChunkRef) : Prop :=
  ChunkID c = sha256_hex data ∧ cr_Size c = Z.of_nat (length data) ∧ (q ≤ Z.of_nat (length (Replicas c)))%Z ∧
  (∀ a, a ∈ Replicas c → is_Some (chunk_at w a (ChunkID c))) ∧
  ∃ targets, placement co targets ∧ Replicas c `sublist_of` sched targets.
Lemma wrote_mono co w w' q data c : keeps_chunks w w' → wrote co w q data c → wrote co w' q data c.
Proof. intros Hk (H1 & H2 & H3 & H4 & H5). split_and!; try done. intros a Ha. by apply Hk, H4. Qed.

(** What the steps of a PUT leave as it was. *)
Definition unchanged (w : Cluster) (x : X) (wx : Cluster * X) : Prop :=
  coord wx.1 = coord w ∧ (sound w → sound wx.1 ∧ keeps_chunks w wx.1) ∧ ∀ b k, ms_stored wx.2 b k = ms_stored x b k.
Lemma unchanged_refl w x : unchanged w x (w, x).
Proof. by split_and!. Qed.
Lemma unchanged_trans w x w1 x1 wx : unchanged w x (w1, x1) → unchanged w1 x1 wx → unchanged w x wx.
Proof.
  intros (H1 & H2 & H3) (H4 & H5 & H6). cbn [fst snd] in *. split_and!; [congruence| |congruence].
  intros Hw. destruct (H2 Hw) as [Hs Hk]. destruct (H5 Hs) as [Hs' Hk']. split; [done|by etrans].
Qed.

Lemma WriteChunkToAddrsW_spec id data targets wq w replicas er w' :
  WriteChunkToAddrsW net sched id data targets wq w = ((replicas, er), w') →
  coord w' = coord w ∧ (sound w → sound w' ∧ keeps_chunks w w' ∧
    (er = None → (quorum_of wq w ≤ Z.of_nat (length replicas))%Z ∧ replicas `sublist_of` sched targets ∧
       ∀ a, a ∈ replicas → is_Some (chunk_at w' a id))).
Proof.
  unfold WriteChunkToAddrsW. intros H.
  destruct (length targets =? 0); [by injection H as <- <- <-|]. destruct (wq <? 0)%Z; [by injection H as <- <- <-|].
  fold (quorum_of wq w) in H. destruct (_ <? _)%Z; [by injection H as <- <- <-|].
  destruct (fan_out net id data (sched targets) w) as [ok w1] eqn:Hf.
  assert (w' = w1 ∧ (er = None → replicas = ok ∧ (quorum_of wq w ≤ Z.of_nat (length ok))%Z)) as [-> Her].
  { destruct (Z.ltb_spec (Z.of_nat (length ok)) (quorum_of wq w)); injection H as <- <- <-; split; done. }
  split; [by eapply fan_out_coord|]. intros Hw.
  destruct (fan_out_spec net id data _ _ _ _ Hf Hw) as (Hsub & Hw1 & _ & Hk & Hok).
  split_and!; [done|done|]. intros [-> Hq]%Her. split_and!; [done|done|]. intros a Ha. by apply Hok.
Qed.

Lemma write_spec e id data wq w x r w' x' :
  writeChunkPreferClassW net sched e id data wq w x = (r, (w', x')) →
  unchanged w x (w', x') ∧
  ∀ replicas, r = Some replicas → sound w →
    (quorum_of wq w ≤ Z.of_nat (length replicas))%Z ∧ (∀ a, a ∈ replicas → is_Some (chunk_at w' a id)) ∧
    ∃ targets, placement (coord w) targets ∧ replicas `sublist_of` sched targets.
Proof.
  unfold writeChunkPreferClassW. set (rf := replicationFactor (coord w)).
  assert (∀ targets x0 r w' x', placement (coord w) targets → (∀ b k, ms_stored x0 b k = ms_stored x b k) →
    (let '((replicas, err), w0) := WriteChunkToAddrsW net sched id data targets wq w in
     (match err with None => Some replicas | Some _ => None end, (w0, x0))) = (r, (w', x')) →
    unchanged w x (w', x') ∧ ∀ replicas, r = Some replicas → sound w →
      (quorum_of wq w ≤ Z.of_nat (length replicas))%Z ∧ (∀ a, a ∈ replicas → is_Some (chunk_at w' a id)) ∧
      ∃ targets, placement (coord w) targets ∧ replicas `sublist_of` sched targets) as Hwrite.
  { intros targets x0 r0 w0 x0' Hpl Hx H. destruct (WriteChunkToAddrsW _ _ _ _ _ _ _) as [[replicas er] w1] eqn:Hwr.
    injection H as <- <- <-. destruct (WriteChunkToAddrsW_spec _ _ _ _ _ _ _ _ Hwr) as [Hc Hok].
    split; [split_and!; [done| |done]; intros Hs; by destruct (Hok Hs) as (? & ? & _)|].
    intros reps Hreps Hs. destruct er; [done|]. injection Hreps as <-.
    destruct (Hok Hs) as (_ & _ & Hn). destruct (Hn eq_refl) as (? & ? & ?). split_and!; [done|done|by exists targets]. }
  assert (∀ r w' x', match ms_placeN id rf w x with
      | (Err _, x1) => (None, (w, x1))
      | (Ok targets, x1) => let '((replicas, err), w0) := WriteChunkToAddrsW net sched id data targets wq w in
          (match err with None => Some replicas | Some _ => None end, (w0, x1))
      end = (r, (w', x')) →
    unchanged w x (w', x') ∧ ∀ replicas, r = Some replicas → sound w →
      (quorum_of wq w ≤ Z.of_nat (length replicas))%Z ∧ (∀ a, a ∈ replicas → is_Some (chunk_at w' a id)) ∧
      ∃ targets, placement (coord w) targets ∧ replicas `sublist_of` sched targets) as Hplaced.
  { intros r0 w0 x0 H. destruct (ms_placeN id rf w x) as [[targets|er] x1] eqn:Hp.
    - eapply Hwrite; [|by eapply place_law|exact H]. left. by exists id, rf, w, x, x1.
    - injection H as <- <- <-. split; [split_and!; [done|done|by eapply place_law]|done]. }
  intros H. case_bool_decide; [by apply Hplaced|]. destruct (ms_classDNs _ x) as [dns|] eqn:Hcls; [|by apply Hplaced].
  destruct (_ <? _)%Z; [by apply Hplaced|]. eapply Hwrite; [|done|exact H]. right. by exists id, rf, (ed_PreferClass e), dns, x.
Qed.

Lemma quorum_of_coord wq w w' : coord w' = coord w → quorum_of wq w' = quorum_of wq w.
Proof. unfold quorum_of. by intros ->. Qed.

(** The loop of a PUT: what it read, chunk by chunk, is on the nodes it lists. *)
Lemma put_chunks_spec fuel e wq rd refs total w x r w' x' :
  put_loop gear net sched fuel e wq rd refs total w x = (r, (w', x')) →
  unchanged w x (w', x') ∧
  ∀ refs' total', r = Ok (refs', total') → pieces_ok rd → sound w → i64 total = total →
    ∃ datas cs, refs' = refs ++ cs ∧ concat datas = bytes_left rd ∧ Forall (.≠ []) datas ∧
      Forall2 (wrote (coord w) w' (quorum_of wq w)) datas cs ∧ total' = i64 (total + Z.of_nat (length (bytes_left rd))).
Proof.
  revert rd refs total w x. induction fuel as [|fuel IH]; intros rd refs total w x; cbn [put_loop].
  { intros [= <- <- <-]. split; [apply unchanged_refl|done]. }
  pose proof (Next_spec rd) as Hnext. destruct (Next rd) as [[piece|er] rd'].
  - destruct (writeChunkPreferClassW _ _ _ _ _ _ _ _) as [[replicas|] [w1 x1]] eqn:Hwr;
      apply write_spec in Hwr as [Hu1 Hwr]; intros H; [|by injection H as <- <- <-].
    destruct (IH _ _ _ _ _ H) as [Hu2 Hloop]. split; [by eapply unchanged_trans|].
    intros refs' total' -> Hok Hs Htot. destruct (Hnext Hok) as (data & -> & Hne & Hl & Hok').
    destruct Hu1 as (Hc1 & Hs1 & _). cbn [fst snd] in Hs1, Hc1. destruct (Hs1 Hs) as [Hs1' Hk1].
    destruct (Hloop refs' total' eq_refl Hok' Hs1') as (datas & cs & -> & Hcat & Hall & Hw2 & ->); [apply i64_idemp|].
    destruct (Hwr replicas eq_refl Hs) as (Hq & Hat & Hpl). destruct Hu2 as (_ & Hs2 & _). destruct (Hs2 Hs1') as [_ Hk2].
    exists (data :: datas), (MkChunkRef (sha256_hex data) (Z.of_nat (length data)) replicas :: cs).
    split_and!.
    + by rewrite <- app_assoc.
    + cbn [concat]. by rewrite Hcat, Hl.
    + by constructor.
    + constructor; [|by rewrite (quorum_of_coord wq w w1), Hc1 in Hw2].
      eapply wrote_mono; [exact Hk2|]. by split_and!.
    + rewrite Hl, length_app, i64_add_l. cbn [Chunker.p_Size newStreamPiece]. f_equal. lia.
  - intros H. assert (w' = w ∧ x' = x ∧ (∀ v, r = Ok v → er = EOF ∧ v = (refs, total))) as (-> & -> & Hr).
    { destruct er; injection H as <- <- <-; split_and!; try done; by intros v [= <-]. }
    split; [apply unchanged_refl|]. intros refs' total' Hv Hok _ Htot. destruct (Hr _ Hv) as [-> [= -> ->]].
    destruct (Hnext Hok) as [_ Hl]. exists [], []. rewrite Hl, app_nil_r. split_and!; try done.
    simpl. by rewrite Z.add_0_r.
Qed.

(** ** Reading chunks back *)
Definition names_data (data : list byte) (c : ChunkRef) : Prop :=
  ChunkID c = sha256_hex data ∧ cr_Size c = Z.of_nat (length data).
Lemma wrote_names co w q data c : wrote co w q data c → names_data data c.
Proof. by intros (? & ? & _). Qed.

(** A read leaves the nodes as they were and returns bytes with the id it asked for. *)
Definition same_nodes (w w' : Cluster) : Prop := dns w' = dns w ∧ coord w' = coord w ∧ calls w ≤ calls w'.
Lemma same_nodes_sound w w' : same_nodes w w' → sound w → sound w'.
Proof. intros (Hd & _) Hw a s. rewrite Hd. apply Hw. Qed.
Lemma same_nodes_trans w1 w2 w3 : same_nodes w1 w2 → same_nodes w2 w3 → same_nodes w1 w3.
Proof. intros (? & ? & ?) (? & ? & ?). split_and!; [congruence|congruence|lia]. Qed.

Lemma read_spec id reps w r w' :
  coord_ReadChunk net id reps w = (r, w') →
  same_nodes w w' ∧ (sound w → ∀ data a, r = Ok (data, a) → sha256_hex data = id).
Proof.
  revert w. induction reps as [|a reps IH]; intros w; cbn [coord_ReadChunk]; [by intros [= <- <-]|].
  destruct (getChunk net a id w) as [g w1] eqn:Hget. pose proof Hget as (Hco & Hn & Hd & Ho)%getChunk_law.
  assert (same_nodes w w1) as Hsame by (split_and!; [done|done|lia]). destruct g as [b|er].
  - intros [= <- <-]. split; [done|]. intros Hw data a' [= <- <-]. destruct (Ho b eq_refl) as (s & Hs & Hg).
    by apply (handleGet_ok _ _ _ _ (Hw a s Hs)) in Hg as [_ ?].
  - intros H. destruct (IH _ H) as [Hs Hr]. split; [by eapply same_nodes_trans|].
    intros Hw. apply Hr. by eapply same_nodes_sound.
Qed.
Lemma verified_read_spec id reps w r w' :
  verified_read net id reps w = (r, w') →
  same_nodes w w' ∧ ∀ data, r = Some data → sha256_hex data = id.
Proof.
  unfold verified_read. destruct (coord_ReadChunk net id reps w) as [[[data a]|er] w1] eqn:Hr;
    apply read_spec in Hr as [Hs _]; intros [= <- <-]; (split; [done|]); [|done].
  case_bool_decide; [by intros ? [= <-]|done].
Qed.
Lemma agreement_spec id addrs first w r w' :
  agreement_loop net id addrs first w = (r, w') →
  same_nodes w w' ∧ ((∀ f, first = Some f → sha256_hex f = id) → ∀ data, r = Some (Some data) → sha256_hex data = id).
Proof.
  revert first w. induction addrs as [|a addrs IH]; intros first w; cbn [agreement_loop].
  { intros [= <- <-]. split; [done|]. intros Hf data [= ->]. by apply Hf. }
  destruct (verified_read net id [a] w) as [v w1] eqn:Hv. apply verified_read_spec in Hv as [Hs Hv].
  destruct v as [data|]; [|by intros [= <- <-]]. destruct first as [f|].
  - case_bool_decide; [|by intros [= <- <-]]. intros H1. destruct (IH _ _ H1) as [Hs' Hr].
    split; [by eapply same_nodes_trans|done].
  - intros H1. destruct (IH _ _ H1) as [Hs' Hr]. split; [by eapply same_nodes_trans|].
    intros _. apply Hr. intros f [= <-]. by apply Hv.
Qed.

Lemma read_chunk_spec rq c w r w' :
  read_chunk net sched rq c w = (r, w') →
  same_nodes w w' ∧ (sound w → ∀ data, r = Some data → sha256_hex data = ChunkID c).
Proof.
  unfold read_chunk. destruct (1 <? rq)%Z.
  - unfold readChunkAgreement. destruct (_ || _); [by intros [= <- <-]|].
    destruct (agreement_loop _ _ _ _ w) as [res w1] eqn:Ha. apply agreement_spec in Ha as [Hs Hr].
    intros [= <- <-]. split; [done|]. intros _ data Hd. apply Hr; [done|]. destruct res as [[d|]|]; congruence.
  - destruct (coord_ReadChunk net _ _ w) as [[[data a]|er] w1] eqn:Hr; apply read_spec in Hr as [Hs Hr];
      intros [= <- <-]; (split; [done|]); [|done]. intros Hw d [= <-]. by eapply Hr.
Qed.

Lemma get_loop_spec i meta rq datas cs out w rep w' :
  get_loop net sched i meta rq cs out w = (rep, w') → sound w → Forall2 names_data datas cs → g_status out = 200%Z →
  collision ∨ (i = 0 ∧ rep = get_error 502) ∨
  ∃ n, g_status rep = 200%Z ∧ g_body rep = g_body out ++ concat (take n datas).
Proof.
  intros H Hw Hf. revert i out w H Hw. induction Hf as [|data c datas cs [Hid Hsz] _ IH]; intros i out w; cbn [get_loop].
  { intros [= <- <-] _ Hst. right. right. exists 0. by rewrite app_nil_r. }
  destruct (read_chunk net sched rq c w) as [r w1] eqn:Hr. apply read_chunk_spec in Hr as [Hs Hr].
  intros H Hw Hst. destruct r as [b|].
  - destruct (decide (b = data)) as [->|Hne].
    2:{ left. exists b, data. split; [done|]. by rewrite (Hr Hw b eq_refl), Hid. }
    rewrite Hsz, Z.eqb_refl in H. cbn [negb] in H.
    destruct (IH _ _ _ H (same_nodes_sound _ _ Hs Hw) eq_refl) as [?|[[? _]|(n & Hst' & Hb)]]; [by left|lia|].
    right. right. exists (S n). cbn [take concat]. cbn [g_body] in Hb. by rewrite Hb, app_assoc.
  - destruct (Nat.eqb_spec i 0) as [->|]; injection H as <- <-; [right; by left|].
    right. right. exists 0. by rewrite app_nil_r.
Qed.

(** Some replica of [c] has the chunk. *)
Definition readable (w : Cluster) (c : ChunkRef) : Prop := ∃ a, a ∈ Replicas c ∧ is_Some (chunk_at w a (ChunkID c)).
Lemma same_nodes_chunk w w' a id : same_nodes w w' → chunk_at w' a id = chunk_at w a id.
Proof. intros (Hd & _). simpl. unfold cluster_chunk. by rewrite Hd. Qed.
Lemma same_nodes_fine w w' : same_nodes w w' → fine_from net (calls w) → fine_from net (calls w').
Proof. intros (_ & _ & Hn) Hf k Hk. apply Hf. lia. Qed.
Lemma same_nodes_readable w w' c : same_nodes w w' → readable w c → readable w' c.
Proof. intros Hs (a & Ha & Hc). exists a. by rewrite (same_nodes_chunk w w'). Qed.

Lemma get_loop_complete i meta rq datas cs out w :
  fine_from net (calls w) → sound w → Forall2 names_data datas cs → Forall (readable w) cs → (rq ≤ 1)%Z →
  g_status out = 200%Z → (i ≠ 0 → g_length out = Some (Size meta)) →
  collision ∨ ∃ w' len, get_loop net sched i meta rq cs out w = (MkGet 200 len (g_body out ++ concat datas), w') ∧
    (i ≠ 0 ∨ cs ≠ [] → len = Some (Size meta)).
Proof.
  intros Hfine Hw Hf Hr Hrq. revert i out w Hfine Hw Hr.
  induction Hf as [|data c datas cs [Hid Hsz] _ IH]; intros i out w Hfine Hw Hr Hst Hlen; cbn [get_loop].
  { right. exists w, (g_length out). destruct out. simpl in *. subst. rewrite app_nil_r. split; [done|]. by intros [?|]; auto. }
  apply Forall_cons in Hr as [Hc Hr].
  destruct (ReadChunk_fine net sched (ChunkID c) (Replicas c) w Hfine Hw Hc) as (b & a & w1 & Hread & _ & Hh).
  unfold read_chunk. destruct (Z.ltb_spec 1 rq); [lia|]. rewrite Hread.
  destruct (read_spec _ _ _ _ _ Hread) as [Hs _].
  destruct (decide (b = data)) as [->|Hne]; [|left; exists b, data; split; [done|congruence]].
  rewrite Hsz, Z.eqb_refl. cbn [negb].
  destruct (IH (S i) (MkGet 200 (if i =? 0 then Some (Size meta) else g_length out) (g_body out ++ data)) w1)
    as [?|(w' & len & Hloop & Hl)].
  - by eapply same_nodes_fine.
  - by eapply same_nodes_sound.
  - eapply Forall_impl; [exact Hr|]. intros c' Hc'. by eapply same_nodes_readable.
  - done.
  - intros _. cbn [g_length]. destruct (Nat.eqb_spec i 0); auto.
  - by left.
  - right. exists w', len. cbn [g_body concat] in *. rewrite Hloop, app_assoc. split; [done|]. intros _. apply Hl. by left.
Qed.

(** ** Trimming *)
Lemma write_shards_all ds remaining body :
  (0 ≤ remaining)%Z →
  write_shards ds remaining None body =
    (body ++ take (Z.to_nat remaining) (concat ds), (remaining - Z.of_nat (length (take (Z.to_nat remaining) (concat ds))))%Z).
Proof.
  revert remaining body. induction ds as [|sh ds IH]; intros remaining body Hr; cbn [write_shards concat].
  { rewrite take_nil, app_nil_r. f_equal. simpl. lia. }
  destruct (Z.ltb_spec 0 remaining); cbn [negb].
  2:{ replace remaining with 0%Z by lia. simpl. rewrite app_nil_r. f_equal. }
  destruct (Z.ltb_spec remaining (Z.of_nat (length sh))) as [Hlt|Hge].
  - rewrite IH by (rewrite length_take; lia). rewrite length_take.
    replace (Z.to_nat (remaining - _)) with 0 by lia. rewrite take_0, app_nil_r, take_app_le by lia.
    rewrite length_take. f_equal. simpl. lia.
  - rewrite IH by lia. rewrite take_app, (take_ge sh) by lia. rewrite app_assoc, length_app.
    replace (Z.to_nat (remaining - Z.of_nat (length sh))) with (Z.to_nat remaining - length sh) by lia. f_equal. lia.
Qed.
Lemma write_shards_some ds remaining sr body :
  (0 < sr ≤ remaining)%Z → (sr ≤ Z.of_nat (length (concat ds)))%Z →
  write_shards ds remaining (Some sr) body = (body ++ take (Z.to_nat sr) (concat ds), (remaining - sr)%Z).
Proof.
  revert remaining sr body. induction ds as [|sh ds IH]; intros remaining sr body Hr Hl; cbn [write_shards concat] in *.
  { simpl in Hl. lia. }
  rewrite length_app in Hl. destruct (Z.ltb_spec 0 remaining); [|lia]. cbn [negb].
  destruct (Z.ltb_spec sr (Z.of_nat (length sh))) as [Hlt|Hge].
  - rewrite length_take. replace (Z.of_nat (Z.to_nat sr `min` length sh)) with sr by lia.
    destruct (Z.leb_spec (sr - sr) 0); [|lia]. by rewrite take_app_le by lia.
  - destruct (Z.leb_spec (sr - Z.of_nat (length sh)) 0).
    + rewrite take_app_le, take_ge by lia. f_equal. lia.
    + rewrite IH by lia. rewrite take_app, (take_ge sh) by lia. rewrite app_assoc.
      replace (Z.to_nat (sr - Z.of_nat (length sh))) with (Z.to_nat sr - length sh) by lia. f_equal. lia.
Qed.

(** ** Fetching a stripe *)
Definition filled (l : list shard) (n : nat) (order : list nat) : Prop :=
  ∃ got, NoDup got ∧ length got = n ∧ (∀ i, i ∈ got → ∃ b, l !! i = Some b ∧ b ≠ []) ∧ ∀ i, i ∈ got → i ∉ order.
Lemma fetch_same quorum order shards out n w out' n' w' :
  fetch_shards net quorum order shards out n w = (out', n', w') → same_nodes w w'.
Proof.
  revert out n w. induction order as [|idx order IH]; intros out n w; cbn [fetch_shards]; [by intros [= <- <- <-]|].
  destruct (shards !! idx) as [ref|]; [|apply IH].
  destruct (verified_read net (ChunkID ref) (Replicas ref) w) as [rd w1] eqn:Hv. apply verified_read_spec in Hv as [Hs _].
  intros H. eapply same_nodes_trans; [exact Hs|]. destruct rd; [destruct (n =? quorum)|]; by eapply IH.
Qed.
Lemma verified_read_fine c w : fine_from net (calls w) → sound w → readable w c →
  ∃ data w', verified_read net (ChunkID c) (Replicas c) w = (Some data, w').
Proof.
  intros Hfine Hw Hc. destruct (ReadChunk_fine net sched (ChunkID c) (Replicas c) w Hfine Hw Hc) as (b & a & w1 & Hr & _ & Hh).
  unfold verified_read. rewrite Hr. exists b, w1. by rewrite bool_decide_eq_true_2.
Qed.

(** The shards of [live] can all be read. *)
Definition live_shards (w : Cluster) (shards : list ChunkRef) (order : list nat) (live : gset nat) : Prop :=
  fine_from net (calls w) ∧ sound w ∧
  ∀ i, i ∈ live → i ∈ order ∧ ∃ c, shards !! i = Some c ∧ readable w c.
Lemma live_shards_next w w1 shards idx order live :
  same_nodes w w1 → live_shards w shards (idx :: order) live → live_shards w1 shards order (live ∖ {[idx]}).
Proof.
  intros Hs (Hfine & Hw & Hl). split_and!; [by eapply same_nodes_fine|by eapply same_nodes_sound|].
  intros i Hi. destruct (Hl i) as [Hin (c & Hc & Hr)]; [set_solver|].
  split; [apply elem_of_cons in Hin as [->|]; [set_solver|done]|].
  exists c. split; [done|]. by eapply same_nodes_readable.
Qed.
Lemma size_drop (idx : nat) (live : gset nat) : size live ≤ S (size (live ∖ {[idx]})).
Proof.
  destruct (decide (idx ∈ live)).
  - rewrite (union_difference_L {[idx]} live) at 1 by set_solver. rewrite size_union by set_solver.
    rewrite size_singleton. lia.
  - replace (live ∖ {[idx]}) with live by set_solver. lia.
Qed.

Lemma fetch_spec full quorum order shards out n w out' n' w' :
  fetch_shards net quorum order shards out n w = (out', n', w') →
  Forall2 names_data full shards → Forall (.≠ []) full → erasure full out → NoDup order → filled out n order →
  collision ∨ erasure full out' ∧ filled out' n' [] ∧
    ∀ live, live_shards w shards order live → quorum `min` (n + size live) ≤ n'.
Proof.
  intros H Hf Hne. revert out n w H. induction order as [|idx order IH]; intros out n w H Her Hnd Hfill; cbn [fetch_shards] in H.
  { injection H as <- <- <-. right. split_and!; [done|done|]. intros live (_ & _ & Hlive).
    assert (live = ∅) as -> by (apply leibniz_equiv, equiv_empty; intros i Hi; by apply Hlive in Hi as [?%elem_of_nil _]).
    rewrite size_empty. lia. }
  apply NoDup_cons in Hnd as [Hidx Hnd].
  assert (filled out n order) as Hskip.
  { destruct Hfill as (got & ? & ? & ? & Hg4). exists got. split_and!; try done.
    intros i Hi Hin. apply (Hg4 i Hi). by right. }
  destruct (shards !! idx) as [ref|] eqn:Href; cycle 1.
  { destruct (IH _ _ _ H Her Hnd Hskip) as [?|(H1 & H2 & H3)]; [by left|right].
    split_and!; [done|done|]. intros live Hlive.
    assert (live ∖ {[idx]} = live) as E.
    { assert (idx ∉ live); [|set_solver]. intros Hi. destruct Hlive as (_ & _ & Hl).
      destruct (Hl idx Hi) as [_ (c & Hc & _)]. congruence. }
    apply (live_shards_next w w) in Hlive; [|done]. rewrite E in Hlive. by apply H3. }
  destruct (verified_read net (ChunkID ref) (Replicas ref) w) as [rd w1] eqn:Hv.
  pose proof Hv as [Hs1 Hrd]%verified_read_spec.
  destruct (Forall2_lookup_r _ _ _ _ _ Hf Href) as (sh & Hsh & Hid & _).
  destruct rd as [data|].
  - destruct (Nat.eqb_spec n quorum) as [->|Hnq].
    + destruct (IH _ _ _ H Her Hnd Hskip) as [?|(H1 & H2 & H3)]; [by left|right].
      split_and!; [done|done|]. intros live Hlive. specialize (H3 _ (live_shards_next _ _ _ _ _ _ Hs1 Hlive)).
      lia.
    + destruct (decide (data = sh)) as [->|Hne'].
      2:{ left. exists data, sh. split; [done|]. by rewrite (Hrd data eq_refl), Hid. }
      assert (idx < length out) as Hlt by (rewrite <- (Forall2_length _ _ _ Her); by eapply lookup_lt_Some).
      rewrite Forall_forall in Hne. assert (sh ≠ []) as Hnz by (apply Hne; by eapply list_elem_of_lookup_2).
      destruct (IH _ _ _ H) as [?|(H1 & H2 & H3)]; [|done| |by left|].
      * rewrite <- (list_insert_id full idx sh) by done. apply Forall2_insert; [done|by left].
      * destruct Hfill as (got & Hg1 & Hg2 & Hg3 & Hg4). exists (idx :: got). split_and!.
        -- constructor; [|done]. intros Hin. apply (Hg4 idx Hin). by left.
        -- simpl. by rewrite Hg2.
        -- intros i [->|Hi]%elem_of_cons; [exists sh; by rewrite list_lookup_insert_eq|].
           rewrite list_lookup_insert_ne; [by apply Hg3|]. intros <-. apply (Hg4 _ Hi). by left.
        -- intros i [->|Hi]%elem_of_cons; [done|]. intros Hin. apply (Hg4 i Hi). by right.
      * right. split_and!; [done|done|]. intros live Hlive.
        specialize (H3 _ (live_shards_next _ _ _ _ _ _ Hs1 Hlive)). pose proof (size_drop idx live). lia.
  - destruct (IH _ _ _ H Her Hnd Hskip) as [?|(H1 & H2 & H3)]; [by left|right].
    split_and!; [done|done|]. intros live Hlive. pose proof (live_shards_next _ _ _ _ _ _ Hs1 Hlive) as Hl1.
    assert (live ∖ {[idx]} = live) as E.
    { assert (idx ∉ live); [|set_solver]. intros Hi. destruct Hlive as (Hfine & Hw & Hl).
      destruct (Hl idx Hi) as [_ (c & Hc & Hr)]. assert (c = ref) as -> by congruence.
      destruct (verified_read_fine ref w Hfine Hw Hr) as (d & w2 & E). rewrite Hv in E. done. }
    rewrite E in Hl1. by apply H3.
Qed.

(** ** Reading stripes back *)
Definition stripe_names (enc : Encoder) (raw zeros : list byte) (st : Stripe) : Prop :=
  ∃ dataShards parity, Encode enc dataShards = Ok parity ∧ concat dataShards = raw ++ zeros ∧
    Forall2 names_data (dataShards ++ parity) (Shards st).
(** How the reader finds the end of a stripe: by its length, or because what follows the
    bytes is padding and they are the last. *)
Definition trims (raw zeros rest : list byte) (st : Stripe) : Prop :=
  DataLen st = Z.of_nat (length raw) ∧ raw ≠ [] ∨ DataLen st = 0%Z ∧ (zeros = [] ∨ rest = []).
Fixpoint stripes_name (enc : Encoder) (raws : list (list byte)) (sts : list Stripe) : Prop :=
  match raws, sts with
  | [], [] => True
  | raw :: raws, st :: sts =>
      (∃ zeros, stripe_names enc raw zeros st ∧ trims raw zeros (concat raws) st) ∧ stripes_name enc raws sts
  | _, _ => False
  end.

(** Enough shards of the stripe can be read. *)
Definition stripe_live (k : nat) (w : Cluster) (st : Stripe) : Prop :=
  ∃ live : gset nat, k ≤ size live ∧ ∀ i, i ∈ live → ∃ c, Shards st !! i = Some c ∧ readable w c.
Definition stripes_live (k : nat) (w : Cluster) (sts : list Stripe) : Prop :=
  fine_from net (calls w) ∧ sound w ∧ Forall (stripe_live k w) sts.
Lemma stripes_live_next k w w' sts : same_nodes w w' → stripes_live k w sts → stripes_live k w' sts.
Proof.
  intros Hs (Hf & Hw & Hl). split_and!; [by eapply same_nodes_fine|by eapply same_nodes_sound|].
  eapply Forall_impl; [exact Hl|]. intros st (live & Hk & Hlive). exists live. split; [done|].
  intros i (c & Hc & Hr)%Hlive. exists c. split; [done|]. by eapply same_nodes_readable.
Qed.

Lemma fetch_stripe k m enc raw zeros st w shards n w' :
  NewEncoder k m = Ok enc → stripe_names enc raw zeros st →
  parallelFetchShards net isched (Shards st) (enc_k enc) w = (shards, n, w') →
  same_nodes w w' ∧
  (collision ∨ enc_k enc ≤ length shards ∧
    (stripe_live (enc_k enc) w st → fine_from net (calls w) → sound w → enc_k enc ≤ n) ∧
    (enc_k enc ≤ n → ∃ full, Reconstruct enc shards = Ok full ∧ concat (take (enc_k enc) full) = raw ++ zeros)).
Proof.
  intros Hnew (dataShards & parity & Henc & Hcat & Hnames) Hf. unfold parallelFetchShards in Hf.
  split; [by eapply fetch_same|]. destruct (encoded_shards _ _ _ _ _ Hnew Henc) as (Hdl & Hpl & _ & _ & _ & Hne).
  assert (erasure (dataShards ++ parity) (replicate (length (Shards st)) [])) as Her.
  { apply Forall2_same_length_lookup. rewrite length_replicate. split; [by eapply Forall2_length|].
    intros i x y _ [-> _]%lookup_replicate. by right. }
  destruct (fetch_spec _ _ _ _ _ _ _ _ _ _ Hf Hnames) as [?|(Hera & Hfill & Hlive)]; [| | | |by left|right].
  - apply Forall_lookup. intros i b. apply Hne.
  - done.
  - rewrite Hisched. apply NoDup_seq.
  - exists []. split_and!; [by apply NoDup_nil|done| |]; by intros i ?%elem_of_nil.
  - split_and!.
    + rewrite <- (Forall2_length _ _ _ Hera), length_app. lia.
    + intros (live & Hk & Hl) Hfine Hw. specialize (Hlive live). cbn [Nat.add] in Hlive. 
      assert (enc_k enc `min` size live ≤ n); [|lia]. apply Hlive. split_and!; [done|done|].
      intros i Hi. destruct (Hl i Hi) as (c & Hc & Hr). split; [|eauto]. rewrite Hisched. apply elem_of_seq.
      apply lookup_lt_Some in Hc. lia.
    + intros Hkn. destruct Hfill as (got & Hg1 & Hg2 & Hg3 & _).
      pose proof (fetched_survive got shards Hg1 Hg3) as Hsurv.
      destruct (Reconstruct_erasure _ _ _ _ _ _ Hnew Henc Hera) as (full & HR & Htake & _); [lia|].
      exists full. split; [done|]. by rewrite Htake.
Qed.

Lemma ec_get_loop_spec k m enc idx raws sts out w rep w' :
  NewEncoder k m = Ok enc → stripes_name enc raws sts → g_status out = 200%Z →
  ec_get_loop net isched enc (enc_k enc) idx sts (Z.of_nat (length (concat raws))) out w = (rep, w') →
  collision ∨
  ((idx = 0 ∧ g_status rep = 503%Z ∧ g_body rep = [] ∨
    ∃ n, g_status rep = 200%Z ∧ g_body rep = g_body out ++ concat (take n raws)) ∧
   (stripes_live (enc_k enc) w sts →
    g_status rep = 200%Z ∧ g_length rep = g_length out ∧ g_body rep = g_body out ++ concat raws)).
Proof.
  intros Hnew. revert idx sts out w. induction raws as [|raw raws IH]; intros idx [|st sts] out w Hn Hst; [| |done|].
  { intros [= <- <-]. right. cbn [concat]. rewrite app_nil_r. split; [|done]. right. exists 0. by rewrite app_nil_r. }
  { by destruct Hn. }
  cbn [stripes_name] in Hn. destruct Hn as [(zeros & Hs & Ht) Hn]. cbn [ec_get_loop].
  destruct (parallelFetchShards net isched (Shards st) (enc_k enc) w) as [[shards n] w1] eqn:Hf.
  destruct (fetch_stripe _ _ _ _ _ _ _ _ _ _ Hnew Hs Hf) as [Hsame [Hcol|(Hlen & Hlive & Hrec)]]; [by left|].
  destruct (Nat.ltb_spec (length shards) (enc_k enc)); [lia|].
  destruct (Nat.ltb_spec n (enc_k enc)) as [Hlt|Hge].
  { intros [= <- <-]. right. split.
    - destruct (Nat.eqb_spec idx 0) as [->|]; [by left|]. right. exists 0. by rewrite app_nil_r.
    - intros (Hfine & Hw & [Hst1 _]%Forall_cons). specialize (Hlive Hst1 Hfine Hw). lia. }
  destruct (Hrec Hge) as (full & -> & Hcat).
  assert (write_shards (take (enc_k enc) full) (Z.of_nat (length (concat (raw :: raws))))
    (if (0 <? DataLen st)%Z then Some (DataLen st) else None) (g_body out) =
    (g_body out ++ raw, Z.of_nat (length (concat raws)))) as ->.
  { cbn [concat]. rewrite length_app. destruct Ht as [[-> Hne]|[-> Hz]].
    - assert (0 < length raw) by (destruct raw; [done|simpl; lia]).
      destruct (Z.ltb_spec 0 (Z.of_nat (length raw))); [|lia]. rewrite write_shards_some; rewrite ?Hcat, ?length_app; [|lia..].
      rewrite Nat2Z.id, take_app_length. f_equal. lia.
    - cbn [Z.ltb Z.compare]. rewrite write_shards_all by lia. rewrite Hcat, Nat2Z.id.
      assert (take (length raw + length (concat raws)) (raw ++ zeros) = raw) as ->; [|f_equal; lia].
      destruct Hz as [->| ->]; [rewrite app_nil_r; apply take_ge; lia|]. rewrite Nat.add_0_r. apply take_app_length. }
  intros Hl. destruct (IH (S idx) sts (MkGet 200 (g_length out) (g_body out ++ raw)) w1 Hn eq_refl Hl) as [Hcol|[Hp Hc]];
    [by left|right]. cbn [g_body g_length] in *. split.
  - right. destruct Hp as [[? _]|(n' & ? & Hb)]; [done|]. exists (S n'). cbn [take concat]. by rewrite Hb, <- app_assoc.
  - intros Hls. cbn [concat]. destruct Hc as (? & ? & ->); [|by rewrite <- app_assoc].
    apply (stripes_live_next _ w); [done|]. destruct Hls as (? & ? & [_ ?]%Forall_cons). by split_and!.
Qed.
End edge.
