(* ===== verification/EdgeEC.v ===== *)
(** * The edge's erasure-coded PUT: where the bytes of a body end up

    What a stream of stripes holds, what one stripe writes, and how many node losses a
    stripe written to distinct nodes survives. *)
From S2P Require Import Prelude GF Matrix ReedSolomon GoLib Chunker Cdc Placement UrlKey Kv Meta Store.
From S2P Require Import DataNode Transport Coordinator Election Follower Repair Edge EdgeProps.
From Stdlib Require Import Strings.Byte.

Section ec.
Context (gear : list Z).
Context (net : nat → outcome) (sched : list string → list string).
Context {X : Type} {HM : MetaService X} {HML : MetaServiceLaws X}.
#[local] Instance ec_cluster : ChunkService coord_error Cluster := edge_cluster net.
Notation nextStripe := (Edge.nextStripe gear).
Notation unchanged := (EdgeProps.unchanged net).

(** ** The stripes of a body *)
Definition stripe_bytes (rd : stripe_reader) : list byte :=
  match rd with FixedStripes src => contents src | CDCStripes c => pending c end.
Definition stripes_ok (e : EdgeServer) (rd : stripe_reader) : Prop :=
  match rd with
  | FixedStripes src => clean src ∧ ed_CDCEnabled e = false
  | CDCStripes c => reader_ok c ∧ ed_CDCEnabled e = true
  end.

Lemma concat_slices {A} (s k : nat) (l : list A) :
  concat ((λ i, take s (drop (i * s) l)) <$> seq 0 k) = take (k * s) l.
Proof.
  induction k as [|k IH]; [done|]. rewrite seq_S, fmap_app, concat_app, IH. cbn [fmap list_fmap concat Nat.add].
  rewrite app_nil_r, take_take_drop. f_equal. lia.
Qed.

Lemma chunkSize_pos e : 1 ≤ Z.to_nat (chunkSize e).
Proof.
  unfold chunkSize. destruct (Z.leb_spec (ed_ChunkSize e) 0); [|lia]. rewrite Nat2Z.id. unfold DefaultChunkSize. lia.
Qed.

Lemma nextStripe_spec e k rd : 1 ≤ k → stripes_ok e rd →
  match nextStripe e k rd with
  | (Ok (p, er), rd') => ∃ zeros,
      sp_raw p ≠ [] ∧ stripe_bytes rd = sp_raw p ++ stripe_bytes rd' ∧ stripes_ok e rd' ∧
      sp_padded p = sp_raw p ++ zeros ∧ length (sp_padded p) = k * sp_shardSz p ∧
      (er = None ∨ er = Some UnexpectedEOF ∧ stripe_bytes rd' = []) ∧
      (ed_CDCEnabled e = true ∨ zeros = [] ∨ stripe_bytes rd' = [])
  | (Err er, _) => er = EOF ∧ stripe_bytes rd = []
  end.
Proof.
  intros Hk. destruct rd as [src|c]; cbn [Edge.nextStripe stripe_bytes stripes_ok].
  - intros [Hc He]. pose proof (chunkSize_pos e) as Hs. set (n := k * Z.to_nat (chunkSize e)) in *.
    assert (1 ≤ n) as Hn by (unfold n; nia).
    destruct (io_read_full_spec (io_fuel src) src n [] Hc) as (src' & E & Hc' & Hd);
      [simpl; lia|unfold io_fuel; lia|]. rewrite Nat.sub_0_r in E, Hd. rewrite E. cbn [app].
    assert (take n (contents src) ++ contents src' = contents src) as Hsplit by (by rewrite Hd, take_drop).
    destruct (Nat.leb_spec n (length (contents src))) as [Hle|Hlt].
    + exists []. cbn [sp_raw sp_padded sp_shardSz payload stripe_bytes stripes_ok].
      assert (length (take n (contents src)) = n) as Hl by (rewrite length_take; lia). rewrite Hl.
      replace (Z.to_nat (chunkSize e) * k - n) with 0 by (unfold n; lia).
      change (replicate 0 x00) with (@nil byte). rewrite !app_nil_r.
      split_and!; try done; [|by left|right; by left].
      intros E0. rewrite E0 in Hl. simpl in Hl. lia.
    + assert (contents src' = []) as H0 by (by rewrite Hd, drop_ge by lia). rewrite H0, app_nil_r in Hsplit.
      destruct (Nat.eqb_spec (length (contents src)) 0) as [Hz|Hz].
      { split; [done|]. by apply nil_length_inv. }
      rewrite Hsplit. exists (replicate (Z.to_nat (chunkSize e) * k - length (contents src)) x00).
      cbn [sp_raw sp_padded sp_shardSz payload stripe_bytes stripes_ok]. rewrite H0, app_nil_r.
      split_and!; try done; [| |by right|by right; right].
      * intros E0. by rewrite E0 in Hz.
      * rewrite length_app, length_replicate. unfold n in *. lia.
  - intros [Hok He]. pose proof (CDC_Next_spec gear c Hok) as Hn. cbn zeta in Hn.
    destruct (CDC_Next gear c) as [[p|er] c']; [|exact Hn]. destruct Hn as (Hne & -> & Hp & _ & Hok').
    destruct (cut_prefix_bounds gear c (pending c) (proj1 Hok) Hne) as (Hkb & _).
    set (data := take (cutpoint gear c _) (pending c)) in *. assert (1 ≤ length data) as Hd by (unfold data; rewrite length_take; lia).
    eexists. cbn [sp_raw sp_padded sp_shardSz payload stripe_bytes stripes_ok newStreamPiece Chunker.p_Data].
    assert (data ++ pending c' = pending c) as Hsplit by (rewrite Hp; apply take_drop).
    set (ssz := if (length data + k - 1) / k =? 0 then 1 else (length data + k - 1) / k).
    assert (length data ≤ ssz * k) as Hpad.
    { assert (length data ≤ (length data + k - 1) / k * k).
      { pose proof (Nat.div_mod_eq (length data + k - 1) k). pose proof (Nat.mod_upper_bound (length data + k - 1) k). nia. }
      unfold ssz. destruct (Nat.eqb_spec ((length data + k - 1) / k) 0); nia. }
    split_and!; try done; [| |by left|by left].
    + intros E0. rewrite E0 in Hd. simpl in Hd. lia.
    + rewrite length_app, length_replicate. lia.
Qed.

(** ** What one stripe writes *)
(** [c] was written to the node [a], which holds it. *)
Definition holds (w : Cluster) (a : string) (c : ChunkRef) : Prop :=
  Replicas c = [a] ∧ is_Some (chunk_at w a (ChunkID c)).
Lemma holds_mono w w' a c : keeps_chunks w w' → holds w a c → holds w' a c.
Proof. intros Hk [? ?]. split; [done|by apply Hk]. Qed.
(** The shards of the stripe are on the nodes it was placed on, one each. *)
Definition stripe_wrote (co : Coordinator) (w : Cluster) (st : Stripe) : Prop :=
  ∃ addrs, placement co addrs ∧ length (Shards st) ≤ length addrs ∧
    Forall2 (holds w) (take (length (Shards st)) addrs) (Shards st).
Lemma stripe_wrote_mono co w w' st : keeps_chunks w w' → stripe_wrote co w st → stripe_wrote co w' st.
Proof.
  intros Hk (addrs & H1 & H2 & H3). exists addrs. split_and!; try done.
  eapply Forall2_impl; [exact H3|]. intros a c. by apply holds_mono.
Qed.

Lemma put_shards_spec addrs all refs w r w' :
  put_shards net addrs all refs w = (r, w') →
  coord w' = coord w ∧ (sound w → sound w' ∧ keeps_chunks w w' ∧
    (length refs + length all ≤ length addrs → ∀ refs', r = Some refs' →
      ∃ cs, refs' = refs ++ cs ∧ Forall2 names_data all cs ∧
        Forall2 (holds w') (take (length all) (drop (length refs) addrs)) cs)).
Proof.
  revert refs w. induction all as [|sh all IH]; intros refs w; cbn [put_shards].
  { intros [= <- <-]. split_and!; [done|]. intros Hw. split_and!; try done. intros _ refs' [= <-]. exists [].
    rewrite app_nil_r. split_and!; [done|by constructor|]. cbn [length]. rewrite take_0. by constructor. }
  destruct (putChunk net _ _ sh w) as [[[]|er] w1] eqn:Hp; intros H;
    pose proof (putChunk_coord _ _ _ _ _ _ _ Hp) as Hc1; cycle 1.
  { injection H as <- <-. split; [done|]. intros Hw.
    destruct (put_keeps_chunks _ _ _ _ _ _ _ Hp Hw) as (? & _ & ? & _). by split_and!. }
  destruct (IH _ _ H) as [Hc2 Hok]. split; [congruence|]. intros Hw.
  destruct (put_keeps_chunks _ _ _ _ _ _ _ Hp Hw) as (Hw1 & _ & Hk1 & Hat).
  destruct (Hok Hw1) as (Hw2 & Hk2 & Hr). split_and!; [done|by etrans|]. intros Hlen refs' ->.
  destruct (Hr ltac:(rewrite length_app; simpl in *; lia) refs' eq_refl) as (cs & -> & Hn & Hh).
  set (c := MkChunkRef (sha256_hex sh) (Z.of_nat (length sh)) [addrs !!! length refs]) in *.
  exists (c :: cs). split_and!; [by rewrite <- app_assoc|by constructor|].
  assert (addrs !! length refs = Some (addrs !!! length refs)) as Ha
    by (apply list_lookup_lookup_total_lt; simpl in Hlen; lia).
  rewrite (drop_S _ _ _ Ha). cbn [length take]. constructor.
  - eapply holds_mono; [exact Hk2|]. split; [done|]. by apply Hat.
  - rewrite length_app, Nat.add_1_r in Hh. exact Hh.
Qed.

Lemma put_stripe_spec e k m enc p w x r w' x' :
  put_stripe net e enc (Z.to_nat k) (Z.to_nat m) p w x = (r, (w', x')) →
  unchanged w x (w', x') ∧
  ∀ st zeros, r = Ok st → sound w → NewEncoder k m = Ok enc →
    sp_padded p = sp_raw p ++ zeros → length (sp_padded p) = Z.to_nat k * sp_shardSz p →
    stripe_names enc (sp_raw p) zeros st ∧ stripe_wrote (coord w) w' st ∧ length (Shards st) = Z.to_nat (k + m) ∧
    DataLen st = if ed_CDCEnabled e then Z.of_nat (length (sp_raw p)) else 0%Z.
Proof.
  unfold put_stripe. intros H. destruct (Encode _ _) as [parity|er] eqn:Henc.
  2:{ injection H as <- <- <-. split; [apply unchanged_refl|done]. }
  set (sid := sha256_hex _) in *.
  destruct (ms_placeN sid _ w x) as [[addrs|er] x1] eqn:Hpl.
  2:{ injection H as <- <- <-. split; [|done]. split_and!; [done|done|by eapply place_law]. }
  destruct (Nat.ltb_spec (length addrs) (Z.to_nat k + Z.to_nat m)) as [|Hlen].
  { injection H as <- <- <-. split; [|done]. split_and!; [done|done|by eapply place_law]. }
  destruct (put_shards net addrs _ [] w) as [rf w1] eqn:Hps. destruct (put_shards_spec _ _ _ _ _ _ Hps) as [Hc Hok].
  assert (w' = w1 ∧ x' = x1) as [-> ->] by (destruct rf; by injection H).
  split. { split_and!; [done| |by eapply place_law]. intros Hw. by destruct (Hok Hw) as (? & ? & _). }
  intros st zeros -> Hw Hnew Hpad Hl. destruct rf as [refs|]; [|done]. injection H as <-.
  destruct (encoded_shards _ _ _ _ _ Hnew Henc) as (Hdl & Hpy & Hk & Hm & Hk0 & _).
  pose proof (NewEncoder_inv _ _ _ Hnew) as ((_ & Hm0 & _) & _).
  assert (length (data_shards (Z.to_nat k) p ++ parity) = Z.to_nat k + Z.to_nat m) as Hall
    by (rewrite length_app; lia).
  destruct (Hok Hw) as (_ & _ & Hr). destruct (Hr ltac:(rewrite Hall; simpl; lia) refs eq_refl) as (cs & -> & Hn & Hh).
  pose proof (Forall2_length _ _ _ Hn) as Hcl. cbn [app Shards DataLen length drop] in *. split_and!.
  - exists (data_shards (Z.to_nat k) p), parity. split_and!; [done| |done].
    unfold data_shards. rewrite concat_slices, <- Hl, take_ge by lia. done.
  - exists addrs. cbn [Shards]. rewrite <- Hcl. split_and!; [left; by eexists sid, _, w, x, x1|lia|done].
  - lia.
  - done.
Qed.

(** ** The loop of the PUT *)
Lemma ec_put_loop_spec fuel e k m enc rd sts len w x r w' x' :
  ec_put_loop gear net fuel e enc (Z.to_nat k) (Z.to_nat m) rd sts len w x = (r, (w', x')) →
  unchanged w x (w', x') ∧
  ∀ sts' len', r = Ok (sts', len') → stripes_ok e rd → sound w → NewEncoder k m = Ok enc → i64 len = len →
    ∃ raws cs, sts' = sts ++ cs ∧ concat raws = stripe_bytes rd ∧ stripes_name enc raws cs ∧
      Forall (λ st, stripe_wrote (coord w) w' st ∧ length (Shards st) = Z.to_nat (k + m)) cs ∧
      len' = i64 (len + Z.of_nat (length (stripe_bytes rd))).
Proof.
  revert rd sts len w x. induction fuel as [|fuel IH]; intros rd sts len w x; cbn [ec_put_loop].
  { intros [= <- <- <-]. split; [apply unchanged_refl|done]. }
  pose proof (nextStripe_spec e (Z.to_nat k) rd) as Hnext.
  destruct (nextStripe e (Z.to_nat k) rd) as [[[p rerr]|er] rd'] eqn:Hns; cycle 1.
  { intros H. assert (w' = w ∧ x' = x ∧ (∀ v, r = Ok v → v = (sts, len))) as (-> & -> & Hr).
    { destruct er; injection H as <- <- <-; split_and!; try done; by intros v [= <-]. }
    split; [apply unchanged_refl|]. intros sts' len' Hv Hok _ Hnew Hlen. injection (Hr _ Hv) as -> ->.
    destruct (NewEncoder_inv _ _ _ Hnew) as ((? & _) & _). destruct (Hnext ltac:(lia) Hok) as [_ Hb]. exists [], [].
    rewrite Hb, app_nil_r. split_and!; try done. simpl. by rewrite Z.add_0_r. }
  destruct (put_stripe _ _ _ _ _ _ _ _) as [[st|er] [w1 x1]] eqn:Hst; intros H;
    apply put_stripe_spec in Hst as [Hu1 Hst]; [|by injection H as <- <- <-].
  assert (r = Ok (sts ++ [st], i64 (len + Z.of_nat (length (sp_raw p)))) ∧ (w', x') = (w1, x1) ∧ rerr = Some UnexpectedEOF ∨
    ec_put_loop gear net fuel e enc (Z.to_nat k) (Z.to_nat m) rd' (sts ++ [st])
      (i64 (len + Z.of_nat (length (sp_raw p)))) w1 x1 = (r, (w', x')) ∧ rerr ≠ Some UnexpectedEOF) as Hcase.
  { destruct rerr as [[]|]; first [by right|left; by injection H as <- <- <-]. }
  clear H Hns. destruct Hcase as [(-> & [= -> ->] & ->)|[H Hre]].
  - split; [done|]. intros sts' len' [= <- <-] Hok Hw Hnew Hlen.
    destruct (NewEncoder_inv _ _ _ Hnew) as ((? & _) & _).
    destruct (Hnext ltac:(lia) Hok) as (zeros & Hne & Hb & _ & Hpad & Hl & [?|[_ Hb']] & _); [done|].
    destruct (Hst st zeros eq_refl Hw Hnew Hpad Hl) as (Hn & Hwr & Hsl & Hdl).
    rewrite Hb', app_nil_r in Hb. exists [sp_raw p], [st]. split_and!; try done.
    + cbn [concat]. by rewrite Hb, app_nil_r.
    + cbn [stripes_name]. split; [|done]. exists zeros. split; [done|]. unfold trims. rewrite Hdl.
      destruct (ed_CDCEnabled e); [by left|right; split; [done|by right]].
    + by repeat constructor.
    + by rewrite Hb.
  - destruct (IH _ _ _ _ _ H) as [Hu2 Hloop]. split; [by eapply unchanged_trans|].
    intros sts' len' -> Hok Hw Hnew Hlen. destruct (NewEncoder_inv _ _ _ Hnew) as ((? & _) & _).
    destruct (Hnext ltac:(lia) Hok) as (zeros & Hne & Hb & Hok' & Hpad & Hl & _ & Htrim).
    destruct (Hst st zeros eq_refl Hw Hnew Hpad Hl) as (Hn & Hwr & Hsl & Hdl).
    destruct Hu1 as (Hc1 & Hs1 & _). destruct (Hs1 Hw) as [Hw1 _]. cbn [fst] in Hw1, Hc1. rewrite Hc1 in Hloop.
    destruct (Hloop sts' len' eq_refl Hok' Hw1 Hnew) as (raws & cs & -> & Hcat & Hns & Hall & ->); [apply i64_idemp|].
    destruct Hu2 as (_ & Hs2 & _). destruct (Hs2 Hw1) as [_ Hk2].
    exists (sp_raw p :: raws), (st :: cs). split_and!.
    + by rewrite <- app_assoc.
    + cbn [concat]. by rewrite Hcat, Hb.
    + cbn [stripes_name]. split; [|done]. exists zeros. split; [done|]. unfold trims. rewrite Hdl, Hcat.
      destruct (ed_CDCEnabled e); [by left|right; split; [done|]]. by destruct Htrim.
    + constructor; [|done]. split; [|done]. by eapply stripe_wrote_mono.
    + rewrite Hb, length_app, i64_add_l. f_equal. lia.
Qed.
End ec.
