(* ===== verification/EdgeSafety.v ===== *)
(** * The edge's data path: its theorems

    A body that was PUT is what a GET returns, however the metadata service and the nodes
    behave in between; how many nodes may be lost; and what a refused PUT leaves. *)
From S2P Require Import Prelude GF Matrix ReedSolomon GoLib Chunker Cdc Placement UrlKey Kv Meta Store.
From S2P Require Import DataNode Transport Coordinator Election Follower Repair Edge EdgeProps EdgeEC.
From Stdlib Require Import Strings.Byte.

Section edge.
Context (gear : list Z).
Context (net : nat → outcome) (sched : list string → list string) (isched : list nat → list nat).
Context {X : Type} {HM : MetaService X} {HML : MetaServiceLaws X}.
Context (Hsched : ∀ l, sched l ≡ₚ l) (Hisched : ∀ l, isched l ≡ₚ l).
#[local] Instance es_cluster : ChunkService coord_error Cluster := edge_cluster net.
Notation handlePut := (Edge.handlePut gear net sched).
Notation handleGet := (Edge.handleGet net sched isched).

(** ** The record a PUT commits *)
Lemma committed_fields o os : committed o os → LegacyChunkID o = "" →
  Chunks os = Chunks o ∧ Stripes os = Stripes o ∧ EC os = EC o ∧ Size os = Size o.
Proof.
  intros (v & t & ->) Hl. unfold normalizeLegacy. cbn [LegacyChunkID with_created with_version]. rewrite Hl.
  rewrite bool_decide_eq_true_2 by done. by rewrite andb_false_r.
Qed.

(** The body is in chunks, each on at least [q] nodes. *)
Definition stored_chunks (co : Coordinator) (w : Cluster) (q : Z) (body : list byte) (o : ObjectMeta) : Prop :=
  EC o = None ∧ Size o = Z.of_nat (length body) ∧ Chunks o ≠ [] ∧
  ∃ datas, concat datas = body ∧ Forall2 (wrote net sched co w q) datas (Chunks o).
(** The body is in stripes of K+M shards, each on a node of its own. *)
Definition stored_stripes (co : Coordinator) (w : Cluster) (k m : Z) (body : list byte) (o : ObjectMeta) : Prop :=
  Size o = Z.of_nat (length body) ∧ IsEC o = true ∧
  ∃ raws enc ssz, EC o = Some (MkECParams k m ssz (Z.of_nat (length body))) ∧ NewEncoder k m = Ok enc ∧
    concat raws = body ∧ stripes_name enc raws (Stripes o) ∧
    Forall (λ st, stripe_wrote net co w st ∧ length (Shards st) = Z.to_nat (k + m)) (Stripes o).

Lemma unchanged_state w x w1 x1 : unchanged net w x (w1, x1) → unchanged net w x (w1, x).
Proof. intros (H1 & H2 & _). split; [exact H1|split; [exact H2|done]]. Qed.

(** A body the reader delivers in full. *)
Definition deliverable (e : EdgeServer) (q : request) : Prop :=
  clean (q_body q) ∧ (ed_CDCEnabled e = true → progressing (q_body q)) ∧
  (Z.of_nat (length (contents (q_body q))) < 2 ^ 63)%Z.
Lemma deliverable_i64 e q : deliverable e q →
  i64 (0 + Z.of_nat (length (contents (q_body q)))) = Z.of_nat (length (contents (q_body q))).
Proof. intros (_ & _ & H). apply i64_small. lia. Qed.

Definition stripe_source (e : EdgeServer) (q : request) : stripe_reader :=
  if ed_CDCEnabled e then CDCStripes (NewCDCReader (q_body q) (ed_CDCConfig e)) else FixedStripes (q_body q).
Lemma stripe_source_ok e q : deliverable e q →
  stripes_ok e (stripe_source e q) ∧ stripe_bytes (stripe_source e q) = contents (q_body q).
Proof.
  intros (Hc & Hp & _). unfold stripe_source. destruct (ed_CDCEnabled e) eqn:He; cbn [stripes_ok stripe_bytes].
  - split; [|done]. split; [|done]. split_and!; [apply normalize_cfg_ok|done|by apply Hp|simpl; lia|done].
  - by split.
Qed.

Lemma put_replicated_spec e q w x rep w1 x1 :
  put_replicated gear net sched e q w x = (rep, (w1, x1)) →
  ∀ meta, rep = PutCreated meta → deliverable e q → sound w →
  unchanged net w x (w1, x) ∧
  ∃ wq os, parseQuorumHeader (q_W q) (replicationFactor (coord w)) = Some wq ∧
    ms_stored x1 (q_bucket q) (q_key q) = Some os ∧
    stored_chunks (coord w) w1 (quorum_of wq w) (contents (q_body q)) os.
Proof.
  unfold put_replicated. intros H meta -> Hd Hw. destruct (parseQuorumHeader _ _) as [wq|]; [|done].
  destruct (put_loop _ _ _ _ _ _ _ _ _ _ _) as [[[refs total]|st] [w2 x2]] eqn:Hl; [|done].
  destruct (put_chunks_spec _ _ _ _ _ _ _ _ _ _ _ _ _ _ Hl) as [Hu Hs]. clear Hl. rename Hs into Hl.
  destruct (newPutReader_ok e (q_body q)) as [Hok Hb]; [apply Hd|apply Hd|].
  destruct (Hl refs total eq_refl Hok Hw eq_refl) as (datas & cs & -> & Hcat & _ & Hwr & ->). clear Hl.
  cbn [app] in *. rewrite Hb in *. rewrite (deliverable_i64 e q Hd) in H.
  destruct (Nat.eqb_spec (length cs) 0) as [|Hne]; [done|]. unfold commit_reply in H.
  destruct (ms_commit _ x2) as [[o'|er] x3] eqn:Hcm; [|done]. injection H as <- <- <-.
  destruct (commit_law _ _ _ _ Hcm) as (os & Hst & Hos). cbn [Bucket Key] in Hst.
  destruct (committed_fields _ _ Hos eq_refl) as (Hc & _ & He & Hs). cbn [Chunks Stripes EC Size] in *.
  split; [by eapply unchanged_state|]. exists wq, os. split_and!; [done|done|].
  unfold stored_chunks. rewrite Hc, He, Hs. split_and!; [done|done| |by exists datas]. by intros ->.
Qed.

Lemma handlePutECStream_spec e q w x rep w1 x1 :
  handlePutECStream gear net e q w x = (rep, (w1, x1)) →
  ∀ meta, rep = PutCreated meta → deliverable e q → sound w →
  unchanged net w x (w1, x) ∧
  ∃ k m os, parseEC (q_EC q) = Some (k, m) ∧ ms_stored x1 (q_bucket q) (q_key q) = Some os ∧
    stored_stripes (coord w) w1 k m (contents (q_body q)) os.
Proof.
  unfold handlePutECStream. intros H meta -> Hd Hw. destruct (parseEC _) as [[k m]|]; [|done].
  destruct (_ <? _)%Z; [done|]. destruct (NewEncoder k m) as [enc|er] eqn:Hnew; [|by destruct er].
  fold (stripe_source e q) in H. destruct (stripe_source_ok e q Hd) as [Hok Hb].
  destruct (ec_put_loop _ _ _ _ _ _ _ _ _ _ _ _) as [[[sts total]|st] [w2 x2]] eqn:Hl; [|done].
  destruct (ec_put_loop_spec _ _ _ _ _ _ _ _ _ _ _ _ _ _ _ Hl) as [Hu Hs]. clear Hl. rename Hs into Hl.
  destruct (Hl sts total eq_refl Hok Hw Hnew eq_refl) as (raws & cs & -> & Hcat & Hn & Hall & ->). clear Hl.
  cbn [app] in *. rewrite Hb in *. rewrite (deliverable_i64 e q Hd) in H.
  destruct (Z.eqb_spec (Z.of_nat (length (contents (q_body q)))) 0) as [|Hne]; [done|]. unfold commit_reply in H.
  destruct (ms_commit _ x2) as [[o'|er] x3] eqn:Hcm; [|done]. injection H as <- <- <-.
  destruct (commit_law _ _ _ _ Hcm) as (os & Hst & Hos). cbn [Bucket Key] in Hst.
  destruct (committed_fields _ _ Hos eq_refl) as (_ & Hs & He & Hsz). cbn [Chunks Stripes EC Size] in *.
  split; [by eapply unchanged_state|]. exists k, m, os. split_and!; [done|done|].
  unfold stored_stripes, IsEC. rewrite Hs, He, Hsz. split_and!; [done| |by exists raws, enc, (chunkSize e)].
  destruct cs; [|done]. destruct raws; [|done]. simpl in Hcat. by rewrite <- Hcat in Hne.
Qed.

(** What any PUT that is answered 201 has done. *)
Definition put_stored (e : EdgeServer) (q : request) (w w1 : Cluster) (os : ObjectMeta) : Prop :=
  if bool_decide (q_EC q = "") then
    ∃ wq, parseQuorumHeader (q_W q) (replicationFactor (coord w)) = Some wq ∧
      stored_chunks (coord w) w1 (quorum_of wq w) (contents (q_body q)) os
  else ∃ k m, parseEC (q_EC q) = Some (k, m) ∧ stored_stripes (coord w) w1 k m (contents (q_body q)) os.
Lemma handlePut_spec e now q w x meta w1 x1 :
  handlePut e now q w x = (PutCreated meta, (w1, x1)) → deliverable e q → sound w →
  unchanged net w x (w1, x) ∧ ∃ os, ms_stored x1 (q_bucket q) (q_key q) = Some os ∧ put_stored e q w w1 os.
Proof.
  unfold Edge.handlePut, put_stored. destruct (rejects_write e); [done|]. destruct (verifyAuth e now q); [|done].
  cbn [negb]. destruct (_ || _); [done|]. case_bool_decide; cbn [negb]; intros H1 Hd Hw.
  - destruct (put_replicated_spec _ _ _ _ _ _ _ H1 meta eq_refl Hd Hw) as (? & wq & os & ? & ? & ?). eauto 10.
  - destruct (handlePutECStream_spec _ _ _ _ _ _ _ H1 meta eq_refl Hd Hw) as (? & k & m & os & ? & ? & ?). eauto 10.
Qed.

(** ** Any GET of it *)
Lemma handleGet_cases e now q w x rep w' x' :
  handleGet e now q w x = (rep, (w', x')) →
  (g_status rep ≠ 200%Z ∧ g_body rep = []) ∨
  ∃ o, ms_stored x (q_bucket q) (q_key q) = Some o ∧ ms_stored x' (q_bucket q) (q_key q) = Some o ∧
    get_object net sched isched q o w = (rep, w').
Proof.
  unfold Edge.handleGet. destruct (verifyAuth e now q); cbn [negb]; [|intros [= <- <- <-]; by left].
  destruct (ms_lookup _ _ x) as [[o|er] x1] eqn:Hl.
  - destruct (lookup_law _ _ _ _ _ Hl) as [Hs Ho]. destruct (get_object _ _ _ _ _ _) as [r w1] eqn:Hg.
    intros [= <- <- <-]. right. exists o. split_and!; [done|congruence|done].
  - intros [= <- <- <-]. left. by destruct er.
Qed.

Lemma prefix_concat_take (n : nat) (datas : list (list byte)) : concat (take n datas) `prefix_of` concat datas.
Proof. exists (concat (drop n datas)). by rewrite <- concat_app, take_drop. Qed.

(** The record [o'] is [o] with other replicas: what rebalance and repair make of it. *)
Definition label (c : ChunkRef) : string * Z := (ChunkID c, cr_Size c).
Definition stripe_label (st : Stripe) : Z * list (string * Z) := (DataLen st, label <$> Shards st).
Definition moved (o o' : ObjectMeta) : Prop :=
  EC o' = EC o ∧ Size o' = Size o ∧ label <$> Chunks o' = label <$> Chunks o ∧
  stripe_label <$> Stripes o' = stripe_label <$> Stripes o.
#[export] Instance moved_refl : Reflexive moved.
Proof. intros o. by split_and!. Qed.
Lemma names_moved datas cs cs' : label <$> cs' = label <$> cs → Forall2 names_data datas cs → Forall2 names_data datas cs'.
Proof.
  intros Hl Hf. apply Forall2_same_length_lookup. apply (f_equal length) in Hl as Hlen. rewrite !length_fmap in Hlen.
  split; [by rewrite Hlen; eapply Forall2_length|]. intros i d c Hd Hc.
  destruct (Forall2_lookup_l _ _ _ _ _ Hf Hd) as (c0 & Hc0 & Hn).
  apply (f_equal (lookup i)) in Hl. rewrite !list_lookup_fmap, Hc, Hc0 in Hl. simpl in Hl. unfold label in Hl.
  destruct Hn as [H1 H2]. split; congruence.
Qed.
Lemma stripes_name_moved enc raws sts sts' :
  stripe_label <$> sts' = stripe_label <$> sts → stripes_name enc raws sts → stripes_name enc raws sts'.
Proof.
  revert sts sts'. induction raws as [|raw raws IH]; intros [|st sts] [|st' sts'] Hl Hn; try discriminate Hl; try by destruct Hn.
  destruct Hn as [(zeros & (ds & py & He & Hc & Hn) & Ht) Hrec]. injection Hl as Hd Hs Hrest.
  split; [|by eapply IH].
  exists zeros. split.
  - exists ds, py. split_and!; [done|done|]. by eapply names_moved.
  - unfold trims in *. by rewrite Hd.
Qed.

Lemma get_chunks_safe q co w1 qu body o o' w rep w' :
  stored_chunks co w1 qu body o → moved o o' → sound w → get_object net sched isched q o' w = (rep, w') →
  collision ∨ (g_status rep ≠ 200%Z ∧ g_body rep = []) ∨ g_status rep = 200%Z ∧ g_body rep `prefix_of` body.
Proof.
  intros (He & _ & _ & datas & <- & Hw1) (He' & _ & Hl & _) Hw. unfold get_object. rewrite He', He. unfold get_replicated.
  destruct (parseQuorumHeader _ _) as [rq|]; [|intros [= <- <-]; right; by left].
  intros H. apply get_loop_spec with (datas := datas) in H; [|done| |done].
  2:{ eapply names_moved; [exact Hl|]. eapply Forall2_impl; [exact Hw1|]. intros d c. by apply wrote_names. }
  destruct H as [?|[[_ ->]|(n & Hst & Hb)]]; [by left|right; by left|].
  right. right. split; [done|]. rewrite Hb. apply prefix_concat_take.
Qed.

Lemma get_stripes_eq q o w k m ssz len enc :
  IsEC o = true → EC o = Some (MkECParams k m ssz len) → NewEncoder k m = Ok enc →
  get_object net sched isched q o w =
    ec_get_loop net isched enc (enc_k enc) 0 (Stripes o) len (MkGet 200 (Some (Size o)) []) w.
Proof.
  intros Hec He Hnew. unfold get_object. rewrite He, Hec. unfold handleGetEC. cbn [ec_K ec_M DataSize].
  rewrite Hnew. by destruct (NewEncoder_inv _ _ _ Hnew) as (_ & -> & _).
Qed.
Lemma IsEC_moved o o' : moved o o' → IsEC o' = IsEC o.
Proof.
  intros (He & _ & _ & Hs). unfold IsEC. rewrite He. apply (f_equal length) in Hs. rewrite !length_fmap in Hs. by rewrite Hs.
Qed.
Lemma get_stripes_safe q co w1 k m body o o' w rep w' :
  stored_stripes co w1 k m body o → moved o o' → get_object net sched isched q o' w = (rep, w') →
  collision ∨ (g_status rep ≠ 200%Z ∧ g_body rep = []) ∨ g_status rep = 200%Z ∧ g_body rep `prefix_of` body.
Proof.
  intros (_ & Hec & raws & enc & ssz & He & Hnew & <- & Hn & _) Hm H.
  rewrite <- (IsEC_moved _ _ Hm) in Hec. destruct Hm as (He' & _ & _ & Hs). rewrite <- He' in He.
  erewrite get_stripes_eq in H by done.
  destruct (ec_get_loop_spec net sched isched Hsched Hisched _ _ _ _ _ _ (MkGet 200 (Some (Size o')) []) _ _ _ Hnew
    (stripes_name_moved _ _ _ _ Hs Hn) eq_refl H) as [?|[[(_ & -> & ->)|(n & -> & ->)] _]]; [by left|right; by left|].
  right. right. split; [done|]. apply prefix_concat_take.
Qed.

(** ** Losing nodes *)
Lemma spread (addrs : list string) (down : gset string) : NoDup addrs →
  ∃ live : gset nat, length addrs ≤ size down + size live ∧
    ∀ i, i ∈ live → ∃ a, addrs !! i = Some a ∧ a ∉ down.
Proof.
  revert down. induction addrs as [|a addrs IH] using rev_ind; intros down Hnd; [exists ∅; split; [simpl; lia|set_solver]|].
  apply NoDup_app in Hnd as (Hnd & Ha & _).
  assert (∀ i b, addrs !! i = Some b → b ≠ a) as Hne.
  { intros i b Hb ->. apply (Ha a); [by eapply list_elem_of_lookup_2|set_solver]. }
  rewrite length_app. cbn [length]. destruct (decide (a ∈ down)) as [Hin|Hin].
  - destruct (IH (down ∖ {[a]}) Hnd) as (live & Hl & Hok). exists live. split.
    + assert (size down = S (size (down ∖ {[a]}))); [|lia].
      rewrite (union_difference_L {[a]} down) at 1 by set_solver. rewrite size_union, size_singleton by set_solver. lia.
    + intros i (b & Hb & Hbd)%Hok. exists b. split; [by apply lookup_app_l_Some|]. specialize (Hne i b Hb). set_solver.
  - destruct (IH down Hnd) as (live & Hl & Hok). exists ({[length addrs]} ∪ live). split.
    + rewrite size_union, size_singleton; [lia|].
      intros i ->%elem_of_singleton (b & Hb%lookup_lt_Some & _)%Hok. lia.
    + intros i [->%elem_of_singleton|(b & Hb & Hbd)%Hok]%elem_of_union.
      * exists a. by rewrite list_lookup_middle.
      * exists b. split; [by apply lookup_app_l_Some|done].
Qed.

(** The cluster [w] some time after [w1]: it has lost the nodes of [down] and nothing
    else, and from now on its network works. *)
Definition lost (down : gset string) (w1 w : Cluster) : Prop :=
  sound w ∧ fine_from net (calls w) ∧
  ∀ a id, a ∉ down → is_Some (chunk_at w1 a id) → is_Some (chunk_at w a id).
Lemma lost_nodes down w1 w : keeps_chunks w1 w → sound w → fine_from net (calls w) →
  lost down w1 (without_nodes down w).
Proof.
  intros Hk Hw Hf. split_and!; [|done|].
  - intros a s [Hs _]%map_lookup_filter_Some. by apply (Hw a).
  - intros a id Ha Hc%Hk. simpl in *. unfold cluster_chunk in *. simpl.
    destruct (dns w !! a) as [s|] eqn:Hs; [|by destruct Hc].
    by erewrite (proj2 (map_lookup_filter_Some _ _ _ _)).
Qed.

(** Placement puts the copies of a chunk, and the shards of a stripe, on distinct nodes. *)
Definition spreads (co : Coordinator) : Prop := ∀ targets, placement co targets → NoDup targets.

Lemma chunks_survive co w1 qu body o (down : gset string) w :
  spreads co → stored_chunks co w1 qu body o → (Z.of_nat (size down) < qu)%Z → lost down w1 w →
  Forall (readable net w) (Chunks o).
Proof.
  intros Hspread (_ & _ & _ & datas & _ & Hwr) Hsz (_ & _ & Hlost). apply Forall_forall. intros c Hc.
  apply list_elem_of_lookup in Hc as (i & Hc). destruct (Forall2_lookup_r _ _ _ _ _ Hwr Hc) as (data & _ & Hd).
  destruct Hd as (_ & _ & Hq & Hat & targets & Hpl%Hspread & Hsub).
  destruct (spread (Replicas c) down) as (live & Hl & Hok).
  { eapply sublist_NoDup; [|exact Hsub]. by rewrite Hsched. }
  destruct (set_choose_or_empty live) as [[j Hj]|He]; [|exfalso; apply size_empty_iff in He; lia].
  destruct (Hok j Hj) as (a & Ha%list_elem_of_lookup_2 & Had). exists a. split; [done|]. by apply Hlost, Hat.
Qed.
Lemma stripe_survives co w1 (k m : Z) (down : gset string) w st :
  spreads co → stripe_wrote net co w1 st → length (Shards st) = Z.to_nat (k + m) → (Z.of_nat (size down) ≤ m)%Z →
  lost down w1 w → stripe_live net (Z.to_nat k) w st.
Proof.
  intros Hspread (addrs & Hpl%Hspread & Hlen & Hh) Hsl Hsz (_ & _ & Hlost).
  destruct (spread (take (length (Shards st)) addrs) down) as (live & Hl & Hok).
  { eapply sublist_NoDup; [exact Hpl|apply sublist_take]. }
  exists live. rewrite length_take in Hl. split; [lia|].
  intros i (a & Ha & Had)%Hok. destruct (Forall2_lookup_l _ _ _ _ _ Hh Ha) as (c & Hc & Hr & Hat).
  exists c. split; [done|]. exists a. rewrite Hr. split; [set_solver|]. by apply Hlost.
Qed.
End edge.
