(* ===== verification/EdgeLive.v ===== *)
(** * The edge's data path: which PUTs are answered, and how

    On a network that answers, a PUT of a body to enough nodes is accepted; any other
    answer leaves the metadata as it was, a failed commit apart.  The fuel of the loops is
    enough for every body. *)
From S2P Require Import Prelude GF Matrix ReedSolomon GoLib Chunker Cdc Placement UrlKey Kv Meta Store.
From S2P Require Import DataNode Transport Coordinator Election Follower Repair Edge EdgeProps EdgeEC.
From S2P Require Import EdgeSafety.
From Stdlib Require Import Strings.Byte.

(** ** Calls that are answered *)
Section calls.
Context (net : nat → outcome).
Lemma putChunk_dom a id b w r w' : putChunk net a id b w = (r, w') → dom (dns w) ⊆ dom (dns w').
Proof.
  unfold putChunk. destruct (call _ _ _ _) as [o w1] eqn:Hc. intros ->%checked_coord.
  apply call_cases in Hc as (_ & _ & [[_ ->]|(s & Hs & -> & _)]); [done|]. rewrite dom_insert_L. set_solver.
Qed.
Lemma fan_out_dom id b targets w ok w' : fan_out net id b targets w = (ok, w') → dom (dns w) ⊆ dom (dns w').
Proof.
  revert w ok w'. induction targets as [|a targets IH]; intros w ok w'; cbn [fan_out]; [by intros [= _ <-]|].
  destruct (putChunk net a id b w) as [r w1] eqn:Hp. destruct (fan_out net id b targets w1) as [ok1 w2] eqn:Hf.
  intros [= _ <-]. etrans; [by eapply putChunk_dom|by eapply IH].
Qed.
Lemma putChunk_fine a b w : all_fine net → a ∈ dom (dns w) → ∃ w', putChunk net a (sha256_hex b) b w = (Ok (), w').
Proof.
  intros Hfine [s Hs]%elem_of_dom. destruct (Hfine (calls w)) as [Hans Hio].
  unfold putChunk, call, put_call. rewrite Hs, Hio, Hans.
  pose proof (put_fine_status (sha256_hex b) b (o_now (net (calls w))) s eq_refl) as Hst.
  destruct (DataNode.handlePut _ _ _ _ _ s) as [st s']. cbn [fst] in Hst. cbn [checked].
  rewrite bool_decide_eq_true_2 by done. eauto.
Qed.
End calls.

Section edge.
Context (gear : list Z).
Context (net : nat → outcome) (sched : list string → list string).
Context {X : Type} {HM : MetaService X} {HML : MetaServiceLaws X}.
Context (Hsched : ∀ l, sched l ≡ₚ l).
#[local] Instance el_cluster : ChunkService coord_error Cluster := edge_cluster net.
Notation handlePut := (Edge.handlePut gear net sched).

(** ** Fuel *)
Lemma put_loop_err fuel e wq rd refs total w x st wx :
  put_loop gear net sched fuel e wq rd refs total w x = (Err st, wx) →
  pieces_ok rd → length (bytes_left rd) < fuel → st = 502%Z.
Proof.
  revert rd refs total w x. induction fuel as [|fuel IH]; intros rd refs total w x; [lia|]. cbn [put_loop].
  pose proof (Next_spec gear rd) as Hnext. destruct (Edge.Next gear rd) as [[piece|er] rd'].
  - destruct (writeChunkPreferClassW _ _ _ _ _ _ _ _) as [[replicas|] [w1 x1]]; [|by intros [= <- <-]].
    intros H Hok Hf. destruct (Hnext Hok) as (data & -> & Hne & Hl & Hok').
    eapply IH; [exact H|done|]. rewrite Hl, length_app in Hf. destruct data; [done|]. simpl in Hf. lia.
  - intros H Hok _. destruct (Hnext Hok) as [-> _]. done.
Qed.
Lemma put_stripe_err e enc k m p w x st wx :
  put_stripe net e enc k m p w x = (Err st, wx) → st = 500%Z ∨ st = 502%Z.
Proof. unfold put_stripe. repeat case_match; intros [= <- <-]; auto. Qed.
Lemma ec_put_loop_err fuel e k m enc rd sts len w x st wx :
  ec_put_loop gear net fuel e enc k m rd sts len w x = (Err st, wx) →
  1 ≤ k → stripes_ok e rd → length (stripe_bytes rd) < fuel → st = 500%Z ∨ st = 502%Z.
Proof.
  intros H Hk. revert rd sts len w x H. induction fuel as [|fuel IH]; intros rd sts len w x; [lia|]. cbn [ec_put_loop].
  pose proof (nextStripe_spec gear e k rd Hk) as Hnext.
  destruct (Edge.nextStripe gear e k rd) as [[[p rerr]|er] rd'].
  2:{ intros H Hok _. destruct (Hnext Hok) as [-> _]. done. }
  destruct (put_stripe _ _ _ _ _ _ _ _) as [[stripe|er] [w1 x1]] eqn:Hst.
  2:{ intros [= <- <-] _ _. by eapply put_stripe_err. }
  intros H Hok Hf. destruct (Hnext Hok) as (zeros & Hne & Hl & Hok' & _).
  assert (length (stripe_bytes rd') < fuel).
  { rewrite Hl, length_app in Hf. destruct (sp_raw p); [done|]. simpl in Hf. lia. }
  destruct rerr as [[]|]; first [done|by eapply IH].
Qed.

Lemma NewEncoder_panics k m : NewEncoder k m = Err ErrPanic → (2 ^ 63 ≤ k + m)%Z.
Proof.
  unfold NewEncoder. destruct (_ || _); [done|]. destruct (Z.leb_spec (2 ^ 63) (k + m)); [done|]. by repeat case_match.
Qed.
Lemma body_fuel_enough src : length (contents src) < body_fuel src.
Proof.
  unfold body_fuel. apply Nat.lt_succ_r.
  induction src as [|[b|b|] src IH]; rewrite ?bind_cons, ?length_app; cbn [contents delivered length]; rewrite ?length_app; lia.
Qed.

(** ** A PUT that is refused *)
Definition refused (q : request) (w : Cluster) (x : X) (st : Z) (w1 : Cluster) (x1 : X) : Prop :=
  (st ∈ [503; 401; 400; 502; 500]%Z ∨ st = 0%Z ∧ ∃ k m, parseEC (q_EC q) = Some (k, m) ∧ (2 ^ 63 ≤ k + m)%Z) ∧
  (st = 500%Z ∨ ∀ b k, ms_stored x1 b k = ms_stored x b k) ∧ keeps_chunks w w1.
Lemma refused_now q w x st : bool_decide (st ∈ [503; 401; 400; 502; 500]%Z) → refused q w x st w x.
Proof. intros ?%bool_decide_unpack. split_and!; [by left|by right|done]. Qed.
Lemma refused_by q w x st w1 x1 :
  bool_decide (st ∈ [503; 401; 400; 502; 500]%Z) → sound w → unchanged net w x (w1, x1) → refused q w x st w1 x1.
Proof. intros ?%bool_decide_unpack Hw (_ & Hu & Hs). split_and!; [by left|by right|by apply Hu]. Qed.
Lemma refused_commit q w x w2 x2 meta st w1 x1 :
  sound w → unchanged net w x (w2, x2) → commit_reply meta w2 x2 = (PutRefused st, (w1, x1)) → refused q w x st w1 x1.
Proof.
  intros Hw (_ & Hu & _). unfold commit_reply. destruct (ms_commit meta x2) as [[o|er] x3]; [done|].
  intros [= <- <- <-]. split_and!; [left; by apply (bool_decide_unpack _)|by left|by apply Hu].
Qed.

Lemma put_replicated_refused e q w x st w1 x1 :
  put_replicated gear net sched e q w x = (PutRefused st, (w1, x1)) → deliverable e q → sound w → refused q w x st w1 x1.
Proof.
  unfold put_replicated. intros Hput Hd Hw.
  destruct (parseQuorumHeader _ _) as [wq|]; [|injection Hput as <- <- <-; by apply refused_now].
  destruct (put_loop _ _ _ _ _ _ _ _ _ _ _) as [r [w2 x2]] eqn:Hl.
  destruct (put_chunks_spec _ _ _ _ _ _ _ _ _ _ _ _ _ _ Hl) as [Hu _]. destruct r as [[refs total]|st'].
  - destruct (length refs =? 0); [|by eapply refused_commit]. injection Hput as <- <- <-. by apply refused_by.
  - injection Hput as <- <- <-. destruct (newPutReader_ok e (q_body q)) as [Hok Hb]; [apply Hd..|].
    pose proof (put_loop_err _ _ _ _ _ _ _ _ _ _ Hl Hok) as ->; [by apply refused_by|].
    rewrite Hb. apply body_fuel_enough.
Qed.
Lemma put_ec_refused e q w x st w1 x1 :
  handlePutECStream gear net e q w x = (PutRefused st, (w1, x1)) → deliverable e q → sound w → refused q w x st w1 x1.
Proof.
  unfold handlePutECStream. intros Hput Hd Hw.
  destruct (parseEC _) as [[k m]|] eqn:Hkm; [|injection Hput as <- <- <-; by apply refused_now].
  destruct (_ <? _)%Z; [injection Hput as <- <- <-; by apply refused_now|].
  destruct (NewEncoder k m) as [enc|er] eqn:Hnew; cycle 1.
  { pose proof (NewEncoder_panics k m) as Hpanic. rewrite Hnew in Hpanic.
    destruct er; injection Hput as <- <- <-; try by apply refused_now.
    split_and!; [right; split; [done|]; exists k, m; by split; [|apply Hpanic]|by right|done]. }
  fold (stripe_source e q) in Hput. destruct (NewEncoder_inv _ _ _ Hnew) as ((? & _) & _).
  destruct (ec_put_loop _ _ _ _ _ _ _ _ _ _ _ _) as [r [w2 x2]] eqn:Hl.
  destruct (ec_put_loop_spec _ _ _ _ _ _ _ _ _ _ _ _ _ _ _ Hl) as [Hu _]. destruct r as [[sts total]|st'].
  - destruct (total =? 0)%Z; [|by eapply refused_commit]. injection Hput as <- <- <-. by apply refused_by.
  - injection Hput as <- <- <-. destruct (stripe_source_ok e q Hd) as [Hok Hb].
    destruct (ec_put_loop_err _ _ _ _ _ _ _ _ _ _ _ _ Hl ltac:(lia) Hok) as [->| ->];
      [rewrite Hb; apply body_fuel_enough|by apply refused_by..].
Qed.

(** ** A PUT to nodes that are up *)
(** The nodes of [up] serve, and placement finds [n] of them. *)
Definition serving (up : gset string) (w : Cluster) : Prop := up ⊆ dom (dns w).
Definition placing (up : gset string) (n : Z) (c : Coordinator) : Prop :=
  ∀ key w x, coord w = c → ∃ targets x', ms_placeN key n w x = (Ok targets, x') ∧
    (n ≤ Z.of_nat (length targets))%Z ∧ ∀ a, a ∈ targets → a ∈ up.

Lemma write_up e up data wq w x :
  all_fine net → ed_PreferClass e = "" → placing up (replicationFactor (coord w)) (coord w) → serving up w →
  (0 ≤ wq)%Z → (1 ≤ quorum_of wq w ≤ replicationFactor (coord w))%Z →
  ∃ replicas w' x', writeChunkPreferClassW net sched e (sha256_hex data) data wq w x = (Some replicas, (w', x')) ∧
    coord w' = coord w ∧ serving up w'.
Proof.
  intros Hfine Hcls Hplace Hup Hwq Hq. unfold writeChunkPreferClassW. rewrite bool_decide_eq_true_2 by done.
  destruct (Hplace (sha256_hex data) w x eq_refl) as (targets & x' & -> & Hn & Hin).
  unfold WriteChunkToAddrsW. rewrite (proj2 (Nat.eqb_neq _ _)) by lia. rewrite (proj2 (Z.ltb_ge _ _)) by lia.
  fold (quorum_of wq w). rewrite (proj2 (Z.ltb_ge _ _)) by lia.
  pose proof (fan_out_all_up net (sha256_hex data) data (sched targets) w Hfine eq_refl) as Hfan.
  destruct (fan_out net _ data (sched targets) w) as [ok w1] eqn:Hf. cbn [fst] in Hfan.
  rewrite Hfan; [|intros a Ha; rewrite Hsched in Ha; by apply elem_of_dom, Hup, Hin].
  rewrite (proj2 (Z.ltb_ge _ _)) by (rewrite (Permutation_length (Hsched targets)); lia).
  exists (sched targets), w1, x'. split_and!; [done|by eapply fan_out_coord|].
  unfold serving. etrans; [exact Hup|by eapply fan_out_dom].
Qed.

Lemma put_loop_up fuel e up wq rd refs total w x :
  all_fine net → ed_PreferClass e = "" → placing up (replicationFactor (coord w)) (coord w) → serving up w →
  (0 ≤ wq)%Z → (1 ≤ quorum_of wq w ≤ replicationFactor (coord w))%Z → pieces_ok rd → length (bytes_left rd) < fuel →
  ∃ res wx, put_loop gear net sched fuel e wq rd refs total w x = (Ok res, wx).
Proof.
  intros Hfine Hcls. revert rd refs total w x. induction fuel as [|fuel IH]; intros rd refs total w x Hplace Hup Hwq Hq Hok Hf; [lia|].
  cbn [put_loop]. pose proof (Next_spec gear rd) as Hnext. destruct (Edge.Next gear rd) as [[piece|er] rd'].
  - destruct (Hnext Hok) as (data & -> & Hne & Hl & Hok').
    destruct (write_up e up data wq w x Hfine Hcls Hplace Hup Hwq Hq) as (replicas & w1 & x1 & Hw & Hc & Hup').
    cbn [p_ID p_Data newStreamPiece]. rewrite Hw. apply IH; try done; rewrite ?(quorum_of_coord wq w w1), ?Hc; try done.
    rewrite Hl, length_app in Hf. destruct data; [done|]. simpl in Hf. lia.
  - destruct (Hnext Hok) as [-> _]. eauto.
Qed.

Lemma put_shards_up up addrs all refs w :
  all_fine net → serving up w → (∀ a, a ∈ addrs → a ∈ up) → length refs + length all ≤ length addrs →
  ∃ refs' w', put_shards net addrs all refs w = (Some refs', w') ∧ serving up w'.
Proof.
  intros Hfine Hup Hin. revert refs w Hup. induction all as [|sh all IH]; intros refs w Hup Hl; cbn [put_shards]; [eauto|].
  simpl in Hl.
  assert (addrs !!! length refs ∈ dom (dns w)) as Ha.
  { apply Hup, Hin. eapply list_elem_of_lookup_2, list_lookup_lookup_total_lt. lia. }
  destruct (putChunk_fine net (addrs !!! length refs) sh w Hfine Ha) as [w1 Hp].
  rewrite Hp. apply IH; [|rewrite length_app; simpl; lia]. unfold serving. etrans; [exact Hup|by eapply putChunk_dom].
Qed.

Lemma put_stripe_up e up enc k m p w x :
  all_fine net → NewEncoder k m = Ok enc → placing up (k + m) (coord w) → serving up w →
  length (sp_padded p) = Z.to_nat k * sp_shardSz p → sp_padded p ≠ [] →
  ∃ st w' x', put_stripe net e enc (Z.to_nat k) (Z.to_nat m) p w x = (Ok st, (w', x')) ∧ coord w' = coord w ∧ serving up w'.
Proof.
  intros Hfine Hnew Hplace Hup Hlen Hne. destruct (NewEncoder_inv _ _ _ Hnew) as (Hkm & Hk & Hm & Henc).
  assert (sp_shardSz p ≠ 0) as Hs.
  { intros E. rewrite E, Nat.mul_0_r in Hlen. by apply nil_length_inv in Hlen. }
  assert (shards_of_size (enc_k enc) (sp_shardSz p) (data_shards (Z.to_nat k) p)) as Hshards.
  { unfold data_shards. split; [by rewrite length_fmap, length_seq|].
    intros s (i & -> & Hi%elem_of_seq)%list_elem_of_fmap. rewrite length_take, length_drop. nia. }
  destruct (Encode_ok enc _ _ (enc_shaped _ _ _ Henc) Hshards ltac:(lia) Hs) as (parity & Hpar & [Hpl _] & _).
  unfold put_stripe. rewrite Hpar. replace (Z.of_nat (Z.to_nat k + Z.to_nat m)) with (k + m)%Z by lia.
  destruct (Hplace (sha256_hex (concat (data_shards (Z.to_nat k) p))) w x eq_refl) as (addrs & x1 & Hp & Hn & Hin).
  rewrite Hp. destruct (Nat.ltb_spec (length addrs) (Z.to_nat k + Z.to_nat m)); [lia|].
  destruct (put_shards_up up addrs (data_shards (Z.to_nat k) p ++ parity) [] w Hfine Hup Hin) as (refs & w1 & Hps & Hup1).
  { destruct Hshards as [Hdl _]. rewrite length_app. simpl. lia. }
  rewrite Hps. eexists _, w1, x1. split_and!; [done| |done]. by eapply put_shards_spec.
Qed.

Lemma ec_put_loop_up fuel e up k m enc rd sts len w x :
  all_fine net → NewEncoder k m = Ok enc → placing up (k + m) (coord w) → serving up w →
  stripes_ok e rd → length (stripe_bytes rd) < fuel →
  ∃ res wx, ec_put_loop gear net fuel e enc (Z.to_nat k) (Z.to_nat m) rd sts len w x = (Ok res, wx).
Proof.
  intros Hfine Hnew. destruct (NewEncoder_inv _ _ _ Hnew) as ((Hk & _) & _).
  revert rd sts len w x. induction fuel as [|fuel IH]; intros rd sts len w x Hplace Hup Hok Hf; [lia|].
  cbn [ec_put_loop]. pose proof (nextStripe_spec gear e (Z.to_nat k) rd ltac:(lia) Hok) as Hnext.
  destruct (Edge.nextStripe gear e (Z.to_nat k) rd) as [[[p rerr]|er] rd']; [|destruct Hnext as [-> _]; eauto].
  destruct Hnext as (zeros & Hne & Hl & Hok' & Hpad & Hlen & Herr & _).
  destruct (put_stripe_up e up enc k m p w x Hfine Hnew Hplace Hup Hlen) as (st & w1 & x1 & Hst & Hc & Hup').
  { rewrite Hpad. by destruct (sp_raw p). }
  rewrite Hst. assert (length (stripe_bytes rd') < fuel).
  { rewrite Hl, length_app in Hf. destruct (sp_raw p); [done|]. simpl in Hf. lia. }
  destruct Herr as [->|[-> _]]; [|eauto]. apply IH; try done. by rewrite Hc.
Qed.

(** ** A PUT that is accepted *)
Lemma parseQuorumHeader_nonneg v max n : parseQuorumHeader v max = Some n → (0 ≤ n)%Z.
Proof.
  unfold parseQuorumHeader. case_bool_decide; [by intros [= <-]|]. destruct (parse_int _) as [z|]; [|done].
  destruct (Z.ltb_spec z 1); [done|]. destruct (_ && _); [done|]. intros [= <-]. lia.
Qed.
(** The header asks for what the cluster has. *)
Definition satisfiable (up : gset string) (e : EdgeServer) (q : request) (w : Cluster) : Prop :=
  if bool_decide (q_EC q = "") then
    ed_PreferClass e = "" ∧ placing up (replicationFactor (coord w)) (coord w) ∧
    ∃ wq, parseQuorumHeader (q_W q) (replicationFactor (coord w)) = Some wq ∧
      (1 ≤ quorum_of wq w ≤ replicationFactor (coord w))%Z
  else ∃ k m enc, parseEC (q_EC q) = Some (k, m) ∧ NewEncoder k m = Ok enc ∧ placing up (k + m) (coord w) ∧
    (k + m ≤ Z.of_nat (length (coord_DNs (coord w))))%Z.
Definition committing (q : request) : Prop :=
  ∀ o x, Bucket o = q_bucket q → Key o = q_key q → ∃ o' x', ms_commit o x = (Ok o', x').
Lemma commit_created q o w x : committing q → Bucket o = q_bucket q → Key o = q_key q →
  ∃ meta w1 x1, commit_reply o w x = (PutCreated meta, (w1, x1)).
Proof. intros Hc Hb Hk. unfold commit_reply. destruct (Hc o x Hb Hk) as (o' & x' & ->). eauto. Qed.

Lemma put_replicated_up e up q w x :
  all_fine net → deliverable e q → contents (q_body q) ≠ [] → sound w → serving up w → committing q →
  ed_PreferClass e = "" → placing up (replicationFactor (coord w)) (coord w) →
  (∃ wq, parseQuorumHeader (q_W q) (replicationFactor (coord w)) = Some wq ∧
     (1 ≤ quorum_of wq w ≤ replicationFactor (coord w))%Z) →
  ∃ meta w1 x1, put_replicated gear net sched e q w x = (PutCreated meta, (w1, x1)).
Proof.
  intros Hfine Hd Hne Hw Hup Hcom Hcls Hplace (wq & Hwq & Hq). unfold put_replicated. rewrite Hwq.
  destruct (newPutReader_ok e (q_body q)) as [Hok Hb]; [apply Hd..|].
  destruct (put_loop_up (body_fuel (q_body q)) e up wq (newPutReader e (q_body q)) [] 0 w x) as ([refs total] & [w2 x2] & Hl);
    try done; [by eapply parseQuorumHeader_nonneg|rewrite Hb; apply body_fuel_enough|].
  rewrite Hl. destruct (put_chunks_spec _ _ _ _ _ _ _ _ _ _ _ _ _ _ Hl) as [_ Hspec].
  destruct (Hspec refs total eq_refl Hok Hw eq_refl) as (datas & cs & -> & Hcat & _ & Hwr & _).
  destruct (Nat.eqb_spec (length ([] ++ cs)) 0) as [H0|]; [|by eapply commit_created].
  apply nil_length_inv in H0. simpl in H0. subst cs. inversion Hwr; subst. simpl in Hcat. by rewrite Hb in Hcat.
Qed.
Lemma put_ec_up e up q w x k m enc :
  all_fine net → deliverable e q → contents (q_body q) ≠ [] → sound w → serving up w → committing q →
  parseEC (q_EC q) = Some (k, m) → NewEncoder k m = Ok enc → placing up (k + m) (coord w) →
  (k + m ≤ Z.of_nat (length (coord_DNs (coord w))))%Z →
  ∃ meta w1 x1, handlePutECStream gear net e q w x = (PutCreated meta, (w1, x1)).
Proof.
  intros Hfine Hd Hne Hw Hup Hcom Hkm Hnew Hplace Hn. unfold handlePutECStream. rewrite Hkm, Hnew.
  destruct (NewEncoder_inv _ _ _ Hnew) as (Hb256 & _). rewrite i64_small by lia. rewrite (proj2 (Z.ltb_ge _ _)) by lia.
  fold (stripe_source e q). destruct (stripe_source_ok e q Hd) as [Hok Hb].
  destruct (ec_put_loop_up (body_fuel (q_body q)) e up k m enc (stripe_source e q) [] 0 w x Hfine Hnew Hplace Hup Hok)
    as ([sts total] & [w2 x2] & Hl); [rewrite Hb; apply body_fuel_enough|].
  rewrite Hl. destruct (ec_put_loop_spec _ _ _ _ _ _ _ _ _ _ _ _ _ _ _ Hl) as [_ Hspec].
  destruct (Hspec sts total eq_refl Hok Hw Hnew eq_refl) as (raws & cs & -> & _ & _ & _ & ->).
  rewrite Hb, (deliverable_i64 e q Hd). destruct (contents (q_body q)) as [|b l] eqn:Hc; [done|].
  rewrite (proj2 (Z.eqb_neq _ _)) by (simpl; lia). by eapply commit_created.
Qed.
End edge.
