(* ===== verification/EdgeLocal.v ===== *)
(** * The edge's own store as the metadata service

    [placeN], [commitPutMeta], [lookupMeta] and [deleteMeta] of internal/edge/edge.go when
    the edge runs neither behind a coord daemon nor with strict replication: placement is
    the edge's coordinator's and the records are in its bbolt file. *)
From S2P Require Import Prelude GF GoLib Placement Kv Meta Store StoreProps Coordinator Edge.

Section local.
Context {M : Type → Type} {KVM : KV M} {HKV : KVLaws M}.
(** The store and the clock of the request. *)
Record LocalStore : Type := MkLocal { lm_db : @DB M; lm_now : Z }.
Definition with_db (x : LocalStore) (db : @DB M) : LocalStore := MkLocal db (lm_now x).
Definition store_to_meta (er : store_error) : meta_error :=
  match er with ErrNotFound => MetaNotFound | _ => MetaFailed end.

Definition placeN (key : string) (n : Z) (w : Cluster) (x : LocalStore) : result meta_error (list string) * LocalStore :=
  (Ok (coord_PlaceN key n (coord w)), x).
Definition commitPutMeta (o : ObjectMeta) (x : LocalStore) : result meta_error ObjectMeta * LocalStore :=
  match putObjectInternal o (lm_now x) (lm_db x) with
  | (Ok o, db) => (Ok o, with_db x db)
  | (Err er, db) => (Err (store_to_meta er), with_db x db)
  end.
Definition lookupMeta (bucket key : string) (x : LocalStore) : result meta_error ObjectMeta * LocalStore :=
  (match GetObject (lm_db x) bucket key with Ok o => Ok o | Err er => Err (store_to_meta er) end, x).
Definition deleteMeta (bucket key : string) (x : LocalStore) : result meta_error unit * LocalStore :=
  match deleteObjectInternal bucket key (lm_db x) with
  | (Ok _, db) => (Ok tt, with_db x db)
  | (Err er, db) => (Err (store_to_meta er), with_db x db)
  end.

#[export] Instance local_meta : MetaService LocalStore :=
  {| ms_placeN := placeN;
     ms_classDNs class x := Some (ListRuntimeDNsByClass (lm_db x) class);
     ms_commit := commitPutMeta; ms_lookup := lookupMeta; ms_delete := deleteMeta;
     ms_stored x bucket key := match GetObject (lm_db x) bucket key with Ok o => Some o | Err _ => None end |}.

Lemma with_created_eta o v : with_created (with_version o v) (CreatedAt o) = with_version o v.
Proof. by destruct o. Qed.
Lemma with_version_eta o : with_version o (Version o) = o.
Proof. by destruct o. Qed.
Lemma next_version_is (m : M (stored ObjectMeta)) k o : ∃ v, next_version m k o = with_version o v.
Proof. unfold next_version. repeat case_match; eauto; exists (Version o); by rewrite with_version_eta. Qed.

Lemma putObject_committed o now (db : @DB M) o' db' : putObjectInternal o now db = (Ok o', db') →
  GetObject db' (Bucket o) (Key o) = Ok (normalizeLegacy o') ∧ ∃ v t, o' = with_created (with_version o v) t.
Proof.
  unfold putObjectInternal. intros Hp%Update_ok. apply rbind_ok in Hp as (m & Hput & [= Ho <-]).
  destruct (next_version_is (objects db) (objKey (Bucket o) (Key o)) o) as [v Hv]. rewrite Hv in *.
  set (o1 := if IsZero _ then _ else _) in *. subst o'. split; [by apply GetObject_put|].
  unfold o1. destruct (IsZero _); [by eexists v, _|]. exists v, (CreatedAt o). by rewrite with_created_eta.
Qed.
Lemma commit_ok o x o' x' : commitPutMeta o x = (Ok o', x') →
  GetObject (lm_db x') (Bucket o) (Key o) = Ok (normalizeLegacy o') ∧ ∃ v t, o' = with_created (with_version o v) t.
Proof.
  unfold commitPutMeta. destruct (putObjectInternal o (lm_now x) (lm_db x)) as [[o1|er] db] eqn:Hp; [|done].
  intros [= -> <-]. by apply putObject_committed in Hp.
Qed.
#[export] Instance local_meta_laws : MetaServiceLaws LocalStore.
Proof.
  split.
  - intros o x o' x' (Hg & v & t & ->)%commit_ok. simpl. rewrite Hg. by eexists _; split; [|exists v, t].
  - intros b k x r x'. simpl. unfold lookupMeta. intros [= <- <-]. split; [done|]. by destruct (GetObject _ _ _).
  - intros key n w x r x'. simpl. unfold placeN. by intros [= <- <-].
  - intros b k x x'. simpl. unfold deleteMeta, deleteObjectInternal, Update.
    destruct (kv_get (objects (lm_db x)) (objKey b k)); [|done]. intros [= <-]. cbn [lm_db with_db].
    unfold GetObject, get_decoded. simpl. by rewrite get_delete_eq.
Qed.
End local.
