(* ===== verification/EdgeTheorems.v ===== *)
(** * The edge's data path: its contract

    What a client may rely on across PUT and GET, for any metadata service that keeps
    [MetaServiceLaws] and any data nodes; the witnesses run it on the edge's own store. *)
From S2P Require Import Prelude GF Matrix ReedSolomon GoLib Chunker Cdc Placement UrlKey Kv Meta Store.
From S2P Require Import StoreProps DataNode Transport Coordinator Election Follower Repair Edge EdgeProps.
From S2P Require Import EdgeEC EdgeSafety EdgeLive EdgeLocal.
From Stdlib Require Import Strings.Byte.

Section theorems.
Context (gear : list Z).
Context (net : nat → outcome) (sched : list string → list string) (isched : list nat → list nat).
Context {X : Type} {HM : MetaService X} {HML : MetaServiceLaws X}.
Context (Hsched : ∀ l, sched l ≡ₚ l) (Hisched : ∀ l, isched l ≡ₚ l).
#[local] Instance et_cluster : ChunkService coord_error Cluster := edge_cluster net.
Notation handlePut := (Edge.handlePut gear net sched).
Notation handleGet := (Edge.handleGet net sched isched).


Lemma no_quorum_header max : parseQuorumHeader "" max = Some 0%Z.
Proof. reflexivity. Qed.
(** The reply of a GET that is not refused. *)
Lemma handleGet_found e now q w x o x' :
  verifyAuth e now q = true → ms_lookup (q_bucket q) (q_key q) x = (Ok o, x') →
  handleGet e now q w x = ((get_object net sched isched q o w).1, ((get_object net sched isched q o w).2, x')).
Proof. unfold Edge.handleGet. intros -> ->. cbn [negb]. by destruct (get_object _ _ _ _ _ _). Qed.

(** C3: replication round trip: a body that a PUT answered 201 stored with write quorum Q
    is returned in full, with its length, by every GET after fewer than Q nodes were
    lost (and nothing else), on a network that answers; the header of the quorum is
    obeyed chunk by chunk. *)
Theorem put_get_roundtrip e e' now now' q q' w x meta w1 x1 wl xl xl' os wq (down : gset string) :
  handlePut e now q w x = (PutCreated meta, (w1, x1)) → deliverable e q → sound w → spreads (coord w) →
  q_EC q = "" → parseQuorumHeader (q_W q) (replicationFactor (coord w)) = Some wq →
  (Z.of_nat (size down) < quorum_of wq w)%Z → lost net down w1 wl →
  q_bucket q' = q_bucket q → q_key q' = q_key q → q_R q' = "" → verifyAuth e' now' q' = true →
  ms_stored x1 (q_bucket q) (q_key q) = ms_stored xl (q_bucket q) (q_key q) →
  ms_lookup (q_bucket q) (q_key q) xl = (Ok os, xl') →
  collision ∨ ∃ wl', handleGet e' now' q' wl xl =
    (MkGet 200 (Some (Z.of_nat (length (contents (q_body q))))) (contents (q_body q)), (wl', xl')).
Proof.
  intros Hput Hd Hw Hspread Hec Hwq Hdown Hlost Hqb Hqk Hr Hauth Hsame Hlk.
  destruct (handlePut_spec _ _ _ _ _ _ _ _ _ _ _ Hput Hd Hw) as (_ & os0 & Hst0 & Hs).
  destruct (lookup_law _ _ _ _ _ Hlk) as [_ Hst]. assert (os0 = os) as -> by congruence.
  unfold put_stored in Hs. rewrite bool_decide_eq_true_2 in Hs by done.
  destruct Hs as (wq' & Hwq' & Hs). assert (wq' = wq) as -> by congruence.
  assert (Forall (readable net wl) (Chunks os)) as Hread by (by eapply chunks_survive).
  destruct Hs as (He & Hsz & Hne & datas & Hcat & Hwr). destruct Hlost as (Hwl & Hfine & _).
  rewrite (handleGet_found _ _ _ _ _ os xl' Hauth) by (by rewrite Hqb, Hqk).
  unfold get_object. rewrite He. unfold get_replicated. rewrite Hr, no_quorum_header.
  destruct (get_loop_complete net sched 0 os 0 datas (Chunks os) (MkGet 200 None []) wl)
    as [?|(w' & len & Hl & Hlen)]; try done.
  - eapply Forall2_impl; [exact Hwr|]. intros d c. by apply wrote_names.
  - by left.
  - right. exists w'. specialize (Hlen (or_intror Hne)). rewrite Hl. cbn [fst snd g_body app]. by rewrite Hlen, Hsz, Hcat.
Qed.

(** C2: erasure-coded round trip: with K data and M parity shards a stripe, the body is
    returned in full, with its length, by every GET after at most M nodes were lost. *)
Theorem ec_put_get_roundtrip e e' now now' q q' w x meta w1 x1 wl xl xl' os k m (down : gset string) :
  handlePut e now q w x = (PutCreated meta, (w1, x1)) → deliverable e q → sound w → spreads (coord w) →
  q_EC q ≠ "" → parseEC (q_EC q) = Some (k, m) → (Z.of_nat (size down) ≤ m)%Z → lost net down w1 wl →
  q_bucket q' = q_bucket q → q_key q' = q_key q → verifyAuth e' now' q' = true →
  ms_stored x1 (q_bucket q) (q_key q) = ms_stored xl (q_bucket q) (q_key q) →
  ms_lookup (q_bucket q) (q_key q) xl = (Ok os, xl') →
  collision ∨ ∃ wl', handleGet e' now' q' wl xl =
    (MkGet 200 (Some (Z.of_nat (length (contents (q_body q))))) (contents (q_body q)), (wl', xl')).
Proof.
  intros Hput Hd Hw Hspread Hne Hkm Hdown Hlost Hqb Hqk Hauth Hsame Hlk.
  destruct (handlePut_spec _ _ _ _ _ _ _ _ _ _ _ Hput Hd Hw) as (_ & os0 & Hst0 & Hs).
  destruct (lookup_law _ _ _ _ _ Hlk) as [_ Hst]. assert (os0 = os) as -> by congruence.
  unfold put_stored in Hs. rewrite bool_decide_eq_false_2 in Hs by done.
  destruct Hs as (k' & m' & Hkm' & Hs). assert (k' = k ∧ m' = m) as [-> ->] by (split; congruence).
  destruct Hs as (Hsz & Hec & raws & enc & ssz & He & Hnew & Hcat & Hn & Hall).
  rewrite (handleGet_found _ _ _ _ _ os xl' Hauth) by (by rewrite Hqb, Hqk).
  rewrite (get_stripes_eq net sched isched q' os wl _ _ _ _ _ Hec He Hnew).
  rewrite <- Hcat in Hsz |- *. destruct (ec_get_loop _ _ _ _ _ _ _ _ _) as [rep w2] eqn:Hg.
  destruct (ec_get_loop_spec net sched isched Hsched Hisched _ _ _ _ _ _ (MkGet 200 (Some (Size os)) []) _ _ _ Hnew Hn eq_refl Hg)
    as [?|[_ Hfull]]; [by left|right].
  destruct (NewEncoder_inv _ _ _ Hnew) as (_ & Hk & _). destruct Hfull as (H1 & H2 & H3).
  { destruct Hlost as (Hwl & Hfine & Hl). split_and!; [done|done|]. eapply Forall_impl; [exact Hall|].
    intros st [Hst1 Hsl]. rewrite Hk. by eapply stripe_survives. }
  exists w2. destruct rep as [st len body]. cbn [g_status g_length g_body fst snd app] in *. subst. by rewrite Hsz.
Qed.


(** C4: on a network that answers, a PUT of a body that is not empty, to an edge that takes
    writes, is answered 201 whenever placement finds enough nodes that serve and the
    record can be committed: in particular the fuel of the loops is enough. *)
Theorem put_accepted e now q w x up :
  all_fine net → rejects_write e = false → verifyAuth e now q = true → q_bucket q ≠ "" → q_key q ≠ "" →
  deliverable e q → contents (q_body q) ≠ [] → sound w → serving up w → committing q → satisfiable up e q w →
  ∃ meta w1 x1, handlePut e now q w x = (PutCreated meta, (w1, x1)).
Proof.
  intros Hfine Hrej Hauth Hb Hk Hd Hne Hw Hup Hcom Hsat. unfold Edge.handlePut. rewrite Hrej, Hauth. cbn [negb].
  rewrite !bool_decide_eq_false_2 by done. cbn [orb]. unfold satisfiable in Hsat. case_bool_decide; cbn [negb].
  - destruct Hsat as (? & ? & ?). by eapply put_replicated_up.
  - destruct Hsat as (k & m & enc & ? & ? & ? & ?). by eapply put_ec_up.
Qed.
End theorems.

(** ** What the handlers do that their comments do not say *)
(** handleGetEC sets Content-Length before it has a stripe: a 503 for an unreadable object
    announces the object's length, which handleGet avoids on purpose. *)
Lemma ec_error_announces_length net isched meta ec enc st sts w shards n w' :
  NewEncoder (ec_K ec) (ec_M ec) = Ok enc → Stripes meta = st :: sts →
  parallelFetchShards net isched (Shards st) (Z.to_nat (ec_K ec)) w = (shards, n, w') →
  n < Z.to_nat (ec_K ec) ≤ length shards →
  handleGetEC net isched meta ec w = (MkGet 503 (Some (Size meta)) [], w').
Proof.
  intros Hnew Hst Hf Hn. unfold handleGetEC. rewrite Hnew, Hst. cbn [ec_get_loop]. rewrite Hf.
  rewrite (proj2 (Nat.ltb_ge _ _)) by lia. by rewrite (proj2 (Nat.ltb_lt _ _)) by lia.
Qed.
(** A first chunk of the wrong size is answered 200 with an empty body. *)
Lemma wrong_size_is_empty_200 net sched meta rq c cs w data w' :
  read_chunk net sched rq c w = (Some data, w') → Z.of_nat (length data) ≠ cr_Size c →
  get_loop net sched 0 meta rq (c :: cs) (MkGet 200 None []) w = (MkGet 200 None [], w').
Proof. intros Hr Hsz. cbn [get_loop]. rewrite Hr. by rewrite (proj2 (Z.eqb_neq _ _)) by done. Qed.

(** ** On the edge's own store *)
Section local.
Context {M : Type → Type} {KVM : KV M} {HKV : KVLaws M}.
Lemma local_spreads co : NoDup (ID <$> Nodes co) → NoDup (Addr <$> Nodes co) →
  @spreads (LocalStore (M := M)) _ co.
Proof.
  intros Hid Haddr targets [(key & n & w & x & x' & <- & H)|(key & n & c & dns & x & H & ->)].
  - injection H as <- <-. by apply PlaceN_spec.
  - injection H as <-. unfold coord_PlaceNFromAddrs. destruct (_ || _); [by apply NoDup_nil|].
    rewrite PickFromNodes_take. eapply sublist_NoDup; [|apply fmap_sublist, sublist_take].
    rewrite ranked_perm, <- list_fmap_compose. cbn [compose Addr].
    rewrite (list_fmap_id (ListRuntimeDNsByClass (lm_db x) c)). unfold ListRuntimeDNsByClass. rewrite sort_strings_Permutation.
    eapply sublist_NoDup; [apply (list_NoDup (dns_runtime (lm_db x)))|]. apply fmap_sublist, sublist_filter.
Qed.
Lemma local_placing co n : NoDup (ID <$> Nodes co) → NoDup (Addr <$> Nodes co) → (n ≤ Z.of_nat (length (Nodes co)))%Z →
  @placing (LocalStore (M := M)) _ (list_to_set (coord_DNs co)) n co.
Proof.
  intros Hid Haddr Hn key w x <-. destruct (PlaceN_spec key n (coord w) Hid Haddr) as (_ & Hsub & Hl).
  eexists _, x. split_and!; [reflexivity|lia|]. intros a Ha. by apply elem_of_list_to_set, Hsub.
Qed.
End local.

(** ** Witnesses *)
#[local] Opaque sha256 sha256_hex.
Definition w_edge : EdgeServer :=
  MkEdge 2 false DefaultCDCConfig "" true (MkSigner ∅ "") None RolePrimary None.
Definition w_put (ec : string) : request :=
  MkRequest "PUT" "/v1/o/b/k" ∅ "b" "k" ec "" "" "" [Data ["k"; "v"]%byte; Last ["f"]%byte].
Definition w_get : request := MkRequest "GET" "/v1/o/b/k" ∅ "b" "k" "" "" "" "" [].
Definition w_local : LocalStore (M := gmap string) := MkLocal empty_db 7.

Lemma w_deliverable ec : deliverable w_edge (w_put ec).
Proof. split_and!; [done|done|by apply Z.ltb_lt]. Qed.
Lemma w_committing ec : committing (X := LocalStore (M := gmap string)) (w_put ec).
Proof.
  intros o x Hb Hk. simpl in Hb, Hk. unfold ms_commit. cbn [local_meta]. unfold commitPutMeta, putObjectInternal, Update.
  rewrite Hb, Hk. assert (∀ v, put (objects (lm_db x)) (objKey "b" "k") v = Ok (<["b/k" := v]> (objects (lm_db x)))) as Hput
    by reflexivity.
  rewrite Hput. cbn [rbind]. eauto.
Qed.
Lemma w_serving : serving (list_to_set (coord_DNs w_coord)) w_cluster.
Proof. intros a Ha%elem_of_list_to_set. apply elem_of_dom, w_all_up, Ha. Qed.
Lemma w_all_fine : all_fine w_net.
Proof. by intros n. Qed.

Lemma w_put_up ec : ec = "" ∨ ec = "2+1" →
  ∃ meta w1 x1, handlePut [] w_net id w_edge 0 (w_put ec) w_cluster w_local = (PutCreated meta, (w1, x1)).
Proof.
  intros [->| ->]; unfold handlePut; cbn -[put_replicated handlePutECStream].
  - apply (put_replicated_up [] w_net id (λ l, Permutation_refl l) w_edge (list_to_set (coord_DNs w_coord)));
      [apply w_all_fine|apply w_deliverable|done|apply w_cluster_sound|apply w_serving|apply (w_committing "")|done| |].
    + apply local_placing; [apply w_nodes_ok..|done].
    + exists 0%Z. split; [reflexivity|done].
  - destruct (NewEncoder 2 1) as [enc|] eqn:Hnew; [|exfalso; revert Hnew; vm_compute; discriminate].
    apply (put_ec_up [] w_net w_edge (list_to_set (coord_DNs w_coord)) _ _ _ 2 1 enc);
      [apply w_all_fine|apply w_deliverable|done|apply w_cluster_sound|apply w_serving|apply (w_committing "2+1")
      |reflexivity|done| |done].
    apply local_placing; [apply w_nodes_ok..|done].
Qed.

(** What the PUT of the witnesses leaves. *)
Lemma w_put_done ec : ec = "" ∨ ec = "2+1" →
  ∃ meta w1 x1 os, handlePut [] w_net id w_edge 0 (w_put ec) w_cluster w_local = (PutCreated meta, (w1, x1)) ∧
    cluster_sound w1 ∧ ms_stored x1 "b" "k" = Some os ∧ ms_lookup "b" "k" x1 = (Ok os, x1).
Proof.
  intros Hec. destruct (w_put_up ec Hec) as (meta & w1 & x1 & Hput). exists meta, w1, x1.
  destruct (handlePut_spec _ _ _ _ _ _ _ _ _ _ _ Hput (w_deliverable ec) w_cluster_sound) as ((_ & Hu & _) & os & Hst & _).
  exists os. split_and!; [done|by apply Hu, w_cluster_sound|done|]. cbn in Hst |- *. unfold lookupMeta.
  by destruct (GetObject _ _ _); [injection Hst as ->|].
Qed.
Lemma w_lost w1 : cluster_sound w1 → lost w_net {["h1:80"]} w1 (without_nodes {["h1:80"]} w1).
Proof. intros Hs. apply lost_nodes; [done|done|by intros n]. Qed.


Lemma put_get_roundtrip_witness :
  ∃ meta w1 x1, handlePut [] w_net id w_edge 0 (w_put "") w_cluster w_local = (PutCreated meta, (w1, x1)) ∧
    (collision ∨ ∃ wl', handleGet w_net id id w_edge 0 w_get (without_nodes {["h1:80"]} w1) x1 =
      (MkGet 200 (Some 3%Z) ["k"; "v"; "f"]%byte, (wl', x1))).
Proof.
  destruct (w_put_done "" (or_introl eq_refl)) as (meta & w1 & x1 & os & Hput & Hs & Hst & Hlk).
  exists meta, w1, x1. split; [exact Hput|].
  apply (put_get_roundtrip [] w_net id id (λ l, Permutation_refl l) (λ l, Permutation_refl l)
    w_edge w_edge 0 0 (w_put "") w_get w_cluster w_local meta w1 x1 _ x1 x1 os 0 {["h1:80"]}
    Hput (w_deliverable "") w_cluster_sound).
  - apply local_spreads; apply w_nodes_ok.
  - reflexivity.
  - reflexivity.
  - rewrite size_singleton. by apply Z.ltb_lt.
  - apply w_lost, Hs.
  - reflexivity. - reflexivity. - reflexivity. - reflexivity. - reflexivity.
  - exact Hlk.
Defined.

Lemma ec_put_get_roundtrip_witness :
  ∃ meta w1 x1, handlePut [] w_net id w_edge 0 (w_put "2+1") w_cluster w_local = (PutCreated meta, (w1, x1)) ∧
    (collision ∨ ∃ wl', handleGet w_net id id w_edge 0 w_get (without_nodes {["h1:80"]} w1) x1 =
      (MkGet 200 (Some 3%Z) ["k"; "v"; "f"]%byte, (wl', x1))).
Proof.
  destruct (w_put_done "2+1" (or_intror eq_refl)) as (meta & w1 & x1 & os & Hput & Hs & Hst & Hlk).
  exists meta, w1, x1. split; [exact Hput|].
  apply (ec_put_get_roundtrip [] w_net id id (λ l, Permutation_refl l) (λ l, Permutation_refl l)
    w_edge w_edge 0 0 (w_put "2+1") w_get w_cluster w_local meta w1 x1 _ x1 x1 os 2 1 {["h1:80"]}
    Hput (w_deliverable "2+1") w_cluster_sound).
  - apply local_spreads; apply w_nodes_ok.
  - discriminate.
  - reflexivity.
  - by rewrite size_singleton.
  - apply w_lost, Hs.
  - reflexivity. - reflexivity. - reflexivity. - reflexivity.
  - exact Hlk.
Defined.

Definition w_bad_put : request := MkRequest "PUT" "/v1/o/b/k" ∅ "b" "k" "0+3" "" "" "" [].
Lemma put_accepted_witness :
  ∃ meta w1 x1, handlePut [] w_net id w_edge 0 (w_put "2+1") w_cluster w_local = (PutCreated meta, (w1, x1)).
Proof.
  destruct (NewEncoder 2 1) as [enc|] eqn:Hnew; [|exfalso; revert Hnew; vm_compute; discriminate].
  apply (put_accepted [] w_net id (λ l, Permutation_refl l) w_edge 0 (w_put "2+1") w_cluster w_local (list_to_set (coord_DNs w_coord))).
  - apply w_all_fine. - reflexivity. - reflexivity. - discriminate. - discriminate.
  - apply w_deliverable. - discriminate. - apply w_cluster_sound. - apply w_serving. - apply (w_committing "2+1").
  - unfold satisfiable. rewrite bool_decide_eq_false_2 by discriminate. exists 2%Z, 1%Z, enc.
    split; [reflexivity|]. split; [exact Hnew|]. split; [|done]. apply local_placing; [apply w_nodes_ok..|done].
Defined.

(** A K+M that overflows gets past both checks, and building the encoder panics. *)
Lemma ec_header_panics :
  (handlePut [] w_net id w_edge 0 (w_put "9223372036854775807+1") w_cluster w_local).1 = PutRefused 0.
Proof. reflexivity. Qed.
