(* ===== verification/EdgeDelete.v ===== *)
(** * The edge's DELETE: what it removes

    It removes the record and every copy the record lists.  Chunks are named by their
    content and nothing counts their uses, so a chunk that another object lists too is
    removed with them. *)
From S2P Require Import Prelude GF Matrix ReedSolomon GoLib Chunker Cdc Placement UrlKey Kv Meta Store.
From S2P Require Import StoreProps DataNode Transport Coordinator Election Follower Repair Edge EdgeProps.
From S2P Require Import EdgeSafety EdgeLocal.

Section delete.
Context (net : nat → outcome).
Context {X : Type} {HM : MetaService X} {HML : MetaServiceLaws X}.
#[local] Instance ed_cluster : ChunkService coord_error Cluster := edge_cluster net.

(** The copies a record lists. *)
Definition refs (o : ObjectMeta) : list ChunkRef := Chunks o ++ (Stripes o ≫= Shards).
Definition lists (l : list ChunkRef) (a id : string) : Prop := ∃ c, c ∈ l ∧ ChunkID c = id ∧ a ∈ Replicas c.


(** Every delete that reaches its node is carried out. *)
Definition deletes_fine : Prop :=
  ∀ n, o_fault (net n) = Answered ∧ o_remove (net n) = true ∧ stat_ok (o_io (net n)) = true.
(** From [w] to [w'] the chunks of [P] may go, all of them when deletes are carried out, and
    nothing else changes. *)
Definition erases (P : string → string → Prop) (w w' : Cluster) : Prop :=
  (sound w → sound w') ∧ (∀ a i, ¬ P a i → chunk_at w' a i = chunk_at w a i) ∧
  (∀ a i, chunk_at w a i = None → chunk_at w' a i = None) ∧
  (deletes_fine → ∀ a i, P a i → chunk_at w' a i = None).
Lemma erases_refl (P : string → string → Prop) w : (∀ a i, ¬ P a i) → erases P w w.
Proof. intros HP. split_and!; try done. intros _ a i Hp. by destruct (HP a i). Qed.
Lemma erases_trans (P Q R : string → string → Prop) w w1 w2 :
  (∀ a i, R a i ↔ P a i ∨ Q a i) → erases P w w1 → erases Q w1 w2 → erases R w w2.
Proof.
  intros HR (P1 & P2 & P3 & P4) (Q1 & Q2 & Q3 & Q4). split_and!.
  - auto.
  - intros a i Hn. rewrite HR in Hn. rewrite Q2, P2; tauto.
  - auto.
  - intros Hd a i [Hp|Hq]%HR; auto.
Qed.

Lemma deleteChunk_erases addr id w : erases (λ a i, a = addr ∧ i = id) w (deleteChunk net addr id w).2.
Proof.
  destruct (deleteChunk net addr id w) as [r w'] eqn:Hd. cbn [snd]. unfold deleteChunk in Hd.
  destruct (call net addr _ w) as [o w1] eqn:Hc in Hd. apply checked_coord in Hd as ->.
  set (h := λ (o : Coordinator.outcome) (s : Server), DataNode.handleDelete id (stat_ok (o_io o)) (o_remove o) s) in Hc.
  pose proof Hc as (_ & _ & Hcase)%call_cases.
  assert (∀ a, (∀ i, cluster_chunk w1 a i = cluster_chunk w a i) ∨
    a = addr ∧ ∃ s, dns w !! addr = Some s ∧ ∀ i, cluster_chunk w1 a i = node_chunk (h (net (calls w)) s).2 i) as Hat.
  { intros a. unfold cluster_chunk. destruct Hcase as [[_ ->]|(s & Hs & -> & _)]; [by left|].
    destruct (decide (a = addr)) as [->|]; [|left; by rewrite lookup_insert_ne].
    right. split; [done|]. exists s. split; [done|]. intros i. by rewrite lookup_insert_eq. }
  split_and!.
  - intros Hw a s Hs. destruct Hcase as [[_ E]|(s0 & Hs0 & E & _)]; rewrite E in Hs; [by apply (Hw a)|].
    apply lookup_insert_Some in Hs as [[<- <-]|[_ Hs]]; [|by apply (Hw a)].
    apply (serve_addressed s0 (Delete id _ _)), (Hw addr), Hs0.
  - intros a i Hne. simpl. destruct (Hat a) as [E|(-> & s & Hs & E)]; [by rewrite E|]. rewrite E.
    unfold cluster_chunk. rewrite Hs. simpl. unfold node_chunk, h. destruct (validChunkID i) eqn:Hv; [|done].
    assert (i ≠ id) by (intros ->; by apply Hne). by rewrite delete_frame.
  - intros a i Hnone. simpl in *. destruct (Hat a) as [E|(-> & s & Hs & E)]; [by rewrite E|]. rewrite E.
    unfold cluster_chunk in Hnone. rewrite Hs in Hnone. simpl in Hnone. destruct (decide (i = id)) as [->|Hne].
    + unfold h. destruct (proj1 (delete_chunk id (stat_ok (o_io (net (calls w)))) (o_remove (net (calls w))) s)) as [->| ->]; done.
    + unfold node_chunk, h in *. destruct (validChunkID i) eqn:Hv; [|done]. by rewrite delete_frame.
  - intros Hfine a i [-> ->]. simpl. destruct (Hfine (calls w)) as (Hans & Hrm & Hst).
    unfold call in Hc. unfold cluster_chunk. destruct (dns w !! addr) as [s|] eqn:Hs.
    + rewrite Hans in Hc. destruct (h (net (calls w)) s) as [st s'] eqn:Hh. injection Hc as <- <-. cbn [dns].
      rewrite lookup_insert_eq. unfold h in Hh. rewrite Hrm, Hst in Hh. simpl.
      assert (s' = (DataNode.handleDelete id true true s).2) as -> by (by rewrite Hh).
      unfold DataNode.handleDelete. destruct (validChunkID id) eqn:Hv; cbn [negb]; [|unfold node_chunk; by rewrite Hv].
      unfold node_chunk. rewrite Hv. destruct (disk s !! chunkPath id) as [f|] eqn:Hf; cbn [snd disk]; [by rewrite lookup_delete_eq|].
      by rewrite Hf.
    + injection Hc as <- <-. cbn [dns]. by rewrite Hs.
Qed.

Lemma delete_loop_erases id reps w : erases (λ a i, a ∈ reps ∧ i = id) w (delete_loop net id reps w).2.
Proof.
  revert w. induction reps as [|addr reps IH]; intros w; cbn [delete_loop].
  { apply erases_refl. by intros a i [?%elem_of_nil _]. }
  pose proof (deleteChunk_erases addr id w) as H1. destruct (deleteChunk net addr id w) as [r w1].
  specialize (IH w1). destruct (delete_loop net id reps w1) as [errs w2]. cbn [snd] in *.
  eapply erases_trans; [|exact H1|exact IH]. intros a i. simpl. rewrite elem_of_cons. tauto.
Qed.
Lemma delete_refs_erases l w : erases (lists l) w (delete_refs net l w).
Proof.
  unfold delete_refs. revert w. induction l as [|c l IH]; intros w; cbn [foldl].
  { apply erases_refl. by intros a i (c & ?%elem_of_nil & _). }
  pose proof (delete_loop_erases (ChunkID c) (Replicas c) w) as H1. unfold DeleteChunk at 2.
  destruct (delete_loop net (ChunkID c) (Replicas c) w) as [errs w1]. cbn [snd] in *.
  eapply erases_trans; [|exact H1|apply IH]. intros a i. unfold lists. split.
  - intros (c' & [->|Hin]%elem_of_cons & <- & Ha); [by left|right; eauto].
  - intros [[Ha ->]|(c' & Hin & <- & Ha)]; [exists c|exists c']; (split; [set_solver|done]).
Qed.

Lemma delete_object_erases o w :
  erases (lists (refs o)) w (delete_refs net (Stripes o ≫= Shards) (delete_refs net (Chunks o) w)).
Proof.
  eapply erases_trans; [|apply delete_refs_erases|apply delete_refs_erases]. intros a i. unfold lists, refs. split.
  - intros (c & [Hc|Hc]%elem_of_app & H); [left|right]; by exists c.
  - intros [(c & Hc & H)|(c & Hc & H)]; exists c; (split; [rewrite elem_of_app; auto|done]).
Qed.


(** Nothing counts the uses of a chunk: what another record lists on the same nodes under
    the same content can no longer be read. *)
Lemma delete_breaks_shared_chunks e now q w x w1 x1 o c :
  handleDelete net e now q w x = (204%Z, (w1, x1)) → deletes_fine →
  ms_stored x (q_bucket q) (q_key q) = Some o → (∀ a, a ∈ Replicas c → lists (refs o) a (ChunkID c)) →
  ¬ readable net w1 c.
Proof.
  unfold Edge.handleDelete. destruct (rejects_write e); [done|]. destruct (verifyAuth e now q); [|done]. cbn [negb].
  intros H Hfine Ho Hc (a & Ha & Hat). destruct (ms_lookup _ _ x) as [[o'|er] x2] eqn:Hlk; [|by destruct er].
  destruct (lookup_law _ _ _ _ _ Hlk) as [_ Ho']. assert (o' = o) as -> by congruence.
  destruct (ms_delete _ _ x2) as [[[]|er] x3]; [|done]. injection H as <- <-.
  destruct (delete_object_erases o w) as (_ & _ & _ & Hgone). rewrite (Hgone Hfine) in Hat; [by destruct Hat|by apply Hc].
Qed.
Lemma handleDelete_ok e now q w x o x2 x3 :
  rejects_write e = false → verifyAuth e now q = true →
  ms_lookup (q_bucket q) (q_key q) x = (Ok o, x2) → ms_delete (q_bucket q) (q_key q) x2 = (Ok (), x3) →
  handleDelete net e now q w x = (204%Z, (delete_refs net (Stripes o ≫= Shards) (delete_refs net (Chunks o) w), x3)).
Proof. unfold Edge.handleDelete. intros -> -> -> ->. done. Qed.
End delete.

(** ** Witness: the only copy of a shard goes with the object that lists it *)
#[local] Opaque sha256 sha256_hex w_id.
Definition w_del_edge : EdgeServer :=
  MkEdge 2 false DefaultCDCConfig "" true (MkSigner ∅ "") None RolePrimary None.
Definition w_del : request := MkRequest "DELETE" "/v1/o/photos/cat.jpg" ∅ "photos" "cat.jpg" "" "" "" "" [].
Lemma w_deletes_fine : deletes_fine w_net.
Proof. intros n. repeat split. Qed.
Lemma w_del_found : ms_stored (MkLocal w_rp_db 9) "photos" "cat.jpg" = Some w_rp_stored.
Proof. reflexivity. Qed.
Lemma w_del_done : ∃ w1 x1,
  handleDelete w_net w_del_edge 0 w_del w_rp_cluster (MkLocal w_rp_db 9) = (204%Z, (w1, x1)).
Proof.
  eexists _, _. eapply handleDelete_ok; reflexivity.
Qed.
