(* ===== verification/Jobs.v ===== *)
(** * What the maintenance jobs leave alone

    Rebalance, GC and repair reach the nodes only through the chunk service, and the
    records only through the two replica updates: whatever those keep, a whole run keeps. *)
From S2P Require Import Prelude GF GoLib Kv Meta Store ReedSolomon DataNode Transport StoreProps Replicas.
From S2P Require Import Merkle AntiEntropy AutoRepair.
From S2P Require Gc Rebalance Repair.
From Stdlib Require Import Strings.Byte.

(** A property of the world that every call of the chunk service keeps. *)
Class Stable {E W : Type} `{!ChunkService E W} (P : W → Prop) : Prop :=
  { stable_list addr w : P w → P (ListChunks addr w).2;
    stable_delete addr id w : P w → P (DeleteChunkFrom addr id w).2;
    stable_put addr id b w : P w → P (PutChunkTo addr id b w).2;
    stable_force addr id b w : P w → P (PutChunkToForce addr id b w).2;
    stable_read id addrs w : P w → P (ReadChunk id addrs w).2 }.
(** A property of the database that replica updates keep. *)
Class ReplicaStable {M : Type → Type} `{!KV M} (Q : @DB M → Prop) : Prop :=
  { stable_chunk b k i r db : Q db → Q (UpdateChunkReplicas b k i r db).2;
    stable_shard b k i j r db : Q db → Q (UpdateShardReplicas b k i j r db).2 }.

Section jobs.
Context {E W : Type} {HC : ChunkService E W} {M : Type → Type} {KVM : KV M}.
Context (P : W → Prop) {HP : Stable P} (Q : @DB M → Prop) {HQ : ReplicaStable Q}.
Definition both (wd : W * @DB M) : Prop := P wd.1 ∧ Q wd.2.

Lemma foldl_keeps {A B} (f : A → B → A) (I : A → Prop) l a : (∀ a b, I a → I (f a b)) → I a → I (foldl f a l).
Proof. intros Hf. revert a. induction l; simpl; auto. Qed.

(** ** Rebalance *)
Lemma copy_loop_keeps id data missing w : P w → P (Rebalance.copy_loop id data missing w).2.
Proof.
  revert w. induction missing as [|dst missing IH]; intros w Hw; cbn [Rebalance.copy_loop]; [done|].
  pose proof (stable_put dst id data w Hw) as H1. destruct (PutChunkTo dst id data w) as [r w1].
  specialize (IH w1 H1). destruct (Rebalance.copy_loop id data missing w1) as [[[ok errs] n] w2]. by destruct r.
Qed.
Lemma migrateOne_keeps mg wd : both wd → both (Rebalance.migrateOne mg wd).2.
Proof.
  destruct wd as [w db]. intros [Hw Hd]. cbn [fst snd] in *. unfold Rebalance.migrateOne. destruct (Rebalance.mg_Kind mg).
  - unfold Rebalance.migrateChunk. destruct (_ =? 0); [by split|].
    pose proof (stable_read (Rebalance.mg_ChunkID mg) (Rebalance.mg_Actual mg) w Hw) as H1.
    destruct (ReadChunk _ _ w) as [[[data a]|er] w1]; [|by split].
    pose proof (copy_loop_keeps (Rebalance.mg_ChunkID mg) data (Rebalance.mg_Missing mg) w1 H1) as H2.
    destruct (Rebalance.copy_loop _ _ _ w1) as [[[ok errs] n] w2]. cbn zeta.
    match goal with |- context [UpdateChunkReplicas ?b ?k ?i ?f db] => pose proof (stable_chunk b k i f db Hd) as H3 end.
    destruct (UpdateChunkReplicas _ _ _ _ _) as [[[]|er] db1]; [destruct (_ =? 0)|]; by split.
  - unfold Rebalance.migrateShard. destruct (_ || _); [by split|].
    pose proof (stable_read (Rebalance.mg_ChunkID mg) [Rebalance.mg_OldAddr mg] w Hw) as H1.
    destruct (ReadChunk _ _ w) as [[[data a]|er] w1]; [|by split].
    pose proof (stable_put (Rebalance.mg_NewAddr mg) (Rebalance.mg_ChunkID mg) data w1 H1) as H2.
    destruct (PutChunkTo _ _ _ w1) as [[[]|er] w2]; [|by split].
    match goal with |- context [UpdateShardReplicas ?b ?k ?i ?j ?f db] => pose proof (stable_shard b k i j f db Hd) as H3 end.
    destruct (UpdateShardReplicas _ _ _ _ _ _) as [[[]|er] db1]; by split.
Qed.
Lemma rebalance_keeps order plan wd : both wd → both (Rebalance.Run order plan wd).2.
Proof.
  intros H. unfold Rebalance.Run. apply (foldl_keeps _ (λ st, both st.2)); [|done].
  intros [stats wd0] mg H0. unfold Rebalance.run_one. pose proof (migrateOne_keeps mg wd0 H0) as H1.
  by destruct (Rebalance.migrateOne mg wd0).
Qed.

(** ** Repair *)
Lemma fetch_loop_keeps l shards w : P w → P (Repair.fetch_loop l shards w).2.
Proof.
  revert shards w. induction l as [|s l IH]; intros shards w Hw; cbn [Repair.fetch_loop]; [done|].
  pose proof (stable_read (Repair.sv_ChunkID s) [Repair.sv_Addr s] w Hw) as H1.
  destruct (ReadChunk _ _ w) as [[[data a]|er] w1]; [|done]. destruct (_ <=? _); [done|]. by apply IH.
Qed.
Lemma put_loop_keeps rep dead shards n wd : both wd → both (Repair.put_loop rep dead shards n wd).2.
Proof.
  revert n wd. induction dead as [|d dead IH]; intros n [w db] [Hw Hd]; cbn [Repair.put_loop fst snd] in *; [by split|].
  destruct (shards !! _) as [data|]; [|by split]. destruct (_ =? 0); [by split|].
  assert (P ((if Repair.ds_Force d then PutChunkToForce else PutChunkTo) (Repair.ds_NewAddr d) (Repair.ds_ChunkID d) data w).2) as H1
    by (destruct (Repair.ds_Force d); [by apply stable_force|by apply stable_put]).
  cbn zeta. destruct ((if Repair.ds_Force d then PutChunkToForce else PutChunkTo) _ _ data w) as [[[]|er] w1]; [|by split].
  match goal with |- context [UpdateShardReplicas ?b ?k ?i ?j ?f db] => pose proof (stable_shard b k i j f db Hd) as H2 end.
  destruct (UpdateShardReplicas _ _ _ _ _ _) as [[[]|er] db1]; [apply IH|]; by split.
Qed.
Lemma repair_keeps order plan wd : both wd → both (Repair.Run order plan wd).2.
Proof.
  intros H. unfold Repair.Run. apply (foldl_keeps _ (λ st, both st.2)); [|done].
  intros [stats [w db]] rep [Hw Hd]. cbn [fst snd] in *. unfold Repair.run_one.
  assert (both (Repair.repairStripe rep (w, db)).2) as H1; [|by destruct (Repair.repairStripe rep (w, db)) as [[r n] wd1]].
  unfold Repair.repairStripe. cbn [fst snd].
  assert (P (Repair.rebuild rep w).2) as H1.
  { unfold Repair.rebuild. destruct (NewEncoder _ _) as [enc|er]; [|done]. destruct (_ <? _)%Z; [done|].
    pose proof (fetch_loop_keeps (take (Z.to_nat (Repair.sr_K rep)) (Repair.sr_Survivors rep))
      (replicate (Z.to_nat (Repair.sr_K rep) + Z.to_nat (Repair.sr_M rep)) []) w Hw) as H1.
    by destruct (Repair.fetch_loop _ _ w). }
  destruct (Repair.rebuild rep w) as [[shards|er] w1]; [by apply put_loop_keeps|by split].
Qed.

(** ** GC *)
Lemma gc_plan_keeps clock objs minAge now w : P w → P (Gc.ComputePlan clock objs minAge now w).2.
Proof.
  intros Hw. unfold Gc.ComputePlan. destruct objs as [objs|]; [|done]. cbn zeta.
  assert (∀ addrs plan w, P w → P (Gc.plan_loop clock (Gc.buildClaimedSet objs) (Gc.cutoff_of now minAge) addrs plan w).2) as Hloop.
  { induction addrs as [|a addrs IH]; intros plan w0 H0; cbn [Gc.plan_loop]; [done|].
    pose proof (stable_list a w0 H0) as H1. destruct (ListChunks a w0) as [[chunks|er] w1]; [by apply IH|done]. }
  specialize (Hloop (DNs w) (Gc.MkPlan 0 (Gc.countPairs (Gc.buildClaimedSet objs)) []) w Hw).
  by destruct (Gc.plan_loop _ _ _ _ _ w).
Qed.
Lemma gc_run_keeps order plan w : P w → P (Gc.Run order plan w).2.
Proof.
  intros H. unfold Gc.Run. apply (foldl_keeps _ (λ st, P st.2)); [|done].
  intros [stats w0] s H0. unfold Gc.run_one. pose proof (stable_delete (Gc.sw_Addr s) (Gc.sw_ChunkID s) w0 H0) as H1.
  destruct (DeleteChunkFrom _ _ w0) as [[[]|er] w1]; done.
Qed.
End jobs.

(** ** What a maintenance run keeps

    Rebalance, garbage collection, stripe repair and anti-entropy repair leave every object
    naming the same chunks and every replica its record lists on its node.  The daemons that
    run them (EdgeJobs.v, CoordRepair.v) share the lemmas. *)
From S2P Require Gc Rebalance Repair.

(** ** The invariants are stable *)
Section keeps.
Context {E W : Type} {HC : ChunkService E W} {HL : ChunkServiceLaws E W} {M : Type → Type} {KVM : KV M} {HKV : KVLaws M}.

#[export] Instance sound_stable : Stable (sound : W → Prop).
Proof.
  split; intros; match goal with |- sound (?f).2 => destruct f eqn:Hc end; cbn [snd];
    [by eapply list_law|by eapply delete_law|by eapply put_law|by eapply put_force_law|by eapply read_law].
Qed.
#[export] Instance db_ok_stable : ReplicaStable (db_ok (M := M)).
Proof.
  split; intros.
  - rewrite <- (outcome_snd (UpdateChunkReplicas b k i r db)). by apply UpdChunk_ok.
  - rewrite <- (outcome_snd (UpdateShardReplicas b k i j r db)). by apply UpdShard_ok.
Qed.

Lemma decode_all_in {A} (l : list (string * stored A)) r k a : decode_all l = Ok r → (k, Enc a) ∈ l → a ∈ r.
Proof.
  revert r. induction l as [|[k' v] l IH]; intros r Hr Hin; [by apply elem_of_nil in Hin|]. simpl in Hr.
  destruct v as [a'|]; [|done]. cbn in Hr. apply rbind_ok in Hr as (r' & Hr' & [= <-]).
  apply elem_of_cons in Hin as [[= -> ->]|Hin]; [by left|right; by apply IH].
Qed.
(** [ListObjects] misses no object. *)
Lemma get_ListObjects (db : @DB M) objs b k o : ListObjects db = Ok objs → GetObject db b k = Ok o → o ∈ objs.
Proof.
  unfold ListObjects, GetObject, get_decoded. intros (l & Hl & [= <-])%rbind_ok (o' & Ho & [= <-])%rbind_ok.
  destruct (kv_get _ _) as [v|] eqn:Hv; [|done]. destruct v as [a|]; [|done]. injection Ho as ->.
  apply list_elem_of_fmap_2. eapply decode_all_in; [exact Hl|]. by apply elem_list.
Qed.

(** ** One run *)
(** The nodes and the store are consistent, every replica the records list is on its node,
    and no object names other chunks than in [db0]. *)
Record kept (db0 : @DB M) (w : W) (db : @DB M) : Prop := MkKept
  { k_sound : sound w; k_ok : db_ok db; k_backed : backed w db; k_names : same_names db0 db }.

Lemma rebalance_kept db0 class order objs plan (w w' : W) db db' st :
  (∀ l, order l ≡ₚ l) → ListObjects db = Ok objs → Rebalance.ComputePlan class (Ok objs) w = Ok plan →
  Rebalance.Run order plan (w, db) = (st, (w', db')) → kept db0 w db → kept db0 w' db'.
Proof.
  intros Hord Hl Hp Hr [Hw Hok Hb Hn]. pose proof (rebalance_keeps sound db_ok order plan (w, db) (conj Hw Hok)) as [Hw' Hok'].
  rewrite Hr in Hw', Hok'. unfold Rebalance.Run in Hr.
  assert (Forall (Rebalance.planned w db) (order (Rebalance.Migrations plan))) as Hpl
    by (rewrite Hord; by eapply Rebalance.ComputePlan_planned).
  destruct (Rebalance.run_backed _ _ _ _ _ _ _ Hr Hw Hpl Hb) as (_ & _ & Hn' & Hb' & _). split; [done..|by etrans].
Qed.
(** What keeps chunks and lists only what was listed before or is there keeps records backed. *)
Lemma backed_or_kept db0 (w w' : W) db db' : sound w' → db_ok db' → keeps_chunks w w' → same_names db db' →
  backed_or (listed db) w' db' → kept db0 w db → kept db0 w' db'.
Proof.
  intros Hw' Hok' Hk Hn' Hb' [_ _ Hb Hn]. split; [done|done| |by etrans]. intros b k o c a Hg Hc Ha. left.
  destruct (Hb' b k o c a Hg Hc Ha) as [?|(b1 & k1 & o1 & c1 & _ & Hg1 & Hc1 & <- & Ha1)]; [done|].
  destruct (Hb b1 k1 o1 c1 a Hg1 Hc1 Ha1) as [?|[]]. by apply Hk.
Qed.
Lemma repair_kept db0 order objs plan (w w' : W) db db' st :
  (∀ l, order l ≡ₚ l) → ListObjects db = Ok objs → Repair.ComputePlan (Ok objs) w = Ok plan →
  Repair.Run order plan (w, db) = (st, (w', db')) → kept db0 w db → kept db0 w' db'.
Proof.
  intros Hord Hl Hp Hr Hkept. pose proof Hkept as [Hw Hok Hb Hn].
  pose proof (repair_keeps sound db_ok order plan (w, db) (conj Hw Hok)) as [Hw' Hok']. rewrite Hr in Hw', Hok'.
  assert (Forall (Repair.planned w db) (order (Repair.Repairs plan))) as Hpl.
  { rewrite Hord. apply Forall_forall. intros rep Hrep.
    destruct (Repair.ComputePlan_repairs _ _ _ _ Hp Hrep) as (o & ec & si & stripe & Ho & _ & Hs & Hsp).
    eapply Repair.stripe_planned_dead; [by eapply ListObjects_get|done|done]. }
  destruct (Repair.run_spec w db _ _ _ _ _ _ _ Hr Hw Hpl) as (Hk & Hn' & Hb' & _); [done|by intros b k i j c|apply listed_backed|].
  by eapply backed_or_kept.
Qed.
Definition listing (r : result store_error (list ObjectMeta)) : option (list ObjectMeta) :=
  match r with Ok objs => Some objs | Err _ => None end.
Lemma gc_plan_kept db0 clock objs minAge now r (w w' : W) db :
  Gc.ComputePlan clock objs minAge now w = (r, w') → kept db0 w db → kept db0 w' db.
Proof.
  intros Hp [Hw Hok Hb Hn]. pose proof (gc_plan_keeps sound clock objs minAge now w Hw) as Hw1. rewrite Hp in Hw1.
  split; [done..| |done]. refine (backed_mono _ _ _ _ (same_chunks_keeps _ _ _) Hb).
  unfold Gc.ComputePlan in Hp. destruct objs; [|by injection Hp as _ <-].
  destruct (Gc.plan_loop _ _ _ _ _ _) as [r1 w1] eqn:Hpl. injection Hp as _ <-. by apply (Gc.plan_loop_spec _ _ _ _ _ _ _ _ Hpl Hw).
Qed.
Lemma gc_kept db0 clock order minAge now plan (w w1 w' : W) db st :
  (∀ l, order l ≡ₚ l) → Gc.ComputePlan clock (listing (ListObjects db)) minAge now w = (Ok plan, w1) →
  Gc.Run order plan w1 = (st, w') → kept db0 w db → kept db0 w' db.
Proof.
  intros Hord Hp Hr Hkept. pose proof (k_sound _ _ _ Hkept) as Hw. pose proof (gc_plan_kept _ _ _ _ _ _ _ _ _ Hp Hkept) as [Hw1 Hok Hb Hn].
  unfold listing in Hp. destruct (ListObjects db) as [objs|er] eqn:Hl; [|done].
  destruct (Gc.ComputePlan_spec _ _ _ _ _ _ _ Hp Hw) as (_ & _ & Hplan).
  destruct (Gc.Run_spec _ _ _ _ _ Hord Hr Hw1) as (Hw' & Hframe & _).
  split; [done|done| |done]. intros b k o c a Hg Hc Ha. left. rewrite Hframe; [by destruct (Hb b k o c a Hg Hc Ha) as [?|[]]|].
  intros (_ & Hno & _)%Hplan. apply Hno. exists o, c. split_and!; [by eapply get_ListObjects|done..].
Qed.

(** ** An anti-entropy repair *)
Lemma ec_pass_db_ok sched opts plan success rows (w w' : W) (db db' : @DB M) n rows' : sound w → db_ok db →
  ec_pass sched opts plan success rows (w, db) = (n, rows', (w', db')) → db_ok db'.
Proof.
  intros Hw Hok. unfold ec_pass. destruct (_ && _); [|by intros [= _ _ <- <-]].
  destruct (partition_ec _ _ _ rows) as [scheduled rows1]. intros [= _ _ Hwd].
  match type of Hwd with e_wd (foldl ?f ?st0 ?l) = _ => assert (both sound db_ok (e_wd (foldl f st0 l))) as H end.
  { apply (foldl_keeps _ (λ st, both sound db_ok (e_wd st))); [|done]. intros st rep H. unfold ec_run_one.
    pose proof (repair_keeps sound db_ok id (Repair.MkPlan 0 [rep] []) (e_wd st) H) as H1.
    by destruct (Repair.Run id _ (e_wd st)) as [stats wd]. }
  rewrite Hwd in H. apply H.
Qed.
Lemma anti_entropy_kept db0 sched opts ask audit objs (w w' : W) db rep db' :
  (∀ l, sched l ≡ₚ l) → ListObjects db = Ok objs →
  runAntiEntropyRepair sched opts ask audit objs (w, db) rep (w', db') → kept db0 w db → kept db0 w' db'.
Proof.
  intros Hsched Hl Hrun Hkept. pose proof Hkept as [Hw Hok _ _].
  destruct (repair_run_safe sched opts ask audit db objs w db rep w' db' Hsched Hok Hl) as (Hw' & Hk & Hn & Hb & _); [done..|].
  eapply backed_or_kept; [done| |exact Hk|exact Hn|exact Hb|exact Hkept].
  revert Hrun. unfold runAntiEntropyRepair. destruct (collect_jobs _ audit) as [jobs skipped]. intros (p & Hp & _ & Hec & _).
  destruct (pass_safe_run _ _ _ _ _ _ _ Hw Hp) as [Hs _ _ _]. by eapply ec_pass_db_ok.
Qed.
End keeps.
