(* ===== verification/Coord.v ===== *)
(** * The coord daemon: the RPC handlers of internal/coord/coord.go

    A coord owns the metadata store and the placement view; with DN I/O enabled it also
    drives the data nodes (Coordinator.v), and in HA mode an elector (Election.v) decides
    whether it leads.  A request body that cannot be decoded is [None]; [now] and [ids] are
    the clock and the random ids, [acks] the peers that acknowledge a replicated entry. *)
From S2P Require Import Prelude GF GoLib Placement Kv Meta Store DataNode Transport Coordinator Election.
From S2P Require Gc Rebalance Repair.

(** What a handler sends: a refusal with the leader's URL in X-COORD-LEADER, if any, and
    the store's error when that is the message, or a 200 with a body. *)
Inductive answer (A : Type) : Type := Refuse (status : Z) (leader : option string) (cause : option store_error) | Answer (a : A).
Arguments Refuse {A} status leader cause.
Arguments Answer {A} a.
Definition status_of {A} (a : answer A) : Z := match a with Refuse st _ _ => st | Answer _ => 200%Z end.

Section coord.
Context {M : Type → Type} {KVM : KV M}.
Context (net : nat → outcome).
#[local] Instance coord_nodes : ChunkService coord_error Cluster := cluster_service net.

(** [cs_Coord] is the DN I/O backend with the nodes it drives. *)
Record CoordServer : Type := MkCoord
  { cs_Store : @DB M; cs_Placer : Placer; cs_Coord : option Cluster; cs_Elector : option Elector;
    cs_TransactionalCommit : bool; cs_WAL : bool }.
Definition set_store (s : CoordServer) (db : @DB M) : CoordServer :=
  MkCoord db (cs_Placer s) (cs_Coord s) (cs_Elector s) (cs_TransactionalCommit s) (cs_WAL s).
Definition set_placer (s : CoordServer) (p : Placer) : CoordServer :=
  MkCoord (cs_Store s) p (cs_Coord s) (cs_Elector s) (cs_TransactionalCommit s) (cs_WAL s).
Definition set_nodes (s : CoordServer) (w : Cluster) : CoordServer :=
  MkCoord (cs_Store s) (cs_Placer s) (Some w) (cs_Elector s) (cs_TransactionalCommit s) (cs_WAL s).

(** A handler: what it answers and the server it leaves. *)
Abbreviation handler A := (CoordServer → answer A * CoordServer).
Definition refuse {A} (status : Z) (s : CoordServer) : answer A * CoordServer := (Refuse status None None, s).

(** ** The gates *)
Definition requireLeader {A} (h : handler A) : handler A := λ s,
  match cs_Elector s with
  | None => h s
  | Some e =>
      if IsLeader e then h s
      else (Refuse 503 (if bool_decide (LeaderURL e = "") then None else Some (LeaderURL e)) None, s)
  end.
Definition requireDNIO {A} (h : Cluster → handler A) : handler A := λ s,
  match cs_Coord s with Some w => h w s | None => refuse 503 s end.
Definition decoded {B A} (body : option B) (h : B → handler A) : handler A := λ s,
  match body with Some b => h b s | None => refuse 400 s end.

(** ** Errors of the store *)
Definition plain_status (e : store_error) : Z := match e with ErrNotFound => 404 | _ => 500 end.
Definition writeStoreBucketErr (e : store_error) : Z :=
  match e with ErrNotFound => 404 | ErrAlreadyExists | ErrBucketNotEmpty => 409 | _ => 400 end.
Definition writeStoreMultipartErr (e : store_error) : Z :=
  match e with ErrNotFound => 404 | ErrInvalidPart | ErrInvalidPartOrder => 409 | _ => 400 end.
(** A mutation of the store, and a read of it. *)
Definition mutate {A} (status : store_error → Z) (tx : @DB M → result store_error A * @DB M) : handler A := λ s,
  match tx (cs_Store s) with
  | (Ok a, db) => (Answer a, set_store s db)
  | (Err e, db) => (Refuse (status e) None (Some e), set_store s db)
  end.
Definition read {A} (status : store_error → Z) (q : @DB M → result store_error A) : handler A := λ s,
  match q (cs_Store s) with Ok a => (Answer a, s) | Err e => (Refuse (status e) None (Some e), s) end.
Definition internal (e : store_error) : Z := 500%Z.

(** ** Placement and objects *)
Definition handlePlace (body : option (string * Z)) : handler (list string) :=
  decoded body (λ '(key, n) s,
    if bool_decide (key = "") || (n <=? 0)%Z then refuse 400 s
    else (Answer (match cs_Coord s with
                  | Some w => coord_PlaceN key n (coord w)
                  | None => Addr <$> PickByDomain (cs_Placer s) key n
                  end), s)).

Definition commit (acks : nat) (now : Z) (meta : ObjectMeta) (s : CoordServer) : option ObjectMeta * CoordServer :=
  let put s := match putObjectInternal meta now (cs_Store s) with
               | (Ok o, db) => (Some o, set_store s db)
               | (Err _, db) => (None, set_store s db)
               end in
  match cs_TransactionalCommit s, cs_Elector s, cs_WAL s with
  | true, Some e, true => if IsLeader e && ReplicateEntry_result acks e then put s else (None, s)
  | _, _, _ => put s
  end.
(** The answer carries the version the store assigned. *)
Definition handleCommit (acks : nat) (now : Z) (body : option (option ObjectMeta)) : handler Z :=
  requireLeader (decoded body (λ meta s,
    match meta with
    | None => refuse 400 s
    | Some meta =>
        if bool_decide (Bucket meta = "") || bool_decide (Key meta = "") then refuse 400 s
        else match commit acks now meta s with
             | (None, s) => refuse 500 s
             | (Some o, s) => (Answer (Version o), s)
             end
    end)).

Definition handleLookup (bucket key : string) : handler ObjectMeta := λ s,
  if bool_decide (bucket = "") || bool_decide (key = "") then refuse 400 s
  else read plain_status (λ db, GetObject db bucket key) s.
Definition handleDelete (body : option (string * string)) : handler unit :=
  requireLeader (decoded body (λ '(bucket, key) s,
    if bool_decide (bucket = "") || bool_decide (key = "") then refuse 400 s
    else mutate plain_status (deleteObjectInternal bucket key) s)).

(** ** Buckets *)
Definition handleCreateBucket (now : Z) (body : option string) : handler BucketMeta :=
  requireLeader (decoded body (λ name, mutate writeStoreBucketErr (createBucketInternal name now))).
Definition handleGetBucket (name : string) : handler BucketMeta := λ s,
  if bool_decide (name = "") then refuse 400 s else read writeStoreBucketErr (λ db, GetBucket db name) s.
Definition handleListBuckets : handler (list BucketMeta) := read internal ListBuckets.
Definition handleDeleteBucket (name : string) : handler unit :=
  requireLeader (λ s,
    if bool_decide (name = "") then refuse 400 s else mutate writeStoreBucketErr (deleteBucketInternal name) s).

(** ** Multipart uploads *)
Definition handleMultipartInitiate (ids : nat → string) (now : Z) (body : option (string * string * string))
    : handler MultipartUploadMeta :=
  requireLeader (decoded body (λ '(bucket, key, contentType) s,
    if bool_decide (bucket = "") || bool_decide (key = "") then refuse 400 s
    else mutate writeStoreMultipartErr (CreateMultipartUpload_tx bucket key contentType ids now) s)).
Definition handleMultipartGet (bucket key uploadID : string) : handler MultipartUploadMeta :=
  read writeStoreMultipartErr (λ db, GetMultipartUpload db bucket key uploadID).
Definition handleMultipartPart (now : Z) (body : option (string * string * string * MultipartPartMeta)) : handler MultipartPartMeta :=
  requireLeader (decoded body (λ '(bucket, key, uploadID, part),
    mutate writeStoreMultipartErr (PutMultipartPart_tx bucket key uploadID part now))).
Definition handleMultipartParts (bucket key uploadID : string) : handler (list MultipartPartMeta) :=
  read writeStoreMultipartErr (λ db, ListMultipartParts db bucket key uploadID).
Definition handleMultipartComplete (now : Z) (body : option (string * string * string * list CompletePart))
    : handler (ObjectMeta * list MultipartPartMeta) :=
  requireLeader (decoded body (λ '(bucket, key, uploadID, parts),
    mutate writeStoreMultipartErr (CompleteMultipartUpload_tx bucket key uploadID parts now))).
Definition handleMultipartAbort (body : option (string * string * string)) : handler MultipartUploadMeta :=
  requireLeader (decoded body (λ '(bucket, key, uploadID),
    mutate writeStoreMultipartErr (abortMultipartUploadInternal bucket key uploadID))).
Definition handleMultipartCleanup (body : option (Z * Z)) : handler (list MultipartUploadMeta) :=
  requireLeader (decoded body (λ '(cutoff, limit) s,
    if IsZero cutoff then refuse 400 s else mutate writeStoreMultipartErr (AbortExpired_tx cutoff limit) s)).

(** ** Inspection *)
Definition handleAdminObjects : handler (list ObjectMeta) := read internal ListObjects.
Definition handleAdminDNs : handler (list string) := read internal (λ db, Ok (ListRuntimeDNs db)).
Definition handleAdminDNsDetailed : handler (list (string * string)) :=
  read internal (λ db, let m := ListRuntimeDNsWithDomain db in
    Ok ((λ a, (a, m !!! a)) <$> sort_strings (map_to_list m).*1)).
Definition handleAdminSnapshot : handler (@DB M) := read internal (λ db, Ok db).
Definition handleHealthz : handler (option (State * string)) := λ s,
  (Answer ((λ e, (state e, LeaderURL e)) <$> cs_Elector s), s).

(** ** The DN registry *)
Definition topology (db : @DB M) : list Node :=
  let m := ListRuntimeDNsWithDomain db in
  (λ a, Placement.MkNode a a (m !!! a)) <$> sort_strings (map_to_list m).*1.
(** Replaces the placement view; [false]: the DN I/O backend refused the nodes. *)
Definition refreshDNTopology (s : CoordServer) : bool * CoordServer :=
  let nodes := topology (cs_Store s) in
  let s := set_placer s (Placement.New nodes) in
  match cs_Coord s with
  | None => (true, s)
  | Some w =>
      match UpdateNodes nodes (coord w) with
      | (Err _, _) => (false, s)
      | (Ok _, c) => (true, set_nodes s (MkCluster c (dns w) (calls w)))
      end
  end.
Definition then_refresh {A} (h : handler A) : handler A := λ s,
  match h s with
  | (Answer a, s) => let '(ok, s) := refreshDNTopology s in (if ok then (Answer a, s) else refuse 500 s)
  | r => r
  end.
Definition handleAdminAddDN (now : Z) (addr : string) : handler unit :=
  requireLeader (λ s,
    if bool_decide (addr = "") then refuse 400 s else then_refresh (mutate internal (addRuntimeDNInternal addr now)) s).
Definition handleAdminRemoveDN (addr : string) : handler unit :=
  requireLeader (λ s,
    if bool_decide (addr = "") then refuse 400 s else then_refresh (mutate internal (removeRuntimeDNInternal addr)) s).
Definition handleAdminSetDNClass (addr class : string) : handler unit :=
  requireLeader (λ s,
    if bool_decide (addr = "") then refuse 400 s else mutate internal (SetRuntimeDNClass addr class) s).
Definition handleAdminSetDNDomain (addr domain : string) : handler unit :=
  requireLeader (λ s,
    if bool_decide (addr = "") then refuse 400 s else then_refresh (mutate internal (SetRuntimeDNDomain addr domain)) s).

(** ** URL keys *)
Definition handleAdminListURLKeys : handler (list URLKeyEntry) := read internal ListURLKeys.
Definition handleAdminRotateURLKey (now : Z) (body : option (string * string * bool)) : handler unit :=
  requireLeader (decoded body (λ '(kid, secretHex, isPrimary) s,
    if bool_decide (kid = "") || bool_decide (secretHex = "") then refuse 400 s
    else mutate internal (PutURLKey kid secretHex isPrimary now) s)).
Definition handleAdminRemoveURLKey (kid : string) : handler unit :=
  requireLeader (λ s,
    if bool_decide (kid = "") then refuse 400 s else mutate plain_status (DeleteURLKey kid) s).

(** ** Jobs on the data nodes *)
(** Placement alone, for plans without DN I/O: rebalance uses the three placement
    operations; it never reads or writes through this one. *)
#[local] Instance rebalancePlanCoord : ChunkService string Placer :=
  {| DNs p := Addr <$> Placement.Nodes p;
     PlaceChunk id p := Addr <$> Pick p id 3;
     PlaceN key n p := Addr <$> Pick p key n;
     PlaceNFromAddrs key n addrs := Addr <$> PickFromNodes key n ((λ a, Placement.MkNode a a "") <$> addrs);
     ListChunks _ p := (Err "not implemented", p); DeleteChunkFrom _ _ p := (Err "not implemented", p);
     PutChunkTo _ _ _ p := (Err "not implemented", p); PutChunkToForce _ _ _ p := (Err "not implemented", p);
     ReadChunk _ _ p := (Err "not implemented", p); chunk_at _ _ _ := None; sound _ := True |}%string.
Definition classes (db : @DB M) : option (string → option (list string)) :=
  Some (λ c, Some (ListRuntimeDNsByClass db c)).
Definition handleRebalancePlan : handler Rebalance.Plan :=
  λ s, match match cs_Coord s with
             | Some w => Rebalance.ComputePlan (classes (cs_Store s)) (ListObjects (cs_Store s)) w
             | None => Rebalance.ComputePlan (classes (cs_Store s)) (ListObjects (cs_Store s)) (cs_Placer s)
             end with
       | Ok plan => (Answer plan, s)
       | Err _ => refuse 500 s
       end.
(** [order] is the order in which the workers finish. *)
Definition handleRebalanceApply (order : list Rebalance.Migration → list Rebalance.Migration) : handler Rebalance.RunStats :=
  requireDNIO (λ w s,
    match Rebalance.ComputePlan (classes (cs_Store s)) (ListObjects (cs_Store s)) w with
    | Err _ => refuse 500 s
    | Ok plan =>
        let '(stats, (w, db)) := Rebalance.Run order plan (w, cs_Store s) in
        (Answer stats, set_nodes (set_store s db) w)
    end).

(** [minAge]: the min-age parameter when it parses. *)
Definition gc_plan (clock : string → string → Z) (minAge : option Z) (now : Z) (w : Cluster) (s : CoordServer)
    : result Gc.gc_error Gc.Plan * Cluster :=
  Gc.ComputePlan clock (match ListObjects (cs_Store s) with Ok objs => Some objs | Err _ => None end)
    (default 300000000000%Z minAge) now w.
Definition handleGCPlan (clock : string → string → Z) (minAge : option Z) (now : Z) : handler Gc.Plan :=
  requireDNIO (λ w s,
    let '(r, w) := gc_plan clock minAge now w s in
    match r with Ok plan => (Answer plan, set_nodes s w) | Err _ => refuse 500 (set_nodes s w) end).
Definition handleGCApply (clock : string → string → Z) (order : list Gc.Sweep → list Gc.Sweep) (minAge : option Z) (now : Z)
    : handler (Gc.RunStats coord_error) :=
  requireDNIO (λ w s,
    let '(r, w) := gc_plan clock minAge now w s in
    match r with
    | Err _ => refuse 500 (set_nodes s w)
    | Ok plan => let '(stats, w) := Gc.Run order plan w in (Answer stats, set_nodes s w)
    end).

Definition handleRepairPlan : handler Repair.Plan :=
  requireDNIO (λ w s,
    match Repair.ComputePlan (ListObjects (cs_Store s)) w with Ok plan => (Answer plan, s) | Err _ => refuse 500 s end).
Definition handleRepairApply (order : list Repair.StripeRepair → list Repair.StripeRepair) : handler Repair.RunStats :=
  requireDNIO (λ w s,
    match Repair.ComputePlan (ListObjects (cs_Store s)) w with
    | Err _ => refuse 500 s
    | Ok plan =>
        let '(stats, (w, db)) := Repair.Run order plan (w, cs_Store s) in
        (Answer stats, set_nodes (set_store s db) w)
    end).

(** ** The daemon as a state machine *)
Inductive rpc : Type :=
  | Place (body : option (string * Z)) | Commit (acks : nat) (now : Z) (body : option (option ObjectMeta))
  | Lookup (bucket key : string) | Delete (body : option (string * string))
  | CreateBucket (now : Z) (body : option string) | DeleteBucket (name : string)
  | Initiate (ids : nat → string) (now : Z) (body : option (string * string * string))
  | Part (now : Z) (body : option (string * string * string * MultipartPartMeta))
  | Complete (now : Z) (body : option (string * string * string * list CompletePart))
  | AbortUpload (body : option (string * string * string)) | Cleanup (body : option (Z * Z))
  | AddDN (now : Z) (addr : string) | RemoveDN (addr : string)
  | SetClass (addr class : string) | SetDomain (addr domain : string)
  | RotateKey (now : Z) (body : option (string * string * bool)) | RemoveKey (kid : string)
  | RebalanceApply (order : list Rebalance.Migration → list Rebalance.Migration)
  | GCApply (clock : string → string → Z) (order : list Gc.Sweep → list Gc.Sweep) (minAge : option Z) (now : Z)
  | RepairApply (order : list Repair.StripeRepair → list Repair.StripeRepair).
Definition forget {A} (r : answer A * CoordServer) : answer unit * CoordServer :=
  (match r.1 with Refuse st l c => Refuse st l c | Answer _ => Answer tt end, r.2).
Definition serve (r : rpc) (s : CoordServer) : answer unit * CoordServer :=
  match r with
  | Place b => forget (handlePlace b s)
  | Commit acks now b => forget (handleCommit acks now b s)
  | Lookup b k => forget (handleLookup b k s)
  | Delete b => forget (handleDelete b s)
  | CreateBucket now b => forget (handleCreateBucket now b s)
  | DeleteBucket n => forget (handleDeleteBucket n s)
  | Initiate ids now b => forget (handleMultipartInitiate ids now b s)
  | Part now b => forget (handleMultipartPart now b s)
  | Complete now b => forget (handleMultipartComplete now b s)
  | AbortUpload b => forget (handleMultipartAbort b s)
  | Cleanup b => forget (handleMultipartCleanup b s)
  | AddDN now a => forget (handleAdminAddDN now a s)
  | RemoveDN a => forget (handleAdminRemoveDN a s)
  | SetClass a c => forget (handleAdminSetDNClass a c s)
  | SetDomain a d => forget (handleAdminSetDNDomain a d s)
  | RotateKey now b => forget (handleAdminRotateURLKey now b s)
  | RemoveKey k => forget (handleAdminRemoveURLKey k s)
  | RebalanceApply order => forget (handleRebalanceApply order s)
  | GCApply clock order m now => forget (handleGCApply clock order m now s)
  | RepairApply order => forget (handleRepairApply order s)
  end.
End coord.
