(* ===== verification/CoordTheorems.v ===== *)
(** * Properties of the coord daemon (Coord.v) *)
From S2P Require Import Prelude GF GoLib Placement Kv Meta Store StoreProps Wal Replay DataNode Transport.
From S2P Require Import Coordinator Election Edge EdgeProps EdgeLocal Jobs Coord.
From S2P Require Gc Rebalance Repair.
From Stdlib Require Import Strings.Byte.

Section props.
Context {M : Type → Type} {KVM : KV M} {HKV : KVLaws M}.
Context (net : nat → Coordinator.outcome).
#[local] Instance cp_nodes : ChunkService coord_error Cluster := cluster_service net.
Implicit Types s : @CoordServer M.

(** ** What the jobs and the other operations leave alone *)
#[export] Instance coord_stable c : Stable (λ w : Cluster, coord w = c).
Proof.
  split; intros *; simpl; intros <-.
  - unfold coord_ListChunks. destruct (call _ _ _ w) as [o w1] eqn:Hc. apply call_cases in Hc as (Hco & _). by destruct o.
  - unfold deleteChunk. destruct (call _ _ _ w) as [o w1] eqn:Hc. apply call_cases in Hc as (Hco & _).
    destruct (checked _ _) as [r w2] eqn:Hk. by apply checked_coord in Hk as ->.
  - destruct (putChunk net addr id b w) as [r w1] eqn:Hp. by apply putChunk_coord in Hp.
  - unfold coord_PutChunkToForce. destruct (call _ _ _ w) as [o w1] eqn:Hc. apply call_cases in Hc as (Hco & _).
    destruct (checked _ _) as [r w2] eqn:Hk. by apply checked_coord in Hk as ->.
  - destruct (coord_ReadChunk net id addrs w) as [r w1] eqn:Hr. by apply read_spec in Hr as [(_ & Hco & _) _].
Qed.

(** The database is well-formed and its node registry is [d]. *)
Definition registry_is (d : M (stored RuntimeDN)) (db : @DB M) : Prop := db_ok db ∧ dns_runtime db = d.
Lemma update_object_registry b k f (db : @DB M) : dns_runtime (update_object b k f db).2 = dns_runtime db.
Proof.
  unfold update_object, Update. repeat case_match; simplify_eq/=; try done.
  repeat match goal with H : rbind _ _ = Ok _ |- _ => apply rbind_ok in H as (? & _ & H) end. by simplify_eq/=.
Qed.
#[export] Instance registry_stable d : ReplicaStable (registry_is d).
Proof.
  split; intros; (split; [rewrite <- outcome_snd|]).
  - apply UpdChunk_ok. by destruct H.
  - unfold UpdateChunkReplicas. rewrite update_object_registry. by destruct H.
  - apply UpdShard_ok. by destruct H.
  - unfold UpdateShardReplicas. rewrite update_object_registry. by destruct H.
Qed.

(** ** The registry and the placement view *)
Lemma withDomain_fold (l : list (string * stored RuntimeDN)) (out : gmap string string) a :
  NoDup l.*1 →
  foldl (λ out kv, <[kv.1 := runtime_label rd_domain kv.2]> out) out l !! a =
    match list_to_map (M := gmap string (stored RuntimeDN)) l !! a with
    | Some raw => Some (runtime_label rd_domain raw)
    | None => out !! a
    end.
Proof.
  revert out. induction l as [|[k raw] l IH]; intros out Hnd; cbn [foldl]; [by rewrite list_to_map_nil, lookup_empty|].
  apply NoDup_cons in Hnd as [Hk Hnd]. rewrite IH by done. rewrite list_to_map_cons. cbn [fst snd].
  destruct (decide (a = k)) as [->|Hne].
  - rewrite lookup_insert_eq. rewrite not_elem_of_list_to_map_1 by done. by rewrite lookup_insert_eq.
  - by rewrite !lookup_insert_ne by done.
Qed.
Lemma withDomain_lookup (db : @DB M) a :
  ListRuntimeDNsWithDomain db !! a = runtime_label rd_domain <$> kv_get (dns_runtime db) a.
Proof.
  unfold ListRuntimeDNsWithDomain. rewrite withDomain_fold by apply list_NoDup. rewrite lookup_empty.
  destruct (kv_get (dns_runtime db) a) as [raw|] eqn:Hg.
  - apply elem_list in Hg. by rewrite (elem_of_list_to_map_1 _ a raw (list_NoDup _) Hg).
  - destruct (list_to_map _ !! a) as [raw|] eqn:Hl; [|done]. apply elem_of_list_to_map_2, elem_list in Hl. congruence.
Qed.

Lemma topology_ext (db db' : @DB M) :
  (∀ a, runtime_label rd_domain <$> kv_get (dns_runtime db') a = runtime_label rd_domain <$> kv_get (dns_runtime db) a) →
  topology db' = topology db.
Proof.
  intros H. unfold topology. cut (ListRuntimeDNsWithDomain db' = ListRuntimeDNsWithDomain db); [by intros ->|].
  apply map_eq. intros a. by rewrite !withDomain_lookup.
Qed.
Lemma topology_ids (db : @DB M) : NoDup (ID <$> topology db) ∧ Addr <$> topology db = ID <$> topology db.
Proof.
  unfold topology. rewrite <- !list_fmap_compose. split; [|by apply list_fmap_ext].
  rewrite list_fmap_id, sort_strings_Permutation. apply NoDup_fst_map_to_list.
Qed.
Lemma topology_registered (db : @DB M) a : a ∈ Addr <$> topology db ↔ is_Some (kv_get (dns_runtime db) a).
Proof.
  unfold topology. rewrite <- list_fmap_compose. rewrite list_fmap_id, sort_strings_Permutation.
  rewrite list_elem_of_fmap. split.
  - intros ([x d] & -> & Hx%elem_of_map_to_list). rewrite withDomain_lookup in Hx. cbn [fst].
    destruct (kv_get _ x); [eauto|done].
  - intros [raw Hr]. exists (a, runtime_label rd_domain raw). split; [done|].
    apply elem_of_map_to_list. by rewrite withDomain_lookup, Hr.
Qed.

(** The store is well-formed and both placement views are the registry's, in any order. *)
Definition coord_inv s : Prop :=
  db_ok (cs_Store s) ∧ Placement.Nodes (cs_Placer s) ≡ₚ topology (cs_Store s) ∧
  ∀ w, cs_Coord s = Some w → placer (coord w) = cs_Placer s.
(** A step that leaves the registry and the views alone. *)
Definition data_step s s' : Prop :=
  db_ok (cs_Store s) →
  db_ok (cs_Store s') ∧ topology (cs_Store s') = topology (cs_Store s) ∧
  cs_Placer s' = cs_Placer s ∧ ∀ w', cs_Coord s' = Some w' → ∃ w, cs_Coord s = Some w ∧ coord w' = coord w.
Lemma data_step_refl s : data_step s s.
Proof. intros Hdb. split_and!; try done. intros w Hw. by exists w. Qed.
Lemma data_step_inv s s' : data_step s s' → coord_inv s → coord_inv s'.
Proof.
  intros Hstep (H1 & H2 & H3). destruct (Hstep H1) as (Hdb & Ht & Hp & Hw). split_and!; [done|by rewrite Hp, Ht|].
  intros w' (w & Hs & ->)%Hw. rewrite Hp. by apply H3.
Qed.
Definition good_tx {A} (tx : @DB M → result store_error A * @DB M) : Prop :=
  ∀ db, db_ok db → db_ok (tx db).2 ∧ topology (tx db).2 = topology db.
Lemma mutate_step {A} status (tx : @DB M → result store_error A * @DB M) s : good_tx tx → data_step s (mutate status tx s).2.
Proof.
  intros Htx Hdb. unfold mutate. destruct (Htx (cs_Store s) Hdb) as [H1 H2].
  destruct (tx (cs_Store s)) as [[a|er] db]; (split_and!; [done..|]; intros w Hw; by exists w).
Qed.
Lemma exec_good {A} (tx : @DB M → result store_error A * @DB M) op :
  (∀ db, StoreProps.outcome (tx db) = exec op db) → (∀ db, topology (tx db).2 = topology db) → good_tx tx.
Proof. intros Hop Ht db Hdb. split; [|done]. rewrite <- outcome_snd, Hop. by apply exec_ok. Qed.
Lemma same_registry (db db' : @DB M) : dns_runtime db' = dns_runtime db → topology db' = topology db.
Proof. intros H. apply topology_ext. by rewrite H. Qed.

(** ** Every RPC keeps the invariant *)
Lemma forget_snd {A} (r : answer A * @CoordServer M) : (forget r).2 = r.2.
Proof. done. Qed.
Lemma requireLeader_step {A} (h : @CoordServer M → answer A * CoordServer) s :
  data_step s (h s).2 → data_step s (requireLeader h s).2.
Proof. intros H. unfold requireLeader. destruct (cs_Elector s) as [e|]; [destruct (IsLeader e)|]; try done. apply data_step_refl. Qed.
Lemma decoded_step {A B} (body : option B) (h : B → @CoordServer M → answer A * CoordServer) s :
  (∀ b, data_step s (h b s).2) → data_step s (decoded body h s).2.
Proof. intros H. destruct body; [apply H|apply data_step_refl]. Qed.
Lemma read_same {A} status (q : @DB M → result store_error A) s : (Coord.read status q s).2 = s.
Proof. unfold Coord.read. by destruct (q _). Qed.
Lemma commit_step acks now meta s : data_step s (commit acks now meta s).2.
Proof.
  assert (data_step s (match putObjectInternal meta now (cs_Store s) with
    | (Ok o, db) => (Some o, set_store s db) | (Err _, db) => (None, set_store s db) end).2) as Hput.
  { pose proof (mutate_step internal (putObjectInternal meta now) s) as H. unfold mutate in H.
    destruct (putObjectInternal meta now (cs_Store s)) as [[o|er] db]; apply H;
      (apply (exec_good _ (PutObject meta now)); [done|]; intros db0; apply same_registry;
       unfold putObjectInternal, Update; by destruct (put _ _ _)). }
  unfold commit. destruct (cs_TransactionalCommit s), (cs_Elector s), (cs_WAL s); try done.
  destruct (_ && _); [done|apply data_step_refl].
Qed.
Lemma jobs_step s w wd : cs_Coord s = Some w →
  (db_ok (cs_Store s) → both (λ w', coord w' = coord w) (registry_is (dns_runtime (cs_Store s))) wd) →
  data_step s (set_nodes (set_store s wd.2) wd.1).
Proof.
  intros Hs Hb Hdb. destruct (Hb Hdb) as [Hc [H1 H2]]. split_and!; [done|by apply same_registry|done|].
  intros w' [= <-]. by exists w.
Qed.
Lemma nodes_step s w w' : cs_Coord s = Some w → coord w' = coord w → data_step s (set_nodes s w').
Proof. intros Hs Hc Hdb. split_and!; try done. intros w0 [= <-]. by exists w. Qed.

Lemma rebalance_step order s : data_step s (handleRebalanceApply net order s).2.
Proof.
  unfold handleRebalanceApply, requireDNIO. destruct (cs_Coord s) as [w|] eqn:Hs; [|apply data_step_refl].
  destruct (Rebalance.ComputePlan _ _ _) as [plan|er]; [|apply data_step_refl].
  destruct (Rebalance.Run _ _ _) as [stats wd] eqn:Hr. destruct wd as [w' db'] eqn:E. cbn [snd].
  change (data_step s (set_nodes (set_store s (w', db').2) (w', db').1)). apply (jobs_step s w); [done|].
  intros Hdb. pose proof (rebalance_keeps (λ w', coord w' = coord w) (registry_is (dns_runtime (cs_Store s)))
    order plan (w, cs_Store s)) as H.
  match type of Hr with ?r = _ => change (both (λ w', coord w' = coord w) (registry_is (dns_runtime (cs_Store s))) (w, cs_Store s) →
    both (λ w', coord w' = coord w) (registry_is (dns_runtime (cs_Store s))) r.2) in H end.
  rewrite Hr in H. by apply H.
Qed.
Lemma repair_step order s : data_step s (handleRepairApply net order s).2.
Proof.
  unfold handleRepairApply, requireDNIO. destruct (cs_Coord s) as [w|] eqn:Hs; [|apply data_step_refl].
  destruct (Repair.ComputePlan _ _) as [plan|er]; [|apply data_step_refl].
  destruct (Repair.Run _ _ _) as [stats wd] eqn:Hr. destruct wd as [w' db'] eqn:E. cbn [snd].
  change (data_step s (set_nodes (set_store s (w', db').2) (w', db').1)). apply (jobs_step s w); [done|].
  intros Hdb. pose proof (repair_keeps (λ w', coord w' = coord w) (registry_is (dns_runtime (cs_Store s)))
    order plan (w, cs_Store s)) as H.
  match type of Hr with ?r = _ => change (both (λ w', coord w' = coord w) (registry_is (dns_runtime (cs_Store s))) (w, cs_Store s) →
    both (λ w', coord w' = coord w) (registry_is (dns_runtime (cs_Store s))) r.2) in H end.
  rewrite Hr in H. by apply H.
Qed.
Lemma gc_step clock order m now s : data_step s (handleGCApply net clock order m now s).2.
Proof.
  unfold handleGCApply, requireDNIO, gc_plan. destruct (cs_Coord s) as [w|] eqn:Hs; [|apply data_step_refl].
  pose proof (gc_plan_keeps (λ w', coord w' = coord w) clock
    (match ListObjects (cs_Store s) with Ok objs => Some objs | Err _ => None end) (default 300000000000%Z m) now w eq_refl) as H.
  change (cluster_service net) with (coord_nodes net) in H. change cp_nodes with (coord_nodes net) in H.
  destruct (Gc.ComputePlan _ _ _ _ w) as [[plan|er] w1]; cbn [snd] in *; [|by apply (nodes_step s w)].
  pose proof (gc_run_keeps (λ w', coord w' = coord w) order plan w1 H) as H2.
  destruct (Gc.Run order plan w1) as [stats w2]. by apply (nodes_step s w).
Qed.

(** The store operations that leave the registry alone, or only its class labels. *)
Definition registry_free (op : store_op) : bool :=
  match op with AddRuntimeDN _ _ | RemoveRuntimeDN _ | StoreProps.SetClass _ _ | StoreProps.SetDomain _ _ | SeedDNs _ _ => false | _ => true end.
Lemma Update_registry {A} (fn : @DB M → result store_error (A * DB)) db :
  (∀ a db', fn db = Ok (a, db') → dns_runtime db' = dns_runtime db) → dns_runtime (Update fn db).2 = dns_runtime db.
Proof. intros H. by apply (Update_cases fn db (λ r, dns_runtime r.2 = dns_runtime db)). Qed.
Ltac untangle :=
  cbv beta zeta in *; repeat (match goal with
          | H : rbind _ _ = Ok _ |- _ => apply rbind_ok in H as (? & ? & H)
          | H : (match ?x with _ => _ end) = Ok _ |- _ => destruct x eqn:?
          end; simplify_eq/=).
Lemma exec_registry op (db : @DB M) : registry_free op = true → dns_runtime (exec op db).2 = dns_runtime db.
Proof.
  intros Hf. destruct op; try done; cbn [exec]; rewrite outcome_snd;
    try (apply Update_registry; intros; by untangle);
    try (apply update_object_registry).
  - unfold createBucketInternal. destruct (negb _); [done|]. apply Update_registry. intros. by untangle.
  - unfold CreateMultipartUpload_tx. case_match; [done|]. apply Update_registry. intros. by untangle.
  - unfold PutMultipartPart_tx. destruct (prepare_part _ _); [|done].
    unfold putMultipartPartInternal. apply Update_cases; [done|]. intros. by untangle.
  - unfold CompleteMultipartUpload_tx. case_match; [done|]. apply Update_registry. intros. by untangle.
  - unfold PutURLKey. case_match; [done|]. apply Update_registry. intros. by untangle.
Qed.
Lemma op_step {A} status (tx : @DB M → result store_error A * @DB M) s op :
  registry_free op = true → (∀ db, StoreProps.outcome (tx db) = exec op db) → data_step s (mutate status tx s).2.
Proof.
  intros Hf Hop. apply mutate_step, (exec_good _ op); [done|]. intros db. apply same_registry.
  by rewrite <- outcome_snd, Hop, exec_registry.
Qed.
Lemma class_step addr class s : data_step s (mutate internal (SetRuntimeDNClass addr class) s).2.
Proof.
  apply mutate_step, (exec_good _ (StoreProps.SetClass addr class)); [done|]. intros db. apply topology_ext. intros a.
  unfold SetRuntimeDNClass, update_runtime. destruct (bool_decide _); [done|].
  apply Update_cases; [done|]. intros u db' H. destruct (kv_get (dns_runtime db) addr) as [raw|] eqn:Hr; [|done].
  apply rbind_ok in H as (m & Hp%put_ok & H). simplify_eq/=. rewrite (get_put _ _ _ _ _ Hp).
  case_decide as Ha; [|done]. subst a. rewrite Hr. unfold runtime_label. simpl. by destruct (decode raw).
Qed.

(** Which RPCs change the registry of data nodes that placement reads. *)
Definition registry_rpc (r : rpc) : bool := match r with AddDN _ _ | RemoveDN _ | SetDomain _ _ => true | _ => false end.
Lemma other_rpc_step r s : registry_rpc r = false → data_step s (serve net r s).2.
Proof.
  intros Hr. destruct r; try done; cbn [serve]; rewrite forget_snd;
    try (apply requireLeader_step; try apply decoded_step; intros).
  - unfold handlePlace, decoded. destruct body as [[key n]|]; [|apply data_step_refl]. destruct (_ || _); apply data_step_refl.
  - destruct b as [meta|]; [|apply data_step_refl]. destruct (_ || _); [apply data_step_refl|].
    pose proof (commit_step acks now meta s) as H. by destruct (commit acks now meta s) as [[o|] s'].
  - unfold handleLookup. destruct (_ || _); [apply data_step_refl|]. rewrite read_same. apply data_step_refl.
  - destruct b as [bucket key]. destruct (_ || _); [apply data_step_refl|]. by apply (op_step _ _ _ (DeleteObject bucket key)).
  - by apply (op_step _ _ _ (StoreProps.CreateBucket b now)).
  - case_match; [apply data_step_refl|]. by apply (op_step _ _ _ (StoreProps.DeleteBucket name)).
  - destruct b as [[bucket key] ct]. destruct (_ || _); [apply data_step_refl|].
    by apply (op_step _ _ _ (CreateMultipart bucket key ct ids now)).
  - destruct b as [[[bucket key] u] part]. by apply (op_step _ _ _ (PutPart bucket key u part now)).
  - destruct b as [[[bucket key] u] ps]. by apply (op_step _ _ _ (CompleteMultipart bucket key u ps now)).
  - destruct b as [[bucket key] u]. by apply (op_step _ _ _ (AbortMultipart bucket key u)).
  - destruct b as [cutoff limit]. case_match; [apply data_step_refl|]. by apply (op_step _ _ _ (AbortExpired cutoff limit)).
  - case_match; [apply data_step_refl|]. apply class_step.
  - destruct b as [[kid secret] p]. destruct (_ || _); [apply data_step_refl|].
    by apply (op_step _ _ _ (PutKey kid secret p now)).
  - case_match; [apply data_step_refl|]. by apply (op_step _ _ _ (DeleteKey kid)).
  - apply rebalance_step.
  - apply gc_step.
  - apply repair_step.
Qed.
End props.

(** ** What the coord daemon guarantees *)
From S2P Require Gc Rebalance Repair.

Section theorems.
Context {M : Type → Type} {KVM : KV M} {HKV : KVLaws M}.
Context (net : nat → Coordinator.outcome).
Implicit Types s : @CoordServer M.

(** ** Placement follows the registry *)
Lemma refresh_inv s s' : db_ok (cs_Store s) → refreshDNTopology s = (true, s') → coord_inv s'.
Proof.
  intros Hdb. unfold refreshDNTopology, UpdateNodes. cbn zeta. cbn [set_placer cs_Coord].
  destruct (cs_Coord s) as [w|] eqn:Hw.
  - destruct (_ =? 0)%Z; [done|]. destruct (_ <? _)%Z; [done|]. intros [= <-]. split_and!; [done|done|]. by intros w' [= <-].
  - intros [= <-]. split_and!; [done|done|]. cbn. by rewrite Hw.
Qed.
Lemma then_refresh_inv {A} (tx : @DB M → result store_error A * @DB M) op s r s' :
  (∀ db, StoreProps.outcome (tx db) = exec op db) → then_refresh (mutate internal tx) s = (r, s') →
  status_of r ≠ 500%Z → coord_inv s → coord_inv s'.
Proof.
  intros Hop Hr Hst [Hdb _]. pose proof (exec_ok op (cs_Store s) Hdb) as Hdb'. rewrite <- Hop, outcome_snd in Hdb'.
  unfold then_refresh, mutate in Hr. destruct (tx (cs_Store s)) as [[a|er] db]; [|injection Hr as <- <-; by destruct Hst].
  destruct (refreshDNTopology (set_store s db)) as [[] s1] eqn:Hf; injection Hr as <- <-; [by apply (refresh_inv (set_store s db))|by destruct Hst].
Qed.
Lemma registry_inv {A} (tx : @DB M → result store_error A * @DB M) op addr s r s' :
  (∀ db, StoreProps.outcome (tx db) = exec op db) →
  requireLeader (λ s, if bool_decide (addr = ""%string) then refuse 400 s else then_refresh (mutate internal tx) s) s = (r, s') →
  status_of r ≠ 500%Z → coord_inv s → coord_inv s'.
Proof.
  intros Hop Hr Hst Hs. unfold requireLeader in Hr.
  assert ((if bool_decide (addr = ""%string) then refuse 400 s else then_refresh (mutate internal tx) s) = (r, s') → coord_inv s')
    as Hgo by (destruct (bool_decide _); [by intros [= <- <-]|intros H; by eapply then_refresh_inv]).
  destruct (cs_Elector s) as [e|]; [destruct (IsLeader e)|]; auto. by injection Hr as <- <-.
Qed.
Lemma serve_inv r s a s' : serve net r s = (a, s') → (registry_rpc r = true → status_of a ≠ 500%Z) → coord_inv s → coord_inv s'.
Proof.
  intros Hr Hst Hs. destruct (registry_rpc r) eqn:Hreg.
  - specialize (Hst eq_refl). destruct r; try done; cbn [serve] in Hr; unfold forget in Hr;
      match type of Hr with (match ?h.1 with _ => _ end, _) = _ => destruct h as [r0 s0] eqn:H0 end; cbn [fst snd] in Hr;
      (assert (status_of r0 ≠ 500%Z) by (by destruct r0; simplify_eq/=)); injection Hr as _ <-.
    + by eapply (registry_inv _ (AddRuntimeDN addr now)).
    + by eapply (registry_inv _ (RemoveRuntimeDN addr)).
    + by eapply (registry_inv _ (StoreProps.SetDomain addr domain)).
  - eapply data_step_inv; [|done]. pose proof (other_rpc_step net r s Hreg) as H. by rewrite Hr in H.
Qed.

(** The daemon's history: one RPC after another, each answered.  A registry change that
    answers 500 is the case the daemon does not recover from (see [failed_removal_keeps_placing]). *)
Inductive coord_step s : @CoordServer M → Prop :=
  | coord_rpc r a s' : serve net r s = (a, s') → (registry_rpc r = true → status_of a ≠ 500%Z) → coord_step s s'.

Lemma coord_reachable_inv s0 s : coord_inv s0 → rtc coord_step s0 s → coord_inv s.
Proof. intros H0 Hrun. induction Hrun as [|s1 s2 s3 [r a s' Hr Hst] _ IH]; [done|]. apply IH. by eapply serve_inv. Qed.

(** Whatever RPCs the coord daemon has served, the nodes it places a chunk on are
    distinct, are all in its registry, and are as many as asked for or as the registry has. *)
Theorem place_answers_registered_nodes s0 s key n addrs s' :
  coord_inv s0 → rtc coord_step s0 s → handlePlace (Some (key, n)) s = (Answer addrs, s') →
  s' = s ∧ NoDup addrs ∧ (∀ a, a ∈ addrs → a ∈ ListRuntimeDNs (cs_Store s)) ∧
  length addrs = Z.to_nat n `min` length (ListRuntimeDNs (cs_Store s)).
Proof.
  intros H0 Hrun Hp. destruct (coord_reachable_inv s0 s H0 Hrun) as (_ & Hpl & Hw). clear H0 Hrun.
  unfold handlePlace, decoded in Hp. destruct (_ || _); [done|].
  assert (addrs = Addr <$> PickByDomain (cs_Placer s) key n ∧ s' = s) as [-> ->].
  { destruct (cs_Coord s) as [w|]; [|by simplify_eq]. unfold coord_PlaceN in Hp. rewrite (Hw w eq_refl) in Hp. by simplify_eq. }
  clear Hp Hw. destruct (cs_Placer s) as [nodes]. cbn in Hpl. destruct (topology_ids (cs_Store s)) as [Hid Ha].
  destruct (PlaceN_spec key n (MkCoordinator (Placement.New nodes) 0 0 0 "")) as (H1 & H2 & H3);
    [unfold Nodes; simpl; by rewrite Hpl|unfold Nodes; simpl; rewrite Hpl; congruence|].
  unfold coord_PlaceN in H1, H2, H3. cbn [placer] in H1, H2, H3.
  change (Nodes _) with nodes in H3. assert (∀ a, a ∈ Addr <$> nodes → a ∈ Addr <$> topology (cs_Store s)) as Hview by (intros a; by rewrite Hpl).
  assert (∀ a, a ∈ ListRuntimeDNs (cs_Store s) ↔ a ∈ Addr <$> topology (cs_Store s)) as Hreg.
  { intros a. rewrite topology_registered. unfold ListRuntimeDNs. rewrite sort_strings_Permutation, list_elem_of_fmap. split.
    - intros ([x v] & -> & Hx%elem_list). eauto.
    - intros [v Hv%elem_list]. by exists (a, v). }
  split_and!; [done|done| |].
  - intros a Hx%H2. by apply Hreg, Hview.
  - etrans; [exact H3|]. rewrite Hpl. f_equal. rewrite <- (length_fmap Addr). apply Permutation_length, NoDup_Permutation;
      [unfold Nodes; simpl; by rewrite Ha| |intros a; by rewrite Hreg].
    unfold ListRuntimeDNs. rewrite sort_strings_Permutation. apply list_NoDup.
Qed.

(** ** Followers *)
Definition job_rpc (r : rpc) : bool := match r with RebalanceApply _ | GCApply _ _ _ _ | RepairApply _ => true | _ => false end.
Definition query_rpc (r : rpc) : bool := match r with Place _ | Lookup _ _ => true | _ => false end.

(** A coord that does not lead answers reads from its own store, refuses every other
    request but the maintenance jobs with 503 and the leader's URL, and never changes
    anything. *)
Theorem follower_is_read_only e r s :
  cs_Elector s = Some e → IsLeader e = false → job_rpc r = false →
  (serve net r s).2 = s ∧
  (query_rpc r = false →
     (serve net r s).1 = Refuse 503 (if bool_decide (LeaderURL e = ""%string) then None else Some (LeaderURL e)) None).
Proof.
  intros He Hl Hj.
  assert (∀ A (h : @CoordServer M → answer A * CoordServer),
    requireLeader h s = (Refuse 503 (if bool_decide (LeaderURL e = ""%string) then None else Some (LeaderURL e)) None, s)) as Hg
    by (intros A h; unfold requireLeader; by rewrite He, Hl).
  destruct r; try done; cbn [serve]; unfold forget;
    try (unfold handleCommit, handleDelete, handleCreateBucket, handleDeleteBucket, handleMultipartInitiate, handleMultipartPart,
           handleMultipartComplete, handleMultipartAbort, handleMultipartCleanup, handleAdminAddDN, handleAdminRemoveDN,
           handleAdminSetDNClass, handleAdminSetDNDomain, handleAdminRotateURLKey, handleAdminRemoveURLKey; by rewrite Hg).
  - split; [|done]. unfold handlePlace, decoded. destruct body as [[key n]|]; [|done]. by destruct (_ || _).
  - split; [|done]. unfold handleLookup. destruct (_ || _); [done|]. apply read_same.
Qed.

(** ** Commits *)
Lemma putObject_effect o now (db : @DB M) o' db' : putObjectInternal o now db = (Ok o', db') →
  (∀ prev, GetObject db (Bucket o) (Key o) = Ok prev → (0 ≤ Version prev < 2 ^ 63 - 1)%Z → Version o' = (Version prev + 1)%Z) ∧
  ∀ b k, objKey b k ≠ objKey (Bucket o) (Key o) → GetObject db' b k = GetObject db b k.
Proof.
  unfold putObjectInternal. intros Hp%Update_ok. apply rbind_ok in Hp as (m & Hput%put_ok & [= Ho <-]). split.
  - intros prev Hg Hv. rewrite <- (next_version_succ db (Bucket o) (Key o) o prev) by done. subst o'. by destruct (IsZero _).
  - intros b k Hk. unfold GetObject, get_decoded. simpl. by rewrite (get_put_ne _ _ _ _ _ Hput).
Qed.
Lemma commit_spec acks now meta s o s' : commit acks now meta s = (o, s') →
  match o with
  | None => s' = s
  | Some o' => ∃ db, putObjectInternal meta now (cs_Store s) = (Ok o', db) ∧ s' = set_store s db ∧
      ∀ e, cs_Elector s = Some e → cs_TransactionalCommit s = true → cs_WAL s = true → quorum e ≤ acks
  end.
Proof.
  unfold commit. destruct (putObjectInternal meta now (cs_Store s)) as [[o'|er] db] eqn:Hp.
  - destruct (cs_TransactionalCommit s), (cs_Elector s) as [e|], (cs_WAL s);
      [destruct (IsLeader e && ReplicateEntry_result acks e) eqn:Hq|..]; intros [= <- <-]; try done;
      exists db; (split_and!; [done..|]); try done.
    intros e' [= <-] _ _. apply andb_prop in Hq as [_ Hq]. by apply Nat.leb_le.
  - assert (db = cs_Store s) as ->.
    { apply (failed_tx (PutObject meta now) _ er). cbn [exec]. by rewrite Hp. }
    assert (set_store s (cs_Store s) = s) as -> by by destruct s.
    destruct (cs_TransactionalCommit s), (cs_Elector s) as [e|], (cs_WAL s); [destruct (_ && _)|..]; by intros [= <- <-].
Qed.

Lemma handleCommit_spec acks now meta s r s' : handleCommit acks now (Some (Some meta)) s = (r, s') →
  match r with
  | Refuse _ _ _ => s' = s
  | Answer v => ∃ o' db, putObjectInternal meta now (cs_Store s) = (Ok o', db) ∧ v = Version o' ∧ s' = set_store s db ∧
      ∀ e, cs_Elector s = Some e → IsLeader e = true ∧ (cs_TransactionalCommit s = true → cs_WAL s = true → quorum e ≤ acks)
  end.
Proof.
  intros Hc. destruct (commit acks now meta s) as [o s1] eqn:Hput. pose proof (commit_spec _ _ _ _ _ _ Hput) as Ho.
  unfold handleCommit, requireLeader, decoded, refuse in Hc. rewrite Hput in Hc.
  assert (match r with
    | Refuse _ _ _ => s' = s
    | Answer v => ∃ o', o = Some o' ∧ v = Version o' ∧ s' = s1 ∧ ∀ e, cs_Elector s = Some e → IsLeader e = true
    end) as Hr.
  { destruct (cs_Elector s) as [e|]; [destruct (IsLeader e) eqn:Hl; [|by simplify_eq]|]; (destruct (_ || _); [by simplify_eq|]);
      (destruct o as [o|]; simplify_eq; [|done]); exists o; (split_and!; [done..|]); congruence. }
  destruct r as [st l c|v]; [done|]. destruct Hr as (o' & -> & -> & -> & Hl). destruct Ho as (db & Hp & -> & Hq).
  exists o', db. split_and!; [done..|]. intros e He. split; [by apply Hl|by apply Hq].
Qed.


(** ** Refusals *)
Definition refusal_ok s (r : answer unit * @CoordServer M) : Prop :=
  match r with
  | (Answer _, _) => True
  | (Refuse st _ _, s') => st ∈ [400; 404; 409; 500; 503]%Z ∧ (st ≠ 500%Z → s' = s)
  end.
Lemma refused_ok {A} st l c s : st ∈ [400; 404; 409; 500; 503]%Z → refusal_ok s (forget (@Refuse A st l c, s)).
Proof. done. Qed.
Lemma requireLeader_refusal {A} (h : @CoordServer M → answer A * CoordServer) s :
  refusal_ok s (forget (h s)) → refusal_ok s (forget (requireLeader h s)).
Proof.
  intros H. unfold requireLeader. destruct (cs_Elector s) as [e|]; [destruct (IsLeader e)|]; try done.
  apply refused_ok. set_solver.
Qed.
Lemma decoded_refusal {A B} (body : option B) (h : B → @CoordServer M → answer A * CoordServer) s :
  (∀ b, refusal_ok s (forget (h b s))) → refusal_ok s (forget (decoded body h s)).
Proof. intros H. destruct body; [apply H|apply refused_ok; set_solver]. Qed.
Lemma guard_refusal {A} (b : bool) (h : @CoordServer M → answer A * CoordServer) s :
  refusal_ok s (forget (h s)) → refusal_ok s (forget (if b then refuse 400 s else h s)).
Proof. intros H. destruct b; [apply refused_ok; set_solver|done]. Qed.
Lemma mutate_refusal {A} status (tx : @DB M → result store_error A * @DB M) op s :
  (∀ db, StoreProps.outcome (tx db) = exec op db) → (∀ er, status er ∈ [400; 404; 409; 500; 503]%Z) →
  refusal_ok s (forget (mutate status tx s)).
Proof.
  intros Hop Hst. unfold mutate. pose proof (Hop (cs_Store s)) as H. destruct (tx (cs_Store s)) as [[a|er] db]; [done|].
  symmetry in H. apply failed_tx in H as ->. split; [apply Hst|]. intros _. by destruct s.
Qed.
Lemma then_refresh_refusal {A} (tx : @DB M → result store_error A * @DB M) op s :
  (∀ db, StoreProps.outcome (tx db) = exec op db) → refusal_ok s (forget (then_refresh (mutate internal tx) s)).
Proof.
  intros Hop. unfold then_refresh. pose proof (mutate_refusal internal tx op s Hop) as H.
  destruct (mutate internal tx s) as [[st l c|a] s1]; [apply H; intros er; set_solver|].
  destruct (refreshDNTopology s1) as [[] s2]; [done|]. split; [set_solver|by intros []].
Qed.
Lemma bucket_statuses er : writeStoreBucketErr er ∈ [400; 404; 409; 500; 503]%Z.
Proof. destruct er; simpl; set_solver. Qed.
Lemma multipart_statuses er : writeStoreMultipartErr er ∈ [400; 404; 409; 500; 503]%Z.
Proof. destruct er; simpl; set_solver. Qed.
Lemma plain_statuses er : plain_status er ∈ [400; 404; 409; 500; 503]%Z.
Proof. destruct er; simpl; set_solver. Qed.
Lemma internal_statuses er : internal er ∈ [400; 404; 409; 500; 503]%Z.
Proof. unfold internal. set_solver. Qed.
#[local] Hint Resolve bucket_statuses multipart_statuses plain_statuses internal_statuses : core.

(** Every RPC the daemon refuses is refused with one of its documented statuses, and
    unless that is 500 the daemon is exactly as it was before. *)
Theorem refused_rpc_changes_nothing r s st l c s' :
  serve net r s = (Refuse st l c, s') → st ∈ [400; 404; 409; 500; 503]%Z ∧ (st ≠ 500%Z → s' = s).
Proof.
  intros Hr. cut (refusal_ok s (serve net r s)); [by rewrite Hr|]. clear Hr.
  destruct r; cbn [serve]; try (apply requireLeader_refusal; try apply decoded_refusal; intros); try apply guard_refusal.
  - apply decoded_refusal. intros [key n]. by apply guard_refusal.
  - destruct b as [meta|]; [|apply refused_ok; set_solver]. destruct (_ || _); [apply refused_ok; set_solver|].
    pose proof (commit_spec acks now meta s) as H. destruct (commit acks now meta s) as [[o|] s1]; [done|].
    specialize (H _ _ eq_refl). cbn in H. subst s1. apply refused_ok. set_solver.
  - unfold Coord.read. destruct (GetObject _ _ _) as [o|er]; [done|]. by apply refused_ok.
  - destruct b as [bucket key]. apply guard_refusal. by apply (mutate_refusal _ _ (DeleteObject bucket key)).
  - by apply (mutate_refusal _ _ (StoreProps.CreateBucket b now)).
  - by apply (mutate_refusal _ _ (StoreProps.DeleteBucket name)).
  - destruct b as [[bucket key] ct]. apply guard_refusal. by apply (mutate_refusal _ _ (CreateMultipart bucket key ct ids now)).
  - destruct b as [[[bucket key] u] part]. by apply (mutate_refusal _ _ (PutPart bucket key u part now)).
  - destruct b as [[[bucket key] u] ps]. by apply (mutate_refusal _ _ (CompleteMultipart bucket key u ps now)).
  - destruct b as [[bucket key] u]. by apply (mutate_refusal _ _ (AbortMultipart bucket key u)).
  - destruct b as [cutoff limit]. apply guard_refusal. by apply (mutate_refusal _ _ (AbortExpired cutoff limit)).
  - by apply (then_refresh_refusal _ (AddRuntimeDN addr now)).
  - by apply (then_refresh_refusal _ (RemoveRuntimeDN addr)).
  - by apply (mutate_refusal _ _ (StoreProps.SetClass addr class)).
  - by apply (then_refresh_refusal _ (StoreProps.SetDomain addr domain)).
  - destruct b as [[kid secret] p]. apply guard_refusal. by apply (mutate_refusal _ _ (PutKey kid secret p now)).
  - by apply (mutate_refusal _ _ (DeleteKey kid)).
  - unfold handleRebalanceApply, requireDNIO. destruct (cs_Coord s) as [w|]; [|apply refused_ok; set_solver].
    destruct (Rebalance.ComputePlan _ _ _) as [plan|er]; [|apply refused_ok; set_solver].
    by destruct (Rebalance.Run _ _ _) as [stats [w' db']].
  - unfold handleGCApply, requireDNIO. destruct (cs_Coord s) as [w|]; [|apply refused_ok; set_solver].
    destruct (gc_plan net clock minAge now w s) as [[plan|er] w1]; [by destruct (Gc.Run _ _ _)|].
    split; [set_solver|by intros []].
  - unfold handleRepairApply, requireDNIO. destruct (cs_Coord s) as [w|]; [|apply refused_ok; set_solver].
    destruct (Repair.ComputePlan _ _) as [plan|er]; [|apply refused_ok; set_solver].
    by destruct (Repair.Run _ _ _) as [stats [w' db']].
Qed.
End theorems.

(** ** Witnesses and findings *)
Definition w_add (addr : string) (db : mdb) : mdb := (addRuntimeDNInternal addr 5 db).2.
Definition w_registry : mdb := w_add "h3:80" (w_add "h2:80" (w_add "h1:80" empty_db)).
Definition w_boot : @CoordServer (gmap string) := MkCoord empty_db (Placement.New []) None None false false.
Definition w_follower : Elector := Election.New (w_conf "b") 0.
Definition w_leader : Elector := set_leader (set_state w_follower Leader) "b".
Definition w_replica (e : Elector) : @CoordServer (gmap string) := MkCoord db0 (Placement.New []) None (Some e) true true.

Lemma w_boot_inv : coord_inv w_boot.
Proof. split_and!; [apply empty_db_ok|reflexivity|done]. Qed.
Lemma place_answers_registered_nodes_witness :
  ∃ s addrs, rtc (coord_step w_net) w_boot s ∧ handlePlace (Some ("chunk", 2%Z)) s = (Answer addrs, s) ∧ NoDup addrs ∧ length addrs = 1.
Proof.
  set (s := (serve w_net (AddDN 5 "h1:80") w_boot).2).
  assert (rtc (coord_step w_net) w_boot s) as Hrun.
  { apply rtc_once, (coord_rpc _ _ (AddDN 5 "h1:80") (Answer tt)); [reflexivity|done]. }
  set (addrs := Addr <$> PickByDomain (cs_Placer s) "chunk" 2). exists s, addrs. split; [done|]. split; [reflexivity|].
  destruct (place_answers_registered_nodes w_net w_boot s "chunk" 2 addrs s w_boot_inv Hrun eq_refl) as (_ & H1 & _ & H2).
  split; [done|]. etrans; [exact H2|reflexivity].
Defined.

Lemma follower_is_read_only_witness :
  serve w_net (Commit 2 9 (Some (Some obj1))) (w_replica (set_leader w_follower "a")) = (Refuse 503 (Some "http://a") None, w_replica (set_leader w_follower "a")).
Proof.
  destruct (follower_is_read_only w_net (set_leader w_follower "a") (Commit 2 9 (Some (Some obj1))) (w_replica (set_leader w_follower "a")))
    as [H1 H2]; [done..|]. specialize (H2 eq_refl). rewrite (surjective_pairing (serve _ _ _)), H1, H2. reflexivity.
Defined.


Lemma refused_rpc_changes_nothing_witness : (serve w_net (DeleteBucket "photos") (w_replica w_follower)).2 = w_replica w_follower.
Proof.
  by apply (refused_rpc_changes_nothing w_net (DeleteBucket "photos") (w_replica w_follower) 503 None None (w_replica w_follower)).
Defined.

(** A removal that leaves fewer nodes than the replication factor is answered 500, but the
    node is gone from the registry and placement keeps answering it. *)
Definition w_three : @CoordServer (gmap string) :=
  MkCoord w_registry (Placement.New (topology w_registry))
    (Some (MkCluster (MkCoordinator (Placement.New (topology w_registry)) 3 2 0 "http") ∅ 0)) None false false.
Lemma w_topology : topology w_registry = [Placement.MkNode "h1:80" "h1:80" ""; Placement.MkNode "h2:80" "h2:80" ""; Placement.MkNode "h3:80" "h3:80" ""].
Proof. reflexivity. Qed.
Lemma w_distinct : NoDup ["h1:80"; "h2:80"; "h3:80"]%string.
Proof. apply (bool_decide_unpack _). vm_compute. done. Qed.
Lemma w_removed : ∃ s', serve w_net (RemoveDN "h3:80") w_three = (Refuse 500 None None, s') ∧
  ListRuntimeDNs (cs_Store s') = ["h1:80"; "h2:80"]%string ∧ cs_Coord s' = cs_Coord w_three.
Proof. eexists. split; [reflexivity|]. split; reflexivity. Qed.
Lemma failed_removal_keeps_placing : ∃ s' addrs, serve w_net (RemoveDN "h3:80") w_three = (Refuse 500 None None, s') ∧
  "h3:80"%string ∉ ListRuntimeDNs (cs_Store s') ∧ handlePlace (Some ("chunk", 3%Z)) s' = (Answer addrs, s') ∧ "h3:80"%string ∈ addrs.
Proof.
  destruct w_removed as (s' & H1 & H2 & H3).
  exists s', (coord_PlaceN "chunk" 3 (MkCoordinator (Placement.New (topology w_registry)) 3 2 0 "http")). split; [done|]. split; [rewrite H2; clear; set_solver|].
  split; [unfold handlePlace, decoded; by rewrite H3|]. clear.
  rewrite w_topology. set (c := MkCoordinator _ 3 2 0 "http").
  destruct (PlaceN_spec "chunk" 3 c) as (Hn & Hs & Hl); [apply w_distinct..|].
  set (l := coord_PlaceN _ _ _) in *. change (length l = 3) in Hl.
  assert (l ≡ₚ ["h1:80"; "h2:80"; "h3:80"]%string) as ->; [|clear; set_solver].
  apply submseteq_length_Permutation; [by apply NoDup_submseteq|by rewrite Hl].
Qed.

(** The maintenance jobs never ask who leads. *)
Definition with_elector {M} `{!KV M} (s : @CoordServer M) (e : option Elector) : CoordServer :=
  MkCoord (cs_Store s) (cs_Placer s) (cs_Coord s) e (cs_TransactionalCommit s) (cs_WAL s).
Lemma jobs_are_not_leader_gated net order e (s s' : @CoordServer (gmap string)) r :
  handleRepairApply net order s = (r, s') → handleRepairApply net order (with_elector s e) = (r, with_elector s' e).
Proof.
  unfold handleRepairApply, requireDNIO. cbn [with_elector cs_Coord cs_Store]. destruct (cs_Coord s) as [w|]; [|by intros [= <- <-]].
  destruct (Repair.ComputePlan _ _) as [plan|er]; [|by intros [= <- <-]].
  destruct (Repair.Run _ _ _) as [stats [w' db']]. by intros [= <- <-].
Qed.
