(* ===== verification/CoordClient.v ===== *)
(** * The edge's client of the coord daemons: internal/edge/coord_client.go

    The daemons are those of Coord.v, one per URL.  Every HTTP exchange has a number;
    [cnet] says what becomes of it: what is lost, and the daemon's clock, acknowledgements
    and random ids while it serves.  An operation runs at the time [cw_now], without other
    requests of the client in between.  JSON carries values unchanged. *)
From S2P Require Import Prelude GF GoLib Placement Kv Meta Store StoreProps Coordinator Election Coord.
From S2P Require Import Edge EdgeProps EdgeLocal CoordTheorems.
From Stdlib Require Import Strings.Ascii.

(** What an exchange can fail at: reaching the daemon, its answer, the answer's body. *)
Inductive exchange_fault : Type := Served | Unreached | AnswerLost | BodyCut.
Record exchange : Type := MkExchange
  { x_fault : exchange_fault; x_now : Z; x_acks : nat; x_ids : nat → string }.
Inductive client_error : Type := Sentinel (e : store_error) | ClientFailed.

Definition slash : ascii := ascii_of_N 47.
(** [strings.TrimRight(s, "/")] *)
Definition trim_slashes (s : string) : string :=
  let u := str_rev s in str_rev (trim_left (String.length u) [String slash ""] u).
(** [strings.Contains(s, sub)] *)
Definition Contains (s sub : string) : bool :=
  match String.index 0 sub s with Some _ => true | None => false end.
(** The texts of the store's sentinel errors. *)
Definition sentinel_text (e : store_error) : option string :=
  match e with
  | ErrNotFound => Some "store: not found" | ErrAlreadyExists => Some "store: already exists"
  | ErrBucketNotEmpty => Some "store: bucket not empty" | ErrInvalidPart => Some "store: invalid multipart part"
  | ErrInvalidPartOrder => Some "store: invalid multipart part order" | _ => None
  end%string.
Definition error_text (c : option store_error) : string := default "" (c ≫= sentinel_text).

Record CoordClient : Type := MkCoordClient
  { cc_baseURL : string; cc_MaxLeaderRedirects : Z; cc_cacheTTL : Z; cc_cache : option (gmap string (ObjectMeta * Z)) }.
Definition NewCoordClient (baseURL : string) : CoordClient := MkCoordClient (trim_slashes baseURL) 0 0 None.
Definition SetLookupCache (ttl : Z) (c : CoordClient) : CoordClient :=
  MkCoordClient (cc_baseURL c) (cc_MaxLeaderRedirects c) ttl (if (0 <? ttl)%Z then Some ∅ else None).
Definition set_base (u : string) (c : CoordClient) : CoordClient :=
  MkCoordClient u (cc_MaxLeaderRedirects c) (cc_cacheTTL c) (cc_cache c).
Definition with_cache (f : gmap string (ObjectMeta * Z) → gmap string (ObjectMeta * Z)) (c : CoordClient) : CoordClient :=
  MkCoordClient (cc_baseURL c) (cc_MaxLeaderRedirects c) (cc_cacheTTL c) (f <$> cc_cache c).

Definition cacheKey (bucket key : string) : string := (bucket ++ String zero key)%string.
Definition cacheGet (bucket key : string) (now : Z) (c : CoordClient) : option ObjectMeta :=
  m ← cc_cache c; '(o, expiry) ← m !! cacheKey bucket key; if (now <? expiry)%Z then Some o else None.
Definition cachePut (bucket key : string) (o : ObjectMeta) (now : Z) (c : CoordClient) : CoordClient :=
  with_cache <[cacheKey bucket key := (o, now + cc_cacheTTL c)%Z]> c.
Definition cacheInvalidate (bucket key : string) (c : CoordClient) : CoordClient :=
  with_cache (delete (cacheKey bucket key)) c.

Section client.
Context {M : Type → Type} {KVM : KV M}.
Context (cnet : nat → exchange).

(** [cw_local] is the edge's own database: it still has the classes of the nodes. *)
Record CoordWorld : Type := MkCoordWorld
  { cw_client : CoordClient; cw_coords : gmap string (@CoordServer M); cw_calls : nat; cw_now : Z; cw_local : @DB M }.
Definition on_client (f : CoordClient → CoordClient) (w : CoordWorld) : CoordWorld :=
  MkCoordWorld (f (cw_client w)) (cw_coords w) (cw_calls w) (cw_now w) (cw_local w).

(** ** One exchange: no answer, or an answer and whether its body can be read *)
Definition send {A} (h : exchange → @CoordServer M → answer A * CoordServer) (target : string) (w : CoordWorld)
    : option (answer A * bool) * CoordWorld :=
  let x := cnet (cw_calls w) in
  let w := MkCoordWorld (cw_client w) (cw_coords w) (S (cw_calls w)) (cw_now w) (cw_local w) in
  match x_fault x, cw_coords w !! target with
  | Unreached, _ | _, None => (None, w)
  | f, Some s =>
      let '(a, s) := h x s in
      let w := MkCoordWorld (cw_client w) (<[target := s]> (cw_coords w)) (cw_calls w) (cw_now w) (cw_local w) in
      match f with
      | AnswerLost => (None, w)
      | BodyCut => (Some (a, false), w)
      | _ => (Some (a, true), w)
      end
  end.

(** ** [do]: follow the leader *)
Fixpoint do_loop {A} (h : exchange → @CoordServer M → answer A * CoordServer) (attempts : nat) (target : string) (w : CoordWorld)
    : option (answer A * bool) * CoordWorld :=
  match attempts with
  | 0 => (None, w)
  | S attempts =>
      match send h target w with
      | (None, w) => (None, w)
      | (Some (Refuse st hint c, ok), w) =>
          let leader := default ""%string hint in
          if negb (st =? 503)%Z then (Some (Refuse st hint c, ok), w)
          else if negb (bool_decide (leader = ""%string)) && negb (bool_decide (leader = target))
          then do_loop h attempts leader (on_client (set_base leader) w)
          else if bool_decide (leader = ""%string) && (0 <? attempts)
          then do_loop h attempts target w
          else (Some (Refuse st hint c, ok), w)
      | r => r
      end
  end.
Definition max_redirects (c : CoordClient) : nat :=
  if (cc_MaxLeaderRedirects c <=? 0)%Z then 1 else Z.to_nat (cc_MaxLeaderRedirects c).
Definition do {A} (h : exchange → @CoordServer M → answer A * CoordServer) (w : CoordWorld) : option (answer A * bool) * CoordWorld :=
  do_loop h (S (max_redirects (cw_client w))) (cc_baseURL (cw_client w)) w.

(** ** The three ways to read an answer; [wants]: the caller decodes the body *)
Definition answered {A} (refused : Z → option store_error → client_error) (wants : bool)
    (h : exchange → @CoordServer M → answer A * CoordServer) (w : CoordWorld) : result client_error A * CoordWorld :=
  match do h w with
  | (None, w) => (Err ClientFailed, w)
  | (Some (Refuse st _ c, ok), w) => (Err (refused st (if ok then c else None)), w)
  | (Some (Answer a, ok), w) => (if wants && negb ok then Err ClientFailed else Ok a, w)
  end.
Definition call {A} (notFoundOK : bool) := @answered A (λ st _, if notFoundOK && (st =? 404)%Z then Sentinel ErrNotFound else ClientFailed).
Definition multipart_refused (st : Z) (c : option store_error) : client_error :=
  if (st =? 404)%Z then Sentinel ErrNotFound
  else if (st =? 409)%Z then Sentinel (if Contains (error_text c) "part order" then ErrInvalidPartOrder else ErrInvalidPart)
  else ClientFailed.
Definition multipartCall {A} := @answered A multipart_refused.
Definition bucket_refused (st : Z) (c : option store_error) : client_error :=
  if (st =? 404)%Z then Sentinel ErrNotFound
  else if (st =? 409)%Z then Sentinel (if Contains (error_text c) "bucket not empty" then ErrBucketNotEmpty else ErrAlreadyExists)
  else ClientFailed.
Definition bucketCall {A} := @answered A bucket_refused.

(** ** The operations *)
Definition PlaceN (key : string) (n : Z) : CoordWorld → result client_error (list string) * CoordWorld :=
  call false true (λ _, handlePlace (Some (key, n))).
(** The answer's body, with the version, is not read. *)
Definition CommitObject (meta : ObjectMeta) (w : CoordWorld) : result client_error unit * CoordWorld :=
  match call false false (λ x, handleCommit (x_acks x) (x_now x) (Some (Some meta))) w with
  | (Err er, w) => (Err er, w)
  | (Ok _, w) => (Ok (), on_client (cacheInvalidate (Bucket meta) (Key meta)) w)
  end.
Definition LookupObject (bucket key : string) (w : CoordWorld) : result client_error ObjectMeta * CoordWorld :=
  match cacheGet bucket key (cw_now w) (cw_client w) with
  | Some o => (Ok o, w)
  | None =>
      match call true true (λ _, handleLookup bucket key) w with
      | (Err er, w) => (Err er, w)
      | (Ok o, w) => (Ok o, on_client (cachePut bucket key o (cw_now w)) w)
      end
  end.
Definition DeleteObject (bucket key : string) (w : CoordWorld) : result client_error unit * CoordWorld :=
  match call true false (λ _, Coord.handleDelete (Some (bucket, key))) w with
  | (Err er, w) => (Err er, w)
  | (Ok _, w) => (Ok (), on_client (cacheInvalidate bucket key) w)
  end.
Definition ListObjectsByPrefix (bucket prefix : string) (limit : Z) (w : CoordWorld)
    : result client_error (list ObjectMeta) * CoordWorld :=
  match call false true (λ _, handleAdminObjects) w with
  | (Err er, w) => (Err er, w)
  | (Ok all, w) => (Ok (prefix_loop bucket prefix limit all []), w)
  end.
Definition Healthz : CoordWorld → result client_error (option (State * string)) * CoordWorld := call false false (λ _, handleHealthz).
Definition ListURLKeys : CoordWorld → result client_error (list URLKeyEntry) * CoordWorld := call false true (λ _, handleAdminListURLKeys).

Definition CreateMultipartUpload (bucket key contentType : string) : CoordWorld → result client_error MultipartUploadMeta * CoordWorld :=
  multipartCall true (λ x, handleMultipartInitiate (x_ids x) (x_now x) (Some (bucket, key, contentType))).
Definition GetMultipartUpload (bucket key uploadID : string) : CoordWorld → result client_error MultipartUploadMeta * CoordWorld :=
  multipartCall true (λ _, handleMultipartGet bucket key uploadID).
Definition PutMultipartPart (bucket key uploadID : string) (part : MultipartPartMeta)
    : CoordWorld → result client_error MultipartPartMeta * CoordWorld :=
  multipartCall false (λ x, handleMultipartPart (x_now x) (Some (bucket, key, uploadID, part))).
Definition ListMultipartParts (bucket key uploadID : string) : CoordWorld → result client_error (list MultipartPartMeta) * CoordWorld :=
  multipartCall true (λ _, handleMultipartParts bucket key uploadID).
Definition CompleteMultipartUpload (bucket key uploadID : string) (parts : list CompletePart)
    : CoordWorld → result client_error (ObjectMeta * list MultipartPartMeta) * CoordWorld :=
  multipartCall true (λ x, handleMultipartComplete (x_now x) (Some (bucket, key, uploadID, parts))).
Definition AbortMultipartUpload (bucket key uploadID : string) : CoordWorld → result client_error MultipartUploadMeta * CoordWorld :=
  multipartCall true (λ _, handleMultipartAbort (Some (bucket, key, uploadID))).
Definition AbortExpiredMultipartUploads (cutoff limit : Z) : CoordWorld → result client_error (list MultipartUploadMeta) * CoordWorld :=
  multipartCall true (λ _, handleMultipartCleanup (Some (cutoff, limit))).

Definition CreateBucket (name : string) : CoordWorld → result client_error BucketMeta * CoordWorld :=
  bucketCall true (λ x, handleCreateBucket (x_now x) (Some name)).
Definition GetBucket (name : string) : CoordWorld → result client_error BucketMeta * CoordWorld :=
  bucketCall true (λ _, handleGetBucket name).
Definition ListBuckets : CoordWorld → result client_error (list BucketMeta) * CoordWorld := bucketCall true (λ _, handleListBuckets).
Definition DeleteBucket (name : string) : CoordWorld → result client_error unit * CoordWorld :=
  bucketCall false (λ _, handleDeleteBucket name).

(** ** The coord daemons as the edge's metadata service *)
Definition client_meta (er : client_error) : meta_error := match er with Sentinel ErrNotFound => MetaNotFound | _ => MetaFailed end.
Definition as_meta {A} (r : result client_error A * CoordWorld) : result meta_error A * CoordWorld :=
  (match r.1 with Ok a => Ok a | Err er => Err (client_meta er) end, r.2).
(** What a lookup may answer now: the cached record, or that of the daemon the client calls. *)
Definition served_record (bucket key : string) (w : CoordWorld) : option ObjectMeta :=
  s ← cw_coords w !! cc_baseURL (cw_client w);
  match GetObject (cs_Store s) bucket key with Ok o => Some o | Err _ => None end.
#[export] Instance proxy_meta : MetaService CoordWorld :=
  {| ms_placeN key n _ w := as_meta (PlaceN key n w);
     ms_classDNs class w := Some (ListRuntimeDNsByClass (cw_local w) class);
     ms_commit o w := as_meta (match CommitObject o w with (Ok _, w) => (Ok o, w) | (Err er, w) => (Err er, w) end);
     ms_lookup bucket key w := as_meta (LookupObject bucket key w);
     ms_delete bucket key w := as_meta (DeleteObject bucket key w);
     ms_stored w bucket key :=
       match cacheGet bucket key (cw_now w) (cw_client w) with Some o => Some o | None => served_record bucket key w end |}.
End client.

(** ** The edge's client of the coord daemons: what it guarantees *)

Section client.
Context {M : Type → Type} {KVM : KV M} {HKV : KVLaws M}.
Context (cnet : nat → exchange).
Implicit Types w : @CoordWorld M.
Notation handler A := (exchange → @CoordServer M → answer A * CoordServer).

(** ** One exchange *)
Lemma send_spec {A} (h : handler A) t w r w' : send cnet h t w = (r, w') →
  cw_client w' = cw_client w ∧ cw_now w' = cw_now w ∧ cw_local w' = cw_local w ∧ cw_calls w' = S (cw_calls w) ∧
  ((cw_coords w' = cw_coords w ∧ r = None) ∨
   ∃ s, cw_coords w !! t = Some s ∧ cw_coords w' = <[t := (h (cnet (cw_calls w)) s).2]> (cw_coords w) ∧
     ∀ a ok, r = Some (a, ok) → a = (h (cnet (cw_calls w)) s).1).
Proof.
  unfold send. cbn zeta. cbn [cw_coords cw_client cw_calls cw_now cw_local]. destruct (cw_coords w !! t) as [s|] eqn:Hs; [|destruct (x_fault _); intros [= <- <-]; naive_solver].
  destruct (h (cnet (cw_calls w)) s) as [a s1] eqn:Hh.
  destruct (x_fault _); intros [= <- <-]; (split_and!; [done..|]); try (by left);
    right; exists s; rewrite Hh; (split_and!; [done..|]); intros; by simplify_eq.
Qed.

(** ** The redirect loop *)
(** What no operation changes. *)
Definition same_client w w' : Prop :=
  cw_now w' = cw_now w ∧ cw_local w' = cw_local w ∧ ∃ u, cw_client w' = set_base u (cw_client w).
Lemma set_base_eta c : set_base (cc_baseURL c) c = c.
Proof. by destruct c. Qed.
Lemma do_loop_spec {A} (h : handler A) n t w r w' :
  do_loop cnet h n t w = (r, w') → cc_baseURL (cw_client w) = t →
  same_client w w' ∧ cw_calls w ≤ cw_calls w' ≤ cw_calls w + n ∧
  ∀ a ok, r = Some (Answer a, ok) → ∃ x s s', h x s = (Answer a, s') ∧ cw_coords w' !! cc_baseURL (cw_client w') = Some s'.
Proof.
  revert t w. induction n as [|n IH]; intros t w H Ht; cbn [do_loop] in H.
  { injection H as <- <-. split; [|split; [lia|done]]. split_and!; [done..|]. exists (cc_baseURL (cw_client w)). by rewrite set_base_eta. }
  destruct (send cnet h t w) as [r1 w1] eqn:Hsend. destruct (send_spec _ _ _ _ _ Hsend) as (Hc & Hn & Hl & Hk & Hr).
  assert (same_client w w1) as Hsame by (split_and!; [done|done|exists t; by rewrite Hc, <- Ht, set_base_eta]).
  assert (∀ t' w2, do_loop cnet h n t' (on_client (set_base t') w1) = (r, w2) → w2 = w' →
    same_client w w' ∧ cw_calls w ≤ cw_calls w' ≤ cw_calls w + S n ∧
    ∀ a ok, r = Some (Answer a, ok) → ∃ x s s', h x s = (Answer a, s') ∧ cw_coords w' !! cc_baseURL (cw_client w') = Some s') as Hnext.
  { intros t' w2 H2 ->. destruct (IH _ _ H2 eq_refl) as ((E1 & E2 & u & E3) & Hk2 & Ha). cbn in *.
    split; [|split; [lia|done]]. split_and!; [congruence..|]. exists u. by rewrite E3, Hc. }
  destruct r1 as [[a ok]|]; [|injection H as <- <-; split; [done|split; [lia|done]]].
  destruct a as [st hint c|a].
  - assert (∀ r2 w2, (r2, w2) = (r, w') → (∀ a ok, r2 ≠ Some (Answer a, ok)) → w2 = w1 →
      same_client w w' ∧ cw_calls w ≤ cw_calls w' ≤ cw_calls w + S n ∧
      ∀ a ok, r = Some (Answer a, ok) → ∃ x s s', h x s = (Answer a, s') ∧ cw_coords w' !! cc_baseURL (cw_client w') = Some s') as Hstop.
    { intros r2 w2 [= -> ->] Hna ->. split_and!; [apply Hsame..|lia|lia|]. intros a0 ok0 Ha. by apply Hna in Ha. }
    destruct (negb (st =? 503)%Z); [by apply (Hstop _ _ H)|].
    destruct (negb _ && negb _) eqn:Hred; [by eapply Hnext|].
    clear Hred; destruct (_ && _); [|by apply (Hstop _ _ H)]. eapply (Hnext t w'); [|done].
    replace (on_client (set_base t) w1) with w1; [done|]. rewrite <- Ht, <- Hc. by destruct w1 as [[]].
  - injection H as <- <-. split; [done|split; [lia|]]. intros a0 ok0 [= <- <-].
    destruct Hr as [[_ ?]|(s & Hs & Hco & Ha)]; [done|]. specialize (Ha _ _ eq_refl).
    exists (cnet (cw_calls w)), s, (h (cnet (cw_calls w)) s).2. rewrite Ha, Hco, Hc, Ht, lookup_insert_eq.
    split; [apply surjective_pairing|done].
Qed.

(** A handler that answers from the store alone. *)
Definition answers_reads {A} (h : handler A) : Prop :=
  ∀ x s, (h x s).2 = s ∧ ∀ hint c, (h x s).1 ≠ Refuse 503 hint c.
Definition with_calls n w : CoordWorld := MkCoordWorld (cw_client w) (cw_coords w) n (cw_now w) (cw_local w).
Lemma do_read {A} (h : handler A) w r w' : answers_reads h → do cnet h w = (r, w') →
  w' = with_calls (cw_calls w') w ∧
  ∀ a ok, r = Some (Answer a, ok) → ∃ x s, cw_coords w !! cc_baseURL (cw_client w) = Some s ∧ (h x s).1 = Answer a.
Proof.
  intros Hh. unfold do. cbn [do_loop]. destruct (send cnet h _ w) as [r1 w1] eqn:Hsend.
  destruct (send_spec _ _ _ _ _ Hsend) as (Hc & Hn & Hl & _ & Hr).
  assert (w1 = with_calls (cw_calls w1) w) as E1.
  { assert (cw_coords w1 = cw_coords w) as Hco; [|destruct w1; cbn in *; by subst].
    destruct Hr as [[? _]|(s & Hs & Hco & _)]; [done|]. rewrite Hco, (proj1 (Hh _ s)). by apply insert_id. }
  destruct r1 as [[a ok]|]; [|by intros [= <- <-]]. destruct Hr as [[_ ?]|(s & Hs & _ & Ha)]; [done|].
  specialize (Ha _ _ eq_refl). destruct a as [st hint c|a].
  - destruct (Z.eqb_spec st 503) as [->|Hst]; [by destruct (proj2 (Hh (cnet (cw_calls w)) s) hint c)|]. by intros [= <- <-].
  - intros [= <- <-]. split; [done|]. intros a0 ok0 [= <- <-]. eauto.
Qed.

(** ** The three ways to read an answer *)
Lemma answered_ok {A} refused wants (h : handler A) w a w' : answered cnet refused wants h w = (Ok a, w') →
  ∃ ok, do cnet h w = (Some (Answer a, ok), w').
Proof.
  unfold answered. destruct (do cnet h w) as [[[[st hint c|a0] ok]|] w1]; intros [= H1 H2]; try done.
  exists ok. destruct (wants && negb ok); simplify_eq. done.
Qed.
Lemma answered_read {A} refused wants (h : handler A) w r w' : answers_reads h → answered cnet refused wants h w = (r, w') →
  w' = with_calls (cw_calls w') w ∧
  ∀ a, r = Ok a → ∃ x s, cw_coords w !! cc_baseURL (cw_client w) = Some s ∧ (h x s).1 = Answer a.
Proof.
  intros Hh Ha. assert ((do cnet h w).2 = w') as Hw.
  { unfold answered in Ha. destruct (do cnet h w) as [[[[st hint c|a0] ok]|] w1]; by injection Ha as <- <-. }
  destruct (do cnet h w) as [a w1] eqn:Hdo. cbn in Hw. subst w1. destruct (do_read _ _ _ _ Hh Hdo) as [E Hok].
  split; [done|]. intros a0 ->. apply answered_ok in Ha as (ok & Hdo'). rewrite Hdo in Hdo'. injection Hdo' as ->. by eapply Hok.
Qed.
Lemma lookup_reads b k : answers_reads (λ _, @handleLookup M KVM b k).
Proof.
  intros x s. unfold handleLookup, Coord.read. destruct (_ || _); [by split|].
  destruct (GetObject _ _ _) as [o|er]; [by split|]. split; [done|]. intros hint c. by destruct er.
Qed.
Lemma place_reads key n : answers_reads (λ _, @handlePlace M (Some (key, n))).
Proof. intros x s. unfold handlePlace, decoded. destruct (_ || _); by split. Qed.
Lemma list_reads : answers_reads (λ _, @handleAdminObjects M KVM).
Proof. intros x s. unfold handleAdminObjects, Coord.read. by destruct (ListObjects _); split. Qed.

(** ** The cache *)
Lemma cacheGet_put_some b k o now c :
  cacheGet b k now (cachePut b k o now c) = Some o ∨ cacheGet b k now (cachePut b k o now c) = None.
Proof.
  unfold cacheGet, cachePut, with_cache. cbn [cc_cache]. destruct (cc_cache c) as [m|]; [|by right].
  cbn. rewrite lookup_insert_eq. cbn. destruct (_ <? _)%Z; auto.
Qed.
Lemma cacheGet_invalidate b k now c : cacheGet b k now (cacheInvalidate b k c) = None.
Proof. unfold cacheGet, cacheInvalidate, with_cache. cbn [cc_cache]. destruct (cc_cache c); [|done]. cbn. by rewrite lookup_delete_eq. Qed.

(** ** What a lookup may return *)
Notation stored_at b k w := (ms_stored (MetaService := proxy_meta cnet) w b k).
Lemma stored_unfold b k w : stored_at b k w =
  match cacheGet b k (cw_now w) (cw_client w) with Some o => Some o | None => served_record b k w end.
Proof. done. Qed.
Lemma stored_calls b k n w : stored_at b k (with_calls n w) = stored_at b k w.
Proof. done. Qed.
Lemma commit_client meta w w' : CommitObject cnet meta w = (Ok (), w') →
  cacheGet (Bucket meta) (Key meta) (cw_now w') (cw_client w') = None ∧
  ∃ os, served_record (Bucket meta) (Key meta) w' = Some os ∧ committed meta os.
Proof.
  unfold CommitObject. destruct (call _ _ _ _ w) as [[v|er] w1] eqn:Hc; [|done]. intros [= <-].
  split; [apply cacheGet_invalidate|]. apply answered_ok in Hc as (ok & Hdo).
  destruct (do_loop_spec _ _ _ _ _ _ Hdo eq_refl) as (_ & _ & Ha). destruct (Ha v ok eq_refl) as (x & s & s' & Hh & Hs).
  pose proof (handleCommit_spec _ _ _ _ _ _ Hh) as (o' & db & Hp & _ & -> & _).
  destruct (putObject_committed _ _ _ _ _ Hp) as (Hg & n & t & ->).
  unfold served_record. cbn [on_client cw_coords cw_client cacheInvalidate with_cache cc_baseURL]. rewrite Hs. cbn.
  rewrite Hg. eexists. split; [done|]. by exists n, t.
Qed.
Lemma lookup_client b k w r w' : LookupObject cnet b k w = (r, w') →
  stored_at b k w' = stored_at b k w ∧ (∀ o, r = Ok o → stored_at b k w = Some o) ∧
  cw_now w' = cw_now w ∧ cw_coords w' = cw_coords w ∧
  (cw_client w' = cw_client w ∨ ∃ o, r = Ok o ∧ cw_client w' = cachePut b k o (cw_now w) (cw_client w)).
Proof.
  unfold LookupObject. destruct (cacheGet b k (cw_now w) (cw_client w)) as [o|] eqn:Hg.
  { intros [= <- <-]. split_and!; try done; [|by left]. intros o' [= <-]. by rewrite stored_unfold, Hg. }
  destruct (call _ _ _ _ w) as [r1 w1] eqn:Hc. destruct (answered_read _ _ _ _ _ _ (lookup_reads b k) Hc) as [E Hok].
  destruct r1 as [o|er]; intros [= <- <-].
  - destruct (Hok o eq_refl) as (x & s & Hs & Hh).
    assert (served_record b k w = Some o) as Hsr.
    { unfold served_record. rewrite Hs. cbn. unfold handleLookup, Coord.read in Hh. destruct (_ || _); [done|].
      destruct (GetObject _ _ _) as [o'|]; [|done]. by injection Hh as ->. }
    rewrite !stored_unfold, Hg, E. cbn [on_client cw_now cw_client cw_coords with_calls].
    assert (served_record b k (on_client (cachePut b k o (cw_now w)) (with_calls (cw_calls w1) w)) = Some o) as -> by done.
    split_and!; try done; [by destruct (cacheGet_put_some b k o (cw_now w) (cw_client w)) as [->| ->]|by intros ? [= <-]|].
    right. by exists o.
  - rewrite E. split_and!; try done. by left.
Qed.
Lemma delete_answer b k s u s' : Coord.handleDelete (M := M) (Some (b, k)) s = (Answer u, s') → GetObject (cs_Store s') b k = Err ErrNotFound.
Proof.
  unfold Coord.handleDelete, requireLeader, decoded, refuse. intros H.
  assert (mutate plain_status (deleteObjectInternal b k) s = (Answer u, s')) as Hm.
  { destruct (cs_Elector s) as [e|]; [destruct (IsLeader e)|]; try done; by destruct (_ || _). }
  unfold mutate, deleteObjectInternal, Update in Hm. destruct (kv_get (objects (cs_Store s)) (objKey b k)); [|done].
  injection Hm as _ <-. unfold GetObject, get_decoded. simpl. by rewrite get_delete_eq.
Qed.
#[export] Instance proxy_meta_laws : @MetaServiceLaws (@CoordWorld M) (proxy_meta cnet).
Proof.
  split.
  - intros o w o' w'. simpl. unfold as_meta. destruct (CommitObject cnet o w) as [[[]|er] w1] eqn:Hc; intros [= <- <-].
    destruct (commit_client _ _ _ Hc) as (Hg & os & Hs & Ho). exists os. cbn [snd]. by rewrite Hg.
  - intros b k w r w'. simpl. unfold as_meta. destruct (LookupObject cnet b k w) as [r1 w1] eqn:Hl. intros [= <- <-].
    destruct (lookup_client _ _ _ _ _ Hl) as (H1 & H2 & _). split; [exact H1|]. destruct r1 as [o|er]; [by apply H2|done].
  - intros key n cl w r w'. simpl. unfold as_meta. destruct (PlaceN cnet key n w) as [r1 w1] eqn:Hp. intros [= <- <-] b k.
    destruct (answered_read _ _ _ _ _ _ (place_reads key n) Hp) as [E _]. cbn [snd]. by rewrite E.
  - intros b k w w'. simpl. unfold as_meta. destruct (DeleteObject cnet b k w) as [[[]|er] w1] eqn:Hd; intros [= <-].
    cbn [snd]. unfold DeleteObject in Hd. destruct (call _ _ _ _ w) as [[v|er] w2] eqn:Hc; [|done]. injection Hd as <-.
    unfold on_client. cbn [cw_client cw_now]. rewrite cacheGet_invalidate. apply answered_ok in Hc as (ok & Hdo).
    destruct (do_loop_spec _ _ _ _ _ _ Hdo eq_refl) as (_ & _ & Ha). destruct (Ha v ok eq_refl) as (x & s & s' & Hh & Hs).
    unfold served_record. cbn [cw_coords cw_client cacheInvalidate with_cache cc_baseURL]. rewrite Hs. cbn.
    by rewrite (delete_answer _ _ _ _ _ Hh).
Qed.
End client.
