(* ===== verification/ClientTheorems.v ===== *)
(** * The edge's client of the coord daemons: its contract (CoordClient.v) *)
From S2P Require Import Prelude GF GoLib Placement Kv Meta Store StoreProps Coordinator Election Coord.
From S2P Require Import CoordTheorems Edge EdgeProps EdgeLocal CoordClient.
From Stdlib Require Import Strings.Ascii.

Section theorems.
Context {M : Type → Type} {KVM : KV M} {HKV : KVLaws M}.
Context (cnet : nat → exchange).
Implicit Types w : @CoordWorld M.
Notation handler A := (exchange → @CoordServer M → answer A * CoordServer).

(** ** Read your writes *)
Definition no_nul (s : string) : Prop := zero ∉ chars s.
Lemma cacheKey_inj b k b' k' : no_nul b → no_nul b' → cacheKey b k = cacheKey b' k' → b = b' ∧ k = k'.
Proof.
  unfold no_nul, cacheKey. revert b'. induction b as [|c b IH]; intros [|c' b'] Hb Hb' H; injection H.
  - by intros <-.
  - intros _ <-. destruct Hb'. by left.
  - intros _ ->. destruct Hb. by left.
  - intros Ht ->. destruct (IH b') as [-> ->]; [intros ?; apply Hb; by right|intros ?; apply Hb'; by right|done|done].
Qed.

(** What the client does between two writes: lookups, placements, listings; and time passes. *)
Inductive client_read w : @CoordWorld M → Prop :=
  | reads_lookup b k r w' : no_nul b → LookupObject cnet b k w = (r, w') → client_read w w'
  | reads_place key n r w' : PlaceN cnet key n w = (r, w') → client_read w w'
  | reads_list b p l r w' : ListObjectsByPrefix cnet b p l w = (r, w') → client_read w w'
  | reads_wait t : (cw_now w ≤ t)%Z → client_read w (MkCoordWorld (cw_client w) (cw_coords w) (cw_calls w) t (cw_local w)).

(** The daemon the client calls has [os], and so has the cache if it has anything. *)
Definition holds_record (b k : string) (os : ObjectMeta) w : Prop :=
  served_record b k w = Some os ∧
  ∀ m o e, cc_cache (cw_client w) = Some m → m !! cacheKey b k = Some (o, e) → o = os.
Lemma holds_lookup b k os w r w' : holds_record b k os w → LookupObject cnet b k w = (r, w') → ∀ o, r = Ok o → o = os.
Proof.
  intros [Hs Hm] Hl o ->. destruct (lookup_client _ _ _ _ _ _ Hl) as (_ & Ho & _). specialize (Ho o eq_refl).
  rewrite stored_unfold in Ho. destruct (cacheGet b k _ _) as [o'|] eqn:Hg; [|congruence]. injection Ho as ->.
  unfold cacheGet in Hg. destruct (cc_cache (cw_client w)) as [m|] eqn:Hc; [|done]. cbn in Hg.
  destruct (m !! cacheKey b k) as [[o1 e]|] eqn:He; [|done]. cbn in Hg. destruct (_ <? _)%Z; [|done]. injection Hg as ->.
  by eapply Hm.
Qed.
Lemma holds_read b k os w w' : no_nul b → holds_record b k os w → client_read w w' → holds_record b k os w'.
Proof.
  intros Hb Hh [b' k' r w1 Hb' Hl|key n r w1 Hp|b' p l r w1 Hl|t Ht].
  - destruct (lookup_client _ _ _ _ _ _ Hl) as (_ & _ & _ & Hco & Hc). pose proof Hh as [Hs Hm]. destruct Hc as [Hc|(o & -> & Hc)].
    + split; [by unfold served_record; rewrite Hco, Hc|by rewrite Hc].
    + split; [by unfold served_record; rewrite Hco, Hc|]. rewrite Hc. intros m o' e. cbn.
      destruct (cc_cache (cw_client w)) as [m0|] eqn:Hm0; [|done]. cbn. intros [= <-].
      destruct (decide (cacheKey b k = cacheKey b' k')) as [E|Hne]; [|rewrite lookup_insert_ne by done; by apply Hm].
      rewrite E, lookup_insert_eq. intros [= <- _]. apply cacheKey_inj in E as [<- <-]; [|done|done].
      by apply (holds_lookup b k os w (Ok o) w1).
  - destruct (answered_read _ _ _ _ _ _ _ (place_reads key n) Hp) as [-> _]. done.
  - unfold ListObjectsByPrefix in Hl. destruct (call _ _ _ _ w) as [r0 w0] eqn:Hc.
    destruct (answered_read _ _ _ _ _ _ _ list_reads Hc) as [E _]. assert (w1 = w0) as -> by (destruct r0; by injection Hl).
    by rewrite E.
  - done.
Qed.


(** ** Following the leader *)
Definition leads s : Prop := ∀ e, cs_Elector (M := M) s = Some e → IsLeader e = true.
Lemma requireLeader_leads {A} (h : @CoordServer M → answer A * CoordServer) s : leads s → requireLeader h s = h s.
Proof. intros Hl. unfold requireLeader. destruct (cs_Elector s) as [e|] eqn:He; [|done]. by rewrite (Hl e He). Qed.
(** One exchange that is served. *)
Lemma send_served {A} (h : handler A) t w s : cw_coords w !! t = Some s → x_fault (cnet (cw_calls w)) = Served →
  send cnet h t w = (Some ((h (cnet (cw_calls w)) s).1, true),
    MkCoordWorld (cw_client w) (<[t := (h (cnet (cw_calls w)) s).2]> (cw_coords w)) (S (cw_calls w)) (cw_now w) (cw_local w)).
Proof. intros Hs Hx. unfold send. cbn zeta. rewrite Hx. cbn [cw_coords]. rewrite Hs. by destruct (h _ s). Qed.

(** The world after the daemon at [t] has answered from its state [s]. *)
Definition after (t : string) (s' : @CoordServer M) n w : CoordWorld :=
  MkCoordWorld (set_base t (cw_client w)) (<[t := s']> (cw_coords w)) n (cw_now w) (cw_local w).
(** [t] is where the leader is, in the eyes of the daemon the client calls. *)
Definition leader_at (t : string) (s : @CoordServer M) (hops : nat) w : Prop :=
  cw_coords w !! t = Some s ∧ leads s ∧
  match hops with
  | 0 => cc_baseURL (cw_client w) = t
  | _ => ∃ s0 e, cw_coords w !! cc_baseURL (cw_client w) = Some s0 ∧ cs_Elector s0 = Some e ∧ IsLeader e = false ∧
           LeaderURL e = t ∧ t ≠ ""%string ∧ t ≠ cc_baseURL (cw_client w)
  end.
Lemma do_leader {A} (g : handler A) t s hops w :
  leader_at t s hops w → hops ≤ 1 → (∀ n, n ≤ hops → x_fault (cnet (cw_calls w + n)) = Served) →
  let x := cnet (cw_calls w + hops) in
  (∀ st hint c, (g x s).1 = Refuse st hint c → st ≠ 503%Z) →
  do cnet (λ x, requireLeader (g x)) w = (Some ((g x s).1, true), after t (g x s).2 (S (cw_calls w + hops)) w).
Proof.
  intros (Hs & Hl & Hh) Hle Hx x Hst. unfold do.
  assert (∀ n w, cw_coords w !! t = Some s → cnet (cw_calls w) = x → cc_baseURL (cw_client w) = t →
    do_loop cnet (λ x, requireLeader (g x)) (S n) t w = (Some ((g x s).1, true), after t (g x s).2 (S (cw_calls w)) w)) as Hlast.
  { intros n w0 Hs0 Hx0 Ht. cbn [do_loop]. rewrite (send_served _ t w0 s) by (rewrite ?Hx0; try apply Hx; done).
    rewrite Hx0, !requireLeader_leads by done. unfold after. rewrite <- Ht, set_base_eta.
    destruct (g x s) as [[st hint c|a] s'] eqn:Hg; [|done]. cbn [fst snd] in *. specialize (Hst st hint c eq_refl).
    by rewrite (proj2 (Z.eqb_neq _ _) Hst). }
  destruct hops as [|[|]]; [| |lia].
  - rewrite Hh. rewrite Hlast by (try done; by unfold x; rewrite Nat.add_0_r). by rewrite Nat.add_0_r.
  - destruct Hh as (s0 & e & Hs0 & He & Hnl & Hu & Hne & Hnb). set (u := cc_baseURL (cw_client w)) in *.
    assert (∃ n, max_redirects (cw_client w) = S n) as [n ->].
    { unfold max_redirects. destruct (Z.leb_spec (cc_MaxLeaderRedirects (cw_client w)) 0); [by exists 0|].
      exists (Z.to_nat (cc_MaxLeaderRedirects (cw_client w)) - 1). lia. }
    assert (requireLeader (g (cnet (cw_calls w))) s0 = (Refuse 503 (Some t) None, s0)) as Hr
      by (unfold requireLeader; rewrite He, Hnl, Hu; by rewrite bool_decide_eq_false_2).
    remember (S n) as k eqn:Hk. cbn [do_loop].
    rewrite (send_served _ u w s0) by (try done; specialize (Hx 0); rewrite Nat.add_0_r in Hx; apply Hx; lia).
    rewrite Hr. cbn [fst snd default from_option id]. rewrite !bool_decide_eq_false_2 by done. cbn [negb andb Z.eqb Pos.eqb]. subst k.
    rewrite Hlast; [|cbn; by rewrite lookup_insert_ne|cbn; by rewrite <- Nat.add_1_r|done].
    cbn. rewrite Nat.add_1_r. unfold after. cbn. by rewrite (insert_id (cw_coords w) u).
Qed.

(** A commit finds the leader.  When the daemon the client calls leads, or follows and
    names the leader, and the exchanges are served, the client's commit is the leader's: it
    succeeds exactly when the leader's handler does, only the leader's state changes, the
    client calls the leader from then on, and forgets what it had cached of the object. *)
Theorem commit_follows_leader meta t s hops w :
  leader_at t s hops w → hops ≤ 1 → (∀ n, n ≤ hops → x_fault (cnet (cw_calls w + n)) = Served) →
  let x := cnet (cw_calls w + hops) in
  let '(r, s') := handleCommit (x_acks x) (x_now x) (Some (Some meta)) s in
  CommitObject cnet meta w =
    match r with
    | Answer _ => (Ok (), on_client (cacheInvalidate (Bucket meta) (Key meta)) (after t s' (S (cw_calls w + hops)) w))
    | Refuse _ _ _ => (Err ClientFailed, after t s' (S (cw_calls w + hops)) w)
    end.
Proof.
  intros Hl Hh Hx x. pose proof Hl as (_ & Hls & _). unfold CommitObject, call, answered, handleCommit.
  rewrite (do_leader _ t s hops w Hl Hh Hx).
  - rewrite requireLeader_leads by done. fold x. by destruct (decoded _ _ s) as [[st hint c|v] s'].
  - intros st hint c. unfold decoded, refuse. repeat case_match; simplify_eq/=; try done; by intros [= <- _ _].
Qed.

(** ** Errors of the store across the wire *)
Lemma answered_mutate {A} refused status (tx : exchange → @DB M → result store_error A * DB) t s hops w :
  leader_at t s hops w → hops ≤ 1 → (∀ n, n ≤ hops → x_fault (cnet (cw_calls w + n)) = Served) →
  (∀ er, status er ≠ 503%Z) → ∀ wants g,
  (∀ x, g x s = mutate status (tx x) s) →
  let x := cnet (cw_calls w + hops) in
  answered cnet refused wants (λ x, requireLeader (g x)) w =
    (match (tx x (cs_Store s)).1 with Ok a => Ok a | Err er => Err (refused (status er) (Some er)) end,
     after t (set_store s (tx x (cs_Store s)).2) (S (cw_calls w + hops)) w).
Proof.
  intros Hl Hh Hx Hst wants g Hg x. unfold answered. rewrite (do_leader g t s hops w Hl Hh Hx).
  - fold x. rewrite Hg. unfold mutate. destruct (tx x (cs_Store s)) as [[a|er] db]; [|done]. cbn. by rewrite andb_false_r.
  - fold x. rewrite Hg. unfold mutate. intros st hint c. destruct (tx x (cs_Store s)) as [[a|er] db]; [done|]. by intros [= <- _ _].
Qed.
Definition bucket_view (er : store_error) : client_error :=
  match er with ErrNotFound | ErrAlreadyExists | ErrBucketNotEmpty => Sentinel er | _ => ClientFailed end.
Definition multipart_view (er : store_error) : client_error :=
  match er with ErrNotFound | ErrInvalidPart | ErrInvalidPartOrder => Sentinel er | _ => ClientFailed end.
Definition through {A} (view : store_error → client_error) (r : result store_error A * @DB M) t s n w : result client_error A * CoordWorld :=
  (match r.1 with Ok a => Ok a | Err er => Err (view er) end, after t (set_store s r.2) n w).
Lemma bucket_view_eq er : bucket_refused (writeStoreBucketErr er) (Some er) = bucket_view er.
Proof. by destruct er. Qed.
Lemma multipart_view_eq er : multipart_refused (writeStoreMultipartErr er) (Some er) = multipart_view er.
Proof. by destruct er. Qed.

End theorems.

(** ** Findings *)
Section findings.
Context {M : Type → Type} {KVM : KV M} {HKV : KVLaws M}.
Context (cnet : nat → exchange).
(** Completing an upload leaves the object's cached record in place: the client goes on
    answering the object that was replaced. *)
Lemma complete_keeps_cache b k u ps (w w1 : @CoordWorld M) r o :
  CompleteMultipartUpload cnet b k u ps w = (Ok r, w1) → cacheGet b k (cw_now w) (cw_client w) = Some o →
  LookupObject cnet b k w1 = (Ok o, w1).
Proof.
  intros Hc Hg. apply answered_ok in Hc as (ok & Hdo).
  destruct (do_loop_spec _ _ _ _ _ _ _ Hdo eq_refl) as ((Hn & _ & v & Hv) & _).
  unfold LookupObject. rewrite Hn, Hv. unfold cacheGet in *. cbn [set_base cc_cache]. by rewrite Hg.
Qed.
End findings.
(** The cache key separates bucket and key by a byte either may contain. *)
Lemma cache_keys_collide : cacheKey (String "a" (String zero "b")) "c" = cacheKey "a" (String "b" (String zero "c")).
Proof. reflexivity. Qed.

(** ** Witnesses *)
Definition w_cnet (n : nat) : exchange := MkExchange Served 9 2 ids1.
Definition w_client : CoordClient := SetLookupCache 5 (NewCoordClient "http://b/").
Definition w_at : @CoordServer (gmap string) := w_replica w_leader.
Definition w_cw : @CoordWorld (gmap string) :=
  MkCoordWorld w_client {["http://b" := w_replica (set_leader w_follower "a"); "http://a" := w_at]} 0 100 empty_db.
Lemma w_leader_at : leader_at "http://a" w_at 1 w_cw.
Proof.
  split_and!; [reflexivity|by intros e [= <-]|]. exists (w_replica (set_leader w_follower "a")), (set_leader w_follower "a").
  split_and!; reflexivity || discriminate.
Qed.
Lemma w_served n : x_fault (w_cnet n) = Served.
Proof. reflexivity. Qed.
Lemma commit_follows_leader_witness : (CommitObject w_cnet obj1 w_cw).1 = Ok ().
Proof.
  pose proof (commit_follows_leader w_cnet obj1 "http://a" w_at 1 w_cw w_leader_at (le_n 1) (λ n _, w_served _)) as H.
  assert (∃ s', handleCommit 2 9 (Some (Some obj1)) w_at = (Answer 1%Z, s')) as [s' Hc] by (eexists; reflexivity).
  cbv zeta in H. change (w_cnet (cw_calls w_cw + 1)) with (MkExchange Served 9 2 ids1) in H. cbn [x_acks x_now] in H.
  rewrite Hc in H. by rewrite H.
Defined.
Definition w_cw1 : @CoordWorld (gmap string) := (CommitObject w_cnet obj1 w_cw).2.
Lemma w_committed : CommitObject w_cnet obj1 w_cw = (Ok (), w_cw1).
Proof. reflexivity. Qed.
Lemma w_found : ∃ o w3, LookupObject w_cnet "photos" "cat.jpg" w_cw1 = (Ok o, w3).
Proof. eexists _, _. reflexivity. Qed.
