(* ===== verification/S3Sig.v ===== *)
(** * AWS signature version 4: internal/s3api/sigv4.go and the error values of errors.go

    A request is what the verifier reads of it: the method, the path as URL.EscapedPath
    gives it, the raw query, the host and the headers by lower-case name.  The body is not
    read.  Times are nanoseconds since the Unix epoch. *)
From S2P Require Import Prelude GF GoLib.
From Stdlib Require Import Strings.Byte Strings.Ascii.
Local Open Scope string_scope.

(** ** Errors *)
Inductive s3_code : Type :=
  | CodeAccessDenied | CodeAuthorizationHeaderMalformed | CodeBucketAlreadyOwnedByYou | CodeBucketNotEmpty
  | CodeInternalError | CodeInvalidArgument | CodeInvalidBucketName | CodeInvalidPart | CodeInvalidPartOrder
  | CodeInvalidRequest | CodeMalformedXML | CodeMissingSecurityHeader | CodeNoSuchBucket | CodeNoSuchKey
  | CodeNoSuchUpload | CodeNotImplemented | CodeSignatureDoesNotMatch.
Record s3_error : Type := MkS3Error { Status : Z; Code : s3_code }.
Definition NewError (status : Z) (code : s3_code) : s3_error :=
  MkS3Error (if (status =? 0)%Z then 500%Z else status) code.

(** ** Requests and credentials *)
Record s3_request : Type := MkS3Request
  { r_Method : string; r_EscapedPath : string; r_RawQuery : string; r_Host : string;
    r_Header : gmap string (list string) }.
Definition header_values (r : s3_request) (name : string) : list string := default [] (r_Header r !! name).
Definition header_get (r : s3_request) (name : string) : string :=
  match header_values r name with v :: _ => v | [] => "" end.
Record AuthResult : Type := MkAuth
  { AccessKey : string; Region : string; Service : string; SignedHeaders : list string; RequestTime : Z }.

(** ** net/url *)
Fixpoint path_unescape (s : string) : option string :=
  match s with
  | "" => Some ""
  | String c s =>
      if bool_decide (c = "%"%char) then
        match s with
        | String h (String l s) =>
            match unhex h, unhex l with
            | Some h, Some l => String (ascii_of_N (16 * h + l)) <$> path_unescape s
            | _, _ => None
            end
        | _ => None
        end
      else String c <$> path_unescape s
  end.
Definition pathUnescape (s : string) : string := default s (path_unescape s).
Definition upper_hex (n : N) : ascii := ascii_of_N (if (n <? 10)%N then 48 + n else 55 + n).
(** The bytes [url.QueryEscape] leaves alone. *)
Definition unreserved (c : ascii) : bool :=
  let n := N_of_ascii c in
  ((48 <=? n) && (n <=? 57) || (65 <=? n) && (n <=? 90) || (97 <=? n) && (n <=? 122)
   || (n =? 45) || (n =? 46) || (n =? 95) || (n =? 126))%N.
Fixpoint QueryEscape (s : string) : string :=
  match s with
  | "" => ""
  | String c s =>
      if unreserved c then String c (QueryEscape s)
      else if bool_decide (c = " "%char) then String "+" (QueryEscape s)
      else String "%" (String (upper_hex (N_of_ascii c / 16)) (String (upper_hex (N_of_ascii c mod 16)) (QueryEscape s)))
  end.
(** [strings.ReplaceAll(s, "+", "%20")] *)
Fixpoint replace_plus (s : string) : string :=
  match s with
  | "" => ""
  | String c s => if bool_decide (c = "+"%char) then "%20" ++ replace_plus s else String c (replace_plus s)
  end.
Definition sigv4Escape (s : string) : string := replace_plus (QueryEscape s).

(** ** The canonical request *)
Definition canonicalURI (escapedPath : string) : string :=
  if bool_decide (escapedPath = "") then "/"
  else match path_unescape escapedPath with
       | None => escapedPath
       | Some decoded => join (sigv4Escape <$> split decoded "/") "/"
       end.
Definition query_pair (part : string) : string * string :=
  let '(key, value) := match cut part "=" with Some kv => kv | None => (part, "") end in
  (sigv4Escape (pathUnescape key), sigv4Escape (pathUnescape value)).
Definition pair_le (a b : string * string) : Prop :=
  if decide (a.1 = b.1) then String.le a.2 b.2 else String.le a.1 b.1.
#[export] Instance pair_le_dec : RelDecision pair_le.
Proof. intros a b. unfold pair_le. destruct (decide _); apply _. Defined.
Definition query_parts (rawQuery : string) : list string := filter (λ p, p ≠ "") (split rawQuery "&").
Definition canonicalQuery (rawQuery : string) : string :=
  if bool_decide (rawQuery = "") then ""
  else join ((λ p, p.1 ++ "=" ++ p.2) <$> merge_sort pair_le (query_pair <$> query_parts rawQuery)) "&".

Definition single_spaced (v : string) : string := join (Fields v) " ".
Definition canonicalHeaderValue (values : list string) : string := join (single_spaced <$> values) ",".
Definition header_value (r : s3_request) (name : string) : string :=
  if bool_decide (name = "host") then r_Host r else canonicalHeaderValue (header_values r name).
Definition newline : string := String (ascii_of_N 10) "".
Fixpoint header_lines (r : s3_request) (names : list string) : result s3_error (list string) :=
  match names with
  | [] => Ok []
  | name :: names =>
      let value := header_value r name in
      if bool_decide (value = "") then Err (NewError 400 CodeMissingSecurityHeader)
      else lines ←? header_lines r names; Ok ((name ++ ":" ++ single_spaced value) :: lines)
  end.
Definition canonicalHeaders (r : s3_request) (signedHeaders : list string) : result s3_error (string * string) :=
  if bool_decide (signedHeaders = []) then Err (NewError 400 CodeAuthorizationHeaderMalformed)
  else
    let headers := sort_strings signedHeaders in
    lines ←? header_lines r headers;
    Ok (join lines newline ++ newline, join headers ";").
Definition canonicalRequest (r : s3_request) (signedHeaders : list string) (payloadHash : string) : result s3_error string :=
  '(headers, signed) ←? canonicalHeaders r signedHeaders;
  Ok (join [r_Method r; canonicalURI (r_EscapedPath r); canonicalQuery (r_RawQuery r); headers; signed; payloadHash] newline).

(** ** The signature *)
Definition algorithmAWS4HMACSHA256 : string := "AWS4-HMAC-SHA256".
Definition stringToSign (amzDate scope canonical : string) : string :=
  join [algorithmAWS4HMACSHA256; amzDate; scope; sha256_hex (bytes_of canonical)] newline.
Definition hmacSHA256 (key : list byte) (data : string) : list byte := hmac_sha256 key (bytes_of data).
Definition signingKey (secret date region service : string) : list byte :=
  hmacSHA256 (hmacSHA256 (hmacSHA256 (hmacSHA256 (bytes_of ("AWS4" ++ secret)) date) region) service) "aws4_request".
Definition signature_of (secret date region service sts : string) : string :=
  hex_encode (hmac_sha256 (signingKey secret date region service) (bytes_of sts)).

(** ** The Authorization header *)
Record parsedAuthorization : Type := MkParsed
  { algorithm : string; accessKey : string; scope : list string; signedHeaders : list string; signature : string }.
Definition malformed : s3_error := NewError 400 CodeAuthorizationHeaderMalformed.
Fixpoint auth_fields (parts : list string) (fields : gmap string string) : option (gmap string string) :=
  match parts with
  | [] => Some fields
  | p :: parts => match cut (TrimSpace p) "=" with Some (k, v) => auth_fields parts (<[k := v]> fields) | None => None end
  end.
Definition parseAuthorization (auth : string) : result s3_error parsedAuthorization :=
  match cut (TrimSpace auth) " " with
  | None => Err malformed
  | Some (algo, rest) =>
      match auth_fields (split rest ",") ∅ with
      | None => Err malformed
      | Some fields =>
          let credential := default "" (fields !! "Credential") in
          let signedHeaders := default "" (fields !! "SignedHeaders") in
          let signature := default "" (fields !! "Signature") in
          if bool_decide (credential = "") || bool_decide (signedHeaders = "") || bool_decide (signature = "") then Err malformed
          else match cut credential "/" with
               | None => Err malformed
               | Some (accessKey, scopeRaw) =>
                   if bool_decide (accessKey = "") then Err malformed
                   else Ok (MkParsed algo accessKey (split scopeRaw "/") (sort_strings (split (ToLower signedHeaders) ";")) signature)
               end
      end
  end.

(** ** time.Parse and time.Format for the layouts 20060102T150405Z and 20060102 *)
Record date : Type := MkDate { year : Z; month : Z; day : Z }.
Definition digit_val (c : ascii) : option Z :=
  let n := Z.of_N (N_of_ascii c) in if ((48 <=? n) && (n <=? 57))%Z then Some (n - 48)%Z else None.
(** [getnum]: two digits, or one when [fixed] is false. *)
Definition getnum (l : list ascii) (fixed : bool) : option (Z * list ascii) :=
  match l with
  | [] => None
  | a :: l =>
      x ← digit_val a;
      match l with
      | b :: l' => match digit_val b with
                   | Some y => Some (x * 10 + y, l')%Z
                   | None => if fixed then None else Some (x, l)
                   end
      | [] => if fixed then None else Some (x, [])
      end
  end.
Definition getyear (l : list ascii) : option (Z * list ascii) :=
  '(a, l) ← getnum l true; '(b, l) ← getnum l true; Some (a * 100 + b, l)%Z.
Definition is_leap (y : Z) : bool := ((y mod 4 =? 0) && negb (y mod 100 =? 0) || (y mod 400 =? 0))%Z.
Definition daysIn (m y : Z) : Z :=
  (if m =? 2 then if is_leap y then 29 else 28
   else if (m =? 4) || (m =? 6) || (m =? 9) || (m =? 11) then 30 else 31)%Z.
Definition date_ok (d : date) : bool :=
  ((1 <=? month d) && (month d <=? 12) && (1 <=? day d) && (day d <=? daysIn (month d) (year d)))%Z.
Definition parse_date (l : list ascii) : option (date * list ascii) :=
  '(y, l) ← getyear l; '(m, l) ← getnum l true; '(d, l) ← getnum l true; Some (MkDate y m d, l).

(** A fraction of a second after the seconds is accepted though the layout has none:
    nanoseconds, of which nine digits count. *)
Fixpoint frac_digits (l : list ascii) : list Z * list ascii :=
  match l with
  | [] => ([], [])
  | c :: l' => match digit_val c with
               | Some x => let '(ds, r) := frac_digits l' in (x :: ds, r)
               | None => ([], l)
               end
  end.
Fixpoint nanos (ds : list Z) (n : nat) : Z :=
  match n, ds with
  | 0, _ | _, [] => 0%Z
  | S n, x :: ds => (x * 10 ^ Z.of_nat n + nanos ds n)%Z
  end.
Definition fraction (l : list ascii) : Z * list ascii :=
  match l with
  | c :: l' =>
      if bool_decide (c = "."%char) || bool_decide (c = ","%char) then
        match frac_digits l' with
        | ([], _) => (0%Z, l)
        | (ds, r) => (nanos ds 9, r)
        end
      else (0%Z, l)
  | [] => (0%Z, l)
  end.

Definition month_days (m : Z) (leap : bool) : Z :=
  (nth (Z.to_nat (m - 1)) [0; 31; 59; 90; 120; 151; 181; 212; 243; 273; 304; 334] 0
   + if leap && (2 <? m) then 1 else 0)%Z.
(** Days since 1970-01-01. *)
Definition unix_days (d : date) : Z :=
  let y := (year d - 1)%Z in
  (365 * y + y / 4 - y / 100 + y / 400 + month_days (month d) (is_leap (year d)) + (day d - 1) - 719162)%Z.

Definition parse_amz_date (s : string) : option (date * Z) :=
  '(d, l) ← parse_date (chars s);
  match l with
  | t :: l =>
      if bool_decide (t = "T"%char) then
        '(h, l) ← getnum l false; '(mi, l) ← getnum l true; '(sec, l) ← getnum l true;
        let '(ns, l) := fraction l in
        if bool_decide (l = ["Z"%char]) && date_ok d && ((h <? 24) && (mi <? 60) && (sec <? 60))%Z
        then Some (d, ((unix_days d * 86400 + h * 3600 + mi * 60 + sec) * 1000000000 + ns)%Z)
        else None
      else None
  | [] => None
  end.
Definition digit_char (n : Z) : ascii := ascii_of_N (Z.to_N (48 + n mod 10)).
Definition format_date (d : date) : string :=
  String.string_of_list_ascii
    [digit_char (year d / 1000); digit_char (year d / 100); digit_char (year d / 10); digit_char (year d);
     digit_char (month d / 10); digit_char (month d); digit_char (day d / 10); digit_char (day d)].
Definition validScopeDate (scopeDate : string) : bool :=
  if negb (String.length scopeDate =? 8)%nat then false
  else match parse_date (chars scopeDate) with
       | Some (d, []) => date_ok d && bool_decide (format_date d = scopeDate)
       | _ => false
       end.

(** ** The verifier *)
Definition maxClockSkew : Z := 900000000000.
Definition starts_x_amz (name : string) : bool := has_prefix name "x-amz-".
(** Which of the two errors is reported when both apply does not depend on the headers. *)
Definition validateSignedHeaders (r : s3_request) (signedHeaders : list string) : option s3_error :=
  if negb (forallb (λ n, bool_decide (n ∈ signedHeaders)) ["host"; "x-amz-content-sha256"; "x-amz-date"]) then Some malformed
  else if forallb (λ n, negb (starts_x_amz n) || bool_decide (n ∈ signedHeaders)) (map_to_list (r_Header r)).*1 then None
  else Some (NewError 403 CodeAccessDenied).

Definition VerifyRequest (r : s3_request) (provider : option (string → option string)) (now : Z) : result s3_error AuthResult :=
  match provider with
  | None => Err (NewError 403 CodeAccessDenied)
  | Some lookup =>
      if bool_decide (header_get r "authorization" = "") then Err (NewError 403 CodeMissingSecurityHeader)
      else
        p ←? parseAuthorization (header_get r "authorization");
        if negb (bool_decide (algorithm p = algorithmAWS4HMACSHA256)) then Err malformed
        else match scope p with
        | [date; region; service; term] =>
            if negb (bool_decide (term = "aws4_request")) then Err malformed
            else match lookup (accessKey p) with
            | None => Err (NewError 403 CodeAccessDenied)
            | Some secret =>
                let amzDate := header_get r "x-amz-date" in
                if bool_decide (amzDate = "") then Err (NewError 400 CodeMissingSecurityHeader)
                else match parse_amz_date amzDate with
                | None => Err malformed
                | Some (d, reqTime) =>
                    if negb (validScopeDate date) then Err malformed
                    else if negb (bool_decide (date = format_date d)) then Err malformed
                    else if ((reqTime <? now - maxClockSkew) || (now + maxClockSkew <? reqTime))%Z then Err (NewError 403 CodeAccessDenied)
                    else
                      let payloadHash := header_get r "x-amz-content-sha256" in
                      if bool_decide (payloadHash = "") then Err (NewError 400 CodeMissingSecurityHeader)
                      else match validateSignedHeaders r (signedHeaders p) with
                      | Some er => Err er
                      | None =>
                          creq ←? canonicalRequest r (signedHeaders p) payloadHash;
                          let sts := stringToSign amzDate (join (scope p) "/") creq in
                          if bool_decide (signature_of secret date region service sts = signature p)
                          then Ok (MkAuth (accessKey p) region service (signedHeaders p) reqTime)
                          else Err (NewError 403 CodeSignatureDoesNotMatch)
                      end
                end
            end
        | _ => Err malformed
        end
  end.
