(* ===== verification/S3SigProps.v ===== *)
(** * AWS signature version 4: what a signature covers (S3Sig.v) *)
From S2P Require Import Prelude GF GoLib S3Sig.
From Stdlib Require Import Strings.Byte Strings.Ascii.
Local Open Scope string_scope.

(** ** Escaping *)
Definition esc (c : ascii) : string := sigv4Escape (String c "").
Lemma replace_plus_app a b : replace_plus (a ++ b) = replace_plus a ++ replace_plus b.
Proof. induction a as [|c a IH]; [done|]. gostr. simpl. rewrite IH. case_bool_decide; by gostr. Qed.
Lemma sigv4Escape_cons c s : sigv4Escape (String c s) = esc c ++ sigv4Escape s.
Proof.
  unfold esc, sigv4Escape. rewrite <- replace_plus_app. f_equal. simpl.
  destruct (unreserved c); [done|]. by case_bool_decide.
Qed.
Lemma unescape_esc c t : path_unescape (esc c ++ t) = String c <$> path_unescape t.
Proof. destruct c as [[] [] [] [] [] [] [] []]; reflexivity. Qed.
Lemma unescape_escape s : path_unescape (sigv4Escape s) = Some s.
Proof. induction s as [|c s IH]; [done|]. by rewrite sigv4Escape_cons, unescape_esc, IH. Qed.
#[export] Instance sigv4Escape_inj : Inj (=) (=) sigv4Escape.
Proof. intros a b H. apply (f_equal path_unescape) in H. rewrite !unescape_escape in H. by injection H. Qed.
Definition escaped_char (c : ascii) : bool := unreserved c || bool_decide (c = "%"%char).
Lemma esc_chars c : forallb escaped_char (chars (esc c)) = true.
Proof. destruct c as [[] [] [] [] [] [] [] []]; reflexivity. Qed.
Lemma escape_no_char d s : escaped_char d = false → no_char d (sigv4Escape s).
Proof.
  intros Hd. induction s as [|c s IH]; [unfold no_char; set_solver|]. unfold no_char in *.
  rewrite sigv4Escape_cons, chars_app. intros [Hin|Hin]%elem_of_app; [|done].
  pose proof (esc_chars c) as Hc. rewrite forallb_forall in Hc. specialize (Hc d). rewrite <- list_elem_of_In in Hc.
  rewrite (Hc Hin) in Hd. done.
Qed.

(** ** Joining and splitting *)
Lemma no_char_app d a b : no_char d (a ++ b) ↔ no_char d a ∧ no_char d b.
Proof. unfold no_char. rewrite chars_app. set_solver. Qed.
Lemma no_char_cons d c s : no_char d (String c s) ↔ c ≠ d ∧ no_char d s.
Proof. unfold no_char. simpl. set_solver. Qed.
Lemma join_cons s t l sep : join (s :: t :: l) sep = s ++ sep ++ join (t :: l) sep.
Proof. done. Qed.
Lemma split_join sep l : l ≠ [] → (∀ x, x ∈ l → no_char sep x) → split (join l (String sep "")) sep = l.
Proof.
  induction l as [|s l IH]; [done|]. intros _ Hl. destruct l as [|t l].
  - simpl. apply split_no_sep. apply Hl. set_solver.
  - rewrite join_cons. change (String sep "" ++ ?x) with (String sep x).
    rewrite split_app by (apply Hl; set_solver). f_equal. apply IH; [done|]. intros x Hx. apply Hl. by right.
Qed.
Lemma split_ne sep s : split s sep ≠ [].
Proof. destruct s as [|c s]; simpl; [done|]. case_bool_decide; [done|]. by destruct (split s sep). Qed.
Lemma join_split sep s : join (split s sep) (String sep "") = s.
Proof.
  induction s as [|c s IH]; [done|]. simpl. case_bool_decide as Hc.
  - subst c. pose proof (split_ne sep s). destruct (split s sep) as [|x l] eqn:E; [done|]. by rewrite join_cons, IH.
  - pose proof (split_ne sep s). destruct (split s sep) as [|x l] eqn:E; [done|].
    destruct l as [|y l]; [by rewrite <- IH|]. rewrite join_cons in *. by rewrite <- IH.
Qed.
Lemma join_inj sep l l' : l ≠ [] → l' ≠ [] → (∀ x, x ∈ l → no_char sep x) → (∀ x, x ∈ l' → no_char sep x) →
  join l (String sep "") = join l' (String sep "") → l = l'.
Proof. intros H1 H2 H3 H4 H. apply (f_equal (λ s, split s sep)) in H. by rewrite !split_join in H. Qed.
Lemma cut_inj sep a b a' b' : no_char sep a → no_char sep a' → a ++ String sep b = a' ++ String sep b' → a = a' ∧ b = b'.
Proof. intros Ha Ha' H. apply (f_equal (λ s, cut s sep)) in H. rewrite !cut_app in H by done. by injection H as -> ->. Qed.

(** ** Canonical paths and queries *)
(** The path a request is for. *)
Definition decoded_path (e : string) : string := if bool_decide (e = "") then "/" else pathUnescape e.
Lemma canonicalURI_spec e : is_Some (path_unescape e) → canonicalURI e = join (sigv4Escape <$> split (decoded_path e) "/") "/".
Proof.
  intros [d Hd]. unfold canonicalURI, decoded_path, pathUnescape. case_bool_decide; [done|]. by rewrite Hd.
Qed.
Lemma canonicalURI_no_char d e : is_Some (path_unescape e) → escaped_char d = false → d ≠ "/"%char → no_char d (canonicalURI e).
Proof.
  intros He Hd Hs. rewrite canonicalURI_spec by done. generalize (split (decoded_path e) "/"). intros l.
  induction l as [|x l IH]; [unfold no_char; set_solver|]. destruct l as [|y l]; [rewrite list_fmap_singleton; by apply escape_no_char|].
  rewrite !fmap_cons, join_cons in *. apply no_char_app. split; [by apply escape_no_char|].
  apply no_char_cons. split; [done|exact IH].
Qed.
Lemma canonicalURI_inj e e' : is_Some (path_unescape e) → is_Some (path_unescape e') →
  canonicalURI e = canonicalURI e' → decoded_path e = decoded_path e'.
Proof.
  intros H H'. rewrite !canonicalURI_spec by done. intros Hj. apply join_inj in Hj.
  - apply (inj (fmap sigv4Escape)) in Hj. by rewrite <- (join_split "/" (decoded_path e)), <- (join_split "/" (decoded_path e')), Hj.
  - intros Hn%fmap_nil_inv. by apply split_ne in Hn.
  - intros Hn%fmap_nil_inv. by apply split_ne in Hn.
  - intros x (y & -> & _)%list_elem_of_fmap. by apply escape_no_char.
  - intros x (y & -> & _)%list_elem_of_fmap. by apply escape_no_char.
Qed.

(** The settings of a query, decoded the way the verifier does. *)
Definition decoded_pair (part : string) : string * string :=
  let '(key, value) := match cut part "=" with Some kv => kv | None => (part, "") end in (pathUnescape key, pathUnescape value).
Definition decoded_query (raw : string) : list (string * string) := decoded_pair <$> query_parts raw.
Definition escape_pair (p : string * string) : string * string := (sigv4Escape p.1, sigv4Escape p.2).
Definition setting (p : string * string) : string := p.1 ++ "=" ++ p.2.
Lemma query_pair_escape part : query_pair part = escape_pair (decoded_pair part).
Proof. unfold query_pair, decoded_pair. by destruct (cut part "=") as [[k v]|]. Qed.
Lemma canonicalQuery_spec raw : canonicalQuery raw = join (setting <$> merge_sort pair_le (escape_pair <$> decoded_query raw)) "&".
Proof.
  unfold canonicalQuery, decoded_query. case_bool_decide as Hr; [by subst raw|].
  rewrite <- list_fmap_compose. do 3 f_equal. apply list_fmap_ext. intros _ part _. apply query_pair_escape.
Qed.
Lemma setting_inj p q : setting (escape_pair p) = setting (escape_pair q) → p = q.
Proof.
  destruct p as [a b], q as [c d]. unfold setting, escape_pair. cbn [fst snd].
  change ("=" ++ ?s) with (String "=" s). intros H. apply cut_inj in H as [H1 H2]; [|by apply escape_no_char..].
  by apply (inj sigv4Escape) in H1 as ->, H2 as ->.
Qed.

Lemma setting_no_char p : no_char "&" (setting (escape_pair p)).
Proof.
  unfold setting, escape_pair. cbn [fst snd]. apply no_char_app. split; [by apply escape_no_char|].
  change ("=" ++ ?s) with (String "=" s). apply no_char_cons. split; [done|by apply escape_no_char].
Qed.
Lemma join_settings l l' :
  join (setting <$> (escape_pair <$> l)) "&" = join (setting <$> (escape_pair <$> l')) "&" → l = l'.
Proof.
  assert (∀ p l, join (setting <$> (escape_pair <$> p :: l)) "&" ≠ "") as Hne.
  { intros [k v] l0. rewrite !fmap_cons. destruct (setting <$> (escape_pair <$> l0)); simpl;
      unfold setting, escape_pair; cbn [fst snd]; destruct (sigv4Escape k); gostr; done. }
  destruct l as [|p l], l' as [|p' l']; [done|intros H; by destruct (Hne p' l')|intros H; by destruct (Hne p l)|].
  rewrite <- !list_fmap_compose. intros H. apply join_inj in H; [|done|done|..].
  - revert H. generalize (p :: l), (p' :: l'). clear. intros l l'. revert l'. induction l as [|p l IH]; intros [|p' l']; simpl; try done.
    intros [= H1 H2]. apply setting_inj in H1 as ->. f_equal. by apply IH.
  - intros x (q & -> & _)%list_elem_of_fmap. apply setting_no_char.
  - intros x (q & -> & _)%list_elem_of_fmap. apply setting_no_char.
Qed.
Lemma merge_sort_pairs l : ∃ l', merge_sort pair_le (escape_pair <$> l) = escape_pair <$> l' ∧ l' ≡ₚ l.
Proof.
  pose proof (merge_sort_Permutation pair_le (escape_pair <$> l)) as H. apply Permutation_map_inv in H as (l' & -> & Hp).
  by exists l'.
Qed.
Lemma canonicalQuery_inj raw raw' : canonicalQuery raw = canonicalQuery raw' → decoded_query raw ≡ₚ decoded_query raw'.
Proof.
  rewrite !canonicalQuery_spec. destruct (merge_sort_pairs (decoded_query raw)) as (l & -> & <-).
  destruct (merge_sort_pairs (decoded_query raw')) as (l' & -> & <-). by intros ->%join_settings.
Qed.
Lemma join_no_char d l sep : (∀ x, x ∈ l → no_char d x) → no_char d sep → no_char d (join l sep).
Proof.
  intros Hl Hs. induction l as [|x l IH]; [unfold no_char; set_solver|]. destruct l as [|y l]; [apply Hl; set_solver|].
  rewrite join_cons, !no_char_app. split_and!; [apply Hl; set_solver|done|]. apply IH. intros z Hz. apply Hl. by right.
Qed.
Lemma canonicalQuery_no_newline raw : no_char (ascii_of_N 10) (canonicalQuery raw).
Proof.
  rewrite canonicalQuery_spec. destruct (merge_sort_pairs (decoded_query raw)) as (l & -> & _).
  apply join_no_char; [|by unfold no_char; set_solver].
  intros x (p & -> & (q & -> & _)%list_elem_of_fmap)%list_elem_of_fmap. unfold setting, escape_pair. cbn [fst snd].
  rewrite !no_char_app. split_and!; [by apply escape_no_char|unfold no_char; set_solver|by apply escape_no_char].
Qed.

(** ** Headers *)
(** HTTP lines hold no newline, in any name or value; the path is a valid escaping. *)
Record http_ok (r : s3_request) : Prop := MkHttp
  { http_method : no_char (ascii_of_N 10) (r_Method r);
    http_path : is_Some (path_unescape (r_EscapedPath r));
    http_host : no_char (ascii_of_N 10) (r_Host r);
    http_names : ∀ n, is_Some (r_Header r !! n) → no_char (ascii_of_N 10) n;
    http_values : ∀ n vs v, r_Header r !! n = Some vs → v ∈ vs → no_char (ascii_of_N 10) v }.
Lemma strip_prefix_sub d p s t : strip_prefix p s = Some t → no_char d s → no_char d t.
Proof.
  revert s. induction p as [|c p IH]; intros s; simpl; [by intros [= ->]|].
  destruct s as [|c' s]; [done|]. destruct (Ascii.eqb c c'); [|done]. intros H [_ Hs]%no_char_cons. by eapply IH.
Qed.
Lemma first_strip_sub d ps s t : first_strip ps s = Some t → no_char d s → no_char d t.
Proof.
  induction ps as [|p ps IH]; simpl; [done|]. destruct (strip_prefix p s) as [t'|] eqn:E; [intros [= <-]; by eapply strip_prefix_sub|done].
Qed.
Lemma chars_of_list l : chars (String.string_of_list_ascii l) = l.
Proof. induction l as [|c l IH]; [done|]. simpl. by rewrite IH. Qed.
Lemma fields_no_char d fuel s cur out : no_char d s → d ∉ cur → (∀ x, x ∈ out → no_char d x) →
  ∀ x, x ∈ fields_loop fuel s cur out → no_char d x.
Proof.
  revert s cur out. induction fuel as [|fuel IH]; intros s cur out Hs Hc Ho; cbn [fields_loop];
    set (flush := if (length cur =? 0)%nat then out else (out ++ [String.string_of_list_ascii (reverse cur)])%list);
    (assert (∀ x, x ∈ flush → no_char d x) as Hf by (unfold flush; destruct (length cur =? 0)%nat; [done|];
      intros x [Hx|Hx]%elem_of_app; [by apply Ho|]; apply list_elem_of_singleton in Hx as ->; unfold no_char; by rewrite chars_of_list, elem_of_reverse));
    [done|].
  destruct (first_strip spaces s) as [t|] eqn:E.
  - apply IH; [by eapply first_strip_sub|set_solver|done].
  - destruct s as [|c s]; [done|]. apply no_char_cons in Hs as [H1 H2]. apply IH; [done|set_solver|done].
Qed.
Lemma single_spaced_no_newline v : no_char (ascii_of_N 10) v → no_char (ascii_of_N 10) (single_spaced v).
Proof.
  intros Hv. apply join_no_char; [|by unfold no_char; set_solver]. intros x. unfold Fields. apply fields_no_char; set_solver.
Qed.
Lemma header_value_no_newline r n : http_ok r → no_char (ascii_of_N 10) (header_value r n).
Proof.
  intros Hr. unfold header_value. case_bool_decide; [apply Hr|]. apply join_no_char; [|by unfold no_char; set_solver].
  intros x (v & -> & Hv)%list_elem_of_fmap. apply single_spaced_no_newline. unfold header_values in Hv.
  destruct (r_Header r !! n) as [vs|] eqn:E; [by eapply http_values|by apply not_elem_of_nil in Hv].
Qed.
Lemma header_get_no_newline r n : http_ok r → no_char (ascii_of_N 10) (header_get r n).
Proof.
  intros Hr. unfold header_get, header_values. destruct (r_Header r !! n) as [[|v vs]|] eqn:E; cbn; try (unfold no_char; set_solver).
  eapply (http_values r Hr n); [done|by left].
Qed.
Lemma header_lines_spec r names lines : header_lines r names = Ok lines →
  lines = (λ n, n ++ ":" ++ single_spaced (header_value r n)) <$> names.
Proof.
  revert lines. induction names as [|n names IH]; intros lines; cbn [header_lines]; [by intros [= <-]|].
  destruct (bool_decide _); [done|]. intros (l & Hl & [= <-])%rbind_ok. by rewrite fmap_cons, <- (IH l Hl).
Qed.

(** ** The canonical request determines what is signed *)
Lemma split_no_sep_elem s sep x : x ∈ split s sep → no_char sep x.
Proof.
  revert x. induction s as [|c s IH]; intros x; simpl; [intros ->%list_elem_of_singleton; unfold no_char; set_solver|].
  case_bool_decide as Hc.
  - intros [->|Hx]%elem_of_cons; [unfold no_char; set_solver|by apply IH].
  - destruct (split s sep) as [|y l]; [intros ->%list_elem_of_singleton; unfold no_char; set_solver|].
    intros [->|Hx]%elem_of_cons; [|apply IH; by right]. apply no_char_cons. split; [done|]. apply IH. by left.
Qed.
(** What a request says once its spelling is taken away. *)
Definition same_request (names : list string) (r r' : s3_request) : Prop :=
  r_Method r = r_Method r' ∧ decoded_path (r_EscapedPath r) = decoded_path (r_EscapedPath r') ∧
  decoded_query (r_RawQuery r) ≡ₚ decoded_query (r_RawQuery r') ∧
  ∀ n, n ∈ names → single_spaced (header_value r n) = single_spaced (header_value r' n).
Lemma canonicalRequest_spec r names payload creq : canonicalRequest r names payload = Ok creq →
  names ≠ [] ∧
  creq = r_Method r ++ String (ascii_of_N 10) (canonicalURI (r_EscapedPath r) ++ String (ascii_of_N 10)
    (canonicalQuery (r_RawQuery r) ++ String (ascii_of_N 10)
    ((join ((λ n, n ++ ":" ++ single_spaced (header_value r n)) <$> sort_strings names) newline ++ newline) ++ String (ascii_of_N 10)
    (join (sort_strings names) ";" ++ String (ascii_of_N 10) payload)))).
Proof.
  unfold canonicalRequest, canonicalHeaders. case_bool_decide; [done|].
  intros ([h s] & (lines & Hl & [= <- <-])%rbind_ok & [= <-])%rbind_ok. split; [done|].
  by rewrite (header_lines_spec _ _ _ Hl).
Qed.
Lemma map_inj_elem {A B} (f g : A → B) (l : list A) : f <$> l = g <$> l → ∀ x, x ∈ l → f x = g x.
Proof. induction l as [|y l IH]; simpl; [set_solver|]. intros [= H1 H2] x [->|Hx]%elem_of_cons; [done|by apply IH]. Qed.
Lemma canonicalRequest_inj r r' names payload payload' creq :
  http_ok r → http_ok r' → (∀ n, n ∈ names → no_char (ascii_of_N 10) n) →
  no_char (ascii_of_N 10) payload → no_char (ascii_of_N 10) payload' →
  canonicalRequest r names payload = Ok creq → canonicalRequest r' names payload' = Ok creq →
  same_request names r r' ∧ payload = payload'.
Proof.
  intros Hr Hr' Hn Hp Hp' [Hne ->]%canonicalRequest_spec [_ H]%canonicalRequest_spec.
  apply cut_inj in H as [Hm H]; [|by apply http_method..].
  apply cut_inj in H as [Hu H]; [|by apply canonicalURI_no_char; [apply http_path|..]..].
  apply cut_inj in H as [Hq H]; [|apply canonicalQuery_no_newline..].
  assert (∀ a j p : string, a ++ String (ascii_of_N 10) (j ++ String (ascii_of_N 10) p) =
    (a ++ String (ascii_of_N 10) j) ++ String (ascii_of_N 10) p) as Ha by (intros a j p; by rewrite <- string_app_assoc).
  rewrite !Ha in H. apply last_sep_inj in H as [H Hpay]; [|done..].
  assert (∀ x, x ∈ sort_strings names → no_char (ascii_of_N 10) x) as Hs by (intros x Hx; rewrite elem_of_sort_strings in Hx; by apply Hn).
  apply last_sep_inj in H as [H _]; [|by apply join_no_char; [|unfold no_char; set_solver]..].
  apply last_sep_inj in H as [H _]; [|by unfold no_char; set_solver..].
  assert (sort_strings names ≠ []) as Hne' by (intros E; apply Hne, Permutation_nil_r; by rewrite <- E, sort_strings_Permutation).
  apply join_inj in H; [|by intros ?%fmap_nil_inv..| |].
  - split; [|done]. split_and!; [done|by apply canonicalURI_inj; [apply http_path..|]|by apply canonicalQuery_inj|].
    intros n Hin. apply elem_of_sort_strings in Hin. pose proof (map_inj_elem _ _ _ H n Hin) as E. cbn beta in E.
    apply string_app_inv_head in E. by injection E.
  - intros x (n & -> & Hx)%list_elem_of_fmap. rewrite !no_char_app. split_and!; [by apply Hs|unfold no_char; set_solver|].
    by apply single_spaced_no_newline, header_value_no_newline.
  - intros x (n & -> & Hx)%list_elem_of_fmap. rewrite !no_char_app. split_and!; [by apply Hs|unfold no_char; set_solver|].
    by apply single_spaced_no_newline, header_value_no_newline.
Qed.

(** ** What the verifier has checked *)
Record verified (r : s3_request) (lookup : string → option string) (now : Z) (p : parsedAuthorization)
    (date region service secret creq : string) (d : S3Sig.date) (t : Z) : Prop := MkVerified
  { v_parsed : parseAuthorization (header_get r "authorization") = Ok p;
    v_algorithm : algorithm p = algorithmAWS4HMACSHA256;
    v_scope : scope p = [date; region; service; "aws4_request"];
    v_secret : lookup (accessKey p) = Some secret;
    v_time : parse_amz_date (header_get r "x-amz-date") = Some (d, t);
    v_date : date = format_date d;
    v_skew : (now - maxClockSkew ≤ t ≤ now + maxClockSkew)%Z;
    v_payload : header_get r "x-amz-content-sha256" ≠ "";
    v_headers : validateSignedHeaders r (signedHeaders p) = None;
    v_canonical : canonicalRequest r (signedHeaders p) (header_get r "x-amz-content-sha256") = Ok creq;
    v_signature : signature_of secret date region service
      (stringToSign (header_get r "x-amz-date") (join (scope p) "/") creq) = signature p }.
Lemma VerifyRequest_ok r lookup now a : VerifyRequest r (Some lookup) now = Ok a →
  ∃ p date region service secret creq d t, verified r lookup now p date region service secret creq d t ∧
    a = MkAuth (accessKey p) region service (signedHeaders p) t.
Proof.
  unfold VerifyRequest. case_bool_decide as Ha1; [done|]. intros (p & Hp & H)%rbind_ok.
  destruct (bool_decide (algorithm p = _)) eqn:Halg; [|done]. apply bool_decide_eq_true in Halg. cbn [negb] in H.
  destruct (scope p) as [|date [|region [|service [|term [|]]]]] eqn:Hsc; try done.
  destruct (bool_decide (term = _)) eqn:Hterm; [|done]. apply bool_decide_eq_true in Hterm as ->. cbn [negb] in H.
  destruct (lookup (accessKey p)) as [secret|] eqn:Hs; [|done]. cbv zeta in H. case_bool_decide as Ha2; [done|].
  destruct (parse_amz_date _) as [[d t]|] eqn:Ht; [|done]. destruct (validScopeDate date); [|done]. cbn [negb] in H.
  destruct (bool_decide (date = _)) eqn:Hd; [|done]. apply bool_decide_eq_true in Hd. cbn [negb] in H.
  destruct (_ || _) eqn:Hskew; [done|]. apply orb_false_iff in Hskew as [H1%Z.ltb_ge H2%Z.ltb_ge]. case_bool_decide as Ha3; [done|].
  destruct (validateSignedHeaders _ _) eqn:Hv; [done|]. apply rbind_ok in H as (creq & Hc & H).
  case_bool_decide as Hsig; [|done]. injection H as <-.
  exists p, date, region, service, secret, creq, d, t. split; [|done]. split; try done. by rewrite Hsc.
Qed.
Lemma signed_names r names payload creq : http_ok r → canonicalRequest r names payload = Ok creq →
  ∀ n, n ∈ names → no_char (ascii_of_N 10) n.
Proof.
  intros Hr Hc n Hn. unfold canonicalRequest, canonicalHeaders in Hc. destruct (bool_decide _); [done|].
  apply rbind_ok in Hc as ([h s] & Hh & _). apply rbind_ok in Hh as (lines & Hl & _).
  rewrite <- elem_of_sort_strings in Hn. revert lines Hl Hn. generalize (sort_strings names). intros l. induction l as [|m l IH]; [set_solver|].
  intros lines Hl Hn. cbn [header_lines] in Hl. case_bool_decide as Hv; [done|]. apply rbind_ok in Hl as (ls & Hl & _).
  apply elem_of_cons in Hn as [->|Hn]; [|by eapply IH].
  unfold header_value in Hv. case_bool_decide as Hh; [subst m; by apply (bool_decide_unpack _)|].
  unfold header_values in Hv. destruct (r_Header r !! m) as [vs|] eqn:Hm; [by apply (http_names r Hr)|done].
Qed.
Lemma required_headers r names : validateSignedHeaders r names = None →
  (∀ n, n ∈ ["host"; "x-amz-content-sha256"; "x-amz-date"] → n ∈ names) ∧
  ∀ n, is_Some (r_Header r !! n) → starts_x_amz n = true → n ∈ names.
Proof.
  unfold validateSignedHeaders. destruct (forallb _ _) eqn:H1; [|done]. cbn [negb]. destruct (forallb _ (map_to_list _).*1) eqn:H2; [|done].
  intros _. rewrite forallb_forall in H1, H2. split.
  - intros n Hn. apply list_elem_of_In, H1 in Hn. by apply bool_decide_eq_true in Hn.
  - intros n [vs Hvs] Hx. specialize (H2 n). rewrite Hx in H2. cbn in H2.
    assert (In n (map_to_list (r_Header r)).*1) as Hin%H2; [|by apply bool_decide_eq_true in Hin].
    apply list_elem_of_In, list_elem_of_fmap. exists (n, vs). split; [done|by apply elem_of_map_to_list].
Qed.
