(* ===== verification/S3Sign.v ===== *)
(** * AWS signature version 4: requests signed as the protocol says (S3Sig.v)

    [authorization] is the header a client sends: the verifier reads back its fields. *)
From S2P Require Import Prelude GF GoLib S3Sig S3SigProps.
From Stdlib Require Import Strings.Byte Strings.Ascii.
Local Open Scope string_scope.

(** ** White space *)
Definition visible (c : ascii) : bool := let n := N_of_ascii c in ((33 <=? n) && (n <=? 126))%N.
Definition all_visible (s : string) : Prop := Forall (λ c, visible c = true) (chars s).
Lemma visible_first c t : visible c = true → first_strip spaces (String c t) = None.
Proof. destruct c as [[] [] [] [] [] [] [] []]; (discriminate || reflexivity). Qed.
Lemma visible_last c t : visible c = true → first_strip (str_rev <$> spaces) (String c t) = None.
Proof. destruct c as [[] [] [] [] [] [] [] []]; (discriminate || reflexivity). Qed.
Lemma trim_left_none fuel ps s : first_strip ps s = None → trim_left fuel ps s = s.
Proof. intros H. destruct fuel as [|fuel]; [done|]. simpl. by rewrite H. Qed.
Lemma string_of_chars s : String.string_of_list_ascii (chars s) = s.
Proof. induction s as [|c s IH]; [done|]. simpl. by rewrite IH. Qed.
Lemma chars_rev s : chars (str_rev s) = reverse (chars s).
Proof. apply chars_of_list. Qed.
Lemma str_rev_involutive s : str_rev (str_rev s) = s.
Proof. unfold str_rev at 1. by rewrite chars_rev, reverse_involutive, string_of_chars. Qed.
(** A string that begins and ends with a visible character. *)
Definition trimmed (s : string) : Prop :=
  (∃ c t, s = String c t ∧ visible c = true) ∧ ∃ a b, s = a ++ b ∧ b ≠ "" ∧ all_visible b.
Lemma TrimSpace_trimmed s : trimmed s → TrimSpace s = s.
Proof.
  intros [(c & t & Hs & Hc) (a & b & Hab & Hb & Hv)]. unfold TrimSpace.
  rewrite (trim_left_none _ spaces s) by (rewrite Hs; by apply visible_first). cbv zeta.
  rewrite (trim_left_none _ (str_rev <$> spaces) (str_rev s)); [by apply str_rev_involutive|].
  destruct (str_rev s) as [|c' t'] eqn:E; [done|]. apply visible_last.
  apply (f_equal chars) in E. rewrite chars_rev, Hab, chars_app, reverse_app in E. unfold all_visible in Hv.
  assert (Forall (λ c, visible c = true) (reverse (chars b))) as Hr by by apply Forall_reverse.
  destruct (reverse (chars b)) as [|x l] eqn:Eb.
  - apply (f_equal reverse) in Eb. rewrite reverse_involutive in Eb. destruct b; [done|discriminate Eb].
  - injection E as -> _. by apply Forall_cons in Hr as [? _].
Qed.
Lemma TrimSpace_space s : trimmed s → TrimSpace (String " " s) = s.
Proof.
  intros Hs. rewrite <- (TrimSpace_trimmed s Hs) at 2. unfold TrimSpace. destruct Hs as [(c & t & -> & Hc) _].
  change (trim_left (String.length (String " " (String c t))) spaces (String " " (String c t)))
    with (trim_left (String.length (String c t)) spaces (String c t)). done.
Qed.

(** ** The fields of the header *)
(** A name that needs no quoting in the header. *)
Definition token_char (c : ascii) : bool := visible c && forallb (λ d, negb (bool_decide (c = d))) [","; "/"; "="; ";"]%char.
Definition token (s : string) : Prop := s ≠ "" ∧ Forall (λ c, token_char c = true) (chars s).
Lemma token_no_char d s : token s → token_char d = false → no_char d s.
Proof. intros [_ Hs] Hd Hin. rewrite Forall_forall in Hs. by rewrite (Hs d Hin) in Hd. Qed.
Lemma token_visible s : token s → all_visible s.
Proof. intros [_ Hs]. eapply Forall_impl; [exact Hs|]. intros c Hc. by apply andb_prop in Hc as [? _]. Qed.
Definition authorization (ak date region service : string) (names : list string) (sig : string) : string :=
  algorithmAWS4HMACSHA256 ++ " Credential=" ++ join [ak; date; region; service; "aws4_request"] "/" ++
  ", SignedHeaders=" ++ join names ";" ++ ", Signature=" ++ sig.

Lemma all_visible_app a b : all_visible a → all_visible b → all_visible (a ++ b).
Proof. unfold all_visible. rewrite chars_app. apply Forall_app_2. Qed.
Lemma join_visible l sep : (∀ x, x ∈ l → all_visible x) → all_visible sep → all_visible (join l sep).
Proof.
  intros Hl Hs. induction l as [|x l IH]; [by apply Forall_nil|]. destruct l as [|y l]; [apply Hl; set_solver|].
  rewrite join_cons. apply all_visible_app; [apply Hl; set_solver|apply all_visible_app; [done|]]. apply IH. intros z Hz. apply Hl. by right.
Qed.
Lemma visible_trimmed s : s ≠ "" → all_visible s → trimmed s.
Proof.
  intros Hs Hv. split; [|by exists "", s]. destruct s as [|c t]; [done|]. exists c, t. split; [done|]. by apply Forall_cons in Hv as [? _].
Qed.
Lemma ToLower_app a b : ToLower (a ++ b) = ToLower a ++ ToLower b.
Proof.
  unfold ToLower. rewrite chars_app, fmap_app. generalize (lower_char <$> chars a), (lower_char <$> chars b).
  intros l l'. induction l as [|c l IH]; [done|]. gostr. simpl. by rewrite IH.
Qed.
Lemma ToLower_join l sep : (∀ n, n ∈ l → ToLower n = n) → ToLower sep = sep → ToLower (join l sep) = join l sep.
Proof.
  intros Hl Hs. induction l as [|x l IH]; [done|]. destruct l as [|y l]; [apply Hl; set_solver|].
  rewrite join_cons, !ToLower_app, Hs, Hl by set_solver. do 2 f_equal. apply IH. intros n Hn. apply Hl. by right.
Qed.
Lemma join_ne l sep : l ≠ [] → (∀ n, n ∈ l → n ≠ "") → join l sep ≠ "".
Proof.
  destruct l as [|x l]; [done|]. intros _ Hl. assert (x ≠ "") by (apply Hl; set_solver). destruct l as [|y l]; [done|].
  rewrite join_cons. by destruct x.
Qed.
Lemma join_no_char_tokens d l sep : (∀ n, n ∈ l → token n) → token_char d = false → no_char d sep → no_char d (join l sep).
Proof. intros Hl Hd Hs. apply join_no_char; [|done]. intros x Hx. by apply token_no_char; [apply Hl|]. Qed.
Lemma aws4_token : token "aws4_request".
Proof. split; [done|]. repeat (apply Forall_cons; split; [reflexivity|]). by apply Forall_nil. Qed.
Lemma TrimSpace_field c t v : visible c = true → v ≠ "" → all_visible v →
  TrimSpace (String c t ++ v) = String c t ++ v ∧ TrimSpace (String " " (String c t ++ v)) = String c t ++ v.
Proof.
  intros Hc Hv Hvv. assert (trimmed (String c t ++ v)) as Ht by (split; [by exists c, (t ++ v)|by exists (String c t), v]).
  split; [by apply TrimSpace_trimmed|by apply TrimSpace_space].
Qed.
Lemma fields_of cred sh sig : cred ≠ "" → sh ≠ "" → sig ≠ "" → all_visible cred → all_visible sh → all_visible sig →
  auth_fields ["Credential=" ++ cred; " SignedHeaders=" ++ sh; " Signature=" ++ sig] ∅ =
    Some (<["Signature" := sig]> (<["SignedHeaders" := sh]> (<["Credential" := cred]> ∅))).
Proof.
  intros H1 H2 H3 V1 V2 V3. cbn [auth_fields].
  rewrite (proj1 (TrimSpace_field "C" "redential=" cred eq_refl H1 V1)).
  change (String "C" "redential=" ++ cred) with ("Credential" ++ String "=" cred). rewrite cut_app by (by apply (bool_decide_unpack _)).
  change (" SignedHeaders=" ++ sh) with (String " " (String "S" "ignedHeaders=" ++ sh)).
  rewrite (proj2 (TrimSpace_field "S" "ignedHeaders=" sh eq_refl H2 V2)).
  change (String "S" "ignedHeaders=" ++ sh) with ("SignedHeaders" ++ String "=" sh). rewrite cut_app by (by apply (bool_decide_unpack _)).
  change (" Signature=" ++ sig) with (String " " (String "S" "ignature=" ++ sig)).
  rewrite (proj2 (TrimSpace_field "S" "ignature=" sig eq_refl H3 V3)).
  change (String "S" "ignature=" ++ sig) with ("Signature" ++ String "=" sig). by rewrite cut_app by (by apply (bool_decide_unpack _)).
Qed.
Lemma authorization_fields ak date region service names sig :
  token ak → token date → token region → token service → names ≠ [] → (∀ n, n ∈ names → token n ∧ ToLower n = n) →
  sort_strings names = names → token sig →
  parseAuthorization (authorization ak date region service names sig) =
    Ok (MkParsed algorithmAWS4HMACSHA256 ak [date; region; service; "aws4_request"] names sig).
Proof.
  intros Hak Hd Hr Hsv Hne Hn Hsort Hsig. unfold authorization. set (cred := join [ak; date; region; service; "aws4_request"] "/").
  set (sh := join names ";").
  assert (Forall token [ak; date; region; service; "aws4_request"]) as Htok
    by (repeat (apply Forall_cons; split; [done || apply aws4_token|]); by apply Forall_nil). rewrite Forall_forall in Htok.
  assert (∀ x, x ∈ names → token x) as Hnt by (intros x Hx; by apply Hn).
  assert (all_visible cred) as Hcv by (apply join_visible; [intros x Hx; by apply token_visible, Htok|by apply Forall_singleton]).
  assert (all_visible sh) as Hshv by (apply join_visible; [intros x Hx; by apply token_visible, Hnt|by apply Forall_singleton]).
  assert (cred ≠ "") as Hcne by (apply join_ne; [done|]; intros x Hx; by apply Htok).
  assert (sh ≠ "") as Hshne by (apply join_ne; [done|]; intros x Hx; by apply Hnt).
  assert (no_char "," cred ∧ no_char "," sh) as [Hcc Hshc]
    by (split; (apply join_no_char_tokens; [done|done|by apply (bool_decide_unpack _)])).
  unfold parseAuthorization. rewrite TrimSpace_trimmed.
  2:{ split; [by eexists "A"%char, _|]. exists (algorithmAWS4HMACSHA256 ++ " Credential=" ++ cred ++ ", SignedHeaders=" ++ sh ++ ", Signature="), sig.
      rewrite <- !string_app_assoc. split; [done|]. split; [apply Hsig|by apply token_visible]. }
  change (" Credential=" ++ ?x) with (String " " ("Credential=" ++ x)). rewrite cut_app by (by apply (bool_decide_unpack _)).
  rewrite string_app_assoc. change (", SignedHeaders=" ++ ?x) with (String "," (" SignedHeaders=" ++ x)).
  rewrite split_app by (apply no_char_app; split; [by apply (bool_decide_unpack _)|done]).
  rewrite string_app_assoc. change (", Signature=" ++ ?x) with (String "," (" Signature=" ++ x)).
  rewrite split_app by (apply no_char_app; split; [by apply (bool_decide_unpack _)|done]).
  rewrite split_no_sep by (apply no_char_app; split; [by apply (bool_decide_unpack _)|by apply token_no_char]).
  rewrite fields_of by (done || apply Hsig || by apply token_visible).
  rewrite lookup_insert_ne, lookup_insert_ne, lookup_insert_eq by done. rewrite lookup_insert_ne, lookup_insert_eq by done.
  rewrite lookup_insert_eq. cbn [default from_option id]. rewrite !bool_decide_eq_false_2 by (done || apply Hsig). cbn [orb].
  unfold cred. rewrite join_cons. change ("/" ++ ?x) with (String "/" x). rewrite cut_app by (by apply token_no_char).
  rewrite bool_decide_eq_false_2 by apply Hak. unfold sh. rewrite ToLower_join; [|intros n Hin; by apply Hn|done].
  rewrite !split_join; [by rewrite Hsort|done| |done|].
  - intros x Hx. by apply token_no_char; [apply Hnt|].
  - intros x Hx. apply token_no_char; [|done]. apply Htok. by right.
Qed.

(** ** Dates *)
Lemma digit_val_range c n : digit_val c = Some n → (0 ≤ n ≤ 9)%Z.
Proof. unfold digit_val. destruct (_ && _) eqn:E; [|done]. apply andb_prop in E as [H1%Z.leb_le H2%Z.leb_le]. intros [= <-]. lia. Qed.
Lemma getnum_range l n l' : getnum l true = Some (n, l') → (0 ≤ n ≤ 99)%Z.
Proof.
  destruct l as [|a [|b l]]; cbn [getnum]; [done|by destruct (digit_val a)|].
  destruct (digit_val a) as [x|] eqn:Ea; [|done]. cbn. destruct (digit_val b) as [y|] eqn:Eb; [|done]. intros [= <- _].
  apply digit_val_range in Ea, Eb. lia.
Qed.
Lemma digit_val_char n : digit_val (digit_char n) = Some (n mod 10)%Z.
Proof.
  unfold digit_char. pose proof (Z.mod_pos_bound n 10 ltac:(lia)) as H. revert H. generalize (n mod 10)%Z. intros k Hk.
  assert (k = 0 ∨ k = 1 ∨ k = 2 ∨ k = 3 ∨ k = 4 ∨ k = 5 ∨ k = 6 ∨ k = 7 ∨ k = 8 ∨ k = 9)%Z as Hc by lia.
  by repeat destruct Hc as [->|Hc]; [..|subst k].
Qed.
Lemma getnum_format n l : (0 ≤ n ≤ 99)%Z → getnum (digit_char (n / 10) :: digit_char n :: l) true = Some (n, l).
Proof.
  intros Hn. cbn [getnum]. rewrite !digit_val_char. cbn. do 2 f_equal.
  rewrite (Z.mod_small (n / 10)) by (split; [apply Z.div_pos; lia|apply Z.div_lt_upper_bound; lia]).
  pose proof (Z.div_mod n 10 ltac:(lia)). lia.
Qed.
Lemma digit_char_mod n : digit_char (n mod 100) = digit_char n ∧ digit_char (n mod 100 / 10) = digit_char (n / 10).
Proof.
  unfold digit_char. rewrite (Z.div_mod n 100) at 2 4 by lia. generalize (n / 100)%Z (n mod 100)%Z. intros q r.
  replace (100 * q + r)%Z with (r + (10 * q) * 10)%Z by lia. rewrite Z.div_add by lia.
  rewrite Z.mod_add by lia. replace (r / 10 + 10 * q)%Z with (r / 10 + q * 10)%Z by lia. by rewrite Z.mod_add.
Qed.
Definition date_small (d : date) : Prop := (0 ≤ year d ≤ 9999 ∧ 0 ≤ month d ≤ 99 ∧ 0 ≤ day d ≤ 99)%Z.
Lemma parse_date_small l d l' : parse_date l = Some (d, l') → date_small d.
Proof.
  unfold parse_date, getyear. intros H.
  apply bind_Some in H as ([y l1] & Hy & H). apply bind_Some in H as ([m l2] & Hm & H). apply bind_Some in H as ([dd l3] & Hd & [= <- <-]).
  apply bind_Some in Hy as ([a l4] & Ha & Hy). apply bind_Some in Hy as ([b l5] & Hb & [= <- <-]).
  apply getnum_range in Ha, Hb, Hm, Hd. unfold date_small. cbn. lia.
Qed.
Lemma parse_format_date d : date_small d → parse_date (chars (format_date d)) = Some (d, []).
Proof.
  intros (Hy & Hm & Hd). unfold format_date. rewrite chars_of_list. unfold parse_date, getyear.
  assert (getnum (digit_char (year d / 1000) :: digit_char (year d / 100) :: digit_char (year d / 10) :: digit_char (year d) ::
    [digit_char (month d / 10); digit_char (month d); digit_char (day d / 10); digit_char (day d)]) true =
    Some (year d / 100, digit_char (year d / 10) :: digit_char (year d) ::
    [digit_char (month d / 10); digit_char (month d); digit_char (day d / 10); digit_char (day d)])%Z) as ->.
  { replace (year d / 1000)%Z with (year d / 100 / 10)%Z by (by rewrite Z.div_div by lia).
    apply getnum_format. split; [apply Z.div_pos; lia|]. enough (year d / 100 < 100)%Z by lia. apply Z.div_lt_upper_bound; lia. }
  cbn [mbind option_bind].
  assert (∀ l, getnum (digit_char (year d / 10) :: digit_char (year d) :: l) true = Some (year d mod 100, l)%Z) as ->.
  { intros l. rewrite <- (proj1 (digit_char_mod (year d))), <- (proj2 (digit_char_mod (year d))).
    apply getnum_format. pose proof (Z.mod_pos_bound (year d) 100). lia. }
  cbn [mbind option_bind]. rewrite !getnum_format by done. cbn [mbind option_bind]. do 2 f_equal.
  rewrite !getnum_format by done. cbn. destruct d as [y m dd]. cbn in *. repeat f_equal.
  pose proof (Z.div_mod y 100 ltac:(lia)). lia.
Qed.
Lemma parse_amz_date_scope s d t : parse_amz_date s = Some (d, t) → validScopeDate (format_date d) = true.
Proof.
  unfold parse_amz_date. intros H. apply bind_Some in H as ([d0 l] & Hd & H). pose proof (parse_date_small _ _ _ Hd) as Hs.
  assert (d0 = d ∧ date_ok d = true) as [-> Hok].
  { destruct l as [|c l]; [done|]. destruct (bool_decide _); [|done]. apply bind_Some in H as ([h l1] & _ & H).
    apply bind_Some in H as ([mi l2] & _ & H). apply bind_Some in H as ([sec l3] & _ & H). destruct (fraction l3) as [ns l4].
    destruct (bool_decide _ && date_ok d0 && _) eqn:E; [|done]. injection H as <- _. apply andb_prop in E as [E _]. by apply andb_prop in E as [_ ?]. }
  unfold validScopeDate. rewrite parse_format_date by done. cbn [negb]. rewrite Hok, bool_decide_eq_true_2 by done. done.
Qed.
Lemma format_date_token d : token (format_date d).
Proof.
  split; [done|]. unfold format_date. rewrite chars_of_list.
  assert (∀ n, token_char (digit_char n) = true) as Hd; [|by repeat (apply Forall_cons; split; [apply Hd|])].
  intros n. unfold digit_char. pose proof (Z.mod_pos_bound n 10 ltac:(lia)) as H. revert H. generalize (n mod 10)%Z. intros k Hk.
  assert (k = 0 ∨ k = 1 ∨ k = 2 ∨ k = 3 ∨ k = 4 ∨ k = 5 ∨ k = 6 ∨ k = 7 ∨ k = 8 ∨ k = 9)%Z as Hc by lia.
  by repeat destruct Hc as [->|Hc]; [..|subst k].
Qed.
