(* ===== verification/S3SigTheorems.v ===== *)
(** * AWS signature version 4: its contract (S3Sig.v) *)
From S2P Require Import Prelude GF GoLib Repair S3Sig S3SigProps S3Sign.
From Stdlib Require Import Strings.Byte Strings.Ascii.
Local Open Scope string_scope.

Lemma sha256_inj a b : sha256 a = sha256 b → collision ∨ a = b.
Proof. intros H. destruct (decide (a = b)) as [|Hne]; [by right|]. left. exists a, b. split; [done|]. unfold sha256_hex. by rewrite H. Qed.
Lemma hmac_inj k m m' : hmac_sha256 k m = hmac_sha256 k m' → collision ∨ m = m'.
Proof.
  unfold hmac_sha256. set (key := (_ ++ replicate _ x00)%list). intros [?|H]%sha256_inj; [by left|].
  apply app_inv_head in H. apply sha256_inj in H as [?|H]; [by left|]. right. by apply app_inv_head in H.
Qed.
#[local] Opaque sha256 hmac_sha256 hex_encode.
Lemma stringToSign_inj amz amz' scope creq creq' :
  no_char (ascii_of_N 10) amz → no_char (ascii_of_N 10) amz' →
  stringToSign amz scope creq = stringToSign amz' scope creq' → collision ∨ (amz = amz' ∧ creq = creq').
Proof.
  intros Ha Ha' H. unfold stringToSign in H. cbn [join] in H. apply string_app_inv_head in H.
  change (newline ++ ?x) with (String (ascii_of_N 10) x) in H. injection H as H. apply cut_inj in H as [-> H]; [|done..].
  apply string_app_inv_head in H. injection H as H. gostr. unfold sha256_hex in H. apply (inj hex_encode) in H. apply sha256_inj in H as [?|H]; [by left|right].
  split; [done|]. by apply (inj bytes_of) in H.
Qed.

(** C36: a signature speaks for one request: two requests accepted with the same
    Authorization header have the same method, decoded path, query settings (whatever
    their order and spelling), date, payload hash, host and signed headers up to white
    space, or SHA-256 collides; and no x-amz header of either is left unsigned. *)
Theorem signature_binds_request lookup now now' r r' a a' :
  VerifyRequest r (Some lookup) now = Ok a → VerifyRequest r' (Some lookup) now' = Ok a' →
  header_get r "authorization" = header_get r' "authorization" → http_ok r → http_ok r' →
  collision ∨
  (same_request (SignedHeaders a) r r' ∧ SignedHeaders a' = SignedHeaders a ∧
   header_get r "x-amz-date" = header_get r' "x-amz-date" ∧
   header_get r "x-amz-content-sha256" = header_get r' "x-amz-content-sha256" ∧
   (∀ n, n ∈ ["host"; "x-amz-content-sha256"; "x-amz-date"] → n ∈ SignedHeaders a) ∧
   ∀ n, is_Some (r_Header r !! n) ∨ is_Some (r_Header r' !! n) → starts_x_amz n = true → n ∈ SignedHeaders a).
Proof.
  intros (p & date & region & service & secret & creq & d & t & V & ->)%VerifyRequest_ok
    (p' & date' & region' & service' & secret' & creq' & d' & t' & V' & ->)%VerifyRequest_ok Hauth Hr Hr'.
  assert (p' = p) as -> by (pose proof (v_parsed _ _ _ _ _ _ _ _ _ _ _ V); pose proof (v_parsed _ _ _ _ _ _ _ _ _ _ _ V'); congruence).
  destruct V as [_ _ Hsc Hs _ _ _ _ Hv Hc Hsig], V' as [_ _ Hsc' Hs' _ _ _ _ Hv' Hc' Hsig'].
  assert (date' = date ∧ region' = region ∧ service' = service ∧ secret' = secret) as (-> & -> & -> & ->)
    by (rewrite Hsc in Hsc'; injection Hsc' as -> -> ->; split_and!; congruence).
  cbn [SignedHeaders]. rewrite <- Hsig' in Hsig. unfold signature_of in Hsig. apply (inj hex_encode) in Hsig.
  apply hmac_inj in Hsig as [?|Hsig%(inj bytes_of)]; [by left|].
  apply stringToSign_inj in Hsig as [?|[Hd ->]]; [by left| |by apply header_get_no_newline..]. right.
  destruct (canonicalRequest_inj r r' (signedHeaders p) _ _ creq' Hr Hr' (signed_names r _ _ _ Hr Hc)
    (header_get_no_newline _ _ Hr) (header_get_no_newline _ _ Hr') Hc Hc') as [Hsame Hpay].
  destruct (required_headers _ _ Hv) as [Hreq Hx]. destruct (required_headers _ _ Hv') as [_ Hx'].
  split_and!; try done. intros n [Hn|Hn] Hpre; auto.
Qed.

Lemma hex_token l : l ≠ [] → token (hex_encode l).
Proof.
  intros Hl. split.
  - intros E. apply (f_equal String.length) in E. rewrite hex_encode_length in E. by destruct l.
  - apply Forall_forall. intros c Hc%hex_encode_is_hex. revert Hc. destruct c as [[] [] [] [] [] [] [] []]; (discriminate || reflexivity).
Qed.
Lemma accepts_signed r lookup now ak secret region service names creq d t :
  lookup ak = Some secret → token ak → token region → token service →
  (∀ n, n ∈ names → token n ∧ ToLower n = n) → sort_strings names = names →
  validateSignedHeaders r names = None →
  parse_amz_date (header_get r "x-amz-date") = Some (d, t) → (now - maxClockSkew ≤ t ≤ now + maxClockSkew)%Z →
  header_get r "x-amz-content-sha256" ≠ "" →
  canonicalRequest r names (header_get r "x-amz-content-sha256") = Ok creq →
  header_get r "authorization" = authorization ak (format_date d) region service names
    (signature_of secret (format_date d) region service
       (stringToSign (header_get r "x-amz-date") (join [format_date d; region; service; "aws4_request"] "/") creq)) →
  VerifyRequest r (Some lookup) now = Ok (MkAuth ak region service names t).
Proof.
  intros Hs Hak Hre Hse Hn Hsort Hv Ht Hskew Hp Hc Ha. pose proof (parse_amz_date_scope _ _ _ Ht) as Hdate.
  pose proof (format_date_token d) as Hd.
  assert (names ≠ []) as Hne by (destruct (canonicalRequest_spec _ _ _ _ Hc); done).
  assert (header_get r "x-amz-date" ≠ "") as Hamz by (intros E; by rewrite E in Ht).
  unfold VerifyRequest. set (sig := signature_of _ _ _ _ _) in *.
  assert (token sig) as Hsig.
  { apply hex_token. intros E. apply (f_equal length) in E. by rewrite hmac_sha256_length in E. }
  rewrite bool_decide_eq_false_2; [|rewrite Ha; done]. rewrite Ha, authorization_fields by done. cbn [rbind algorithm scope accessKey signedHeaders signature].
  rewrite bool_decide_eq_true_2 by done. cbn [negb]. rewrite bool_decide_eq_true_2 by done. cbn [negb]. rewrite Hs. cbv zeta.
  rewrite bool_decide_eq_false_2 by done. rewrite Ht, Hdate. cbn [negb]. rewrite bool_decide_eq_true_2 by done. cbn [negb].
  rewrite !(proj2 (Z.ltb_ge _ _)) by lia. cbn [orb]. rewrite bool_decide_eq_false_2 by done. rewrite Hv, Hc. cbn [rbind].
  by rewrite bool_decide_eq_true_2.
Qed.

(** ** Findings and witnesses *)
(** The verifier reads a plus sign of the query as a plus sign, the handlers as a space. *)
Lemma plus_is_ambiguous :
  canonicalQuery "prefix=a+b" = canonicalQuery "prefix=a%2Bb" ∧
  q_get (ParseQuery "prefix=a+b") "prefix" = "a b" ∧ q_get (ParseQuery "prefix=a%2Bb") "prefix" = "a+b".
Proof. split_and!; reflexivity. Qed.

Definition w_names : list string := ["host"; "x-amz-content-sha256"; "x-amz-date"].
Definition w_date : date := MkDate 2013 5 24.
Definition w_headers (auth : string) : gmap string (list string) :=
  {["authorization" := [auth]; "x-amz-date" := ["20130524T000000Z"]; "x-amz-content-sha256" := ["UNSIGNED-PAYLOAD"]]}.
Definition w_request (query auth : string) : s3_request := MkS3Request "GET" "/photos/cat%20%26.jpg" query "example.com" (w_headers auth).
Definition w_creq : string := match canonicalRequest (w_request "b=2&a=1" "") w_names "UNSIGNED-PAYLOAD" with Ok c => c | Err _ => "" end.
Definition w_signature : string :=
  signature_of "secret" "20130524" "us-east-1" "s3" (stringToSign "20130524T000000Z" "20130524/us-east-1/s3/aws4_request" w_creq).
Definition w_auth : string := authorization "AK" "20130524" "us-east-1" "s3" w_names w_signature.
Definition w_keys (k : string) : option string := if bool_decide (k = "AK") then Some "secret" else None.
Definition w_clock : Z := 1369353700000000000.
Lemma w_signature_token : token w_signature.
Proof. apply hex_token. intros E. apply (f_equal length) in E. by rewrite hmac_sha256_length in E. Qed.
Lemma w_canonical q : q ∈ ["b=2&a=1"; "a=1&b=2"] → canonicalRequest (w_request q w_auth) w_names "UNSIGNED-PAYLOAD" = Ok w_creq.
Proof. intros [->|[->|[]%not_elem_of_nil]%elem_of_cons]%elem_of_cons; reflexivity. Qed.
Lemma w_tokens : token "AK" ∧ token "us-east-1" ∧ token "s3" ∧ ∀ n, n ∈ w_names → token n ∧ ToLower n = n.
Proof.
  assert (∀ s, s ≠ "" → forallb token_char (chars s) = true → token s) as Ht.
  { intros s Hs Hf. split; [done|]. apply Forall_forall. intros c Hc. rewrite forallb_forall in Hf. by apply Hf, list_elem_of_In. }
  split_and!; try (by apply Ht). intros n Hn. unfold w_names in Hn. rewrite !elem_of_cons in Hn.
  destruct Hn as [->|[->|[->|[]%not_elem_of_nil]]]; (split; [by apply Ht|done]).
Qed.
Lemma w_accepted q : q ∈ ["b=2&a=1"; "a=1&b=2"] →
  VerifyRequest (w_request q w_auth) (Some w_keys) w_clock = Ok (MkAuth "AK" "us-east-1" "s3" w_names 1369353600000000000).
Proof.
  intros Hq. destruct w_tokens as (H1 & H2 & H3 & H4).
  apply (accepts_signed (w_request q w_auth) w_keys w_clock "AK" "secret" "us-east-1" "s3" w_names w_creq w_date);
    try assumption; try reflexivity; [split; apply (bool_decide_unpack _); reflexivity|discriminate|by apply w_canonical].
Qed.
Lemma w_http_ok q auth : no_char (ascii_of_N 10) auth → http_ok (w_request q auth).
Proof.
  intros Ha. split; [by apply (bool_decide_unpack _)|by eexists|by apply (bool_decide_unpack _)| |].
  - intros n [vs Hn]. unfold w_request, w_headers in Hn. cbn [r_Header] in Hn.
    rewrite !lookup_insert_Some, lookup_singleton_Some in Hn.
    destruct Hn as [[<- _]|[_ [[<- _]|[_ [<- _]]]]]; by apply (bool_decide_unpack _).
  - intros n vs v Hn Hv. unfold w_request, w_headers in Hn. cbn [r_Header] in Hn.
    rewrite !lookup_insert_Some, lookup_singleton_Some in Hn.
    destruct Hn as [[_ <-]|[_ [[_ <-]|[_ [_ <-]]]]]; apply list_elem_of_singleton in Hv as ->; (assumption || by apply (bool_decide_unpack _)).
Qed.
Lemma w_auth_line : no_char (ascii_of_N 10) w_auth.
Proof.
  unfold w_auth. pose proof w_signature_token as Hs. revert Hs. generalize w_signature. intros sig Hs.
  unfold authorization. rewrite !no_char_app.
  split_and!; [by apply (bool_decide_unpack _)..|]. by apply token_no_char.
Qed.
Lemma signature_binds_request_witness : collision ∨ decoded_query "b=2&a=1" ≡ₚ decoded_query "a=1&b=2".
Proof.
  destruct (signature_binds_request w_keys w_clock w_clock (w_request "b=2&a=1" w_auth) (w_request "a=1&b=2" w_auth) _ _
    (w_accepted _ (list_elem_of_here _ _)) (w_accepted _ (list_elem_of_further _ _ _ (list_elem_of_here _ _))) eq_refl (w_http_ok _ _ w_auth_line) (w_http_ok _ _ w_auth_line))
    as [?|[(_ & _ & H & _) _]]; [by left|by right].
Defined.
