(* ===== verification/S3Api.v ===== *)
(** * The S3 dialect: routes and listings

    [Classify] of internal/s3api/operation.go, the answers of internal/s3api/responses.go and
    the parts of the handlers of internal/edge/edge.go that only compute: limits, the page of
    ListParts and the page of ListObjectsV2.  XML is not modelled: an answer is the record
    that is encoded. *)
From S2P Require Import Prelude GF GoLib Meta S3Sig.
From Stdlib Require Import Strings.Ascii.
Local Open Scope string_scope.

(** ** Routes *)
Inductive Operation : Type :=
  | OperationUnsupported | OperationListBuckets | OperationCreateBucket | OperationDeleteBucket
  | OperationPutObject | OperationGetObject | OperationHeadObject | OperationDeleteObject
  | OperationListObjectsV2 | OperationCreateMultipartUpload | OperationUploadPart | OperationListParts
  | OperationCompleteMultipartUpload | OperationAbortMultipartUpload.
Record RequestInfo : Type := MkInfo
  { i_Operation : Operation; i_Bucket : string; i_Key : string; i_Resource : string }.

(** [r.URL.Query()] *)
Definition url_query (r : s3_request) : url_values := ParseQuery (r_RawQuery r).
(** [strings.TrimPrefix(s, p)] *)
Definition TrimPrefix (s p : string) : string := default s (strip_prefix p s).
(** An escape that does not decode gives the empty string. *)
Definition splitS3Path (escapedPath : string) : string * string :=
  let trimmed := TrimPrefix escapedPath "/" in
  if bool_decide (trimmed = "") then ("", "")
  else
    let unescaped s := default "" (path_unescape s) in
    match cut trimmed "/" with
    | None => (unescaped trimmed, "")
    | Some (head, tail) => if bool_decide (tail = "") then (unescaped head, "") else (unescaped head, unescaped tail)
    end.

Definition bucket_operation (method : string) (q : url_values) : Operation :=
  if bool_decide (method = "PUT") then OperationCreateBucket
  else if bool_decide (method = "DELETE") then OperationDeleteBucket
  else if bool_decide (method = "GET") && bool_decide (q_get q "list-type" = "2") then OperationListObjectsV2
  else OperationUnsupported.
Definition object_operation (method : string) (q : url_values) : Operation :=
  let upload := negb (bool_decide (q_get q "uploadId" = "")) in
  if bool_decide (method = "PUT") then
    if upload && negb (bool_decide (q_get q "partNumber" = "")) then OperationUploadPart else OperationPutObject
  else if bool_decide (method = "GET") then if upload then OperationListParts else OperationGetObject
  else if bool_decide (method = "HEAD") then OperationHeadObject
  else if bool_decide (method = "DELETE") then if upload then OperationAbortMultipartUpload else OperationDeleteObject
  else if bool_decide (method = "POST") then
    match q !! "uploads" with
    | Some _ => OperationCreateMultipartUpload
    | None => if upload then OperationCompleteMultipartUpload else OperationUnsupported
    end
  else OperationUnsupported.
Definition Classify (r : s3_request) : RequestInfo :=
  let resource := if bool_decide (r_EscapedPath r = "") then "/" else r_EscapedPath r in
  let '(bucket, key) := splitS3Path resource in
  let op :=
    if bool_decide (bucket = "") && bool_decide (key = "") && bool_decide (r_Method r = "GET") then OperationListBuckets
    else if bool_decide (bucket = "") then OperationUnsupported
    else if bool_decide (key = "") then bucket_operation (r_Method r) (url_query r)
    else object_operation (r_Method r) (url_query r) in
  MkInfo op bucket key resource.

(** ** Answers *)
Record ObjectContent : Type := MkContent { oc_Key : string; LastModified : Z; oc_ETag : string; oc_Size : Z }.
Record ListBucketResult : Type := MkListing
  { l_Name : string; l_Prefix : string; KeyCount : nat; MaxKeys : Z; IsTruncated : bool;
    ContinuationToken : string; NextContinuationToken : string; StartAfter : string;
    Contents : list ObjectContent; CommonPrefixes : list string }.
Record Part : Type := MkPartEntry { pe_PartNumber : Z; pe_LastModified : Z; pe_ETag : string; pe_Size : Z }.
Record ListPartsResult : Type := MkPartsPage
  { lp_Bucket : string; lp_Key : string; lp_UploadID : string; PartNumberMarker : Z; NextPartNumberMarker : Z;
    MaxParts : Z; lp_IsTruncated : bool; lp_Parts : list Part }.

(** ** Limits *)
Definition s3MaxKeys (q : url_values) : Z :=
  let raw := q_get q "max-keys" in
  if bool_decide (raw = "") then 1000
  else match parse_int raw with
       | None => 1000
       | Some n => if (n <? 0)%Z then 1000 else if (1000 <? n)%Z then 1000 else n
       end.
Definition s3MaxParts (q : url_values) : Z :=
  let raw := q_get q "max-parts" in
  if bool_decide (raw = "") then 1000
  else match parse_int raw with
       | None => 1000
       | Some n => if (n <=? 0)%Z then 1000 else if (1000 <? n)%Z then 1000 else n
       end.
Definition s3PartNumberMarker (q : url_values) : Z :=
  let raw := q_get q "part-number-marker" in
  if bool_decide (raw = "") then 0
  else match parse_int raw with
       | None => 0
       | Some n => if (n <? 0)%Z then 0 else n
       end.

(** ** The page of ListParts *)
Definition part_entry (p : MultipartPartMeta) : Part := MkPartEntry (PartNumber p) (p_CreatedAt p) (p_ETag p) (p_Size p).
Definition add_part (resp : ListPartsResult) (p : MultipartPartMeta) : ListPartsResult :=
  MkPartsPage (lp_Bucket resp) (lp_Key resp) (lp_UploadID resp) (PartNumberMarker resp) (PartNumber p)
    (MaxParts resp) (lp_IsTruncated resp) (lp_Parts resp ++ [part_entry p]).
Fixpoint parts_loop (parts : list MultipartPartMeta) (resp : ListPartsResult) : ListPartsResult :=
  match parts with
  | [] => resp
  | part :: parts =>
      if (PartNumber part <=? PartNumberMarker resp)%Z then parts_loop parts resp
      else if (Z.of_nat (length (lp_Parts resp)) =? MaxParts resp)%Z
      then MkPartsPage (lp_Bucket resp) (lp_Key resp) (lp_UploadID resp) (PartNumberMarker resp)
             (NextPartNumberMarker resp) (MaxParts resp) true (lp_Parts resp)
      else parts_loop parts (add_part resp part)
  end.
Definition parts_page (bucket key uploadID : string) (q : url_values) (parts : list MultipartPartMeta) : ListPartsResult :=
  parts_loop parts (MkPartsPage bucket key uploadID (s3PartNumberMarker q) 0 (s3MaxParts q) false []).

(** ** The page of ListObjectsV2 *)
Definition key_le (a b : ObjectMeta) : Prop := String.le (Key a) (Key b).
#[export] Instance key_le_dec : RelDecision key_le.
Proof. intros a b. unfold key_le. apply _. Defined.
(** [idx := strings.Index(s, sep)]: [s[:idx]] and what follows the separator. *)
Fixpoint cut_sub (s sep : string) : option (string * string) :=
  match strip_prefix sep s with
  | Some t => Some ("", t)
  | None => match s with
            | "" => None
            | String c s => match cut_sub s sep with Some (a, b) => Some (String c a, b) | None => None end
            end
  end.
Definition common_prefix (prefix delimiter key : string) : option string :=
  if bool_decide (delimiter = "") then None
  else match cut_sub (TrimPrefix key prefix) delimiter with
       | Some (a, _) => Some (prefix ++ a ++ delimiter)
       | None => None
       end.
Inductive emission : Type := EmitObject (o : ObjectMeta) | EmitPrefix (p : string).
Definition past (cursor s : string) : bool := negb (bool_decide (cursor = "")) && bool_decide (String.le s cursor).
Fixpoint emit_loop (prefix delimiter cursor : string) (seenPrefix : gset string) (objs : list ObjectMeta) : list emission :=
  match objs with
  | [] => []
  | o :: objs =>
      if past cursor (Key o) then emit_loop prefix delimiter cursor seenPrefix objs
      else match common_prefix prefix delimiter (Key o) with
           | Some common =>
               if past cursor common then emit_loop prefix delimiter cursor seenPrefix objs
               else if bool_decide (common ∈ seenPrefix) then emit_loop prefix delimiter cursor seenPrefix objs
               else EmitPrefix common :: emit_loop prefix delimiter cursor ({[common]} ∪ seenPrefix) objs
           | None => EmitObject o :: emit_loop prefix delimiter cursor seenPrefix objs
           end
  end.
Definition content (o : ObjectMeta) : ObjectContent := MkContent (Key o) (CreatedAt o) (ETag o) (Size o).
Definition add_emission (resp : ListBucketResult) (e : emission) : ListBucketResult :=
  match e with
  | EmitObject o => MkListing (l_Name resp) (l_Prefix resp) (KeyCount resp) (MaxKeys resp) (IsTruncated resp)
      (ContinuationToken resp) (Key o) (StartAfter resp) (Contents resp ++ [content o]) (CommonPrefixes resp)
  | EmitPrefix p => MkListing (l_Name resp) (l_Prefix resp) (KeyCount resp) (MaxKeys resp) (IsTruncated resp)
      (ContinuationToken resp) p (StartAfter resp) (Contents resp) (CommonPrefixes resp ++ [p])
  end.
Definition objects_page (bucket : string) (q : url_values) (objs : list ObjectMeta) : ListBucketResult :=
  let prefix := q_get q "prefix" in
  let delimiter := q_get q "delimiter" in
  let maxKeys := s3MaxKeys q in
  let continuation := q_get q "continuation-token" in
  let startAfter := q_get q "start-after" in
  let objs := merge_sort key_le objs in
  let cursor := if bool_decide (continuation = "") then startAfter else continuation in
  let emissions := emit_loop prefix delimiter cursor ∅ objs in
  let limit := if (Z.of_nat (length emissions) <? maxKeys)%Z then length emissions else Z.to_nat maxKeys in
  let resp := foldl add_emission (MkListing bucket prefix 0 maxKeys false continuation "" startAfter [] []) (take limit emissions) in
  let truncated := (limit <? length emissions)%nat in
  MkListing (l_Name resp) (l_Prefix resp) (length (Contents resp) + length (CommonPrefixes resp))%nat (MaxKeys resp) truncated
    (ContinuationToken resp) (if truncated then NextContinuationToken resp else "") (StartAfter resp) (Contents resp) (CommonPrefixes resp).

(** max-keys=0 announces more keys and gives no token to ask for them. *)
Lemma zero_keys_never_end o :
  let p := objects_page "b" {["max-keys" := ["0"]]} [o] in IsTruncated p = true ∧ NextContinuationToken p = "".
Proof. split; reflexivity. Qed.
