(* ===== verification/S3Listing.v ===== *)
(** * ListObjectsV2: its pages are one listing

    Following the continuation tokens from any request gives, without a repetition or a gap,
    what the request asks for. *)
From S2P Require Import Prelude GF GoLib Kv Meta S3Sig S3Api.
From Stdlib Require Import Strings.Ascii.
Local Open Scope string_scope.

(** ** Strict byte order *)
Definition slt (a b : string) : Prop := ¬ String.le b a.
Lemma slt_le a b : slt a b → String.le a b.
Proof. intros H. destruct (total String.le a b); [done|]. by destruct H. Qed.
Lemma slt_ne a b : slt a b → a ≠ b.
Proof. intros H ->. by apply H. Qed.
Lemma le_slt_trans a b c : String.le a b → slt b c → slt a c.
Proof. intros Hab Hbc Hca. apply Hbc. by etrans. Qed.
Lemma slt_le_trans a b c : slt a b → String.le b c → slt a c.
Proof. intros Hab Hbc Hca. apply Hab. by etrans. Qed.
#[export] Instance slt_trans : Transitive slt.
Proof. intros a b c H1 H2. eapply le_slt_trans; [by apply slt_le|done]. Qed.

(** ** Prefixes and separators *)
Lemma strip_prefix_spec p s t : strip_prefix p s = Some t ↔ s = p ++ t.
Proof.
  revert s. induction p as [|c p IH]; intros s; cbn [strip_prefix].
  { rewrite string_app_nil_l. split; [by intros [= ->]|by intros ->]. }
  destruct s as [|d s]; [split; [done|by rewrite string_app_cons]|]. rewrite string_app_cons. destruct (Ascii.eqb_spec c d) as [->|Hne].
  - rewrite IH. split; [by intros ->|by intros [= ->]].
  - split; [done|]. intros [= -> _]. done.
Qed.
Lemma strip_prefix_app p t : strip_prefix p (p ++ t) = Some t.
Proof. by apply strip_prefix_spec. Qed.
(** Whether [p] begins [x ++ y] does not depend on [y] when [x] is as long as [p]. *)
Lemma strip_prefix_long p x y y' : (String.length p ≤ String.length x)%nat →
  strip_prefix p (x ++ y) = None → strip_prefix p (x ++ y') = None.
Proof.
  revert x. induction p as [|c p IH]; intros [|d x]; cbn [String.length]; try (cbn; done || lia).
  rewrite !string_app_cons. cbn [strip_prefix]. destruct (Ascii.eqb c d); [|done]. intros Hl. apply IH. lia.
Qed.
Lemma cut_sub_spec s sep a b : cut_sub s sep = Some (a, b) →
  s = a ++ sep ++ b ∧ ∀ b', cut_sub (a ++ sep ++ b') sep = Some (a, b').
Proof.
  revert a b. induction s as [|c s IH]; intros a b; cbn [cut_sub].
  - destruct (strip_prefix sep "") as [t|] eqn:Hs; [|done]. intros [= <- <-]. apply strip_prefix_spec in Hs as E.
    rewrite !string_app_nil_l. split; [done|]. intros b'. destruct sep; [by destruct b'|done].
  - destruct (strip_prefix sep (String c s)) as [t|] eqn:Hs.
    + intros [= <- <-]. apply strip_prefix_spec in Hs as E. rewrite string_app_nil_l. split; [done|]. intros b'.
      rewrite string_app_nil_l. pose proof (strip_prefix_app sep b') as Hb. by destruct (sep ++ b'); cbn [cut_sub]; rewrite Hb.
    + destruct (cut_sub s sep) as [[a' b1]|] eqn:Hc; [|done]. intros [= <- <-]. destruct (IH _ _ eq_refl) as [-> Hall].
      rewrite !string_app_cons in *. split; [done|]. intros b'. rewrite string_app_cons. cbn [cut_sub].
      rewrite string_app_assoc in Hs. rewrite Hall, string_app_assoc.
      rewrite <- string_app_cons in *. erewrite (strip_prefix_long _ (String c (a' ++ sep))) by
        (try exact Hs; cbn [String.length]; rewrite string_length_app; lia). done.
Qed.

Lemma NoDup_fmap_filter {A B} (f : A → B) (P : A → Prop) `{∀ a, Decision (P a)} (l : list A) :
  NoDup (f <$> l) → NoDup (f <$> filter P l).
Proof.
  induction l as [|a l IH]; [done|]. rewrite fmap_cons, NoDup_cons, filter_cons. intros [Hn Hnd].
  case_decide; [|by apply IH]. rewrite fmap_cons. constructor; [|by apply IH].
  intros (a' & E & Ha')%list_elem_of_fmap. apply list_elem_of_filter in Ha' as [_ Ha']. apply Hn. rewrite E. by apply list_elem_of_fmap_2.
Qed.

Section listing.
Context (prefix delimiter : string).
Notation common := (common_prefix prefix delimiter).
Definition under (k : string) : Prop := ∃ t, k = prefix ++ t.

(** The common prefix begins the key, and is that of every key it begins. *)
Lemma common_spec k c : under k → common k = Some c →
  c ≠ "" ∧ (∃ t, k = c ++ t) ∧ ∀ t, common (c ++ t) = Some c.
Proof.
  intros [r ->]. unfold common_prefix, TrimPrefix. case_bool_decide as Hd; [done|]. rewrite strip_prefix_app. cbn [default from_option id].
  destruct (cut_sub r delimiter) as [[a b]|] eqn:Hc; [|done]. intros [= <-]. apply cut_sub_spec in Hc as [-> Hall].
  split; [|split].
  - intros E%(f_equal String.length). rewrite !string_length_app in E. apply Hd. destruct delimiter; [done|cbn in E; lia].
  - exists b. by rewrite !string_app_assoc.
  - intros t. rewrite <- !string_app_assoc, strip_prefix_app. unfold default, from_option, id. by rewrite Hall.
Qed.
Lemma common_le k c : under k → common k = Some c → String.le c k.
Proof. intros Hu (_ & [t ->] & _)%common_spec; [|done]. apply le_prefix. Qed.
(** A key below another one is below the other's common prefix too, or shares it. *)
Lemma below_common k k' c : under k' → slt k k' → common k' = Some c → slt k c ∨ common k = Some c.
Proof.
  intros Hu Hlt (_ & [t ->] & Hall)%common_spec; [|done]. destruct (decide (String.le c k)) as [Hck|]; [right|by left].
  destruct (le_between_prefix c k t Hck (slt_le _ _ Hlt)) as [u ->]. apply Hall.
Qed.

(** ** The emissions of a sorted list of keys *)
Definition token (e : emission) : string := match e with EmitObject o => Key o | EmitPrefix p => p end.
Definition emits (objs : list ObjectMeta) (seen : gset string) (e : emission) : Prop :=
  match e with
  | EmitObject o => o ∈ objs ∧ common (Key o) = None
  | EmitPrefix c => c ∉ seen ∧ ∃ o, o ∈ objs ∧ common (Key o) = Some c
  end.
Lemma past_empty s : past "" s = false.
Proof. done. Qed.
Lemma past_false cursor s : past cursor s = false ↔ cursor = "" ∨ slt cursor s.
Proof. unfold past, slt. rewrite andb_false_iff, negb_false_iff, bool_decide_eq_true, bool_decide_eq_false. done. Qed.

Lemma past_le cursor c k : past cursor k = true → String.le c k → past cursor c = true.
Proof. unfold past. rewrite !andb_true_iff, !bool_decide_eq_true. intros [? ?] ?. split; [done|]. by etrans. Qed.
(** What skipping, emitting and grouping an object mean for what is still to be emitted. *)
Lemma emits_skip cursor o objs seen e :
  match common (Key o) with Some c => c ∈ seen ∨ past cursor c = true | None => past cursor (Key o) = true end →
  emits objs seen e ∧ past cursor (token e) = false ↔ emits (o :: objs) seen e ∧ past cursor (token e) = false.
Proof.
  intros Hskip. destruct e as [o'|c]; cbn [emits token].
  - rewrite elem_of_cons. split; [tauto|]. intros [[[->|?] Hc] Hf]; [|tauto]. rewrite Hc in Hskip. congruence.
  - split; intros [(Hns & o' & Ho' & Hc) Hf]; (split; [split; [done|]|done]); [exists o'; split; [by right|done]|].
    apply elem_of_cons in Ho' as [->|?]; [|by exists o']. rewrite Hc in Hskip. destruct Hskip; [done|congruence].
Qed.
Lemma emits_object o objs seen e : common (Key o) = None →
  emits (o :: objs) seen e ↔ e = EmitObject o ∨ emits objs seen e.
Proof.
  intros Hc. destruct e as [o'|c]; cbn [emits].
  - rewrite elem_of_cons. split; [intros [[->|?] ?]; tauto|]. intros [[= ->]|[? ?]]; tauto.
  - split; [|intros [?|(Hns & o' & ? & ?)]; [done|]; split; [done|]; exists o'; split; [by right|done]].
    intros (Hns & o' & [->|?]%elem_of_cons & ?); [congruence|]. right. split; [done|by exists o'].
Qed.
Lemma emits_prefix o objs seen e c : common (Key o) = Some c → c ∉ seen →
  emits (o :: objs) seen e ↔ e = EmitPrefix c ∨ emits objs ({[c]} ∪ seen) e.
Proof.
  intros Hc Hs. destruct e as [o'|c']; cbn [emits].
  - rewrite elem_of_cons. split; [intros [[->|?] ?]; [congruence|tauto]|]. intros [?|?]; [done|tauto].
  - split.
    + intros (Hns & o' & Ho' & Hc'). destruct (decide (c' = c)) as [->|Hne]; [by left|right].
      split; [set_solver|]. apply elem_of_cons in Ho' as [->|?]; [congruence|by exists o'].
    + intros [[= ->]|(Hns & o' & ? & ?)]; [split; [done|]; exists o; split; [by left|done]|].
      split; [set_solver|]. exists o'. split; [by right|done].
Qed.
Lemma emit_loop_in cursor seen objs e :
  Forall under (Key <$> objs) →
  (e ∈ emit_loop prefix delimiter cursor seen objs ↔ emits objs seen e ∧ past cursor (token e) = false).
Proof.
  revert seen. induction objs as [|o objs IH]; intros seen Hu; cbn [emit_loop].
  { split; [by intros ?%not_elem_of_nil|]. intros [He _]. destruct e as [o|c]; [by destruct He as [?%not_elem_of_nil _]|].
    by destruct He as (_ & o & ?%not_elem_of_nil & _). }
  apply Forall_cons in Hu as [Ho Hu]. destruct (past cursor (Key o)) eqn:Hp; [|destruct (common (Key o)) as [c|] eqn:Hc].
  - rewrite IH by done. apply emits_skip. destruct (common (Key o)) as [c|] eqn:Hc; [right|done]. by eapply past_le, common_le.
  - destruct (past cursor c) eqn:Hpc; [|case_bool_decide as Hs].
    + rewrite IH by done. apply emits_skip. rewrite Hc. by right.
    + rewrite IH by done. apply emits_skip. rewrite Hc. by left.
    + rewrite elem_of_cons, IH, (emits_prefix o _ _ _ c) by done. split; [intros [->|?]; tauto|tauto].
  - rewrite elem_of_cons, IH, (emits_object o) by done. split; [intros [->|?]; tauto|tauto].
Qed.

Lemma emit_loop_length cursor seen objs : (length (emit_loop prefix delimiter cursor seen objs) ≤ length objs)%nat.
Proof.
  revert seen. induction objs as [|o objs IH]; intros seen; cbn [emit_loop]; [done|].
  repeat case_match; cbn [length]; try (etrans; [apply IH|lia]); specialize (IH ({[s]} ∪ seen)) || specialize (IH seen); lia.
Qed.
Lemma sorted_cons_keys o objs : StronglySorted slt (Key <$> o :: objs) →
  StronglySorted slt (Key <$> objs) ∧ ∀ o', o' ∈ objs → slt (Key o) (Key o').
Proof.
  rewrite fmap_cons, StronglySorted_cons, Forall_forall. intros [Hall Hs]. split; [done|]. intros o' Ho'. apply Hall. by apply list_elem_of_fmap_2.
Qed.
Lemma emit_loop_sorted cursor seen objs :
  Forall under (Key <$> objs) → StronglySorted slt (Key <$> objs) →
  StronglySorted slt (token <$> emit_loop prefix delimiter cursor seen objs).
Proof.
  revert seen. induction objs as [|o objs IH]; intros seen Hu Hs; cbn [emit_loop]; [constructor|].
  rewrite fmap_cons in Hu. apply Forall_cons in Hu as [Ho Hu]. apply sorted_cons_keys in Hs as [Hs Hlt].
  assert (∀ e s', e ∈ emit_loop prefix delimiter cursor s' objs →
    slt (Key o) (token e) ∨ ∃ c, e = EmitPrefix c ∧ c ∉ s' ∧ common (Key o) = Some c) as Hnext.
  { intros e s' [He _]%emit_loop_in; [|done]. destruct e as [o'|c]; [left; by apply Hlt, He|].
    destruct He as (Hns & o' & Ho' & Hc). rewrite Forall_forall in Hu.
    destruct (below_common (Key o) (Key o') c) as [?|?]; [by apply Hu, list_elem_of_fmap_2|by apply Hlt|done|by left|right; by exists c]. }
  destruct (past cursor (Key o)); [by apply IH|]. destruct (common (Key o)) as [c|] eqn:Hc.
  - destruct (past cursor c); [by apply IH|]. case_bool_decide; [by apply IH|]. rewrite fmap_cons. constructor; [by apply IH|].
    apply Forall_forall. intros t (e & -> & He)%list_elem_of_fmap. destruct (Hnext _ _ He) as [H1|(c' & -> & Hn & [= <-])]; [|set_solver].
    eapply le_slt_trans; [by apply common_le|done].
  - rewrite fmap_cons. constructor; [by apply IH|].
    apply Forall_forall. intros t (e & -> & He)%list_elem_of_fmap. by destruct (Hnext _ _ He) as [H1|(c' & _ & _ & ?)].
Qed.

Lemma sorted_tokens_unique (l l' : list emission) :
  StronglySorted slt (token <$> l) → StronglySorted slt (token <$> l') → (∀ e, e ∈ l ↔ e ∈ l') → l = l'.
Proof.
  revert l'. induction l as [|e l IH]; intros l' Hl Hl' Hin.
  { destruct l' as [|e l']; [done|]. exfalso. apply (not_elem_of_nil e), Hin. by left. }
  destruct l' as [|e' l']; [exfalso; apply (not_elem_of_nil e), Hin; by left|].
  rewrite fmap_cons in Hl, Hl'. apply StronglySorted_cons in Hl as [Hh Hl], Hl' as [Hh' Hl'].
  rewrite Forall_forall in Hh, Hh'.
  assert (∀ x, x ∈ l → slt (token e) (token x)) as H1 by (intros x Hx; by apply Hh, list_elem_of_fmap_2).
  assert (∀ x, x ∈ l' → slt (token e') (token x)) as H2 by (intros x Hx; by apply Hh', list_elem_of_fmap_2).
  assert (e = e') as <-.
  { assert (e ∈ e' :: l') as [|He]%elem_of_cons by (apply Hin; by left); [done|].
    assert (e' ∈ e :: l) as [|He']%elem_of_cons by (apply Hin; by left); [done|].
    exfalso. by apply (H1 e' He'), slt_le, H2. }
  f_equal. apply IH; [done..|]. intros x. split; intros Hx.
  - assert (x ∈ e :: l') as [->|]%elem_of_cons by (apply Hin; by right); [|done]. by destruct (slt_ne _ _ (H1 e Hx)).
  - assert (x ∈ e :: l) as [->|]%elem_of_cons by (apply Hin; by right); [|done]. by destruct (slt_ne _ _ (H2 e Hx)).
Qed.
Lemma sorted_filter_tokens (P : emission → Prop) `{∀ e, Decision (P e)} (l : list emission) :
  StronglySorted slt (token <$> l) → StronglySorted slt (token <$> filter P l).
Proof.
  induction l as [|e l IH]; intros Hs; [constructor|]. rewrite fmap_cons in Hs. apply StronglySorted_cons in Hs as [Hh Hs].
  rewrite filter_cons. case_decide; [|by apply IH]. rewrite fmap_cons. constructor; [by apply IH|].
  rewrite Forall_forall in *. intros t (x & -> & Hx)%list_elem_of_fmap. apply list_elem_of_filter in Hx as [_ Hx]. by apply Hh, list_elem_of_fmap_2.
Qed.

(** After the token of its [i]th emission a listing goes on where it stopped. *)
Lemma resume cursor objs i e :
  Forall under (Key <$> objs) → StronglySorted slt (Key <$> objs) →
  emit_loop prefix delimiter cursor ∅ objs !! i = Some e → token e ≠ "" →
  emit_loop prefix delimiter (token e) ∅ objs = drop (S i) (emit_loop prefix delimiter cursor ∅ objs).
Proof.
  intros Hu Hs Hi Hne. pose proof (emit_loop_sorted cursor ∅ _ Hu Hs) as Hsort. apply sorted_tokens_unique.
  - by apply emit_loop_sorted.
  - rewrite <- (take_drop (S i) (emit_loop prefix delimiter cursor ∅ objs)), fmap_app in Hsort. by apply StronglySorted_app_1_r in Hsort.
  - intros x. rewrite emit_loop_in by done. rewrite past_false.
    assert (e ∈ emit_loop prefix delimiter cursor ∅ objs) as He by (by eapply list_elem_of_lookup_2).
    apply emit_loop_in in He as [_ Hpe]; [|done]. apply past_false in Hpe.
    set (l := emit_loop prefix delimiter cursor ∅ objs) in *.
    assert (x ∈ drop (S i) l ↔ x ∈ l ∧ slt (token e) (token x)) as ->.
    { rewrite <- (take_drop_middle l i e Hi) in Hsort. rewrite fmap_app, fmap_cons in Hsort. split.
      - intros Hx. split; [rewrite <- (take_drop (S i) l); apply elem_of_app; by right|].
        apply StronglySorted_app_1_r, StronglySorted_cons in Hsort as [Hh _]. rewrite Forall_forall in Hh. by apply Hh, list_elem_of_fmap_2.
      - rewrite <- (take_drop_middle l i e Hi) at 1. intros [[Hx|[->|Hx]%elem_of_cons]%elem_of_app Hlt]; [|by destruct (slt_ne _ _ Hlt)|done].
        exfalso. apply (StronglySorted_app_1_elem_of slt _ _ (token x) (token e) Hsort); [by apply list_elem_of_fmap_2|by left|by apply slt_le]. }
    unfold l. rewrite emit_loop_in, past_false by done. split.
    + intros [He [?|Hlt]]; [done|]. split_and!; [done| |done]. destruct Hpe as [?|Hpe]; [by left|right]. by etrans.
    + intros [[He _] Hlt]. split; [done|]. by right.
Qed.
End listing.

(** ** Pages *)
Definition contents_of (l : list emission) : list ObjectContent :=
  omap (λ e, match e with EmitObject o => Some (content o) | EmitPrefix _ => None end) l.
Definition prefixes_of (l : list emission) : list string :=
  omap (λ e, match e with EmitObject _ => None | EmitPrefix p => Some p end) l.
Definition emissions_of (q : url_values) (objs : list ObjectMeta) : list emission :=
  let cursor := if bool_decide (q_get q "continuation-token" = "") then q_get q "start-after" else q_get q "continuation-token" in
  emit_loop (q_get q "prefix") (q_get q "delimiter") cursor ∅ (merge_sort key_le objs).
Definition page_limit (q : url_values) : nat := Z.to_nat (s3MaxKeys q).

Lemma contents_of_app l l' : contents_of (l ++ l')%list = (contents_of l ++ contents_of l')%list.
Proof. apply omap_app. Qed.
Lemma prefixes_of_app l l' : prefixes_of (l ++ l')%list = (prefixes_of l ++ prefixes_of l')%list.
Proof. apply omap_app. Qed.
Lemma emissions_counted l : (length (contents_of l) + length (prefixes_of l) = length l)%nat.
Proof. induction l as [|[o|p] l IH]; cbn; unfold contents_of, prefixes_of in *; lia. Qed.
Lemma add_emissions resp l :
  Contents (foldl add_emission resp l) = (Contents resp ++ contents_of l)%list ∧
  CommonPrefixes (foldl add_emission resp l) = (CommonPrefixes resp ++ prefixes_of l)%list ∧
  ∀ e, last l = Some e → NextContinuationToken (foldl add_emission resp l) = token e.
Proof.
  induction l as [|e l IH] using rev_ind; [cbn; rewrite !app_nil_r; by split_and!|].
  rewrite foldl_snoc, contents_of_app, prefixes_of_app, last_snoc. destruct IH as (H1 & H2 & _).
  destruct e as [o|p]; cbn [add_emission Contents CommonPrefixes NextContinuationToken]; rewrite H1, H2, <- !app_assoc, ?app_nil_r;
    (split_and!; [done|done|by intros e [= <-]]).
Qed.
Lemma s3MaxKeys_range q : (0 ≤ s3MaxKeys q ≤ 1000)%Z.
Proof. unfold s3MaxKeys. case_bool_decide; [done|]. destruct (parse_int _) as [n|]; [|done]. destruct (Z.ltb_spec n 0); [done|]. destruct (Z.ltb_spec 1000 n); lia. Qed.

(** What a page shows, and what it says of the rest. *)
Lemma objects_page_spec b q objs :
  let p := objects_page b q objs in let l := emissions_of q objs in
  Contents p = contents_of (take (page_limit q) l) ∧ CommonPrefixes p = prefixes_of (take (page_limit q) l) ∧
  KeyCount p = page_limit q `min` length l ∧ IsTruncated p = bool_decide (page_limit q < length l)%nat ∧
  ∀ e, IsTruncated p = true → l !! pred (page_limit q) = Some e → page_limit q ≠ 0 → NextContinuationToken p = token e.
Proof.
  intros p l. unfold p, objects_page, l. fold (emissions_of q objs). cbv zeta. clear p l. fold (emissions_of q objs).
  set (l := emissions_of q objs). set (limit := if (_ <? _)%Z then _ else _).
  assert (limit = page_limit q `min` length l) as Hlim.
  { unfold limit, page_limit. pose proof (s3MaxKeys_range q). destruct (Z.ltb_spec (Z.of_nat (length l)) (s3MaxKeys q)); lia. }
  assert (take limit l = take (page_limit q) l) as ->.
  { rewrite Hlim. destruct (Nat.min_spec (page_limit q) (length l)) as [[? ->]|[? ->]]; [done|]. rewrite !take_ge by lia. done. }
  match goal with |- context [foldl add_emission ?r _] => set (resp := r) end. destruct (add_emissions resp (take (page_limit q) l)) as (Hc & Hp & Ht).
  cbn [Contents CommonPrefixes KeyCount IsTruncated NextContinuationToken]. rewrite Hc, Hp. cbn [resp Contents CommonPrefixes app].
  split_and!; [done|done| | |].
  - rewrite emissions_counted, length_take. done.
  - rewrite Hlim. destruct (Nat.ltb_spec (page_limit q `min` length l) (length l)); case_bool_decide; lia.
  - intros e Htr He Hne. rewrite Htr. apply Ht. rewrite last_lookup, length_take, Nat.min_l.
    + rewrite lookup_take_lt by lia. done.
    + apply lookup_lt_Some in He. lia.
Qed.

(** A client that asks for the next page as long as there is one. *)
Fixpoint follow_pages (fuel : nat) (page : url_values → ListBucketResult) (q : url_values) : option (list ListBucketResult) :=
  match fuel with
  | 0 => None
  | S fuel =>
      let p := page q in
      if IsTruncated p then
        match follow_pages fuel page (<["continuation-token" := [NextContinuationToken p]]> q) with
        | Some ps => Some (p :: ps)
        | None => None
        end
      else Some [p]
  end.

Lemma key_le_sorted objs : NoDup (Key <$> objs) → StronglySorted slt (Key <$> merge_sort key_le objs).
Proof.
  intros Hnd. assert (Total key_le) by (intros x y; apply (total String.le)). assert (Transitive key_le) by (intros x y z; apply (transitivity (R := String.le))).
  pose proof (StronglySorted_merge_sort key_le objs) as Hs.
  assert (NoDup (Key <$> merge_sort key_le objs)) as Hnd' by (by rewrite (merge_sort_Permutation key_le)).
  revert Hs Hnd'. generalize (merge_sort key_le objs) as l. induction l as [|o l IH]; [constructor|].
  rewrite StronglySorted_cons, Forall_forall, fmap_cons, NoDup_cons. intros [Hh Hs] [Hn Hnd']. constructor; [by apply IH|].
  apply Forall_forall. intros k (o' & -> & Ho')%list_elem_of_fmap Hle. apply Hn. apply list_elem_of_fmap. exists o'. split; [|done].
  apply (anti_symm String.le); [by apply Hh|done].
Qed.

Section pages.
Context (b : string) (objs : list ObjectMeta) (prefix : string).
Context (Hnd : NoDup (Key <$> objs)) (Hin : ∀ o, o ∈ objs → under prefix (Key o) ∧ Key o ≠ "").

Lemma sorted_under : Forall (under prefix) (Key <$> merge_sort key_le objs).
Proof.
  apply Forall_forall. intros k (o & -> & Ho)%list_elem_of_fmap. rewrite (merge_sort_Permutation key_le) in Ho. by apply Hin.
Qed.
Lemma emission_token q e : q_get q "prefix" = prefix → e ∈ emissions_of q objs → token e ≠ "".
Proof.
  intros Hp. unfold emissions_of. rewrite Hp. intros [He _]%emit_loop_in; [|apply sorted_under].
  destruct e as [o|c]; cbn [token].
  - destruct He as [Ho _]. rewrite (merge_sort_Permutation key_le) in Ho. by apply Hin.
  - destruct He as (_ & o & Ho & Hc). rewrite (merge_sort_Permutation key_le) in Ho.
    eapply common_spec; [|exact Hc]. by apply Hin.
Qed.
Lemma next_emissions q e : q_get q "prefix" = prefix →
  emissions_of q objs !! pred (page_limit q) = Some e → page_limit q ≠ 0 →
  emissions_of (<["continuation-token" := [token e]]> q) objs = drop (page_limit q) (emissions_of q objs).
Proof.
  intros Hp He Hne. assert (token e ≠ "") as Ht by (eapply emission_token; [exact Hp|by eapply list_elem_of_lookup_2]).
  unfold emissions_of in *. assert (∀ k, k ≠ "continuation-token" → q_get (<["continuation-token" := [token e]]> q) k = q_get q k) as Hget.
  { intros k Hk. unfold q_get. by rewrite lookup_insert_ne. }
  assert (q_get (<["continuation-token" := [token e]]> q) "continuation-token" = token e) as Hct by (unfold q_get; by rewrite lookup_insert_eq).
  rewrite Hct, !Hget by done. rewrite (bool_decide_eq_false_2 (token e = "")) by done. rewrite Hp in *.
  assert (page_limit q = S (pred (page_limit q))) as -> by lia. cbn [pred]. apply resume; [apply sorted_under|by apply key_le_sorted|done|done].
Qed.
Lemma next_limit q t : page_limit (<["continuation-token" := [t]]> q) = page_limit q.
Proof. unfold page_limit, s3MaxKeys, q_get. by rewrite !lookup_insert_ne. Qed.

Lemma follow_pages_spec fuel q : q_get q "prefix" = prefix → (1 ≤ s3MaxKeys q)%Z → (length (emissions_of q objs) < fuel)%nat →
  ∃ pages, follow_pages fuel (λ q, objects_page b q objs) q = Some pages ∧
    concat (Contents <$> pages) = contents_of (emissions_of q objs) ∧
    concat (CommonPrefixes <$> pages) = prefixes_of (emissions_of q objs) ∧
    Forall (λ p, KeyCount p ≤ page_limit q)%nat pages.
Proof.
  revert q. induction fuel as [|fuel IH]; intros q Hp Hmax Hfuel; [lia|]. cbn [follow_pages].
  destruct (objects_page_spec b q objs) as (Hc & Hcp & Hkc & Htr & Hnext).
  assert (page_limit q ≠ 0) as Hne by (unfold page_limit; lia).
  rewrite Htr. case_bool_decide as Hlt.
  - destruct (lookup_lt_is_Some_2 (emissions_of q objs) (pred (page_limit q))) as [e He]; [lia|].
    rewrite (Hnext e Htr He Hne). pose proof (next_emissions q e Hp He Hne) as Hrest.
    destruct (IH (<["continuation-token" := [token e]]> q)) as (pages & -> & H1 & H2 & H3).
    + unfold q_get in *. by rewrite lookup_insert_ne.
    + unfold s3MaxKeys, q_get in *. by rewrite lookup_insert_ne.
    + rewrite Hrest, length_drop. lia.
    + rewrite Hrest in *. rewrite next_limit in H3. exists (objects_page b q objs :: pages). rewrite !fmap_cons. cbn [concat].
      rewrite Hc, Hcp, H1, H2, <- contents_of_app, <- prefixes_of_app, take_drop. split_and!; [done..|]. constructor; [lia|done].
  - exists [objects_page b q objs]. rewrite !fmap_cons, !fmap_nil. cbn [concat]. rewrite !app_nil_r, Hc, Hcp, take_ge by lia. split_and!; [done..|]. constructor; [lia|constructor].
Qed.
End pages.

(** ** What pages contain *)
Lemma page_contents b q objs c : (∀ o, o ∈ objs → Bucket o = b ∧ has_prefix (Key o) (q_get q "prefix") = true) →
  c ∈ Contents (objects_page b q objs) → ∃ o, o ∈ objs ∧ c = content o.
Proof.
  intros Hin. destruct (objects_page_spec b q objs) as [-> _]. unfold contents_of. rewrite list_elem_of_omap.
  intros (e & He & Hc). destruct e as [o|]; [|done]. injection Hc as <-. exists o. split; [|done].
  assert (EmitObject o ∈ emissions_of q objs) as He' by (rewrite <- (take_drop (page_limit q)); apply elem_of_app; by left).
  apply emit_loop_in in He' as [[Ho _] _]; [by rewrite (merge_sort_Permutation key_le) in Ho|].
  apply Forall_forall. intros k (o' & -> & Ho')%list_elem_of_fmap. rewrite (merge_sort_Permutation key_le) in Ho'.
  destruct (Hin o' Ho') as [_ Hp]. by apply has_prefix_spec in Hp.
Qed.
Lemma parts_page_entries parts resp e : e ∈ lp_Parts (parts_loop parts resp) →
  e ∈ lp_Parts resp ∨ ∃ p, p ∈ parts ∧ e = part_entry p.
Proof.
  revert resp. induction parts as [|p parts IH]; intros resp; cbn [parts_loop]; [by left|].
  assert (∀ r, e ∈ lp_Parts (parts_loop parts r) → e ∈ lp_Parts r ∨ ∃ p', p' ∈ p :: parts ∧ e = part_entry p') as IH'.
  { intros r [?|(p' & ? & ?)]%IH; [by left|right]. exists p'. split; [by right|done]. }
  destruct (_ <=? _)%Z; [apply IH'|]. destruct (_ =? _)%Z; [by left|]. intros [He|?]%IH'; [|by right].
  cbn [lp_Parts add_part] in He. apply elem_of_app in He as [?|He%list_elem_of_singleton]; [by left|right; subst e].
  exists p. split; [by left|done].
Qed.
