(* ===== verification/S3.v ===== *)
(** * The edge's S3 handlers: internal/edge/edge.go

    The same edge as Edge.v behind the S3 dialect: buckets and uploads live in [S3Store] (the
    edge's own store or a coord daemon), objects in [MetaService], chunks in the cluster.  The
    request's XML body is given decoded; response headers other than the object's own are not
    modelled, and neither are deadlines. *)
From S2P Require Import Prelude GF GoLib Chunker Cdc Placement Kv Meta Store DataNode Transport Coordinator.
From S2P Require Import Election Follower Edge EdgeLocal CoordClient S3Sig S3Api.
From Stdlib Require Import Strings.Byte Strings.Ascii.

(** ** Where buckets and uploads are *)
Class S3Store (X : Type) : Type :=
  { createBucket : string → X → result client_error BucketMeta * X;
    getBucket : string → X → result client_error BucketMeta * X;
    listBuckets : X → result client_error (list BucketMeta) * X;
    deleteBucket : string → X → result client_error unit * X;
    listObjectsByPrefix : string → string → Z → X → result client_error (list ObjectMeta) * X;
    createMultipartUpload : string → string → string → X → result client_error MultipartUploadMeta * X;
    putMultipartPart : string → string → string → MultipartPartMeta → X → result client_error MultipartPartMeta * X;
    listMultipartParts : string → string → string → X → result client_error (list MultipartPartMeta) * X;
    completeMultipartUpload : string → string → string → list CompletePart → X →
      result client_error (ObjectMeta * list MultipartPartMeta) * X;
    abortMultipartUpload : string → string → string → X → result client_error MultipartUploadMeta * X }.

(** The branches [s.Store] of the ten methods; [ids] are the random upload ids. *)
Section local.
Context {M : Type → Type} {KVM : KV M} (ids : nat → string).
Definition of_store {A} (r : result store_error A) : result client_error A :=
  match r with Ok a => Ok a | Err er => Err (Sentinel er) end.
Definition local_read {A} (f : @DB M → result store_error A) (x : LocalStore) : result client_error A * LocalStore :=
  (of_store (f (lm_db x)), x).
Definition local_update {A} (f : Z → @DB M → result store_error A * @DB M) (x : LocalStore) : result client_error A * LocalStore :=
  let '(r, db) := f (lm_now x) (lm_db x) in (of_store r, with_db x db).
#[export] Instance local_s3 : S3Store (LocalStore (M := M)) :=
  {| createBucket name := local_update (createBucketInternal name);
     getBucket name := local_read (λ db, Store.GetBucket db name);
     listBuckets := local_read Store.ListBuckets;
     deleteBucket name := local_update (λ _, deleteBucketInternal name);
     listObjectsByPrefix b p l := local_read (λ db, Store.ListObjectsByPrefix db b p l);
     createMultipartUpload b k ct := local_update (CreateMultipartUpload_tx b k ct ids);
     putMultipartPart b k u part := local_update (PutMultipartPart_tx b k u part);
     listMultipartParts b k u := local_read (λ db, Store.ListMultipartParts db b k u);
     completeMultipartUpload b k u ps := local_update (CompleteMultipartUpload_tx b k u ps);
     abortMultipartUpload b k u := local_update (λ _, abortMultipartUploadInternal b k u) |}.
End local.

(** The branches [s.CoordClient]. *)
Section proxy.
Context {M : Type → Type} {KVM : KV M} (cnet : nat → exchange).
#[export] Instance proxy_s3 : S3Store (CoordWorld (M := M)) :=
  {| createBucket := CoordClient.CreateBucket cnet; getBucket := CoordClient.GetBucket cnet;
     listBuckets := CoordClient.ListBuckets cnet; deleteBucket := CoordClient.DeleteBucket cnet;
     listObjectsByPrefix := CoordClient.ListObjectsByPrefix cnet;
     createMultipartUpload := CoordClient.CreateMultipartUpload cnet;
     putMultipartPart := CoordClient.PutMultipartPart cnet;
     listMultipartParts := CoordClient.ListMultipartParts cnet;
     completeMultipartUpload := CoordClient.CompleteMultipartUpload cnet;
     abortMultipartUpload := CoordClient.AbortMultipartUpload cnet |}.
End proxy.

(** ** The server, its requests and its answers *)
Record S3Server : Type := MkS3Server
  { s3_edge : EdgeServer; S3Region : string; S3Credentials : option (string → option string); s3_Coord : bool }.
Definition s3Region (s : S3Server) : string := if bool_decide (S3Region s = ""%string) then "us-east-1" else S3Region s.

(** [h_parts]: what [ParseCompleteMultipartUpload] makes of the body. *)
Record s3_http : Type := MkHttp
  { h_req : s3_request; h_TLS : bool; h_body : source; h_parts : option (list CompletePart) }.
Record UploadResult : Type := MkInitiated { iu_Bucket : string; iu_Key : string; iu_UploadId : string }.
Record CompleteResult : Type := MkCompleted { cu_Location : string; cu_Bucket : string; cu_Key : string; cu_ETag : string }.
Inductive s3_body : Type :=
  | NoBody | BucketsBody (l : list BucketMeta) | ListingBody (l : ListBucketResult) | PartsBody (l : ListPartsResult)
  | InitiatedBody (u : UploadResult) | CompletedBody (c : CompleteResult).
(** [S3Object] is a streamed answer: the record its headers were set from, if they were, and
    the bytes sent. *)
Inductive s3_reply : Type :=
  | S3Error (e : s3_error)
  | S3Done (status : Z) (headers : list (string * string)) (body : s3_body)
  | S3Object (headers : option ObjectMeta) (body : list byte).
Definition s3_err (status : Z) (code : s3_code) : s3_reply := S3Error (NewError status code).

Definition s3ObjectLocation (h : s3_http) (info : RequestInfo) : string :=
  ((if h_TLS h then "https" else "http") ++ "://" ++ r_Host (h_req h) ++ i_Resource info)%string.
Definition bucketErr (er : client_error) : s3_error :=
  match er with
  | Sentinel ErrNotFound => NewError 404 CodeNoSuchBucket
  | Sentinel ErrAlreadyExists => NewError 409 CodeBucketAlreadyOwnedByYou
  | Sentinel ErrBucketNotEmpty => NewError 409 CodeBucketNotEmpty
  | Sentinel _ => NewError 400 CodeInvalidBucketName
  | ClientFailed => NewError 500 CodeInternalError
  end.
Definition multipartErr (er : client_error) : s3_error :=
  match er with
  | Sentinel ErrNotFound => NewError 404 CodeNoSuchUpload
  | Sentinel ErrInvalidPartOrder => NewError 400 CodeInvalidPartOrder
  | Sentinel ErrInvalidPart => NewError 400 CodeInvalidPart
  | Sentinel _ => NewError 400 CodeInvalidRequest
  | ClientFailed => NewError 500 CodeInternalError
  end.
Definition quoted (s : string) : string := let q := String (ascii_of_nat 34) "" in (q ++ s ++ q)%string.
Definition s3_content_type (r : s3_request) : string :=
  if bool_decide (header_get r "content-type" = ""%string) then "application/octet-stream" else header_get r "content-type".

Section handlers.
Context (gear : list Z).
Context (net : nat → outcome) (sched : list string → list string).
(** The order of Go's iteration over the parts of an upload. *)
Context (porder : list MultipartPartMeta → list MultipartPartMeta).
Context {X : Type} {HM : MetaService X} {HS : S3Store X}.
Notation handler := (S3Server → s3_http → RequestInfo → Cluster → X → s3_reply * (Cluster * X)).

Definition ensureS3Bucket (bucket : string) (x : X) : result client_error unit * X :=
  if negb (ValidateBucketName bucket) then (Err (Sentinel ErrInvalidBucketName), x)
  else match getBucket bucket x with (Ok _, x) => (Ok tt, x) | (Err er, x) => (Err er, x) end.
(** The handlers that begin with [ensureS3Bucket]. *)
Definition in_bucket (info : RequestInfo) (w : Cluster) (x : X) (k : X → s3_reply * (Cluster * X)) : s3_reply * (Cluster * X) :=
  match ensureS3Bucket (i_Bucket info) x with
  | (Err er, x) => (S3Error (bucketErr er), (w, x))
  | (Ok _, x) => k x
  end.

(** ** Buckets *)
Definition handleS3CreateBucket : handler := λ s h info w x,
  if negb (ValidateBucketName (i_Bucket info)) then (s3_err 400 CodeInvalidBucketName, (w, x))
  else match createBucket (i_Bucket info) x with
       | (Err er, x) => (S3Error (bucketErr er), (w, x))
       | (Ok _, x) => (S3Done 200 [("Location", "/" ++ i_Bucket info)%string] NoBody, (w, x))
       end.
Definition handleS3ListBuckets : handler := λ s h info w x,
  match listBuckets x with
  | (Err _, x) => (s3_err 500 CodeInternalError, (w, x))
  | (Ok l, x) => (S3Done 200 [] (BucketsBody l), (w, x))
  end.
Definition handleS3DeleteBucket : handler := λ s h info w x,
  if negb (ValidateBucketName (i_Bucket info)) then (s3_err 400 CodeInvalidBucketName, (w, x))
  else match deleteBucket (i_Bucket info) x with
       | (Err er, x) => (S3Error (bucketErr er), (w, x))
       | (Ok _, x) => (S3Done 200 [] NoBody, (w, x))
       end.

(** ** Writing a body: the loop of [writeS3Chunks]; [hashed] is what the hasher was given *)
Record s3WrittenChunks : Type := MkWritten { wc_Chunks : list ChunkRef; wc_Size : Z; wc_ETag : string }.
Fixpoint s3_put_loop (fuel : nat) (e : EdgeServer) (rd : pieceReader) (hashed : list byte) (chunkRefs : list ChunkRef)
    (totalSize : Z) (w : Cluster) (x : X) : result s3_error (list byte * list ChunkRef * Z) * (Cluster * X) :=
  match fuel with
  | 0 => (Err (MkS3Error 0 CodeInternalError), (w, x))
  | S fuel =>
      match Next gear rd with
      | (Err EOF, _) => (Ok (hashed, chunkRefs, totalSize), (w, x))
      | (Err _, _) => (Err (NewError 400 CodeInvalidRequest), (w, x))
      | (Ok piece, rd) =>
          match writeChunkPreferClassW net sched e (p_ID piece) (p_Data piece) 0 w x with
          | (None, wx) => (Err (NewError 502 CodeInternalError), wx)
          | (Some replicas, (w, x)) =>
              s3_put_loop fuel e rd (hashed ++ p_Data piece)
                (chunkRefs ++ [MkChunkRef (p_ID piece) (Chunker.p_Size piece) replicas])
                (i64 (totalSize + Chunker.p_Size piece)) w x
          end
      end
  end.
Definition writeS3Chunks (s : S3Server) (src : source) (w : Cluster) (x : X) : result s3_error s3WrittenChunks * (Cluster * X) :=
  if negb (s3_Coord s) then (Err (NewError 500 CodeInternalError), (w, x))
  else match s3_put_loop (body_fuel src) (s3_edge s) (newPutReader (s3_edge s) src) [] [] 0 w x with
       | (Err er, wx) => (Err er, wx)
       | (Ok (hashed, chunkRefs, totalSize), wx) =>
           if length chunkRefs =? 0 then (Err (NewError 400 CodeInvalidRequest), wx)
           else (Ok (MkWritten chunkRefs totalSize (quoted (sha256_hex hashed))), wx)
       end.

(** ** Objects *)
Definition handleS3PutObject : handler := λ s h info w x, in_bucket info w x (λ x,
  match writeS3Chunks s (h_body h) w x with
  | (Err er, wx) => (S3Error er, wx)
  | (Ok written, (w, x)) =>
      let meta := MkObjectMeta (i_Bucket info) (i_Key info) (wc_Size written) (s3_content_type (h_req h)) (wc_ETag written)
                    (wc_Chunks written) None [] 0 0 (ed_PreferClass (s3_edge s)) "" [] in
      match ms_commit meta x with
      | (Err _, x) => (s3_err 500 CodeInternalError, (w, x))
      | (Ok _, x) => (S3Done 200 [("ETag", wc_ETag written)] NoBody, (w, x))
      end
  end).

Fixpoint s3_get_loop (i : nat) (meta : ObjectMeta) (chunks : list ChunkRef) (body : list byte) (w : Cluster)
    : s3_reply * Cluster :=
  let sent := S3Object (if i =? 0 then None else Some meta) body in
  match chunks with
  | [] => (S3Object (Some meta) body, w)
  | c :: chunks =>
      match coord_ReadChunk net (ChunkID c) (Replicas c) w with
      | (Err _, w) => (if i =? 0 then s3_err 502 CodeInternalError else sent, w)
      | (Ok (data, _), w) =>
          if negb (Z.of_nat (length data) =? cr_Size c)%Z then (sent, w)
          else s3_get_loop (S i) meta chunks (body ++ data) w
      end
  end.
Definition handleS3ReadObject (headOnly : bool) : handler := λ s h info w x, in_bucket info w x (λ x,
  if negb (s3_Coord s) then (s3_err 500 CodeInternalError, (w, x))
  else match ms_lookup (i_Bucket info) (i_Key info) x with
       | (Err MetaNotFound, x) => (s3_err 404 CodeNoSuchKey, (w, x))
       | (Err _, x) => (s3_err 500 CodeInternalError, (w, x))
       | (Ok meta, x) =>
           if IsEC meta then (s3_err 501 CodeNotImplemented, (w, x))
           else if headOnly then (S3Object (Some meta) [], (w, x))
           else let '(r, w) := s3_get_loop 0 meta (Chunks meta) [] w in (r, (w, x))
       end).
Definition handleS3GetObject : handler := handleS3ReadObject false.
Definition handleS3HeadObject : handler := handleS3ReadObject true.

Definition handleS3DeleteObject : handler := λ s h info w x, in_bucket info w x (λ x,
  if negb (s3_Coord s) then (s3_err 500 CodeInternalError, (w, x))
  else match ms_lookup (i_Bucket info) (i_Key info) x with
       | (Err MetaNotFound, x) => (S3Done 204 [] NoBody, (w, x))
       | (Err _, x) => (s3_err 500 CodeInternalError, (w, x))
       | (Ok meta, x) =>
           let w := delete_refs net (Chunks meta) w in
           let w := delete_refs net (Stripes meta ≫= Shards) w in
           match ms_delete (i_Bucket info) (i_Key info) x with
           | (Err MetaFailed, x) => (s3_err 500 CodeInternalError, (w, x))
           | (_, x) => (S3Done 204 [] NoBody, (w, x))
           end
       end).
Definition handleS3ListObjectsV2 : handler := λ s h info w x, in_bucket info w x (λ x,
  let q := url_query (h_req h) in
  match listObjectsByPrefix (i_Bucket info) (q_get q "prefix") 0 x with
  | (Err _, x) => (s3_err 500 CodeInternalError, (w, x))
  | (Ok objs, x) => (S3Done 200 [] (ListingBody (objects_page (i_Bucket info) q objs)), (w, x))
  end).

(** ** Multipart uploads *)
Definition deleteS3MultipartChunks (s : S3Server) (parts : list MultipartPartMeta) (w : Cluster) : Cluster :=
  if negb (s3_Coord s) then w else delete_refs net (parts ≫= p_Chunks) w.
Definition handleS3CreateMultipartUpload : handler := λ s h info w x, in_bucket info w x (λ x,
  match createMultipartUpload (i_Bucket info) (i_Key info) (s3_content_type (h_req h)) x with
  | (Err er, x) => (S3Error (multipartErr er), (w, x))
  | (Ok up, x) => (S3Done 200 [] (InitiatedBody (MkInitiated (i_Bucket info) (i_Key info) (UploadID up))), (w, x))
  end).
Definition handleS3UploadPart : handler := λ s h info w x, in_bucket info w x (λ x,
  let q := url_query (h_req h) in
  let uploadID := q_get q "uploadId" in
  match parse_int (q_get q "partNumber") with
  | None => (s3_err 400 CodeInvalidArgument, (w, x))
  | Some partNumber =>
      if bool_decide (uploadID = ""%string) then (s3_err 400 CodeInvalidArgument, (w, x))
      else match writeS3Chunks s (h_body h) w x with
           | (Err er, wx) => (S3Error er, wx)
           | (Ok written, (w, x)) =>
               let part := MkPart partNumber (wc_ETag written) (wc_Size written) (wc_Chunks written) 0 in
               match putMultipartPart (i_Bucket info) (i_Key info) uploadID part x with
               | (Err er, x) => (S3Error (multipartErr er), (deleteS3MultipartChunks s [part] w, x))
               | (Ok _, x) => (S3Done 200 [("ETag", wc_ETag written)] NoBody, (w, x))
               end
           end
  end).
Definition handleS3ListParts : handler := λ s h info w x, in_bucket info w x (λ x,
  let q := url_query (h_req h) in
  let uploadID := q_get q "uploadId" in
  if bool_decide (uploadID = ""%string) then (s3_err 400 CodeInvalidArgument, (w, x))
  else match listMultipartParts (i_Bucket info) (i_Key info) uploadID x with
       | (Err er, x) => (S3Error (multipartErr er), (w, x))
       | (Ok parts, x) => (S3Done 200 [] (PartsBody (parts_page (i_Bucket info) (i_Key info) uploadID q parts)), (w, x))
       end).
Definition handleS3CompleteMultipartUpload : handler := λ s h info w x, in_bucket info w x (λ x,
  let uploadID := q_get (url_query (h_req h)) "uploadId" in
  if bool_decide (uploadID = ""%string) then (s3_err 400 CodeInvalidArgument, (w, x))
  else match h_parts h with
       | None => (s3_err 400 CodeMalformedXML, (w, x))
       | Some parts =>
           match completeMultipartUpload (i_Bucket info) (i_Key info) uploadID parts x with
           | (Err er, x) => (S3Error (multipartErr er), (w, x))
           | (Ok (obj, _), x) =>
               (S3Done 200 [("ETag", ETag obj)]
                  (CompletedBody (MkCompleted (s3ObjectLocation h info) (i_Bucket info) (i_Key info) (ETag obj))), (w, x))
           end
       end).
Definition handleS3AbortMultipartUpload : handler := λ s h info w x, in_bucket info w x (λ x,
  let uploadID := q_get (url_query (h_req h)) "uploadId" in
  if bool_decide (uploadID = ""%string) then (s3_err 400 CodeInvalidArgument, (w, x))
  else match abortMultipartUpload (i_Bucket info) (i_Key info) uploadID x with
       | (Err er, x) => (S3Error (multipartErr er), (w, x))
       | (Ok up, x) => (S3Done 204 [] NoBody, (deleteS3MultipartChunks s (porder (map_to_list (Parts up)).*2) w, x))
       end).

(** ** The dispatcher *)
Definition dispatch (op : Operation) : handler :=
  match op with
  | OperationListBuckets => handleS3ListBuckets
  | OperationCreateBucket => handleS3CreateBucket
  | OperationDeleteBucket => handleS3DeleteBucket
  | OperationPutObject => handleS3PutObject
  | OperationGetObject => handleS3GetObject
  | OperationHeadObject => handleS3HeadObject
  | OperationDeleteObject => handleS3DeleteObject
  | OperationListObjectsV2 => handleS3ListObjectsV2
  | OperationCreateMultipartUpload => handleS3CreateMultipartUpload
  | OperationUploadPart => handleS3UploadPart
  | OperationListParts => handleS3ListParts
  | OperationCompleteMultipartUpload => handleS3CompleteMultipartUpload
  | OperationAbortMultipartUpload => handleS3AbortMultipartUpload
  | OperationUnsupported => λ s h info w x, (s3_err 501 CodeNotImplemented, (w, x))
  end.
Definition handleS3 (s : S3Server) (now : Z) (h : s3_http) (w : Cluster) (x : X) : s3_reply * (Cluster * X) :=
  let info := Classify (h_req h) in
  match VerifyRequest (h_req h) (S3Credentials s) now with
  | Err er => (S3Error er, (w, x))
  | Ok auth =>
      if negb (bool_decide (Service auth = "s3"%string)) || negb (bool_decide (Region auth = s3Region s))
      then (s3_err 400 CodeAuthorizationHeaderMalformed, (w, x))
      else dispatch (i_Operation info) s h info w x
  end.
End handlers.
