(* ===== verification/S3ListTheorems.v ===== *)
(** * ListObjectsV2 and ListParts: their contract

    A client that follows the tokens of either listing sees what the store holds, once. *)
From S2P Require Import Prelude GF GoLib Chunker Kv Meta Store StoreProps Replicas DataNode Transport.
From S2P Require Import Coordinator Edge EdgeLocal CoordClient S3Sig S3Api S3Listing S3.
From Stdlib Require Import Strings.Ascii.
Local Open Scope string_scope.

Section store.
Context {M : Type → Type} {KVM : KV M} {HKV : KVLaws M}.

(** ** What the store lists *)
Lemma decode_all_fmap {A} (l : list (string * stored A)) r :
  decode_all l = Ok r → Forall2 (λ kv a, kv.2 = Enc a) l r.
Proof.
  revert r. induction l as [|[k v] l IH]; intros r; cbn [decode_all]; [intros [= <-]; constructor|].
  destruct v as [a|]; cbn; [|done]. intros (r' & Hr & [= <-])%rbind_ok. constructor; [done|by apply IH].
Qed.
Lemma listed_keys (db : @DB M) all : db_ok db → ListObjects db = Ok all →
  NoDup ((λ o, objKey (Bucket o) (Key o)) <$> all).
Proof.
  intros Hok (l & Hl & [= <-])%rbind_ok.
  assert ((λ o, objKey (Bucket o) (Key o)) <$> (normalizeLegacy <$> l) = (kv_list (objects db)).*1) as ->; [|apply list_NoDup].
  assert (∀ kv, kv ∈ kv_list (objects db) → kv_get (objects db) kv.1 = Some kv.2) as Hget by (intros [k v]; apply elem_list).
  apply decode_all_fmap in Hl. revert Hget. induction Hl as [|[k v] o kvs os Hv _ IH]; intros Hget; [done|]. rewrite !fmap_cons.
  cbn in Hv. subst v. f_equal; [|by apply IH; intros kv Hkv; apply Hget; right].
  destruct (normalizeLegacy_fields o) as (-> & -> & _). symmetry. apply (ok_objects db Hok). apply (Hget (k, Enc o)). by left.
Qed.
Definition in_listing (b prefix : string) (o : ObjectMeta) : Prop := Bucket o = b ∧ has_prefix (Key o) prefix = true.
#[export] Instance in_listing_dec b prefix o : Decision (in_listing b prefix o).
Proof. unfold in_listing. apply _. Defined.
Lemma prefix_loop_all b prefix all out : b ≠ "" →
  prefix_loop b prefix 0 all out = (out ++ filter (in_listing b prefix) all)%list.
Proof.
  intros Hb. revert out. induction all as [|o all IH]; intros out; cbn [prefix_loop]; [by rewrite app_nil_r|].
  rewrite (bool_decide_eq_false_2 (b = "")) by done. cbn [negb andb]. rewrite filter_cons.
  case_bool_decide as Ho; cbn [negb]; [|by rewrite decide_False by (by intros [? _])].
  destruct (bool_decide (prefix = "")) eqn:Hp; cbn [negb andb].
  - apply bool_decide_eq_true in Hp as ->. rewrite decide_True by (split; [done|by destruct (Key o)]). by rewrite IH, <- app_assoc.
  - destruct (has_prefix (Key o) prefix) eqn:Hpre; cbn [negb].
    + rewrite decide_True by done. by rewrite IH, <- app_assoc.
    + rewrite decide_False; [done|]. intros [_ ?]. congruence.
Qed.
Lemma ListObjectsByPrefix_ok (db : @DB M) b prefix all : b ≠ "" → ListObjects db = Ok all →
  Store.ListObjectsByPrefix db b prefix 0 = Ok (filter (in_listing b prefix) all).
Proof. intros Hb Hl. unfold Store.ListObjectsByPrefix. rewrite Hl. cbn [rbind]. by rewrite prefix_loop_all. Qed.
Lemma listed_distinct (db : @DB M) b prefix all : db_ok db → ListObjects db = Ok all →
  NoDup (Key <$> filter (in_listing b prefix) all).
Proof.
  intros Hok Hl. pose proof (listed_keys db all Hok Hl) as Hnd. clear Hl Hok. induction all as [|o all IH]; [constructor|].
  rewrite fmap_cons, NoDup_cons in Hnd. destruct Hnd as [Hn Hnd]. rewrite filter_cons. case_decide as Ho; [|by apply IH].
  rewrite fmap_cons. constructor; [|by apply IH]. intros (o' & E & Ho')%list_elem_of_fmap. apply list_elem_of_filter in Ho' as [[Hb _] Hin].
  apply Hn. apply list_elem_of_fmap. exists o'. split; [|done]. destruct Ho as [Hb' _]. congruence.
Qed.

(** ** The listing a request asks for *)
Definition wanted (b : string) (q : url_values) (o : ObjectMeta) : Prop :=
  in_listing b (q_get q "prefix") o ∧ common_prefix (q_get q "prefix") (q_get q "delimiter") (Key o) = None ∧
  past (q_get q "start-after") (Key o) = false.
#[export] Instance wanted_dec b q o : Decision (wanted b q o).
Proof. unfold wanted. apply _. Defined.

Definition is_object (e : emission) : Prop := match e with EmitObject _ => True | _ => False end.
#[export] Instance is_object_dec e : Decision (is_object e).
Proof. destruct e; cbn; apply _. Defined.
Lemma contents_filter l : contents_of l = contents_of (filter is_object l).
Proof.
  induction l as [|[o|p] l IH]; [done| |]; rewrite filter_cons.
  - rewrite decide_True by done. change (content o :: contents_of l = content o :: contents_of (filter is_object l)). by f_equal.
  - by rewrite decide_False by (by intros []).
Qed.
Lemma contents_objects l : contents_of (EmitObject <$> l) = content <$> l.
Proof. induction l as [|o l IH]; [done|]. cbn in *. f_equal. exact IH. Qed.
Lemma prefixes_elem l c : c ∈ prefixes_of l ↔ EmitPrefix c ∈ l.
Proof.
  unfold prefixes_of. rewrite list_elem_of_omap. split; [intros (e & He & Hc); by destruct e as [|p]; simplify_eq|].
  intros H. by exists (EmitPrefix c).
Qed.
Lemma prefixes_sorted l : StronglySorted slt (token <$> l) → StronglySorted slt (prefixes_of l).
Proof.
  induction l as [|e l IH]; [constructor|]. rewrite fmap_cons, StronglySorted_cons, Forall_forall. intros [Hh Hs].
  destruct e as [o|p]; [by apply IH|]. change (prefixes_of (EmitPrefix p :: l)) with (p :: prefixes_of l). constructor; [by apply IH|].
  apply Forall_forall. intros c Hc%prefixes_elem. apply (Hh c). by apply (list_elem_of_fmap_2 token _ (EmitPrefix c)).
Qed.
Lemma emitted_objects b q objs : NoDup (Key <$> objs) → (∀ o, o ∈ objs → in_listing b (q_get q "prefix") o) →
  q_get q "continuation-token" = "" →
  contents_of (emissions_of q objs) = content <$> merge_sort key_le (filter (wanted b q) objs).
Proof.
  intros Hnd Hin Hct. rewrite contents_filter, <- contents_objects. f_equal.
  unfold emissions_of. rewrite bool_decide_eq_true_2 by done.
  assert (Forall (under (q_get q "prefix")) (Key <$> merge_sort key_le objs)) as Hu.
  { apply Forall_forall. intros k (o & -> & Ho)%list_elem_of_fmap. rewrite (merge_sort_Permutation key_le) in Ho.
    by apply Hin in Ho as [_ Ho%has_prefix_spec]. }
  apply sorted_tokens_unique.
  - apply sorted_filter_tokens, emit_loop_sorted; [done|by apply key_le_sorted].
  - rewrite <- list_fmap_compose. apply key_le_sorted. by apply NoDup_fmap_filter.
  - intros e. rewrite list_elem_of_filter, emit_loop_in, list_elem_of_fmap by done. split.
    + destruct e as [o|]; [|by intros [? _]]. intros [_ [[Ho Hc] Hp]]. rewrite (merge_sort_Permutation key_le) in Ho.
      exists o. split; [done|]. rewrite (merge_sort_Permutation key_le). apply list_elem_of_filter. split; [|done]. by split_and!; [apply Hin| |].
    + intros (o & -> & Ho). rewrite (merge_sort_Permutation key_le) in Ho. apply list_elem_of_filter in Ho as [(_ & Hc & Hp) Ho].
      cbn. rewrite (merge_sort_Permutation key_le). by split_and!.
Qed.

Context (ids : nat → string).
#[local] Instance ls_s3 : S3Store (LocalStore (M := M)) := local_s3 ids.
(** C38: listing a bucket page by page is listing it: on a store whose state is consistent,
    a client that follows the continuation tokens reaches the last page; together the pages
    list the objects of the bucket under the prefix, after start-after and not grouped, in
    key order, once each, and every common prefix of the others, in order, once each; no page
    is larger than max-keys. *)
Theorem listing_pages_are_one_listing b q (x : LocalStore (M := M)) bm all :
  db_ok (lm_db x) → ValidateBucketName b = true → Store.GetBucket (lm_db x) b = Ok bm → ListObjects (lm_db x) = Ok all →
  (∀ o, o ∈ all → Key o ≠ "") → q_get q "continuation-token" = "" → (1 ≤ s3MaxKeys q)%Z →
  let objs := filter (in_listing b (q_get q "prefix")) all in
  (∀ s h info w, i_Bucket info = b → q_get (url_query (h_req h)) "prefix" = q_get q "prefix" →
     handleS3ListObjectsV2 s h info w x = (S3Done 200 [] (ListingBody (objects_page b (url_query (h_req h)) objs)), (w, x))) ∧
  ∃ pages, follow_pages (S (length all)) (λ q, objects_page b q objs) q = Some pages ∧
    concat (Contents <$> pages) = content <$> merge_sort key_le (filter (wanted b q) all) ∧
    StronglySorted slt (concat (CommonPrefixes <$> pages)) ∧
    (∀ c, c ∈ concat (CommonPrefixes <$> pages) ↔ past (q_get q "start-after") c = false ∧
       ∃ o, o ∈ objs ∧ common_prefix (q_get q "prefix") (q_get q "delimiter") (Key o) = Some c) ∧
    Forall (λ p, Z.of_nat (KeyCount p) ≤ s3MaxKeys q)%Z pages.
Proof.
  intros Hok Hv Hb Hl Hne Hct Hmax objs. assert (b ≠ "") as Hb0 by (by intros ->).
  pose proof (listed_distinct _ b (q_get q "prefix") _ Hok Hl) as Hnd. fold objs in Hnd.
  assert (∀ o, o ∈ objs → in_listing b (q_get q "prefix") o ∧ o ∈ all) as Hin by (intros o Ho; by apply list_elem_of_filter in Ho).
  assert (∀ o, o ∈ objs → under (q_get q "prefix") (Key o) ∧ Key o ≠ "") as Hun.
  { intros o Ho. destruct (Hin o Ho) as [[_ Hp%has_prefix_spec] ?]. split; [done|by apply Hne]. }
  split.
  - intros s h info w <- Hq. unfold handleS3ListObjectsV2, in_bucket, ensureS3Bucket. rewrite Hv. cbn [negb getBucket ls_s3 local_s3].
    unfold local_read. rewrite Hb. cbn [of_store listObjectsByPrefix ls_s3 local_s3]. unfold local_read. rewrite Hq.
    by rewrite (ListObjectsByPrefix_ok _ _ _ _ Hb0 Hl).
  - destruct (follow_pages_spec b objs (q_get q "prefix") Hnd Hun (S (length all)) q eq_refl Hmax) as (pages & Hpages & Hc & Hp & Hk).
    { unfold emissions_of. apply Nat.lt_succ_r. etrans; [apply emit_loop_length|]. rewrite merge_sort_length. apply length_filter. }
    exists pages. rewrite Hc, Hp. split_and!; [done| | | |].
    + rewrite (emitted_objects b) by (try done; by intros o Ho; apply Hin). f_equal. f_equal. unfold objs. rewrite list_filter_filter.
      apply list_filter_iff. intros o. unfold wanted. tauto.
    + apply prefixes_sorted. unfold emissions_of. apply emit_loop_sorted; [|by apply key_le_sorted]. by apply sorted_under.
    + intros c. rewrite prefixes_elem. unfold emissions_of. rewrite bool_decide_eq_true_2 by done.
      rewrite emit_loop_in by (by apply sorted_under). cbn [emits token]. setoid_rewrite (merge_sort_Permutation key_le objs). set_solver.
    + eapply Forall_impl; [exact Hk|]. intros p Hpk. unfold page_limit in Hpk. cbn. lia.
Qed.
End store.

(** ** Witness: four objects, two of them grouped, one per page *)
Definition w_obj (k : string) : ObjectMeta := MkObjectMeta "photos" k 3 "" "e" [MkChunkRef "c" 3 ["dn1"]] None [] 0 5 "" "" [].
Definition w_list_db : mdb :=
  foldl (λ db k, (putObjectInternal (w_obj k) 9 db).2) db0 ["zebra"; "dogs/b"; "cat"; "dogs/a"].
Definition w_stored (k : string) : ObjectMeta := with_version (w_obj k) 1.
Definition w_query : url_values := {["delimiter" := ["/"]; "max-keys" := ["1"]]}.
Lemma w_list_ok : db_ok w_list_db.
Proof. unfold w_list_db, db0. cbn [foldl]. rewrite <- !outcome_snd. do 4 apply putObject_ok. apply createBucket_ok, empty_db_ok. Qed.
Lemma w_list_all : ListObjects w_list_db = Ok (w_stored <$> ["cat"; "dogs/a"; "dogs/b"; "zebra"]).
Proof. reflexivity. Qed.
Lemma listing_pages_are_one_listing_witness : ∃ pages,
  follow_pages 5 (λ q, objects_page "photos" q (w_stored <$> ["cat"; "dogs/a"; "dogs/b"; "zebra"])) w_query = Some pages ∧
  concat (Contents <$> pages) = content <$> (w_stored <$> ["cat"; "zebra"]) ∧ "dogs/" ∈ concat (CommonPrefixes <$> pages).
Proof.
  destruct (listing_pages_are_one_listing ids1 "photos" w_query (MkLocal w_list_db 9) (MkBucketMeta "photos" 7)
    (w_stored <$> ["cat"; "dogs/a"; "dogs/b"; "zebra"]) w_list_ok eq_refl eq_refl w_list_all) as [_ (pages & Hf & Hc & _ & Hp & _)].
  - intros o (k & -> & Hk)%list_elem_of_fmap. do 4 (apply elem_of_cons in Hk as [->|Hk]; [done|]). by apply elem_of_nil in Hk.
  - reflexivity.
  - reflexivity.
  - exists pages. split; [exact Hf|]. split; [rewrite Hc; reflexivity|]. apply Hp. split; [reflexivity|].
    exists (w_stored "dogs/a"). split; [|reflexivity]. apply list_elem_of_filter. split; [by split|]. by right; left.
Defined.
