(* ===== verification/S3Spec.v ===== *)
(** * The S3 handlers on the edge's own store: what one request does

    The loops of S3.v are those of Edge.v; the database agrees with an abstract store that
    maps keys to bodies. *)
From S2P Require Import Prelude GF GoLib Chunker Cdc Placement Kv Meta Store StoreProps Replicas Repair.
From S2P Require Import DataNode Transport Coordinator Election Edge EdgeProps EdgeLocal EdgeDelete CoordClient.
From S2P Require Import S3Sig S3Api S3Listing S3 S3ListTheorems.
From Stdlib Require Import Strings.Byte Strings.Ascii.

(** ** The loops *)
Section loops.
Context (gear : list Z).
Context (net : nat → outcome) (sched : list string → list string).
Context {X : Type} {HM : MetaService X} {HML : MetaServiceLaws X}.
#[local] Instance sp_cluster : ChunkService coord_error Cluster := edge_cluster net.

(** [writeS3Chunks] writes what [handlePut] writes with the default quorum, and hashes it. *)
Lemma s3_put_loop_spec fuel e rd hashed refs total (w : Cluster) (x : X) r wx :
  s3_put_loop gear net sched fuel e rd hashed refs total w x = (r, wx) →
  put_loop gear net sched fuel e 0 rd refs total w x =
    (match r with Ok (_, refs', total') => Ok (refs', total') | Err er => Err (Status er) end, wx) ∧
  ∀ h refs' total', r = Ok (h, refs', total') → pieces_ok rd → h = hashed ++ bytes_left rd.
Proof.
  revert rd hashed refs total w x. induction fuel as [|fuel IH]; intros rd hashed refs total w x; cbn [s3_put_loop put_loop].
  { intros [= <- <-]. by split. }
  pose proof (Next_spec gear rd) as Hnext. destruct (Next gear rd) as [[piece|er] rd'].
  - destruct (writeChunkPreferClassW _ _ _ _ _ _ _ _) as [[replicas|] [w1 x1]]; [|intros [= <- <-]; by split].
    intros H. destruct (IH _ _ _ _ _ _ H) as [Hl Hh]. split; [exact Hl|].
    intros h refs' total' Hr Hok. destruct (Hnext Hok) as (data & -> & _ & -> & Hok').
    rewrite (Hh _ _ _ Hr Hok'). cbn [p_Data newStreamPiece]. by rewrite app_assoc.
  - destruct er; intros [= <- <-]; (split; [done|]); intros h refs' total' Hr Hok; try done.
    injection Hr as <- _ _. destruct (Hnext Hok) as [_ ->]. by rewrite app_nil_r.
Qed.

(** The chunks name the body. *)
Definition names (body : list byte) (cs : list ChunkRef) : Prop := ∃ datas, concat datas = body ∧ Forall2 names_data datas cs.
Lemma names_app b b' cs cs' : names b cs → names b' cs' → names (b ++ b') (cs ++ cs').
Proof. intros (ds & <- & H) (ds' & <- & H'). exists (ds ++ ds'). split; [by rewrite concat_app|by apply Forall2_app]. Qed.

Definition body_ok (e : EdgeServer) (src : source) : Prop :=
  clean src ∧ (ed_CDCEnabled e = true → progressing src).
Lemma writeS3Chunks_spec s src (w : Cluster) (x : X) r w1 x1 :
  writeS3Chunks gear net sched s src w x = (r, (w1, x1)) → sound w → body_ok (s3_edge s) src →
  sound w1 ∧ (∀ b k, ms_stored x1 b k = ms_stored x b k) ∧
  ∀ wr, r = Ok wr → contents src ≠ [] ∧ names (contents src) (wc_Chunks wr) ∧ wc_Chunks wr ≠ [] ∧
    wc_Size wr = i64 (Z.of_nat (length (contents src))) ∧ wc_ETag wr = quoted (sha256_hex (contents src)).
Proof.
  unfold writeS3Chunks. intros H Hw [Hc Hp]. destruct (s3_Coord s); cbn [negb] in H; [|by injection H as <- <- <-].
  destruct (s3_put_loop _ _ _ _ _ _ _ _ _ _ _) as [r0 [w2 x2]] eqn:Hl. apply s3_put_loop_spec in Hl as [Hl Hh].
  apply put_chunks_spec in Hl as [(_ & Hs & Hst) Hput]. cbn [fst snd] in *. destruct (Hs Hw) as [Hw2 _].
  destruct r0 as [[[h refs] total]|er]; [|by injection H as <- <- <-].
  destruct (Nat.eqb_spec (length refs) 0) as [|Hne]; injection H as <- <- <-; (split; [done|split; [done|]]); [done|].
  intros wr [= <-]. cbn [wc_Chunks wc_Size wc_ETag]. destruct (newPutReader_ok (s3_edge s) src Hc Hp) as [Hok Hb].
  destruct (Hput refs total eq_refl Hok Hw eq_refl) as (datas & cs & -> & Hcat & Hall & Hwr & ->). cbn [app] in *.
  rewrite (Hh _ _ _ eq_refl Hok), Hb in *. rewrite Z.add_0_l. cbn [app]. split_and!; try done.
  - destruct datas as [|d datas]; [apply Forall2_nil_inv_l in Hwr as ->; done|]. apply Forall_cons in Hall as [Hd _]. rewrite <- Hcat. by destruct d.
  - exists datas. split; [done|]. eapply Forall2_impl; [exact Hwr|]. intros d c. by apply wrote_names.
  - by intros ->.
  - exact HML.
Qed.

(** The S3 read is the native read without agreement. *)
Lemma s3_get_loop_native i meta cs body len w rep w' :
  s3_get_loop net i meta cs body w = (rep, w') → (i = 0 → body = []) →
  ∃ g, get_loop net sched i meta 0 cs (MkGet 200 len body) w = (g, w') ∧
    (rep = s3_err 502 CodeInternalError ∧ g = get_error 502 ∨
     ∃ hd, rep = S3Object hd (g_body g) ∧ g_status g = 200%Z ∧ (hd = Some meta ∨ hd = None ∧ g_body g = [])).
Proof.
  revert i body len w. induction cs as [|c cs IH]; intros i body len w; cbn [s3_get_loop get_loop].
  { intros [= <- <-] _. eexists. split; [done|]. right. exists (Some meta). by split_and!; [| |left]. }
  unfold read_chunk. cbn [Z.ltb]. change (1 <? 0)%Z with false. cbn iota.
  destruct (coord_ReadChunk net (ChunkID c) (Replicas c) w) as [[[data a]|er] w1].
  - destruct (negb _).
    + intros [= <- <-] H0. eexists. split; [done|]. right. eexists. split; [done|]. split; [done|].
      destruct (Nat.eqb_spec i 0) as [->|]; [right; by rewrite H0|by left].
    + intros H _. eapply IH in H as (g & Hg & Hr); [|done]. exists g. split; [exact Hg|exact Hr].
  - intros [= <- <-] H0. destruct (Nat.eqb_spec i 0); eexists; (split; [done|]); [by left|right]. eexists. by split_and!; [| |left].
Qed.
Lemma s3_read_safe meta body w rep w' :
  s3_get_loop net 0 meta (Chunks meta) [] w = (rep, w') → sound w → names body (Chunks meta) →
  sound w' ∧ (collision ∨ rep = s3_err 502 CodeInternalError ∨
    ∃ hd sent, rep = S3Object hd sent ∧ sent `prefix_of` body ∧ (hd = Some meta ∨ hd = None ∧ sent = [])).
Proof.
  intros H Hw (datas & <- & Hn). destruct (s3_get_loop_native 0 meta (Chunks meta) [] None w rep w' H (λ _, eq_refl)) as (g & Hg & Hr).
  assert (sound w') as Hw'.
  { clear Hr Hg Hn. revert w Hw H. generalize 0, (@nil byte). induction (Chunks meta) as [|c cs IH]; intros i b w Hw; cbn [s3_get_loop].
    { by intros [= _ <-]. }
    destruct (coord_ReadChunk net _ _ w) as [[[d a]|er] w1] eqn:Hrd; apply read_spec in Hrd as [Hs _]; pose proof (same_nodes_sound net _ _ Hs Hw) as Hw1.
    - destruct (negb _); [by intros [= _ <-]|by apply IH].
    - by intros [= _ <-]. }
  split; [done|]. destruct (get_loop_spec net sched 0 meta 0 datas (Chunks meta) _ w g w' Hg Hw Hn eq_refl) as [?|[[_ ->]|(n & Hst & Hb)]];
    [by left|right|right].
  - destruct Hr as [[-> _]|(hd & _ & ? & _)]; [by left|done].
  - destruct Hr as [[-> _]|(hd & -> & _ & Hhd)]; [by left|]. right. exists hd, (g_body g). split; [done|]. split; [|done].
    rewrite Hb. cbn [g_body app]. exists (concat (drop n datas)). by rewrite <- concat_app, take_drop.
Qed.
Lemma delete_refs_sound l w : sound w → sound (delete_refs net l w).
Proof. apply (delete_refs_erases net l w). Qed.
End loops.

(** ** The S3 front door as an object store: its abstract specification

    The abstract store maps bucket names to creation times, keys to bodies and uploads to the
    bodies of their parts.  [allowed] is what a request may answer and what it does to that
    store; [agree] relates it to the database. *)

Record abstract_store : Type := MkAbstract
  { a_buckets : gmap string Z; a_objects : gmap string (list byte); a_uploads : gmap string (gmap Z (list byte)) }.
Definition no_store : abstract_store := MkAbstract ∅ ∅ ∅.
Definition on_buckets f a := MkAbstract (f (a_buckets a)) (a_objects a) (a_uploads a).
Definition on_objects f a := MkAbstract (a_buckets a) (f (a_objects a)) (a_uploads a).
Definition on_uploads f a := MkAbstract (a_buckets a) (a_objects a) (f (a_uploads a)).
Definition length64 (body : list byte) : Z := i64 (Z.of_nat (length body)).
Definition etag_of (body : list byte) : string := quoted (sha256_hex body).

Section spec.
Context (h : s3_http) (info : RequestInfo).
Let b := i_Bucket info.
Let okey := objKey b (i_Key info).
Let mkey := multipartKey b (i_Key info) (q_get (url_query (h_req h)) "uploadId").
Let body := contents (h_body h).

(** What a request may answer, and what it then does.  A request that is refused does
    nothing; a read may be refused at any time, because nodes may not answer. *)
Inductive allowed (a : abstract_store) : s3_reply → abstract_store → Prop :=
  | refused e : allowed a (S3Error e) a
  | bucket_created hd t : i_Operation info = OperationCreateBucket → a_buckets a !! b = None →
      allowed a (S3Done 200 hd NoBody) (on_buckets <[b := t]> a)
  | bucket_deleted : i_Operation info = OperationDeleteBucket → is_Some (a_buckets a !! b) →
      (∀ k, a_objects a !! objKey b k = None) → allowed a (S3Done 200 [] NoBody) (on_buckets (delete b) a)
  | buckets_listed l : i_Operation info = OperationListBuckets →
      (∀ m, m ∈ l ↔ a_buckets a !! bm_Name m = Some (bm_CreatedAt m)) → allowed a (S3Done 200 [] (BucketsBody l)) a
  | object_put : i_Operation info = OperationPutObject → is_Some (a_buckets a !! b) → body ≠ [] →
      allowed a (S3Done 200 [("ETag", etag_of body)%string] NoBody) (on_objects <[okey := body]> a)
  | object_read hd data sent : i_Operation info = OperationGetObject → a_objects a !! okey = Some data → sent `prefix_of` data →
      match hd with Some o => Size o = length64 data | None => sent = [] end → allowed a (S3Object hd sent) a
  | object_stat o data : i_Operation info = OperationHeadObject → a_objects a !! okey = Some data →
      Size o = length64 data → allowed a (S3Object (Some o) []) a
  | object_deleted : i_Operation info = OperationDeleteObject →
      allowed a (S3Done 204 [] NoBody) (on_objects (delete okey) a)
  | objects_listed l : i_Operation info = OperationListObjectsV2 →
      (∀ c, c ∈ Contents l → ∃ data, a_objects a !! objKey b (oc_Key c) = Some data ∧ oc_Size c = length64 data) →
      allowed a (S3Done 200 [] (ListingBody l)) a
  | upload_created id : i_Operation info = OperationCreateMultipartUpload → is_Some (a_buckets a !! b) →
      a_uploads a !! multipartKey b (i_Key info) id = None →
      allowed a (S3Done 200 [] (InitiatedBody (MkInitiated b (i_Key info) id)))
        (on_uploads <[multipartKey b (i_Key info) id := ∅]> a)
  | part_put ps n : i_Operation info = OperationUploadPart → a_uploads a !! mkey = Some ps → body ≠ [] →
      parse_int (q_get (url_query (h_req h)) "partNumber") = Some n → (1 ≤ n ≤ 10000)%Z →
      allowed a (S3Done 200 [("ETag", etag_of body)%string] NoBody) (on_uploads <[mkey := <[n := body]> ps]> a)
  | parts_listed ps l : i_Operation info = OperationListParts → a_uploads a !! mkey = Some ps →
      (∀ e, e ∈ lp_Parts l → ∃ data, ps !! pe_PartNumber e = Some data ∧ pe_Size e = length64 data ∧ pe_ETag e = etag_of data) →
      allowed a (S3Done 200 [] (PartsBody l)) a
  | upload_completed ps wanted datas hd c : i_Operation info = OperationCompleteMultipartUpload →
      a_uploads a !! mkey = Some ps → h_parts h = Some wanted → wanted ≠ [] → StronglySorted Z.lt (cp_PartNumber <$> wanted) →
      Forall2 (λ p data, ps !! cp_PartNumber p = Some data ∧ (cp_ETag p = "" ∨ cp_ETag p = etag_of data)) wanted datas →
      allowed a (S3Done 200 hd (CompletedBody c)) (on_uploads (delete mkey) (on_objects <[okey := concat datas]> a))
  | upload_aborted : i_Operation info = OperationAbortMultipartUpload → is_Some (a_uploads a !! mkey) →
      allowed a (S3Done 204 [] NoBody) (on_uploads (delete mkey) a).
End spec.

(** ** Agreement of a database and an abstract store *)
Section agreement.
Context {M : Type → Type} {KVM : KV M} {HKV : KVLaws M}.

Definition agrees {A B} (P : A → B → Prop) (m : M (stored A)) (g : gmap string B) : Prop :=
  ∀ k, option_Forall2 (λ raw y, ∃ x, raw = Enc x ∧ P x y) (kv_get m k) (g !! k).
Lemma agrees_empty {A B} (P : A → B → Prop) : agrees P kv_empty ∅.
Proof. intros k. rewrite get_empty, lookup_empty. constructor. Qed.
Lemma agrees_put {A B} (P : A → B → Prop) (m m' : M (stored A)) g k x y :
  put m k (Enc x) = Ok m' → agrees P m g → P x y → agrees P m' (<[k := y]> g).
Proof.
  intros Hp%put_ok Hm Hxy k'. rewrite (get_put _ _ _ _ _ Hp), lookup_insert. case_decide; [constructor; by exists x|apply Hm].
Qed.
Lemma agrees_delete {A B} (P : A → B → Prop) (m : M (stored A)) g k :
  agrees P m g → agrees P (kv_delete m k) (delete k g).
Proof. intros Hm k'. rewrite get_delete, lookup_delete. case_decide; [constructor|apply Hm]. Qed.
Lemma agrees_get {A B} (P : A → B → Prop) (m : M (stored A)) g k x :
  agrees P m g → get_decoded m k = Ok x → ∃ y, g !! k = Some y ∧ P x y.
Proof. intros Hm Hg%get_decoded_ok. specialize (Hm k). rewrite Hg in Hm. inversion Hm as [? y (x' & E & Hxy)|]; subst. injection E as ->. by exists y. Qed.
Lemma agrees_none {A B} (P : A → B → Prop) (m : M (stored A)) g k :
  agrees P m g → kv_get m k = None → g !! k = None.
Proof. intros Hm Hg. specialize (Hm k). rewrite Hg in Hm. by inversion Hm. Qed.
Lemma agrees_some {A B} (P : A → B → Prop) (m : M (stored A)) g k raw :
  agrees P m g → kv_get m k = Some raw → ∃ x y, raw = Enc x ∧ g !! k = Some y ∧ P x y.
Proof. intros Hm Hg. specialize (Hm k). rewrite Hg in Hm. inversion Hm as [? y (x' & E & Hxy)|]; subst. by exists x', y. Qed.
Lemma agrees_back {A B} (P : A → B → Prop) (m : M (stored A)) g k y :
  agrees P m g → g !! k = Some y → ∃ x, kv_get m k = Some (Enc x) ∧ P x y.
Proof. intros Hm Hg. specialize (Hm k). rewrite Hg in Hm. inversion Hm as [raw ? (x & E & Hxy)|]; subst. by exists x. Qed.

Definition bucket_is (m : BucketMeta) (t : Z) : Prop := bm_CreatedAt m = t.
Definition object_is (o : ObjectMeta) (body : list byte) : Prop :=
  EC o = None ∧ LegacyChunkID o = "" ∧ Size o = length64 body ∧ names body (Chunks o).
Definition part_is (p : MultipartPartMeta) (body : list byte) : Prop :=
  p_Size p = length64 body ∧ p_ETag p = etag_of body ∧ names body (p_Chunks p).
Definition upload_is (u : MultipartUploadMeta) (ps : gmap Z (list byte)) : Prop :=
  ∀ n, option_Forall2 part_is (Parts u !! n) (ps !! n).
Record agree (db : @DB M) (a : abstract_store) : Prop := MkAgree
  { agree_buckets : agrees bucket_is (buckets db) (a_buckets a);
    agree_objects : agrees object_is (objects db) (a_objects a);
    agree_uploads : agrees upload_is (multipart db) (a_uploads a) }.
Lemma agree_empty : agree empty_db no_store.
Proof. split; apply agrees_empty. Qed.

Lemma object_is_versioned m k o body : object_is o body → object_is (next_version m k o) body.
Proof. intros H. destruct (next_version_is m k o) as [v ->]. exact H. Qed.
Lemma object_is_normal o body : object_is o body → object_is (normalizeLegacy o) body.
Proof.
  intros (H1 & H2 & H3 & H4). unfold normalizeLegacy. rewrite (bool_decide_eq_true_2 (LegacyChunkID o = "")) by done.
  rewrite andb_false_r. by split_and!.
Qed.

(** ** The store's operations *)
Lemma createBucket_agree name now (db : @DB M) a m db' :
  agree db a → createBucketInternal name now db = (Ok m, db') →
  a_buckets a !! name = None ∧ agree db' (on_buckets <[name := now]> a).
Proof.
  intros [Hb Ho Hu]. unfold createBucketInternal. destruct (negb _); [done|]. intros H%Update_ok.
  destruct (kv_get (buckets db) name) eqn:Hg; [done|]. apply rbind_ok in H as (mb & Hp & [= <- <-]).
  split; [by eapply agrees_none|]. split; [|done..]. cbn [buckets set_buckets on_buckets a_buckets]. by eapply agrees_put.
Qed.
Lemma deleteBucket_agree name (db : @DB M) a db' :
  agree db a → deleteBucketInternal name db = (Ok (), db') →
  is_Some (a_buckets a !! name) ∧ (∀ k, a_objects a !! objKey name k = None) ∧ agree db' (on_buckets (delete name) a).
Proof.
  intros [Hb Ho Hu]. unfold deleteBucketInternal. intros H%Update_ok. destruct (kv_get (buckets db) name) as [raw|] eqn:Hg; [|done].
  unfold BucketHasObjects in H. pose proof (kv_seek_prefix (objects db) (name ++ "/")%string) as Hseek.
  destruct (match kv_seek _ _ with Some _ => _ | None => _ end) eqn:Hs; [done|]. injection H as <-. split_and!.
  - destruct (agrees_some _ _ _ _ _ Hb Hg) as (m & y & _ & Hy & _). by exists y.
  - intros k. destruct (a_objects a !! objKey name k) as [body|] eqn:Hk; [|done].
    destruct (agrees_back _ _ _ _ _ Ho Hk) as (o & Hget & _). destruct Hseek as [_ Hseek]. discriminate Hseek.
    exists k, (Enc o). by rewrite <- string_app_assoc.
  - split; [|done..]. cbn [buckets set_buckets on_buckets a_buckets]. by apply agrees_delete.
Qed.
Lemma ListBuckets_agree (db : @DB M) a l : db_ok db → agree db a → Store.ListBuckets db = Ok l →
  ∀ m, m ∈ l ↔ a_buckets a !! bm_Name m = Some (bm_CreatedAt m).
Proof.
  intros Hok [Hb _ _] (r & Hr & [= <-])%rbind_ok m. rewrite (elem_of_merge_sort bucket_le).
  assert (m ∈ r ↔ kv_get (buckets db) (bm_Name m) = Some (Enc m)) as ->.
  { rewrite <- elem_list. apply decode_all_fmap in Hr. split.
    - intros (i & Hi)%list_elem_of_lookup. destruct (Forall2_lookup_r _ _ _ _ _ Hr Hi) as ([k v] & Hk & Hv). cbn in Hv. subst v.
      apply list_elem_of_lookup_2 in Hk. pose proof Hk as Hk'. rewrite elem_list in Hk'.
      destruct (ok_buckets db Hok k m Hk') as [-> _]. exact Hk.
    - intros (i & Hi)%list_elem_of_lookup. destruct (Forall2_lookup_l _ _ _ _ _ Hr Hi) as (m' & Hm' & [= <-]).
      by eapply list_elem_of_lookup_2. }
  split.
  - intros Hg. destruct (agrees_some _ _ _ _ _ Hb Hg) as (m' & y & [= <-] & Hy & <-). exact Hy.
  - intros (m' & Hg & Ht)%(agrees_back _ _ _ _ _ Hb). destruct (ok_buckets db Hok _ _ Hg) as [Hn _].
    unfold bucket_is in Ht. assert (m' = m) as <-; [|exact Hg]. destruct m, m'. cbn in *. congruence.
Qed.
Lemma GetBucket_agree (db : @DB M) a b m : agree db a → Store.GetBucket db b = Ok m → is_Some (a_buckets a !! b).
Proof. intros [Hb _ _] Hg. destruct (agrees_get _ _ _ _ _ Hb Hg) as (y & Hy & _). by exists y. Qed.

Lemma putObject_agree o now body (db : @DB M) a o' db' :
  agree db a → object_is o body → putObjectInternal o now db = (Ok o', db') →
  agree db' (on_objects <[objKey (Bucket o) (Key o) := body]> a).
Proof.
  intros [Hb Ho Hu] Hob. unfold putObjectInternal. intros H%Update_ok. apply rbind_ok in H as (m & Hp & [= _ <-]). split; [done| |done].
  cbn [objects set_objects on_objects a_objects]. eapply agrees_put; [exact Hp|exact Ho|].
  destruct (IsZero _); by apply object_is_versioned.
Qed.
Lemma GetObject_agree (db : @DB M) a b k o : agree db a → GetObject db b k = Ok o →
  ∃ body, a_objects a !! objKey b k = Some body ∧ object_is o body.
Proof.
  intros [_ Ho _] (o' & Hg & [= <-])%rbind_ok. destruct (agrees_get _ _ _ _ _ Ho Hg) as (body & Hbody & Hob).
  exists body. split; [done|by apply object_is_normal].
Qed.
Lemma GetObject_missing (db : @DB M) a b k : agree db a → GetObject db b k = Err ErrNotFound → a_objects a !! objKey b k = None.
Proof.
  intros [_ Ho _] Hg. apply (agrees_none _ _ _ _ Ho). unfold GetObject, get_decoded in Hg.
  destruct (kv_get _ _) as [raw|] eqn:E; [|done]. destruct (agrees_some _ _ _ _ _ Ho E) as (o & y & -> & _). done.
Qed.
Lemma deleteObject_agree b k (db : @DB M) a r db' :
  agree db a → deleteObjectInternal b k db = (r, db') →
  match r with
  | Ok _ => agree db' (on_objects (delete (objKey b k)) a)
  | Err er => db' = db ∧ (er = ErrNotFound → a_objects a !! objKey b k = None)
  end.
Proof.
  intros [Hb Ho Hu]. unfold deleteObjectInternal, Update. destruct (kv_get _ _) eqn:Hg; intros [= <- <-].
  - split; [done| |done]. cbn [objects set_objects on_objects a_objects]. by apply agrees_delete.
  - split; [done|]. intros _. by eapply agrees_none.
Qed.

(** ** Uploads *)
Lemma fresh_upload_id_unused fuel (m : M (stored MultipartUploadMeta)) b k ids i id :
  fresh_upload_id fuel m b k ids i = Some id → kv_get m (multipartKey b k id) = None.
Proof.
  revert i. induction fuel as [|fuel IH]; intros i; cbn [fresh_upload_id];
    destruct (kv_get m (multipartKey b k (ids i))) eqn:E; try done; try (by intros [= <-]).
  apply IH.
Qed.
Lemma createUpload_agree ids b k ct now (db : @DB M) a up db' :
  agree db a → CreateMultipartUpload_tx b k ct ids now db = (Ok up, db') →
  a_uploads a !! multipartKey b k (UploadID up) = None ∧ agree db' (on_uploads <[multipartKey b k (UploadID up) := ∅]> a).
Proof.
  intros [Hb Ho Hu]. unfold CreateMultipartUpload_tx. destruct (_ || _); [done|]. intros H%Update_ok.
  destruct (kv_get (buckets db) b); [|done]. destruct (fresh_upload_id _ _ _ _ _ _) as [id|] eqn:Hf; [|done].
  apply rbind_ok in H as (m & Hp & [= <- <-]). cbn [UploadID]. apply fresh_upload_id_unused in Hf.
  split; [by eapply agrees_none|]. split; [done..|]. cbn [multipart set_multipart on_uploads a_uploads].
  eapply agrees_put; [exact Hp|exact Hu|]. intros n. cbn [Parts]. rewrite !lookup_empty. constructor.
Qed.
Lemma putPart_agree b k u part now body (db : @DB M) a part' db' :
  agree db a → part_is part body → PutMultipartPart_tx b k u part now db = (Ok part', db') →
  (1 ≤ PartNumber part ≤ 10000)%Z ∧ ∃ ps, a_uploads a !! multipartKey b k u = Some ps ∧
    agree db' (on_uploads <[multipartKey b k u := <[PartNumber part := body]> ps]> a).
Proof.
  intros [Hb Ho Hu] Hpart. unfold PutMultipartPart_tx. destruct (prepare_part part now) as [p|] eqn:Hprep; [|done].
  assert ((1 ≤ PartNumber part ≤ 10000)%Z ∧ PartNumber p = PartNumber part ∧ part_is p body) as (Hn & Hpn & Hp).
  { unfold prepare_part, validatePartNumber in Hprep. destruct (Z.ltb_spec (PartNumber part) 1); [done|].
    destruct (Z.ltb_spec 10000 (PartNumber part)); [done|]. cbn [orb negb] in Hprep. destruct (_ || _); [done|].
    destruct (IsZero _); injection Hprep as <-; by split_and!. }
  destruct (putMultipartPartInternal _ _ _ _ _) as [[v|er] db1] eqn:Hput; [|done]. intros [= _ <-]. split; [done|].
  unfold putMultipartPartInternal in Hput. apply Update_ok, rbind_ok in Hput as (up & Hup & (m & Hm & [= _ <-])%rbind_ok).
  destruct (agrees_get _ _ _ _ _ Hu Hup) as (ps & Hps & Hup'). exists ps. split; [done|]. split; [done..|].
  cbn [multipart set_multipart on_uploads a_uploads]. eapply agrees_put; [exact Hm|exact Hu|].
  intros n. cbn [Parts with_part]. rewrite Hpn, !lookup_insert. case_decide; [by constructor|apply Hup'].
Qed.
Lemma listParts_agree b k u (db : @DB M) a l : db_ok db → agree db a → Store.ListMultipartParts db b k u = Ok l →
  ∃ ps, a_uploads a !! multipartKey b k u = Some ps ∧
    ∀ p, p ∈ l → ∃ body, ps !! PartNumber p = Some body ∧ part_is p body.
Proof.
  intros Hok [_ _ Hu] (up & Hup & [= <-])%rbind_ok. pose proof Hup as Hget. apply get_decoded_ok in Hget.
  destruct (agrees_get _ _ _ _ _ Hu Hup) as (ps & Hps & Hup'). exists ps. split; [done|].
  intros p Hp. rewrite (merge_sort_Permutation part_le) in Hp. apply list_elem_of_fmap in Hp as ([n p'] & -> & Hp).
  apply elem_of_map_to_list in Hp. cbn [snd]. destruct (ok_multipart db Hok _ _ Hget) as [_ Hall].
  destruct (Hall n p' Hp) as [Hn _]. specialize (Hup' n). rewrite Hp in Hup'. inversion Hup' as [? body Hbody E|]; subst. by exists body.
Qed.
Lemma part_lengths gots datas : Forall2 part_is gots datas →
  i64 (sumZ (p_Size <$> gots)) = length64 (concat datas) ∧ names (concat datas) (concat (p_Chunks <$> gots)).
Proof.
  induction 1 as [|p d ps ds (Hs & _ & Hn) _ [IH IHn]]; [split; [done|by exists []]|]. rewrite !fmap_cons. cbn [concat].
  split; [|by apply names_app]. unfold sumZ, length64 in *. cbn [foldr]. rewrite Hs, i64_add_l, length_app.
  rewrite Z.add_comm, <- i64_add_l, IH, i64_add_l. f_equal. lia.
Qed.
Lemma complete_agree b k u wanted now (db : @DB M) a obj done db' :
  agree db a → CompleteMultipartUpload_tx b k u wanted now db = (Ok (obj, done), db') →
  ∃ ps datas, a_uploads a !! multipartKey b k u = Some ps ∧ wanted ≠ [] ∧ StronglySorted Z.lt (cp_PartNumber <$> wanted) ∧
    Forall2 (λ p data, ps !! cp_PartNumber p = Some data ∧ (cp_ETag p = ""%string ∨ cp_ETag p = etag_of data)) wanted datas ∧
    agree db' (on_uploads (delete (multipartKey b k u)) (on_objects <[objKey b k := concat datas]> a)).
Proof.
  intros [Hb Ho Hu]. unfold CompleteMultipartUpload_tx. destruct (Nat.eqb_spec (length wanted) 0) as [|Hne]; [done|].
  intros H%Update_ok. apply rbind_ok in H as (up & Hup & (st & Hst & H)%rbind_ok). cbn zeta in H.
  apply rbind_ok in H as (m & Hp & H). injection H as _ _ <-.
  apply complete_loop_spec in Hst as (got & _ & Hgot & Hchunks & Hsize & _ & Hsorted); [|done]. cbn [c_size c_chunks app] in *.
  destruct (agrees_get _ _ _ _ _ Hu Hup) as (ps & Hps & Hup'). exists ps.
  assert (∃ datas, Forall2 part_is got datas ∧
    Forall2 (λ p data, ps !! cp_PartNumber p = Some data ∧ (cp_ETag p = ""%string ∨ cp_ETag p = etag_of data)) wanted datas)
    as (datas & Hparts & Hwanted).
  { clear -Hgot Hup'. induction Hgot as [|w g ws gs [Hg He] _ (ds & H1 & H2)]; [by exists []|].
    specialize (Hup' (cp_PartNumber w)). rewrite Hg in Hup'. inversion Hup' as [? data Hd E|]; subst. exists (data :: ds).
    split; [by constructor|]. constructor; [|done]. split; [done|]. destruct Hd as (_ & <- & _). exact He. }
  exists datas. split_and!; [done|by intros ->|done|done|]. destruct (part_lengths _ _ Hparts) as [Hlen Hnames]. split; [done| |].
  - cbn [objects set_objects set_multipart on_uploads on_objects a_objects]. eapply agrees_put; [exact Hp|exact Ho|].
    apply object_is_versioned. split_and!; [done|done| |]; cbn [Size Chunks]; [by rewrite Hsize, Z.add_0_l|by rewrite Hchunks].
  - cbn [multipart set_objects set_multipart on_uploads on_objects a_uploads]. by apply agrees_delete.
Qed.
Lemma abort_agree b k u (db : @DB M) a up db' : agree db a → abortMultipartUploadInternal b k u db = (Ok up, db') →
  is_Some (a_uploads a !! multipartKey b k u) ∧ agree db' (on_uploads (delete (multipartKey b k u)) a).
Proof.
  intros [Hb Ho Hu]. unfold abortMultipartUploadInternal. intros (up' & Hup & [= _ <-])%Update_ok%rbind_ok.
  destruct (agrees_get _ _ _ _ _ Hu Hup) as (ps & Hps & _). split; [by exists ps|]. split; [done..|].
  cbn [multipart set_multipart on_uploads a_uploads]. by apply agrees_delete.
Qed.
End agreement.

(** The keys of uploads join the object key and the id of the upload with a slash, which
    either may contain: an id taken from a request can name an upload of another key. *)
Lemma upload_keys_collide : multipartKey "b" "k/x" "u" = multipartKey "b" "k" "x/u".
Proof. reflexivity. Qed.
