(* ===== verification/S3Theorems.v ===== *)
(** * The S3 front door: its contract

    An edge on its own store, driven through the S3 dialect, is the object store of S3Spec.v:
    whatever the nodes do, what it answers is what that store may answer. *)
From S2P Require Import Prelude GF GoLib Chunker Cdc Placement Kv Meta Store StoreProps Replicas Repair.
From S2P Require Import UrlKey DataNode Transport Coordinator Election Follower Edge EdgeProps EdgeLocal.
From S2P Require Import EdgeDelete CoordClient S3Sig S3Sign S3SigTheorems S3Api S3Listing S3 S3ListTheorems.
From S2P Require Import S3Spec.
From Stdlib Require Import Strings.Byte Strings.Ascii.

Section steps.
Context {M : Type → Type} {KVM : KV M} {HKV : KVLaws M} (ids : nat → string).
Context (gear : list Z).
Context (net : nat → outcome) (sched : list string → list string).
Context (porder : list MultipartPartMeta → list MultipartPartMeta).
#[local] Instance st_s3 : S3Store (LocalStore (M := M)) := local_s3 ids.
#[local] Instance st_cluster : ChunkService coord_error Cluster := edge_cluster net.
Notation store := (LocalStore (M := M)).

Definition good (w : Cluster) (x : store) (a : abstract_store) : Prop :=
  sound w ∧ db_ok (lm_db x) ∧ agree (lm_db x) a.
Definition stepped (h : s3_http) (info : RequestInfo) (a : abstract_store) (r : s3_reply * (Cluster * store)) : Prop :=
  collision ∨ ∃ a', allowed h info a r.1 a' ∧ good r.2.1 r.2.2 a'.

Lemma stepped_refused h info a e w x : good w x a → stepped h info a (S3Error e, (w, x)).
Proof. intros Hg. right. exists a. split; [constructor|done]. Qed.
Lemma stepped_to h info a rep w x a' : allowed h info a rep a' → good w x a' → stepped h info a (rep, (w, x)).
Proof. intros Ha Hg. right. by exists a'. Qed.

(** A store operation keeps the state consistent, and one that fails changes nothing. *)
Lemma local_tx {A} (op : store_op) (f : Z → @DB M → result store_error A * @DB M) (x : store) r x' :
  (∀ db, exec op db = StoreProps.outcome (f (lm_now x) db)) → local_update f x = (r, x') → db_ok (lm_db x) →
  db_ok (lm_db x') ∧ match r with
                     | Ok v => f (lm_now x) (lm_db x) = (Ok v, lm_db x')
                     | Err _ => x' = x
                     end.
Proof.
  unfold local_update. intros Hop H Hok. pose proof (exec_ok op _ Hok) as Hok'. rewrite Hop in Hok'.
  destruct (f (lm_now x) (lm_db x)) as [[v|er] db] eqn:Hf; injection H as <- <-; (split; [exact Hok'|]); [done|].
  cbn [of_store]. assert (db = lm_db x) as ->; [|by destruct x]. apply (failed_tx op _ er). rewrite Hop, Hf. done.
Qed.

Lemma in_bucket_step h info w x a k :
  good w x a → (is_Some (a_buckets a !! i_Bucket info) → i_Bucket info ≠ ""%string → stepped h info a (k x)) →
  stepped h info a (in_bucket info w x k).
Proof.
  intros Hg Hk. unfold in_bucket, ensureS3Bucket. destruct (ValidateBucketName _) eqn:Hv; cbn [negb]; [|by apply stepped_refused].
  cbn [getBucket st_s3 local_s3]. unfold local_read. destruct (Store.GetBucket _ _) as [m|er] eqn:Hb; cbn [of_store]; [|by apply stepped_refused].
  apply Hk; [|by intros E; rewrite E in Hv]. destruct Hg as (_ & _ & Ha). by eapply GetBucket_agree.
Qed.

(** ** Buckets *)
Lemma create_bucket_step s h info w x a : i_Operation info = OperationCreateBucket → good w x a →
  stepped h info a (handleS3CreateBucket s h info w x).
Proof.
  intros Hop Hg. unfold handleS3CreateBucket. destruct (negb _); [by apply stepped_refused|].
  cbn [createBucket st_s3 local_s3]. destruct Hg as (Hw & Hok & Ha).
  destruct (local_update _ x) as [r x'] eqn:H. apply (local_tx (StoreProps.CreateBucket (i_Bucket info) (lm_now x))) in H as [Hok' H]; [|done..].
  destruct r as [m|er]; [|subst; by apply stepped_refused]. destruct (createBucket_agree _ _ _ _ _ _ Ha H) as [Hn Ha'].
  eapply stepped_to; [by eapply bucket_created|done].
Qed.
Lemma delete_bucket_step s h info w x a : i_Operation info = OperationDeleteBucket → good w x a →
  stepped h info a (handleS3DeleteBucket s h info w x).
Proof.
  intros Hop Hg. unfold handleS3DeleteBucket. destruct (negb _); [by apply stepped_refused|].
  cbn [deleteBucket st_s3 local_s3]. destruct Hg as (Hw & Hok & Ha).
  destruct (local_update _ x) as [r x'] eqn:H. apply (local_tx (StoreProps.DeleteBucket (i_Bucket info))) in H as [Hok' H]; [|done..].
  destruct r as [[]|er]; [|subst; by apply stepped_refused]. destruct (deleteBucket_agree _ _ _ _ Ha H) as (Hb & Hn & Ha').
  eapply stepped_to; [by apply bucket_deleted|done].
Qed.
Lemma list_buckets_step s h info w x a : i_Operation info = OperationListBuckets → good w x a →
  stepped h info a (handleS3ListBuckets s h info w x).
Proof.
  intros Hop Hg. unfold handleS3ListBuckets. cbn [listBuckets st_s3 local_s3]. unfold local_read.
  destruct (Store.ListBuckets _) as [l|er] eqn:Hl; cbn [of_store]; [|by apply stepped_refused]. pose proof Hg as (_ & Hok & Ha).
  eapply stepped_to; [|exact Hg]. apply buckets_listed; [done|]. by apply (ListBuckets_agree (lm_db x)).
Qed.

(** ** Objects *)
Lemma commit_local o x r x' body (a : abstract_store) :
  commitPutMeta o x = (r, x') → db_ok (lm_db x) → agree (lm_db x) a → object_is o body →
  db_ok (lm_db x') ∧ match r with
                     | Ok _ => agree (lm_db x') (on_objects <[objKey (Bucket o) (Key o) := body]> a)
                     | Err _ => x' = x
                     end.
Proof.
  unfold commitPutMeta. intros H Hok Ha Hob. pose proof (putObject_ok o (lm_now x) _ Hok) as Hok'. rewrite outcome_snd in Hok'.
  destruct (putObjectInternal o (lm_now x) (lm_db x)) as [[o'|er] db] eqn:Hp; injection H as <- <-; (split; [exact Hok'|]).
  - by eapply putObject_agree.
  - cbn [with_db]. assert (db = lm_db x) as ->; [|by destruct x]. apply (failed_tx (StoreProps.PutObject o (lm_now x)) _ er). cbn [exec]. by rewrite Hp.
Qed.
(** What writing the body leaves of the store: nothing changed. *)
Lemma write_store s src w x r w1 x1 : writeS3Chunks gear net sched s src w x = (r, (w1, x1)) → x1 = x.
Proof.
  unfold writeS3Chunks. destruct (s3_Coord s); cbn [negb]; [|by intros [= _ _ <-]].
  destruct (s3_put_loop _ _ _ _ _ _ _ _ _ _ _) as [r0 [w2 x2]] eqn:Hl.
  assert (x2 = x) as ->; [|destruct r0 as [[[h refs] total]|er]; [destruct (_ =? _)|]; by intros [= _ _ <-]].
  revert Hl. generalize (body_fuel src), (newPutReader (s3_edge s) src), (@nil byte), (@nil ChunkRef), 0%Z, w.
  induction n as [|n IH]; intros rd hs refs total w0; cbn [s3_put_loop]; [by intros [= _ _ <-]|].
  destruct (Next gear rd) as [[piece|er] rd']; [|destruct er; by intros [= _ _ <-]].
  unfold writeChunkPreferClassW. destruct (bool_decide _); [|destruct (ms_classDNs _ x) as [dns|]; [destruct (_ <? _)%Z|]];
    cbn [ms_placeN local_meta placeN]; destruct (WriteChunkToAddrsW _ _ _ _ _ _ _) as [[reps [er|]] w3];
    try (by intros [= _ _ <-]); apply IH.
Qed.
Lemma put_step s h info w x a : i_Operation info = OperationPutObject → good w x a → body_ok (s3_edge s) (h_body h) →
  stepped h info a (handleS3PutObject gear net sched s h info w x).
Proof.
  intros Hop Hg Hbody. apply in_bucket_step; [done|]. intros Hb _. cbv beta zeta. pose proof Hg as (Hw & Hok & Ha).
  destruct (writeS3Chunks _ _ _ _ _ _ _) as [r [w1 x1]] eqn:Hwr. pose proof (write_store _ _ _ _ _ _ _ Hwr) as ->.
  destruct (writeS3Chunks_spec gear net sched _ _ _ _ _ _ _ Hwr Hw Hbody) as (Hw1 & _ & Hr).
  destruct r as [wr|er]; [|by apply stepped_refused]. destruct (Hr wr eq_refl) as (Hne & Hn & _ & Hsz & Het).
  cbn [ms_commit local_meta]. destruct (commitPutMeta _ x) as [[o|er] x2] eqn:Hc.
  all: destruct (commit_local _ _ _ _ (contents (h_body h)) a Hc Hok Ha) as [Hok' H]; [by split_and!|].
  - rewrite Het. eapply stepped_to; [by apply object_put|]. by split_and!.
  - subst. by apply stepped_refused.
Qed.
Lemma read_step (ho : bool) s h info w x a :
  i_Operation info = (if ho then OperationHeadObject else OperationGetObject) → good w x a →
  stepped h info a (handleS3ReadObject net ho s h info w x).
Proof.
  intros Hop Hg. apply in_bucket_step; [done|]. intros Hb _. cbv beta zeta. pose proof Hg as (Hw & Hok & Ha).
  destruct (s3_Coord s); cbn [negb]; [|by apply stepped_refused]. cbn [ms_lookup local_meta]. unfold lookupMeta.
  destruct (GetObject _ _ _) as [meta|er] eqn:Hget; [|destruct er; by apply stepped_refused].
  destruct (GetObject_agree _ _ _ _ _ Ha Hget) as (data & Hdata & Hec & _ & Hsz & Hn).
  unfold IsEC. rewrite Hec. destruct ho; [eapply stepped_to; [|done]; by eapply object_stat|].
  destruct (s3_get_loop _ _ _ _ _ _) as [rep w'] eqn:Hread.
  destruct (s3_read_safe net sched _ _ _ _ _ Hread Hw Hn) as (Hw' & [Hcol|[->|(hd & sent & -> & Hpre & Hhd)]]); [by left|by apply stepped_refused|].
  eapply stepped_to; [|by split_and!]. eapply object_read; [done|done|done|]. by destruct Hhd as [->|[-> ->]].
Qed.
Lemma delete_step s h info w x a : i_Operation info = OperationDeleteObject → good w x a →
  stepped h info a (handleS3DeleteObject net s h info w x).
Proof.
  intros Hop Hg. apply in_bucket_step; [done|]. intros Hb _. cbv beta zeta. pose proof Hg as (Hw & Hok & Ha).
  assert (a_objects a !! objKey (i_Bucket info) (i_Key info) = None → stepped h info a (S3Done 204 [] NoBody, (w, x))) as Hnone.
  { intros Hn. eapply stepped_to; [by apply object_deleted|]. split_and!; [done|done|]. destruct Ha as [H1 H2 H3]. split; [done| |done].
    cbn [on_objects a_objects]. by rewrite delete_id. }
  destruct (s3_Coord s); cbn [negb]; [|by apply stepped_refused]. cbn [ms_lookup ms_delete local_meta]. unfold lookupMeta, deleteMeta.
  destruct (GetObject _ _ _) as [meta|er] eqn:Hget.
  2:{ destruct er; cbn [store_to_meta]; try (by apply stepped_refused). apply Hnone. by eapply GetObject_missing. }
  set (w2 := delete_refs _ _ _). assert (sound w2) as Hw2 by (by do 2 apply (delete_refs_sound net (X := store))).
  pose proof (deleteObject_ok (i_Bucket info) (i_Key info) _ Hok) as Hok'. rewrite outcome_snd in Hok'.
  destruct (deleteObjectInternal _ _ _) as [r db] eqn:Hdel. pose proof (deleteObject_agree _ _ _ _ _ _ Ha Hdel) as Hd.
  destruct r as [[]|er]; [eapply stepped_to; [by apply object_deleted|by split_and!]|]. destruct Hd as [-> Hd].
  assert (with_db x (lm_db x) = x) as -> by (by destruct x).
  destruct er; cbn [store_to_meta]; try (by apply stepped_refused).
  eapply stepped_to; [by apply object_deleted|]. split_and!; [done|done|]. destruct Ha as [H1 H2 H3]. split; [done| |done].
  cbn [on_objects a_objects]. by rewrite delete_id by (by apply Hd).
Qed.

Lemma list_objects_step s h info w x a : i_Operation info = OperationListObjectsV2 → good w x a →
  stepped h info a (handleS3ListObjectsV2 s h info w x).
Proof.
  intros Hop Hg. apply in_bucket_step; [done|]. intros Hb Hne. pose proof Hg as (_ & Hok & Ha).
  cbn [listObjectsByPrefix st_s3 local_s3]. unfold local_read. set (q := url_query (h_req h)).
  destruct (Store.ListObjectsByPrefix _ _ _ _) as [objs|er] eqn:Hl; cbn [of_store]; [|by apply stepped_refused].
  eapply stepped_to; [|exact Hg]. apply objects_listed; [done|]. intros c Hc.
  unfold Store.ListObjectsByPrefix in Hl. apply rbind_ok in Hl as (all & Hl & [= <-]). rewrite prefix_loop_all in Hc by done. cbn [app] in Hc.
  destruct (page_contents _ _ _ _ (λ o, λ Ho, proj1 (proj1 (list_elem_of_filter _ _ _) Ho)) Hc) as (o & Ho & ->).
  apply list_elem_of_filter in Ho as [[Hob _] Ho].
  destruct (GetObject_agree _ _ _ _ _ Ha (ListObjects_get _ _ _ Hok Hl Ho)) as (data & Hdata & _ & _ & Hsz & _).
  exists data. rewrite Hob in Hdata. by split.
Qed.

(** ** Uploads *)
Lemma create_upload_step s h info w x a : i_Operation info = OperationCreateMultipartUpload → good w x a →
  stepped h info a (handleS3CreateMultipartUpload s h info w x).
Proof.
  intros Hop Hg. apply in_bucket_step; [done|]. intros Hb _. cbv beta zeta. destruct Hg as (Hw & Hok & Ha).
  cbn [createMultipartUpload st_s3 local_s3]. destruct (local_update _ x) as [r x'] eqn:H.
  apply (local_tx (StoreProps.CreateMultipart (i_Bucket info) (i_Key info) (s3_content_type (h_req h)) ids (lm_now x))) in H as [Hok' H]; [|done..].
  destruct r as [up|er]; [|subst; by apply stepped_refused]. destruct (createUpload_agree _ _ _ _ _ _ _ _ _ Ha H) as [Hn Ha'].
  eapply stepped_to; [by apply upload_created|done].
Qed.
Lemma put_part_step s h info w x a : i_Operation info = OperationUploadPart → good w x a → body_ok (s3_edge s) (h_body h) →
  stepped h info a (handleS3UploadPart gear net sched s h info w x).
Proof.
  intros Hop Hg Hbody. apply in_bucket_step; [done|]. intros Hb _. cbv beta zeta. pose proof Hg as (Hw & Hok & Ha).
  destruct (parse_int _) as [n|] eqn:Hn; [|by apply stepped_refused]. case_bool_decide; [by apply stepped_refused|].
  destruct (writeS3Chunks _ _ _ _ _ _ _) as [r [w1 x1]] eqn:Hwr. pose proof (write_store _ _ _ _ _ _ _ Hwr) as ->.
  destruct (writeS3Chunks_spec gear net sched _ _ _ _ _ _ _ Hwr Hw Hbody) as (Hw1 & _ & Hr).
  destruct r as [wr|er]; [|by apply stepped_refused]. destruct (Hr wr eq_refl) as (Hne & Hnm & _ & Hsz & Het).
  cbn [putMultipartPart st_s3 local_s3]. set (part := MkPart _ _ _ _ _). destruct (local_update _ x) as [r2 x2] eqn:H2.
  apply (local_tx (PutPart (i_Bucket info) (i_Key info) (q_get (url_query (h_req h)) "uploadId") part (lm_now x))) in H2 as [Hok' H2]; [|done..].
  destruct r2 as [part'|er].
  - assert (part_is part (contents (h_body h))) as Hpart by (by split_and!).
    destruct (putPart_agree _ _ _ _ _ _ _ _ _ _ Ha Hpart H2) as (Hrange & ps & Hps & Ha').
    rewrite Het. eapply stepped_to; [by eapply part_put|]. by split_and!.
  - subst x2. apply stepped_refused. split_and!; [|done|done]. unfold deleteS3MultipartChunks.
    destruct (s3_Coord s); cbn [negb]; [by apply (delete_refs_sound net (X := store))|done].
Qed.
Lemma list_parts_step s h info w x a : i_Operation info = OperationListParts → good w x a →
  stepped h info a (handleS3ListParts s h info w x).
Proof.
  intros Hop Hg. apply in_bucket_step; [done|]. intros Hb _. cbv beta zeta. pose proof Hg as (_ & Hok & Ha).
  case_bool_decide; [by apply stepped_refused|]. cbn [listMultipartParts st_s3 local_s3]. unfold local_read.
  destruct (Store.ListMultipartParts _ _ _ _) as [parts|er] eqn:Hl; cbn [of_store]; [|by apply stepped_refused].
  destruct (listParts_agree _ _ _ _ _ _ Hok Ha Hl) as (ps & Hps & Hparts).
  eapply stepped_to; [|exact Hg]. eapply parts_listed; [done|done|].
  intros e He. unfold parts_page in He. apply parts_page_entries in He as [He|(p & Hp & ->)]; [by apply not_elem_of_nil in He|].
  destruct (Hparts p Hp) as (body & Hbody & Hsz & Het & _). by exists body.
Qed.
Lemma complete_step s h info w x a : i_Operation info = OperationCompleteMultipartUpload → good w x a →
  stepped h info a (handleS3CompleteMultipartUpload s h info w x).
Proof.
  intros Hop Hg. apply in_bucket_step; [done|]. intros Hb _. cbv beta zeta. destruct Hg as (Hw & Hok & Ha).
  case_bool_decide; [by apply stepped_refused|]. destruct (h_parts h) as [wanted|] eqn:Hparts; [|by apply stepped_refused].
  cbn [completeMultipartUpload st_s3 local_s3]. destruct (local_update _ x) as [r x'] eqn:H'.
  apply (local_tx (CompleteMultipart (i_Bucket info) (i_Key info) (q_get (url_query (h_req h)) "uploadId") wanted (lm_now x))) in H' as [Hok' H']; [|done..].
  destruct r as [[obj done_]|er]; [|subst; by apply stepped_refused].
  destruct (complete_agree _ _ _ _ _ _ _ _ _ _ Ha H') as (ps & datas & Hps & Hne & Hs & Hw' & Ha').
  eapply stepped_to; [by eapply upload_completed|done].
Qed.
Lemma abort_step s h info w x a : i_Operation info = OperationAbortMultipartUpload → good w x a →
  stepped h info a (handleS3AbortMultipartUpload net porder s h info w x).
Proof.
  intros Hop Hg. apply in_bucket_step; [done|]. intros Hb _. cbv beta zeta. destruct Hg as (Hw & Hok & Ha).
  case_bool_decide; [by apply stepped_refused|]. cbn [abortMultipartUpload st_s3 local_s3]. destruct (local_update _ x) as [r x'] eqn:H'.
  apply (local_tx (AbortMultipart (i_Bucket info) (i_Key info) (q_get (url_query (h_req h)) "uploadId"))) in H' as [Hok' H']; [|done..].
  destruct r as [up|er]; [|subst; by apply stepped_refused]. destruct (abort_agree _ _ _ _ _ _ _ Ha H') as [Hu Ha'].
  eapply stepped_to; [by apply upload_aborted|]. split_and!; [|done|done]. unfold deleteS3MultipartChunks.
  destruct (s3_Coord s); cbn [negb]; [by apply (delete_refs_sound net (X := store))|done].
Qed.

(** ** Any request *)
Lemma request_step s now h w x a : good w x a → body_ok (s3_edge s) (h_body h) →
  stepped h (Classify (h_req h)) a (handleS3 gear net sched porder s now h w x).
Proof.
  intros Hg Hb. unfold handleS3. destruct (VerifyRequest _ _ _) as [auth|er]; [|by apply stepped_refused].
  destruct (_ || _); [by apply stepped_refused|]. set (info := Classify (h_req h)). destruct (i_Operation info) eqn:Hop; cbn [dispatch].
  - by apply stepped_refused.
  - by apply list_buckets_step.
  - by apply create_bucket_step.
  - by apply delete_bucket_step.
  - by apply put_step.
  - by apply read_step.
  - by apply read_step.
  - by apply delete_step.
  - by apply list_objects_step.
  - by apply create_upload_step.
  - by apply put_part_step.
  - by apply list_parts_step.
  - by apply complete_step.
  - by apply abort_step.
Qed.

(** Requests one after the other, each at its time. *)
Fixpoint serve_s3 (s : S3Server) (reqs : list (Z * s3_http)) (w : Cluster) (x : store) : list s3_reply * (Cluster * store) :=
  match reqs with
  | [] => ([], (w, x))
  | (now, h) :: reqs =>
      let '(rep, (w, x)) := handleS3 gear net sched porder s now h w (MkLocal (lm_db x) now) in
      let '(reps, wx) := serve_s3 s reqs w x in (rep :: reps, wx)
  end.
Inductive all_allowed : abstract_store → list (Z * s3_http) → list s3_reply → abstract_store → Prop :=
  | none_left a : all_allowed a [] [] a
  | one_more a now h rep a1 reqs reps a2 : allowed h (Classify (h_req h)) a rep a1 → all_allowed a1 reqs reps a2 →
      all_allowed a ((now, h) :: reqs) (rep :: reps) a2.
Lemma serve_step s reqs w x a reps w' x' :
  serve_s3 s reqs w x = (reps, (w', x')) → good w x a → Forall (λ r, body_ok (s3_edge s) (h_body r.2)) reqs →
  collision ∨ ∃ a', all_allowed a reqs reps a' ∧ good w' x' a'.
Proof.
  revert w x a reps. induction reqs as [|[now h] reqs IH]; intros w x a reps; cbn [serve_s3].
  { intros [= <- <- <-] Hg _. right. exists a. by split; [constructor|]. }
  intros H Hg [Hb Hbs]%Forall_cons. assert (good w (MkLocal (lm_db x) now) a) as Hg0 by exact Hg.
  destruct (request_step s now h w _ a Hg0 Hb) as [?|(a1 & Ha1 & Hg1)]; [by left|].
  destruct (handleS3 _ _ _ _ _ _ _ _ _) as [rep [w1 x1]]. cbn [fst snd] in *.
  destruct (serve_s3 s reqs w1 x1) as [reps1 [w2 x2]] eqn:Hs. injection H as <- <- <-.
  destruct (IH _ _ _ _ Hs Hg1 Hbs) as [?|(a2 & Ha2 & Hg2)]; [by left|right]. exists a2. split; [by econstructor|done].
Qed.

End steps.

(** ** Witness: a bucket is created, an object that is not there is asked for *)
#[local] Opaque sha256 hmac_sha256 hex_encode.
Definition w_s3 : S3Server :=
  MkS3Server (MkEdge 2 false DefaultCDCConfig "" true (MkSigner ∅ "") None RolePrimary None) "" (Some w_keys) true.
Definition w_unsigned (method path auth : string) : s3_request := MkS3Request method path "" "example.com" (w_headers auth).
Definition w_sign (method path : string) : string :=
  match canonicalRequest (w_unsigned method path "") w_names "UNSIGNED-PAYLOAD" with
  | Ok c => authorization "AK" "20130524" "us-east-1" "s3" w_names
      (signature_of "secret" "20130524" "us-east-1" "s3" (stringToSign "20130524T000000Z" "20130524/us-east-1/s3/aws4_request" c))
  | Err _ => ""
  end.
Definition w_signed (method path : string) : s3_http := MkHttp (w_unsigned method path (w_sign method path)) false [] None.
Definition w_reqs : list (Z * s3_http) := [(w_clock, w_signed "PUT" "/photos"); (w_clock, w_signed "GET" "/photos/cat")].
Lemma w_signed_accepted method path : (method, path) ∈ [("PUT", "/photos"); ("GET", "/photos/cat")]%string →
  VerifyRequest (h_req (w_signed method path)) (Some w_keys) w_clock = Ok (MkAuth "AK" "us-east-1" "s3" w_names 1369353600000000000).
Proof.
  destruct w_tokens as (H1 & H2 & H3 & H4).
  intros [[= -> ->]|[[= -> ->]|[]%not_elem_of_nil]%elem_of_cons]%elem_of_cons;
    (eapply (accepts_signed _ w_keys w_clock "AK" "secret" "us-east-1" "s3" w_names _ w_date);
      try assumption; try reflexivity; [split; apply (bool_decide_unpack _); reflexivity|discriminate]).
Qed.
Lemma w_s3_served : (serve_s3 (M := gmap string) ids1 [] w_net id id w_s3 w_reqs w_cluster (MkLocal empty_db 0)).1 =
  [S3Done 200 [("Location", "/photos")%string] NoBody; s3_err 404 CodeNoSuchKey].
Proof.
  unfold w_reqs. cbn [serve_s3]. unfold handleS3. change (S3Credentials w_s3) with (Some w_keys).
  rewrite !w_signed_accepted by set_solver. reflexivity.
Qed.
