(* ===== verification/KeyAdmin.v ===== *)
(** * URL keys of an edge: registry, signer and the poll of the coord daemon

    The handlers of internal/edge/edge.go that rotate and remove keys, the start of
    cmd/kvfs-edge/main.go that builds the signer from the registry, and SyncURLKeys of
    internal/edge/urlkey_sync.go.  Each handler holds the edge's key mutex from its first change to its last, so
    handlers are atomic.  Errors that are only logged are not part of the results. *)
From S2P Require Import Prelude GF GoLib UrlKey Kv Meta Store StoreProps S3ListTheorems Replicas.
From Stdlib Require Import Strings.Byte Strings.Ascii.

(** ** encoding/hex *)
Definition byte_of_nibbles (h l : N) : byte := to_byte (16 * h + l).
(** [hex.DecodeString] *)
Fixpoint hex_decode (s : string) : option (list byte) :=
  match s with
  | EmptyString => Some []
  | String h (String l s) =>
      match unhex h, unhex l, hex_decode s with
      | Some h, Some l, Some r => Some (byte_of_nibbles h l :: r)
      | _, _, _ => None
      end
  | _ => None
  end.

(** ** The poll: a signer follows the list of the coord daemon *)
Definition sync_add (s : Signer) (e : URLKeyEntry) : Signer :=
  match hex_decode (SecretHex e) with
  | None => s
  | Some secret => match Add s (Kid e) secret with Ok s' => s' | Err _ => s end
  end.
Definition sync_remove (wantSet : gset string) (s : Signer) (kid : string) : Signer :=
  if bool_decide (kid ∈ wantSet) then s
  else match Remove s kid with Ok s' => s' | Err _ => s end.
Definition newPrimary (coord : list URLKeyEntry) : string :=
  foldl (λ p e, if IsPrimary e then Kid e else p) ""%string coord.
Definition SyncURLKeys (signer : Signer) (coord : list URLKeyEntry) : Signer :=
  let wantSet : gset string := list_to_set (Kid <$> coord) in
  let signer := foldl sync_add signer coord in
  let p := newPrimary coord in
  let signer := if negb (bool_decide (p = ""%string)) && negb (bool_decide (p = Primary signer))
                then match SetPrimary signer p with Ok s' => s' | Err _ => signer end
                else signer in
  foldl (sync_remove wantSet) signer (Kids signer).
(** One tick of [urlKeyPoller]; [None] is a failed list or a signer that is not configured. *)
Definition urlKeyPoller_tick (listed : option (list URLKeyEntry)) (signer : option Signer) : option Signer :=
  match listed with
  | None => signer
  | Some coord => (λ s, SyncURLKeys s coord) <$> signer
  end.

(** ** The handlers of an edge on its own store *)
Section admin.
Context {M : Type → Type} {KVM : KV M} {HKV : KVLaws M}.
Record KeyAdmin : Type := MkKeyAdmin { ka_Signer : option Signer; ka_Store : @DB M }.
Definition ka_set (st : KeyAdmin) (s : Signer) : KeyAdmin := MkKeyAdmin (Some s) (ka_Store st).

(** What a listed kid shows: never its secret. *)
Definition kid_info (e : URLKeyEntry) : string * bool * Z := (Kid e, IsPrimary e, uk_CreatedAt e).
Definition handleListURLKeys (st : KeyAdmin) : Z * option (list (string * bool * Z) * string) :=
  match ka_Signer st with
  | None => (200%Z, Some ([], ""%string))
  | Some s => match ListURLKeys (ka_Store st) with
              | Ok entries => (200%Z, Some (kid_info <$> entries, Primary s))
              | Err _ => (500%Z, None)
              end
  end.
Definition handleRotateURLKey (now : Z) (body : option (string * string)) (st : KeyAdmin) : Z * KeyAdmin :=
  match ka_Signer st, body with
  | None, _ | _, None => (400%Z, st)
  | Some signer, Some (kid, secretHex) =>
      if bool_decide (kid = ""%string) || bool_decide (secretHex = ""%string) then (400%Z, st)
      else match hex_decode secretHex with
      | None => (400%Z, st)
      | Some secret =>
          match PutURLKey kid secretHex true now (ka_Store st) with
          | (Err _, db) => (500%Z, MkKeyAdmin (Some signer) db)
          | (Ok _, db) =>
              let set_primary s :=
                match SetPrimary s kid with
                | Err _ => (500%Z, MkKeyAdmin (Some s) db)
                | Ok s => (200%Z, MkKeyAdmin (Some s) db)
                end in
              match Add signer kid secret with
              | Ok s => set_primary s
              | Err ErrDuplicateKid => set_primary signer
              | Err _ => (500%Z, MkKeyAdmin (Some signer) db)
              end
          end
      end
  end.
Definition handleRemoveURLKey (kid : string) (st : KeyAdmin) : Z * KeyAdmin :=
  match ka_Signer st with
  | None => (400%Z, st)
  | Some signer =>
      if bool_decide (kid = ""%string) then (400%Z, st)
      else match Remove signer kid with
      | Err _ => (400%Z, st)
      | Ok s =>
          match DeleteURLKey kid (ka_Store st) with
          | (Err _, db) => (500%Z, MkKeyAdmin (Some s) db)
          | (Ok _, db) => (200%Z, MkKeyAdmin (Some s) db)
          end
      end
  end.

(** ** The start of the daemon: [None] is a fatal error *)
Fixpoint boot_keys (entries : list URLKeyEntry) (ks : gmap string (list byte)) (prim : string)
    : option (gmap string (list byte) * string) :=
  match entries with
  | [] => Some (ks, prim)
  | e :: entries =>
      match hex_decode (SecretHex e) with
      | None => None
      | Some b => boot_keys entries (<[Kid e := b]> ks) (if IsPrimary e then Kid e else prim)
      end
  end.
Definition boot_entries (secret : list byte) (now : Z) (db : @DB M) : option (list URLKeyEntry) * DB :=
  match ListURLKeys db with
  | Err _ => (None, db)
  | Ok ((_ :: _) as entries) => (Some entries, db)
  | Ok [] =>
      match PutURLKey DefaultKid (hex_encode secret) true now db with
      | (Err _, db) => (None, db)
      | (Ok _, db) => (Some (match ListURLKeys db with Ok l => l | Err _ => [] end), db)
      end
  end.
Definition boot_signer (secret : list byte) (override : string) (now : Z) (db : @DB M) : option KeyAdmin :=
  match boot_entries secret now db with
  | (None, _) => None
  | (Some entries, db) =>
      '(ks, prim) ← boot_keys entries ∅ ""%string;
      prim ← (if bool_decide (prim = ""%string) then Kid <$> head entries else Some prim);
      let prim := if bool_decide (override = ""%string) then prim else override in
      match NewMultiSigner ks prim with
      | Ok s => Some (MkKeyAdmin (Some s) db)
      | Err _ => None
      end
  end.
End admin.

(** ** URL keys of an edge: their contract *)

(** ** Hexadecimal *)
Lemma unhex_digit n : (n < 16)%N → unhex (hex_digit n) = Some n.
Proof.
  intros H. assert (∃ k, k < 16 ∧ n = N.of_nat k) as (k & Hk & ->) by (exists (N.to_nat n); lia).
  do 16 (destruct k as [|k]; [reflexivity|]). lia.
Qed.
Lemma hex_decode_encode l : hex_decode (hex_encode l) = Some l.
Proof.
  induction l as [|b l IH]; [done|]. cbn [hex_encode hex_decode]. pose proof (to_N_lt b).
  rewrite !unhex_digit by (try apply N.mod_lt; try apply N.Div0.div_lt_upper_bound; lia). rewrite IH. unfold byte_of_nibbles.
  do 2 f_equal. rewrite <- N.div_mod by done. apply to_byte_to_N.
Qed.

(** ** The poll *)
#[export] Instance URLKeyEntry_eq_dec : EqDecision URLKeyEntry.
Proof. solve_decision. Defined.
Section sync.
Context (coord : list URLKeyEntry) (p : URLKeyEntry) (secret : URLKeyEntry → list byte).
Context (Hnd : NoDup (Kid <$> coord)) (Hp : p ∈ coord) (Hprim : ∀ e, e ∈ coord → IsPrimary e = true ↔ e = p).
Context (Hgood : ∀ e, e ∈ coord → Kid e ≠ ""%string ∧ hex_decode (SecretHex e) = Some (secret e) ∧ secret e ≠ []).

Lemma newPrimary_is : newPrimary coord = Kid p.
Proof.
  clear secret Hnd Hgood.
  unfold newPrimary. assert (∀ l q, l ⊆ coord → foldl (λ p e, if IsPrimary e then Kid e else p) q l = if decide (p ∈ l) then Kid p else q) as Hl.
  { intros l. induction l as [|e l IH]; intros q Hsub; [by rewrite decide_False by set_solver|]. cbn [foldl]. rewrite IH by set_solver.
    pose proof (Hprim e ltac:(set_solver)) as He. destruct (IsPrimary e).
    - assert (e = p) as -> by (by apply He). rewrite (decide_True (P := p ∈ p :: l)) by set_solver. by case_decide.
    - assert (e ≠ p) by (intros ->; by destruct He as [_ He]; specialize (He eq_refl)). destruct (decide (p ∈ l)), (decide (p ∈ e :: l)); set_solver. }
  by rewrite Hl, decide_True by done.
Qed.
(** After the first loop every kid of the list is known; the signer's own secrets stand. *)
Lemma sync_add_all s : primary (foldl sync_add s coord) = primary s ∧
  (∀ kid, kid ∉ Kid <$> coord → keys (foldl sync_add s coord) !! kid = keys s !! kid) ∧
  ∀ e, e ∈ coord → keys (foldl sync_add s coord) !! Kid e = Some (default (secret e) (keys s !! Kid e)).
Proof.
  clear Hp Hprim. revert s Hnd Hgood. induction coord as [|e l IH]; intros s Hnd' Hg; [split_and!; [done..|set_solver]|].
  cbn [foldl]. rewrite fmap_cons, NoDup_cons in Hnd'. destruct Hnd' as [Hn Hnd'].
  destruct (Hg e ltac:(by left)) as (Hk & Hd & Hs).
  destruct (IH (sync_add s e) Hnd' ltac:(by intros e' ?; apply Hg; right)) as (H1 & H2 & H3).
  assert (primary (sync_add s e) = primary s ∧ keys (sync_add s e) = <[Kid e := default (secret e) (keys s !! Kid e)]> (keys s)) as [P1 P2].
  { unfold sync_add, Add. rewrite Hd. rewrite bool_decide_eq_false_2 by done. destruct (secret e) as [|b0 bs] eqn:Hse; [done|]. cbn [length Nat.eqb].
    destruct (keys s !! Kid e) as [old|] eqn:Ho; cbn [default from_option id]; [by rewrite insert_id|done]. }
  split_and!.
  - congruence.
  - intros kid [Hne Hnl]%not_elem_of_cons. by rewrite H2, P2, lookup_insert_ne.
  - intros e' [->|He']%elem_of_cons; [by rewrite H2, P2, lookup_insert_eq|]. rewrite (H3 e' He'), P2, lookup_insert_ne; [done|].
    intros E. apply Hn. rewrite E. by apply list_elem_of_fmap_2.
Qed.
Lemma sync_remove_all want s l : primary s ∈ want → is_Some (keys s !! primary s) →
  primary (foldl (sync_remove want) s l) = primary s ∧
  ∀ kid, keys (foldl (sync_remove want) s l) !! kid = if decide (kid ∈ l ∧ kid ∉ want) then None else keys s !! kid.
Proof.
  revert s. induction l as [|k l IH]; intros s Hw Hk; cbn [foldl]; [split; [done|]; intros kid; by rewrite decide_False by set_solver|].
  assert (primary (sync_remove want s k) = primary s ∧
    ∀ kid, keys (sync_remove want s k) !! kid = if decide (kid = k ∧ k ∉ want) then None else keys s !! kid) as [P1 P2].
  { unfold sync_remove. case_bool_decide as Hin; [split; [done|]; intros kid; by rewrite decide_False by tauto|].
    unfold Remove. destruct (keys s !! k) as [b|] eqn:Hb.
    2:{ split; [done|]. intros kid. case_decide as H; [by destruct H as [-> _]|done]. }
    assert (k ≠ primary s) as Hne by (by intros ->). rewrite bool_decide_eq_false_2 by done.
    destruct (Nat.eqb_spec (size (keys s)) 1) as [Hsz|_].
    - exfalso. destruct Hk as [b' Hb'].
      assert (size (delete k (keys s)) = 0) as Hd by (rewrite map_size_delete_Some by done; lia). apply map_size_empty_inv in Hd.
      apply (f_equal (lookup (primary s))) in Hd. by rewrite lookup_delete_ne, Hb' in Hd by done.
    - split; [done|]. intros kid. cbn [keys]. rewrite lookup_delete. repeat case_decide; naive_solver. }
  assert (primary (sync_remove want s k) ∈ want) as W1 by (by rewrite P1).
  assert (is_Some (keys (sync_remove want s k) !! primary (sync_remove want s k))) as W2.
  { rewrite P1, P2, decide_False; [done|]. by intros [<- ?]. }
  destruct (IH _ W1 W2) as [Q1 Q2]. split; [congruence|]. intros kid. rewrite Q2, P2. repeat case_decide; set_solver.
Qed.

Lemma sync_spec s :
  primary (SyncURLKeys s coord) = Kid p ∧
  (∀ e, e ∈ coord → keys (SyncURLKeys s coord) !! Kid e = Some (default (secret e) (keys s !! Kid e))) ∧
  ∀ kid, kid ∉ Kid <$> coord → keys (SyncURLKeys s coord) !! kid = None.
Proof.
  unfold SyncURLKeys. cbv zeta. rewrite newPrimary_is. destruct (sync_add_all s) as (H1 & H2 & H3). set (s1 := foldl sync_add s coord) in *.
  destruct (Hgood p Hp) as (Hkp & _).
  assert (∃ s2, (if negb (bool_decide (Kid p = "")) && negb (bool_decide (Kid p = Primary s1))
     then match SetPrimary s1 (Kid p) with Ok s' => s' | Err _ => s1 end else s1) = s2 ∧ keys s2 = keys s1 ∧ primary s2 = Kid p)%string
    as (s2 & -> & Hk2 & Hp2).
  { rewrite bool_decide_eq_false_2 by done. cbn [negb andb]. unfold Primary, SetPrimary. case_bool_decide as E; cbn [negb]; [by exists s1|].
    rewrite (H3 p Hp). by eexists. }
  set (want := list_to_set (Kid <$> coord) : gset string).
  assert (∀ kid, kid ∈ want ↔ kid ∈ Kid <$> coord) as Hwant by (intros kid; unfold want; set_solver).
  destruct (sync_remove_all want s2 (Kids s2)) as [Q1 Q2].
  - rewrite Hp2, Hwant. by apply list_elem_of_fmap_2.
  - rewrite Hp2, Hk2, (H3 p Hp). by eexists.
  - split_and!; [by rewrite Q1| |].
    + intros e He. rewrite Q2, Hk2, decide_False; [by apply H3|]. rewrite Hwant. intros [_ Hn]. by apply Hn, list_elem_of_fmap_2.
    + intros kid Hk. rewrite Q2. case_decide as Hd; [done|]. rewrite Hk2. destruct (keys s1 !! kid) as [b|] eqn:Hb; [|done].
      destruct Hd. rewrite Hwant. split; [|done]. unfold Kids. apply elem_of_sort_strings, list_elem_of_fmap. exists (kid, b).
      split; [done|]. apply elem_of_map_to_list. by rewrite Hk2.
Qed.
End sync.

(** One poll brings the signer to the coord daemon's list: whatever it knew before, it
    then signs with the list's primary and accepts exactly the listed kids; if no listed kid
    had another secret before, it is the list's key set. *)
Theorem sync_converges coord p secret s :
  NoDup (Kid <$> coord) → p ∈ coord → (∀ e, e ∈ coord → IsPrimary e = true ↔ e = p) →
  (∀ e, e ∈ coord → Kid e ≠ ""%string ∧ hex_decode (SecretHex e) = Some (secret e) ∧ secret e ≠ []) →
  let s' := SyncURLKeys s coord in
  primary s' = Kid p ∧ (∀ kid, is_Some (keys s' !! kid) ↔ kid ∈ Kid <$> coord) ∧
  ((∀ e old, e ∈ coord → keys s !! Kid e = Some old → old = secret e) →
   keys s' = list_to_map ((λ e, (Kid e, secret e)) <$> coord)).
Proof.
  intros Hnd Hp Hprim Hgood s'. destruct (sync_spec coord p secret Hnd Hp Hprim Hgood s) as (H1 & H2 & H3). fold s' in H1, H2, H3.
  split_and!; [done| |].
  - intros kid. destruct (decide (kid ∈ Kid <$> coord)) as [Hin|Hin]; [|by rewrite H3; [split; [by intros []|done]|]].
    split; [done|intros _]. apply list_elem_of_fmap in Hin as (e & -> & He). rewrite (H2 e He). by eexists.
  - intros Hsame. apply map_eq. intros kid. destruct (decide (kid ∈ Kid <$> coord)) as [Hin|Hin].
    + apply list_elem_of_fmap in Hin as (e & -> & He). rewrite (H2 e He). symmetry. apply elem_of_list_to_map.
      * by rewrite <- list_fmap_compose.
      * apply list_elem_of_fmap. exists e. split; [|done]. destruct (keys s !! Kid e) as [old|] eqn:Ho; [|done].
        cbn. by rewrite (Hsame e old He Ho).
    + rewrite H3 by done. symmetry. apply not_elem_of_list_to_map. by rewrite <- list_fmap_compose.
Qed.
(** A kid the signer knows keeps its secret when the list's changes: URLs the coord daemon's
    other edges sign under it are refused. *)
Lemma poll_keeps_old_secret :
  keys (SyncURLKeys (MkSigner {["v1" := [x01]]} "v1") [MkURLKeyEntry "v1" "02" true 0])%string !! "v1"%string = Some [x01].
Proof. reflexivity. Qed.

(** ** Restarts *)
Section restart.
Context {M : Type → Type} {KVM : KV M} {HKV : KVLaws M}.
Context (secret_of : string → list byte).

Inductive key_request : Type := Rotate (now : Z) (body : option (string * string)) | RemoveKid (kid : string).
Definition key_step (st : KeyAdmin (M := M)) (r : key_request) : KeyAdmin :=
  match r with Rotate now body => (handleRotateURLKey now body st).2 | RemoveKid kid => (handleRemoveURLKey kid st).2 end.
(** Every kid is only ever given one secret. *)
Definition one_secret (r : key_request) : Prop :=
  match r with
  | Rotate _ (Some (kid, hex)) => ∀ b, hex_decode hex = Some b → b = secret_of kid
  | _ => True
  end.

Definition entry_of (s : Signer) (kid : string) (raw : stored URLKeyEntry) (b : list byte) : Prop :=
  ∃ e, raw = Enc e ∧ Kid e = kid ∧ hex_decode (SecretHex e) = Some b ∧ b = secret_of kid ∧ b ≠ [] ∧
    (IsPrimary e = true ↔ kid = primary s).
(** The registry and the signer say the same. *)
Definition in_step (st : KeyAdmin (M := M)) : Prop :=
  ∃ s, ka_Signer st = Some s ∧ is_Some (keys s !! primary s) ∧ primary s ≠ ""%string ∧
    ∀ kid, option_Forall2 (entry_of s kid) (kv_get (urlkeys (ka_Store st)) kid) (keys s !! kid).

Lemma hex_decode_nonempty h b : hex_decode h = Some b → h ≠ ""%string → b ≠ [].
Proof. destruct h as [|c [|d h]]; cbn; [done|done|]. intros H _ ->. by repeat case_match. Qed.

Lemma rotate_in_step now body st : in_step st → one_secret (Rotate now body) → in_step (key_step st (Rotate now body)).
Proof.
  intros (s & Hs & Hp & Hpne & Hk) Hone. assert (in_step st) as Hst by (by exists s). cbn [key_step]. unfold handleRotateURLKey. rewrite Hs.
  destruct body as [[kid hex]|]; [|done]. destruct (_ || _) eqn:Hne; [done|]. apply orb_false_iff in Hne as [Hkid Hhex]. rewrite bool_decide_eq_false in Hkid, Hhex.
  destruct (hex_decode hex) as [b|] eqn:Hdec; [|done]. pose proof (Hone b Hdec) as Hb. pose proof (hex_decode_nonempty _ _ Hdec Hhex) as Hbne.
  unfold PutURLKey. rewrite !bool_decide_eq_false_2 by done. cbn [orb]. unfold Update.
  destruct (rbind (clear_primary_loop _ _) _) as [[[] db]|er] eqn:Hput; cbn [snd].
  2:{ exists s. cbn [ka_Signer ka_Store]. split_and!; try done. }
  apply rbind_ok in Hput as (m1 & Hclear & (m2 & Hm2 & [= <-])%rbind_ok). apply put_ok in Hm2.
  assert (∀ s', primary s' = kid → (∀ k, keys s' !! k = if decide (k = kid) then Some b else keys s !! k) →
    in_step (MkKeyAdmin (Some s') (set_urlkeys (ka_Store st) m2))) as Hdone.
  { intros s' Hp' Hk'. exists s'. split_and!; [done|rewrite Hp', Hk', decide_True; [by eexists|done]|by rewrite Hp'|].
    intros k. cbn [ka_Store set_urlkeys urlkeys]. rewrite (get_put _ _ _ _ _ Hm2), Hk'. destruct (decide (kid = k)) as [<-|Hne].
    - rewrite decide_True by done. constructor. eexists. split; [reflexivity|]. cbn [Kid SecretHex IsPrimary]. by rewrite Hp'.
    - rewrite decide_False by done. rewrite (clear_primary_get _ _ _ Hclear). specialize (Hk k).
      inversion Hk as [raw b' He E1 E2|E1 E2]; [|constructor]. destruct He as (e & -> & H1 & H2 & H3 & H4 & H5). constructor.
      exists (set_primary e false). split_and!; [done..|]. cbn [set_primary IsPrimary]. rewrite Hp'. split; [done|]. intros ->. done. }
  unfold Add. rewrite bool_decide_eq_false_2 by done. destruct (length b =? 0) eqn:Hlen; [apply Nat.eqb_eq in Hlen; by destruct b|].
  destruct (keys s !! kid) as [old|] eqn:Hold; unfold SetPrimary; cbn [keys].
  - rewrite Hold. cbn [snd]. apply Hdone; [done|]. cbn [keys]. intros k. case_decide as E; [|done]. subst k. rewrite Hold.
    specialize (Hk kid). rewrite Hold in Hk. inversion Hk as [raw b' He E1 E2|]. subst. destruct He as (e & _ & _ & _ & -> & _). done.
  - rewrite lookup_insert_eq. cbn [snd]. apply Hdone; [done|]. cbn [keys]. intros k. rewrite lookup_insert. repeat case_decide; congruence.
Qed.
Lemma remove_in_step kid st : in_step st → in_step (key_step st (RemoveKid kid)).
Proof.
  intros (s & Hs & Hp & Hpne & Hk). assert (in_step st) as Hst by (by exists s). cbn [key_step]. unfold handleRemoveURLKey. rewrite Hs.
  case_bool_decide; [done|]. unfold Remove. destruct (keys s !! kid) as [b|] eqn:Hb; [|done]. case_bool_decide as Hnp; [done|].
  destruct (_ =? 1); [done|]. pose proof (Hk kid) as He. rewrite Hb in He. inversion He as [raw b' Hen E1 E2|]. subst.
  destruct Hen as (e & -> & H1 & H2 & H3 & H4 & H5). unfold DeleteURLKey, Update, get_decoded. rewrite <- E1. cbn [decode rbind].
  destruct (IsPrimary e) eqn:Hpe; [by destruct Hnp; apply H5|]. cbn [snd]. exists (MkSigner (delete kid (keys s)) (primary s)).
  cbn [ka_Signer ka_Store keys primary set_urlkeys urlkeys]. split_and!; [done|by rewrite lookup_delete_ne|done|].
  intros k. rewrite get_delete, lookup_delete. destruct (decide (kid = k)); [constructor|]. specialize (Hk k).
  inversion Hk as [raw b' He' E3 E4|]; constructor. exact He'.
Qed.

Lemma decode_all_total {A} (l : list (string * stored A)) : (∀ kv, kv ∈ l → ∃ a, kv.2 = Enc a) → ∃ r, decode_all l = Ok r.
Proof.
  induction l as [|[k v] l IH]; intros Hl; [by eexists|]. destruct (Hl (k, v) ltac:(by left)) as [a E]. cbn in E. subst v.
  destruct IH as [r Hr]; [by intros kv ?; apply Hl; right|]. cbn. rewrite Hr. by eexists.
Qed.
Lemma listed_keys_in_step s (db : @DB M) : in_step (MkKeyAdmin (Some s) db) →
  ∃ l, ListURLKeys db = Ok l ∧ NoDup (Kid <$> l) ∧
    ∀ e, e ∈ l ↔ kv_get (urlkeys db) (Kid e) = Some (Enc e).
Proof.
  intros (s0 & [= <-] & _ & _ & Hk). cbn [ka_Store] in Hk.
  assert (∀ k v, (k, v) ∈ kv_list (urlkeys db) → ∃ e, v = Enc e ∧ Kid e = k) as Hall.
  { intros k v Hkv%elem_list. specialize (Hk k). rewrite Hkv in Hk. inversion Hk as [raw b He E1 E2|]. destruct He as (e & -> & H & _). by exists e. }
  destruct (decode_all_total (kv_list (urlkeys db))) as [r Hr].
  { intros [k v] Hkv. destruct (Hall k v Hkv) as (e & -> & _). by exists e. }
  assert (Kid <$> r = (kv_list (urlkeys db)).*1) as Hkids.
  { pose proof (decode_all_fmap _ _ Hr) as Hf. clear Hr. induction Hf as [|[k v] e kvs es Hv _ IH]; [done|]. rewrite !fmap_cons.
    cbn in Hv. subst v. destruct (Hall k (Enc e) ltac:(by left)) as (e' & [= <-] & <-). f_equal. apply IH. intros k' v' ?. apply Hall. by right. }
  exists (merge_sort kid_le r). unfold ListURLKeys. rewrite Hr. split; [done|]. split.
  - rewrite (merge_sort_Permutation kid_le), Hkids. apply list_NoDup.
  - intros e. rewrite (merge_sort_Permutation kid_le), <- elem_list. apply decode_all_fmap in Hr. split.
    + intros (i & Hi)%list_elem_of_lookup. destruct (Forall2_lookup_r _ _ _ _ _ Hr Hi) as ([k v] & Hkv & Hv). cbn in Hv. subst v.
      apply list_elem_of_lookup_2 in Hkv. destruct (Hall _ _ Hkv) as (e' & [= <-] & <-). exact Hkv.
    + intros (i & Hi)%list_elem_of_lookup. destruct (Forall2_lookup_l _ _ _ _ _ Hr Hi) as (e' & He' & [= <-]). by eapply list_elem_of_lookup_2.
Qed.
Lemma kid_inj (l : list URLKeyEntry) e e' : NoDup (Kid <$> l) → e ∈ l → e' ∈ l → Kid e = Kid e' → e = e'.
Proof.
  intros Hnd (i & Hi)%list_elem_of_lookup (j & Hj)%list_elem_of_lookup E. assert (i = j) as ->; [|congruence].
  eapply NoDup_lookup; [exact Hnd|by rewrite list_lookup_fmap, Hi|by rewrite list_lookup_fmap, Hj, E].
Qed.
Lemma boot_keys_spec l ks prim : (∀ e, e ∈ l → hex_decode (SecretHex e) = Some (secret_of (Kid e))) →
  ∃ ks', boot_keys l ks prim = Some (ks', foldl (λ p e, if IsPrimary e then Kid e else p) prim l) ∧
    ∀ kid, ks' !! kid = if decide (kid ∈ Kid <$> l) then Some (secret_of kid) else ks !! kid.
Proof.
  revert ks prim. induction l as [|e l IH]; intros ks prim Hl; cbn [boot_keys]; [exists ks; split; [done|]; intros kid; by rewrite decide_False by apply not_elem_of_nil|].
  rewrite (Hl e) by (by left). destruct (IH (<[Kid e := secret_of (Kid e)]> ks) (if IsPrimary e then Kid e else prim)) as (ks' & Hb & Hks); [by intros e' ?; apply Hl; right|].
  exists ks'. split; [exact Hb|]. intros kid. rewrite Hks, fmap_cons. destruct (decide (kid ∈ Kid <$> l)) as [Hin|Hin].
  - by rewrite decide_True by (by right).
  - destruct (decide (kid = Kid e)) as [->|Hne].
    + by rewrite lookup_insert_eq, decide_True by (by left).
    + rewrite lookup_insert_ne by done. rewrite decide_False; [done|]. by intros [?|?]%elem_of_cons.
Qed.
(** Building the signer again gives the signer. *)
Lemma boot_entries_signer s db l : in_step (MkKeyAdmin (Some s) db) → ListURLKeys db = Ok l →
  l ≠ [] ∧ boot_keys l ∅ ""%string = Some (keys s, primary s) ∧ NewMultiSigner (keys s) (primary s) = Ok s.
Proof.
  intros Hin Hl. destruct (listed_keys_in_step s db Hin) as (l' & Hl' & Hnd & Hel). assert (l' = l) as -> by congruence.
  destruct Hin as (s0 & [= <-] & [b Hp] & Hpne & Hk). cbn [ka_Store] in Hk.
  assert (∀ kid b', keys s !! kid = Some b' → ∃ e, e ∈ l ∧ Kid e = kid ∧ hex_decode (SecretHex e) = Some b' ∧ b' = secret_of kid ∧ b' ≠ [] ∧
    (IsPrimary e = true ↔ kid = primary s)) as Hkeys.
  { intros kid b' Hb. specialize (Hk kid). rewrite Hb in Hk. inversion Hk as [raw b0 He E1 E2|]. subst. destruct He as (e & -> & H1 & H2).
    exists e. split; [|done]. apply Hel. by rewrite H1. }
  assert (∀ e, e ∈ l → keys s !! Kid e = Some (secret_of (Kid e)) ∧ hex_decode (SecretHex e) = Some (secret_of (Kid e)) ∧ (IsPrimary e = true ↔ Kid e = primary s)) as Hents.
  { intros e He%Hel. specialize (Hk (Kid e)). rewrite He in Hk. inversion Hk as [raw b0 Hen E1 E2|]. destruct Hen as (e' & [= <-] & _ & H2 & H3 & _ & H5). subst b0. done. }
  destruct (Hkeys _ _ Hp) as (ep & Hep & Hkp & _ & _ & _ & Hpp). split; [by intros ->; apply elem_of_nil in Hep|].
  destruct (boot_keys_spec l ∅ ""%string) as (ks' & Hb & Hks); [by intros e He; apply Hents|]. split.
  - rewrite Hb. f_equal. f_equal.
    + apply map_eq. intros kid. rewrite Hks, lookup_empty. case_decide as Hin.
      * apply list_elem_of_fmap in Hin as (e & -> & He). by destruct (Hents e He) as [-> _].
      * destruct (keys s !! kid) as [b'|] eqn:Hb'; [|done]. destruct (Hkeys _ _ Hb') as (e & He & <- & _). destruct Hin. by apply list_elem_of_fmap_2.
    + change (newPrimary l = primary s). rewrite (newPrimary_is l ep Hep); [done|]. intros e He. destruct (Hents e He) as (_ & _ & ->). split; [|intros ->; done].
      intros Hke. rewrite <- Hkp in Hke. by apply (kid_inj l).
  - unfold NewMultiSigner. rewrite Hp. destruct (Nat.eqb_spec (size (keys s)) 0) as [Hz|_].
    { apply map_size_empty_inv in Hz. by rewrite Hz in Hp. }
    destruct (existsb _ _) eqn:Hex; [|by destruct s]. apply existsb_exists in Hex as ([kid b'] & Hkb & Hlen%Nat.eqb_eq).
    rewrite <- list_elem_of_In in Hkb. apply elem_of_map_to_list in Hkb. destruct (Hkeys _ _ Hkb) as (_ & _ & _ & _ & _ & Hne & _). cbn in Hlen. by destruct b'.
Qed.

(** From a registry in step with a signer, the start of the daemon builds that signer. *)
Lemma boot_in_step s db secret now : in_step (MkKeyAdmin (Some s) db) →
  boot_signer secret ""%string now db = Some (MkKeyAdmin (Some s) db).
Proof.
  intros Hin. destruct (listed_keys_in_step s db Hin) as (l & Hl & _). destruct (boot_entries_signer s db l Hin Hl) as (Hne & Hb & Hs).
  destruct Hin as (s0 & [= <-] & _ & Hpne & _). unfold boot_signer, boot_entries. rewrite Hl. destruct l as [|e l]; [done|].
  rewrite Hb. cbn [mbind option_bind]. rewrite (bool_decide_eq_false_2 (primary s = ""%string)) by done. cbn [mbind option_bind]. by rewrite (bool_decide_eq_true_2 (""%string = "")%string eq_refl), Hs.
Qed.
(** The first start, on an empty registry. *)
Lemma first_boot_in_step secret now st0 : secret = secret_of DefaultKid →
  boot_signer secret ""%string now empty_db = Some st0 → in_step st0.
Proof.
  intros Hsec. assert (kv_list (kv_empty : M (stored URLKeyEntry)) = []) as Hnil.
  { destruct (kv_list _) as [|[k v] r] eqn:E; [done|]. assert ((k, v) ∈ kv_list (kv_empty : M (stored URLKeyEntry))) as Hkv%elem_list by (rewrite E; by left).
    by rewrite get_empty in Hkv. }
  unfold boot_signer at 1, boot_entries, ListURLKeys at 1. cbn [urlkeys empty_db]. rewrite Hnil. cbn [decode_all rbind].
  change (merge_sort kid_le []) with ([] : list URLKeyEntry). cbv iota.
  unfold PutURLKey, Update. cbn [urlkeys empty_db]. rewrite Hnil. cbn [clear_primary_loop rbind]. rewrite get_empty.
  destruct (_ || _) eqn:Hne; [done|]. apply orb_false_iff in Hne as [_ Hhex%bool_decide_eq_false].
  assert (secret ≠ []) as Hsne by (by intros ->).
  destruct (put _ _ _) as [m|er] eqn:Hput; [|done]. apply put_ok in Hput. cbn [rbind].
  assert (in_step (MkKeyAdmin (Some (MkSigner {[DefaultKid := secret]} DefaultKid)) (set_urlkeys empty_db m))) as Hin.
  { eexists. split; [reflexivity|]. cbn [keys primary]. split_and!; [by rewrite lookup_singleton_eq|done|]. intros kid.
    cbn [ka_Store set_urlkeys urlkeys]. rewrite (get_put _ _ _ _ _ Hput). destruct (decide (DefaultKid = kid)) as [<-|Hk].
    - rewrite lookup_singleton_eq. constructor. eexists. split; [reflexivity|]. cbn [Kid SecretHex IsPrimary]. by rewrite hex_decode_encode.
    - rewrite lookup_singleton_ne, get_empty by done. constructor. }
  destruct (listed_keys_in_step _ _ Hin) as (l & Hl & _). destruct (boot_entries_signer _ _ l Hin Hl) as (Hlne & Hb & Hs).
  rewrite Hl, Hb. cbn [mbind option_bind keys primary] in *. rewrite (bool_decide_eq_false_2 (DefaultKid = ""%string)) by done. cbn [mbind option_bind].
  rewrite bool_decide_eq_true_2, Hs by done. intros [= <-]. exact Hin.
Qed.
End restart.

(** An edge that started on an empty registry and served any rotations and removals of
    keys, each kid only ever with one secret, finds its signer again after a restart: the
    start of the daemon rebuilds the same keys and primary from the registry, whatever the
    environment's secret is then, and writes nothing. *)
Theorem keys_survive_restart {M : Type → Type} {KVM : KV M} {HKV : KVLaws M} secret_of secret secret' now now' (st0 : KeyAdmin (M := M)) rs :
  boot_signer secret ""%string now empty_db = Some st0 → secret = secret_of DefaultKid → Forall (one_secret secret_of) rs →
  let st := foldl key_step st0 rs in
  boot_signer secret' ""%string now' (ka_Store st) = Some st.
Proof.
  intros Hboot Hsec Hrs. pose proof (first_boot_in_step _ _ _ _ Hsec Hboot) as Hin. clear Hboot.
  cbv zeta. revert st0 Hin. induction Hrs as [|r rs Hr _ IH]; intros st Hin; cbn [foldl].
  - destruct st as [s db]. pose proof Hin as (s0 & E & _). cbn in E. subst s. by apply (boot_in_step secret_of).
  - apply IH. destruct r; [by apply rotate_in_step|by apply remove_in_step].
Qed.

(** ** Concrete inputs *)
Local Open Scope string_scope.
Definition w_coord_keys : list URLKeyEntry :=
  [MkURLKeyEntry "v1" "01" false 0; MkURLKeyEntry "v2" "0203" true 5].
Definition w_coord_secret (e : URLKeyEntry) : list byte := if bool_decide (Kid e = "v1") then [x01] else [x02; x03].
Lemma sync_converges_witness :
  keys (SyncURLKeys (MkSigner {["v0" := [x09]; "v1" := [x01]]} "v0") w_coord_keys) = {["v1" := [x01]; "v2" := [x02; x03]]} ∧
  primary (SyncURLKeys (MkSigner {["v0" := [x09]; "v1" := [x01]]} "v0") w_coord_keys) = "v2".
Proof.
  destruct (sync_converges w_coord_keys (MkURLKeyEntry "v2" "0203" true 5) w_coord_secret (MkSigner {["v0" := [x09]; "v1" := [x01]]} "v0"))
    as (H1 & _ & H3).
  - unfold w_coord_keys. cbn. rewrite !NoDup_cons. split_and!; [set_solver|set_solver|apply NoDup_nil_2].
  - by right; left.
  - intros e [->|[->|[]%elem_of_nil]%elem_of_cons]%elem_of_cons; cbn; split; congruence.
  - intros e [->|[->|[]%elem_of_nil]%elem_of_cons]%elem_of_cons; cbn; done.
  - split; [|exact H1]. apply H3. intros e old [->|[->|[]%elem_of_nil]%elem_of_cons]%elem_of_cons; by intros [= <-].
Defined.

Definition w_key_requests : list key_request :=
  [Rotate 3 (Some ("v2", "0203")); RemoveKid "v1"; Rotate 4 None; RemoveKid "v2"].
Definition w_secret_of (kid : string) : list byte := if bool_decide (kid = "v1") then [x01] else [x02; x03].
Definition w_first_boot : KeyAdmin (M := gmap string) :=
  MkKeyAdmin (Some (MkSigner {["v1" := [x01]]} "v1")) (set_urlkeys empty_db {["v1" := Enc (MkURLKeyEntry "v1" "01" true 1)]}).
Lemma keys_survive_restart_witness : let st := foldl key_step w_first_boot w_key_requests in
  boot_signer [x09] "" 8 (ka_Store st) = Some st ∧ ka_Signer st = Some (MkSigner {["v2" := [x02; x03]]} "v2").
Proof.
  split; [|vm_compute; reflexivity]. apply (keys_survive_restart w_secret_of [x01] [x09] 1 8 w_first_boot); [vm_compute; reflexivity..|].
  repeat constructor. intros b. vm_compute. congruence.
Defined.

(** A rotation to a registered kid stores the new secret while the signer keeps the old one
    ([ErrDuplicateKid] is ignored): the edge goes on signing with the old secret until it is
    restarted, and refuses the URLs it signed before from then on. *)
Lemma rotating_a_known_kid :
  let '(status, st) := handleRotateURLKey 3 (Some ("v1", "ff")) w_first_boot in
  (status, ka_Signer st, ka_Signer <$> boot_signer [x01] "" 8 (ka_Store st)) =
  (200%Z, ka_Signer w_first_boot, Some (Some (MkSigner {["v1" := [xff]]} "v1"))).
Proof. vm_compute. reflexivity. Qed.
(** The override of the environment moves the signer's primary, not the registry's: a removal
    of the registry's primary is then answered 500 with the kid gone from the signer only. *)
Lemma override_splits_removal :
  let st := (handleRotateURLKey 3 (Some ("v2", "0203")) w_first_boot).2 in
  (λ st1, let '(status, st2) := handleRemoveURLKey "v2" st1 in
    (status, Kids <$> ka_Signer st2, Kid <$> (kv_get (urlkeys (ka_Store st2)) "v2" ≫= decode)))
    <$> boot_signer [x01] "v1" 8 (ka_Store st) = Some (500%Z, Some ["v1"], Some "v2").
Proof. vm_compute. reflexivity. Qed.
