(* ===== verification/EdgeJobs.v ===== *)
(** * Maintenance on an edge: apply handlers and the auto-trigger of internal/edge/edge.go

    An edge that keeps its own store drives its data nodes through any chunk service
    (Transport.v).  A run holds the mutex of its kind from planning to its last call; it is one
    step here.  [order] is the order in which the workers of a run finish, [clock] and [now]
    the times GC reads.  Deadlines of a run only make calls fail, which the service may do. *)
From S2P Require Import Prelude GF GoLib Kv Meta Store DataNode Transport Coord.
From S2P Require Gc Rebalance Repair.

(** ** Query parameters *)
(** [int] is 64 bits; the product of a duration wraps. *)
Definition second : Z := 1000000000.
Definition intQuery (q : url_values) (name : string) (def : Z) : Z :=
  let v := q_get q name in
  if bool_decide (v = ""%string) then def
  else match parse_int v with Some n => if (0 <? n)%Z then n else def | None => def end.
Definition parseMinAge (q : url_values) : Z :=
  let v := q_get q "min_age_seconds" in
  if bool_decide (v = ""%string) then Gc.DefaultMinAge
  else match parse_int v with
       | Some n => if (0 <=? n)%Z then i64 (n * second) else Gc.DefaultMinAge
       | None => Gc.DefaultMinAge
       end.

(** ** Configuration of the auto-trigger *)
Record AutoConfig : Type := MkAutoConfig
  { Enabled : bool; RebalanceInterval : Z; GCInterval : Z; GCMinAge : Z; Concurrency : Z }.
Definition positive_or (z def : Z) : Z := if (z <=? 0)%Z then def else z.
(** The intervals, minimum age and concurrency of the loops that [StartAuto] starts. *)
Definition StartAuto (cfg : AutoConfig) : option (Z * Z * Z * Z) :=
  if Enabled cfg
  then Some (positive_or (RebalanceInterval cfg) (300 * second), positive_or (GCInterval cfg) (900 * second),
             positive_or (GCMinAge cfg) Gc.DefaultMinAge, positive_or (Concurrency cfg) 4)
  else None.

Inductive AutoJob : Type := JobRebalance | JobGC.
Definition autoRunHistory : nat := 32.

Section jobs.
Context {E W : Type} {HC : ChunkService E W} {M : Type → Type} {KVM : KV M}.

(** ** Outcomes *)
Record repairOutcome : Type := MkRepairOutcome
  { ro_Scanned : nat; ro_RepairsPlanned : nat; ro_Unrepairable : nat; ro_Stripes : nat; ro_Repaired : nat;
    ro_Failed : nat; ro_BytesWritten : Z; ro_Errors : list (Repair.repair_error (E := E)) }.
Record rebalanceOutcome : Type := MkRebalanceOutcome
  { bo_Scanned : nat; bo_PlanSize : nat; bo_Migrated : nat; bo_Failed : nat; bo_BytesCopied : Z;
    bo_Errors : list (Rebalance.migrate_error (E := E)) }.
Record gcOutcome : Type := MkGcOutcome
  { go_Scanned : nat; go_ClaimedKeys : nat; go_PlanSize : nat; go_MinAgeSec : Z; go_Deleted : nat; go_Failed : nat;
    go_BytesFreed : Z; go_Errors : list (string * string * E) }.

(** What [AutoRun] records: the outcome of a cycle or why it could not be planned. *)
Inductive run_result : Type :=
  | RebalanceRan (o : rebalanceOutcome) | GCRan (o : gcOutcome)
  | RebalanceFailed (e : store_error) | GCFailed (e : Gc.gc_error (E := E)).
Record AutoRun : Type := MkAutoRun { Job : AutoJob; StartedAt : Z; DurationMS : Z; ar_PlanSize : nat; ar_Result : run_result }.

Record JobServer : Type := MkJobServer
  { js_Nodes : W; js_Store : @DB M; AutoCfg : AutoConfig; autoRuns : list AutoRun;
    autoLastCheckRebalance : Z; autoLastCheckGC : Z }.
Definition set_world (s : JobServer) (w : W) (db : @DB M) : JobServer :=
  MkJobServer w db (AutoCfg s) (autoRuns s) (autoLastCheckRebalance s) (autoLastCheckGC s).

(** ** The three runs *)
Definition executeRepair (order : list Repair.StripeRepair → list Repair.StripeRepair) (s : JobServer)
    : result store_error repairOutcome * JobServer :=
  match Repair.ComputePlan (ListObjects (js_Store s)) (js_Nodes s) with
  | Err e => (Err e, s)
  | Ok plan =>
      let planned := length (Repair.Repairs plan) in
      let unrepairable := length (Repair.Unrepairable plan) in
      if planned =? 0 then (Ok (MkRepairOutcome (Repair.Scanned plan) 0 unrepairable 0 0 0 0 []), s)
      else
        let '(st, (w, db)) := Repair.Run order plan (js_Nodes s, js_Store s) in
        (Ok (MkRepairOutcome (Repair.Scanned plan) planned unrepairable (Repair.rp_Stripes st) (Repair.Repaired st)
               (Repair.rp_Failed st) (Repair.BytesWritten st) (Repair.rp_Errors st)), set_world s w db)
  end.
Definition executeRebalance (order : list Rebalance.Migration → list Rebalance.Migration) (s : JobServer)
    : result store_error rebalanceOutcome * JobServer :=
  match Rebalance.ComputePlan (classes (js_Store s)) (ListObjects (js_Store s)) (js_Nodes s) with
  | Err e => (Err e, s)
  | Ok plan =>
      let size := length (Rebalance.Migrations plan) in
      if size =? 0 then (Ok (MkRebalanceOutcome (Rebalance.Scanned plan) 0 0 0 0 []), s)
      else
        let '(st, (w, db)) := Rebalance.Run order plan (js_Nodes s, js_Store s) in
        (Ok (MkRebalanceOutcome (Rebalance.Scanned plan) size (Rebalance.Migrated st) (Rebalance.Failed st)
               (Rebalance.BytesCopied st) (Rebalance.Errors st)), set_world s w db)
  end.
(** What [gc.ComputePlan] lists. *)
Definition listed_objects (s : JobServer) : option (list ObjectMeta) :=
  match ListObjects (js_Store s) with Ok objs => Some objs | Err _ => None end.
(** [int(minAge.Seconds())]; for the whole seconds of a query it is exact. *)
Definition age_seconds (minAge : Z) : Z := Z.quot minAge second.
Definition executeGC (minAge now : Z) (clock : string → string → Z) (order : list Gc.Sweep → list Gc.Sweep) (s : JobServer)
    : result (Gc.gc_error (E := E)) gcOutcome * JobServer :=
  match Gc.ComputePlan clock (listed_objects s) minAge now (js_Nodes s) with
  | (Err e, w) => (Err e, set_world s w (js_Store s))
  | (Ok plan, w) =>
      let size := length (Gc.Sweeps plan) in
      if size =? 0
      then (Ok (MkGcOutcome (Gc.Scanned plan) (Gc.ClaimedKeys plan) 0 (age_seconds minAge) 0 0 0 []), set_world s w (js_Store s))
      else
        let '(st, w) := Gc.Run order plan w in
        (Ok (MkGcOutcome (Gc.Scanned plan) (Gc.ClaimedKeys plan) size (age_seconds minAge) (Gc.Deleted st) (Gc.Failed st)
               (Gc.BytesFreed st) (Gc.Errors st)), set_world s w (js_Store s))
  end.

(** ** The handlers: 200 with the outcome and the concurrency, or 500 *)
Definition applied {X A} (concurrency : Z) (r : result X A * JobServer) : option (A * Z) * JobServer :=
  match r with (Ok a, s) => (Some (a, concurrency), s) | (Err _, s) => (None, s) end.
Definition handleRepairApply (q : url_values) order (s : JobServer) : option (repairOutcome * Z) * JobServer :=
  applied (intQuery q "concurrency" 4) (executeRepair order s).
Definition handleRebalanceApply (q : url_values) order (s : JobServer) : option (rebalanceOutcome * Z) * JobServer :=
  applied (intQuery q "concurrency" 4) (executeRebalance order s).
Definition handleGCApply (q : url_values) now clock order (s : JobServer) : option (gcOutcome * Z) * JobServer :=
  applied (intQuery q "concurrency" 4) (executeGC (parseMinAge q) now clock order s).
Definition planned {X A} (r : result X A) : option A := match r with Ok a => Some a | Err _ => None end.
Definition handleRepairPlan (s : JobServer) : option Repair.Plan :=
  planned (Repair.ComputePlan (ListObjects (js_Store s)) (js_Nodes s)).
Definition handleRebalancePlan (s : JobServer) : option Rebalance.Plan :=
  planned (Rebalance.ComputePlan (classes (js_Store s)) (ListObjects (js_Store s)) (js_Nodes s)).
Definition handleGCPlan (q : url_values) now clock (s : JobServer) : option Gc.Plan * JobServer :=
  let '(r, w) := Gc.ComputePlan clock (listed_objects s) (parseMinAge q) now (js_Nodes s) in
  (planned r, set_world s w (js_Store s)).

(** ** The auto-trigger *)
Definition setLastCheckLocked (job : AutoJob) (t : Z) (s : JobServer) : JobServer :=
  match job with
  | JobRebalance => MkJobServer (js_Nodes s) (js_Store s) (AutoCfg s) (autoRuns s) t (autoLastCheckGC s)
  | JobGC => MkJobServer (js_Nodes s) (js_Store s) (AutoCfg s) (autoRuns s) (autoLastCheckRebalance s) t
  end.
Definition markCheck := setLastCheckLocked.
Definition recordAuto (job : AutoJob) (r : AutoRun) (s : JobServer) : JobServer :=
  let runs := autoRuns s ++ [r] in
  let runs := if autoRunHistory <? length runs then drop (length runs - autoRunHistory) runs else runs in
  setLastCheckLocked job (StartedAt r)
    (MkJobServer (js_Nodes s) (js_Store s) (AutoCfg s) runs (autoLastCheckRebalance s) (autoLastCheckGC s)).

(** [start] is when the cycle began, [dur] how many milliseconds it took. *)
Definition runAutoRebalance (start dur : Z) order (s : JobServer) : JobServer :=
  match executeRebalance order s with
  | (Err e, s) => recordAuto JobRebalance (MkAutoRun JobRebalance start dur 0 (RebalanceFailed e)) s
  | (Ok out, s) =>
      if bo_PlanSize out =? 0 then markCheck JobRebalance start s
      else recordAuto JobRebalance (MkAutoRun JobRebalance start dur (bo_PlanSize out) (RebalanceRan out)) s
  end.
Definition runAutoGC (minAge start dur now : Z) clock order (s : JobServer) : JobServer :=
  match executeGC minAge now clock order s with
  | (Err e, s) => recordAuto JobGC (MkAutoRun JobGC start dur 0 (GCFailed e)) s
  | (Ok out, s) =>
      if go_PlanSize out =? 0 then markCheck JobGC start s
      else recordAuto JobGC (MkAutoRun JobGC start dur (go_PlanSize out) (GCRan out)) s
  end.

Definition zeroOr (t d : Z) : Z := if IsZero t then 0%Z else (t + d)%Z.
(** The last checks, the next ones and the recorded runs. *)
Definition handleAutoStatus (s : JobServer) : (Z * Z) * (Z * Z) * list AutoRun :=
  ((autoLastCheckRebalance s, autoLastCheckGC s),
   (zeroOr (autoLastCheckRebalance s) (RebalanceInterval (AutoCfg s)), zeroOr (autoLastCheckGC s) (GCInterval (AutoCfg s))),
   autoRuns s).

(** ** Everything that starts a run: requests, and ticks of the loops of [StartAuto] *)
Inductive job_step : Type :=
  | RepairApply (q : url_values) (order : list Repair.StripeRepair → list Repair.StripeRepair)
  | RebalanceApply (q : url_values) (order : list Rebalance.Migration → list Rebalance.Migration)
  | GCApply (q : url_values) (now : Z) (clock : string → string → Z) (order : list Gc.Sweep → list Gc.Sweep)
  | GCPlan (q : url_values) (now : Z) (clock : string → string → Z)
  | AutoRebalance (start dur : Z) (order : list Rebalance.Migration → list Rebalance.Migration)
  | AutoGC (start dur now : Z) (clock : string → string → Z) (order : list Gc.Sweep → list Gc.Sweep).
Definition run_job (s : JobServer) (j : job_step) : JobServer :=
  match j with
  | RepairApply q order => (handleRepairApply q order s).2
  | RebalanceApply q order => (handleRebalanceApply q order s).2
  | GCApply q now clock order => (handleGCApply q now clock order s).2
  | GCPlan q now clock => (handleGCPlan q now clock s).2
  | AutoRebalance start dur order =>
      match StartAuto (AutoCfg s) with Some _ => runAutoRebalance start dur order s | None => s end
  | AutoGC start dur now clock order =>
      match StartAuto (AutoCfg s) with Some (_, _, minAge, _) => runAutoGC minAge start dur now clock order s | None => s end
  end.
End jobs.
