(* ===== verification/EdgeJobsTheorems.v ===== *)
(** * Maintenance on an edge: its contract (EdgeJobs.v) *)
From S2P Require Import Prelude GF GoLib Kv Meta Store StoreProps Replicas DataNode Transport Placement.
From S2P Require Import Coordinator Coord Jobs EdgeJobs.
From S2P Require Gc Rebalance Repair.

Section keeps.
Context {E W : Type} {HC : ChunkService E W} {HL : ChunkServiceLaws E W} {M : Type → Type} {KVM : KV M} {HKV : KVLaws M}.

(** ** The runs of an edge *)
Abbreviation server_kept db0 s := (kept db0 (js_Nodes s) (js_Store s)).
Lemma executeRebalance_kept db0 order s : (∀ l, order l ≡ₚ l) → server_kept db0 s → server_kept db0 (executeRebalance order s).2.
Proof.
  intros Hord Hk. unfold executeRebalance. destruct (ListObjects (js_Store s)) as [objs|er] eqn:Hl; [|done].
  destruct (Rebalance.ComputePlan _ _ _) as [plan|er] eqn:Hp; [|done]. destruct (_ =? 0); [done|].
  destruct (Rebalance.Run order plan _) as [st [w db]] eqn:Hr. by eapply rebalance_kept.
Qed.
Lemma executeRepair_kept db0 order s : (∀ l, order l ≡ₚ l) → server_kept db0 s → server_kept db0 (executeRepair order s).2.
Proof.
  intros Hord Hk. unfold executeRepair. destruct (ListObjects (js_Store s)) as [objs|er] eqn:Hl; [|done].
  destruct (Repair.ComputePlan _ _) as [plan|er] eqn:Hp; [|done]. cbv zeta. destruct (_ =? 0); [done|].
  destruct (Repair.Run order plan _) as [st [w db]] eqn:Hr. by eapply repair_kept.
Qed.
Lemma executeGC_kept db0 minAge now clock order s :
  (∀ l, order l ≡ₚ l) → server_kept db0 s → server_kept db0 (executeGC minAge now clock order s).2.
Proof.
  intros Hord Hk. unfold executeGC. change (listed_objects s) with (listing (ListObjects (js_Store s))).
  destruct (Gc.ComputePlan _ _ _ _ _) as [[plan|er] w] eqn:Hp; [|by eapply gc_plan_kept].
  cbv zeta. destruct (_ =? 0); [by eapply gc_plan_kept|]. destruct (Gc.Run order plan w) as [st w'] eqn:Hr. by eapply gc_kept.
Qed.
Lemma recordAuto_kept db0 job r (s : JobServer (E := E) (W := W) (M := M)) : server_kept db0 s → server_kept db0 (recordAuto job r s).
Proof. by destruct job. Qed.
Lemma markCheck_kept db0 job t (s : JobServer (E := E) (W := W) (M := M)) : server_kept db0 s → server_kept db0 (markCheck job t s).
Proof. by destruct job. Qed.

(** Workers may finish in any order. *)
Definition fair (j : job_step) : Prop :=
  match j with
  | RepairApply _ order => ∀ l, order l ≡ₚ l
  | RebalanceApply _ order | AutoRebalance _ _ order => ∀ l, order l ≡ₚ l
  | GCApply _ _ _ order | AutoGC _ _ _ _ order => ∀ l, order l ≡ₚ l
  | GCPlan _ _ _ => True
  end.
Lemma applied_snd {X A} c (r : result X A * JobServer (E := E) (W := W) (M := M)) : (applied c r).2 = r.2.
Proof. by destruct r as [[a|e] s]. Qed.
Lemma run_job_kept db0 s j : fair j → server_kept db0 s → server_kept db0 (run_job s j).
Proof.
  intros Hj Hk. destruct j; cbn [run_job].
  - unfold handleRepairApply. rewrite applied_snd. by apply executeRepair_kept.
  - unfold handleRebalanceApply. rewrite applied_snd. by apply executeRebalance_kept.
  - unfold handleGCApply. rewrite applied_snd. by apply executeGC_kept.
  - unfold handleGCPlan. destruct (Gc.ComputePlan _ _ _ _ _) as [r w] eqn:Hp. by eapply gc_plan_kept.
  - destruct (StartAuto _); [|done]. unfold runAutoRebalance. pose proof (executeRebalance_kept db0 order s Hj Hk) as H.
    destruct (executeRebalance order s) as [[out|er] s']; [destruct (_ =? 0)|]; auto using recordAuto_kept, markCheck_kept.
  - destruct (StartAuto _) as [[[[a b] minAge] c]|]; [|done]. unfold runAutoGC. pose proof (executeGC_kept db0 minAge now clock order s Hj Hk) as H.
    destruct (executeGC minAge now clock order s) as [[out|er] s']; [destruct (_ =? 0)|]; auto using recordAuto_kept, markCheck_kept.
Qed.
End keeps.

(** C11: maintenance never loses an object: any sequence of rebalance, garbage collection and
    stripe repair runs, by hand or by the auto-trigger, with any minimum age, whatever calls
    fail and in whatever order workers finish, leaves every object naming the same chunks
    and every replica its record lists on its node, as they were at the start. *)
Theorem objects_survive_maintenance {E W : Type} {HC : ChunkService E W} {HL : ChunkServiceLaws E W}
    {M : Type → Type} {KVM : KV M} {HKV : KVLaws M} (s : JobServer (M := M)) (jobs : list job_step) :
  sound (js_Nodes s) → db_ok (js_Store s) → backed (js_Nodes s) (js_Store s) → Forall fair jobs →
  let s' := foldl run_job s jobs in
  sound (js_Nodes s') ∧ db_ok (js_Store s') ∧ backed (js_Nodes s') (js_Store s') ∧ same_names (js_Store s) (js_Store s').
Proof.
  intros Hw Hok Hb Hjobs. assert (kept (js_Store s) (js_Nodes s) (js_Store s)) as Hk by (split; done).
  assert (∀ db0 (s0 : JobServer (E := E) (W := W) (M := M)), kept db0 (js_Nodes s0) (js_Store s0) →
    let s1 := foldl run_job s0 jobs in kept db0 (js_Nodes s1) (js_Store s1)) as Hall.
  { clear -Hjobs HL HKV. induction Hjobs as [|j jobs Hj _ IH]; intros db0 s0 H0; [done|]. by apply IH, run_job_kept. }
  destruct (Hall _ _ Hk). done.
Qed.

(** ** The recorded runs *)
Section history.
Context {E W : Type} {HC : ChunkService E W} {M : Type → Type} {KVM : KV M}.
Definition newest {A} (n : nat) (l : list A) : list A := drop (length l - n) l.
Lemma newest_snoc {A} n (l : list A) a : newest n (newest n l ++ [a]) = newest n (l ++ [a]).
Proof.
  unfold newest. rewrite !length_app, length_drop. cbn [length].
  destruct (decide (length l ≤ n)) as [H|H].
  - replace (length l - n) with 0 by lia. cbn [drop]. f_equal; lia.
  - rewrite <- drop_app_le by lia. rewrite drop_drop. f_equal; lia.
Qed.
Lemma recordAuto_newest job r (s : JobServer (E := E) (W := W) (M := M)) :
  autoRuns (recordAuto job r s) = newest autoRunHistory (autoRuns s ++ [r]).
Proof.
  unfold recordAuto, newest. destruct (Nat.ltb_spec autoRunHistory (length (autoRuns s ++ [r]))) as [H|H]; destruct job; cbn [setLastCheckLocked autoRuns]; try done.
  all: by replace (_ - _) with 0 by lia.
Qed.
(** The status shows the newest runs, in order, and no more than its capacity. *)
Lemma history_is_newest rs (s : JobServer (E := E) (W := W) (M := M)) : autoRuns s = newest autoRunHistory (autoRuns s) →
  autoRuns (foldl (λ s r, recordAuto (Job r) r s) s rs) = newest autoRunHistory (autoRuns s ++ rs).
Proof.
  intros Hs. cut (∀ all (s0 : JobServer (E := E) (W := W) (M := M)), autoRuns s0 = newest autoRunHistory all →
    autoRuns (foldl (λ s r, recordAuto (Job r) r s) s0 rs) = newest autoRunHistory (all ++ rs)); [intros H; by apply H|].
  induction rs as [|r rs IH]; intros all s0 H0; cbn [foldl]; [by rewrite app_nil_r|].
  rewrite (IH (all ++ [r])); [by rewrite <- app_assoc|]. by rewrite recordAuto_newest, H0, newest_snoc.
Qed.

(** An interval that is not set runs at its default but shows the last check as the next. *)
Lemma status_shows_raw_interval (s : JobServer (E := E) (W := W) (M := M)) : RebalanceInterval (AutoCfg s) = 0%Z →
  autoLastCheckRebalance s ≠ 0%Z → (handleAutoStatus s).1.2.1 = autoLastCheckRebalance s.
Proof. intros Hi Hl. cbn. unfold zeroOr, IsZero. destruct (Z.eqb_spec (autoLastCheckRebalance s) 0); [done|]. rewrite Hi. lia. Qed.
End history.

(** ** The minimum age of a request *)
(** Whole seconds of up to 292 years are taken as given; beyond, the product wraps. *)
Lemma parseMinAge_exact q n : q_get q "min_age_seconds" = itoa n → (0 ≤ n ≤ 9223372036)%Z → parseMinAge q = (n * second)%Z.
Proof.
  intros Hq Hn. unfold parseMinAge. rewrite Hq. cbv zeta. pose proof (parse_itoa n ltac:(unfold int64_ok; lia)) as Hp.
  rewrite bool_decide_eq_false_2 by (intros E0; by rewrite E0 in Hp). rewrite Hp. destruct (Z.leb_spec 0 n); [|lia]. apply i64_small. unfold second. lia.
Qed.
Lemma min_age_wraps : parseMinAge {["min_age_seconds" := ["18446744074"]]} = 290448384%Z.
Proof. vm_compute. reflexivity. Qed.
(** Zero is reported as zero but collected as the default minute. *)
Lemma min_age_zero now : parseMinAge {["min_age_seconds" := ["0"]]} = 0%Z ∧ age_seconds 0 = 0%Z ∧
  Gc.cutoff_of now 0 = Gc.cutoff_of now Gc.DefaultMinAge.
Proof. split_and!; [vm_compute; reflexivity|done|done]. Qed.

(** ** Runs that overlap *)
(** GC and rebalance hold different mutexes.  If a record comes to list, between GC's plan and
    its run, a replica the plan sweeps (rebalance found the old copy in place and kept it),
    the run deletes that replica: one step per run is what makes the theorem above hold. *)
Lemma overlapping_gc_loses_replicas {E W : Type} {HC : ChunkService E W} {HL : ChunkServiceLaws E W}
    {M : Type → Type} {KVM : KV M} order (plan : Gc.Plan) (w w' : W) (st : Gc.RunStats E) (db : @DB M) b k o c a :
  (∀ l, order l ≡ₚ l) → Gc.swept (Gc.Sweeps plan) a (ChunkID c) →
  GetObject db b k = Ok o → c ∈ refs o → a ∈ Replicas c →
  sound w → Gc.Run order plan w = (st, w') → Gc.Failed st = 0 → ¬ backed w' db.
Proof.
  intros Hord Hsw Hg Hc Ha Hw Hr Hf Hb. destruct (Gc.Run_spec _ _ _ _ _ Hord Hr Hw) as (_ & _ & _ & _ & Hgone).
  destruct (Hb b k o c a Hg Hc Ha) as [Hs|[]]. rewrite (Hgone Hf _ _ Hsw) in Hs. by destruct Hs.
Qed.

(** ** Runs on metadata that lags *)
(** The loops run on every edge, whatever its role.  On a follower whose store does not have
    an object yet, a collection without failures deletes the object's chunks that are older
    than the minimum age: the primary's record lists replicas that are gone. *)
Lemma stale_follower_gc_loses_objects {E W : Type} {HC : ChunkService E W} {HL : ChunkServiceLaws E W}
    {M : Type → Type} {KVM : KV M} minAge now clock order (s s' : JobServer (E := E) (W := W) (M := M)) out objs (primary : @DB M) b k o c a ci :
  (∀ l, order l ≡ₚ l) → sound (js_Nodes s) → ListObjects (js_Store s) = Ok objs →
  executeGC minAge now clock order s = (Ok out, s') → go_Failed out = 0 →
  GetObject primary b k = Ok o → c ∈ refs o → a ∈ Replicas c →
  a ∈ DNs (js_Nodes s) → ¬ Gc.claims objs a (ChunkID c) →
  chunk_at (js_Nodes s) a (ChunkID c) = Some ci → (ci_MTime ci ≤ Gc.cutoff_of now minAge)%Z →
  ¬ backed (js_Nodes s') primary.
Proof.
  intros Hord Hw Hl Hgc Hf Hg Hc Ha Hdn Hno Hat Hage. unfold executeGC, listed_objects in Hgc. rewrite Hl in Hgc.
  destruct (Gc.ComputePlan _ _ _ _ _) as [[plan|er] w1] eqn:Hp; [|done]. cbv zeta in Hgc.
  destruct (Gc.ComputePlan_spec _ _ _ _ _ _ _ Hp Hw) as (Hw1 & _ & Hswept).
  assert (Gc.swept (Gc.Sweeps plan) a (ChunkID c)) as Hs by (apply Hswept; split_and!; [done..|by exists ci]).
  destruct (Nat.eqb_spec (length (Gc.Sweeps plan)) 0) as [E0|_].
  { destruct Hs as (sw & Hin & _). apply nil_length_inv in E0. rewrite E0 in Hin. by apply elem_of_nil in Hin. }
  destruct (Gc.Run order plan w1) as [st w2] eqn:Hr. injection Hgc as <- <-.
  by apply (overlapping_gc_loses_replicas order plan w1 w2 st primary b k o c a).
Qed.

(** ** A concrete maintenance history *)
#[local] Instance w_nodes_service : ChunkService coord_error Cluster := cluster_service w_net.
#[local] Instance w_nodes_laws : ChunkServiceLaws coord_error Cluster := Rebalance.w_rb_laws.
Definition w_job_server : JobServer (E := coord_error) (W := Cluster) (M := gmap string) :=
  MkJobServer Rebalance.w_rb_cluster Rebalance.w_rb_db (MkAutoConfig true 0 0 0 0) [] 0 0.
Definition w_jobs : list (job_step) :=
  [RebalanceApply ∅ id; AutoGC 7 1 7000000000000 (λ _ _, 7%Z) id; RepairApply ∅ id; AutoRebalance 9 1 reverse;
   GCApply {["min_age_seconds" := ["0"]]} 99000000000000 (λ _ _, 9%Z) id]%string.
Lemma objects_survive_maintenance_witness :
  backed (js_Nodes (foldl run_job w_job_server w_jobs)) (js_Store (foldl run_job w_job_server w_jobs)).
Proof.
  destruct (objects_survive_maintenance w_job_server w_jobs) as (_ & _ & H & _); [| | | |exact H].
  - exact Rebalance.w_rb_sound.
  - exact Rebalance.w_rb_db_ok.
  - exact Rebalance.w_rb_backed.
  - repeat constructor; intros l; [done..|apply reverse_Permutation|done].
Defined.
