(* ===== verification/EdgeDNs.v ===== *)
(** * The data-node registry of an edge: internal/edge/edge.go, cmd/kvfs-edge/main.go

    An edge keeps the addresses of its data nodes in the runtime registry of its store and in
    the placer of its coordinator.  Handlers that change them hold the registry's mutex, so
    each is one step.  The start of the daemon builds the coordinator from the registry, or
    seeds the registry from EDGE_DNS. *)
From S2P Require Import Prelude GF Kv Meta Store StoreProps Placement GoLib Transport Coordinator.
From Stdlib Require Import Strings.Ascii.

(** [SplitCSV] of internal/cliutil *)
Definition SplitCSV (s : string) : list string :=
  foldl (λ out p, let p := TrimSpace p in if bool_decide (p = ""%string) then out else out ++ [p]) [] (split s ","%char).

Section edge_dns.
Context {M : Type → Type} {KVM : KV M} {HKV : KVLaws M}.

Record EdgeDNs : Type := MkEdgeDNs { ed_Coord : Coordinator; ed_Store : @DB M }.
Inductive change_error : Type := TooFewLeft | PersistDNs (e : store_error) | UpdatePlacer (e : coord_error).
Definition node_of (a : string) : Node := MkNode a a "".

Definition applyDNChange (mutate : list string → result change_error (list string)) (now : Z) (s : EdgeDNs)
    : result change_error () * EdgeDNs :=
  match mutate (coord_DNs (ed_Coord s)) with
  | Err e => (Err e, s)
  | Ok next =>
      match SeedRuntimeDNs next now (ed_Store s) with
      | (Err e, db) => (Err (PersistDNs e), MkEdgeDNs (ed_Coord s) db)
      | (Ok _, db) =>
          match UpdateNodes (node_of <$> next) (ed_Coord s) with
          | (Err e, c) => (Err (UpdatePlacer e), MkEdgeDNs c db)
          | (Ok _, c) => (Ok (), MkEdgeDNs c db)
          end
      end
  end.
Definition add_addr (addr : string) (addrs : list string) : result change_error (list string) :=
  if bool_decide (addr ∈ addrs) then Ok addrs else Ok (addrs ++ [addr]).
Definition remove_addr (addr : string) (r : Z) (addrs : list string) : result change_error (list string) :=
  let out := filter (λ a, a ≠ addr) addrs in
  if length out =? length addrs then Ok addrs
  else if (Z.of_nat (length out) <? r)%Z then Err TooFewLeft
  else Ok out.

(** The status, and the nodes of the answer when it is 200; [None] is an undecodable body. *)
Definition handleDNs (s : EdgeDNs) : list string * Z := (coord_DNs (ed_Coord s), quorumWrite (ed_Coord s)).
Definition handleAddDN (body : option string) (now : Z) (s : EdgeDNs) : Z * list string * EdgeDNs :=
  match body with
  | None => (400%Z, [], s)
  | Some addr =>
      if bool_decide (addr = ""%string) then (400%Z, [], s)
      else match applyDNChange (add_addr addr) now s with
           | (Err _, s) => (500%Z, [], s)
           | (Ok _, s) => (200%Z, coord_DNs (ed_Coord s), s)
           end
  end.
Definition handleRemoveDN (addr : string) (now : Z) (s : EdgeDNs) : Z * list string * EdgeDNs :=
  if bool_decide (addr = ""%string) then (400%Z, [], s)
  else match applyDNChange (remove_addr addr (replicationFactor (ed_Coord s))) now s with
       | (Err _, s) => (400%Z, [], s)
       | (Ok _, s) => (200%Z, coord_DNs (ed_Coord s), s)
       end.
Definition handleSetDNClass (addr class : string) (s : EdgeDNs) : Z * EdgeDNs :=
  if bool_decide (addr = ""%string) then (400%Z, s)
  else match SetRuntimeDNClass addr class (ed_Store s) with
       | (Err ErrNotFound, db) => (404%Z, MkEdgeDNs (ed_Coord s) db)
       | (Err _, db) => (500%Z, MkEdgeDNs (ed_Coord s) db)
       | (Ok _, db) => (200%Z, MkEdgeDNs (ed_Coord s) db)
       end.

(** The nodes the daemon starts with; [None] is a fatal error. *)
Definition boot_dns (env : string) (reset : bool) (now : Z) (db : @DB M) : option (list string * @DB M) :=
  let envDNs := SplitCSV env in
  let runtimeDNs := ListRuntimeDNs db in
  if reset || (length runtimeDNs =? 0) then
    if length envDNs =? 0 then None
    else match SeedRuntimeDNs envDNs now db with
         | (Err _, _) => None
         | (Ok _, db) => Some (envDNs, db)
         end
  else Some (runtimeDNs, db).
Definition boot_edge (env : string) (reset : bool) (quorum : Z) (scheme : string) (now : Z) (db : @DB M) : option EdgeDNs :=
  '(dns, db) ← boot_dns env reset now db;
  match New (MkConfig (node_of <$> dns) 3 quorum (10 * 1000000000) scheme) with
  | Err _ => None
  | Ok c => Some (MkEdgeDNs c db)
  end.

Inductive dn_request : Type :=
  | AddDN (body : option string) (now : Z) | RemoveDN (addr : string) (now : Z) | SetDNClass (addr class : string).
Definition dn_step (s : EdgeDNs) (r : dn_request) : EdgeDNs :=
  match r with
  | AddDN body now => (handleAddDN body now s).2
  | RemoveDN addr now => (handleRemoveDN addr now s).2
  | SetDNClass addr class => (handleSetDNClass addr class s).2
  end.
End edge_dns.
