(* ===== verification/EdgeDNTheorems.v ===== *)
(** * The data-node registry of an edge: its contract (EdgeDNs.v) *)
From S2P Require Import Prelude GF Kv Meta Store StoreProps GoLib Placement Transport Coordinator EdgeDNs.

Section registry.
Context {M : Type → Type} {KVM : KV M} {HKV : KVLaws M}.

(** The addresses registered in a database. *)
Definition registered (db : @DB M) (a : string) : Prop := is_Some (kv_get (dns_runtime db) a).
Lemma elem_of_ListRuntimeDNs (db : @DB M) a : a ∈ ListRuntimeDNs db ↔ registered db a.
Proof.
  unfold ListRuntimeDNs, registered. rewrite elem_of_sort_strings, list_elem_of_fmap. split.
  - intros ([k v] & -> & Hkv%elem_list). by eexists.
  - intros [v Hv%elem_list]. by exists (a, v).
Qed.
Lemma NoDup_ListRuntimeDNs (db : @DB M) : NoDup (ListRuntimeDNs db).
Proof. unfold ListRuntimeDNs, sort_strings. rewrite merge_sort_Permutation. apply list_NoDup. Qed.
(** A registry that holds the addresses of a list without duplicates lists them. *)
Lemma ListRuntimeDNs_perm (db : @DB M) l : NoDup l → (∀ a, registered db a ↔ a ∈ l) → ListRuntimeDNs db ≡ₚ l.
Proof. intros Hl Hr. apply NoDup_Permutation; [apply NoDup_ListRuntimeDNs|done|]. intros a. by rewrite elem_of_ListRuntimeDNs. Qed.

Lemma seed_loop_registers l now (b b' : M (stored RuntimeDN)) a :
  seed_loop l now b = Ok b' → is_Some (kv_get b' a) ↔ a ∈ l ∨ is_Some (kv_get b a).
Proof.
  revert b. induction l as [|x l IH]; intros b Hs; cbn [seed_loop] in Hs.
  { injection Hs as <-. split; [by right|by intros [?%elem_of_nil|]]. }
  apply rbind_ok in Hs as (b1 & Hp%put_ok & Hs). rewrite (IH _ Hs), (get_put _ _ _ _ _ Hp), elem_of_cons.
  case_decide as E; [subst x|]; split; try naive_solver.
Qed.
Lemma seed_registers l now (db db' : @DB M) r : SeedRuntimeDNs l now db = (Ok r, db') →
  ∀ a, registered db' a ↔ a ∈ l.
Proof.
  unfold SeedRuntimeDNs, Update. destruct (rbind _ _) as [[[] d]|e] eqn:Hs; [|done]. intros [= _ <-] a.
  apply rbind_ok in Hs as (b & Hb & [= <-]). unfold registered. cbn [dns_runtime set_dns_runtime].
  rewrite (seed_loop_registers _ _ _ _ _ Hb), get_empty. split; [by intros [?|[]]|by left].
Qed.
Lemma failed_seed l now (db db' : @DB M) e : SeedRuntimeDNs l now db = (Err e, db') → db' = db.
Proof. unfold SeedRuntimeDNs, Update. by destruct (rbind _ _) as [[[] d]|e']; intros [= _ <-]. Qed.

(** ** The registry and the coordinator name the same nodes *)
Section in_step.
Context (quorum : Z) (scheme : string).
(** The coordinator that [New] makes of some nodes, three at least. *)
Definition coord_of (l : list string) : result coord_error Coordinator :=
  New (MkConfig (node_of <$> l) 3 quorum (10 * 1000000000) scheme).
Record in_step (s : EdgeDNs (M := M)) (l : list string) : Prop := MkInStep
  { is_coord : coord_of l = Ok (ed_Coord s); is_NoDup : NoDup l; is_registry : ∀ a, registered (ed_Store s) a ↔ a ∈ l }.

Lemma coord_of_ok l c : coord_of l = Ok c →
  3 ≤ length l ∧ (∀ l', 3 ≤ length l' → coord_of l' = Ok (MkCoordinator (Placement.New (node_of <$> l')) 3 (quorumWrite c) (timeout c) (dnScheme c))) ∧
  placer c = Placement.New (node_of <$> l) ∧ replicationFactor c = 3%Z.
Proof.
  unfold coord_of, New. cbn [cfg_Nodes ReplicationFactor QuorumWrite Timeout DNScheme]. rewrite !length_fmap.
  destruct (Z.eqb_spec (Z.of_nat (length l)) 0) as [|H0]; [done|]. cbn -[Z.of_nat Z.ltb].
  destruct (Z.ltb_spec (Z.of_nat (length l)) 3) as [|H3]; [done|]. destruct (3 <? _)%Z eqn:Hq; [done|]. intros [= <-]. cbn -[Z.of_nat Z.ltb].
  split_and!; [lia| |done|done]. intros l' Hl'. rewrite length_fmap.
  destruct (Z.eqb_spec (Z.of_nat (length l')) 0) as [|_]; [lia|]. destruct (Z.ltb_spec (Z.of_nat (length l')) 3) as [|_]; [lia|]. done.
Qed.
Lemma coord_of_DNs dns c : coord_of dns = Ok c → coord_DNs c = dns.
Proof.
  intros H. destruct (coord_of_ok _ _ H) as (_ & _ & Hp & _). unfold coord_DNs, Nodes. rewrite Hp. cbn.
  rewrite <- list_fmap_compose. apply list_fmap_id.
Qed.
Lemma coord_DNs_of s l : in_step s l → coord_DNs (ed_Coord s) = l.
Proof. intros [Hc _ _]. by eapply coord_of_DNs. Qed.
(** Nodes in another order make a coordinator that places alike. *)
Lemma coord_of_perm l l' c : l' ≡ₚ l → NoDup l' → coord_of l = Ok c → ∃ c', coord_of l' = Ok c' ∧
  coord_DNs c' ≡ₚ coord_DNs c ∧ replicationFactor c' = replicationFactor c ∧ quorumWrite c' = quorumWrite c ∧
  ∀ key n, coord_PlaceN key n c' = coord_PlaceN key n c.
Proof.
  intros Hp Hnd Hc. destruct (coord_of_ok _ _ Hc) as (Hlen & Hmk & Hpl & HR).
  eexists. split; [apply Hmk; by rewrite Hp|]. rewrite (coord_of_DNs _ _ Hc), HR. cbn [replicationFactor quorumWrite]. split_and!; [|done|done|].
  - unfold coord_DNs, Nodes. cbn. rewrite <- list_fmap_compose. by rewrite (list_fmap_id l' : Addr ∘ node_of <$> _ = _).
  - intros key n. unfold coord_PlaceN, PickByDomain. rewrite Hpl. cbn [placer Placement.New Placement.nodes].
    destruct (placement_order_independent key n (node_of <$> l') (node_of <$> l)) as [_ H]; [|by rewrite Hp|exact (f_equal (fmap Addr) H)].
    rewrite <- list_fmap_compose. change (ID ∘ node_of) with (λ a : string, a). by rewrite list_fmap_id.
Qed.
Lemma applyDNChange_in_step mutate now s l : in_step s l →
  (∀ l', mutate l = Ok l' → NoDup l' ∧ 3 ≤ length l') → ∃ l', in_step (applyDNChange mutate now s).2 l'.
Proof.
  intros Hs Hm. unfold applyDNChange. rewrite (coord_DNs_of s l Hs). destruct (mutate l) as [l'|e]; [|by exists l].
  destruct (Hm l' eq_refl) as [Hnd Hlen]. destruct Hs as [Hc Hl Hr].
  destruct (SeedRuntimeDNs l' now (ed_Store s)) as [[r|e] db] eqn:Hseed.
  2:{ apply failed_seed in Hseed as ->. by exists l. }
  destruct (coord_of_ok _ _ Hc) as (_ & Hmk & _ & HR). unfold UpdateNodes. rewrite length_fmap, HR.
  destruct (Z.eqb_spec (Z.of_nat (length l')) 0); [lia|]. destruct (Z.ltb_spec (Z.of_nat (length l')) 3); [lia|].
  exists l'. split; cbn [ed_Coord ed_Store snd]; [by apply Hmk|done|by eapply seed_registers].
Qed.
Lemma dn_step_in_step s l r : in_step s l → ∃ l', in_step (dn_step s r) l'.
Proof.
  intros Hs. pose proof (coord_of_ok _ _ (is_coord _ _ Hs)) as (Hlen & _ & _ & HR). pose proof (is_NoDup _ _ Hs) as Hnd.
  destruct r as [[addr|] now|addr now|addr class]; cbn [dn_step].
  - unfold handleAddDN. case_bool_decide; [by exists l|].
    destruct (applyDNChange_in_step (add_addr addr) now s l Hs) as [l' Hl'].
    { unfold add_addr. intros l'. case_bool_decide; intros [= <-]; [done|]. rewrite length_app. split; [|simpl; lia].
      apply NoDup_app. split_and!; [done|set_solver|apply NoDup_singleton]. }
    exists l'. by destruct (applyDNChange _ _ _) as [[[]|e] s'].
  - by exists l.
  - unfold handleRemoveDN. case_bool_decide; [by exists l|]. rewrite HR.
    destruct (applyDNChange_in_step (remove_addr addr 3) now s l Hs) as [l' Hl'].
    { unfold remove_addr. intros l'. destruct (_ =? _); [by intros [= <-]|].
      destruct (Z.ltb_spec (Z.of_nat (length (filter (λ a, a ≠ addr) l))) 3); [done|]. intros [= <-].
      split; [by apply NoDup_filter|lia]. }
    exists l'. by destruct (applyDNChange _ _ _) as [[[]|e] s'].
  - exists l. destruct Hs as [Hc _ Hr]. unfold handleSetDNClass. case_bool_decide as Ha; [by split|].
    assert (∀ a, registered (SetRuntimeDNClass addr class (ed_Store s)).2 a ↔ registered (ed_Store s) a) as Hsame.
    { unfold SetRuntimeDNClass, update_runtime, Update, registered. rewrite bool_decide_eq_false_2 by done. intros a.
      destruct (kv_get (dns_runtime (ed_Store s)) addr) as [raw|] eqn:Hraw; [|done].
      destruct (put _ _ _) as [m|e] eqn:Hp; [|done]. apply put_ok in Hp. cbn. rewrite (get_put _ _ _ _ _ Hp).
      case_decide as E; [subst a; rewrite Hraw|done]. split; by eexists. }
    destruct (SetRuntimeDNClass _ _ _) as [[[]|e] db]; [|destruct e]; (split; cbn; [done..|]; intros a; by rewrite Hsame).
Qed.
Lemma boot_registry_in_step env reset now (db : @DB M) s0 : NoDup (SplitCSV env) → boot_edge env reset quorum scheme now db = Some s0 → ∃ l, in_step s0 l.
Proof.
  intros Hnd. unfold boot_edge. destruct (boot_dns env reset now db) as [[l db']|] eqn:Hb; [|done]. cbn [mbind option_bind].
  change (New _) with (coord_of l). destruct (coord_of l) as [c|e] eqn:Hc; [|done]. intros [= <-]. exists l.
  unfold boot_dns in Hb. destruct (_ || _).
  - destruct (_ =? 0); [done|]. destruct (SeedRuntimeDNs _ _ _) as [[r|e] d] eqn:Hs; [|done]. injection Hb as <- <-.
    split; [done|done|by eapply seed_registers].
  - injection Hb as <- <-. split; [done|apply NoDup_ListRuntimeDNs|]. intros a. by rewrite elem_of_ListRuntimeDNs.
Qed.
End in_step.
End registry.


(** ** Concrete registries *)
Local Open Scope string_scope.
Definition w_dn_start : EdgeDNs (M := gmap string) :=
  MkEdgeDNs (MkCoordinator (Placement.New (node_of <$> ["h3:80"; "h1:80"; "h2:80"])) 3 2 10000000000 "http")
    (SeedRuntimeDNs ["h3:80"; "h1:80"; "h2:80"] 5 empty_db).2.
Definition w_dn_requests : list dn_request :=
  [AddDN (Some "h0:80") 6; SetDNClass "h1:80" "hot"; RemoveDN "h2:80" 7; RemoveDN "h0:80" 8; AddDN None 9].

(** Adding a node writes the registry anew: the other nodes lose their classes. *)
Lemma adding_a_node_drops_classes :
  let hot := (handleSetDNClass "h1:80" "hot" w_dn_start).2 in
  RuntimeDNClass (ed_Store hot) "h1:80" = Ok "hot" ∧
  RuntimeDNClass (ed_Store (handleAddDN (Some "h0:80") 9 hot).2) "h1:80" = Ok "" ∧
  (handleAddDN (Some "h0:80") 9 hot).1.1 = 200%Z.
Proof. vm_compute. done. Qed.
(** An address given twice in EDGE_DNS counts twice at the first start and once at the next,
    which is refused. *)
Lemma repeated_address_stops_the_restart :
  match boot_edge "h1:80,h2:80,h1:80" false 0 "" 5 (empty_db (M := gmap string)) with
  | Some s => boot_edge "h1:80,h2:80,h1:80" false 0 "" 6 (ed_Store s) = None
  | None => False
  end.
Proof. vm_compute. reflexivity. Qed.
