(* ===== verification/CoordBoot.v ===== *)
(** * The start of a coord daemon: cmd/kvfs-coord/main.go

    The daemon opens coord.db, seeds the node registry, builds the placement view, the elector
    and the backend that drives the data nodes; in HA mode with a log it then replaces its
    store by a snapshot of a peer, which it keeps in a second file.  [role] and [fetch] are
    what the peers answer; [now] is the clock; [None] is a fatal error. *)
From S2P Require Import Prelude GF Kv Meta Store StoreProps Placement GoLib DataNode Transport Coordinator.
From S2P Require Import Election Coord EdgeDNs.

Record Flags : Type := MkFlags
  { flagDNs : string; flagPeers : string; flagSelfURL : string; flagWAL : bool; flagTxnRaft : bool; flagDNIO : bool }.

Section boot.
Context {M : Type → Type} {KVM : KV M} {HKV : KVLaws M}.

(** The data directory: coord.db, and bootstrap.snapshot.db when it is there and is a database. *)
Record Files : Type := MkFiles { f_main : @DB M; f_boot : option (@DB M) }.
(** The file the store has open. *)
Inductive open_file : Type := MainFile | BootFile.
Definition stored_in (o : open_file) (fs : Files) : option (@DB M) :=
  match o with MainFile => Some (f_main fs) | BootFile => f_boot fs end.
(** What the store writes goes to the file it has open. *)
Definition write_back (o : open_file) (db : @DB M) (fs : Files) : Files :=
  match o with MainFile => MkFiles db (f_boot fs) | BootFile => MkFiles (f_main fs) (Some db) end.

(** ** bootstrapFromPeer *)
(** A fetch or a rename that fails leaves both files; a file that [Reload] cannot open is left behind. *)
Inductive fetched : Type := FetchFailed | NotADatabase | Fetched (db : @DB M).
Definition candidates (selfURL : string) (peerURLs : list string) : list string := filter (λ u, u ≠ selfURL) peerURLs.
Definition ordered (role : string → string) (l : list string) : list string :=
  filter (λ u, role u = "leader"%string) l ++ filter (λ u, role u ≠ "leader"%string) l.
Fixpoint try_peers (fetch : string → fetched) (l : list string) (fs : Files) : bool * Files :=
  match l with
  | [] => (false, fs)
  | peer :: l =>
      match fetch peer with
      | FetchFailed => try_peers fetch l fs
      | NotADatabase => try_peers fetch l (MkFiles (f_main fs) None)
      | Fetched db => (true, MkFiles (f_main fs) (Some db))
      end
  end.
Definition bootstrapFromPeer (selfURL : string) (peerURLs : list string) (role : string → string)
    (fetch : string → fetched) (fs : Files) : open_file * Files :=
  let '(loaded, fs) := try_peers fetch (ordered role (candidates selfURL peerURLs)) fs in
  (if loaded then BootFile else MainFile, fs).

(** ** main *)
(** The addresses to start with, and the seeded database. *)
Definition boot_registry (envDNs : list string) (now : Z) (db : @DB M) : option (list string * @DB M) :=
  let runtimeDNs := ListRuntimeDNs db in
  if length runtimeDNs =? 0 then
    if length envDNs =? 0 then None
    else match SeedRuntimeDNs envDNs now db with
         | (Err _, _) => None
         | (Ok _, db) => Some (envDNs, db)
         end
  else Some (runtimeDNs, db).
Definition boot_nodes (addrs : list string) (db : @DB M) : list Node :=
  let withDomain := ListRuntimeDNsWithDomain db in (λ a, Placement.MkNode a a (withDomain !!! a)) <$> addrs.
Definition boot_elector (fl : Flags) (now : Z) : option (option Elector) :=
  if bool_decide (flagPeers fl = ""%string) then Some None
  else if bool_decide (flagSelfURL fl = ""%string) then None
  else Some (Some (Election.New (Election.MkConfig (flagSelfURL fl)
         ((λ u, MkPeer u u) <$> SplitCSV (flagPeers fl)) 0 0 0 0) now)).
(** [servers] are the data nodes. *)
Definition boot_coord (fl : Flags) (servers : gmap string Server) (role : string → string)
    (fetch : string → fetched) (now : Z) (fs : Files) : option (CoordServer * open_file * Files) :=
  if bool_decide (flagDNs fl = ""%string) then None
  else
    '(addrs, db) ← boot_registry (SplitCSV (flagDNs fl)) now (f_main fs);
    let fs := write_back MainFile db fs in
    let nodes := boot_nodes addrs db in
    elector ← boot_elector fl now;
    if flagTxnRaft fl && (negb (bool_decide (is_Some elector)) || negb (flagWAL fl)) then None
    else
      dnCoord ← (if flagDNIO fl
                 then match Coordinator.New (Coordinator.MkConfig nodes 0 0 0 "") with
                      | Ok c => Some (Some (MkCluster c servers 0))
                      | Err _ => None
                      end
                 else Some None);
      let srv db := MkCoord db (Placement.New nodes) dnCoord elector (flagTxnRaft fl) (flagWAL fl) in
      if bool_decide (is_Some elector) && flagWAL fl then
        let '(o, fs) := bootstrapFromPeer (flagSelfURL fl) (SplitCSV (flagPeers fl)) role fetch fs in
        db ← stored_in o fs;
        Some (srv db, o, fs)
      else Some (srv db, MainFile, fs).
End boot.
