(* ===== verification/CoordBootTheorems.v ===== *)
(** * The start of a coord daemon: its contract (CoordBoot.v) *)
From S2P Require Import Prelude GF Kv Meta Store StoreProps Placement GoLib DataNode Transport Coordinator.
From S2P Require Import Election Coord CoordTheorems EdgeDNs EdgeDNTheorems CoordBoot.

Section boot.
Context {M : Type → Type} {KVM : KV M} {HKV : KVLaws M}.

(** ** The node registry and the placement view *)
Lemma boot_registry_spec env now (db db' : @DB M) l : NoDup env → boot_registry env now db = Some (l, db') →
  NoDup l ∧ (∀ a, registered db' a ↔ a ∈ l) ∧ (db_ok db → db_ok db').
Proof.
  intros Hnd. unfold boot_registry. destruct (_ =? 0).
  - destruct (_ =? 0); [done|]. destruct (SeedRuntimeDNs env now db) as [[r|e] d] eqn:Hs; [|done]. intros [= <- <-].
    split_and!; [done|by eapply seed_registers|]. intros Hok. pose proof (exec_ok (SeedDNs env now) db Hok) as H.
    cbn [exec] in H. rewrite outcome_snd, Hs in H. exact H.
  - intros [= <- <-]. split_and!; [apply NoDup_ListRuntimeDNs| |done]. intros a. by rewrite elem_of_ListRuntimeDNs.
Qed.
Lemma boot_nodes_topology (db : @DB M) l : NoDup l → (∀ a, registered db a ↔ a ∈ l) → boot_nodes l db ≡ₚ topology db.
Proof.
  intros Hnd Hl. unfold boot_nodes, topology. apply fmap_Permutation. rewrite sort_strings_Permutation.
  apply NoDup_Permutation; [done|apply NoDup_fst_map_to_list|]. intros a. rewrite <- Hl. unfold registered.
  rewrite <- topology_registered. unfold topology. rewrite <- list_fmap_compose, list_fmap_id. by rewrite sort_strings_Permutation.
Qed.

(** ** The start *)
Lemma boot_coord_inv fl servers role fetch now (fs fs' : Files (M := M)) s :
  boot_coord fl servers role fetch now fs = Some (s, MainFile, fs') → NoDup (SplitCSV (flagDNs fl)) → db_ok (f_main fs) →
  coord_inv s ∧ cs_Store s = f_main fs'.
Proof.
  intros Hb Hnd Hok. unfold boot_coord in Hb. destruct (bool_decide _); [done|].
  destruct (boot_registry _ _ _) as [[l db]|] eqn:Hreg; [|done]. destruct (boot_registry_spec _ _ _ _ _ Hnd Hreg) as (Hl & Hr & Hdb).
  specialize (Hdb Hok). pose proof (boot_nodes_topology db l Hl Hr) as Htop. cbn [mbind option_bind] in Hb.
  destruct (boot_elector fl now) as [el|]; [|done]. cbn [mbind option_bind] in Hb. destruct (_ && (_ || _)); [done|].
  destruct (if flagDNIO fl then _ else _) as [dn|] eqn:Hdn; [|done]. cbn [mbind option_bind] in Hb.
  assert (coord_inv (MkCoord db (Placement.New (boot_nodes l db)) dn el (flagTxnRaft fl) (flagWAL fl))) as Hinv.
  { split_and!; [done|done|]. intros w Hw. cbn [cs_Coord cs_Placer] in *. subst dn. destruct (flagDNIO fl); [|done].
    destruct (Coordinator.New _) as [c|e] eqn:Hc; [|done]. injection Hdn as <-. cbn [coord].
    revert Hc. unfold Coordinator.New. repeat (case_match; try done); by intros [= <-]. }
  destruct (bool_decide (is_Some el) && flagWAL fl); [|by injection Hb as <- <-].
  unfold bootstrapFromPeer in Hb.
  assert (∀ ps (f f1 : Files (M := M)), try_peers fetch ps f = (false, f1) → f_main f1 = f_main f) as Htry.
  { induction ps as [|p ps IH]; intros f f1; cbn [try_peers]; [by intros [= <-]|]. destruct (fetch p); [apply IH|apply (IH (MkFiles _ None))|done]. }
  destruct (try_peers _ _ _) as [[] fs1] eqn:Ht; cbn in Hb.
  - destruct (f_boot fs1); done.
  - apply Htry in Ht. cbn in Ht. injection Hb as <- <-. rewrite Ht. split; [exact Hinv|done].
Qed.

(** Which snapshot the start takes: one that a peer other than itself serves, a leader's if a
    leader serves one; it keeps its own store only if none does. *)
Lemma try_peers_spec fetch l (fs : Files (M := M)) :
  (∃ l1 p l2 db, l = l1 ++ p :: l2 ∧ fetch p = Fetched db ∧ (∀ q db', q ∈ l1 → fetch q ≠ Fetched db') ∧
     try_peers fetch l fs = (true, MkFiles (f_main fs) (Some db))) ∨
  ((∀ q db', q ∈ l → fetch q ≠ Fetched db') ∧ ∃ b, try_peers fetch l fs = (false, MkFiles (f_main fs) b)).
Proof.
  revert fs. induction l as [|p l IH]; intros fs; cbn [try_peers].
  { right. split; [by intros q db' ?%elem_of_nil|]. destruct fs as [m b]. by exists b. }
  destruct (fetch p) as [| |db] eqn:Hp.
  3:{ left. exists [], p, l, db. split_and!; try done. by intros q db' ?%elem_of_nil. }
  all: match goal with IH : ∀ _, _ |- context [try_peers _ _ ?f = (true, _)] => destruct (IH f) as [(l1 & p' & l2 & db & -> & H1 & H2 & H3)|[H1 [b H2]]] end.
  1, 3: left; exists (p :: l1), p', l2, db; split_and!; [done|done| |done]; intros q db' [->|Hq]%elem_of_cons; [congruence|by apply H2].
  all: right; split; [|by exists b]; intros q db' [->|Hq]%elem_of_cons; [congruence|by apply H1].
Qed.
Lemma bootstrap_prefers_leader self peers role fetch (fs fs' : Files (M := M)) o :
  bootstrapFromPeer self peers role fetch fs = (o, fs') →
  match o with
  | BootFile => ∃ p db, p ∈ peers ∧ p ≠ self ∧ fetch p = Fetched db ∧ fs' = MkFiles (f_main fs) (Some db) ∧
      (∀ q db', q ∈ peers → q ≠ self → role q = "leader"%string → fetch q = Fetched db' → role p = "leader"%string)
  | MainFile => f_main fs' = f_main fs ∧ ∀ q db', q ∈ peers → q ≠ self → fetch q ≠ Fetched db'
  end.
Proof.
  unfold bootstrapFromPeer. assert (∀ q, q ∈ ordered role (candidates self peers) ↔ q ∈ peers ∧ q ≠ self) as Hord.
  { intros q. unfold ordered, candidates. rewrite elem_of_app, !list_elem_of_filter. destruct (decide (role q = "leader"%string)); tauto. }
  destruct (try_peers_spec fetch (ordered role (candidates self peers)) fs) as [(l1 & p & l2 & db & Hl & Hp & Hbefore & ->)|[Hno [b ->]]]; intros [= <- <-].
  - assert (p ∈ ordered role (candidates self peers)) as [Hin Hne]%Hord by (rewrite Hl; set_solver).
    exists p, db. split_and!; [done..|]. intros q db' Hq Hqne Hql Hqf. destruct (decide (role p = "leader"%string)) as [|Hpl]; [done|]. exfalso.
    apply (Hbefore q db'); [|done]. unfold ordered in Hl. apply app_eq_app in Hl as [k [[Hk Hk2]|[Hk _]]].
    + destruct k as [|x k].
      { rewrite app_nil_r in Hk. rewrite <- Hk. apply list_elem_of_filter. split; [done|]. unfold candidates. by apply list_elem_of_filter. }
      exfalso. apply Hpl. assert (p ∈ filter (λ u, role u = "leader"%string) (candidates self peers)) as Hf.
      { rewrite Hk. injection Hk2 as -> _. set_solver. }
      by apply list_elem_of_filter in Hf as [? _].
    + rewrite Hk. apply elem_of_app. left. apply list_elem_of_filter. split; [done|]. unfold candidates. by apply list_elem_of_filter.
  - split; [done|]. intros q db' Hq Hqne. apply Hno. by apply Hord.
Qed.
End boot.


(** ** Concrete starts *)
Local Open Scope string_scope.
Definition w_flags : Flags := MkFlags "h2:80, h1:80" "" "" false false false.
Definition w_files : Files (M := gmap string) := MkFiles empty_db None.
Definition w_role (u : string) : string := "".
Definition w_no_peer (u : string) : fetched (M := gmap string) := FetchFailed.
Definition w_booted (db : mdb) : @CoordServer (gmap string) :=
  MkCoord db (Placement.New [Placement.MkNode "h2:80" "h2:80" ""; Placement.MkNode "h1:80" "h1:80" ""]) None None false false.
Definition w_seeded : mdb := (SeedRuntimeDNs ["h2:80"; "h1:80"] 3 empty_db).2.

(** In HA mode the placement view is built before the peer's snapshot replaces the store: the
    daemon then places on nodes the registry does not have. *)
Definition w_ha : Flags := MkFlags "h2:80,h1:80" "http://a,http://b" "http://b" true false false.
Definition w_peer_db : mdb := (putObjectInternal (MkObjectMeta "photos" "cat.jpg" 0 "" "" [] None [] 0 0 "" "" []) 9
  (createBucketInternal "photos" 7 (SeedRuntimeDNs ["h7:80"; "h8:80"] 3 empty_db).2).2).2.
Definition w_peer (db : mdb) (u : string) : fetched (M := gmap string) := Fetched db.
Lemma snapshot_leaves_the_view_behind :
  (λ r, (ListRuntimeDNs (cs_Store r.1.1), Addr <$> Placement.Nodes (cs_Placer r.1.1)))
    <$> boot_coord w_ha ∅ w_role (w_peer w_peer_db) 3 w_files = Some (["h7:80"; "h8:80"], ["h2:80"; "h1:80"]).
Proof. vm_compute. reflexivity. Qed.

(** What a daemon wrote after it took a snapshot is in a file that no start opens: without a
    peer, the next start has the store of coord.db, whatever was committed since. *)
Lemma restart_forgets_the_snapshot_file {M : Type → Type} {KVM : KV M} {HKV : KVLaws M} fl servers role now (db : @DB M) (fs : Files) :
  (λ r, cs_Store r.1.1) <$> boot_coord fl servers role (λ _, FetchFailed) now (write_back BootFile db fs) =
  (λ r, cs_Store r.1.1) <$> boot_coord fl servers role (λ _, FetchFailed) now fs.
Proof.
  assert (∀ self peers (f : Files (M := M)), bootstrapFromPeer self peers role (λ _, FetchFailed) f = (MainFile, f)) as Hno.
  { intros self peers f. unfold bootstrapFromPeer. assert (∀ l, try_peers (λ _, FetchFailed) l f = (false, f)) as H by (induction l; [done|by cbn]). by rewrite H. }
  unfold boot_coord. cbn [write_back f_main]. destruct (bool_decide _); [done|]. destruct (boot_registry _ _ _) as [[l d]|]; [|done]. cbn [mbind option_bind].
  destruct (boot_elector fl now) as [el|]; [|done]. cbn [mbind option_bind]. destruct (_ && (_ || _)); [done|].
  destruct (if flagDNIO fl then _ else _) as [dn|]; [|done]. cbn [mbind option_bind]. destruct (_ && flagWAL fl); [|done]. by rewrite !Hno.
Qed.
Lemma committed_object_is_forgotten :
  let run (fetch : string → fetched) fs := boot_coord w_ha ∅ w_role fetch 3 fs in
  (λ r, let '(s, o, fs) := r in
    let db := (putObjectInternal (MkObjectMeta "photos" "dog.jpg" 0 "" "" [] None [] 0 0 "" "" []) 12 (cs_Store s)).2 in
    (is_ok (GetObject db "photos" "dog.jpg"),
     (λ r, is_ok (GetObject (cs_Store r.1.1) "photos" "dog.jpg")) <$> run w_no_peer (write_back o db fs)))
    <$> run (w_peer w_peer_db) w_files = Some (true, Some false).
Proof. vm_compute. reflexivity. Qed.
(** With no leader in reach any peer's snapshot replaces a store that has more. *)
Lemma older_snapshot_replaces_newer_store :
  (λ r, is_ok (GetObject (cs_Store r.1.1) "photos" "cat.jpg")) <$> boot_coord w_ha ∅ w_role (w_peer w_seeded) 3 (MkFiles w_peer_db None)
  = Some false ∧ is_ok (GetObject w_peer_db "photos" "cat.jpg") = true.
Proof. vm_compute. done. Qed.
