(* ===== verification/Replicate.v ===== *)
(** * Replication of a write to the peers

    ReplicateEntry, pushAppendWAL and HandleAppendWAL of internal/election/election.go, with
    what the daemons hook to them: appendWALControlled and MarshalPutObjectEntry of
    internal/store/wal.go, PutObject and PutObjectAfterReplicate of store.go, and the commit
    of internal/edge/edge.go and internal/coord/coord.go that chooses between them.  A group
    is the replicas by URL; [links] is what the network does to the call to each peer, and
    [sched] the order in which the calls take effect. *)
From S2P Require Import Prelude GF GoLib Kv Meta Store StoreProps Wal Replay DataNode Transport Coordinator.
From S2P Require Import Election.

Section replicate.
Context {M : Type → Type} {KVM : KV M}.

(** [r_Append]: an AppendEntryFn is registered.  [r_LastSeq] is the last number of the node's
    own log, if it keeps one. *)
Record Replica : Type := MkReplica
  { r_Elector : Elector; r_Store : @DB M; r_Append : bool; r_LastSeq : option Z }.
Abbreviation group := (gmap string Replica).
Record link : Type := MkLink { l_fault : fault; l_now : Z }.

(** ** The follower *)
Definition HandleAppend (term : Z) (entry : WALEntry walop) (now : Z) (r : Replica) : Z * Replica :=
  let '(err, db) := ApplyEntry entry now (r_Store r) in
  let fn := if r_Append r then Some (match err with None => true | Some _ => false end) else None in
  let '(status, called, e) := HandleAppendWAL (itoa term) fn now (r_Elector r) in
  (status, MkReplica e (if called then db else r_Store r) (r_Append r) (r_LastSeq r)).

(** ** The leader *)
Definition pushAppendWAL (links : string → link) (term : Z) (entry : WALEntry walop) (peer : Peer) (g : group) : bool * group :=
  let l := links (URL peer) in
  match l_fault l, g !! URL peer with
  | NotDelivered, _ | _, None => (false, g)
  | Answered, Some r => let '(status, r) := HandleAppend term entry (l_now l) r in ((status =? 200)%Z, <[URL peer := r]> g)
  | ReplyLost, Some r => (false, <[URL peer := (HandleAppend term entry (l_now l) r).2]> g)
  end.
Definition push_one (links : string → link) (term : Z) (entry : WALEntry walop) (st : nat * group) (peer : Peer) : nat * group :=
  let '(ok, g) := pushAppendWAL links term entry peer st.2 in (if ok then S st.1 else st.1, g).
Definition ReplicateEntry (links : string → link) (sched : list Peer → list Peer) (entry : WALEntry walop) (e : Elector) (g : group)
    : bool * group :=
  if IsLeader e then
    let others := filter (λ p, PID p ≠ SelfID (cfg e)) (Peers (cfg e)) in
    let '(acks, g) := foldl (push_one links (currentTerm e) entry) (1, g) (sched others) in
    (ReplicateEntry_result acks e, g)
  else (false, g).

(** ** Writes of an object *)
(** What the store's log is hooked to: nothing, a push that is not waited for, or one that is. *)
Inductive hook_mode : Type := NoHook | AsyncHook | StrictHook.
Inductive put_error : Type := PutStore (e : store_error) | NoQuorum.

Definition MarshalPutObjectEntry (obj : ObjectMeta) (now : Z) : WALEntry walop := MkEntry 0 now (OpPutObject obj).
(** The node's own transaction, and the number of the log entry it appends. *)
Definition put_local (obj : ObjectMeta) (now : Z) (r : Replica) : result store_error (ObjectMeta * option Z) * Replica :=
  match putObjectInternal obj now (r_Store r) with
  | (Err e, db) => (Err e, MkReplica (r_Elector r) db (r_Append r) (r_LastSeq r))
  | (Ok o, db) =>
      let seq := (λ s, s + 1)%Z <$> r_LastSeq r in
      (Ok (o, seq), MkReplica (r_Elector r) db (r_Append r) seq)
  end.
Definition PutObjectAfterReplicate (self : string) (obj : ObjectMeta) (now : Z) (r : Replica) (g : group)
    : result put_error ObjectMeta * group :=
  match put_local obj now r with
  | (Err e, r) => (Err (PutStore e), <[self := r]> g)
  | (Ok (o, _), r) => (Ok o, <[self := r]> g)
  end.
Definition PutObject (mode : hook_mode) links sched (self : string) (obj : ObjectMeta) (now : Z) (r : Replica) (g : group)
    : result put_error ObjectMeta * group :=
  match put_local obj now r with
  | (Err e, r) => (Err (PutStore e), <[self := r]> g)
  | (Ok (o, None), r) => (Ok o, <[self := r]> g)
  | (Ok (o, Some seq), r) =>
      let g := <[self := r]> g in
      if IsLeader (r_Elector r) then
        let entry := MkEntry seq now (OpPutObject o) in
        match mode with
        | NoHook => (Ok o, g)
        | AsyncHook => (Ok o, (ReplicateEntry links sched entry (r_Elector r) g).2)
        | StrictHook =>
            let '(ok, g) := ReplicateEntry links sched entry (r_Elector r) g in
            (if ok then Ok o else Err NoQuorum, g)
        end
      else (Ok o, g)
  end.
(** [commitPutMeta]; [commit] of a coord with StrictReplication read as its TransactionalCommit. *)
Definition commit_put (StrictReplication : bool) (mode : hook_mode) links sched (self : string) (obj : ObjectMeta) (now : Z) (g : group)
    : result put_error ObjectMeta * group :=
  match g !! self with
  | None => (Err NoQuorum, g)
  | Some r =>
      if StrictReplication && IsLeader (r_Elector r) then
        match ReplicateEntry links sched (MarshalPutObjectEntry obj now) (r_Elector r) g with
        | (false, g) => (Err NoQuorum, g)
        | (true, g) => PutObjectAfterReplicate self obj now (default r (g !! self)) g
        end
      else PutObject mode links sched self obj now r g
  end.
End replicate.
