(* ===== verification/ReplicateTheorems.v ===== *)
(** * Replication of a write to the peers: its contract (Replicate.v) *)
From S2P Require Import Prelude GF GoLib Placement Kv Meta Store StoreProps Wal Replay DataNode Transport.
From S2P Require Import Coordinator Election Edge EdgeLocal Replicate.

Section replicate.
Context {M : Type → Type} {KVM : KV M} {HKV : KVLaws M}.
Abbreviation group := (gmap string (Replica (M := M))).

(** The replica at [u] answers for the object what was written, with a version and a creation
    time of its own. *)
Definition has_object (r : Replica (M := M)) (obj : ObjectMeta) : Prop :=
  ∃ v t, GetObject (r_Store r) (Bucket obj) (Key obj) = Ok (normalizeLegacy (with_created (with_version obj v) t)).
Definition holds (g : group) (u : string) (obj : ObjectMeta) : Prop := ∃ r, g !! u = Some r ∧ has_object r obj.

Lemma with_again obj v t v' t' : with_created (with_version (with_created (with_version obj v) t) v') t' = with_created (with_version obj v') t'.
Proof. by destruct obj. Qed.
Lemma has_again r obj v t : has_object r (with_created (with_version obj v) t) → has_object r obj.
Proof.
  intros (v' & t' & H). exists v', t'. rewrite with_again in H. by destruct obj.
Qed.

(** ** The follower *)
Lemma HandleAppend_holds term (entry : WALEntry walop) obj now (r : Replica (M := M)) r' :
  Op entry = OpPutObject obj → HandleAppend term entry now r = (200%Z, r') → has_object r' obj.
Proof.
  intros Hop. unfold HandleAppend, ApplyEntry. rewrite Hop. unfold applied, HandleAppendWAL.
  destruct (putObjectInternal obj now (r_Store r)) as [[o|er] db] eqn:Hp.
  - apply putObject_committed in Hp as (Hg & v & t & ->). destruct (parseTerm (itoa term)) as [tm|]; [|done].
    destruct (tm <? _)%Z; [done|]. destruct (r_Append r); [|done]. intros [= <-]. by exists v, t.
  - destruct (parseTerm (itoa term)) as [tm|]; [|done]. destruct (tm <? _)%Z; [done|]. by destruct (r_Append r).
Qed.

(** ** The pushes *)
Lemma push_one_frame links term (entry : WALEntry walop) acks (g : group) p u : u ≠ URL p →
  (push_one links term entry (acks, g) p).2 !! u = g !! u.
Proof.
  intros Hne. unfold push_one, pushAppendWAL. cbn [fst snd].
  destruct (l_fault (links (URL p))), (g !! URL p) as [r|]; try done.
  - destruct (HandleAppend _ _ _ _) as [st r']. cbn [snd]. by rewrite lookup_insert_ne.
  - cbn [snd]. by rewrite lookup_insert_ne.
Qed.
Lemma push_all_spec links term (entry : WALEntry walop) obj l acks (g : group) acks' g' :
  Op entry = OpPutObject obj → NoDup (URL <$> l) → foldl (push_one links term entry) (acks, g) l = (acks', g') →
  (∀ u, u ∉ URL <$> l → g' !! u = g !! u) ∧
  ∃ Q, NoDup Q ∧ Q ⊆ URL <$> l ∧ acks' = acks + length Q ∧ ∀ u, u ∈ Q → holds g' u obj.
Proof.
  intros Hop. revert acks g. induction l as [|p l IH]; intros acks g Hnd Hf.
  { injection Hf as <- <-. split; [done|]. exists []. split_and!; [constructor|done|simpl; lia|by intros u ?%elem_of_nil]. }
  cbn [foldl] in Hf. rewrite fmap_cons, NoDup_cons in Hnd. destruct Hnd as [Hp Hnd].
  pose proof (λ u Hu, push_one_frame links term entry acks g p u Hu) as Hframe.
  destruct (push_one links term entry (acks, g) p) as [acks1 g1] eqn:H1. cbn [snd] in Hframe.
  assert ((acks1 = S acks ∧ holds g1 (URL p) obj) ∨ acks1 = acks) as Hack.
  { revert H1. unfold push_one, pushAppendWAL. cbn [fst snd].
    destruct (l_fault (links (URL p))), (g !! URL p) as [r|]; try (intros [= <- <-]; by right).
    destruct (HandleAppend term entry _ r) as [st r'] eqn:Hh. destruct (Z.eqb_spec st 200) as [->|]; intros [= <- <-]; [left|by right].
    split; [done|]. exists r'. rewrite lookup_insert_eq. split; [done|]. by eapply HandleAppend_holds. }
  destruct (IH acks1 g1 Hnd Hf) as (Hframe' & Q & HQ1 & HQ2 & HQ3 & HQ4). split.
  - intros u [Hup Hul]%not_elem_of_cons. by rewrite Hframe', Hframe.
  - destruct Hack as [[-> Hh]| ->].
    + exists (URL p :: Q). split_and!; [constructor; [set_solver|done]|set_solver|simpl; lia|].
      intros u [->|Hu]%elem_of_cons; [|by apply HQ4]. destruct Hh as (r & Hr & Ho). exists r. by rewrite Hframe'.
    + exists Q. split_and!; [done|set_solver|done|done].
Qed.

(** ** Groups *)
(** The members' URLs are their ids, as the daemons configure them, and [self] is one of them. *)
Record member (g : group) (self : string) (r : Replica (M := M)) : Prop := MkMember
  { m_here : g !! self = Some r; m_self : SelfID (cfg (r_Elector r)) = self;
    m_ids : ∀ p, p ∈ Peers (cfg (r_Elector r)) → PID p = URL p;
    m_NoDup : NoDup (URL <$> Peers (cfg (r_Elector r))); m_in : self ∈ URL <$> Peers (cfg (r_Elector r)) }.

Lemma ReplicateEntry_spec links sched (entry : WALEntry walop) obj (g g' : group) self r ok :
  (∀ l, sched l ≡ₚ l) → Op entry = OpPutObject obj → member g self r → ReplicateEntry links sched entry (r_Elector r) g = (ok, g') →
  g' !! self = Some r ∧
  (ok = true → ∃ Q, NoDup (self :: Q) ∧ Q ⊆ URL <$> Peers (cfg (r_Elector r)) ∧ quorum (r_Elector r) ≤ S (length Q) ∧ ∀ u, u ∈ Q → holds g' u obj).
Proof.
  intros Hs Hop [Hr Hself Hids Hnd Hin]. unfold ReplicateEntry. destruct (IsLeader _); [|intros [= <- <-]; by split].
  set (others := filter _ _). destruct (foldl _ _ _) as [acks g1] eqn:Hf. intros [= <- <-].
  assert (NoDup (URL <$> sched others)) as Hnd'.
  { rewrite Hs. unfold others. eapply sublist_NoDup; [exact Hnd|]. apply fmap_sublist, sublist_filter. }
  destruct (push_all_spec _ _ _ _ _ _ _ _ _ Hop Hnd' Hf) as (Hframe & Q & HQ1 & HQ2 & HQ3 & HQ4).
  assert (self ∉ URL <$> others) as Hno.
  { unfold others. intros (p & -> & [Hne Hp]%list_elem_of_filter)%list_elem_of_fmap. apply Hne. rewrite Hself. by apply Hids. }
  rewrite Hs in HQ2. split.
  - rewrite Hframe; [done|]. by rewrite Hs.
  - unfold ReplicateEntry_result. intros Hq%Nat.leb_le. exists Q. split_and!; [constructor; [set_solver|done]| |lia|done].
    intros u Hu. apply HQ2 in Hu. unfold others in Hu. apply list_elem_of_fmap in Hu as (p & -> & [_ Hp]%list_elem_of_filter). by apply list_elem_of_fmap_2.
Qed.
Lemma put_local_spec obj now (r r' : Replica (M := M)) o seq : put_local obj now r = (Ok (o, seq), r') →
  r_Elector r' = r_Elector r ∧ has_object r' obj ∧ ∃ v t, o = with_created (with_version obj v) t.
Proof.
  unfold put_local. destruct (putObjectInternal obj now (r_Store r)) as [[o1|er] db] eqn:Hp; [|done]. intros [= -> _ <-].
  apply putObject_committed in Hp as (Hg & v & t & ->). split_and!; [done|by exists v, t|by exists v, t].
Qed.
(** Two majorities of the members meet. *)
Lemma majorities_meet (l Q S : list string) : NoDup Q → NoDup S → Q ⊆ l → S ⊆ l → NoDup l →
  length l / 2 + 1 ≤ length Q → length l / 2 + 1 ≤ length S → ∃ u, u ∈ Q ∧ u ∈ S.
Proof.
  intros HQ HS HQl HSl Hl H1 H2. destruct (decide (Exists (λ u, u ∈ S) Q)) as [(u & ? & ?)%Exists_exists|Hno]; [by exists u|]. exfalso.
  assert (length (Q ++ S) ≤ length l) as Hle.
  { apply submseteq_length, NoDup_submseteq; [|set_solver]. apply NoDup_app. split_and!; [done| |done]. intros u Hu1 Hu2.
    apply Hno, Exists_exists. by exists u. }
  rewrite length_app in Hle. pose proof (Nat.div_mod_eq (length l) 2). pose proof (Nat.mod_upper_bound (length l) 2). lia.
Qed.

(** A member and a majority that hold the object: every majority has a replica that does. *)
Lemma majority_holds (g : group) l (self : string) Q obj : NoDup l → self ∈ l → Q ⊆ l → NoDup (self :: Q) → length l / 2 + 1 ≤ S (length Q) →
  holds g self obj → (∀ u, u ∈ Q → holds g u obj) →
  ∀ T, NoDup T → T ⊆ l → length l / 2 + 1 ≤ length T → ∃ u, u ∈ T ∧ holds g u obj.
Proof.
  intros Hl Hin HQ Hnd Hlen Hs Hh T HT1 HT2 HT3. destruct (majorities_meet l (self :: Q) T) as (u & [->|Hu]%elem_of_cons & HuT); [done|done|set_solver|done..| |].
  - by exists self.
  - exists u. split; [done|by apply Hh].
Qed.
Lemma quorum_members (g : group) self r : member g self r → quorum (r_Elector r) = length (URL <$> Peers (cfg (r_Elector r))) / 2 + 1.
Proof. intros _. unfold quorum. by rewrite length_fmap. Qed.
End replicate.

(** C8: a write that the leader acknowledges, by the transactional commit or with the log's
    hook waiting for a quorum, is on a majority: whatever calls were lost and in whatever
    order peers applied it, every majority of the members has a replica that answers the
    object as written; a transactional commit refused for want of a quorum leaves the
    leader's own replica as it was. *)
Theorem acknowledged_put_reaches_majority {M : Type → Type} {KVM : KV M} {HKV : KVLaws M}
    strict mode links sched self obj now (g : gmap string (Replica (M := M))) r :
  (∀ l, sched l ≡ₚ l) → member g self r → IsLeader (r_Elector r) = true →
  strict = true ∨ (mode = StrictHook ∧ is_Some (r_LastSeq r)) →
  match commit_put strict mode links sched self obj now g with
  | (Ok _, g') => ∀ T, NoDup T → T ⊆ URL <$> Peers (cfg (r_Elector r)) →
      length (URL <$> Peers (cfg (r_Elector r))) / 2 + 1 ≤ length T → ∃ u, u ∈ T ∧ holds g' u obj
  | (Err NoQuorum, g') => strict = true → g' !! self = Some r
  | (Err (PutStore _), _) => True
  end.
Proof.
  intros Hs Hm Hlead Hmode. pose proof Hm as [Hr _ _ Hnd Hin]. unfold commit_put. rewrite Hr, Hlead. destruct strict; cbn [andb].
  - destruct (ReplicateEntry _ _ _ _ _) as [ok g1] eqn:Hrep.
    destruct (ReplicateEntry_spec links sched (MarshalPutObjectEntry obj now) obj g g1 self r ok Hs eq_refl Hm Hrep) as [Hself Hok].
    destruct ok; [|done]. destruct (Hok eq_refl) as (Q & HQ1 & HQ2 & HQ3 & HQ4). rewrite Hself. cbn [default from_option id].
    unfold PutObjectAfterReplicate. destruct (put_local obj now r) as [[[o seq]|er] r'] eqn:Hput; [|done].
    apply put_local_spec in Hput as (_ & Ho & _). rewrite (quorum_members _ _ _ Hm) in HQ3.
    apply (majority_holds _ _ self Q); [done..| |].
    + exists r'. by rewrite lookup_insert_eq.
    + intros u Hu. destruct (HQ4 u Hu) as (ru & Hru & Hou). exists ru. rewrite lookup_insert_ne; [done|]. intros ->. by apply NoDup_cons in HQ1 as [? _].
  - destruct Hmode as [|[-> [n Hn]]]; [done|]. unfold PutObject. destruct (put_local obj now r) as [[[o seq]|er] r'] eqn:Hput; [|done].
    pose proof (put_local_spec _ _ _ _ _ _ Hput) as (He & Ho & v & t & Heq).
    assert (∃ k, seq = Some k) as [k ->].
    { revert Hput. unfold put_local. rewrite Hn. destruct (putObjectInternal _ _ _) as [[o1|?] ?]; [|done]. intros [= _ <- _]. by eexists. }
    rewrite He, Hlead. destruct (ReplicateEntry _ _ _ _ _) as [ok g1] eqn:Hrep.
    assert (member (<[self:=r']> g) self r') as Hm' by (destruct Hm; split; rewrite ?He; [by rewrite lookup_insert_eq|done..]).
    rewrite <- He in Hrep.
    destruct (ReplicateEntry_spec links sched (MkEntry k now (OpPutObject o)) o _ g1 self r' ok Hs eq_refl Hm' Hrep) as [Hself Hok].
    destruct ok; [|done]. destruct (Hok eq_refl) as (Q & HQ1 & HQ2 & HQ3 & HQ4). rewrite (quorum_members _ _ _ Hm'), He in HQ3. rewrite He in HQ2.
    apply (majority_holds _ _ self Q); [done..| |].
    + by exists r'.
    + intros u Hu. destruct (HQ4 u Hu) as (ru & Hru & Hou). exists ru. split; [done|]. rewrite Heq in Hou. by eapply has_again.
Qed.

(** ** A group of three *)
Local Open Scope string_scope.
Definition w_urls : list string := ["http://a"; "http://b"; "http://c"].
Definition w_group_conf (u : string) : Election.Config := Election.MkConfig u ((λ u, MkPeer u u) <$> w_urls) 0 0 0 0.
Definition w_follower_at (u : string) : Elector := set_term (Election.New (w_group_conf u) 0) 4.
Definition w_leader_at (u : string) : Elector := set_leader (set_state (w_follower_at u) Leader) u.
Definition w_replica_at (e : Elector) (seq : Z) : Replica (M := gmap string) := MkReplica e empty_db true (Some seq).
Definition w_group : gmap string (Replica (M := gmap string)) :=
  {["http://a" := w_replica_at (w_leader_at "http://a") 0; "http://b" := w_replica_at (w_follower_at "http://b") 0;
    "http://c" := w_replica_at (w_follower_at "http://c") 0]}.
Definition w_doc : ObjectMeta := MkObjectMeta "photos" "cat.jpg" 0 "" "" [] None [] 0 0 "" "" [].
(** The call to [c] is lost. *)
Definition w_links (u : string) : link := MkLink (if bool_decide (u = "http://c") then NotDelivered else Answered) 9.
Lemma w_member : member w_group "http://a" (w_replica_at (w_leader_at "http://a") 0).
Proof.
  split; [reflexivity|reflexivity| | |].
  - intros p. cbn. set_solver.
  - apply (bool_decide_unpack _). vm_compute. done.
  - left.
Qed.
Lemma acknowledged_put_reaches_majority_witness :
  let '(res, g') := commit_put true NoHook w_links id "http://a" w_doc 8 w_group in
  is_ok res = true ∧ ∃ u, u ∈ ["http://b"; "http://c"] ∧ holds g' u w_doc.
Proof.
  pose proof (acknowledged_put_reaches_majority true NoHook w_links id "http://a" w_doc 8 w_group _ (λ l, Permutation_refl l) w_member eq_refl (or_introl eq_refl)) as H.
  assert (is_ok (commit_put true NoHook w_links id "http://a" w_doc 8 w_group).1 = true) as Hok by (vm_compute; reflexivity).
  destruct (commit_put _ _ _ _ _ _ _ _) as [[o|er] g']; [|done]. split; [done|]. apply H.
  - apply (bool_decide_unpack _). vm_compute. done.
  - cbn. set_solver.
  - cbn. lia.
Defined.

Definition version_at (g : gmap string (Replica (M := gmap string))) (u : string) : option Z :=
  r ← g !! u; match GetObject (r_Store r) "photos" "cat.jpg" with Ok o => Some (Version o) | Err _ => None end.
(** A commit that is refused because the acknowledgement was lost is on the follower that
    applied it: a later leader answers an object whose PUT failed. *)
Definition w_lossy (u : string) : link := MkLink (if bool_decide (u = "http://c") then NotDelivered else ReplyLost) 9.
Lemma refused_commit_is_on_a_follower :
  let '(res, g') := commit_put true NoHook w_lossy id "http://a" w_doc 8 w_group in
  (res, version_at g' "http://a", version_at g' "http://b") = (Err NoQuorum, None, Some 1%Z).
Proof. vm_compute. reflexivity. Qed.

(** The entries a follower applies are not in its own log, so the check of a candidate's log
    never counts them: a member without the acknowledged object gets the vote of one that
    has it, and with it the majority. *)
Lemma applied_entries_do_not_count {M : Type → Type} {KVM : KV M} term (entry : WALEntry walop) now (r : Replica (M := M)) :
  r_LastSeq (HandleAppend term entry now r).2 = r_LastSeq r.
Proof. unfold HandleAppend. destruct (ApplyEntry _ _ _) as [er db]. by destruct (HandleAppendWAL _ _ _ _) as [[st called] e]. Qed.
Lemma stale_member_gets_the_vote :
  let '(res, g') := commit_put true NoHook w_links id "http://a" w_doc 8 w_group in
  (is_ok res, version_at g' "http://b", version_at g' "http://c",
   (λ b, (HandleVote "5" "http://c" "0" (r_LastSeq b) 11 (r_Elector b)).1) <$> g' !! "http://b")
  = (true, Some 1%Z, None, Some (Vote true 5)).
Proof. vm_compute. reflexivity. Qed.
(** A replica that missed a write numbers the next one differently. *)
Lemma versions_diverge :
  let '(_, g1) := commit_put true NoHook w_links id "http://a" w_doc 8 w_group in
  let '(_, g2) := commit_put true NoHook (λ _, MkLink Answered 9) id "http://a" w_doc 8 g1 in
  (version_at g2 "http://a", version_at g2 "http://c") = (Some 2%Z, Some 1%Z).
Proof. vm_compute. reflexivity. Qed.
