(* ===== verification/CoordRepair.v ===== *)
(** * The anti-entropy RPCs and tickers of a coord daemon: internal/coord/anti_entropy.go

    The audit and the repair of AntiEntropy.v and AutoRepair.v behind their gates.  The repair's
    workers interleave, so it is a relation between the server before and after.  [ask] is what
    the data nodes answer, [audit_order] and [stripe_order] orders in which goroutines finish. *)
From S2P Require Import Prelude GF GoLib Placement Kv Meta Store StoreProps DataNode Merkle AntiEntropy.
From S2P Require Import Transport Coordinator Election Replicas AutoRepair Coord.
From S2P Require Repair.

(** [ParseNonNegIntQuery] of internal/httputil; [None] is a bad request, [max = 0] no bound. *)
Definition ParseNonNegIntQuery (q : url_values) (name : string) (max : Z) : option Z :=
  let v := q_get q name in
  if bool_decide (v = ""%string) then Some 0%Z
  else match parse_int v with
       | None => None
       | Some n => if (n <? 0)%Z then None else if ((0 <? max) && (max <? n))%Z then None else Some n
       end.
Definition flag_set (q : url_values) (name : string) : bool := bool_decide (q_get q name = "1"%string).
Definition repair_opts (q : url_values) : option AntiEntropyRepairOpts :=
  mr ← ParseNonNegIntQuery q "max_repairs" 0;
  cc ← ParseNonNegIntQuery q "concurrency" 64;
  Some (MkOpts (flag_set q "corrupt") (flag_set q "dry_run") (flag_set q "ec") mr (Z.to_nat cc)).

Section coord_repair.
Context {M : Type → Type} {KVM : KV M}.
Context (net : nat → Coordinator.outcome).
#[local] Instance cr_nodes : ChunkService coord_error Cluster := cluster_service net.
Context (audit_order : list string → list string) (stripe_order : list Repair.StripeRepair → list Repair.StripeRepair).
Context (ask : string → dn_answers).

(** ** The audit *)
Definition coord_audit (db : @DB M) : result store_error (list DNAuditEntry) :=
  objs ←? ListObjects db; Ok (runAntiEntropy audit_order ask objs (ListRuntimeDNs db)).
Definition handleAntiEntropyRun : @CoordServer M → answer (list DNAuditEntry) * CoordServer :=
  requireLeader (Coord.read internal coord_audit).
(** A tick of [StartAntiEntropyTicker]: what a leader logs, divergent nodes and missing chunks. *)
Definition audit_tick (s : @CoordServer M) : option (nat * nat) :=
  match cs_Elector s with
  | Some e => if IsLeader e then Some tt else None
  | None => Some tt
  end ≫= λ _,
  match coord_audit (cs_Store s) with
  | Err _ => None
  | Ok dns => Some (length (filter (λ e, RootMatch e = false) dns), sum_list (length ∘ MissingFromDN <$> dns))
  end.

(** ** The repair *)
Inductive repaired (opts : AntiEntropyRepairOpts) (s : @CoordServer M) : option repair_report → @CoordServer M → Prop :=
  | repaired_unlisted e : ListObjects (cs_Store s) = Err e → repaired opts s None s
  | repaired_run w objs rep w' db' :
      cs_Coord s = Some w → ListObjects (cs_Store s) = Ok objs →
      runAntiEntropyRepair stripe_order opts ask (runAntiEntropy audit_order ask objs (ListRuntimeDNs (cs_Store s))) objs
        (w, cs_Store s) rep (w', db') →
      repaired opts s (Some rep) (set_nodes (set_store s db') w').
Inductive handleAntiEntropyRepair (q : url_values) (s : @CoordServer M) : answer repair_report → @CoordServer M → Prop :=
  | repair_not_leader st l c s' :
      requireLeader (λ s, (Answer tt, s)) s = (Refuse st l c, s') → handleAntiEntropyRepair q s (Refuse st l c) s'
  | repair_no_dnio s1 : requireLeader (λ s, (Answer tt, s)) s = (Answer tt, s1) → cs_Coord s = None →
      handleAntiEntropyRepair q s (Refuse 503 None None) s
  | repair_bad_query s1 : requireLeader (λ s, (Answer tt, s)) s = (Answer tt, s1) → is_Some (cs_Coord s) → repair_opts q = None →
      handleAntiEntropyRepair q s (Refuse 400 None None) s
  | repair_answer s1 opts r s' : requireLeader (λ s, (Answer tt, s)) s = (Answer tt, s1) → is_Some (cs_Coord s) →
      repair_opts q = Some opts → repaired opts s r s' →
      handleAntiEntropyRepair q s (match r with Some rep => Answer rep | None => Refuse 500 None None end) s'.
(** A tick of [StartAutoRepairTicker]; without data-node I/O the daemon does not start it. *)
Inductive auto_repair_tick (opts : AntiEntropyRepairOpts) (s : @CoordServer M) : @CoordServer M → Prop :=
  | tick_follower e : cs_Elector s = Some e → IsLeader e = false → auto_repair_tick opts s s
  | tick_repairs r s' : (∀ e, cs_Elector s = Some e → IsLeader e = true) → repaired opts s r s' → auto_repair_tick opts s s'.
End coord_repair.
