(* ===== verification/CoordRepairTheorems.v ===== *)
(** * Maintenance on a coord daemon: its contract (CoordRepair.v) *)
From S2P Require Import Prelude GF GoLib Placement Kv Meta Store StoreProps Replicas DataNode Merkle.
From S2P Require Import AntiEntropy Transport Coordinator Election AutoRepair Jobs Coord CoordRepair.
From S2P Require Gc Rebalance Repair.

(** ** Query parameters *)
(** What is taken is what was written, within bounds. *)
Lemma ParseNonNegIntQuery_spec q name max n : ParseNonNegIntQuery q name max = Some n →
  (0 ≤ n)%Z ∧ (0 < max → n ≤ max)%Z ∧ (q_get q name = ""%string ∧ n = 0%Z ∨ parse_int (q_get q name) = Some n).
Proof.
  unfold ParseNonNegIntQuery. cbv zeta. case_bool_decide as Hv; [intros [= <-]; split_and!; [lia|lia|by left]|].
  destruct (parse_int _) as [i|]; [|done]. destruct (Z.ltb_spec i 0); [done|].
  destruct (Z.ltb_spec 0 max); cbn [andb]; [destruct (Z.ltb_spec max i); [done|]|]; intros [= <-]; split_and!; try lia; by right.
Qed.
Lemma ParseNonNegIntQuery_exact q name max n : q_get q name = itoa n → int64_ok n = true → (0 ≤ n)%Z → (0 < max → n ≤ max)%Z →
  ParseNonNegIntQuery q name max = Some n.
Proof.
  intros Hq Hn H0 Hmax. unfold ParseNonNegIntQuery. rewrite Hq. cbv zeta. pose proof (parse_itoa n Hn) as Hp.
  rewrite bool_decide_eq_false_2 by (intros E0; by rewrite E0 in Hp). rewrite Hp. destruct (Z.ltb_spec n 0); [lia|].
  destruct (Z.ltb_spec 0 max), (Z.ltb_spec max n); cbn [andb]; first [done|lia].
Qed.
(** A request runs no more than 64 workers and never with a negative cap. *)
Lemma repair_opts_bounds q opts : repair_opts q = Some opts → (0 ≤ o_MaxRepairs opts)%Z ∧ o_Concurrency opts ≤ 64.
Proof.
  unfold repair_opts. intros (mr & Hmr & (cc & Hcc & [= <-])%bind_Some)%bind_Some.
  apply ParseNonNegIntQuery_spec in Hmr as (? & _), Hcc as (? & ? & _). cbn [o_MaxRepairs o_Concurrency]. lia.
Qed.

Section theorems.
Context {M : Type → Type} {KVM : KV M}.
Context (net : nat → Coordinator.outcome).
#[local] Instance crt_nodes : ChunkService coord_error Cluster := cluster_service net.
Implicit Types s : @CoordServer M.

(** ** A repair always ends *)
Lemma pass_finishes opts v conc (p : pass) : 1 ≤ conc → ∃ p', rtc (pass_step opts v conc) p p' ∧ pass_done p'.
Proof.
  intros Hconc. remember (work p) as n eqn:Hn. revert p Hn. induction n as [n IH] using lt_wf_ind. intros p ->.
  destruct (pass_progress opts v conc p Hconc) as [Hd|[p1 H1]]; [by exists p|].
  destruct (IH (work p1) (pass_step_work _ _ _ _ _ H1) p1 eq_refl) as (p' & Hr & Hd). exists p'. split; [by eapply rtc_l|done].
Qed.
Lemma repair_run_ends sched opts ask audit objs (wd : Cluster * @DB M) :
  ∃ rep wd', runAntiEntropyRepair sched opts ask audit objs wd rep wd'.
Proof.
  unfold runAntiEntropyRepair. destruct (collect_jobs _ audit) as [jobs skipped].
  destruct (pass_finishes opts (make_view ask opts audit objs) (pool_size opts jobs) (pass_start jobs skipped wd.1)) as (p & Hp & Hd);
    [apply pool_size_spec|].
  destruct (ec_pass sched opts (ec_plan opts (make_view ask opts audit objs) objs) (successCount p) (p_Repairs p) (p_world p, wd.2))
    as [[n rows] wd'] eqn:Hec.
  by exists (MkReport rows (p_Skipped p) n), wd', p.
Qed.
Lemma repaired_total audit_order stripe_order ask opts s : is_Some (cs_Coord s) →
  ∃ r s', repaired net audit_order stripe_order ask opts s r s'.
Proof.
  intros [w Hw]. destruct (ListObjects (cs_Store s)) as [objs|e] eqn:Hl; [|by exists None, s; apply (repaired_unlisted _ _ _ _ _ _ e)].
  destruct (repair_run_ends stripe_order opts ask (runAntiEntropy audit_order ask objs (ListRuntimeDNs (cs_Store s))) objs (w, cs_Store s))
    as (rep & [w' db'] & Hr).
  exists (Some rep), (set_nodes (set_store s db') w'). by eapply repaired_run.
Qed.
(** A request is answered, whatever the cluster does: the relation has no dead end. *)
Lemma handleAntiEntropyRepair_answers audit_order stripe_order ask q s :
  ∃ a s', handleAntiEntropyRepair net audit_order stripe_order ask q s a s'.
Proof.
  destruct (requireLeader (λ s, (Answer tt, s)) s) as [[st l c|[]] s1] eqn:Hl; [eexists _, _; by eapply repair_not_leader|].
  destruct (cs_Coord s) as [w|] eqn:Hw; [|eexists _, _; by eapply repair_no_dnio].
  assert (is_Some (cs_Coord s)) as HC by (by rewrite Hw).
  destruct (repair_opts q) as [opts|] eqn:Hq; [|eexists _, _; by eapply repair_bad_query].
  destruct (repaired_total audit_order stripe_order ask opts s HC) as (r & s' & Hr). eexists _, _. by eapply repair_answer.
Qed.

(** ** Maintenance *)
(** What a coord does to its nodes on its own or for an operator; workers finish in any order. *)
Inductive maintenance s : @CoordServer M → Prop :=
  | m_rebalance order : (∀ l, order l ≡ₚ l) → maintenance s (handleRebalanceApply net order s).2
  | m_gc_plan clock minAge now : maintenance s (handleGCPlan net clock minAge now s).2
  | m_gc clock order minAge now : (∀ l, order l ≡ₚ l) → maintenance s (handleGCApply net clock order minAge now s).2
  | m_repair order : (∀ l, order l ≡ₚ l) → maintenance s (handleRepairApply net order s).2
  | m_anti_entropy audit_order stripe_order ask q a s' : (∀ l, stripe_order l ≡ₚ l) →
      handleAntiEntropyRepair net audit_order stripe_order ask q s a s' → maintenance s s'
  | m_tick audit_order stripe_order ask opts s' : (∀ l, stripe_order l ≡ₚ l) →
      auto_repair_tick net audit_order stripe_order ask opts s s' → maintenance s s'.

Context {HKV : KVLaws M} (Hstat : ∀ n, stat_ok (o_io (net n)) = true).
#[local] Instance crt_laws : ChunkServiceLaws coord_error Cluster := cluster_laws net id Hstat.
Definition coord_kept (db0 : @DB M) s : Prop := ∃ w, cs_Coord s = Some w ∧ kept db0 w (cs_Store s).

Lemma requireLeader_same s a s1 : requireLeader (λ s, (Answer tt, s)) s = (a, s1) → s1 = s.
Proof. unfold requireLeader. destruct (cs_Elector s) as [e|]; [destruct (IsLeader e)|]; by intros [= _ <-]. Qed.
Lemma repaired_kept db0 audit_order stripe_order ask opts s r s' : (∀ l, stripe_order l ≡ₚ l) →
  repaired net audit_order stripe_order ask opts s r s' → coord_kept db0 s → coord_kept db0 s'.
Proof.
  intros Hord [e Hl|w objs rep w' db' Hw Hl Hr] Hk; [done|]. destruct Hk as (w0 & Hw0 & Hk). rewrite Hw in Hw0. injection Hw0 as <-.
  exists w'. split; [done|]. by eapply anti_entropy_kept.
Qed.
Lemma gc_plan_coord_kept db0 clock minAge now s w r w' : gc_plan net clock minAge now w s = (r, w') →
  kept db0 w (cs_Store s) → kept db0 w' (cs_Store s).
Proof. intros Hp. by eapply gc_plan_kept. Qed.
Lemma maintenance_kept db0 s s' : maintenance s s' → coord_kept db0 s → coord_kept db0 s'.
Proof.
  intros H (w & Hw & Hk). destruct H as [order Hord|clock minAge now|clock order minAge now Hord|order Hord|ao so ask q a s' Hord H|ao so ask opts s' Hord H].
  - unfold handleRebalanceApply, requireDNIO. rewrite Hw. destruct (ListObjects (cs_Store s)) as [objs|er] eqn:Hl; [|by exists w].
    destruct (Rebalance.ComputePlan _ _ _) as [plan|er] eqn:Hp; [|by exists w].
    destruct (Rebalance.Run order plan _) as [st [w' db']] eqn:Hr. exists w'. split; [done|]. by eapply rebalance_kept.
  - unfold handleGCPlan, requireDNIO. rewrite Hw. destruct (gc_plan net clock minAge now w s) as [[plan|er] w'] eqn:Hp; exists w'; (split; [done|]);
      by apply (gc_plan_coord_kept _ _ _ _ _ _ _ _ Hp).
  - unfold handleGCApply, requireDNIO. rewrite Hw. destruct (gc_plan net clock minAge now w s) as [[plan|er] w1] eqn:Hp;
      [|exists w1; split; [done|]; by apply (gc_plan_coord_kept _ _ _ _ _ _ _ _ Hp)].
    destruct (Gc.Run order plan w1) as [st w'] eqn:Hr. exists w'. split; [done|]. by eapply gc_kept.
  - unfold handleRepairApply, requireDNIO. rewrite Hw. destruct (ListObjects (cs_Store s)) as [objs|er] eqn:Hl; [|by exists w].
    destruct (Repair.ComputePlan _ _) as [plan|er] eqn:Hp; [|by exists w].
    destruct (Repair.Run order plan _) as [st [w' db']] eqn:Hr. exists w'. split; [done|]. by eapply repair_kept.
  - destruct H as [st l c s' Hl| | |s1 opts r s' Hl HC Hq H]; [|by exists w..|]; [rewrite (requireLeader_same _ _ _ Hl); by exists w|].
    eapply repaired_kept; [done|exact H|by exists w].
  - destruct H as [e He Hf|r s' He H]; [by exists w|]. eapply repaired_kept; [done|exact H|by exists w].
Qed.
End theorems.


(** ** A concrete history *)
Definition w_rb_coord : @CoordServer (gmap string) :=
  MkCoord Rebalance.w_rb_db (Placement.New []) (Some Rebalance.w_rb_cluster) None false false.
Definition w_silent (_ : string) : dn_answers := MkAnswers None (λ _, None) None.
