(* ===== verification/GoTime.v ===== *)
(** * time.ParseDuration

    A duration is a count of nanoseconds in 64 bits; its text a sequence of decimal numbers
    with units.  A fraction is scaled in binary64, which SpecFloat computes on integers. *)
From S2P Require Import Prelude GF GoLib.
From Stdlib Require Import Strings.Ascii Floats.SpecFloat.
#[local] Open Scope Z_scope.

(** ** float64 *)
Definition f64_of (z : Z) : spec_float := binary_normalize 53 1024 z 0 false.
Definition f64_mul : spec_float → spec_float → spec_float := SFmul 53 1024.
Definition f64_div : spec_float → spec_float → spec_float := SFdiv 53 1024.
(** [uint64(x)] for an [x] that is in range. *)
Definition uint64_of_f64 (x : spec_float) : Z :=
  match x with S754_finite false m e => Z.shiftl (Zpos m) e | _ => 0 end.

(** ** Numbers *)
Definition digit_of (c : ascii) : Z := Z.of_N (N_of_ascii c) - 48.
(** [None]: more than 2^63. *)
Fixpoint leadingInt (l : list ascii) (x : Z) : option (Z * list ascii) :=
  match l with
  | [] => Some (x, [])
  | c :: t =>
      if negb (is_digit c) then Some (x, l)
      else if 2 ^ 63 / 10 <? x then None
      else let x := x * 10 + digit_of c in if 2 ^ 63 <? x then None else leadingInt t x
  end.
(** Digits that do not fit are skipped. *)
Fixpoint leadingFraction (l : list ascii) (x : Z) (scale : spec_float) (overflow : bool) : Z * spec_float * list ascii :=
  match l with
  | [] => (x, scale, [])
  | c :: t =>
      if negb (is_digit c) then (x, scale, l)
      else if overflow || ((2 ^ 63 - 1) / 10 <? x) then leadingFraction t x scale true
      else let y := x * 10 + digit_of c in
        if 2 ^ 63 <? y then leadingFraction t x scale true else leadingFraction t y (f64_mul scale (f64_of 10)) false
  end.

(** ** Units *)
Fixpoint take_unit (l : list ascii) : list ascii * list ascii :=
  match l with
  | c :: t => if Ascii.eqb c "." || is_digit c then ([], l) else let '(u, r) := take_unit t in (c :: u, r)
  | [] => ([], [])
  end.
(** Micro is written with u, with the micro sign or with the Greek letter. *)
Definition micro (c : N) : string := String (ascii_of_N (if (c =? 0)%N then 194 else 206)) (String (ascii_of_N (if (c =? 0)%N then 181 else 188)) "s").
Definition unitMap : list (string * Z) :=
  [("ns", 1); ("us", 1000); (micro 0, 1000); (micro 1, 1000); ("ms", 1000000); ("s", 1000000000);
   ("m", 60000000000); ("h", 3600000000000)]%string.
Fixpoint unit_of (m : list (string * Z)) (u : string) : option Z :=
  match m with [] => None | (k, v) :: m => if bool_decide (k = u) then Some v else unit_of m u end.

(** ** Durations *)
(** One number with its unit: the nanoseconds and what follows. *)
Definition duration_part (l : list ascii) : option (Z * list ascii) :=
  c ← head l;
  if negb (Ascii.eqb c "." || is_digit c) then None
  else
    '(v, r) ← leadingInt l 0;
    let pre := negb (length r =? length l)%nat in
    let '(f, scale, post, r) :=
      match r with
      | c :: t =>
          if Ascii.eqb c "."
          then let '(f, scale, r) := leadingFraction t 0 (f64_of 1) false in (f, scale, negb (length r =? length t)%nat, r)
          else (0, f64_of 1, false, r)
      | [] => (0, f64_of 1, false, r)
      end in
    if negb pre && negb post then None
    else
      let '(u, r) := take_unit r in
      unit ← unit_of unitMap (String.string_of_list_ascii u);
      if 2 ^ 63 / unit <? v then None
      else
        let v := v * unit in
        let v := if 0 <? f then v + uint64_of_f64 (f64_mul (f64_of f) (f64_div (f64_of unit) scale)) else v in
        if 2 ^ 63 <? v then None else Some (v, r).
(** Every part takes at least a byte: the length is enough fuel. *)
Fixpoint duration_loop (fuel : nat) (l : list ascii) (d : Z) : option Z :=
  match l, fuel with
  | [], _ => Some d
  | _, O => None
  | _, S fuel =>
      '(v, r) ← duration_part l;
      let d := u64 (d + v) in
      if 2 ^ 63 <? d then None else duration_loop fuel r d
  end.
Definition ParseDuration (s : string) : option Z :=
  let l := chars s in
  let '(neg, l) := match l with
                   | c :: t => if Ascii.eqb c "-" then (true, t) else if Ascii.eqb c "+" then (false, t) else (false, l)
                   | [] => (false, l)
                   end in
  if bool_decide (l = ["0"%char]) then Some 0
  else if bool_decide (l = []) then None
  else
    d ← duration_loop (length l) l 0;
    if (neg : bool) then Some (i64 (- d)) else if 2 ^ 63 - 1 <? d then None else Some d.

Example duration_mixed : ParseDuration "1h15m30.918s" = Some 4530918000000.
Proof. vm_compute. reflexivity. Qed.
Example duration_third : ParseDuration "-.3333333333333333333h" = Some (-1200000000000).
Proof. vm_compute. reflexivity. Qed.
Example duration_half : ParseDuration "2.5ms" = Some 2500000 ∧ ParseDuration "0.0000005s" = Some 500 ∧ ParseDuration (String.append "7" (micro 1)) = Some 7000.
Proof. vm_compute. done. Qed.
Example duration_errors : ParseDuration "" = None ∧ ParseDuration "5" = None ∧ ParseDuration "." = None ∧ ParseDuration "1x" = None ∧
  ParseDuration "9223372036854775808ns" = None ∧ ParseDuration "-9223372036854775808ns" = Some (- 2 ^ 63).
Proof. vm_compute. done. Qed.

(** ** Whole numbers of a unit *)
Lemma uint_loop_digits d x v : uint_loop d x = (v, true) → Forall (λ c, is_digit c = true) d.
Proof.
  revert x. induction d as [|c d IH]; intros x; cbn [uint_loop]; [done|].
  destruct (is_digit c) eqn:Hc; [|done]. cbn [negb]. cbv zeta. destruct (max_u64 <? _)%Z; [done|]. intros H. constructor; [done|by eapply IH].
Qed.
Lemma digit_of_nonneg c : is_digit c = true → 0 ≤ digit_of c ≤ 9.
Proof. unfold is_digit, digit_of. intros [H1%N.leb_le H2%N.leb_le]%andb_true_iff. lia. Qed.
Lemma uint_loop_grows d x v : 0 ≤ x → uint_loop d x = (v, true) → x ≤ v.
Proof.
  revert x. induction d as [|c d IH]; intros x Hx; cbn [uint_loop]; [intros [= <-]; lia|].
  destruct (is_digit c) eqn:Hc; [|done]. cbn [negb]. cbv zeta. destruct (max_u64 <? _)%Z; [done|].
  fold (digit_of c). pose proof (digit_of_nonneg c Hc). intros Hl%IH; lia.
Qed.
(** A run of digits is read to its end. *)
Lemma leadingInt_uint_loop d r x v : 0 ≤ x → uint_loop d x = (v, true) → v ≤ 2 ^ 63 →
  (∀ c, head r = Some c → is_digit c = false) → leadingInt (d ++ r) x = Some (v, r).
Proof.
  intros Hx Hd Hv Hr. revert x Hx Hd. induction d as [|c d IH]; intros x Hx; cbn [uint_loop app].
  - intros [= <-]. destruct r as [|c r]; [done|]. cbn [leadingInt]. by rewrite (Hr c eq_refl).
  - cbn [leadingInt]. destruct (is_digit c) eqn:Hc; [|done]. cbn [negb]. cbv zeta. destruct (max_u64 <? _)%Z; [done|].
    fold (digit_of c). pose proof (digit_of_nonneg c Hc). intros Hl. pose proof (uint_loop_grows d (x * 10 + digit_of c) v ltac:(lia) Hl).
    destruct (Z.ltb_spec (2 ^ 63 / 10) x) as [H1|_];
      [pose proof (Z.div_le_lower_bound (2 ^ 63) 10 x); lia|].
    destruct (Z.ltb_spec (2 ^ 63) (x * 10 + digit_of c)); [lia|]. apply IH; [lia|done].
Qed.
Lemma uint_loop_itoa n : 0 ≤ n ≤ max_u64 → uint_loop (chars (itoa n)) 0 = (n, true) ∧ itoa n ≠ ""%string.
Proof.
  intros Hn. pose proof (ParseUint_itoa n Hn) as H. unfold ParseUint in H. case_bool_decide; [|done].
  exfalso. destruct n as [|p|p]; [done| |lia]. unfold itoa in *. cbn in *. by destruct (Pos.to_uint p).
Qed.

(** A whole number and its unit read as their product when that fits. *)
Lemma ParseDuration_whole n u unit : 0 ≤ n → n * unit < 2 ^ 63 → unit_of unitMap u = Some unit →
  ParseDuration (itoa n ++ u) = Some (n * unit).
Proof.
  intros Hn Hfit Hu.
  assert (0 < unit ∧ take_unit (chars u) = (chars u, []) ∧ String.string_of_list_ascii (chars u) = u ∧
    ∃ a t, chars u = a :: t ∧ is_digit a = false ∧ Ascii.eqb a "." = false) as (Hpos & Htake & Hstr & a & t & Ha & Hda & Hdot).
  { clear -Hu. unfold unitMap in Hu. cbn [unit_of] in Hu.
    repeat (case_bool_decide; [subst u; injection Hu as <-; split_and!; [reflexivity..|by eexists _, _]|]). done. }
  destruct (uint_loop_itoa n) as [Hloop Hnil]; [unfold max_u64; nia|].
  pose proof (uint_loop_digits _ _ _ Hloop) as Hdig. unfold ParseDuration. rewrite chars_app.
  destruct (chars (itoa n)) as [|c d] eqn:Hc; [by destruct (itoa n)|]. cbn [app]. apply Forall_cons in Hdig as [Hdc _].
  assert (Ascii.eqb c "-" = false ∧ Ascii.eqb c "+" = false) as [-> ->]
    by (split; apply Ascii.eqb_neq; intros ->; done).
  rewrite bool_decide_eq_false_2 by (rewrite Ha; destruct d; discriminate). rewrite bool_decide_eq_false_2 by done.
  assert (duration_part (c :: d ++ chars u) = Some (n * unit, [])) as Hpart.
  { unfold duration_part. cbn [head mbind option_bind]. rewrite Hdc, orb_true_r. cbn [negb].
    change (c :: d ++ chars u) with ((c :: d) ++ chars u).
    rewrite (leadingInt_uint_loop _ _ _ _ (Z.le_refl 0) Hloop) by (rewrite ?Ha; cbn; try nia; by intros ? [= <-]).
    rewrite Ha at 1. cbn [mbind option_bind]. rewrite Hdot, <- Ha. rewrite length_app.
    rewrite (proj2 (Nat.eqb_neq _ _)) by (cbn [length]; lia). cbn [negb andb]. rewrite Htake, Hstr, Hu. cbn [mbind option_bind].
    destruct (Z.ltb_spec (2 ^ 63 `div` unit) n) as [H1|_].
    { pose proof (Z.div_le_lower_bound (2 ^ 63) unit n). lia. }
    cbn [Z.ltb Z.compare]. destruct (Z.ltb_spec (2 ^ 63) (n * unit)); [lia|done]. }
  cbn [duration_loop length]. rewrite Hpart. cbn [mbind option_bind]. rewrite u64_small by lia.
  destruct (Z.ltb_spec (2 ^ 63) (0 + n * unit)); [lia|].
  replace (duration_loop (length (d ++ chars u)) [] (0 + n * unit)) with (Some (0 + n * unit)) by (by destruct (length (d ++ chars u))).
  cbn [mbind option_bind]. destruct (Z.ltb_spec (2 ^ 63 - 1) (0 + n * unit)); [lia|done].
Qed.
(** Nothing a duration may hold is out of range. *)
Lemma duration_loop_range fuel l d d' : 0 ≤ d ≤ 2 ^ 63 → duration_loop fuel l d = Some d' → 0 ≤ d' ≤ 2 ^ 63.
Proof.
  revert l d. induction fuel as [|fuel IH]; intros [|c l] d Hd; cbn [duration_loop]; try (by intros [= <-]).
  destruct (duration_part (c :: l)) as [[v r]|]; [|done]. cbn [mbind option_bind]. cbv zeta.
  destruct (Z.ltb_spec (2 ^ 63) (u64 (d + v))); [done|]. apply IH. split; [unfold u64; apply Z.mod_pos_bound; lia|lia].
Qed.
Lemma ParseDuration_range s d : ParseDuration s = Some d → int64_ok d = true.
Proof.
  unfold ParseDuration, int64_ok. destruct (match chars s with [] => _ | _ => _ end) as [neg l].
  case_bool_decide; [by intros [= <-]|]. case_bool_decide; [done|]. intros (v & Hv & Hd)%bind_Some.
  apply duration_loop_range in Hv; [|lia]. apply andb_true_iff. rewrite Z.leb_le, Z.ltb_lt. destruct neg.
  - injection Hd as <-. unfold i64. pose proof (Z.mod_pos_bound (- v + 2 ^ 63) (2 ^ 64) ltac:(lia)). lia.
  - destruct (Z.ltb_spec (2 ^ 63 - 1) v); [done|]. injection Hd as <-. lia.
Qed.
