(* ===== verification/EdgeStart.v ===== *)
(** * The start of an edge: cmd/kvfs-edge/main.go

    [main] reads flags and environment, opens the metadata store and assembles the edge from
    the other components; it stops at the first value it cannot use.  The flag package turns
    the command line into values ([arg]).  [world] is what it meets outside: files,
    certificates and the coord daemon.  What [main] wrote to its store before it stopped stays there. *)
From S2P Require Import Prelude GF GoLib GoTime UrlKey Kv Meta Store Wal Replay Snapshots Follower Placement.
From S2P Require Import Coordinator Election KeyAdmin EdgeJobs EdgeDNs CoordClient.
From S2P Require Heartbeat Chunker.
From Stdlib Require Import Strings.Byte.
#[local] Open Scope string_scope.

(** ** Flags and environment *)
(** [EnvOr], [AtoiOr] of internal/cliutil. *)
Definition EnvOr (env : string → option string) (k def : string) : string := default def (env k).
Definition AtoiOr (s : string) (def : Z) : Z := default def (parse_int s).

Inductive arg : Type := ArgString (name v : string) | ArgInt (name : string) (v : Z) | ArgBool (name : string) (v : bool).
(** The last value of a flag counts. *)
Definition flag_String (args : list arg) (name def : string) : string :=
  foldl (λ v a, match a with ArgString n x => if bool_decide (n = name) then x else v | _ => v end) def args.
Definition flag_Int (args : list arg) (name : string) (def : Z) : Z :=
  foldl (λ v a, match a with ArgInt n x => if bool_decide (n = name) then x else v | _ => v end) def args.
Definition flag_Bool (args : list arg) (name : string) (def : bool) : bool :=
  foldl (λ v a, match a with ArgBool n x => if bool_decide (n = name) then x else v | _ => v end) def args.
Definition was_set (args : list arg) (name : string) : bool :=
  existsb (λ a, match a with ArgString n _ => bool_decide (n = name) | _ => false end) args.

Record EdgeFlags : Type := MkEdgeFlags
  { fAddr : string; fDNs : string; fDataDir : string; fSecret : string; fS3AccessKey : string; fS3SecretKey : string;
    fS3Region : string; fQuorum : Z; fChunk : Z; fAuto : bool; fAutoRb : string; fAutoGC : string; fAutoMin : string;
    fAutoCnc : Z; fSkip : bool; fHB : string; fHBFail : Z; fSnapDir : string; fSnapInt : string; fSnapKp : Z;
    fChunkMd : string; fPoolCap : Z; fPeers : string; fSelfURL : string; fElectHB : string; fElectMin : string;
    fElectMax : string; fWALPath : string; fWALBatch : string; fMetrics : bool; fStrict : bool; fTxnRaft : bool;
    fPrefer : string; fCoordURL : string; fURLKeyPoll : string; fLookupCache : string; fRole : string; fPrim : string;
    fPullInt : string }.
Definition parse_flags (args : list arg) (env : string → option string) : EdgeFlags :=
  let str name k def := flag_String args name (EnvOr env k def) in
  let int name k def text := flag_Int args name (AtoiOr (EnvOr env k text) def) in
  let bool name k def := flag_Bool args name (bool_decide (EnvOr env k def = "1")) in
  {| fAddr := str "addr" "EDGE_ADDR" ":8000";
     fDNs := str "dns" "EDGE_DNS" "";
     fDataDir := str "data-dir" "EDGE_DATA_DIR" "./edge-data";
     fSecret := str "secret" "EDGE_URLKEY_SECRET" "";
     fS3AccessKey := str "s3-access-key" "EDGE_S3_ACCESS_KEY" "";
     fS3SecretKey := if was_set args "s3-secret-key" then flag_String args "s3-secret-key" "" else EnvOr env "EDGE_S3_SECRET_KEY" "";
     fS3Region := str "s3-region" "EDGE_S3_REGION" "us-east-1";
     fQuorum := int "quorum" "EDGE_QUORUM_WRITE" 0%Z "0";
     fChunk := int "chunk-size" "EDGE_CHUNK_SIZE" 0%Z "0";
     fAuto := bool "auto" "EDGE_AUTO" "";
     fAutoRb := str "auto-rebalance-interval" "EDGE_AUTO_REBALANCE_INTERVAL" "5m";
     fAutoGC := str "auto-gc-interval" "EDGE_AUTO_GC_INTERVAL" "15m";
     fAutoMin := str "auto-gc-min-age" "EDGE_AUTO_GC_MIN_AGE" "60s";
     fAutoCnc := int "auto-concurrency" "EDGE_AUTO_CONCURRENCY" 4%Z "4";
     fSkip := bool "skip-auth" "EDGE_SKIP_AUTH" "";
     fHB := str "heartbeat-interval" "EDGE_HEARTBEAT_INTERVAL" "10s";
     fHBFail := int "heartbeat-fail-threshold" "EDGE_HEARTBEAT_FAIL_THRESHOLD" 3%Z "3";
     fSnapDir := str "snapshot-dir" "EDGE_SNAPSHOT_DIR" "";
     fSnapInt := str "snapshot-interval" "EDGE_SNAPSHOT_INTERVAL" "1h";
     fSnapKp := int "snapshot-keep" "EDGE_SNAPSHOT_KEEP" 7%Z "7";
     fChunkMd := str "chunk-mode" "EDGE_CHUNK_MODE" "fixed";
     fPoolCap := int "chunker-pool-cap-bytes" "EDGE_CHUNKER_POOL_CAP_BYTES" 0%Z "0";
     fPeers := str "peers" "EDGE_PEERS" "";
     fSelfURL := str "self-url" "EDGE_SELF_URL" "";
     fElectHB := str "election-heartbeat-interval" "EDGE_ELECTION_HB_INTERVAL" "500ms";
     fElectMin := str "election-timeout-min" "EDGE_ELECTION_TIMEOUT_MIN" "1500ms";
     fElectMax := str "election-timeout-max" "EDGE_ELECTION_TIMEOUT_MAX" "3000ms";
     fWALPath := str "wal-path" "EDGE_WAL_PATH" "";
     fWALBatch := str "wal-batch-interval" "EDGE_WAL_BATCH_INTERVAL" "";
     fMetrics := bool "metrics" "EDGE_METRICS" "1";
     fStrict := bool "strict-repl" "EDGE_STRICT_REPL" "";
     fTxnRaft := bool "transactional-raft" "EDGE_TRANSACTIONAL_RAFT" "";
     fPrefer := str "placement-prefer-class" "EDGE_PLACEMENT_PREFER" "";
     fCoordURL := str "coord-url" "EDGE_COORD_URL" "";
     fURLKeyPoll := str "urlkey-poll-interval" "EDGE_COORD_URLKEY_POLL_INTERVAL" "30s";
     fLookupCache := str "coord-lookup-cache-ttl" "EDGE_COORD_LOOKUP_CACHE_TTL" "";
     fRole := str "role" "EDGE_ROLE" "primary";
     fPrim := str "primary-url" "EDGE_PRIMARY_URL" "";
     fPullInt := str "follower-pull-interval" "EDGE_FOLLOWER_PULL_INTERVAL" "30s" |}.

(** ** What stops the start *)
Inductive fatal : Type :=
  | DNsRequired | SecretRequired | DataDirFailed | OpenFailed | WALBatchParse | WALOpen | RegistryFailed | DNTLSFailed
  | CoordinatorRefused (e : coord_error) | SignerFailed | S3KeysUnpaired | BadAutoDuration | BadHeartbeatInterval
  | BadSnapshotInterval | BadChunkMode | SelfURLMissing | BadElectionDuration | CoordUnreachable | BadCacheTTL
  | BadPullInterval | PrimaryURLMissing | BadRole | BadPollInterval.
Definition require {A} (e : fatal) (o : option A) : result fatal A := match o with Some a => Ok a | None => Err e end.

(** [buildDNTLSConfig]: the CA file and the client's key pair, if any, and the scheme to the data nodes. *)
Definition buildDNTLSConfig (env : string → option string) (LoadCertPool : string → bool) (LoadX509KeyPair : string → string → bool)
    : option (option (string * option (string * string)) * string) :=
  let caPath := EnvOr env "EDGE_DN_TLS_CA" "" in
  if bool_decide (caPath = "") then Some (None, "http")
  else if negb (LoadCertPool caPath) then None
  else
    let clientCert := EnvOr env "EDGE_DN_TLS_CLIENT_CERT" "" in
    let clientKey := EnvOr env "EDGE_DN_TLS_CLIENT_KEY" "" in
    if xorb (bool_decide (clientCert = "")) (bool_decide (clientKey = "")) then None
    else if bool_decide (clientCert = "") then Some (Some (caPath, None), "https")
    else if LoadX509KeyPair clientCert clientKey then Some (Some (caPath, Some (clientCert, clientKey)), "https")
    else None.

(** ** Settings that do not touch the store *)
(** An interval that does not parse stops the start only if the loops are to run. *)
Definition parseAutoDur (auto : bool) (raw : string) : result fatal Z :=
  match ParseDuration raw with Some d => Ok d | None => if auto then Err BadAutoDuration else Ok 0%Z end.
Definition auto_config (fl : EdgeFlags) : result fatal AutoConfig :=
  rb ←? parseAutoDur (fAuto fl) (fAutoRb fl);
  gci ←? parseAutoDur (fAuto fl) (fAutoGC fl);
  min ←? parseAutoDur (fAuto fl) (fAutoMin fl);
  Ok (MkAutoConfig (fAuto fl) rb gci min (fAutoCnc fl)).
Definition s3_credentials (fl : EdgeFlags) : result fatal (option (string * string)) :=
  if xorb (bool_decide (fS3AccessKey fl = "")) (bool_decide (fS3SecretKey fl = "")) then Err S3KeysUnpaired
  else Ok (if bool_decide (fS3AccessKey fl = "") then None else Some (fS3AccessKey fl, fS3SecretKey fl)).
Definition heartbeat_monitor (fl : EdgeFlags) : result fatal (option (Heartbeat.Monitor * Z)) :=
  hb ←? require BadHeartbeatInterval (ParseDuration (fHB fl));
  Ok (if (0 <? hb)%Z then Some (Heartbeat.New (fHBFail fl) (2 * second)%Z, hb) else None).
Definition snapshot_scheduler (fl : EdgeFlags) : result fatal (option (string * SnapshotScheduler)) :=
  if bool_decide (fSnapDir fl = "") then Ok None
  else
    int ←? require BadSnapshotInterval (ParseDuration (fSnapInt fl));
    Ok (Some (fSnapDir fl, NewSnapshotScheduler int (fSnapKp fl))).
Definition chunk_mode (fl : EdgeFlags) : result fatal bool :=
  if bool_decide (fChunkMd fl = "fixed") || bool_decide (fChunkMd fl = "") then Ok false
  else if bool_decide (fChunkMd fl = "cdc") then Ok true
  else Err BadChunkMode.
(** No LastLogSeqFn is set: the elector's votes do not see the log. *)
Definition edge_elector (now : Z) (fl : EdgeFlags) : result fatal (option Elector) :=
  if bool_decide (fPeers fl = "") then Ok None
  else if bool_decide (fSelfURL fl = "") then Err SelfURLMissing
  else
    hb ←? require BadElectionDuration (ParseDuration (fElectHB fl));
    tmin ←? require BadElectionDuration (ParseDuration (fElectMin fl));
    tmax ←? require BadElectionDuration (ParseDuration (fElectMax fl));
    Ok (Some (Election.New (Election.MkConfig (fSelfURL fl) ((λ u, MkPeer u u) <$> SplitCSV (fPeers fl)) hb tmin tmax 0) now)).
(** What the log's hook does with an entry of a leader. *)
Inductive wal_hook : Type := NoHook | PushInBackground | PushAndWait.
Definition hook_of (elector : option Elector) (fl : EdgeFlags) : wal_hook :=
  match elector with None => NoHook | Some _ => if fStrict fl then PushAndWait else PushInBackground end.
Definition coord_client (healthy : string → bool) (fl : EdgeFlags) : result fatal (option CoordClient) :=
  if bool_decide (fCoordURL fl = "") then Ok None
  else if negb (healthy (fCoordURL fl)) then Err CoordUnreachable
  else if bool_decide (fLookupCache fl = "") then Ok (Some (NewCoordClient (fCoordURL fl)))
  else
    ttl ←? require BadCacheTTL (ParseDuration (fLookupCache fl));
    Ok (Some (SetLookupCache ttl (NewCoordClient (fCoordURL fl)))).
(** The loop that pulls from another edge. *)
Inductive sync_mode : Type := NoSync | FollowURL (url dir : string) (interval : Z) | FollowLeader (dir : string) (interval : Z).
Definition pull_interval (d : Z) : Z := if (d <=? 0)%Z then (30 * second)%Z else d.
Definition role_of (elector : option Elector) (fl : EdgeFlags) : result fatal (Role * sync_mode) :=
  match elector with
  | Some _ =>
      d ←? require BadPullInterval (ParseDuration (fPullInt fl));
      Ok (RolePrimary, FollowLeader (fDataDir fl) (pull_interval d))
  | None =>
      if bool_decide (fRole fl = "primary") then Ok (RolePrimary, NoSync)
      else if bool_decide (fRole fl = "follower") then
        if bool_decide (fPrim fl = "") then Err PrimaryURLMissing
        else
          d ←? require BadPullInterval (ParseDuration (fPullInt fl));
          Ok (RoleFollower, FollowURL (fPrim fl) (fDataDir fl) (pull_interval d))
      else Err BadRole
  end.
Definition key_poll (client : option CoordClient) (fl : EdgeFlags) : result fatal (option Z) :=
  match client with
  | None => Ok None
  | Some _ =>
      d ←? require BadPollInterval (ParseDuration (fURLKeyPoll fl));
      Ok (if (0 <? d)%Z then Some d else None)
  end.

Section start.
Context {M : Type → Type} {KVM : KV M} {HKV : KVLaws M}.

(** ** Steps on the store *)
Definition start_registry (env : string → option string) (fl : EdgeFlags) (now : Z) (db : @DB M) : result fatal (list string) * DB :=
  match boot_dns (fDNs fl) (bool_decide (EnvOr env "EDGE_DNS_RESET" "" = "1")) now db with
  | Some (dns, db) => (Ok dns, db)
  | None => (Err RegistryFailed, db)
  end.
Definition start_coordinator (fl : EdgeFlags) (dns : list string) (scheme : string) : result fatal Coordinator :=
  match Coordinator.New (Coordinator.MkConfig (node_of <$> dns) 3 (fQuorum fl) (10 * second) scheme) with
  | Ok c => Ok c
  | Err e => Err (CoordinatorRefused e)
  end.
(** The key seeded into an empty registry stays there when the signer cannot be built. *)
Definition start_signer (env : string → option string) (fl : EdgeFlags) (now : Z) (db : @DB M) : result fatal (option Signer) * DB :=
  if fSkip fl then (Ok None, db)
  else
    let secret := bytes_of (fSecret fl) in
    match boot_signer secret (EnvOr env "EDGE_URLKEY_PRIMARY_KID" "") now db with
    | Some ka => (Ok (ka_Signer ka), ka_Store ka)
    | None => (Err SignerFailed, (boot_entries secret now db).2)
    end.

(** ** main *)
(** [w_wal]: the log at a path, when it opens; [w_healthy]: whether a coord daemon answers there. *)
Record world : Type := MkWorld
  { w_mkdir : bool; w_opens : bool; w_wal : string → option (list (tok walop)); w_pool : string → bool;
    w_pair : string → string → bool; w_healthy : string → bool }.
Record StartedEdge : Type := MkStarted
  { sv_Store : @DB M; sv_WAL : option (WAL walop); sv_Hook : wal_hook; sv_Coord : Coordinator; sv_Signer : option Signer;
    sv_S3Credentials : option (string * string); sv_S3Region : string; sv_ChunkSize : Z; sv_PoolCap : Z; sv_AutoCfg : AutoConfig;
    sv_SkipAuth : bool; sv_Heartbeat : option (Heartbeat.Monitor * Z); sv_SnapshotScheduler : option (string * SnapshotScheduler);
    sv_CDCEnabled : bool; sv_Elector : option Elector; sv_StrictReplication : bool; sv_PreferClass : string;
    sv_CoordClient : option CoordClient; sv_Role : Role; sv_Sync : sync_mode; sv_KeyPoll : option Z; sv_Metrics : bool;
    sv_HTTPS : bool }.

Definition start_wal (w : world) (fl : EdgeFlags) : result fatal (option (WAL walop)) :=
  if bool_decide (fWALPath fl = "") then Ok None
  else
    batch ←? (if bool_decide (fWALBatch fl = "") then Ok 0%Z else require WALBatchParse (ParseDuration (fWALBatch fl)));
    f ←? require WALOpen (w_wal w (fWALPath fl));
    Ok (Some (OpenWALWithBatch f (0 <? batch)%Z)).
(** Before the store is written: flags, files and the log. *)
Definition open_files (w : world) (fl : EdgeFlags) : result fatal (option (WAL walop)) :=
  if bool_decide (fDNs fl = "") then Err DNsRequired
  else if negb (fSkip fl) && bool_decide (fSecret fl = "") then Err SecretRequired
  else if negb (w_mkdir w) then Err DataDirFailed
  else if negb (w_opens w) then Err OpenFailed
  else start_wal w fl.
(** After it: the rest of the configuration. *)
Definition assemble (w : world) (env : string → option string) (fl : EdgeFlags) (now : Z) (wal : option (WAL walop))
    (coord : Coordinator) (signer : option Signer) (db : @DB M) : result fatal StartedEdge :=
  s3 ←? s3_credentials fl;
  auto ←? auto_config fl;
  hb ←? heartbeat_monitor fl;
  snap ←? snapshot_scheduler fl;
  cdc ←? chunk_mode fl;
  elector ←? edge_elector now fl;
  client ←? coord_client (w_healthy w) fl;
  let auto := match client with
              | Some _ => MkAutoConfig false (RebalanceInterval auto) (GCInterval auto) (GCMinAge auto) (Concurrency auto)
              | None => auto
              end in
  '(role, sync) ←? role_of elector fl;
  poll ←? key_poll client fl;
  Ok {| sv_Store := db; sv_WAL := wal; sv_Hook := hook_of elector fl; sv_Coord := coord; sv_Signer := signer;
        sv_S3Credentials := s3; sv_S3Region := fS3Region fl;
        sv_ChunkSize := if (fChunk fl <=? 0)%Z then Z.of_nat Chunker.DefaultChunkSize else fChunk fl;
        sv_PoolCap := fPoolCap fl; sv_AutoCfg := auto; sv_SkipAuth := fSkip fl; sv_Heartbeat := hb;
        sv_SnapshotScheduler := snap; sv_CDCEnabled := cdc; sv_Elector := elector; sv_StrictReplication := fTxnRaft fl;
        sv_PreferClass := fPrefer fl; sv_CoordClient := client; sv_Role := role; sv_Sync := sync; sv_KeyPoll := poll;
        sv_Metrics := fMetrics fl;
        sv_HTTPS := negb (bool_decide (EnvOr env "EDGE_TLS_CERT" "" = "")) && negb (bool_decide (EnvOr env "EDGE_TLS_KEY" "" = "")) |}.
Definition edge_main (w : world) (args : list arg) (env : string → option string) (now : Z) (db : @DB M)
    : result fatal StartedEdge * DB :=
  let fl := parse_flags args env in
  match open_files w fl with
  | Err e => (Err e, db)
  | Ok wal =>
      match start_registry env fl now db with
      | (Err e, db) => (Err e, db)
      | (Ok dns, db) =>
          match require DNTLSFailed (buildDNTLSConfig env (w_pool w) (w_pair w)) with
          | Err e => (Err e, db)
          | Ok (_, scheme) =>
              match start_coordinator fl dns scheme with
              | Err e => (Err e, db)
              | Ok coord =>
                  match start_signer env fl now db with
                  | (Err e, db) => (Err e, db)
                  | (Ok signer, db) => (assemble w env fl now wal coord signer db, db)
                  end
              end
          end
      end
  end.

(** ** The file an edge writes *)
(** A sync renames a snapshot into place and reopens the store on it; the start opens edge.db. *)
Record EdgeDisk : Type := MkEdgeDisk { d_main : @DB M; d_sync : option (@DB M) }.
Definition disk_store (d : EdgeDisk) : @DB M := default (d_main d) (d_sync d).
Definition reload (snapshot : @DB M) (d : EdgeDisk) : EdgeDisk := MkEdgeDisk (d_main d) (Some snapshot).
Definition write (db : @DB M) (d : EdgeDisk) : EdgeDisk :=
  match d_sync d with None => MkEdgeDisk db None | Some _ => MkEdgeDisk (d_main d) (Some db) end.
Definition restart (d : EdgeDisk) : EdgeDisk := MkEdgeDisk (d_main d) None.
End start.
