(* ===== verification/EdgeStartTheorems.v ===== *)
(** * The start of an edge: its contract (EdgeStart.v) *)
From S2P Require Import Prelude GF GoLib GoTime UrlKey Kv Meta Store StoreProps Wal Replay Snapshots.
From S2P Require Import Follower Placement Coordinator Election KeyAdmin EdgeJobs EdgeDNs EdgeDNTheorems.
From S2P Require Import CoordClient EdgeStart.
From S2P Require Heartbeat Chunker.
From Stdlib Require Import Strings.Byte.
#[local] Open Scope string_scope.

Lemma require_ok {A} e (o : option A) a : require e o = Ok a → o = Some a.
Proof. by destruct o; [intros [= ->]|]. Qed.

Section start.
Context {M : Type → Type} {KVM : KV M} {HKV : KVLaws M}.

(** ** What a start went through *)
Record start_path (w : world) (env : string → option string) (fl : EdgeFlags) (now : Z) (db : @DB M) (s : StartedEdge) (db' : @DB M)
    (wal : option (WAL walop)) (dns : list string) (db1 : @DB M) (tls : option (string * option (string * string))) (scheme : string)
    (c : Coordinator) (sg : option Signer) : Prop := MkPath
  { p_files : open_files w fl = Ok wal;
    p_dns : boot_dns (fDNs fl) (bool_decide (EnvOr env "EDGE_DNS_RESET" "" = "1")) now db = Some (dns, db1);
    p_tls : buildDNTLSConfig env (w_pool w) (w_pair w) = Some (tls, scheme);
    p_coord : start_coordinator fl dns scheme = Ok c;
    p_signer : start_signer env fl now db1 = (Ok sg, db');
    p_server : assemble w env fl now wal c sg db' = Ok s }.
Lemma edge_main_path w args env now (db db' : @DB M) s : edge_main w args env now db = (Ok s, db') →
  ∃ wal dns db1 tls scheme c sg, start_path w env (parse_flags args env) now db s db' wal dns db1 tls scheme c sg.
Proof.
  unfold edge_main. destruct (open_files _ _) as [wal|] eqn:H1; [|done]. unfold start_registry.
  destruct (boot_dns _ _ _ _) as [[dns db1]|] eqn:H2; [|done].
  destruct (buildDNTLSConfig _ _ _) as [[tls scheme]|] eqn:H3; [|done]. cbn [require].
  destruct (start_coordinator _ _ _) as [c|] eqn:H4; [|done].
  destruct (start_signer _ _ _ _) as [[sg|] db2] eqn:H5; [|done]. intros [= H6 <-]. by exists wal, dns, db1, tls, scheme, c, sg.
Qed.
(** A path is a start. *)
Lemma path_edge_main w args env now (db db' : @DB M) s wal dns db1 tls scheme c sg :
  start_path w env (parse_flags args env) now db s db' wal dns db1 tls scheme c sg → edge_main w args env now db = (Ok s, db').
Proof. intros [H1 H2 H3 H4 H5 H6]. unfold edge_main, start_registry. by rewrite H1, H2, H3; cbn [require]; rewrite H4, H5, H6. Qed.

Record assembled (w : world) (env : string → option string) (fl : EdgeFlags) (now : Z) (wal : option (WAL walop))
    (c : Coordinator) (sg : option Signer) (db : @DB M) (s : StartedEdge) : Prop := MkAssembled
  { a_store : sv_Store s = db ∧ sv_WAL s = wal ∧ sv_Coord s = c ∧ sv_Signer s = sg ∧ sv_SkipAuth s = fSkip fl;
    a_s3 : s3_credentials fl = Ok (sv_S3Credentials s);
    a_auto : ∃ auto, auto_config fl = Ok auto ∧ Enabled (sv_AutoCfg s) = Enabled auto && bool_decide (sv_CoordClient s = None);
    a_hb : heartbeat_monitor fl = Ok (sv_Heartbeat s);
    a_elector : edge_elector now fl = Ok (sv_Elector s) ∧ sv_Hook s = hook_of (sv_Elector s) fl;
    a_client : coord_client (w_healthy w) fl = Ok (sv_CoordClient s);
    a_role : role_of (sv_Elector s) fl = Ok (sv_Role s, sv_Sync s);
    a_poll : key_poll (sv_CoordClient s) fl = Ok (sv_KeyPoll s);
    a_chunk : sv_ChunkSize s = if (fChunk fl <=? 0)%Z then Z.of_nat Chunker.DefaultChunkSize else fChunk fl }.
Lemma assemble_spec w env fl now wal c sg (db : @DB M) s : assemble w env fl now wal c sg db = Ok s → assembled w env fl now wal c sg db s.
Proof.
  unfold assemble. intros (s3 & H1 & (auto & H2 & (hb & H3 & (snap & H4 & (cdc & H5 & (el & H6 & (cl & H7 & ([role sync] & H8 & (poll & H9 & [= <-])%rbind_ok)%rbind_ok)%rbind_ok)%rbind_ok)%rbind_ok)%rbind_ok)%rbind_ok)%rbind_ok)%rbind_ok.
  split; cbn; try done. exists auto. split; [done|]. destruct cl; cbn; [|by rewrite andb_true_r]. by rewrite andb_false_r.
Qed.

(** ** The signer *)
Lemma PutURLKey_registry kid h prim now (db : @DB M) : dns_runtime (Store.PutURLKey kid h prim now db).2 = dns_runtime db.
Proof.
  unfold Store.PutURLKey. destruct (_ || _); [done|]. apply (Update_cases _ _ (λ r, dns_runtime r.2 = dns_runtime db)); [done|].
  by intros a db' (b & _ & (b' & _ & [= _ <-])%rbind_ok)%rbind_ok.
Qed.
Lemma boot_entries_registry secret now (db : @DB M) : dns_runtime (boot_entries secret now db).2 = dns_runtime db.
Proof.
  unfold boot_entries. destruct (Store.ListURLKeys db) as [[|e l]|e]; [|done..].
  pose proof (PutURLKey_registry DefaultKid (hex_encode secret) true now db) as H. by destruct (Store.PutURLKey _ _ _ _ _) as [[u|e] db1].
Qed.
Lemma start_signer_registry env fl now (db db' : @DB M) sg : start_signer env fl now db = (sg, db') → dns_runtime db' = dns_runtime db.
Proof.
  unfold start_signer, boot_signer. destruct (fSkip fl); [by intros [= _ <-]|].
  pose proof (boot_entries_registry (bytes_of (fSecret fl)) now db) as H.
  destruct (boot_entries _ _ _) as [[l|] db1]; [|by intros [= _ <-]]. cbn [snd] in H.
  destruct (_ ≫= _) as [ka|] eqn:Hk; [|by intros [= _ <-]]. intros [= _ <-]. rewrite <- H.
  apply bind_Some in Hk as ([ks prim] & _ & (p & _ & Hs)%bind_Some). destruct (NewMultiSigner _ _); [|done]. by injection Hs as <-.
Qed.
Lemma start_signer_ok env fl now (db db' : @DB M) sg : start_signer env fl now db = (Ok sg, db') →
  fSkip fl = true ∧ sg = None ∨ fSkip fl = false ∧ ∃ s, sg = Some s ∧ signer_ok s.
Proof.
  unfold start_signer, boot_signer. destruct (fSkip fl); [intros [= <- _]; by left|]. right. split; [done|].
  destruct (boot_entries _ _ _) as [[l|] db1]; [|done]. destruct (_ ≫= _) as [ka|] eqn:Hk; [|done]. revert H. intros [= <- _].
  apply bind_Some in Hk as ([ks prim] & _ & (p & _ & Hs)%bind_Some). destruct (NewMultiSigner _ _) as [s|] eqn:Hn; [|done].
  injection Hs as <-. exists s. split; [done|]. by eapply (proj1 (proj2 signer_invariant)).
Qed.
(** A second start reads what the first one seeded. *)
Lemma boot_signer_again secret secret' ov now now' (db : @DB M) ka : boot_signer secret ov now db = Some ka →
  boot_signer secret' ov now' (ka_Store ka) = Some ka.
Proof.
  unfold boot_signer. intros H. assert (∃ l db1, boot_entries secret now db = (Some l, db1)) as (l & db1 & Hb)
    by (destruct (boot_entries secret now db) as [[l|] db1]; [by eexists _, _|done]).
  rewrite Hb in H. apply bind_Some in H as ([ks prim] & Hk & (p & Hp & Hs)%bind_Some).
  destruct (NewMultiSigner _ _) as [sg|] eqn:Hn; [|done]. injection Hs as <-. cbn [ka_Store].
  assert (Store.ListURLKeys db1 = Ok l ∧ l ≠ []) as [Hl Hne].
  { assert (l ≠ []) as Hne. { intros ->. cbn in Hk. injection Hk as <- <-. by rewrite bool_decide_eq_true_2 in Hp by done. }
    split; [|done]. revert Hb. unfold boot_entries. destruct (Store.ListURLKeys db) as [[|e r]|e] eqn:E; [|by intros [= <- <-]|done].
    destruct (Store.PutURLKey _ _ _ _ _) as [[u|e] db2]; [|done]. intros [= <- <-]. by destruct (Store.ListURLKeys db2). }
  assert (boot_entries secret' now' db1 = (Some l, db1)) as -> by (unfold boot_entries; rewrite Hl; by destruct l).
  rewrite Hk. cbn [mbind option_bind]. rewrite Hp. cbn [mbind option_bind]. by rewrite Hn.
Qed.

(** ** The nodes *)
Lemma boot_dns_registry env reset now (db db1 : @DB M) dns : boot_dns env reset now db = Some (dns, db1) →
  ∀ a, a ∈ dns ↔ registered db1 a.
Proof.
  unfold boot_dns. destruct (_ || _).
  - destruct (_ =? 0)%nat; [done|]. destruct (SeedRuntimeDNs _ _ _) as [[r|e] d] eqn:Hs; [|done]. intros [= <- <-] a. symmetry. by eapply seed_registers.
  - intros [= <- <-] a. apply elem_of_ListRuntimeDNs.
Qed.
Lemma registered_same (db db' : @DB M) a : dns_runtime db' = dns_runtime db → registered db' a ↔ registered db a.
Proof. unfold registered. by intros ->. Qed.
Lemma start_coordinator_ok fl dns scheme c : start_coordinator fl dns scheme = Ok c → coord_of (fQuorum fl) scheme dns = Ok c.
Proof. unfold start_coordinator, coord_of. change (10 * second)%Z with (10 * 1000000000)%Z. destruct (Coordinator.New _); [by intros [= <-]|done]. Qed.
Lemma coord_of_config q scheme dns c : coord_of q scheme dns = Ok c → config_ok c.
Proof. intros H. by apply (coordinator_config _ c [] H). Qed.

(** ** Settings *)
Lemma heartbeat_ok fl m d : heartbeat_monitor fl = Ok (Some (m, d)) → (0 < d)%Z ∧ (0 < Heartbeat.failThreshold m)%Z.
Proof.
  unfold heartbeat_monitor. intros (hb & _ & H)%rbind_ok. destruct (Z.ltb_spec 0 hb); [|done]. injection H as <- <-. split; [done|].
  cbn. destruct (Z.leb_spec (fHBFail fl) 0); lia.
Qed.
Lemma pull_interval_pos d : (0 < pull_interval d)%Z.
Proof. unfold pull_interval, second. destruct (Z.leb_spec d 0); lia. Qed.
(** How the roles pull. *)
Definition pulls (elector : option Elector) (role : Role) (sync : sync_mode) : Prop :=
  match elector, role, sync with
  | Some _, RolePrimary, FollowLeader _ d => (0 < d)%Z
  | None, RolePrimary, NoSync => True
  | None, RoleFollower, FollowURL url _ d => url ≠ "" ∧ (0 < d)%Z
  | _, _, _ => False
  end.
Lemma role_of_ok elector fl role sync : role_of elector fl = Ok (role, sync) → pulls elector role sync.
Proof.
  unfold role_of, pulls. destruct elector as [e|]; [intros (d & _ & [= <- <-])%rbind_ok; apply pull_interval_pos|].
  case_bool_decide; [by intros [= <- <-]|]. case_bool_decide; [|done]. case_bool_decide as Hp; [done|].
  intros (d & _ & [= <- <-])%rbind_ok. split; [done|apply pull_interval_pos].
Qed.
Lemma s3_credentials_ok fl id sec : s3_credentials fl = Ok (Some (id, sec)) → id ≠ "" ∧ sec ≠ "".
Proof. unfold s3_credentials. do 2 case_bool_decide; try done. by intros [= <- <-]. Qed.
End start.

(** C14: an edge that starts is safe to serve.  Unless told to skip authentication it has a
    signer whose primary key and every other key is usable, it has both S3 keys or none, its
    quorum is between one and its three replicas and its nodes are those of the registry, a
    follower knows whom to pull from and a primary pulls from nobody, an edge in front of a
    coord daemon does not run the maintenance loops, which would read its empty store, and
    every interval and size it works with is positive. *)
Theorem started_edge_is_configured {M : Type → Type} {KVM : KV M} {HKV : KVLaws M} w args env now (db db' : @DB M) s :
  edge_main w args env now db = (Ok s, db') →
  sv_Store s = db' ∧
  (sv_SkipAuth s = false → ∃ sg, sv_Signer s = Some sg ∧ signer_ok sg) ∧
  (∀ id sec, sv_S3Credentials s = Some (id, sec) → id ≠ "" ∧ sec ≠ "") ∧
  config_ok (sv_Coord s) ∧ replicationFactor (sv_Coord s) = 3%Z ∧ (∀ a, a ∈ coord_DNs (sv_Coord s) ↔ registered db' a) ∧
  pulls (sv_Elector s) (sv_Role s) (sv_Sync s) ∧
  (is_Some (sv_CoordClient s) → Enabled (sv_AutoCfg s) = false) ∧
  (∀ m d, sv_Heartbeat s = Some (m, d) → (0 < d)%Z ∧ (0 < Heartbeat.failThreshold m)%Z) ∧ (0 < sv_ChunkSize s)%Z.
Proof.
  intros (wal & dns & db1 & tls & scheme & c & sg & [_ Hdns _ Hc Hsg Hs])%edge_main_path.
  apply assemble_spec in Hs as [(<- & _ & <- & <- & Hskip) Hs3 (auto & _ & Hauto) Hhb [_ _] _ Hrole _ Hchunk].
  apply start_coordinator_ok in Hc. split_and!.
  - done.
  - rewrite Hskip. intros Hno. destruct (start_signer_ok _ _ _ _ _ _ Hsg) as [[? _]|(_ & s' & ? & ?)]; [congruence|by exists s'].
  - intros id sec E. rewrite E in Hs3. by eapply s3_credentials_ok.
  - by eapply coord_of_config.
  - by eapply coord_of_ok.
  - intros a. rewrite (coord_of_DNs _ _ _ _ Hc), (boot_dns_registry _ _ _ _ _ _ Hdns). symmetry.
    by eapply registered_same, start_signer_registry.
  - by eapply role_of_ok.
  - intros [cl Hcl]. rewrite Hauto, Hcl. by rewrite andb_false_r.
  - intros m d E. rewrite E in Hhb. by eapply heartbeat_ok.
  - rewrite Hchunk. destruct (Z.leb_spec (fChunk (parse_flags args env)) 0); [|done]. unfold Chunker.DefaultChunkSize. rewrite Z2Nat.id; lia.
Qed.

(** ** Starting again *)
Section again.
Context {M : Type → Type} {KVM : KV M} {HKV : KVLaws M}.
(** [s] with another coordinator, its elector started at [now]. *)
Definition restarted (c : Coordinator) (now : Z) (s : StartedEdge (M := M)) : StartedEdge :=
  MkStarted (sv_Store s) (sv_WAL s) (sv_Hook s) c (sv_Signer s) (sv_S3Credentials s) (sv_S3Region s) (sv_ChunkSize s) (sv_PoolCap s)
    (sv_AutoCfg s) (sv_SkipAuth s) (sv_Heartbeat s) (sv_SnapshotScheduler s) (sv_CDCEnabled s) ((λ e, set_hb e now) <$> sv_Elector s)
    (sv_StrictReplication s) (sv_PreferClass s) (sv_CoordClient s) (sv_Role s) (sv_Sync s) (sv_KeyPoll s) (sv_Metrics s) (sv_HTTPS s).
Lemma edge_elector_again now now' fl e : edge_elector now fl = Ok e → edge_elector now' fl = Ok ((λ e, set_hb e now') <$> e).
Proof.
  unfold edge_elector. case_bool_decide; [by intros [= <-]|]. case_bool_decide; [done|].
  by intros (hb & -> & (tmin & -> & (tmax & -> & [= <-])%rbind_ok)%rbind_ok)%rbind_ok.
Qed.
Lemma assemble_again w env fl now now' wal c c' sg (db : @DB M) s : assemble w env fl now wal c sg db = Ok s →
  assemble w env fl now' wal c' sg db = Ok (restarted c' now' s).
Proof.
  unfold assemble. intros (s3 & -> & (auto & -> & (hb & -> & (snap & -> & (cdc & -> & (el & H6 & (cl & -> & ([role sync] & H8 & (poll & H9 & [= <-])%rbind_ok)%rbind_ok)%rbind_ok)%rbind_ok)%rbind_ok)%rbind_ok)%rbind_ok)%rbind_ok)%rbind_ok.
  rewrite (edge_elector_again _ now' _ _ H6). cbn [rbind].
  assert (role_of ((λ e, set_hb e now') <$> el) fl = Ok (role, sync)) as -> by (by destruct el).
  cbn [rbind]. rewrite H9. cbn [rbind]. by destruct el.
Qed.
Lemma start_signer_again env fl now now' (db db' : @DB M) sg : start_signer env fl now db = (Ok sg, db') →
  start_signer env fl now' db' = (Ok sg, db').
Proof.
  unfold start_signer. destruct (fSkip fl); [by intros [= <- <-]|]. destruct (boot_signer _ _ _ db) as [ka|] eqn:Hb; [|done].
  intros [= <- <-]. by rewrite (boot_signer_again _ (bytes_of (fSecret fl)) _ _ now' _ _ Hb).
Qed.
(** The registry of a start is found by the next one. *)
Lemma boot_dns_again env now now' (db db1 db2 : @DB M) dns : NoDup (SplitCSV env) → boot_dns env false now db = Some (dns, db1) →
  dns_runtime db2 = dns_runtime db1 → boot_dns env false now' db2 = Some (ListRuntimeDNs db2, db2) ∧ NoDup dns ∧ ListRuntimeDNs db2 ≡ₚ dns.
Proof.
  intros Hnd Hb Hsame. pose proof (boot_dns_registry _ _ _ _ _ _ Hb) as Hreg.
  assert (NoDup dns ∧ dns ≠ []) as [Hd Hne].
  { unfold boot_dns in Hb. cbn [orb] in Hb. destruct (Nat.eqb_spec (length (ListRuntimeDNs db)) 0) as [_|Hr].
    - destruct (Nat.eqb_spec (length (SplitCSV env)) 0) as [|He]; [done|]. destruct (SeedRuntimeDNs _ _ _) as [[r|e] d]; [|done].
      injection Hb as <- <-. split; [done|]. by intros E; rewrite E in He.
    - injection Hb as <- <-. split; [apply NoDup_ListRuntimeDNs|]. by intros E; rewrite E in Hr. }
  assert (ListRuntimeDNs db2 ≡ₚ dns) as Hp.
  { apply ListRuntimeDNs_perm; [done|]. intros a. rewrite (registered_same _ _ a Hsame). symmetry. apply Hreg. }
  split_and!; [|done|done]. unfold boot_dns. cbn [orb]. destruct (Nat.eqb_spec (length (ListRuntimeDNs db2)) 0) as [E|]; [|done].
  exfalso. rewrite Hp in E. by destruct dns.
Qed.
End again.

(** An edge that started can be started again: with the same command line and environment,
    without EDGE_DNS_RESET and with distinct addresses in EDGE_DNS, at any later time, on the
    store the first start left, the start succeeds, writes nothing, and gives the same edge but
    for the elector's clock and the order of the nodes, which does not matter: every key is
    placed on the same nodes. *)
Theorem restarted_edge_is_the_same {M : Type → Type} {KVM : KV M} {HKV : KVLaws M} w args env now now' (db db' : @DB M) s :
  edge_main w args env now db = (Ok s, db') → EnvOr env "EDGE_DNS_RESET" "" ≠ "1" → NoDup (SplitCSV (fDNs (parse_flags args env))) →
  ∃ c, edge_main w args env now' db' = (Ok (restarted c now' s), db') ∧
    coord_DNs c ≡ₚ coord_DNs (sv_Coord s) ∧ replicationFactor c = replicationFactor (sv_Coord s) ∧
    quorumWrite c = quorumWrite (sv_Coord s) ∧ ∀ key n, coord_PlaceN key n c = coord_PlaceN key n (sv_Coord s).
Proof.
  intros (wal & dns & db1 & tls & scheme & c & sg & [Hf Hdns Ht Hc Hsg Hs])%edge_main_path Hreset Hnd.
  rewrite bool_decide_eq_false_2 in Hdns by done. pose proof (start_signer_registry _ _ _ _ _ _ Hsg) as Hsame.
  destruct (boot_dns_again _ _ now' _ _ db' _ Hnd Hdns Hsame) as (Hdns' & Hd & Hp).
  assert (sv_Coord s = c) as -> by (by destruct (assemble_spec _ _ _ _ _ _ _ _ _ Hs) as [(_ & _ & H & _)]).
  destruct (coord_of_perm (fQuorum (parse_flags args env)) scheme dns (ListRuntimeDNs db') c Hp) as (c' & Hc' & Hrest);
    [by rewrite Hp|by apply start_coordinator_ok|].
  exists c'. split; [|done]. eapply path_edge_main. split; [exact Hf| |exact Ht| |by eapply start_signer_again|by eapply assemble_again].
  - rewrite bool_decide_eq_false_2 by done. exact Hdns'.
  - revert Hc'. unfold start_coordinator, coord_of. change (10 * second)%Z with (10 * 1000000000)%Z. by intros ->.
Qed.

(** ** What a start leaves behind, and what it does not wire *)
Section limits.
Context {M : Type → Type} {KVM : KV M} {HKV : KVLaws M}.
(** A registry of fewer than three nodes stops every start that does not reset it, whatever
    EDGE_DNS says: a first start with too few addresses seeds such a registry and then stops. *)
Lemma small_registry_stops_the_start w args env now (db db' : @DB M) s : EnvOr env "EDGE_DNS_RESET" "" ≠ "1" →
  0 < length (ListRuntimeDNs db) < 3 → edge_main w args env now db ≠ (Ok s, db').
Proof.
  intros Hreset Hlen (wal & dns & db1 & tls & scheme & c & sg & [_ Hdns _ Hc _ _])%edge_main_path.
  rewrite bool_decide_eq_false_2 in Hdns by done. unfold boot_dns in Hdns. cbn [orb] in Hdns.
  destruct (Nat.eqb_spec (length (ListRuntimeDNs db)) 0) as [|_]; [lia|]. injection Hdns as <- <-.
  apply start_coordinator_ok in Hc. destruct (coord_of_ok _ _ _ _ Hc) as (? & _). lia.
Qed.
(** The vote of an edge is the same whatever log the candidate has. *)
Lemma edge_vote_ignores_the_log term candidate seq seq' now e :
  HandleVote term candidate seq None now e = HandleVote term candidate seq' None now e.
Proof. reflexivity. Qed.
(** What an edge writes after it loaded a snapshot is gone after a restart: it opens edge.db,
    as it was before. *)
Lemma restart_forgets_synced_writes (d : EdgeDisk (M := M)) snapshot db :
  disk_store (write db (reload snapshot d)) = db ∧ disk_store (restart (write db (reload snapshot d))) = d_main d.
Proof. done. Qed.
End limits.

(** ** A concrete start *)
Definition w_env (k : string) : option string :=
  default None ((λ kv, Some kv.2) <$> find (λ kv : string * string, bool_decide (kv.1 = k))
    [("EDGE_DNS", "dn3:80, dn1:80,dn2:80"); ("EDGE_URLKEY_SECRET", "pw"); ("EDGE_AUTO", "1"); ("EDGE_QUORUM_WRITE", "x");
     ("EDGE_PEERS", "http://e1,http://e2"); ("EDGE_SELF_URL", "http://e1"); ("EDGE_WAL_PATH", "wal"); ("EDGE_HEARTBEAT_INTERVAL", "0s")]).
Definition w_world : world := MkWorld true true (λ _, Some []) (λ _, true) (λ _ _, true) (λ _, true).
Definition w_args : list arg := [ArgInt "chunk-size" 65536; ArgString "wal-batch-interval" "5ms"].
Definition w_started : bool :=
  match edge_main w_world w_args w_env 5 (empty_db (M := gmap string)) with (Ok _, _) => true | _ => false end.
Lemma w_started_ok : w_started = true.
Proof. vm_compute. reflexivity. Qed.
Lemma w_distinct_dns : NoDup (SplitCSV (fDNs (parse_flags w_args w_env))).
Proof. apply (bool_decide_unpack _). vm_compute. exact I. Qed.
Lemma started_edge_is_configured_witness : ∃ s db', edge_main w_world w_args w_env 5 (empty_db (M := gmap string)) = (Ok s, db') ∧
  config_ok (sv_Coord s) ∧ pulls (sv_Elector s) (sv_Role s) (sv_Sync s).
Proof.
  pose proof w_started_ok as H. unfold w_started in H.
  destruct (edge_main w_world w_args w_env 5 empty_db) as [[s|e] db'] eqn:E; [|discriminate H]. exists s, db'. split; [reflexivity|].
  destruct (started_edge_is_configured w_world w_args w_env 5 empty_db db' s E) as (_ & _ & _ & H1 & _ & _ & H2 & _). by split.
Defined.
Lemma restarted_edge_is_the_same_witness : ∃ s db' c, edge_main w_world w_args w_env 5 (empty_db (M := gmap string)) = (Ok s, db') ∧
  edge_main w_world w_args w_env 99 db' = (Ok (restarted c 99 s), db').
Proof.
  pose proof w_started_ok as H. unfold w_started in H.
  destruct (edge_main w_world w_args w_env 5 empty_db) as [[s|e] db'] eqn:E; [|discriminate H].
  destruct (restarted_edge_is_the_same w_world w_args w_env 5 99 empty_db db' s E) as (c & Hc & _).
  - vm_compute. discriminate.
  - exact w_distinct_dns.
  - exists s, db', c. split; [reflexivity|exact Hc].
Defined.
(** The first start with one address stops but seeds the registry; the second, with three, stops too. *)
Lemma too_few_nodes_are_remembered :
  let env dns k := if bool_decide (k = "EDGE_DNS") then Some dns else w_env k in
  let '(r1, db) := edge_main w_world w_args (env "dn1:80") 5 (empty_db (M := gmap string)) in
  let '(r2, _) := edge_main w_world w_args (env "dn1:80,dn2:80,dn3:80") 6 db in
  match r1, r2 with Err (CoordinatorRefused _), Err (CoordinatorRefused _) => True | _, _ => False end.
Proof. vm_compute. exact I. Qed.
