(* ===== verification/Cli.v ===== *)
(** * The command-line tool: cmd/kvfs-cli/main.go

    The commands that compute something themselves: the placement simulation, signing, the
    metadata snapshot and its restore on a stopped edge, and the requests for key rotation and
    anti-entropy repair.  What a command prints is its result; a status is what it exits with. *)
From S2P Require Import Prelude GF GoLib UrlKey Placement CoordRepair Kv Meta Store KeyAdmin AutoRepair.
From S2P Require Import CoordRepairTheorems.
From Stdlib Require Import Strings.Byte Strings.Ascii.
#[local] Open Scope string_scope.

(** [strings.TrimRight(u, "/")]; [strings.ToUpper] of an ASCII method. *)
Definition trim_right_slashes (u : string) : string :=
  let r := str_rev u in str_rev (trim_left (String.length r) ["/"] r).
Definition pickRoute (edgeURL coordURL edgePath coordPath : string) : string * string :=
  if bool_decide (coordURL = "") then (trim_right_slashes edgeURL, edgePath) else (trim_right_slashes coordURL, coordPath).
Definition idShort (id : string) : string := if (16 <? String.length id)%nat then String.substring 0 16 id else id.

(** ** placement-sim *)
Definition makeSimNodes (count startIdx : nat) : list Node :=
  (λ i, let id := "dn" ++ itoa (Z.of_nat (startIdx + i + 1)) in Placement.MkNode id (id ++ ":8080") "") <$> seq 0 count.
Definition chunk_name (i : nat) : string := "chunk-" ++ itoa (Z.of_nat i).
Definition count_pick (d : gmap string Z) (n : Node) : gmap string Z := <[ID n := default 0%Z (d !! ID n) + 1]>%Z d.
Definition simulate (p : Placer) (chunks : nat) (replicas : Z) : gmap string Z :=
  foldl (λ d i, foldl count_pick d (Pick p (chunk_name i) replicas))
    (foldl (λ d n, <[ID n := 0%Z]> d) ∅ (Placement.Nodes p)) (seq 0 chunks).
Definition idSetFromNodes (nodes : list Node) : gset string := list_to_set (ID <$> nodes).
Definition sameSetKeys (a b : gset string) : bool :=
  if (size a =? size b)%nat then forallb (λ k, bool_decide (k ∈ b)) (elements a) else false.
Definition chunks_moved (before after : Placer) (chunks : nat) (replicas : Z) : nat :=
  length (filter (λ i, sameSetKeys (idSetFromNodes (Pick before (chunk_name i) replicas))
                                   (idSetFromNodes (Pick after (chunk_name i) replicas)) = false) (seq 0 chunks)).

(** The digits of a name as a number; an [int] is 64 bits. *)
Fixpoint num_suffix_loop (l : list ascii) (n : Z) : Z :=
  match l with
  | [] => n
  | c :: l => num_suffix_loop l (if is_digit c then i64 (n * 10 + (Z.of_N (N_of_ascii c) - 48)) else n)
  end.
Definition numSuffix (s : string) : Z := num_suffix_loop (chars s) 0.
(** One round of the exchange sort: [x] is what stands at the front. *)
Fixpoint exchange_round (x : string) (l : list string) : string * list string :=
  match l with
  | [] => (x, [])
  | y :: l =>
      let '(x, y) := if (numSuffix y <? numSuffix x)%Z then (y, x) else (x, y) in
      let '(x, l) := exchange_round x l in (x, y :: l)
  end.
(** Every round fixes one place: the length is enough fuel. *)
Fixpoint exchange_sort (fuel : nat) (l : list string) : list string :=
  match fuel, l with
  | S fuel, x :: l => let '(x, l) := exchange_round x l in x :: exchange_sort fuel l
  | _, _ => l
  end.
Definition sortByNumericSuffix (ids : list string) : list string := exchange_sort (length ids) ids.
(** The lines of the table, but for percentages and bars. *)
Definition printDistribution (d : gmap string Z) : list (string * Z) :=
  (λ id, (id, d !!! id)) <$> sortByNumericSuffix ((map_to_list d).*1).

(** What the simulation reports: the distribution before, and with a change the one after
    and the chunks moved; [None] where it refuses its flags. *)
Record sim_report : Type := MkSim
  { sim_before : gmap string Z; sim_change : option (list Node * gmap string Z * nat) }.
Definition cmdPlacementSim (nodes chunks replicas add remove : Z) : option sim_report :=
  if (nodes <? 1)%Z then None
  else if (replicas <? 1)%Z || (nodes <? replicas)%Z then None
  else if ((0 <? add) && (0 <? remove))%Z then None
  else
    let initial := makeSimNodes (Z.to_nat nodes) 0 in
    let before := Placement.New initial in
    let d := simulate before (Z.to_nat chunks) replicas in
    let report after := Some (MkSim d (Some (after, simulate (Placement.New after) (Z.to_nat chunks) replicas,
                                             chunks_moved before (Placement.New after) (Z.to_nat chunks) replicas))) in
    if ((add =? 0) && (remove =? 0))%Z then Some (MkSim d None)
    else if (0 <? add)%Z then report (initial ++ makeSimNodes (Z.to_nat add) (Z.to_nat nodes))%list
    else if (0 <? remove)%Z then
      if (nodes <=? remove)%Z then None else report (take (Z.to_nat (nodes - remove)) initial)
    else report [].

(** ** sign *)
(** [exp] is the time of signing plus the TTL, in seconds; the result is what is printed. *)
Definition cmdSign (secret method path base : string) (exp : Z) : option string :=
  if bool_decide (path = "") || bool_decide (secret = "") then None
  else match NewSigner (bytes_of secret) with
       | Err _ => None
       | Ok signer => Some ((if bool_decide (base = "") then "" else trim_right_slashes base) ++ BuildURL signer method path exp)
       end.

(** ** meta snapshot and meta restore *)
(** Files by path, no two paths naming one file.  [IOok] or how many bytes came through. *)
Inductive copy_outcome : Type := CopiedAll | CopiedSome (n : nat).
Abbreviation files := (gmap string (list byte)).
Definition copy_bytes (data : list byte) (c : copy_outcome) : list byte :=
  match c with CopiedAll => data | CopiedSome n => take n data end.
(** The source is read after the destination was truncated. *)
Definition copyFile (src dst : string) (create_ok : bool) (c : copy_outcome) (fs : files) : bool * files :=
  match fs !! src with
  | None => (false, fs)
  | Some _ =>
      if negb create_ok then (false, fs)
      else
        let fs := <[dst := []]> fs in
        let data := default [] (fs !! src) in
        (match c with CopiedAll => true | CopiedSome _ => false end, <[dst := copy_bytes data c]> fs)
  end.
Definition rename (src dst : string) (fs : files) : files :=
  match fs !! src with Some f => <[dst := f]> (delete src fs) | None => fs end.
Record restore_io : Type := MkRestoreIO { r_locked : bool; r_rename : bool; r_create : bool; r_copy : copy_outcome; r_chmod : bool }.
Definition db_file (datadir : string) : string := datadir ++ "/edge.db".
Definition backup_file (datadir : string) : string := db_file datadir ++ ".bak".
Definition cmdMetaRestore (from datadir : string) (keepBackup : bool) (io : restore_io) (fs : files) : Z * files :=
  if bool_decide (from = "") || bool_decide (datadir = "") then (2%Z, fs)
  else match fs !! from with
  | None => (1%Z, fs)
  | Some _ =>
      let dst := db_file datadir in
      let go fs := let '(ok, fs) := copyFile from dst (r_create io) (r_copy io) fs in
                   (if ok && r_chmod io then 0%Z else 1%Z, fs) in
      match fs !! dst with
      | None => go fs
      | Some _ =>
          if r_locked io then (1%Z, fs)
          else if negb keepBackup then go fs
          else if negb (r_rename io) then (1%Z, fs)
          else go (rename dst (backup_file datadir) fs)
      end
  end.
(** [body]: what the edge answered with status 200, with how much of it arrived. *)
Definition cmdMetaSnapshot (out : string) (body : option (list byte)) (create_ok : bool) (c : copy_outcome) (rename_ok : bool) (fs : files) : Z * files :=
  let tmp := out ++ ".tmp" in
  match body with
  | None => (1%Z, fs)
  | Some data =>
      if negb create_ok then (1%Z, fs)
      else match c with
           | CopiedSome _ => (1%Z, delete tmp fs)
           | CopiedAll => let fs := <[tmp := data]> fs in if rename_ok then (0%Z, rename tmp out fs) else (1%Z, fs)
           end
  end.

(** ** urlkey rotate *)
(** The body of the request: kid, secret and whether to make it primary. *)
Definition rotate_request (kid secretHex : string) (primary : bool) (now : Z) (random : list byte) : string * string * bool :=
  (if bool_decide (kid = "") then "v" ++ itoa now else kid, if bool_decide (secretHex = "") then hex_encode random else secretHex, primary).

(** ** anti-entropy repair *)
Definition repair_settings (corrupt dryRun ec : bool) (maxRepairs concurrency : Z) : list string :=
  ((if corrupt then ["corrupt=1"] else []) ++ (if dryRun then ["dry_run=1"] else []) ++ (if ec then ["ec=1"] else []) ++
   (if (0 <? maxRepairs)%Z then [String.append "max_repairs=" (itoa maxRepairs)] else []) ++
   (if (1 <? concurrency)%Z then [String.append "concurrency=" (itoa concurrency)] else []))%list.
Definition repair_path (corrupt dryRun ec : bool) (maxRepairs concurrency : Z) : string :=
  "/v1/coord/admin/anti-entropy/repair" ++
  match repair_settings corrupt dryRun ec maxRepairs concurrency with
  | [] => ""
  | qs => "?" ++ String.concat "&" qs
  end.

(** ** The command-line tool: its contract *)

(** ** The simulated nodes *)
Lemma makeSimNodes_app a b : (makeSimNodes a 0 ++ makeSimNodes b a)%list = makeSimNodes (a + b) 0.
Proof.
  unfold makeSimNodes. rewrite seq_app, fmap_app. f_equal.
  replace (seq (0 + a) b) with (Nat.add a <$> seq 0 b) by (rewrite fmap_add_seq; f_equal; lia).
  rewrite <- list_fmap_compose. apply list_fmap_ext. intros i x _. cbn. by replace (a + x + 1)%nat with (S (a + x)) by lia.
Qed.
Lemma makeSimNodes_IDs n : NoDup (ID <$> makeSimNodes n 0).
Proof.
  unfold makeSimNodes. rewrite <- list_fmap_compose. apply NoDup_fmap_2_strong; [|apply NoDup_seq].
  intros i j _ _ E. cbn in E. injection E as E. apply itoa_inj in E. lia.
Qed.
Lemma take_makeSimNodes k n : (k ≤ n)%nat → take k (makeSimNodes n 0) = makeSimNodes k 0.
Proof.
  intros Hk. replace n with (k + (n - k)) by lia. rewrite <- makeSimNodes_app. apply take_app_length'.
  unfold makeSimNodes. by rewrite length_fmap, length_seq.
Qed.

(** ** Chunks that move *)
Lemma elem_of_ids x l : x ∈ idSetFromNodes l ↔ x ∈ ID <$> l.
Proof. unfold idSetFromNodes. by rewrite elem_of_list_to_set. Qed.
Lemma sameSetKeys_spec a b : sameSetKeys a b = true ↔ a = b.
Proof.
  unfold sameSetKeys. destruct (Nat.eqb_spec (size a) (size b)) as [Hs|Hs]; [|split; [done|by intros ->]].
  rewrite forallb_forall. setoid_rewrite bool_decide_eq_true. split; [|intros -> x Hx; by apply elem_of_elements, list_elem_of_In].
  intros H. apply set_eq. assert (a ⊆ b) as Hsub by (intros x Hx; apply H, list_elem_of_In; by apply elem_of_elements).
  intros x. split; [apply Hsub|]. apply set_subseteq_size_eq in Hsub; [by rewrite Hsub|lia].
Qed.
(** A chunk keeps its replicas exactly when none of them is on a node that goes. *)
Lemma same_picks c n (P : Node → Prop) `{∀ x, Decision (P x)} l : NoDup (ID <$> l) →
  idSetFromNodes (PickFromNodes c n (filter P l)) = idSetFromNodes (PickFromNodes c n l) ↔ Forall P (PickFromNodes c n l).
Proof.
  intros Hnd. rewrite !PickFromNodes_take, ranked_filter by done. pose proof (ranked_perm c l) as Hp. split.
  - intros E. apply Forall_forall. intros x Hx.
    assert (ID x ∈ idSetFromNodes (take (Z.to_nat n) (filter P (ranked c l)))) as Hin
      by (rewrite E; apply elem_of_ids, list_elem_of_fmap_2, Hx).
    apply elem_of_ids, list_elem_of_fmap in Hin as (y & Hid & Hy). apply elem_of_take in Hy as (i & Hy & _).
    apply list_elem_of_lookup_2, list_elem_of_filter in Hy as [HP Hy].
    assert (x = y) as ->; [|done]. apply elem_of_take in Hx as (j & Hx & _). apply list_elem_of_lookup_2 in Hx.
    rewrite Hp in Hx, Hy. apply list_elem_of_lookup in Hx as [j' Hj], Hy as [k Hk].
    assert (j' = k) as ->; [|congruence]. eapply (NoDup_lookup _ _ _ _ Hnd); rewrite list_lookup_fmap, ?Hj, ?Hk; cbn; by rewrite ?Hid.
  - intros HP. f_equal. rewrite <- (take_drop (Z.to_nat n) (ranked c l)) at 1. rewrite filter_app.
    rewrite (filter_all P) by (intros x Hx; rewrite Forall_forall in HP; by apply HP). rewrite take_app, take_take, Nat.min_id, length_take.
    destruct (Nat.le_gt_cases (Z.to_nat n) (length (ranked c l))).
    + rewrite Nat.min_l, Nat.sub_diag by lia. by rewrite take_0, app_nil_r.
    + rewrite (drop_ge _ (Z.to_nat n)) by lia. by rewrite filter_nil, take_nil, app_nil_r.
Qed.
Lemma moved_filter before after P `{∀ x, Decision (P x)} chunks R : NoDup (ID <$> before) → after = filter P before →
  chunks_moved (Placement.New before) (Placement.New after) chunks R =
    length (filter (λ i, ¬ Forall P (Pick (Placement.New before) (chunk_name i) R)) (seq 0 chunks)) ∧
  chunks_moved (Placement.New after) (Placement.New before) chunks R = chunks_moved (Placement.New before) (Placement.New after) chunks R.
Proof.
  intros Hnd ->. unfold chunks_moved, Pick. cbn [Placement.New Placement.nodes].
  assert (∀ i, sameSetKeys (idSetFromNodes (PickFromNodes (chunk_name i) R before))
    (idSetFromNodes (PickFromNodes (chunk_name i) R (filter P before))) = false ↔ ¬ Forall P (PickFromNodes (chunk_name i) R before)) as Hs.
  { intros i. rewrite <- not_true_iff_false, sameSetKeys_spec, <- (same_picks _ _ P) by done. by split; intros H1 H2; apply H1. }
  split; f_equal; apply list_filter_iff; [done|]. intros i. rewrite <- !not_true_iff_false, !sameSetKeys_spec. by split; intros H1 H2; apply H1.
Qed.
Lemma makeSimNodes_split k n : (k ≤ n)%nat →
  makeSimNodes k 0 = filter (λ x, ID x ∈ ID <$> makeSimNodes k 0) (makeSimNodes n 0).
Proof.
  intros Hk. replace n with (k + (n - k))%nat by lia. pose proof (makeSimNodes_IDs (k + (n - k))) as Hnd.
  rewrite <- makeSimNodes_app in *. rewrite fmap_app, NoDup_app in Hnd. destruct Hnd as (_ & Hd & _).
  rewrite filter_app, filter_all by (intros x Hx; by apply list_elem_of_fmap_2).
  assert (filter (λ x, ID x ∈ ID <$> makeSimNodes k 0) (makeSimNodes (n - k) k) = []) as ->; [|by rewrite app_nil_r].
  apply filter_none. intros x Hx Hin. by apply (Hd _ Hin), list_elem_of_fmap_2.
Qed.

(** The chunks the simulation moves are exactly those it has to: with nodes removed, those that
    had a replica on a removed node; with nodes added, those that get one on an added node. *)
Lemma sim_moves_only_what_it_must nodes chunks R add remove d after d' m :
  cmdPlacementSim nodes chunks R add remove = Some (MkSim d (Some (after, d', m))) → (0 ≤ add)%Z → (0 ≤ remove)%Z →
  let initial := makeSimNodes (Z.to_nat nodes) 0 in
  m = if (0 <? add)%Z
      then length (filter (λ i, ¬ Forall (λ x, ID x ∈ ID <$> initial) (Pick (Placement.New after) (chunk_name i) R)) (seq 0 (Z.to_nat chunks)))
      else length (filter (λ i, ¬ Forall (λ x, ID x ∈ ID <$> after) (Pick (Placement.New initial) (chunk_name i) R)) (seq 0 (Z.to_nat chunks))).
Proof.
  unfold cmdPlacementSim. destruct (Z.ltb_spec nodes 1); [done|]. destruct (_ || _); [done|]. destruct (_ && _) eqn:Hboth; [done|].
  destruct ((add =? 0) && (remove =? 0))%Z eqn:Hnone; [done|]. intros Hsim Ha Hr. cbv zeta.
  destruct (Z.ltb_spec 0 add).
  - injection Hsim as <- <- <- <-. rewrite makeSimNodes_app.
    destruct (moved_filter (makeSimNodes (Z.to_nat nodes + Z.to_nat add) 0) (makeSimNodes (Z.to_nat nodes) 0)
      (λ x, ID x ∈ ID <$> makeSimNodes (Z.to_nat nodes) 0) (Z.to_nat chunks) R) as [H1 H2];
      [apply makeSimNodes_IDs|apply makeSimNodes_split; lia|]. by rewrite H2.
  - destruct (Z.ltb_spec 0 remove); [|apply andb_false_iff in Hnone; rewrite !Z.eqb_neq in Hnone; lia].
    destruct (Z.leb_spec nodes remove); [done|]. injection Hsim as <- <- <- <-. rewrite take_makeSimNodes by lia.
    apply (moved_filter (makeSimNodes (Z.to_nat nodes) 0)); [apply makeSimNodes_IDs|apply makeSimNodes_split; lia].
Qed.

(** ** The distribution *)
Definition replicas_on (p : Placer) (chunks : nat) (R : Z) (id : string) : nat :=
  length (filter (λ i, id ∈ ID <$> Pick p (chunk_name i) R) (seq 0 chunks)).
Lemma count_picks_lookup l (d : gmap string Z) id : NoDup (ID <$> l) →
  foldl count_pick d l !! id = if decide (id ∈ ID <$> l) then Some (default 0 (d !! id) + 1)%Z else d !! id.
Proof.
  revert d. induction l as [|n l IH]; intros d Hnd; cbn [foldl]; [by rewrite decide_False by apply not_elem_of_nil|].
  rewrite fmap_cons in *. apply NoDup_cons in Hnd as [Hn Hnd]. rewrite IH by done. unfold count_pick.
  destruct (decide (id = ID n)) as [->|Hne].
  - by rewrite (decide_False (P := _ ∈ ID <$> l)), lookup_insert_eq, decide_True by (done || by left).
  - rewrite lookup_insert_ne by done. destruct (decide (id ∈ ID <$> l)); [by rewrite decide_True by (by right)|].
    rewrite decide_False; [done|]. by intros [?|?]%elem_of_cons.
Qed.
Lemma pick_IDs p c R : NoDup (ID <$> Placement.Nodes p) → NoDup (ID <$> Pick p c R) ∧ ∀ id, id ∈ ID <$> Pick p c R → id ∈ ID <$> Placement.Nodes p.
Proof.
  unfold Pick, Placement.Nodes. intros Hnd. rewrite PickFromNodes_take, fmap_take. pose proof (ranked_perm c (nodes p)) as Hp. split.
  - eapply sublist_NoDup; [|apply sublist_take]. by rewrite Hp.
  - intros id (i & Hi & _)%elem_of_take. apply list_elem_of_lookup_2 in Hi. by rewrite Hp in Hi.
Qed.
Lemma zero_table l (d : gmap string Z) id :
  foldl (λ d n, <[ID n := 0%Z]> d) d l !! id = if decide (id ∈ ID <$> l) then Some 0%Z else d !! id.
Proof.
  revert d. induction l as [|n l IH]; intros d; cbn [foldl]; [by rewrite decide_False by apply not_elem_of_nil|].
  rewrite IH, fmap_cons. destruct (decide (id ∈ ID <$> l)); [by rewrite decide_True by (by right)|].
  destruct (decide (id = ID n)) as [->|Hne]; [by rewrite lookup_insert_eq, decide_True by (by left)|].
  rewrite lookup_insert_ne, decide_False by (done || by intros [?|?]%elem_of_cons). done.
Qed.
(** The table counts, for every node and only for nodes, the chunks it holds. *)
Lemma simulate_counts p chunks R id : NoDup (ID <$> Placement.Nodes p) →
  simulate p chunks R !! id = if decide (id ∈ ID <$> Placement.Nodes p) then Some (Z.of_nat (replicas_on p chunks R id)) else None.
Proof.
  intros Hnd. unfold simulate. induction chunks as [|k IH].
  - cbn [seq foldl]. by rewrite zero_table, lookup_empty.
  - rewrite seq_S, foldl_app. cbn [foldl Nat.add]. destruct (pick_IDs p (chunk_name k) R Hnd) as [Hp Hin].
    rewrite count_picks_lookup, IH by done. unfold replicas_on. rewrite seq_S, filter_app, length_app, filter_cons, filter_nil. cbn [Nat.add].
    destruct (decide (id ∈ ID <$> Pick p (chunk_name k) R)) as [Hi|Hi]; cbn [length].
    + destruct (decide (id ∈ ID <$> Placement.Nodes p)) as [_|Hno]; [|by destruct Hno; apply Hin]. cbn. f_equal. lia.
    + case_decide; [|done]. f_equal. lia.
Qed.

(** ** The order of the table *)
Definition suffix_le (a b : string) : Prop := (numSuffix a ≤ numSuffix b)%Z.
Lemma exchange_spec x l y l' : exchange_round x l = (y, l') →
  (y :: l')%list ≡ₚ (x :: l)%list ∧ suffix_le y x ∧ Forall (suffix_le y) l'.
Proof.
  revert x y l'. induction l as [|z l IH]; intros x y l'; cbn [exchange_round]; [intros [= <- <-]; split_and!; [done|unfold suffix_le; lia|done]|].
  destruct (Z.ltb_spec (numSuffix z) (numSuffix x)); destruct (exchange_round _ l) as [y1 l1] eqn:He; intros [= <- <-];
    apply IH in He as (Hp & Hle & Hall); unfold suffix_le in *; split_and!; try lia.
  - by rewrite (perm_swap x y1 l1), Hp.
  - constructor; [lia|done].
  - rewrite (perm_swap z y1 l1), Hp. apply perm_swap.
  - constructor; [lia|done].
Qed.
(** The table lists every node once, in the order of its number. *)
Lemma sortByNumericSuffix_sorts ids : sortByNumericSuffix ids ≡ₚ ids ∧ StronglySorted suffix_le (sortByNumericSuffix ids).
Proof.
  unfold sortByNumericSuffix. assert (length ids ≤ length ids)%nat as H by done. revert H. generalize (length ids) at 2 3 4 as fuel.
  intros fuel. revert ids. induction fuel as [|fuel IH]; intros ids Hlen.
  { destruct ids; [split; [done|apply SSorted_nil]|cbn [length] in Hlen; lia]. }
  destruct ids as [|x l]; cbn [exchange_sort length] in *; [split; [done|apply SSorted_nil]|].
  destruct (exchange_round x l) as [y l'] eqn:He. apply exchange_spec in He as (Hp & _ & Hall).
  pose proof (Permutation_length Hp) as Hl. cbn [length] in Hl. destruct (IH l' ltac:(lia)) as [Hp' Hs]. split; [by rewrite Hp'|].
  constructor; [done|]. by rewrite Hp'.
Qed.
Lemma printDistribution_rows d : (printDistribution d).*1 ≡ₚ (map_to_list d).*1 ∧ StronglySorted suffix_le (printDistribution d).*1.
Proof.
  unfold printDistribution. rewrite <- list_fmap_compose.
  match goal with |- context [?f <$> sortByNumericSuffix ?l] => assert (f <$> sortByNumericSuffix l = sortByNumericSuffix l) as -> by apply list_fmap_id end.
  apply sortByNumericSuffix_sorts.
Qed.

(** ** Restoring a snapshot *)
Lemma db_backup_differ d : db_file d ≠ backup_file d.
Proof.
  intros E. apply (f_equal (λ s, length (chars s))) in E. unfold backup_file in E. rewrite chars_app, length_app in E. cbn in E. lia.
Qed.
(** From a file that is neither the database nor its backup, a restore that reports success
    leaves exactly that file's bytes as the database; it touches nothing but database and
    backup, and with a backup kept the old database is in one of them whatever failed. *)
Lemma restore_keeps_a_copy from datadir keepBackup io fs st fs' :
  cmdMetaRestore from datadir keepBackup io fs = (st, fs') → from ≠ db_file datadir → from ≠ backup_file datadir →
  (st = 0%Z → fs' !! db_file datadir = fs !! from) ∧
  (∀ p, p ≠ db_file datadir → p ≠ backup_file datadir → fs' !! p = fs !! p) ∧
  (keepBackup = true → ∀ old, fs !! db_file datadir = Some old → fs' !! db_file datadir = Some old ∨ fs' !! backup_file datadir = Some old).
Proof.
  intros Hr Hd Hb. pose proof (db_backup_differ datadir) as Hne. unfold cmdMetaRestore in Hr.
  destruct (_ || _); [injection Hr as <- <-; naive_solver|].
  destruct (fs !! from) as [data|] eqn:Hf; [|injection Hr as <- <-; naive_solver].
  assert (∀ fs1, fs1 !! from = Some data → let '(ok, fs2) := copyFile from (db_file datadir) (r_create io) (r_copy io) fs1 in
    (ok = true → fs2 !! db_file datadir = Some data) ∧ ∀ p, p ≠ db_file datadir → fs2 !! p = fs1 !! p) as Hcopy.
  { intros fs1 H1. unfold copyFile. rewrite H1. destruct (negb (r_create io)); [done|]. rewrite (lookup_insert_ne fs1 (db_file datadir) from), H1 by congruence.
    split; [|intros p Hp; by rewrite !lookup_insert_ne by congruence]. intros Hok. rewrite lookup_insert_eq. by destruct (r_copy io). }
  assert (∀ fs1, fs1 !! from = Some data → (let '(ok, fs) := copyFile from (db_file datadir) (r_create io) (r_copy io) fs1 in
      (if ok && r_chmod io then 0%Z else 1%Z, fs)) = (st, fs') →
    (st = 0%Z → fs' !! db_file datadir = Some data) ∧ ∀ p, p ≠ db_file datadir → fs' !! p = fs1 !! p) as Hgo.
  { intros fs1 H1 Hc. specialize (Hcopy fs1 H1). destruct (copyFile _ _ _ _ fs1) as [ok fs2]. injection Hc as <- <-.
    destruct Hcopy as [H2 H3]. split; [|done]. destruct ok; [auto|done]. }
  destruct (fs !! db_file datadir) as [old|] eqn:Hold.
  - destruct (r_locked io); [injection Hr as <- <-; naive_solver|].
    destruct keepBackup; cbn [negb] in Hr.
    + destruct (r_rename io); cbn [negb] in Hr; [|injection Hr as <- <-; naive_solver].
      assert (rename (db_file datadir) (backup_file datadir) fs = <[backup_file datadir := old]> (delete (db_file datadir) fs)) as E
        by (unfold rename; by rewrite Hold). rewrite E in Hr.
      destruct (Hgo (<[backup_file datadir := old]> (delete (db_file datadir) fs)) ltac:(by rewrite lookup_insert_ne, lookup_delete_ne by congruence) Hr) as [H1 H2]. split_and!; [done| |].
      * intros p Hp Hpb. by rewrite H2, lookup_insert_ne, lookup_delete_ne by congruence.
      * intros _ old' [= <-]. right. by rewrite H2, lookup_insert_eq by congruence.
    + destruct (Hgo _ Hf Hr) as [H1 H2]. split_and!; [done|intros p Hp _; by apply H2|discriminate].
  - destruct (Hgo _ Hf Hr) as [H1 H2]. split_and!; [done|intros p Hp _; by apply H2|discriminate].
Qed.
(** Restoring the kept backup loses it: the database is renamed over the backup and then
    copied back, and the command reports success. *)
Lemma restoring_the_backup_loses_it datadir fs bak old : datadir ≠ "" →
  fs !! backup_file datadir = Some bak → fs !! db_file datadir = Some old →
  let '(st, fs') := cmdMetaRestore (backup_file datadir) datadir true (MkRestoreIO false true true CopiedAll true) fs in
  st = 0%Z ∧ fs' !! db_file datadir = Some old ∧ fs' !! backup_file datadir = Some old.
Proof.
  intros Hne Hb Ho. pose proof (db_backup_differ datadir) as Hd. unfold cmdMetaRestore.
  rewrite bool_decide_eq_false_2 by (by destruct datadir). rewrite (bool_decide_eq_false_2 (datadir = "")) by done. cbn [orb].
  rewrite Hb, Ho. cbn [r_locked r_rename r_create r_copy r_chmod negb]. unfold rename. rewrite Ho. unfold copyFile. rewrite lookup_insert_eq. cbn [negb].
  rewrite (lookup_insert_ne _ (db_file datadir) (backup_file datadir)), lookup_insert_eq by congruence.
  cbn. split_and!; [done|by rewrite lookup_insert_eq|]. by rewrite !lookup_insert_ne, lookup_insert_eq by congruence.
Qed.
(** A snapshot is saved whole or the file of that name is left as it was. *)
Lemma snapshot_is_whole out body create_ok c rename_ok fs st fs' :
  cmdMetaSnapshot out body create_ok c rename_ok fs = (st, fs') →
  if (st =? 0)%Z then fs' !! out = body ∧ body ≠ None else fs' !! out = fs !! out.
Proof.
  assert (out ≠ out ++ ".tmp") as Hne.
  { intros E. apply (f_equal (λ s, length (chars s))) in E. rewrite chars_app, length_app in E. cbn in E. lia. }
  unfold cmdMetaSnapshot. destruct body as [data|]; [|by intros [= <- <-]]. destruct create_ok; cbn [negb]; [|by intros [= <- <-]].
  destruct c as [|n]; [|intros [= <- <-]; cbn; by rewrite lookup_delete_ne].
  destruct rename_ok; intros [= <- <-]; cbn; [|by rewrite lookup_insert_ne].
  unfold rename. rewrite lookup_insert_eq. by rewrite lookup_insert_eq.
Qed.

(** ** Flags of anti-entropy repair reach the daemon *)
Lemma split_concat l : l ≠ [] → Forall (no_char "&") l → split (String.concat "&" l) "&" = l.
Proof.
  intros Hne Hl. induction Hl as [|x l Hx Hl IH]; [done|]. destruct l as [|y l]; [by apply split_no_sep|].
  change (String.concat "&" (x :: y :: l)) with (x ++ String "&" (String.concat "&" (y :: l))). by rewrite split_app, IH.
Qed.
Lemma ParseQuery_settings l : Forall (no_char "&") l → ParseQuery (String.concat "&" l) = foldl add_setting ∅ l.
Proof.
  intros Hl. unfold ParseQuery. destruct l as [|x l]; [by vm_compute|]. by rewrite split_concat.
Qed.
Definition setting (b : bool) (k v : string) (q : url_values) : url_values := if b then <[k := [v]]> q else q.
Lemma add_setting_if (b : bool) k v (q : url_values) : query_safe k → query_safe v → q !! k = None →
  foldl add_setting q (if b then [(k ++ "=" ++ v)%string] else []) = setting b k v q.
Proof. intros Hk Hv Hq. destruct b; cbn [foldl setting]; [|done]. by rewrite add_setting_safe, Hq. Qed.
Lemma setting_eq b k v q : setting b k v q !! k = if b then Some [v] else q !! k.
Proof. destruct b; [apply lookup_insert_eq|done]. Qed.
Lemma setting_ne b k v q k' : k ≠ k' → setting b k v q !! k' = q !! k'.
Proof. destruct b; [apply lookup_insert_ne|done]. Qed.
Ltac settings := rewrite ?setting_ne by done; rewrite ?setting_eq; rewrite ?setting_ne by done; by rewrite lookup_empty.
(** What the operator asked for is what the daemon does: the flags, the cap and, above one, the
    concurrency; a concurrency over the daemon's limit of 64 is refused. *)
Lemma repair_request_roundtrip corrupt dryRun ec maxRepairs concurrency :
  (0 ≤ maxRepairs < 2 ^ 63)%Z → (concurrency < 2 ^ 63)%Z →
  repair_opts (ParseQuery (String.concat "&" (repair_settings corrupt dryRun ec maxRepairs concurrency))) =
    if (64 <? concurrency)%Z then None
    else Some (MkOpts corrupt dryRun ec maxRepairs (if (1 <? concurrency)%Z then Z.to_nat concurrency else 0%nat)).
Proof.
  intros Hm Hc. assert (∀ p z, no_char "&" p → no_char "&" (p ++ itoa z)) as Hno.
  { intros p z Hp. pose proof (query_safe_no_char (itoa z) "&" (itoa_query_safe z) ltac:(set_solver)) as Hz.
    unfold no_char in *. rewrite chars_app. set_solver. }
  rewrite ParseQuery_settings.
  2:{ unfold repair_settings. repeat (apply Forall_app; split); repeat case_match; try apply Forall_nil_2; apply Forall_singleton;
        first [apply Hno; by_decide|by_decide]. }
  unfold repair_settings. rewrite !foldl_app.
  set (mr := (0 <? maxRepairs)%Z). set (cc := (1 <? concurrency)%Z).
  pose proof (itoa_query_safe maxRepairs) as Hs1. pose proof (itoa_query_safe concurrency) as Hs2.
  rewrite (add_setting_if corrupt "corrupt" "1") by (done || by_decide).
  rewrite (add_setting_if dryRun "dry_run" "1") by (settings || by_decide).
  rewrite (add_setting_if ec "ec" "1") by (settings || by_decide).
  rewrite (add_setting_if mr "max_repairs" (itoa maxRepairs)) by (done || settings || by_decide).
  rewrite (add_setting_if cc "concurrency" (itoa concurrency)) by (done || settings || by_decide).
  set (q := setting cc _ _ _).
  assert (q !! "corrupt" = (if corrupt then Some ["1"] else None) ∧ q !! "dry_run" = (if dryRun then Some ["1"] else None) ∧
    q !! "ec" = (if ec then Some ["1"] else None) ∧ q !! "max_repairs" = (if mr then Some [itoa maxRepairs] else None) ∧
    q !! "concurrency" = (if cc then Some [itoa concurrency] else None)) as (Q1 & Q2 & Q3 & Q4 & Q5)
    by (subst q; split_and!; settings).
  clearbody q. unfold repair_opts.
  assert (ParseNonNegIntQuery q "max_repairs" 0 = Some maxRepairs) as ->.
  { subst mr. destruct (Z.ltb_spec 0 maxRepairs).
    - apply ParseNonNegIntQuery_exact; [unfold q_get; by rewrite Q4|unfold int64_ok; lia|lia|lia].
    - unfold ParseNonNegIntQuery, q_get. rewrite Q4. cbn. f_equal. lia. }
  cbn [mbind option_bind].
  assert (ParseNonNegIntQuery q "concurrency" 64 = if (64 <? concurrency)%Z then None else Some (if cc then concurrency else 0%Z)) as ->.
  { subst cc. destruct (Z.ltb_spec 1 concurrency).
    - destruct (Z.ltb_spec 64 concurrency) as [H64|H64]; [|apply ParseNonNegIntQuery_exact; [unfold q_get; by rewrite Q5|unfold int64_ok; lia|lia|lia]].
      destruct (ParseNonNegIntQuery q "concurrency" 64) as [n|] eqn:Hp; [|done]. apply ParseNonNegIntQuery_spec in Hp as (_ & Hmax & [[E _]|E]);
        unfold q_get in E; rewrite Q5 in E; pose proof (parse_itoa concurrency ltac:(unfold int64_ok; lia)) as Hi.
      + by rewrite E in Hi.
      + rewrite Hi in E. injection E as <-. lia.
    - unfold ParseNonNegIntQuery, q_get. rewrite Q5. destruct (Z.ltb_spec 64 concurrency); [lia|done]. }
  destruct (64 <? concurrency)%Z; [done|]. cbn [mbind option_bind]. f_equal. unfold flag_set, q_get. rewrite Q1, Q2, Q3.
  f_equal; [by destruct corrupt|by destruct dryRun|by destruct ec|by destruct cc].
Qed.

(** ** What the tool prints is not always so *)
(** R/N is printed as a lower bound of the chunks moved; a run can move fewer: of one chunk
    on two nodes none moves when the other node goes, where half a chunk is announced. *)
Lemma fewer_move_than_announced :
  match cmdPlacementSim 2 1 1 0 1 with Some (MkSim _ (Some (_, _, m))) => m = 0%nat | _ => False end.
Proof. vm_compute. reflexivity. Qed.
(** The edge's rotate handler has no is_primary: a key added as secondary, [--primary=false],
    signs from then on. *)
Lemma edge_rotation_is_always_primary {M : Type → Type} {KVM : KV M} kid0 secretHex0 now now' random (st st' : KeyAdmin (M := M)) :
  let '(kid, secretHex, primary) := rotate_request kid0 secretHex0 false now random in
  handleRotateURLKey now' (Some (kid, secretHex)) st = (200%Z, st') →
  primary = false ∧ ∃ s, ka_Signer st' = Some s ∧ Primary s = kid.
Proof.
  unfold rotate_request, handleRotateURLKey. set (kid := if bool_decide (kid0 = "") then _ else _). set (hex := if bool_decide (secretHex0 = "") then _ else _).
  destruct (ka_Signer st) as [s|]; [|done]. destruct (_ || _); [done|]. destruct (hex_decode hex) as [secret|]; [|done].
  destruct (PutURLKey _ _ _ _ _) as [[u|e] db]; [|done]. cbv zeta.
  assert (∀ s0, (match SetPrimary s0 kid with Err _ => (500%Z, MkKeyAdmin (Some s0) db) | Ok s => (200%Z, MkKeyAdmin (Some s) db) end) = (200%Z, st') →
    false = false ∧ ∃ s, ka_Signer st' = Some s ∧ Primary s = kid) as Hset.
  { intros s0. unfold SetPrimary. destruct (keys s0 !! kid); [|done]. intros [= <-]. split; [done|]. by eexists. }
  destruct (Add s kid secret) as [s1|e]; [apply Hset|]. destruct e; try done. apply Hset.
Qed.
