(* ===== verification/DaemonStart.v ===== *)
(** * The start of a data node, and the tickers of a coord daemon

    [main] of cmd/kvfs-dn/main.go with its TLS settings, and the part of cmd/kvfs-coord/main.go
    that starts the anti-entropy tickers of CoordRepair.v (the rest of it is CoordBoot.v).
    [None] is a fatal error. *)
From S2P Require Import Prelude GF GoLib GoTime Kv Meta Store DataNode AutoRepair Coord CoordRepair CoordBoot.
From S2P Require Import EdgeStart.
From Stdlib Require Import Strings.Byte.
#[local] Open Scope string_scope.

(** ** A data node *)
(** How the node listens: plain HTTP, or TLS, with a CA its clients are verified against. *)
Inductive listener : Type := PlainHTTP | TLS (clientCA : option string).
Definition buildServerTLS (env : string → option string) (LoadCertPool : string → bool) : option (option string) :=
  let clientCAPath := EnvOr env "DN_TLS_CLIENT_CA" "" in
  if bool_decide (clientCAPath = "") then Some None else if LoadCertPool clientCAPath then Some (Some clientCAPath) else None.
Record DataNodeProcess : Type := MkDataNode { dn_Server : Server; dn_Scrub : option Z; dn_Listener : listener }.
(** [open_tree]: the files under the data directory, when [NewServer] can prepare and read it. *)
Definition dn_main (args : list arg) (env : string → option string) (open_tree : string → option tree) (LoadCertPool : string → bool)
    : option DataNodeProcess :=
  let id := flag_String args "id" (EnvOr env "DN_ID" "") in
  let dataDir := flag_String args "data-dir" (EnvOr env "DN_DATA_DIR" "") in
  if bool_decide (id = "") || bool_decide (dataDir = "") then None
  else
    t ← open_tree dataDir;
    scrub ← (let v := EnvOr env "DN_SCRUB_INTERVAL" "" in if bool_decide (v = "") then Some 0%Z else ParseDuration v);
    ca ← buildServerTLS env LoadCertPool;
    Some (MkDataNode (NewServer id t) (if (0 <? scrub)%Z then Some scrub else None)
      (if negb (bool_decide (EnvOr env "DN_TLS_CERT" "" = "")) && negb (bool_decide (EnvOr env "DN_TLS_KEY" "" = "")) then TLS ca
       else PlainHTTP)).

(** ** The tickers of a coord daemon *)
(** The intervals at which it audits and repairs, with the repair's options. *)
Record tickers : Type := MkTickers { t_audit : option Z; t_repair : option (Z * AntiEntropyRepairOpts) }.
Definition positive (d : Z) : option Z := if (0 <? d)%Z then Some d else None.
Definition start_tickers (args : list arg) (env : string → option string) (has_dnio : bool) : option tickers :=
  audit ← (let v := EnvOr env "COORD_ANTI_ENTROPY_INTERVAL" "" in
           if bool_decide (v = "") then Some None else positive <$> ParseDuration v);
  let v := flag_String args "auto-repair-interval" (EnvOr env "COORD_AUTO_REPAIR_INTERVAL" "") in
  d ← (if bool_decide (v = "") then Some None else positive <$> ParseDuration v);
  let maxRep := AtoiOr (flag_String args "auto-repair-max" (EnvOr env "COORD_AUTO_REPAIR_MAX" "100")) 100 in
  let conc := AtoiOr (flag_String args "auto-repair-concurrency" (EnvOr env "COORD_AUTO_REPAIR_CONCURRENCY" "4")) 4 in
  Some (MkTickers audit (if has_dnio then (λ d, (d, MkOpts true false true maxRep (Z.to_nat conc))) <$> d else None)).

(** ** What they guarantee *)
(** A repair ticker runs for real, on the copies the scrubber found corrupt and on stripes too, and
    only in a daemon that drives its data nodes. *)
Lemma repair_ticker_needs_dnio args env has_dnio t d opts : start_tickers args env has_dnio = Some t → t_repair t = Some (d, opts) →
  has_dnio = true ∧ (0 < d)%Z ∧ o_DryRun opts = false ∧ o_Corrupt opts = true ∧ o_EC opts = true.
Proof.
  unfold start_tickers. intros (audit & _ & (d0 & Hd & [= <-])%bind_Some)%bind_Some. cbn [t_repair]. destruct has_dnio; [|done].
  intros (d1 & -> & [= -> ->])%fmap_Some. split_and!; try done. clear -Hd. case_bool_decide; [done|].
  apply fmap_Some in Hd as (z & _ & Hz). unfold positive in Hz. destruct (Z.ltb_spec 0 z); [by injection Hz as <-|done].
Qed.
(** A CA for client certificates alone verifies nobody: without a certificate and a key of its
    own the node listens on plain HTTP. *)
Lemma client_ca_without_certificate args env open_tree LoadCertPool p :
  dn_main args env open_tree LoadCertPool = Some p → EnvOr env "DN_TLS_CERT" "" = "" → dn_Listener p = PlainHTTP.
Proof.
  unfold dn_main. destruct (_ || _); [done|]. intros (t & _ & (sc & _ & (ca & _ & [= <-])%bind_Some)%bind_Some)%bind_Some Hc. cbn.
  by rewrite Hc.
Qed.
Lemma client_ca_is_loaded_but_unused :
  let env k := if bool_decide (k = "DN_TLS_CLIENT_CA") then Some "ca.pem" else if bool_decide (k = "DN_ID") then Some "dn1"
               else if bool_decide (k = "DN_DATA_DIR") then Some "data" else None in
  dn_Listener <$> dn_main [] env (λ _, Some ∅) (λ _, true) = Some PlainHTTP ∧
  dn_main [] env (λ _, Some ∅) (λ _, false) = None.
Proof. vm_compute. done. Qed.
