(* ===== verification/Mux.v ===== *)
(** * net/http: the request multiplexer

    How a ServeMux of Go 1.22 and later finds the handler of a request: patterns of a method
    and of path segments, the conflicts it refuses, the tree it walks (literal segments before
    wildcards before a trailing wildcard), the cleaning of paths and the answers without a
    handler.  The patterns the program registers have no host and do not end in a slash. *)
From S2P Require Import Prelude GoLib S3Sig S3SigProps S3Sign.
From Stdlib Require Import Strings.Ascii.
#[local] Open Scope string_scope.

(** ** Patterns *)
(** [{name}] takes one segment, [{name...}] the rest of the path. *)
Inductive segment : Type := Lit (s : string) | Wild (name : string) | Multi (name : string).
#[export] Instance segment_eq_dec : EqDecision segment.
Proof. solve_decision. Defined.
Record pattern : Type := MkPattern { p_method : string; p_segs : list segment }.

Definition segment_of (s : string) : segment :=
  match strip_prefix "{" s with
  | None => Lit (pathUnescape s)
  | Some n =>
      let name := String.substring 0 (String.length n - 1) n in
      let bare := String.substring 0 (String.length name - 3) name in
      if bool_decide (name = bare ++ "...") then Multi bare else Wild name
  end.
(** ["PUT /v1/o/{bucket}/{key...}"] *)
Definition pattern_of (s : string) : pattern :=
  match cut s " " with
  | Some (m, p) => MkPattern m (segment_of <$> tail (split p "/"))
  | None => MkPattern "" (segment_of <$> tail (split s "/"))
  end.

(** ** Paths *)
(** [firstSegment]: the first segment, unescaped, and what follows it. *)
Definition firstSegment (path : string) : string * string :=
  if bool_decide (path = "/") then ("/", "")
  else
    let p := match path with String _ p => p | "" => "" end in
    match cut p "/" with
    | Some (seg, rest) => (pathUnescape seg, String "/" rest)
    | None => (pathUnescape p, "")
    end.

(** [path.Clean] of a rooted path: the segments kept, last one first. *)
Definition clean_step (kept : list string) (seg : string) : list string :=
  if bool_decide (seg = "") || bool_decide (seg = ".") then kept
  else if bool_decide (seg = "..") then tail kept
  else seg :: kept.
Definition path_Clean (p : string) : string := "/" ++ join (rev (foldl clean_step [] (split p "/"))) "/".
Definition ends_in_slash (p : string) : bool := match str_rev p with String c _ => bool_decide (c = "/"%char) | "" => false end.
Definition cleanPath (p : string) : string :=
  if bool_decide (p = "") then "/"
  else
    let p := if has_prefix p "/" then p else "/" ++ p in
    let np := path_Clean p in
    if ends_in_slash p && negb (bool_decide (np = "/")) then np ++ "/" else np.

(** ** Conflicts *)
Inductive relationship : Type := Equivalent | MoreGeneral | MoreSpecific | Disjoint | Overlaps.
#[export] Instance relationship_eq_dec : EqDecision relationship.
Proof. solve_decision. Defined.
Definition inverseRelationship (r : relationship) : relationship :=
  match r with MoreSpecific => MoreGeneral | MoreGeneral => MoreSpecific | r => r end.
Definition combineRelationships (r1 r2 : relationship) : relationship :=
  match r1 with
  | Equivalent => r2
  | Disjoint => Disjoint
  | Overlaps => if bool_decide (r2 = Disjoint) then Disjoint else Overlaps
  | MoreGeneral | MoreSpecific =>
      if bool_decide (r2 = Equivalent) then r1
      else if bool_decide (r2 = inverseRelationship r1) then Overlaps else r2
  end.
Definition compareSegments (s1 s2 : segment) : relationship :=
  match s1, s2 with
  | Multi _, Multi _ => Equivalent
  | Multi _, _ => MoreGeneral
  | _, Multi _ => MoreSpecific
  | Wild _, Wild _ => Equivalent
  | Wild _, Lit s => if bool_decide (s = "/") then Disjoint else MoreGeneral
  | Lit s, Wild _ => if bool_decide (s = "/") then Disjoint else MoreSpecific
  | Lit s, Lit t => if bool_decide (s = t) then Equivalent else Disjoint
  end.
Definition is_multi (s : segment) : bool := match s with Multi _ => true | _ => false end.
Definition ends_multi (l : list segment) : bool := match last l with Some s => is_multi s | None => false end.
(** The segments in step; [m1], [m2]: whether each pattern ends in a trailing wildcard. *)
Fixpoint compare_loop (m1 m2 : bool) (l1 l2 : list segment) (rel : relationship) : relationship :=
  match l1, l2 with
  | [], [] => rel
  | s1 :: l1, s2 :: l2 =>
      let rel := combineRelationships rel (compareSegments s1 s2) in
      if bool_decide (rel = Disjoint) then Disjoint else compare_loop m1 m2 l1 l2 rel
  | [], _ :: _ => if m1 then combineRelationships rel MoreGeneral else Disjoint
  | _ :: _, [] => if m2 then combineRelationships rel MoreSpecific else Disjoint
  end.
Definition comparePaths (l1 l2 : list segment) : relationship :=
  if negb (length l1 =? length l2)%nat && negb (ends_multi l1) && negb (ends_multi l2) then Disjoint
  else compare_loop (ends_multi l1) (ends_multi l2) l1 l2 Equivalent.
Definition compareMethods (m1 m2 : string) : relationship :=
  if bool_decide (m1 = m2) then Equivalent
  else if bool_decide (m1 = "") then MoreGeneral
  else if bool_decide (m2 = "") then MoreSpecific
  else if bool_decide (m1 = "GET") && bool_decide (m2 = "HEAD") then MoreGeneral
  else if bool_decide (m1 = "HEAD") && bool_decide (m2 = "GET") then MoreSpecific
  else Disjoint.
Definition comparePatterns (p q : pattern) : relationship :=
  let m := compareMethods (p_method p) (p_method q) in
  if bool_decide (m = Disjoint) then Disjoint else combineRelationships m (comparePaths (p_segs p) (p_segs q)).
Definition conflictsWith (p q : pattern) : bool :=
  let r := comparePatterns p q in bool_decide (r = Equivalent) || bool_decide (r = Overlaps).

Section mux.
Context {H : Type}.

(** ** Registration *)
Record ServeMux : Type := MkMux { entries : list (pattern * H) }.
Definition NewServeMux : ServeMux := MkMux [].
(** [None] is the panic on a conflicting pattern. *)
Definition HandleFunc (s : string) (h : H) (m : ServeMux) : option ServeMux :=
  let p := pattern_of s in
  if existsb (λ e, conflictsWith p e.1) (entries m) then None else Some (MkMux (entries m ++ [(p, h)])).
Definition register_all (l : list (string * H)) (m : ServeMux) : option ServeMux :=
  foldl (λ m e, m ≫= HandleFunc e.1 e.2) (Some m) l.

(** ** The walk through the tree *)
(** A node of the tree is what is left of the patterns that lead to it. *)
Abbreviation node := (list (list segment * (pattern * H))).
Definition lit_child (seg : string) (n : node) : node :=
  omap (λ e, match e.1 with Lit s :: l => if bool_decide (s = seg) then Some (l, e.2) else None | _ => None end) n.
Definition wild_child (n : node) : node :=
  omap (λ e, match e.1 with Wild _ :: l => Some (l, e.2) | _ => None end) n.
Definition multi_child (n : node) : option (string * (pattern * H)) :=
  head (omap (λ e, match e.1 with Multi s :: _ => Some (s, e.2) | _ => None end) n).
Definition leaf (n : node) : option (pattern * H) :=
  head (omap (λ e, match e.1 with [] => Some e.2 | _ => None end) n).

(** Every step shortens the path: its length is enough fuel. *)
Fixpoint matchPath (fuel : nat) (n : node) (path : string) (ms : list string) : option ((pattern * H) * list string) :=
  match fuel with
  | O => None
  | S fuel =>
      if bool_decide (path = "") then leaf n ≫= λ e, Some (e, ms)
      else
        let '(seg, rest) := firstSegment path in
        match matchPath fuel (lit_child seg n) rest ms with
        | Some r => Some r
        | None =>
            match (if bool_decide (seg = "/") then None else matchPath fuel (wild_child n) rest (ms ++ [seg])%list) with
            | Some r => Some r
            | None =>
                match multi_child n with
                | Some (name, e) =>
                    Some (e, if bool_decide (name = "") then ms
                             else (ms ++ [pathUnescape (match path with String _ p => p | "" => "" end)])%list)
                | None => None
                end
            end
        end
  end.
Definition node_of_method (m : ServeMux) (method : string) : node :=
  omap (λ e, if bool_decide (p_method e.1 = method) then Some (p_segs e.1, e) else None) (entries m).
Definition match_in (m : ServeMux) (method path : string) : option ((pattern * H) * list string) :=
  matchPath (S (String.length path)) (node_of_method m method) path [].
(** [matchMethodAndPath]: GET serves HEAD too. *)
Definition match_request (m : ServeMux) (method path : string) : option ((pattern * H) * list string) :=
  match match_in m method path with
  | Some r => Some r
  | None =>
      match (if bool_decide (method = "HEAD") then match_in m "GET" path else None) with
      | Some r => Some r
      | None => match_in m "" path
      end
  end.

(** [exactMatch]: a trailing wildcard took nothing but the slash. *)
Definition count_slashes (path : string) : nat := length (filter (λ c, c = "/"%char) (chars path)).
Definition exactMatch (r : option ((pattern * H) * list string)) (path : string) : bool :=
  match r with
  | None => false
  | Some ((p, _), _) =>
      if negb (ends_multi (p_segs p)) then true
      else if negb (bool_decide (path = "")) && negb (ends_in_slash path) then false
      else (length (p_segs p) =? count_slashes path)%nat
  end.
(** [matchOrRedirect]: whether to redirect to the path with a slash added. *)
Definition wants_slash (m : ServeMux) (method path : string) : bool :=
  negb (exactMatch (match_request m method path) path) && negb (ends_in_slash path) && negb (bool_decide (path = "")) &&
  exactMatch (match_request m method (path ++ "/")) (path ++ "/").

(** [matchingMethods]: the methods with which the path would have been served. *)
Definition methods_of (m : ServeMux) : list string := remove_dups ((λ e, p_method e.1) <$> entries m).
Definition serving_methods (m : ServeMux) (path : string) : list string :=
  filter (λ me, me ≠ "" ∧ is_Some (match_in m me path)) (methods_of m).
Definition matchingMethods (m : ServeMux) (path : string) : list string :=
  let ms := (serving_methods m path ++ (if ends_in_slash path then [] else serving_methods m (path ++ "/")))%list in
  sort_strings (remove_dups (if bool_decide ("GET" ∈ ms) then (ms ++ ["HEAD"])%list else ms)).

(** ** What a request gets *)
Inductive served : Type :=
  | Served (h : H) (values : list (string * string)) | Redirect (path : string)
  | MethodNotAllowed (allow : list string) | NotFound.
(** [r.PathValue]: the named wildcards of the pattern with what they took. *)
Definition wild_names (l : list segment) : list string :=
  omap (λ s, match s with Wild n => Some n | Multi n => if bool_decide (n = "") then None else Some n | Lit _ => None end) l.
Definition PathValue (values : list (string * string)) (name : string) : string :=
  default "" (snd <$> List.find (λ v, bool_decide (v.1 = name)) values).
Definition found (r : option ((pattern * H) * list string)) : option served :=
  match r with
  | Some ((p, h), ms) => Some (Served h (zip (wild_names (p_segs p)) ms))
  | None => None
  end.
Definition unserved (m : ServeMux) (path : string) : served :=
  match matchingMethods m path with [] => NotFound | (_ :: _) as ms => MethodNotAllowed ms end.
(** [findHandler], for the escaped path of the request.  A CONNECT is not redirected to the
    cleaned path. *)
Definition findHandler (m : ServeMux) (method escaped : string) : served :=
  let path := if bool_decide (method = "CONNECT") then escaped else cleanPath escaped in
  if wants_slash m method path then Redirect (cleanPath (pathUnescape escaped) ++ "/")
  else if negb (bool_decide (path = escaped)) then Redirect path
  else default (unserved m path) (found (match_request m method path)).
End mux.
Arguments ServeMux : clear implicits.
Arguments served : clear implicits.

(** ** What a pattern matches *)
(** The values of the wildcards, if the whole path is matched. *)
Fixpoint fits (l : list segment) (path : string) : option (list string) :=
  match l with
  | [] => if bool_decide (path = "") then Some [] else None
  | s :: l =>
      if bool_decide (path = "") then None
      else
        let '(seg, rest) := firstSegment path in
        match s with
        | Lit t => if bool_decide (t = seg) then fits l rest else None
        | Wild _ => if bool_decide (seg = "/") then None else cons seg <$> fits l rest
        | Multi n => Some (if bool_decide (n = "") then [] else [pathUnescape (match path with String _ p => p | "" => "" end)])
        end
  end.
(** A trailing wildcard is trailing. *)
Fixpoint trailing (l : list segment) : bool :=
  match l with [] => true | [_] => true | s :: l => negb (is_multi s) && trailing l end.

Lemma cut_length s c a b : cut s c = Some (a, b) → String.length b < String.length s.
Proof.
  revert a. induction s as [|d s IH]; intros a; simpl; [done|].
  destruct (bool_decide_reflect (d = c)); [intros [= <- <-]; lia|].
  destruct (cut s c) as [[a' b']|]; [|done]. intros [= <- <-]. specialize (IH a' eq_refl). lia.
Qed.
Lemma firstSegment_shorter path : path ≠ "" → String.length (firstSegment path).2 < String.length path.
Proof.
  intros Hp. unfold firstSegment. destruct (bool_decide_reflect (path = "/")) as [->|]; [simpl; lia|].
  destruct path as [|c p]; [done|]. destruct (cut p "/") as [[a b]|] eqn:Hc; simpl; [|lia].
  apply cut_length in Hc. lia.
Qed.

(** ** The multiplexer against its specification

    For a table whose patterns of one method are pairwise disjoint, the walk through the tree
    finds exactly the entry whose pattern fits the path. *)

Section walk.
Context {H : Type}.
Abbreviation node := (list (list segment * (pattern * H))).
Implicit Types (n : node) (e : pattern * H).

Lemma elem_of_lit_child seg n l e : (l, e) ∈ lit_child seg n ↔ (Lit seg :: l, e) ∈ n.
Proof.
  unfold lit_child. rewrite list_elem_of_omap. split.
  - intros ([[|[s|s|s] l'] e'] & Hin & Hx); simpl in Hx; try done. case_bool_decide; naive_solver.
  - intros Hin. eexists. split; [exact Hin|]. simpl. by rewrite bool_decide_true.
Qed.
Lemma elem_of_wild_child n l e : (l, e) ∈ wild_child n ↔ ∃ w, (Wild w :: l, e) ∈ n.
Proof.
  unfold wild_child. rewrite list_elem_of_omap. split.
  - intros ([[|[s|s|s] l'] e'] & Hin & Hx); naive_solver.
  - intros [w Hin]. by eexists.
Qed.
Lemma head_omap_Some {A B} (f : A → option B) l y : head (omap f l) = Some y → ∃ x, x ∈ l ∧ f x = Some y.
Proof. intros Hh. apply list_elem_of_omap. destruct (omap f l); [done|]. injection Hh as ->. apply elem_of_cons. by left. Qed.
Lemma head_omap_is_Some {A B} (f : A → option B) l x y : x ∈ l → f x = Some y → is_Some (head (omap f l)).
Proof.
  intros Hx Hf. assert (y ∈ omap f l) as Hy by (apply list_elem_of_omap; eauto).
  destruct (omap f l); [by apply not_elem_of_nil in Hy | done].
Qed.
Lemma leaf_Some n e : leaf n = Some e → ([], e) ∈ n.
Proof. intros ([[|] e'] & Hin & Hx)%head_omap_Some; naive_solver. Qed.
Lemma multi_child_Some n s e : multi_child n = Some (s, e) → ∃ l, (Multi s :: l, e) ∈ n.
Proof. intros ([[|[?|?|?] l'] e'] & Hin & Hx)%head_omap_Some; naive_solver. Qed.

Lemma matchPath_sound fuel n path ms e ms' :
  matchPath fuel n path ms = Some (e, ms') → ∃ l vs, (l, e) ∈ n ∧ fits l path = Some vs ∧ ms' = (ms ++ vs)%list.
Proof.
  revert n path ms. induction fuel as [|fuel IH]; intros n path ms; [done|]. cbn [matchPath].
  destruct (bool_decide_reflect (path = "")) as [->|Hp].
  { destruct (leaf n) as [e'|] eqn:Hl; [|done]. intros [= <- <-]. exists [], [].
    rewrite app_nil_r. by apply leaf_Some in Hl. }
  destruct (firstSegment path) as [seg rest] eqn:Hf.
  destruct (matchPath fuel (lit_child seg n) rest ms) as [r|] eqn:Hlit.
  { intros [= ->]. destruct (IH _ _ _ Hlit) as (l & vs & Hin & Hfit & ->). exists (Lit seg :: l), vs.
    apply elem_of_lit_child in Hin. cbn [fits]. by rewrite bool_decide_false, Hf, bool_decide_true by done. }
  destruct (if bool_decide (seg = "/") then None else matchPath fuel (wild_child n) rest (ms ++ [seg])) as [r|] eqn:Hw.
  { intros [= ->]. destruct (bool_decide_reflect (seg = "/")) as [|Hs]; [done|].
    destruct (IH _ _ _ Hw) as (l & vs & [w Hin]%elem_of_wild_child & Hfit & ->). exists (Wild w :: l), (seg :: vs).
    cbn [fits]. rewrite (bool_decide_false (path = "")), Hf, bool_decide_false, Hfit by done.
    by rewrite <- (assoc_L (++)). }
  destruct (multi_child n) as [[s e']|] eqn:Hm; [|done]. intros [= <- <-].
  apply multi_child_Some in Hm as [l Hin]. eexists _, _. split; [exact Hin|]. cbn [fits].
  rewrite bool_decide_false, Hf by done. split; [done|]. destruct (bool_decide (s = "")); by rewrite ?app_nil_r.
Qed.

Lemma matchPath_complete fuel n path ms l e vs :
  String.length path < fuel → (l, e) ∈ n → fits l path = Some vs → is_Some (matchPath fuel n path ms).
Proof.
  revert n path ms l vs. induction fuel as [|fuel IH]; intros n path ms l vs Hlen Hin; [lia|]. cbn [matchPath].
  destruct (bool_decide_reflect (path = "")) as [->|Hp].
  { destruct l; [|done]. intros _.
    destruct (head_omap_is_Some (λ x, match x.1 with [] => Some x.2 | _ => None end) n ([], e) e Hin eq_refl) as [y Hy].
    unfold leaf. rewrite Hy. by eexists. }
  pose proof (firstSegment_shorter path Hp) as Hs. destruct (firstSegment path) as [seg rest] eqn:Hf. simpl in Hs.
  intros Hfit. destruct (matchPath fuel (lit_child seg n) rest ms) as [r|] eqn:Hlit; [by eexists|].
  destruct (if bool_decide (seg = "/") then None else _) as [r|] eqn:Hw; [by eexists|].
  destruct l as [|s l]; cbn [fits] in Hfit; rewrite bool_decide_false in Hfit by done; [done|]. rewrite Hf in Hfit.
  destruct s as [t|w|w].
  - exfalso. destruct (bool_decide_reflect (t = seg)) as [->|]; [|done]. destruct (IH (lit_child seg n) rest ms l vs) as [? Hx];
      [lia | by apply elem_of_lit_child | done | congruence].
  - exfalso. destruct (bool_decide_reflect (seg = "/")); [done|]. destruct (fits l rest) as [vs'|] eqn:Hr; [|done].
    destruct (IH (wild_child n) rest (ms ++ [seg])%list l vs') as [? Hx]; [lia | apply elem_of_wild_child; eauto | done | congruence].
  - destruct (head_omap_is_Some (λ x, match x.1 with Multi s :: _ => Some (s, x.2) | _ => None end) n
      (Multi w :: l, e) (w, e) Hin eq_refl) as [[s' e'] Hy]. unfold multi_child. rewrite Hy. by eexists.
Qed.
End walk.

(** ** Disjoint patterns *)
Lemma trailing_cons s l : trailing (s :: l) = true → (is_multi s = false ∨ l = []) ∧ trailing l = true.
Proof. destruct l as [|s' l]; [by auto|]. cbn [trailing]. intros [Hs Hl]%andb_prop. apply negb_true_iff in Hs. auto. Qed.
Lemma ends_multi_cons s l : is_multi s = false → ends_multi (s :: l) = ends_multi l.
Proof. intros Hs. unfold ends_multi. destruct l; [simpl; done | by rewrite last_cons_cons]. Qed.

Lemma combine_disjoint r1 r2 : combineRelationships r1 r2 = Disjoint → r1 = Disjoint ∨ r2 = Disjoint.
Proof. destruct r1, r2; cbn; naive_solver. Qed.

(** Two segments that share no text take different ones. *)
Lemma segments_disjoint s1 s2 l1 l2 path v1 v2 :
  compareSegments s1 s2 = Disjoint → fits (s1 :: l1) path = Some v1 → fits (s2 :: l2) path = Some v2 → False.
Proof.
  cbn [fits]. case_bool_decide; [done|]. destruct (firstSegment path) as [seg rest].
  destruct s1, s2; simpl; repeat case_bool_decide; naive_solver.
Qed.
Lemma fits_tails s1 s2 l1 l2 path v1 v2 :
  is_multi s1 = false → is_multi s2 = false → fits (s1 :: l1) path = Some v1 → fits (s2 :: l2) path = Some v2 →
  ∃ rest w1 w2, fits l1 rest = Some w1 ∧ fits l2 rest = Some w2.
Proof.
  cbn [fits]. case_bool_decide; [done|]. destruct (firstSegment path) as [seg rest]. exists rest.
  destruct (fits l1 rest), (fits l2 rest); destruct s1, s2; simpl in *; repeat case_bool_decide; naive_solver.
Qed.

Lemma loop_disjoint l1 l2 rel path v1 v2 :
  trailing l1 = true → trailing l2 = true → rel ≠ Disjoint →
  compare_loop (ends_multi l1) (ends_multi l2) l1 l2 rel = Disjoint →
  fits l1 path = Some v1 → fits l2 path = Some v2 → False.
Proof.
  revert l2 rel path v1 v2. induction l1 as [|s1 l1 IH]; intros [|s2 l2] rel path v1 v2 T1 T2 Hr; [done|..].
  - simpl. intros _. case_bool_decide; naive_solver.
  - simpl. intros _. case_bool_decide; naive_solver.
  - intros Hc F1 F2. apply trailing_cons in T1 as [M1 T1]; apply trailing_cons in T2 as [M2 T2].
    cbn [compare_loop] in Hc. destruct (bool_decide_reflect (combineRelationships rel (compareSegments s1 s2) = Disjoint)) as [Hd|Hd].
    { apply combine_disjoint in Hd as [Hd|Hd]; [done | by eapply segments_disjoint]. }
    assert (∀ r r', r ≠ Disjoint → r' ≠ Disjoint → combineRelationships r r' ≠ Disjoint) as Hcomb
      by (intros r r' ?? [?|?]%combine_disjoint; done).
    destruct (is_multi s1) eqn:E1; [|destruct (is_multi s2) eqn:E2].
    + destruct M1 as [M1|M1]; [done|]. subst l1. destruct l2; cbn [compare_loop] in Hc; [done|].
      replace (ends_multi [s1]) with true in Hc by (unfold ends_multi; simpl; by rewrite E1). by eapply Hcomb in Hc.
    + destruct M2 as [M2|M2]; [done|]. subst l2. destruct l1; cbn [compare_loop] in Hc; [done|].
      replace (ends_multi [s2]) with true in Hc by (unfold ends_multi; simpl; by rewrite E2). by eapply Hcomb in Hc.
    + rewrite !ends_multi_cons in Hc by done.
      destruct (fits_tails s1 s2 l1 l2 path v1 v2) as (rest & w1 & w2 & G1 & G2); [done..|]. by eapply IH.
Qed.
Lemma fits_same_length l1 l2 path v1 v2 :
  trailing l1 = true → trailing l2 = true → ends_multi l1 = false → ends_multi l2 = false →
  fits l1 path = Some v1 → fits l2 path = Some v2 → length l1 = length l2.
Proof.
  revert l2 path v1 v2. induction l1 as [|s1 l1 IH]; intros [|s2 l2] path v1 v2 T1 T2 E1 E2 F1 F2; [done|..].
  - simpl in F1, F2. case_bool_decide; naive_solver.
  - simpl in F1, F2. case_bool_decide; naive_solver.
  - apply trailing_cons in T1 as [M1 T1]; apply trailing_cons in T2 as [M2 T2].
    assert (∀ s l, ends_multi (s :: l) = false → is_multi s = false ∨ l = [] → is_multi s = false) as Hs.
    { intros s l He Hx. destruct Hx as [Hx|Hx]; [done|]. subst l. exact He. }
    assert (is_multi s1 = false) as N1 by (eapply Hs; eauto). assert (is_multi s2 = false) as N2 by (eapply Hs; eauto).
    rewrite ends_multi_cons in E1, E2 by done.
    destruct (fits_tails s1 s2 l1 l2 path v1 v2) as (rest & w1 & w2 & G1 & G2); [done..|]. simpl. f_equal. by eapply IH.
Qed.
Lemma paths_disjoint l1 l2 path v1 v2 :
  trailing l1 = true → trailing l2 = true → comparePaths l1 l2 = Disjoint →
  fits l1 path = Some v1 → fits l2 path = Some v2 → False.
Proof.
  intros T1 T2. unfold comparePaths. destruct (_ && _) eqn:Hg; intros Hc F1 F2; [|by eapply (loop_disjoint l1 l2 Equivalent)].
  apply andb_prop in Hg as [[Hl E1]%andb_prop E2]. apply negb_true_iff in Hl, E1, E2. apply Nat.eqb_neq in Hl.
  apply Hl. by eapply fits_same_length.
Qed.

(** ** Tables *)
Section table.
Context {H : Type}.
Implicit Types (m : ServeMux H) (e : pattern * H).

Definition apart e e' : bool :=
  negb (bool_decide (p_method e.1 = p_method e'.1)) || bool_decide (comparePaths (p_segs e.1) (p_segs e'.1) = Disjoint).
Fixpoint separate (l : list (pattern * H)) : bool :=
  match l with [] => true | e :: l => trailing (p_segs e.1) && forallb (apart e) l && separate l end.

Lemma separate_trailing l e : separate l = true → e ∈ l → trailing (p_segs e.1) = true.
Proof. induction l as [|e' l IH]; [by intros _ ?%not_elem_of_nil|]. intros [[??]%andb_prop ?]%andb_prop [->|]%elem_of_cons; auto. Qed.
Lemma apart_fits e e' path v v' :
  trailing (p_segs e.1) = true → trailing (p_segs e'.1) = true → apart e e' = true → p_method e.1 = p_method e'.1 →
  fits (p_segs e.1) path = Some v → fits (p_segs e'.1) path = Some v' → False.
Proof.
  intros T T' Ha Hm. unfold apart in Ha. rewrite bool_decide_true in Ha by done. apply bool_decide_eq_true in Ha.
  by eapply paths_disjoint.
Qed.
Lemma separate_unique l e e' path v v' :
  separate l = true → e ∈ l → e' ∈ l → p_method e.1 = p_method e'.1 →
  fits (p_segs e.1) path = Some v → fits (p_segs e'.1) path = Some v' → e = e'.
Proof.
  revert v v'. induction l as [|a l IH]; intros v v' Hs; [by intros ?%not_elem_of_nil|].
  pose proof (separate_trailing _ e Hs) as Te. pose proof (separate_trailing _ e' Hs) as Te'.
  apply andb_prop in Hs as [[Ta Hf]%andb_prop Hs]. rewrite forallb_forall in Hf.
  assert (∀ x, x ∈ l → apart a x = true) as Hf' by (intros x Hx; apply Hf; by apply list_elem_of_In).
  intros [->|He]%elem_of_cons [->|He']%elem_of_cons Hm F F'; [done|..|by eapply IH]; exfalso.
  - eapply (apart_fits a e'); eauto. apply Te'. by right.
  - eapply (apart_fits a e); eauto. apply Te. by right.
Qed.

(** The walk finds the one entry of the method whose pattern fits. *)
Lemma match_in_spec m method path e vs : separate (entries m) = true →
  match_in m method path = Some (e, vs) ↔ e ∈ entries m ∧ p_method e.1 = method ∧ fits (p_segs e.1) path = Some vs.
Proof.
  intros Hs. assert (∀ l e, (l, e) ∈ node_of_method m method ↔ l = p_segs e.1 ∧ e ∈ entries m ∧ p_method e.1 = method) as Hn.
  { intros l a. unfold node_of_method. rewrite list_elem_of_omap. split.
    - intros (x & Hx & Hy). case_bool_decide; naive_solver.
    - intros (-> & Ha & Hm). exists a. by rewrite bool_decide_true. }
  split.
  - intros (l & ws & (-> & Hin & Hm)%Hn & Hf & ->)%matchPath_sound. auto.
  - intros (Hin & Hm & Hf).
    destruct (matchPath_complete (S (String.length path)) (node_of_method m method) path [] (p_segs e.1) e vs)
      as [[e' vs'] Hmatch]; [lia | by apply Hn | done |].
    unfold match_in. rewrite Hmatch. apply matchPath_sound in Hmatch as (l & ws & (-> & Hin' & Hm')%Hn & Hf' & ->).
    assert (e' = e) as -> by (eapply (separate_unique (entries m)); eauto; congruence). simpl. congruence.
Qed.
Lemma match_in_None m method path : separate (entries m) = true →
  match_in m method path = None ↔ ∀ e vs, e ∈ entries m → p_method e.1 = method → fits (p_segs e.1) path ≠ Some vs.
Proof.
  intros Hs. split.
  - intros Hn e vs Hin Hm Hf. assert (match_in m method path = Some (e, vs)) by (by apply match_in_spec). congruence.
  - intros Hall. destruct (match_in m method path) as [[e vs]|] eqn:Hm; [|done].
    apply match_in_spec in Hm as (Hin & Hme & Hf); [|done]. by destruct (Hall e vs).
Qed.
End table.

(** ** Plain paths *)
(** A segment that cleaning leaves alone; a path made of such segments. *)
Definition plain (s : string) : Prop := s ≠ "" ∧ s ≠ "." ∧ s ≠ ".." ∧ no_char "/" s.
#[export] Instance plain_dec s : Decision (plain s).
Proof. unfold plain. apply _. Defined.
Definition path_of (segs : list string) : string := "/" ++ join segs "/".
(** [fits], segment by segment. *)
Fixpoint fits_segs (l : list segment) (segs : list string) : option (list string) :=
  match l, segs with
  | [], [] => Some []
  | Lit t :: l, s :: segs => if bool_decide (t = pathUnescape s) then fits_segs l segs else None
  | Wild _ :: l, s :: segs => if bool_decide (pathUnescape s = "/") then None else cons (pathUnescape s) <$> fits_segs l segs
  | Multi n :: _, _ :: _ => Some (if bool_decide (n = "") then [] else [pathUnescape (join segs "/")])
  | _, _ => None
  end.

Lemma path_of_cons s l : path_of (s :: l) = "/" ++ s ++ match l with [] => "" | _ => path_of l end.
Proof. destruct l; [simpl; by rewrite string_app_nil_r | done]. Qed.
Lemma plain_path_ne segs : segs ≠ [] → Forall plain segs → path_of segs ≠ "/".
Proof. destruct segs as [|s l]; [done|]. intros _ [[Hs _] _]%Forall_cons. rewrite path_of_cons. by destruct s. Qed.

Lemma firstSegment_app s p : s ≠ "" → no_char "/" s → firstSegment ("/" ++ s ++ String "/" p) = (pathUnescape s, String "/" p).
Proof.
  intros Hs Hn. unfold firstSegment. rewrite bool_decide_false by (by destruct s). gostr.
  by rewrite cut_app.
Qed.
Lemma firstSegment_one s : s ≠ "" → no_char "/" s → firstSegment ("/" ++ s) = (pathUnescape s, "").
Proof.
  intros Hs Hn. unfold firstSegment. rewrite bool_decide_false by (by destruct s). gostr.
  by rewrite (proj2 (cut_none s "/")).
Qed.
Lemma firstSegment_path_of s l : plain s → firstSegment (path_of (s :: l)) = (pathUnescape s, match l with [] => "" | _ => path_of l end).
Proof.
  intros (Hs & _ & _ & Hn). rewrite path_of_cons. destruct l as [|t l].
  - rewrite string_app_nil_r. by apply firstSegment_one.
  - unfold path_of at 1. by apply firstSegment_app.
Qed.

Lemma fits_path_of l segs : segs ≠ [] → Forall plain segs → fits l (path_of segs) = fits_segs l segs.
Proof.
  revert segs. induction l as [|s l IH]; intros segs Hne Hp; [by destruct segs|].
  destruct segs as [|t segs]; [done|]. apply Forall_cons in Hp as [Ht Hp].
  cbn [fits fits_segs]. rewrite bool_decide_false by done. rewrite firstSegment_path_of by done.
  assert (fits l (match segs with [] => "" | _ => path_of segs end) = fits_segs l segs) as Hl.
  { destruct segs as [|t' segs]; [by destruct l as [|[]]|]. by apply IH. }
  rewrite Hl. destruct s; [done..|]. done.
Qed.

Lemma ends_in_slash_spec p : ends_in_slash p = bool_decide (last (chars p) = Some "/"%char).
Proof.
  unfold ends_in_slash. assert (chars (str_rev p) = reverse (chars p)) as Hr by apply chars_rev.
  rewrite <- head_reverse, <- Hr. destruct (str_rev p); simpl; [done|].
  apply bool_decide_ext. naive_solver.
Qed.
Lemma ends_in_slash_app a b : b ≠ "" → ends_in_slash (a ++ b) = ends_in_slash b.
Proof.
  intros Hb. rewrite !ends_in_slash_spec, chars_app, last_app.
  destruct (last (chars b)) eqn:Hl; [done|]. apply last_None in Hl. by destruct b.
Qed.
Lemma plain_no_slash_end s : plain s → ends_in_slash s = false.
Proof.
  intros (_ & _ & _ & Hn). rewrite ends_in_slash_spec. apply bool_decide_eq_false. intros Hl.
  apply Hn. by eapply last_Some_elem_of.
Qed.
Lemma path_of_no_slash_end segs : segs ≠ [] → Forall plain segs → ends_in_slash (path_of segs) = false.
Proof.
  induction segs as [|s l IH]; [done|]. intros _ [Hs Hp]%Forall_cons. rewrite path_of_cons.
  destruct l as [|t l].
  - rewrite string_app_nil_r, ends_in_slash_app by apply Hs. by apply plain_no_slash_end.
  - rewrite !ends_in_slash_app; [by apply IH | done | by destruct s].
Qed.

Lemma split_path_of segs : segs ≠ [] → Forall plain segs → split (path_of segs) "/" = "" :: segs.
Proof.
  intros Hne Hp. unfold path_of. change ("/" ++ join segs "/")%string with (String "/" (join segs "/")). simpl.
  f_equal. apply split_join; [done|]. rewrite Forall_forall in Hp. intros s Hs. by apply Hp.
Qed.
Lemma clean_plain segs kept : Forall plain segs → foldl clean_step kept segs = (rev segs ++ kept)%list.
Proof.
  revert kept. induction segs as [|s l IH]; intros kept; [done|]. intros [(H1 & H2 & H3 & _) Hp]%Forall_cons. simpl.
  assert (clean_step kept s = s :: kept) as -> by (unfold clean_step; by rewrite !bool_decide_false).
  rewrite IH by done. by rewrite <- (assoc_L (++)%list).
Qed.
Lemma cleanPath_path_of segs : segs ≠ [] → Forall plain segs → cleanPath (path_of segs) = path_of segs.
Proof.
  intros Hne Hp. unfold cleanPath. rewrite bool_decide_false by done. assert (has_prefix (path_of segs) "/" = true) as -> by (apply has_prefix_spec; eexists; reflexivity).
  cbv iota. rewrite path_of_no_slash_end by done. simpl andb. cbv iota. unfold path_Clean.
  rewrite split_path_of by done. cbn [foldl]. change (clean_step [] "") with (@nil string).
  by rewrite clean_plain, app_nil_r, rev_involutive.
Qed.

(** ** A trailing slash *)
Lemma count_slashes_app a b : count_slashes (a ++ b) = (count_slashes a + count_slashes b)%nat.
Proof. unfold count_slashes. by rewrite chars_app, filter_app, length_app. Qed.
Lemma count_slashes_none s : no_char "/" s → count_slashes s = 0.
Proof.
  intros Hn. unfold count_slashes. apply length_zero_iff_nil.
  destruct (filter _ _) as [|c l] eqn:Hf; [done|]. exfalso. apply Hn.
  assert (c ∈ filter (λ c, c = "/"%char) (chars s)) as Hc by (rewrite Hf; apply elem_of_cons; by left).
  apply list_elem_of_filter in Hc as [-> Hc]. exact Hc.
Qed.
Lemma count_slashes_path_of segs : segs ≠ [] → Forall plain segs → count_slashes (path_of segs) = length segs.
Proof.
  induction segs as [|s l IH]; [done|]. intros _ [Hs Hp]%Forall_cons. rewrite path_of_cons, !count_slashes_app.
  rewrite (count_slashes_none s) by apply Hs. change (count_slashes "/") with 1.
  destruct l as [|t l]; [done|]. rewrite IH by done. done.
Qed.
Lemma firstSegment_slashed s l : plain s →
  firstSegment (path_of (s :: l) ++ "/") = (pathUnescape s, match l with [] => "/" | _ => path_of l ++ "/" end).
Proof.
  intros (Hs & _ & _ & Hn). rewrite path_of_cons. destruct l as [|t l].
  - rewrite string_app_nil_r, <- string_app_assoc. by apply firstSegment_app.
  - rewrite <- !string_app_assoc. unfold path_of at 1. rewrite <- !string_app_assoc. by apply firstSegment_app.
Qed.
Lemma fits_slashed l segs vs :
  segs ≠ [] → Forall plain segs → trailing l = true → ends_multi l = true → fits_segs l segs = Some vs →
  is_Some (fits l (path_of segs ++ "/")) ∧ (length l ≤ length segs)%nat.
Proof.
  revert segs vs. induction l as [|s l IH]; intros segs vs Hne Hp Ht He; [done|].
  destruct segs as [|t segs]; [done|]. apply Forall_cons in Hp as [Hpt Hp].
  destruct (is_multi s) eqn:Hs.
  - apply trailing_cons in Ht as [[Hx|Hx] _]; [congruence|]. subst l. destruct s; [done..|]. intros _.
    split; [|simpl; lia]. cbn [fits]. rewrite bool_decide_false by done. destruct (firstSegment _). by eexists.
  - apply trailing_cons in Ht as [_ Ht]. rewrite ends_multi_cons in He by done. intros Hf.
    assert (∃ vs', fits_segs l segs = Some vs') as [vs' Hf'].
    { destruct s; [| |done]; simpl in Hf; case_bool_decide; try done; [by eauto|].
      destruct (fits_segs l segs); [by eauto | done]. }
    destruct segs as [|t' segs]; [by destruct l as [|[]]|].
    destruct (IH (t' :: segs) vs' ltac:(done) Hp Ht He Hf') as [[ws Hw] Hle]. split; [|simpl in *; lia].
    cbn [fits]. rewrite bool_decide_false by done. rewrite firstSegment_slashed by done. rewrite Hw.
    destruct s; [| |done]; simpl in Hf; case_bool_decide; try done; by eexists.
Qed.

(** ** Requests for plain paths *)
Section requests.
Context {H : Type}.
Implicit Types (m : ServeMux H) (e : pattern * H).

Lemma match_request_some m method path r : match_in m method path = Some r → match_request m method path = Some r.
Proof. intros Hm. unfold match_request. by rewrite Hm. Qed.

(** No redirect adds a slash to a plain path that a pattern fits. *)
Lemma no_slash_wanted m e segs vs :
  separate (entries m) = true → e ∈ entries m → segs ≠ [] → Forall plain segs → fits_segs (p_segs e.1) segs = Some vs →
  wants_slash m (p_method e.1) (path_of segs) = false.
Proof.
  intros Hsep Hin Hne Hp Hf. assert (match_in m (p_method e.1) (path_of segs) = Some (e, vs)) as Hm.
  { apply match_in_spec; [done|]. by rewrite fits_path_of. }
  unfold wants_slash. rewrite (match_request_some _ _ _ _ Hm), path_of_no_slash_end by done. destruct e as [p h]. simpl in *.
  destruct (ends_multi (p_segs p)) eqn:He; [|simpl; rewrite ?He; done].
  destruct (fits_slashed (p_segs p) segs vs) as [[ws Hw] Hlen]; [done | done | by apply (separate_trailing _ (p, h) Hsep) | done | done |].
  assert (match_in m (p_method p) (path_of segs ++ "/") = Some ((p, h), ws)) as Hm2 by (by apply match_in_spec).
  rewrite (match_request_some _ _ _ _ Hm2). cbn [exactMatch]. rewrite He. simpl negb. cbv iota.
  rewrite (ends_in_slash_app _ "/") by done. rewrite count_slashes_app, count_slashes_path_of by done.
  change (ends_in_slash "/") with true. rewrite andb_false_r.
  replace (length (p_segs p) =? length segs + count_slashes "/")%nat with false; [by rewrite andb_false_r|].
  symmetry. apply Nat.eqb_neq. change (count_slashes "/") with 1. lia.
Qed.

Theorem plain_served m p h segs vs :
  separate (entries m) = true → (p, h) ∈ entries m → segs ≠ [] → Forall plain segs → fits_segs (p_segs p) segs = Some vs →
  findHandler m (p_method p) (path_of segs) = Served h (zip (wild_names (p_segs p)) vs).
Proof.
  intros Hsep Hin Hne Hp Hf. unfold findHandler. rewrite cleanPath_path_of by done.
  assert ((if bool_decide (p_method p = "CONNECT") then path_of segs else path_of segs) = path_of segs) as -> by (by case_bool_decide).
  rewrite (no_slash_wanted m (p, h) segs vs Hsep Hin Hne Hp Hf : wants_slash m (p_method p) _ = false), bool_decide_true by done. simpl.
  assert (match_in m (p_method p) (path_of segs) = Some ((p, h), vs)) as Hm.
  { apply match_in_spec; [done|]. by rewrite fits_path_of. }
  by rewrite (match_request_some _ _ _ _ Hm).
Qed.

(** Who is served is served by an entry of the table, for its method or for a GET standing in
    for a HEAD. *)
Theorem served_sound m method path h values :
  findHandler m method path = Served h values →
  ∃ p vs, (p, h) ∈ entries m ∧ fits (p_segs p) path = Some vs ∧ values = zip (wild_names (p_segs p)) vs ∧
    (p_method p = method ∨ method = "HEAD" ∧ p_method p = "GET" ∨ p_method p = "").
Proof.
  unfold findHandler. destruct (wants_slash _ _ _); [done|].
  destruct (bool_decide_reflect ((if bool_decide (method = "CONNECT") then path else cleanPath path) = path)) as [->|]; [|done].
  simpl. assert (∀ me r, match_in m me path = Some r → ∃ vs, r.1 ∈ entries m ∧ p_method r.1.1 = me ∧ fits (p_segs r.1.1) path = Some vs ∧ r.2 = vs) as Hs.
  { intros me [e ms] (l & vs & Hin & Hf & ->)%matchPath_sound. exists vs. unfold node_of_method in Hin.
    apply list_elem_of_omap in Hin as (e' & Hin & Hx). case_bool_decide; [|done]. by simplify_eq. }
  unfold match_request, unserved. destruct (match_in m method path) as [[[p h'] ms]|] eqn:H1.
  { simpl. intros [= -> <-]. destruct (Hs _ _ H1) as (vs & ? & ? & ? & ?). simpl in *. subst. eauto 10. }
  destruct (bool_decide_reflect (method = "HEAD")).
  - destruct (match_in m "GET" path) as [[[p h'] ms]|] eqn:H2.
    { simpl. intros [= -> <-]. destruct (Hs _ _ H2) as (vs & ? & ? & ? & ?). simpl in *. subst. eauto 10. }
    destruct (match_in m "" path) as [[[p h'] ms]|] eqn:H3; simpl; [|by destruct (matchingMethods _ _)].
    intros [= -> <-]. destruct (Hs _ _ H3) as (vs & ? & ? & ? & ?). simpl in *. subst. eauto 10.
  - destruct (match_in m "" path) as [[[p h'] ms]|] eqn:H3; simpl; [|by destruct (matchingMethods _ _)].
    intros [= -> <-]. destruct (Hs _ _ H3) as (vs & ? & ? & ? & ?). simpl in *. subst. eauto 10.
Qed.
End requests.
