(* ===== verification/Routes.v ===== *)
(** * The routes of the three servers

    [Routes] of internal/edge, internal/coord and internal/dn: which handler a request reaches,
    and at the edge whether it goes to the S3 interface instead.  A handler is its name here;
    what it does is in the file of its component. *)
From S2P Require Import Prelude S3Sig Mux GoLib UrlKey DataNode Merkle Scrub Coordinator Election Meta.
From S2P Require Import Follower Edge S3Api S3 GF GoTime.
From Stdlib Require Import Strings.Byte Strings.Ascii.
#[local] Open Scope string_scope.

Definition only_if {A} (b : bool) (l : list A) : list A := if b then l else [].

(** ** The edge *)
Module EdgeRoutes.
Inductive edge_handler : Type :=
  | HandlePut | HandleHead | HandleListBucket | HandleGet | HandleDelete | HandleList | HandleDNs
  | HandleAddDN | HandleRemoveDN | HandleSetDNClass | HandleListURLKeys | HandleRotateURLKey
  | HandleRemoveURLKey | HandleRebalancePlan | HandleRebalanceApply | HandleGCPlan | HandleGCApply
  | HandleRepairPlan | HandleRepairApply | HandleAutoStatus | HandleMetaSnapshot | HandleMetaInfo
  | HandleHeartbeat | HandleSnapshotHistory | HandleRole | HandleWAL | HandleWALInfo | HandleMetrics
  | ElectorVote | ElectorHeartbeat | ElectorState | ElectorAppendWAL | HandleHealth.
#[export] Instance edge_handler_eq_dec : EqDecision edge_handler.
Proof. solve_decision. Defined.
(** The election's routes are there with an elector. *)
Definition edge_table (elector : bool) : list (string * edge_handler) :=
  ([("PUT /v1/o/{bucket}/{key...}", HandlePut);
   ("HEAD /v1/o/{bucket}/{key...}", HandleHead);
   ("GET /v1/list/{bucket}", HandleListBucket);
   ("GET /v1/o/{bucket}/{key...}", HandleGet);
   ("DELETE /v1/o/{bucket}/{key...}", HandleDelete);
   ("GET /v1/admin/objects", HandleList);
   ("GET /v1/admin/dns", HandleDNs);
   ("POST /v1/admin/dns", HandleAddDN);
   ("DELETE /v1/admin/dns", HandleRemoveDN);
   ("PUT /v1/admin/dns/class", HandleSetDNClass);
   ("GET /v1/admin/urlkey", HandleListURLKeys);
   ("POST /v1/admin/urlkey/rotate", HandleRotateURLKey);
   ("DELETE /v1/admin/urlkey", HandleRemoveURLKey);
   ("POST /v1/admin/rebalance/plan", HandleRebalancePlan);
   ("POST /v1/admin/rebalance/apply", HandleRebalanceApply);
   ("POST /v1/admin/gc/plan", HandleGCPlan);
   ("POST /v1/admin/gc/apply", HandleGCApply);
   ("POST /v1/admin/repair/plan", HandleRepairPlan);
   ("POST /v1/admin/repair/apply", HandleRepairApply);
   ("GET /v1/admin/auto/status", HandleAutoStatus);
   ("GET /v1/admin/meta/snapshot", HandleMetaSnapshot);
   ("GET /v1/admin/meta/info", HandleMetaInfo);
   ("GET /v1/admin/heartbeat", HandleHeartbeat);
   ("GET /v1/admin/snapshot/history", HandleSnapshotHistory);
   ("GET /v1/admin/role", HandleRole);
   ("GET /v1/admin/wal", HandleWAL);
   ("GET /v1/admin/wal/info", HandleWALInfo);
   ("GET /metrics", HandleMetrics)] ++
 only_if elector
  [("POST /v1/election/vote", ElectorVote);
   ("POST /v1/election/heartbeat", ElectorHeartbeat);
   ("GET /v1/election/state", ElectorState);
   ("POST /v1/election/append-wal", ElectorAppendWAL)] ++
 [("GET /healthz", HandleHealth)])%list.
(** [None]: a pattern conflicts with an earlier one and the daemon panics. *)
Definition nativeMux (elector : bool) : option (ServeMux edge_handler) := register_all (edge_table elector) NewServeMux.

(** The path decides, once decoded. *)
Definition is_native (path : string) : bool :=
  bool_decide (path = "/v1") || has_prefix path "/v1/" || bool_decide (path = "/healthz") || bool_decide (path = "/metrics").
Inductive answered_by : Type := Native (a : served edge_handler) | HandleS3.
Definition edge_Routes (m : ServeMux edge_handler) (method escaped : string) : answered_by :=
  if is_native (pathUnescape escaped) then Native (findHandler m method escaped) else HandleS3.
End EdgeRoutes.

(** ** The coord daemon *)
Module CoordRoutes.
Inductive coord_handler : Type :=
  | HandlePlace | HandleCommit | HandleLookup | HandleDelete | HandleHealthz | HandleCreateBucket
  | HandleGetBucket | HandleListBuckets | HandleDeleteBucket | HandleMultipartInitiate
  | HandleMultipartGet | HandleMultipartPart | HandleMultipartParts | HandleMultipartComplete
  | HandleMultipartAbort | HandleMultipartCleanup | HandleAdminObjects | HandleAdminDNs
  | HandleAdminSnapshot | HandleRebalancePlan | HandleRebalanceApply | HandleGCPlan | HandleGCApply
  | HandleRepairPlan | HandleRepairApply | HandleAdminAddDN | HandleAdminRemoveDN
  | HandleAdminSetDNClass | HandleAdminSetDNDomain | HandleAdminListURLKeys | HandleAdminRotateURLKey
  | HandleAdminRemoveURLKey | HandleAntiEntropyRun | HandleAntiEntropyRepair | HandleMetrics
  | ElectorVote | ElectorHeartbeat | ElectorAppendWAL.
#[export] Instance coord_handler_eq_dec : EqDecision coord_handler.
Proof. solve_decision. Defined.
Definition coord_table (elector : bool) : list (string * coord_handler) :=
  ([("POST /v1/coord/place", HandlePlace);
   ("POST /v1/coord/commit", HandleCommit);
   ("GET /v1/coord/lookup", HandleLookup);
   ("POST /v1/coord/delete", HandleDelete);
   ("GET /v1/coord/healthz", HandleHealthz);
   ("POST /v1/coord/bucket", HandleCreateBucket);
   ("GET /v1/coord/bucket", HandleGetBucket);
   ("GET /v1/coord/buckets", HandleListBuckets);
   ("DELETE /v1/coord/bucket", HandleDeleteBucket);
   ("POST /v1/coord/multipart/initiate", HandleMultipartInitiate);
   ("GET /v1/coord/multipart", HandleMultipartGet);
   ("POST /v1/coord/multipart/part", HandleMultipartPart);
   ("GET /v1/coord/multipart/parts", HandleMultipartParts);
   ("POST /v1/coord/multipart/complete", HandleMultipartComplete);
   ("POST /v1/coord/multipart/abort", HandleMultipartAbort);
   ("POST /v1/coord/multipart/cleanup", HandleMultipartCleanup);
   ("GET /v1/coord/admin/objects", HandleAdminObjects);
   ("GET /v1/coord/admin/dns", HandleAdminDNs);
   ("GET /v1/coord/admin/meta/snapshot", HandleAdminSnapshot);
   ("POST /v1/coord/admin/rebalance/plan", HandleRebalancePlan);
   ("POST /v1/coord/admin/rebalance/apply", HandleRebalanceApply);
   ("POST /v1/coord/admin/gc/plan", HandleGCPlan);
   ("POST /v1/coord/admin/gc/apply", HandleGCApply);
   ("POST /v1/coord/admin/repair/plan", HandleRepairPlan);
   ("POST /v1/coord/admin/repair/apply", HandleRepairApply);
   ("POST /v1/coord/admin/dns", HandleAdminAddDN);
   ("DELETE /v1/coord/admin/dns", HandleAdminRemoveDN);
   ("PUT /v1/coord/admin/dns/class", HandleAdminSetDNClass);
   ("PUT /v1/coord/admin/dns/domain", HandleAdminSetDNDomain);
   ("GET /v1/coord/admin/urlkey", HandleAdminListURLKeys);
   ("POST /v1/coord/admin/urlkey/rotate", HandleAdminRotateURLKey);
   ("DELETE /v1/coord/admin/urlkey", HandleAdminRemoveURLKey);
   ("POST /v1/coord/admin/anti-entropy/run", HandleAntiEntropyRun);
   ("POST /v1/coord/admin/anti-entropy/repair", HandleAntiEntropyRepair);
   ("GET /metrics", HandleMetrics)] ++
 only_if elector
  [("POST /v1/election/vote", ElectorVote);
   ("POST /v1/election/heartbeat", ElectorHeartbeat);
   ("POST /v1/election/append-wal", ElectorAppendWAL)])%list.
Definition coord_Routes (elector : bool) : option (ServeMux coord_handler) := register_all (coord_table elector) NewServeMux.
End CoordRoutes.

(** ** The data node *)
Module DNRoutes.
Inductive dn_handler : Type :=
  | HandleGet | HandlePut | HandleDelete | HandleListChunks | HandleMerkle | HandleMerkleBucket
  | HandleScrubStatus | HandleHealth.
#[export] Instance dn_handler_eq_dec : EqDecision dn_handler.
Proof. solve_decision. Defined.
Definition dn_table : list (string * dn_handler) :=
  [("GET /chunk/{id}", HandleGet);
   ("PUT /chunk/{id}", HandlePut);
   ("DELETE /chunk/{id}", HandleDelete);
   ("GET /chunks", HandleListChunks);
   ("GET /chunks/merkle", HandleMerkle);
   ("GET /chunks/merkle/bucket", HandleMerkleBucket);
   ("GET /chunks/scrub-status", HandleScrubStatus);
   ("GET /healthz", HandleHealth)].
Definition dn_Routes : option (ServeMux dn_handler) := register_all dn_table NewServeMux.
End DNRoutes.

(** ** Requests between the programs

    The HTTP requests the programs send each other: method, path and query as the format
    strings of the callers build them, and what the receiving server makes of them: the
    handler its mux finds, with the path values and the query that handler reads.  Peers, base
    URLs, headers and bodies are those of the callers' own models. *)

(** [c_query]: keys with the values as they are written, escaped or not. *)
Record http_call : Type := MkCall { c_method : string; c_path : string; c_query : list (string * string) }.
Definition query_of (l : list (string * string)) : string := join ((λ kv, kv.1 ++ "=" ++ kv.2) <$> l) "&".
Definition RawQuery (c : http_call) : string := query_of (c_query c).
Definition received {H} (m : ServeMux H) (c : http_call) : served H := findHandler m (c_method c) (c_path c).

(** ** To a data node: internal/coordinator, internal/coord/anti_entropy.go, cmd/kvfs-edge *)
Definition putChunk_call (id : string) : http_call := MkCall "PUT" ("/chunk/" ++ id) [].
Definition putForce_call (id : string) : http_call := MkCall "PUT" ("/chunk/" ++ id) [("force", "1")].
Definition getChunk_call (id : string) : http_call := MkCall "GET" ("/chunk/" ++ id) [].
Definition deleteChunk_call (id : string) : http_call := MkCall "DELETE" ("/chunk/" ++ id) [].
Definition ListChunks_call : http_call := MkCall "GET" "/chunks" [].
Definition fetchDNMerkle_call : http_call := MkCall "GET" "/chunks/merkle" [].
Definition fetchDNBucket_call (idx : Z) : http_call := MkCall "GET" "/chunks/merkle/bucket" [("idx", itoa idx)].
Definition fetchDNCorrupt_call : http_call := MkCall "GET" "/chunks/scrub-status" [].
Definition httpHealthProbe_call : http_call := MkCall "GET" "/healthz" [].

(** What the node answers, and the node afterwards. *)
Inductive dn_reply : Type :=
  | DNStatus (st : Z) | DNBody (st : Z) (body : option (list byte)) | DNChunks (l : list DataNode.ChunkInfo)
  | DNMerkle (m : MerkleResponse) | DNBucket (st : Z) (ids : list string) | DNScrub (s : ScrubStatus) | DNHealth (counts : Z * Z)
  | DNUnrouted (a : served DNRoutes.dn_handler).
Definition set_srv (n : ScrubNode) (s : Server) : ScrubNode := MkScrubNode s (scrub n) (state_file n).
Definition dn_http (o : outcome) (c : http_call) (body : option (list byte)) (m : ServeMux DNRoutes.dn_handler) (n : ScrubNode)
    : dn_reply * ScrubNode :=
  let s := srv n in
  let q := ParseQuery (RawQuery c) in
  match received m c with
  | Served h vs =>
      let id := PathValue vs "id" in
      match h with
      | DNRoutes.HandleGet => let '(st, b) := DataNode.handleGet id (o_open o) s in (DNBody st b, n)
      | DNRoutes.HandlePut =>
          let '(st, s) := DataNode.handlePut id body (bool_decide (q_get q "force" = "1")) (o_now o) (o_io o) s in (DNStatus st, set_srv n s)
      | DNRoutes.HandleDelete => let '(st, s) := DataNode.handleDelete id (stat_ok (o_io o)) (o_remove o) s in (DNStatus st, set_srv n s)
      | DNRoutes.HandleListChunks => (DNChunks (handleListChunks s), n)
      | DNRoutes.HandleMerkle => (DNMerkle (computeMerkle s), n)
      | DNRoutes.HandleMerkleBucket => let '(st, ids) := handleMerkleBucket (q_get q "idx") s in (DNBucket st ids, n)
      | DNRoutes.HandleScrubStatus => (DNScrub (handleScrubStatus n), n)
      | DNRoutes.HandleHealth => (DNHealth (handleHealth s), n)
      end
  | a => (DNUnrouted a, n)
  end.

(** ** To a peer of the election: internal/election/election.go *)
Definition requestVote_call (term : Z) (self : string) (lastSeq : Z) : http_call :=
  MkCall "POST" "/v1/election/vote" [("term", itoa term); ("candidate", self); ("last_log_seq", itoa lastSeq)].
Definition sendHeartbeat_call (term : Z) (self : string) : http_call :=
  MkCall "POST" "/v1/election/heartbeat" [("term", itoa term); ("leader", self)].
Definition sendAppend_call (term : Z) : http_call := MkCall "POST" "/v1/election/append-wal" [("term", itoa term)].
(** The handlers read the query, whatever server has them. *)
Definition vote_http (c : http_call) (voterSeq : option Z) (now : Z) (e : Elector) : Election.reply * Elector :=
  let q := ParseQuery (RawQuery c) in HandleVote (q_get q "term") (q_get q "candidate") (q_get q "last_log_seq") voterSeq now e.
Definition heartbeat_http (c : http_call) (now : Z) (e : Elector) : Election.reply * Elector :=
  let q := ParseQuery (RawQuery c) in Election.HandleHeartbeat (q_get q "term") (q_get q "leader") now e.
Definition append_http (c : http_call) (fn : option bool) (now : Z) (e : Elector) : Z * bool * Elector :=
  HandleAppendWAL (q_get (ParseQuery (RawQuery c)) "term") fn now e.

(** ** To a primary edge: internal/edge/replica.go *)
Definition pull_snapshot_call : http_call := MkCall "GET" "/v1/admin/meta/snapshot" [].
Definition followerWALPull_call (sinceSeq : Z) : http_call := MkCall "GET" "/v1/admin/wal" [("since", itoa sinceSeq)].

(** ** To a coord daemon: internal/edge/coord_client.go, cmd/kvfs-coord *)
Definition urlEsc (s : string) : string := QueryEscape s.
Definition PlaceN_call : http_call := MkCall "POST" "/v1/coord/place" [].
Definition CommitObject_call : http_call := MkCall "POST" "/v1/coord/commit" [].
Definition LookupObject_call (bucket key : string) : http_call :=
  MkCall "GET" "/v1/coord/lookup" [("bucket", urlEsc bucket); ("key", urlEsc key)].
Definition DeleteObject_call : http_call := MkCall "POST" "/v1/coord/delete" [].
Definition ListObjects_call : http_call := MkCall "GET" "/v1/coord/admin/objects" [].
Definition upload_query (bucket key uploadID : string) : list (string * string) :=
  [("bucket", urlEsc bucket); ("key", urlEsc key); ("uploadId", urlEsc uploadID)].
Definition CreateMultipartUpload_call : http_call := MkCall "POST" "/v1/coord/multipart/initiate" [].
Definition GetMultipartUpload_call (bucket key uploadID : string) : http_call :=
  MkCall "GET" "/v1/coord/multipart" (upload_query bucket key uploadID).
Definition PutMultipartPart_call : http_call := MkCall "POST" "/v1/coord/multipart/part" [].
Definition ListMultipartParts_call (bucket key uploadID : string) : http_call :=
  MkCall "GET" "/v1/coord/multipart/parts" (upload_query bucket key uploadID).
Definition CompleteMultipartUpload_call : http_call := MkCall "POST" "/v1/coord/multipart/complete" [].
Definition AbortMultipartUpload_call : http_call := MkCall "POST" "/v1/coord/multipart/abort" [].
Definition CleanupExpired_call : http_call := MkCall "POST" "/v1/coord/multipart/cleanup" [].
Definition CreateBucket_call : http_call := MkCall "POST" "/v1/coord/bucket" [].
Definition GetBucket_call (name : string) : http_call := MkCall "GET" "/v1/coord/bucket" [("name", urlEsc name)].
Definition ListBuckets_call : http_call := MkCall "GET" "/v1/coord/buckets" [].
Definition DeleteBucket_call (name : string) : http_call := MkCall "DELETE" "/v1/coord/bucket" [("name", urlEsc name)].
Definition Healthz_call : http_call := MkCall "GET" "/v1/coord/healthz" [].
Definition ListURLKeys_call : http_call := MkCall "GET" "/v1/coord/admin/urlkey" [].
Definition fetchSnapshot_call : http_call := MkCall "GET" "/v1/coord/admin/meta/snapshot" [].

(** The calls of the client and of a starting coord daemon: each with the handler it is meant
    for and the arguments that handler is to read from the query. *)
Definition client_calls (bucket key uploadID name : string)
    : list (http_call * CoordRoutes.coord_handler * list (string * string)) :=
  let upload := [("bucket", bucket); ("key", key); ("uploadId", uploadID)] in
  [(PlaceN_call, CoordRoutes.HandlePlace, []); (CommitObject_call, CoordRoutes.HandleCommit, []);
   (LookupObject_call bucket key, CoordRoutes.HandleLookup, [("bucket", bucket); ("key", key)]);
   (DeleteObject_call, CoordRoutes.HandleDelete, []); (ListObjects_call, CoordRoutes.HandleAdminObjects, []);
   (CreateMultipartUpload_call, CoordRoutes.HandleMultipartInitiate, []);
   (GetMultipartUpload_call bucket key uploadID, CoordRoutes.HandleMultipartGet, upload);
   (PutMultipartPart_call, CoordRoutes.HandleMultipartPart, []);
   (ListMultipartParts_call bucket key uploadID, CoordRoutes.HandleMultipartParts, upload);
   (CompleteMultipartUpload_call, CoordRoutes.HandleMultipartComplete, []);
   (AbortMultipartUpload_call, CoordRoutes.HandleMultipartAbort, []); (CleanupExpired_call, CoordRoutes.HandleMultipartCleanup, []);
   (CreateBucket_call, CoordRoutes.HandleCreateBucket, []); (GetBucket_call name, CoordRoutes.HandleGetBucket, [("name", name)]);
   (ListBuckets_call, CoordRoutes.HandleListBuckets, []); (DeleteBucket_call name, CoordRoutes.HandleDeleteBucket, [("name", name)]);
   (Healthz_call, CoordRoutes.HandleHealthz, []); (ListURLKeys_call, CoordRoutes.HandleAdminListURLKeys, []);
   (fetchSnapshot_call, CoordRoutes.HandleAdminSnapshot, [])].

(** ** From a client to an edge: objects *)
(** [/v1/o/{bucket}/{key...}], with the segments as they are escaped. *)
Definition object_path (bucket : string) (key : list string) : string := "/" ++ join ("v1" :: "o" :: bucket :: key) "/".
Section objects.
Context (gear : list Z).
Context (net : nat → outcome) (sched : list string → list string) (isched : list nat → list nat).
Context (porder : list MultipartPartMeta → list MultipartPartMeta).
Context {X : Type} {HM : MetaService X} {HS : S3Store X}.

(** What the handlers of [/v1/o] read from the request. *)
Definition object_request (h : s3_http) (vs : list (string * string)) : Edge.request :=
  let r := h_req h in
  MkRequest (r_Method r) (pathUnescape (r_EscapedPath r)) (ParseQuery (r_RawQuery r)) (PathValue vs "bucket") (PathValue vs "key")
    (header_get r "x-kvfs-ec") (header_get r "x-kvfs-w") (header_get r "x-kvfs-r") (header_get r "content-type") (h_body h).
Inductive edge_response : Type :=
  | PutAnswer (r : put_reply) | GetAnswer (r : get_reply) | HeadAnswer (st : Z) (meta : option ObjectMeta) | DeleteAnswer (st : Z)
  | S3Answer (r : s3_reply) | OtherHandler (h : EdgeRoutes.edge_handler) | Unrouted (a : served EdgeRoutes.edge_handler).
(** One request to the edge; the administrative handlers are in files of their own. *)
Definition edge_http (m : ServeMux EdgeRoutes.edge_handler) (s : S3Server) (now : Z) (h : s3_http) (w : Cluster) (x : X)
    : edge_response * (Cluster * X) :=
  let e := s3_edge s in
  match EdgeRoutes.edge_Routes m (r_Method (h_req h)) (r_EscapedPath (h_req h)) with
  | EdgeRoutes.HandleS3 => let '(r, st) := handleS3 gear net sched porder s now h w x in (S3Answer r, st)
  | EdgeRoutes.Native (Served EdgeRoutes.HandlePut vs) =>
      let '(r, st) := Edge.handlePut gear net sched e now (object_request h vs) w x in (PutAnswer r, st)
  | EdgeRoutes.Native (Served EdgeRoutes.HandleGet vs) =>
      let '(r, st) := Edge.handleGet net sched isched e now (object_request h vs) w x in (GetAnswer r, st)
  | EdgeRoutes.Native (Served EdgeRoutes.HandleHead vs) =>
      let '(st, o, x) := handleHead e now (object_request h vs) x in (HeadAnswer st o, (w, x))
  | EdgeRoutes.Native (Served EdgeRoutes.HandleDelete vs) =>
      let '(st, r) := Edge.handleDelete net e now (object_request h vs) w x in (DeleteAnswer st, r)
  | EdgeRoutes.Native (Served hd _) => (OtherHandler hd, (w, x))
  | EdgeRoutes.Native a => (Unrouted a, (w, x))
  end.
End objects.

(** ** Query parameters of a coord daemon's maintenance: internal/coord/coord.go

    What [handleGCPlan], [handleGCApply] and the other apply handlers read from the query, and
    the parts of a URL as a client sends them.  [%d] of [fmt.Sscanf] reads a prefix. *)

Definition parseDurationQuery (q : url_values) (key : string) (def : Z) : Z :=
  let v := q_get q key in
  if bool_decide (v = "") then def else match ParseDuration v with Some d => d | None => def end.

Fixpoint take_digits (l : list ascii) : list ascii :=
  match l with c :: l => if is_digit c then c :: take_digits l else [] | [] => [] end.
(** Space is skipped, but for a newline; what follows the number is not looked at. *)
Definition scan_int (v : string) : option Z :=
  let s := trim_left (String.length v) (filter (λ s, s ≠ str_of_codes [10%N]) spaces) v in
  let '(sign, l) := match chars s with
                    | c :: t => if Ascii.eqb c "-" || Ascii.eqb c "+" then ([c], t) else ([], c :: t)
                    | [] => ([], [])
                    end in
  match take_digits l with
  | [] => None
  | digits => parse_int (String.string_of_list_ascii (sign ++ digits)%list)
  end.
Definition parseIntQuery (q : url_values) (key : string) (def : Z) : Z :=
  let v := q_get q key in
  if bool_decide (v = "") then def
  else match scan_int v with Some n => if (0 <? n)%Z then n else def | None => def end.
(** What [handleGCPlan] and [handleGCApply] read: five minutes unless the query says otherwise. *)
Definition gc_min_age (q : url_values) : Z := parseDurationQuery q "min-age" 300000000000.
Definition apply_concurrency (q : url_values) : Z := parseIntQuery q "concurrency" 4.

Example scan_int_values :
  (scan_int <$> ["12"; "12abc"; " 7"; "-3"; "+5"; "x"; ""; "99999999999999999999"; "1_000"]) =
  [Some 12; Some 12; Some 7; Some (-3); Some 5; None; None; None; Some 1]%Z.
Proof. vm_compute. reflexivity. Qed.

(** ** The parts of a URL without a fragment: origin, path and query *)
Definition url_parts (url : string) : option (string * string * string) :=
  '(scheme, rest) ← cut url ":";
  match rest with
  | String "/" (String "/" r) =>
      let '(r, query) := match cut r "?" with Some (a, b) => (a, b) | None => (r, "") end in
      let '(host, path) := match cut r "/" with Some (h, p) => (h, "/" ++ p) | None => (r, "") end in
      Some (scheme ++ "://" ++ host, path, query)
  | _ => None
  end.
