(* ===== verification/WireTheorems.v ===== *)
(** * Requests between the programs reach their handlers (Routes.v)

    Every call a program makes is served by the handler it is meant for, which reads the
    arguments the caller wrote; object names survive the way from the client's URL to the
    handlers of the edge. *)
From S2P Require Import Prelude GoLib UrlKey S3Sig S3SigProps S3Sign Mux DataNode Merkle Scrub Coordinator.
From S2P Require Import Election Meta Kv Follower Edge EdgeLocal EdgeTheorems S3Api S3 Routes.
From Stdlib Require Import Strings.Byte Strings.Ascii.
#[local] Open Scope string_scope.

(** ** Tables *)
Lemma register_all_entries {H} (l : list (string * H)) m m' :
  register_all l m = Some m' → entries m' = (entries m ++ ((λ e, (pattern_of e.1, e.2)) <$> l))%list.
Proof.
  unfold register_all. revert m. induction l as [|e l IH]; intros m; cbn [foldl].
  - intros [= <-]. by rewrite app_nil_r.
  - assert (∀ l : list (string * H), foldl (λ m e, m ≫= HandleFunc e.1 e.2) None l = None) as Hnone by (intros l'; by induction l').
    cbn [mbind option_bind]. destruct (HandleFunc e.1 e.2 m) as [m1|] eqn:He; [|by rewrite Hnone].
    intros Hl%IH. rewrite Hl. unfold HandleFunc in He. case_match; [done|]. injection He as <-. cbn [entries].
    by rewrite <- (assoc_L (++)%list).
Qed.
Lemma table_served {H} (l : list (string * H)) m s h segs vs :
  register_all l NewServeMux = Some m → separate (entries m) = true → (s, h) ∈ l → segs ≠ [] → Forall plain segs →
  fits_segs (p_segs (pattern_of s)) segs = Some vs →
  findHandler m (p_method (pattern_of s)) (path_of segs) = Served h (zip (wild_names (p_segs (pattern_of s))) vs).
Proof.
  intros Hr Hsep Hin Hne Hp Hf. apply plain_served; try done. rewrite (register_all_entries _ _ _ Hr).
  apply (list_elem_of_fmap_2 (λ e, (pattern_of e.1, e.2)) _ _ Hin).
Qed.

(** No daemon's table has a conflict: [Routes] does not panic. *)
Definition edge_mux (elector : bool) : ServeMux EdgeRoutes.edge_handler := default NewServeMux (EdgeRoutes.nativeMux elector).
Definition coord_mux (elector : bool) : ServeMux CoordRoutes.coord_handler := default NewServeMux (CoordRoutes.coord_Routes elector).
Definition dn_mux : ServeMux DNRoutes.dn_handler := default NewServeMux DNRoutes.dn_Routes.
Lemma edge_mux_ok elector : EdgeRoutes.nativeMux elector = Some (edge_mux elector) ∧ separate (entries (edge_mux elector)) = true.
Proof. destruct elector; vm_compute; auto. Qed.
Lemma coord_mux_ok elector : CoordRoutes.coord_Routes elector = Some (coord_mux elector) ∧ separate (entries (coord_mux elector)) = true.
Proof. destruct elector; vm_compute; auto. Qed.
Lemma dn_mux_ok : DNRoutes.dn_Routes = Some dn_mux ∧ separate (entries dn_mux) = true.
Proof. vm_compute; auto. Qed.

(** ** Queries *)
Definition escape1 (c : ascii) : string := QueryEscape (String c "").
Lemma QueryEscape_cons c s : QueryEscape (String c s) = escape1 c ++ QueryEscape s.
Proof. unfold escape1. simpl. destruct (unreserved c); [done|]. by case_bool_decide. Qed.
Lemma query_unescape_escape1 c t : query_unescape (escape1 c ++ t) = String c <$> query_unescape t.
Proof. destruct c as [[] [] [] [] [] [] [] []]; reflexivity. Qed.
Lemma escape1_chars c : forallb (λ d, negb (bool_decide (d = "&"%char) || bool_decide (d = ";"%char))) (chars (escape1 c)) = true.
Proof. destruct c as [[] [] [] [] [] [] [] []]; reflexivity. Qed.
Lemma query_unescape_escape s : query_unescape (QueryEscape s) = Some s.
Proof. induction s as [|c s IH]; [done|]. by rewrite QueryEscape_cons, query_unescape_escape1, IH. Qed.
Lemma QueryEscape_no_char d s : d = "&"%char ∨ d = ";"%char → no_char d (QueryEscape s).
Proof.
  intros Hd. induction s as [|c s IH]; [unfold no_char; set_solver|]. rewrite QueryEscape_cons, no_char_app. split; [|done].
  intros Hin. pose proof (escape1_chars c) as Hc. rewrite forallb_forall in Hc. specialize (Hc d). rewrite <- list_elem_of_In in Hc.
  specialize (Hc Hin). by destruct Hd as [-> | ->].
Qed.
Lemma encodes_escaped v : encodes (QueryEscape v) v.
Proof. split_and!; [apply QueryEscape_no_char; auto.. | apply query_unescape_escape]. Qed.
Lemma encodes_itoa z : encodes (itoa z) (itoa z).
Proof. apply encodes_safe, itoa_query_safe. Qed.

Lemma settings_other l (q : url_values) k :
  Forall (λ kv, query_safe kv.1 ∧ ∃ v, encodes kv.2 v) l → k ∉ l.*1 →
  foldl add_setting q ((λ kv, kv.1 ++ "=" ++ kv.2) <$> l) !! k = q !! k.
Proof.
  revert q. induction l as [|[k' e] l IH]; intros q; [done|]. intros [[Hk [v He]] Hl]%Forall_cons Hn. cbn [fmap list_fmap foldl].
  apply not_elem_of_cons in Hn as [Hne Hn]. rewrite IH by done. cbn [fst snd].
  by rewrite (add_setting_encodes _ _ _ v), lookup_insert_ne.
Qed.
Lemma settings_found l (q : url_values) k e v :
  Forall (λ kv, query_safe kv.1 ∧ ∃ v, encodes kv.2 v) l → NoDup (l.*1) → (k, e) ∈ l → encodes e v → q !! k = None →
  foldl add_setting q ((λ kv, kv.1 ++ "=" ++ kv.2) <$> l) !! k = Some [v].
Proof.
  revert q. induction l as [|[k' e'] l IH]; intros q; [by intros _ _ ?%not_elem_of_nil|].
  intros [[Hk [v' He']] Hl]%Forall_cons [Hn Hnd]%NoDup_cons Hin He Hq. cbn [fmap list_fmap foldl fst snd] in *.
  apply elem_of_cons in Hin as [[= <- <-]|Hin].
  - rewrite settings_other by done. by rewrite (add_setting_encodes _ _ _ v), lookup_insert_eq, Hq.
  - apply IH; try done. rewrite (add_setting_encodes _ _ _ v'), lookup_insert_ne; [done| |done..].
    intros ->. apply Hn. by apply (list_elem_of_fmap_2 fst _ (k, e)).
Qed.
(** The server reads what the caller wrote. *)
Lemma q_get_query_of l k e v :
  Forall (λ kv, query_safe kv.1 ∧ ∃ v, encodes kv.2 v) l → NoDup (l.*1) → (k, e) ∈ l → encodes e v →
  q_get (ParseQuery (query_of l)) k = v.
Proof.
  intros Hl Hnd Hin He. unfold q_get, ParseQuery, query_of. rewrite (split_join "&").
  - by rewrite (settings_found l ∅ k e v).
  - by destruct l; [apply not_elem_of_nil in Hin|].
  - intros x (kv & -> & Hkv)%list_elem_of_fmap. rewrite Forall_forall in Hl. destruct (Hl _ Hkv) as [Hk (v' & Ha & _)].
    rewrite !no_char_app. split_and!; [by apply query_safe_no_char; [|set_solver] | by_decide | done].
Qed.
Ltac encoded := first [apply encodes_escaped | apply encodes_itoa | apply encodes_safe; first [assumption | by_decide]].
Ltac written :=
  lazymatch goal with
  | |- encodes _ _ => encoded
  | |- Forall _ _ =>
      repeat (apply Forall_cons; split; [split; [by_decide | eexists; cbn [snd]; encoded]|]); apply Forall_nil_2
  | |- NoDup _ => cbn [fmap list_fmap fst]; by_decide
  | |- _ ∈ _ => repeat first [apply list_elem_of_here | apply list_elem_of_further]
  end.

(** ** Calls to data nodes *)
Lemma pathUnescape_plain s : no_char "%" s → pathUnescape s = s.
Proof.
  unfold pathUnescape, no_char. intros Hn. enough (path_unescape s = Some s) as -> by done.
  induction s as [|c s IH]; [done|]. simpl in *. rewrite bool_decide_false by set_solver. by rewrite IH by set_solver.
Qed.
Lemma validChunkID_no_char id c : validChunkID id = true → is_hex c = false → no_char c id.
Proof.
  intros [_ Hv]%andb_prop Hc Hin. rewrite forallb_forall in Hv. rewrite (Hv c) in Hc; [done|]. by apply list_elem_of_In.
Qed.
Lemma validChunkID_plain id : validChunkID id = true → plain id ∧ pathUnescape id = id ∧ id ≠ "/".
Proof.
  intros Hv. assert (no_char "/" id) as Hs by (by apply validChunkID_no_char).
  pose proof Hv as [Hl _]%andb_prop. apply Nat.eqb_eq in Hl.
  split_and!; [|apply pathUnescape_plain; by apply validChunkID_no_char | by intros ->].
  unfold plain. split_and!; [by intros -> ..|done].
Qed.

(** One segment after [/chunk/]. *)
Lemma chunk_served s h id : (s, h) ∈ DNRoutes.dn_table → p_segs (pattern_of s) = [Lit "chunk"; Wild "id"] → validChunkID id = true →
  findHandler dn_mux (p_method (pattern_of s)) ("/chunk/" ++ id) = Served h [("id", id)].
Proof.
  intros Hin Hseg Hv. destruct (validChunkID_plain id Hv) as (Hp & Hu & Hne). destruct dn_mux_ok as [Hr Hs].
  pose proof (table_served _ _ s h ["chunk"; id] [id] Hr Hs Hin ltac:(done)) as Ht. rewrite Hseg in Ht. apply Ht.
  - apply Forall_cons. split; [by_decide | by apply Forall_singleton].
  - simpl. by rewrite Hu, bool_decide_false.
Qed.

#[local] Existing Instances DNRoutes.dn_handler_eq_dec CoordRoutes.coord_handler_eq_dec EdgeRoutes.edge_handler_eq_dec.
Ltac in_table := apply (bool_decide_unpack _); vm_compute; exact I.
Lemma dn_fixed : 
  findHandler dn_mux "GET" "/chunks" = Served DNRoutes.HandleListChunks [] ∧
  findHandler dn_mux "GET" "/chunks/merkle" = Served DNRoutes.HandleMerkle [] ∧
  findHandler dn_mux "GET" "/chunks/merkle/bucket" = Served DNRoutes.HandleMerkleBucket [] ∧
  findHandler dn_mux "GET" "/chunks/scrub-status" = Served DNRoutes.HandleScrubStatus [] ∧
  findHandler dn_mux "GET" "/healthz" = Served DNRoutes.HandleHealth [].
Proof. split_and!; vm_compute; reflexivity. Qed.
#[local] Opaque dn_mux sha256_hex.

(** C16: Every request that a program sends to a data node is served by the handler it is meant for,
    which gets the caller's id, body and force flag, or the bucket's index: what the node answers
    and the node it leaves are those of the operation the callers' models use. *)
Theorem dn_calls_reach_handlers (o : outcome) (n : ScrubNode) :
  (∀ id data (force : bool), validChunkID id = true →
     dn_http o (if force then putForce_call id else putChunk_call id) (Some data) dn_mux n =
     let '(st, s) := put_call force id data o (srv n) in (DNStatus st, set_srv n s)) ∧
  (∀ id body, validChunkID id = true →
     dn_http o (getChunk_call id) body dn_mux n = let '(st, b) := DataNode.handleGet id (o_open o) (srv n) in (DNBody st b, n)) ∧
  (∀ id body, validChunkID id = true →
     dn_http o (deleteChunk_call id) body dn_mux n =
     let '(st, s) := DataNode.handleDelete id (stat_ok (o_io o)) (o_remove o) (srv n) in (DNStatus st, set_srv n s)) ∧
  (∀ idx body, dn_http o (fetchDNBucket_call idx) body dn_mux n =
     let '(st, ids) := handleMerkleBucket (itoa idx) (srv n) in (DNBucket st ids, n)) ∧
  (∀ body, dn_http o ListChunks_call body dn_mux n = (DNChunks (handleListChunks (srv n)), n) ∧
     dn_http o fetchDNMerkle_call body dn_mux n = (DNMerkle (computeMerkle (srv n)), n) ∧
     dn_http o fetchDNCorrupt_call body dn_mux n = (DNScrub (handleScrubStatus n), n) ∧
     dn_http o httpHealthProbe_call body dn_mux n = (DNHealth (handleHealth (srv n)), n)).
Proof.
  destruct dn_fixed as (R1 & R2 & R3 & R4 & R5). split_and!.
  - intros id data force Hv. pose proof (chunk_served "PUT /chunk/{id}" DNRoutes.HandlePut id ltac:(in_table) ltac:(by_decide) Hv) as Hr.
    change (p_method _) with "PUT" in Hr. unfold dn_http, received, putForce_call, putChunk_call, put_call.
    destruct force; cbn [c_method c_path c_query RawQuery]; rewrite Hr; reflexivity.
  - intros id body Hv. pose proof (chunk_served "GET /chunk/{id}" DNRoutes.HandleGet id ltac:(in_table) ltac:(by_decide) Hv) as Hr.
    change (p_method _) with "GET" in Hr. unfold dn_http, received, getChunk_call. cbn [c_method c_path]. by rewrite Hr.
  - intros id body Hv. pose proof (chunk_served "DELETE /chunk/{id}" DNRoutes.HandleDelete id ltac:(in_table) ltac:(by_decide) Hv) as Hr.
    change (p_method _) with "DELETE" in Hr. unfold dn_http, received, deleteChunk_call. cbn [c_method c_path]. by rewrite Hr.
  - intros idx body. unfold dn_http, received, fetchDNBucket_call, RawQuery. cbn [c_method c_path c_query]. rewrite R3.
    by rewrite (q_get_query_of [("idx", itoa idx)] "idx" (itoa idx) (itoa idx)) by written.
  - intros body. unfold dn_http, received. cbn [c_method c_path ListChunks_call fetchDNMerkle_call fetchDNCorrupt_call httpHealthProbe_call].
    rewrite R1, R2, R4, R5. split_and!; reflexivity.
Qed.

(** ** Calls to peers and to the coord daemon *)
Lemma election_routes : 
  (∀ elector, elector = true → 
     findHandler (edge_mux elector) "POST" "/v1/election/vote" = Served EdgeRoutes.ElectorVote [] ∧
     findHandler (edge_mux elector) "POST" "/v1/election/heartbeat" = Served EdgeRoutes.ElectorHeartbeat [] ∧
     findHandler (edge_mux elector) "POST" "/v1/election/append-wal" = Served EdgeRoutes.ElectorAppendWAL [] ∧
     findHandler (coord_mux elector) "POST" "/v1/election/vote" = Served CoordRoutes.ElectorVote [] ∧
     findHandler (coord_mux elector) "POST" "/v1/election/heartbeat" = Served CoordRoutes.ElectorHeartbeat [] ∧
     findHandler (coord_mux elector) "POST" "/v1/election/append-wal" = Served CoordRoutes.ElectorAppendWAL []).
Proof. intros elector ->. split_and!; vm_compute; reflexivity. Qed.

(** What a peer reads from the three requests of the election, on an edge or on a coord daemon. *)
Lemma election_calls_read term self lastSeq voterSeq now fn e : query_safe self →
  vote_http (requestVote_call term self lastSeq) voterSeq now e = HandleVote (itoa term) self (itoa lastSeq) voterSeq now e ∧
  heartbeat_http (sendHeartbeat_call term self) now e = Election.HandleHeartbeat (itoa term) self now e ∧
  append_http (sendAppend_call term) fn now e = HandleAppendWAL (itoa term) fn now e.
Proof.
  intros Hself. unfold vote_http, heartbeat_http, append_http, RawQuery. cbn [c_query requestVote_call sendHeartbeat_call sendAppend_call].
  split_and!.
  - rewrite (q_get_query_of _ "term" (itoa term) (itoa term)), (q_get_query_of _ "candidate" self self),
      (q_get_query_of _ "last_log_seq" (itoa lastSeq) (itoa lastSeq)) by written. done.
  - rewrite (q_get_query_of _ "term" (itoa term) (itoa term)), (q_get_query_of _ "leader" self self) by written. done.
  - by rewrite (q_get_query_of _ "term" (itoa term) (itoa term)) by written.
Qed.

Definition reads (c : http_call) (args : list (string * string)) : Prop :=
  ∀ k v, (k, v) ∈ args → q_get (ParseQuery (RawQuery c)) k = v.
Lemma client_calls_routed elector bucket key uploadID name :
  Forall (λ x, received (coord_mux elector) x.1.1 = Served x.1.2 []) (client_calls bucket key uploadID name).
Proof. destruct elector; repeat (apply Forall_cons; split; [vm_compute; reflexivity|]); apply Forall_nil_2. Qed.
Lemma client_calls_read bucket key uploadID name :
  Forall (λ x, reads x.1.1 x.2) (client_calls bucket key uploadID name).
Proof.
  repeat (apply Forall_cons; split; [|]); try apply Forall_nil_2; intros k v Hin; cbn [fst snd] in Hin;
    repeat (apply elem_of_cons in Hin as [[= -> ->]|Hin]); try (by apply not_elem_of_nil in Hin);
    (eapply q_get_query_of; [| | |apply encodes_escaped]); cbn; written.
Qed.

(** ** Object names *)
Lemma path_unescape_app a b a' b' :
  path_unescape a = Some a' → path_unescape b = Some b' → path_unescape (a ++ b) = Some (a' ++ b').
Proof.
  intros Ha Hb. remember (String.length a) as n eqn:Hn. assert (String.length a ≤ n)%nat as Hl by lia. clear Hn.
  revert a a' Ha Hl. induction n as [|n IH]; intros a a' Ha Hl.
  - destruct a; [|simpl in Hl; lia]. injection Ha as <-. by rewrite string_app_nil_l.
  - destruct a as [|c a]; [injection Ha as <-; by rewrite string_app_nil_l|]. rewrite string_app_cons. simpl in Ha, Hl |- *.
    destruct (bool_decide (c = "%"%char)).
    + destruct a as [|h [|l a]]; [done..|]. rewrite !string_app_cons. simpl in Hl.
      destruct (unhex h), (unhex l); try done. destruct (path_unescape a) as [a1|] eqn:E; [|done]. injection Ha as <-.
      by rewrite (IH a a1 E ltac:(lia)).
    + destruct (path_unescape a) as [a1|] eqn:E; [|done]. injection Ha as <-. by rewrite (IH a a1 E ltac:(lia)).
Qed.
Lemma path_unescape_join es ss :
  Forall2 (λ e s, path_unescape e = Some s) es ss → path_unescape (join es "/") = Some (join ss "/").
Proof.
  induction 1 as [|e s es ss Hes Hf IH]; [done|]. destruct Hf as [|e' s' es ss He' Hf]; [done|].
  rewrite !join_cons. apply path_unescape_app; [done|]. by apply path_unescape_app.
Qed.
Lemma object_path_native eb eks : EdgeRoutes.is_native (pathUnescape (object_path eb eks)) = true.
Proof.
  assert (∀ r, EdgeRoutes.is_native ("/v1/" ++ r) = true) as Hn.
  { intros r. unfold EdgeRoutes.is_native. rewrite (proj2 (has_prefix_spec ("/v1/" ++ r) "/v1/")) by eauto.
    by rewrite orb_true_r. }
  unfold object_path. rewrite join_cons. unfold pathUnescape.
  change ("/" ++ "v1" ++ "/" ++ join ("o" :: eb :: eks) "/") with ("/v1/" ++ join ("o" :: eb :: eks) "/").
  generalize (join ("o" :: eb :: eks) "/"). intros r.
  assert (path_unescape ("/v1/" ++ r) = String.append "/v1/" <$> path_unescape r) as -> by (simpl; rewrite string_app_nil_l; by destruct (path_unescape r)).
  destruct (path_unescape r); apply Hn.
Qed.

(** The four methods on objects. *)
Definition object_handlers : list (string * EdgeRoutes.edge_handler) :=
  [("PUT", EdgeRoutes.HandlePut); ("GET", EdgeRoutes.HandleGet); ("HEAD", EdgeRoutes.HandleHead); ("DELETE", EdgeRoutes.HandleDelete)].

Lemma object_routed elector me hd eb eks bucket key :
  (me, hd) ∈ object_handlers → plain eb → Forall plain eks → eks ≠ [] →
  path_unescape eb = Some bucket → bucket ≠ "/" → Forall2 (λ e s, path_unescape e = Some s) eks key →
  EdgeRoutes.edge_Routes (edge_mux elector) me (object_path eb eks) =
    EdgeRoutes.Native (Served hd [("bucket", bucket); ("key", join key "/")]).
Proof.
  intros Hme Hb Hk Hne Hub Hslash Huk. unfold EdgeRoutes.edge_Routes. rewrite object_path_native. f_equal.
  destruct (edge_mux_ok elector) as [Hr Hs].
  assert (Forall plain ("v1" :: "o" :: eb :: eks)) as Hplain.
  { apply Forall_cons; split; [by_decide|]. apply Forall_cons; split; [by_decide|]. by apply Forall_cons. }
  assert (fits_segs [Lit "v1"; Lit "o"; Wild "bucket"; Multi "key"] ("v1" :: "o" :: eb :: eks) = Some [bucket; join key "/"]) as Hfit.
  { assert (pathUnescape eb = bucket) as Eb by (unfold pathUnescape; by rewrite Hub).
    assert (pathUnescape (join eks "/") = join key "/") as Ek by (unfold pathUnescape; by rewrite (path_unescape_join _ _ Huk)).
    destruct eks as [|e eks]; [done|]. cbn [fits_segs]. change (pathUnescape "v1") with "v1". change (pathUnescape "o") with "o".
    rewrite !(bool_decide_true (_ = _)) by done. by rewrite Eb, Ek, (bool_decide_false (bucket = "/")), (bool_decide_false ("key" = "")). }
  unfold object_handlers in Hme.
  repeat (apply elem_of_cons in Hme as [[= -> ->]|Hme]); [..|by apply not_elem_of_nil in Hme];
    [ apply (table_served _ _ "PUT /v1/o/{bucket}/{key...}" _ ("v1" :: "o" :: eb :: eks) [bucket; join key "/"] Hr Hs)
    | apply (table_served _ _ "GET /v1/o/{bucket}/{key...}" _ ("v1" :: "o" :: eb :: eks) [bucket; join key "/"] Hr Hs)
    | apply (table_served _ _ "HEAD /v1/o/{bucket}/{key...}" _ ("v1" :: "o" :: eb :: eks) [bucket; join key "/"] Hr Hs)
    | apply (table_served _ _ "DELETE /v1/o/{bucket}/{key...}" _ ("v1" :: "o" :: eb :: eks) [bucket; join key "/"] Hr Hs)];
    (done || (destruct elector; in_table)).
Qed.

(** The edge's PUT, GET and DELETE of an object's URL are the handlers on that bucket and key. *)
Section objects.
Context (gear : list Z).
Context (net : nat → outcome) (sched : list string → list string) (isched : list nat → list nat).
Context (porder : list MultipartPartMeta → list MultipartPartMeta).
Context {X : Type} {HM : MetaService X} {HS : S3Store X}.

(** C15: A request whose path is an object's URL, with bucket and key segments escaped in any way
    that decodes, reaches the native handler of its method, which works on exactly that bucket
    and key: the answer and the state are those of [handlePut], [handleGet], [handleHead] and
    [handleDelete] on them. *)
Theorem object_urls_reach_objects elector s now (h : s3_http) eb eks bucket key (w : Cluster) (x : X) :
  r_EscapedPath (h_req h) = object_path eb eks → plain eb → Forall plain eks → eks ≠ [] →
  path_unescape eb = Some bucket → bucket ≠ "/" → Forall2 (λ e s, path_unescape e = Some s) eks key →
  let q := object_request h [("bucket", bucket); ("key", join key "/")] in
  let answer := edge_http gear net sched isched porder (edge_mux elector) s now h w x in
  (r_Method (h_req h) = "PUT" → answer =
     let '(r, st) := Edge.handlePut gear net sched (s3_edge s) now q w x in (PutAnswer r, st)) ∧
  (r_Method (h_req h) = "GET" → answer =
     let '(r, st) := Edge.handleGet net sched isched (s3_edge s) now q w x in (GetAnswer r, st)) ∧
  (r_Method (h_req h) = "HEAD" → answer =
     let '(st, o, x) := handleHead (s3_edge s) now q x in (HeadAnswer st o, (w, x))) ∧
  (r_Method (h_req h) = "DELETE" → answer =
     let '(st, r) := Edge.handleDelete net (s3_edge s) now q w x in (DeleteAnswer st, r)) ∧
  q_bucket q = bucket ∧ q_key q = join key "/".
Proof.
  intros Hpath Hb Hk Hne Hub Hs Huk q answer.
  assert (∀ hd, (r_Method (h_req h), hd) ∈ object_handlers →
    EdgeRoutes.edge_Routes (edge_mux elector) (r_Method (h_req h)) (r_EscapedPath (h_req h)) =
    EdgeRoutes.Native (Served hd [("bucket", bucket); ("key", join key "/")])) as Hr
    by (intros hd Hin; rewrite Hpath; by apply object_routed).
  subst answer. unfold edge_http.
  split_and!; [intros Hm; rewrite (Hr EdgeRoutes.HandlePut) by (rewrite Hm; in_table)
    | intros Hm; rewrite (Hr EdgeRoutes.HandleGet) by (rewrite Hm; in_table)
    | intros Hm; rewrite (Hr EdgeRoutes.HandleHead) by (rewrite Hm; in_table)
    | intros Hm; rewrite (Hr EdgeRoutes.HandleDelete) by (rewrite Hm; in_table) | | ]; reflexivity.
Qed.
End objects.

(** A slash escaped in the bucket's segment: two names with one URL to sign and one record. *)
Example split_names_collide :
  EdgeRoutes.edge_Routes (edge_mux false) "PUT" "/v1/o/a%2Fb/c" =
    EdgeRoutes.Native (Served EdgeRoutes.HandlePut [("bucket", "a/b"); ("key", "c")]) ∧
  EdgeRoutes.edge_Routes (edge_mux false) "PUT" "/v1/o/a/b/c" =
    EdgeRoutes.Native (Served EdgeRoutes.HandlePut [("bucket", "a"); ("key", "b/c")]) ∧
  pathUnescape "/v1/o/a%2Fb/c" = pathUnescape "/v1/o/a/b/c" ∧ objKey "a/b" "c" = objKey "a" "b/c".
Proof. split_and!; vm_compute; reflexivity. Qed.
(** Keys with empty or dot segments, which the S3 interface stores, have no native URL. *)
Example unclean_keys_redirect :
  EdgeRoutes.edge_Routes (edge_mux false) "GET" "/v1/o/b/a//c" = EdgeRoutes.Native (Redirect "/v1/o/b/a/c") ∧
  EdgeRoutes.edge_Routes (edge_mux false) "GET" "/v1/o/b/a/../../x/c" = EdgeRoutes.Native (Redirect "/v1/o/x/c") ∧
  splitS3Path "/b/a//c" = ("b", "a//c").
Proof. split_and!; vm_compute; reflexivity. Qed.
(** Two valid bucket names that S3 requests on the bucket cannot reach. *)
Example reserved_buckets_unreachable :
  ValidateBucketName "metrics" = true ∧ ValidateBucketName "healthz" = true ∧
  EdgeRoutes.edge_Routes (edge_mux false) "PUT" "/metrics" = EdgeRoutes.Native (MethodNotAllowed ["GET"; "HEAD"]) ∧
  EdgeRoutes.edge_Routes (edge_mux false) "GET" "/healthz" = EdgeRoutes.Native (Served EdgeRoutes.HandleHealth []) ∧
  EdgeRoutes.edge_Routes (edge_mux false) "PUT" "/metrics/key" = EdgeRoutes.HandleS3.
Proof. split_and!; vm_compute; reflexivity. Qed.

(** ** Witnesses *)
Definition w_s3_server : S3Server := MkS3Server w_edge "" None false.
Definition w_http : s3_http := MkHttp (MkS3Request "GET" "/v1/o/b/my%20photos/k" "" "example.com" ∅) false [] None.
Lemma object_urls_reach_objects_witness :
  ∃ q, edge_http [] w_net id id id (HS := local_s3 (λ _, "id")) (edge_mux true) w_s3_server 0 w_http w_cluster w_local =
    (let '(r, st) := Edge.handleGet w_net id id w_edge 0 q w_cluster w_local in (GetAnswer r, st)) ∧
    q_bucket q = "b" ∧ q_key q = "my photos/k".
Proof.
  destruct (object_urls_reach_objects [] w_net id id id (HS := local_s3 (λ _, "id")) true w_s3_server 0 w_http
    "b" ["my%20photos"; "k"] "b" ["my photos"; "k"] w_cluster w_local) as (_ & Hget & _ & _ & Hb & Hk);
    [reflexivity | by_decide | by_decide | done | reflexivity | done | repeat constructor |].
  eexists. split; [exact (Hget eq_refl)|]. split; [exact Hb | exact Hk].
Defined.
Lemma dn_calls_reach_handlers_witness :
  dn_http (w_net 0) (putChunk_call DataNode.w_id) (Some DataNode.w_body) dn_mux (MkScrubNode DataNode.w_node no_scrub None) =
    let '(st, s) := put_call false DataNode.w_id DataNode.w_body (w_net 0) DataNode.w_node in
    (DNStatus st, set_srv (MkScrubNode DataNode.w_node no_scrub None) s).
Proof.
  destruct (dn_calls_reach_handlers (w_net 0) (MkScrubNode DataNode.w_node no_scrub None)) as (Hput & _).
  apply (Hput DataNode.w_id DataNode.w_body false). rewrite <- DataNode.w_id_spec. apply sha256_hex_valid.
Defined.
