(* ===== verification/EdgeStatus.v ===== *)
(** * The edge's listings and status answers: internal/edge/edge.go, replica.go

    What the read-only handlers of an edge answer: the native listing of a bucket and the
    views of the store, the log, the heartbeat monitor, the snapshot scheduler and the role.
    They read the edge's own store, with or without a coord daemon behind the edge. *)
From S2P Require Import Prelude GF GoLib UrlKey Kv Meta Store Wal Replay Election Follower Heartbeat.
From S2P Require Import Snapshots Coordinator Edge EdgeJobs StoreProps EdgeLocal EdgeTheorems S3ListTheorems.
#[local] Open Scope string_scope.

Section status.
Context {M : Type → Type} {KVM : KV M}.
Notation DB := (@DB M).

(** ** GET /v1/list/{bucket} *)
(** An entry counts its stripes or its chunks. *)
Record briefObj : Type := MkBrief
  { bo_Key : string; bo_Size : Z; bo_Version : Z; bo_ContentType : string;
    bo_Chunks : nat; bo_EC : option string; bo_Stripes : nat; bo_CreatedAt : Z }.
Definition brief (o : ObjectMeta) : briefObj :=
  match EC o with
  | Some ec =>
      if IsEC o
      then MkBrief (Key o) (Size o) (Version o) (ContentType o) 0 (Some (itoa (ec_K ec) ++ "+" ++ itoa (ec_M ec))) (length (Stripes o)) (CreatedAt o)
      else MkBrief (Key o) (Size o) (Version o) (ContentType o) (length (Chunks o)) None 0 (CreatedAt o)
  | None => MkBrief (Key o) (Size o) (Version o) (ContentType o) (length (Chunks o)) None 0 (CreatedAt o)
  end.
Record listing : Type := MkListingPage { l_bucket : string; l_prefix : string; l_count : nat; l_objects : list briefObj }.
Definition handleListBucket (e : EdgeServer) (now : Z) (q : Edge.request) (db : DB) : Z * option listing :=
  if negb (verifyAuth e now q) then (401%Z, None)
  else
    let prefix := q_get (q_query q) "prefix" in
    let limit := intQuery (q_query q) "limit" 1000 in
    match ListObjectsByPrefix db (q_bucket q) prefix limit with
    | Err _ => (500%Z, None)
    | Ok objs => let out := brief <$> objs in (200%Z, Some (MkListingPage (q_bucket q) prefix (length out) out))
    end.

(** ** The store *)
Definition handleList (db : DB) : Z * option (list ObjectMeta) :=
  match ListObjects db with Ok l => (200%Z, Some l) | Err _ => (500%Z, None) end.
Definition handleMetaInfo (size : Z) (db : DB) : Z * option MetaStats :=
  match Stats size db with Ok st => (200%Z, Some st) | Err _ => (500%Z, None) end.

(** ** Log, snapshots, heartbeat, role *)
(** [None]: the log is off; the recent entries are those after the tenth from the end. *)
Definition handleWALInfo (flush_failure : option (nat * bool)) (wal : option (WAL walop))
    : option (Z * list (WALEntry walop)) * option (WAL walop) :=
  match wal with
  | None => (None, None)
  | Some w =>
      let last := LastSeq w in
      let from := if (last - 10 <? 0)%Z then 0%Z else (last - 10)%Z in
      let '(r, w) := Since from flush_failure w in
      (Some (last, match r with Ok tail => tail | Err _ => [] end), Some w)
  end.
Record SchedulerStats : Type := MkSchedulerStats
  { ss_Enabled : bool; ss_Dir : string; ss_Interval : Z; ss_Keep : Z; ss_LastRun : option UTC; ss_LastSize : Z;
    ss_LastErr : bool; ss_TotalRuns : Z; ss_TotalErrors : Z; ss_History : list SnapshotInfo }.
Definition scheduler_Stats (order : list SnapshotInfo → list SnapshotInfo) (dir : string) (readdir : bool) (info_ok : string → bool)
    (d : gmap string (@dirent M)) (s : SnapshotScheduler) : SchedulerStats :=
  MkSchedulerStats (bool_decide (0 < interval s)%Z) dir (interval s) (keep s) (lastRun s) (sn_lastSize s) (sn_lastErr s)
    (runs s) (errs s) (listSnapshots order readdir info_ok d).
Definition handleSnapshotHistory (order : list SnapshotInfo → list SnapshotInfo) (dir : string) (readdir : bool) (info_ok : string → bool)
    (d : gmap string (@dirent M)) (s : option SnapshotScheduler) : option SchedulerStats :=
  scheduler_Stats order dir readdir info_ok d <$> s.
Definition handleHeartbeat (m : option Monitor) : bool * list Status :=
  match m with None => (false, []) | Some m => (true, Heartbeat.Snapshot m) end.
Definition handleHealth (c : option Coordinator) : list string := match c with Some c => coord_DNs c | None => [] end.

(** The configuration of a sync with the state it keeps; [fv_LastSync] is of the last success. *)
Record follower_view : Type := MkFollowerView
  { fv_PrimaryURL : string; fv_PullInterval : Z; fv_LastSync : option Z; fv_state : @followerState M }.
Record roleSnapshot : Type := MkRoleSnapshot
  { rs_Role : Role; rs_PrimaryURL : string; rs_PullInterval : option Z; rs_LastSync : option Z; rs_LastSize : Z;
    rs_LastErr : bool; rs_TotalSyncs : nat; rs_TotalErrors : nat }.
Definition follower_snapshot (f : follower_view) : roleSnapshot :=
  MkRoleSnapshot RoleFollower (fv_PrimaryURL f) (Some (fv_PullInterval f)) (fv_LastSync f) (lastSize (fv_state f)) (lastErr (fv_state f))
    (totalRuns (fv_state f)) (totalErrs (fv_state f)).
Definition empty_snapshot : roleSnapshot := MkRoleSnapshot RolePrimary "" None None 0 false 0 0.
Definition with_role (r : Role) (s : roleSnapshot) : roleSnapshot :=
  MkRoleSnapshot r (rs_PrimaryURL s) (rs_PullInterval s) (rs_LastSync s) (rs_LastSize s) (rs_LastErr s) (rs_TotalSyncs s) (rs_TotalErrors s).
Definition with_primary (u : string) (s : roleSnapshot) : roleSnapshot :=
  MkRoleSnapshot (rs_Role s) u (rs_PullInterval s) (rs_LastSync s) (rs_LastSize s) (rs_LastErr s) (rs_TotalSyncs s) (rs_TotalErrors s).
Definition roleStatus (elector : option Elector) (configured : Role) (f : option follower_view) : roleSnapshot :=
  let role := effectiveRole elector configured in
  let snap := match role, f with RoleFollower, Some f => follower_snapshot f | _, _ => empty_snapshot end in
  let snap := with_role role snap in
  match elector with Some e => with_primary (LeaderURL e) snap | None => snap end.
End status.

(** ** Election state: GET /v1/election/state *)
Definition State_String (s : State) : string :=
  match s with Election.Follower => "follower" | Candidate => "candidate" | Leader => "leader" end.
Record election_state : Type := MkElectionState
  { es_self : string; es_state : string; es_term : Z; es_voted_for : string; es_leader : string; es_last_hb : Z; es_peers : list Peer }.
Definition HandleState (e : Elector) : election_state :=
  MkElectionState (SelfID (cfg e)) (State_String (state e)) (currentTerm e) (votedFor e) (leader e) (lastHB e) (Peers (cfg e)).

(** ** What they answer *)

Section status.
Context {M : Type → Type} {KVM : KV M} {HKV : KVLaws M}.

(** ** The listing *)
Lemma prefix_loop_take b prefix limit all out : b ≠ "" → (length out < limit)%nat →
  prefix_loop b prefix (Z.of_nat limit) all out = (out ++ take (limit - length out) (filter (in_listing b prefix) all))%list.
Proof.
  intros Hb. revert out. induction all as [|o all IH]; intros out Hl; cbn [prefix_loop]; [by rewrite firstn_nil, app_nil_r|].
  rewrite (bool_decide_eq_false_2 (b = "")) by done. cbn [negb andb]. rewrite filter_cons.
  assert (in_listing b prefix o ↔ Bucket o = b ∧ (prefix = "" ∨ has_prefix (Key o) prefix = true)) as Hin.
  { unfold in_listing. split; [intros [? ?]; auto|]. intros [? [->|?]]; [|done]. split; [done|]. by destruct (Key o). }
  destruct (bool_decide_reflect (Bucket o = b)) as [Ho|Ho]; cbn [negb]; [|rewrite decide_False by (rewrite Hin; by intros [? _]); by apply IH].
  destruct (negb (bool_decide (prefix = "")) && negb (has_prefix (Key o) prefix)) eqn:Hp.
  { rewrite decide_False; [by apply IH|]. rewrite Hin. apply andb_prop in Hp as [Hp1%negb_true_iff Hp2%negb_true_iff].
    apply bool_decide_eq_false in Hp1. intros [_ [?|?]]; congruence. }
  rewrite decide_True.
  2:{ apply Hin. split; [done|]. apply andb_false_iff in Hp as [Hp|Hp]; apply negb_false_iff in Hp; [|by right].
      left. by apply bool_decide_eq_true in Hp. }
  assert ((0 <? Z.of_nat limit)%Z = true) as -> by lia. cbn [andb]. rewrite length_app. cbn [length].
  destruct (Z.leb_spec (Z.of_nat limit) (Z.of_nat (length out + 1))).
  - replace (limit - length out)%nat with 1%nat by lia. done.
  - rewrite IH by (rewrite length_app; simpl; lia). rewrite length_app, <- (assoc_L (++)%list). cbn [length app].
    replace (limit - length out)%nat with (S (limit - (length out + 1)))%nat by lia. done.
Qed.

(** The first objects of the bucket under the prefix, as many as asked for and 1000 by default,
    in the store's order, each once. *)
Theorem bucket_listing_exact e now q (db : @DB M) all :
  db_ok db → verifyAuth e now q = true → q_bucket q ≠ "" → ListObjects db = Ok all →
  let prefix := q_get (q_query q) "prefix" in
  let objs := take (Z.to_nat (intQuery (q_query q) "limit" 1000)) (filter (in_listing (q_bucket q) prefix) all) in
  handleListBucket e now q db = (200%Z, Some (MkListingPage (q_bucket q) prefix (length objs) (brief <$> objs))) ∧
  NoDup (Key <$> objs).
Proof.
  intros Hok Hauth Hb Hl prefix objs.
  assert (0 < intQuery (q_query q) "limit" 1000)%Z as Hpos.
  { unfold intQuery. repeat case_match; lia. }
  split.
  - subst objs. set (n := intQuery _ _ _) in *. assert (n = Z.of_nat (Z.to_nat n)) as Hn by lia.
    unfold handleListBucket, ListObjectsByPrefix. rewrite Hauth, Hl. cbn [negb rbind]. fold n prefix.
    assert (prefix_loop (q_bucket q) prefix n all [] = take (Z.to_nat n) (filter (in_listing (q_bucket q) prefix) all)) as ->.
    { rewrite Hn at 1. rewrite prefix_loop_take by (done || (simpl; lia)). by rewrite Nat.sub_0_r. }
    by rewrite length_fmap.
  - pose proof (listed_distinct db (q_bucket q) prefix all Hok Hl) as Hnd. unfold objs.
    rewrite <- (take_drop (Z.to_nat (intQuery (q_query q) "limit" 1000)) (filter _ all)), fmap_app in Hnd.
    by apply NoDup_app in Hnd as [? _].
Qed.

(** ** Role *)
(** The role reported is the one writes are decided by, with the primary they are sent to. *)
Lemma role_agrees_with_writes elector configured (f : option (@follower_view M)) :
  rs_Role (roleStatus elector configured f) = RoleFollower ↔
  is_Some (rejectIfFollowerWrite elector configured (fv_PrimaryURL <$> f)).
Proof.
  unfold roleStatus, rejectIfFollowerWrite. destruct (effectiveRole elector configured), f, elector; simpl; split; try done;
    intros [? [=]].
Qed.
Lemma reported_primary elector (f : @follower_view M) :
  effectiveRole elector RoleFollower = RoleFollower →
  rs_PrimaryURL (roleStatus elector RoleFollower (Some f)) = effectivePrimaryURL elector (Some (fv_PrimaryURL f)).
Proof. unfold roleStatus. intros ->. by destruct elector. Qed.

(** ** Statistics *)
(** The counts add up to what is stored. *)
Lemma count_objects_sums objs s :
  let r := foldl count_object s objs in
  ms_Objects r = ms_Objects s ∧
  ECObjects r = (ECObjects s + length (filter (λ o, IsEC o = true) objs))%nat ∧
  ChunkCount r = (ChunkCount s + sum_list ((λ o, if IsEC o then 0 else length (Chunks o)) <$> objs))%nat ∧
  StripeCount r = (StripeCount s + sum_list ((λ o, if IsEC o then length (Stripes o) else 0) <$> objs))%nat ∧
  ShardCount r = (ShardCount s + sum_list ((λ o, if IsEC o then sum_list (length <$> (Shards <$> Stripes o)) else 0) <$> objs))%nat.
Proof.
  revert s. induction objs as [|o objs IH]; intros s; [simpl; lia|]. cbn [foldl fmap list_fmap]. destruct (IH (count_object s o)) as (E1 & E2 & E3 & E4 & E5).
  cbn zeta. rewrite E1, E2, E3, E4, E5, filter_cons. unfold count_object. destruct (IsEC o); cbn [ms_Objects ECObjects ChunkCount StripeCount ShardCount];
    [rewrite decide_True by done|rewrite decide_False by done]; simpl; lia.
Qed.
End status.

(** ** Witness: of four objects, the first one under the prefix *)
Definition w_list_request : Edge.request :=
  MkRequest "GET" "/v1/list/photos" {["prefix" := ["dogs/"]; "limit" := ["1"]]} "photos" "" "" "" "" "" [].
Lemma bucket_listing_exact_witness :
  handleListBucket w_edge 0 w_list_request w_list_db =
    (200%Z, Some (MkListingPage "photos" "dogs/" 1 [brief (w_stored "dogs/a")])).
Proof.
  exact (proj1 (bucket_listing_exact w_edge 0 w_list_request w_list_db _ w_list_ok eq_refl ltac:(done) w_list_all)).
Defined.
