(* ===== verification/GoFmt.v ===== *)
(** * fmt and strconv: quoted strings and floating-point numbers

    [%q] of a string and [%g] of a float64, as the metrics page uses them.  Which runes are
    printable is unicode's table, an argument. *)
From S2P Require Import Prelude GF GoLib GoTime.
From Stdlib Require Import Strings.Ascii Floats.SpecFloat.
#[local] Open Scope string_scope.

(** ** Runes *)
Definition byte_val (c : ascii) : N := N_of_ascii c.
Definition in_range (lo hi : N) (c : ascii) : bool := (lo <=? byte_val c)%N && (byte_val c <=? hi)%N.
Definition continuation (c : ascii) : bool := in_range 128 191 c.
Definition low6 (c : ascii) : N := (byte_val c mod 64)%N.
(** [utf8.DecodeRune] on a string that does not start with an ASCII byte: the rune and the
    bytes it takes; [None] is [RuneError] of width one. *)
Definition decode_rune (s : string) : option (N * string) :=
  match s with
  | String a (String b t) =>
      let b6 := low6 b in
      if in_range 194 223 a && continuation b then Some (((byte_val a mod 32) * 64 + b6)%N, String a (String b ""))
      else
        match t with
        | String c t =>
            let ok3 := continuation c &&
              (in_range 224 224 a && in_range 160 191 b || in_range 225 236 a && continuation b
               || in_range 237 237 a && in_range 128 159 b || in_range 238 239 a && continuation b) in
            if ok3 then Some (((byte_val a mod 16) * 4096 + b6 * 64 + low6 c)%N, String a (String b (String c "")))
            else
              match t with
              | String d _ =>
                  let ok4 := continuation c && continuation d &&
                    (in_range 240 240 a && in_range 144 191 b || in_range 241 243 a && continuation b
                     || in_range 244 244 a && in_range 128 143 b) in
                  if ok4 then Some (((byte_val a mod 8) * 262144 + b6 * 4096 + low6 c * 64 + low6 d)%N, String a (String b (String c (String d ""))))
                  else None
              | "" => None
              end
        | "" => None
        end
  | _ => None
  end.

(** ** [strconv.Quote] *)
Fixpoint hex_digits (n : nat) (v : N) : string :=
  match n with O => "" | S n => hex_digits n (v / 16) ++ String (hex_digit (v mod 16)) "" end.
Definition backslash : ascii := "\"%char.
Definition dquote : ascii := ascii_of_N 34.
Section quote.
Context (IsPrint : N → bool).
Definition escape_rune (r : N) (raw : string) : string :=
  if (r =? 34)%N || (r =? 92)%N then String backslash raw
  else if IsPrint r then raw
  else if (r =? 7)%N then "\a" else if (r =? 8)%N then "\b" else if (r =? 12)%N then "\f" else if (r =? 10)%N then "\n"
  else if (r =? 13)%N then "\r" else if (r =? 9)%N then "\t" else if (r =? 11)%N then "\v"
  else if (r <? 32)%N || (r =? 127)%N then "\x" ++ hex_digits 2 r
  else if (r <? 65536)%N then "\u" ++ hex_digits 4 r
  else "\U" ++ hex_digits 8 r.
(** [skip] bytes belong to the rune written last. *)
Fixpoint quote_body (s : string) (skip : nat) : string :=
  match s with
  | "" => ""
  | String c t =>
      match skip with
      | S skip => quote_body t skip
      | O =>
          if (byte_val c <? 128)%N then escape_rune (byte_val c) (String c "") ++ quote_body t 0
          else match decode_rune s with
               | Some (r, raw) => escape_rune r raw ++ quote_body t (String.length raw - 1)
               | None => "\x" ++ hex_digits 2 (byte_val c) ++ quote_body t 0
               end
      end
  end.
Definition Quote (s : string) : string := String dquote (quote_body s 0 ++ String dquote "").
End quote.

(** ** [%g]: the shortest decimal that reads back as the number, nearest to it *)
Local Open Scope Z_scope.
Definition pow2 (n : Z) : Z := Z.shiftl 1 n.
(** [x 2^e / 10^p] as a fraction. *)
Definition scale (x e p : Z) : Z * Z :=
  let n := x * pow2 (Z.max 0 e) * 10 ^ (Z.max 0 (- p)) in
  let d := pow2 (Z.max 0 (- e)) * 10 ^ (Z.max 0 p) in (n, d).
(** Does [d] times the unit of [p] lie between the half-way points below and above? *)
Definition within_low (inclusive : bool) (low e p d : Z) : bool :=
  let '(n, q) := scale low e p in if inclusive then n <=? d * q else n <? d * q.
Definition within_high (inclusive : bool) (high e p d : Z) : bool :=
  let '(n, q) := scale high e p in if inclusive then d * q <=? n else d * q <? n.
(** From the greatest power of ten down: the first that has a multiple between the two. *)
Fixpoint shortest (fuel : nat) (inclusive : bool) (low x high e p : Z) : Z * Z :=
  let '(n, q) := scale x e p in
  let down := n / q in
  match fuel with
  | O => (down, p)
  | S fuel =>
      let okdown := within_low inclusive low e p down in
      let okup := within_high inclusive high e p (down + 1) in
      let r := n - down * q in
      if okdown && okup then (if (2 * r <? q) || ((2 * r =? q) && Z.even down) then (down, p) else (down + 1, p))
      else if okdown then (down, p)
      else if okup then (down + 1, p)
      else shortest fuel inclusive low x high e (p - 1)
  end.
Fixpoint strip_zeros (fuel : nat) (d p : Z) : Z * Z :=
  match fuel with
  | S fuel => if (d mod 10 =? 0) && negb (d =? 0) then strip_zeros fuel (d / 10) (p + 1) else (d, p)
  | O => (d, p)
  end.
(** No binary64 has more than 17 significant digits, and none exceeds [10^309]; [e] is at
    least -1074, so 18 steps below the first power with a digit are enough. *)
Definition shortest_digits (m : positive) (e : Z) : Z * Z :=
  let x := 4 * Zpos m in
  let low := if (Zpos m =? 2 ^ 52) && (-1074 <? e) then x - 1 else x - 2 in
  let high := x + 2 in
  let top := (Z.log2 high + (e - 2)) * 30103 / 100000 + 1 in
  let '(d, p) := shortest 20 (Z.even (Zpos m)) low x high (e - 2) top in
  strip_zeros 20 d p.

Fixpoint zeros (n : nat) : string := match n with O => "" | S n => String "0" (zeros n) end.
Definition format_e (ds : string) (exp : Z) : string :=
  (String.substring 0 1 ds ++ (if (String.length ds <=? 1)%nat then "" else "." ++ String.substring 1 (String.length ds - 1)%nat ds) ++
   "e" ++ (if (exp <? 0)%Z then "-" else "+") ++ (if (Z.abs exp <? 10)%Z then "0" else "") ++ itoa (Z.abs exp))%string.
Definition format_f (ds : string) (dp : Z) : string :=
  let nd := String.length ds in
  ((if (dp <=? 0)%Z then "0" else String.substring 0 (Z.to_nat dp) ds ++ zeros (Z.to_nat dp - nd)%nat) ++
   (if (Z.of_nat nd <=? dp)%Z then ""
    else "." ++ zeros (Z.to_nat (- dp)) ++ String.substring (Z.to_nat dp) (nd - Z.to_nat dp)%nat ds))%string.
Definition format_g (x : spec_float) : string :=
  match x with
  | S754_zero s => (if s then "-0" else "0")%string
  | S754_infinity s => (if s then "-Inf" else "+Inf")%string
  | S754_nan => "NaN"%string
  | S754_finite s m e =>
      let '(d, p) := shortest_digits m e in
      let ds := itoa d in
      let dp := Z.of_nat (String.length ds) + p in
      let exp := dp - 1 in
      ((if s then "-" else "") ++ (if ((exp <? -4) || (6 <=? exp))%Z then format_e ds exp else format_f ds dp))%string
  end.

(** [Duration.Seconds()] and the conversion to a signed integer, of a value that is in range. *)
Definition f64_add : spec_float → spec_float → spec_float := SFadd 53 1024.
Definition Seconds (d : Z) : spec_float := f64_add (f64_of (Z.quot d 1000000000)) (f64_div (f64_of (Z.rem d 1000000000)) (f64_of 1000000000)).
Definition int64_of_f64 (x : spec_float) : Z :=
  match x with S754_finite s m e => let v := Z.shiftl (Zpos m) e in if s then - v else v | _ => 0 end.
Definition f64_ratio (n d : Z) : spec_float := f64_div (f64_of n) (f64_of d).
Example format_g_values :
  format_g <$> [f64_ratio 1 1000; f64_ratio 1 100; f64_ratio 5 2; f64_of 30; f64_ratio 1234567 1000000; f64_of 1000000;
                f64_ratio 1 30000; f64_ratio 1 10; f64_of 100000; f64_ratio 123456789 10; f64_of 0; f64_ratio 2 3] =
  ["0.001"; "0.01"; "2.5"; "30"; "1.234567"; "1e+06"; "3.3333333333333335e-05"; "0.1"; "100000"; "1.23456789e+07"; "0"; "0.6666666666666666"]%string.
Proof. vm_compute. reflexivity. Qed.
Example quote_values :
  (λ s, Quote (λ r, (32 <=? r)%N && (r <? 127)%N) s) <$>
    ["replication"; String dquote "a\b"; String (ascii_of_N 9) (String (ascii_of_N 0) "z"); String (ascii_of_N 195) (String (ascii_of_N 169) "x"); String (ascii_of_N 255) "x"]%string =
  [String dquote "replication" ++ String dquote ""; String dquote (String backslash (String dquote "a\\b")) ++ String dquote "";
   String dquote "\t\x00z" ++ String dquote ""; String dquote "\u00e9x" ++ String dquote ""; String dquote "\xffx" ++ String dquote ""]%string.
Proof. vm_compute. reflexivity. Qed.
