(* ===== verification/Metrics.v ===== *)
(** * A registry of metrics: internal/metrics/metrics.go

    Metrics are cells of a heap; the registry lists those it exports, a handle is a cell's
    index.  What a metric shares between goroutines is atomic: an update is a list of atomic
    steps that read only the fields fixed at registration, and steps of several updates may
    interleave.  Registration and the creation of a slot hold a lock and are one step.  [None]
    is a panic.  Gauges read a world [W] when the page is made. *)
From S2P Require Import Prelude GF GoLib GoTime GoFmt S3Sig S3SigProps.
From Stdlib Require Import Strings.Ascii Floats.SpecFloat.
#[local] Open Scope string_scope.

Definition NUL : ascii := ascii_of_N 0.
Definition nul : string := String NUL "".

Section metrics.
Context {W : Type}.

(** ** The metrics *)
Record Counter : Type := MkCounter { c_name : string; c_help : string; labelKeys : list string; values : gmap string Z }.
Record Gauge : Type := MkGauge { g_name : string; g_help : string; g_fn : W → Z }.
(** [counts] holds a count per bucket and the count of all observations; [h_sum] is in
    microseconds. *)
Record Histogram : Type := MkHistogram
  { h_name : string; h_help : string; buckets : list spec_float; counts : list Z; h_sum : Z }.
Inductive metric : Type := MCounter (c : Counter) | MGauge (g : Gauge) | MHistogram (h : Histogram).
Definition Name (m : metric) : string := match m with MCounter c => c_name c | MGauge g => g_name g | MHistogram h => h_name h end.
Definition Help (m : metric) : string := match m with MCounter c => c_help c | MGauge g => g_help g | MHistogram h => h_help h end.
Definition TypeName (m : metric) : string := match m with MCounter _ => "counter" | MGauge _ => "gauge" | MHistogram _ => "histogram" end.

(** ** Registration *)
Record Registry : Type := MkRegistry { heap : list metric; metrics : list nat }.
Definition NewRegistry : Registry := MkRegistry [] [].
Definition name_at (hp : list metric) (i : nat) : string := default "" (Name <$> hp !! i).
(** A metric of the same name is replaced. *)
Fixpoint put_named (hp : list metric) (m : metric) (i : nat) (ids : list nat) : list nat :=
  match ids with
  | [] => [i]
  | j :: ids => if bool_decide (name_at hp j = Name m) then i :: ids else j :: put_named hp m i ids
  end.
Definition register (m : metric) (r : Registry) : nat * Registry :=
  let i := length (heap r) in (i, MkRegistry (heap r ++ [m])%list (put_named (heap r) m i (metrics r))).
Definition new_Counter (name help : string) (labelKeys : list string) : Registry → nat * Registry :=
  register (MCounter (MkCounter name help labelKeys ∅)).
Definition new_Gauge (name help : string) (fn : W → Z) : Registry → nat * Registry :=
  register (MGauge (MkGauge name help fn)).
Fixpoint ascending (bs : list spec_float) : bool :=
  match bs with
  | a :: (b :: _) as t => negb (SFleb b a) && ascending t
  | _ => true
  end.
Definition fresh_histogram (name help : string) (bs : list spec_float) : metric :=
  MHistogram (MkHistogram name help bs (replicate (length bs + 1) 0%Z) 0).
Definition new_Histogram (name help : string) (bs : list spec_float) (r : Registry) : option (nat * Registry) :=
  if ascending bs then Some (register (fresh_histogram name help bs) r) else None.

(** ** Updates *)
Inductive step : Type :=
  | Slot (i : nat) (key : string) | SlotAdd (i : nat) (key : string) (n : Z)
  | CountAdd (i j : nat) (n : Z) | SumAdd (i : nat) (n : Z).
Definition step_cell (st : step) : nat := match st with Slot i _ | SlotAdd i _ _ | CountAdd i _ _ | SumAdd i _ => i end.
(** A slot is never removed, so adding to the slot found before is adding to the key's. *)
Definition exec_cell (st : step) (m : metric) : metric :=
  match st, m with
  | Slot _ key, MCounter c =>
      MCounter (MkCounter (c_name c) (c_help c) (labelKeys c) (partial_alter (λ v, Some (default 0%Z v)) key (values c)))
  | SlotAdd _ key n, MCounter c =>
      MCounter (MkCounter (c_name c) (c_help c) (labelKeys c) (partial_alter (λ v, Some (u64 (default 0%Z v + n))) key (values c)))
  | CountAdd _ j n, MHistogram h =>
      MHistogram (MkHistogram (h_name h) (h_help h) (buckets h) (alter (λ v, u64 (v + n)) j (counts h)) (h_sum h))
  | SumAdd _ n, MHistogram h => MHistogram (MkHistogram (h_name h) (h_help h) (buckets h) (counts h) (u64 (h_sum h + n)))
  | _, _ => m
  end.
Definition exec (hp : list metric) (st : step) : list metric := alter (exec_cell st) (step_cell st) hp.
Definition run_steps (steps : list step) (r : Registry) : Registry := MkRegistry (foldl exec (heap r) steps) (metrics r).

(** [WithLabels]: the key of the slot. *)
Definition WithLabels (hp : list metric) (i : nat) (labelValues : list string) : option string :=
  match hp !! i with
  | Some (MCounter c) => if (length labelValues =? length (labelKeys c))%nat then Some (join labelValues nul) else None
  | _ => None
  end.
Definition add_labelled (hp : list metric) (i : nat) (labelValues : list string) (n : Z) : option (list step) :=
  key ← WithLabels hp i labelValues; Some [Slot i key; SlotAdd i key n].
(** [Inc] and [Add] pass the names of the labels as their values. *)
Definition Add (hp : list metric) (i : nat) (n : Z) : option (list step) :=
  match hp !! i with Some (MCounter c) => add_labelled hp i (labelKeys c) n | _ => None end.
Definition Inc (hp : list metric) (i : nat) : option (list step) := Add hp i 1.

Definition clamp (secs : spec_float) : spec_float := if SFltb secs (f64_of 0) then f64_of 0 else secs.
Definition micros (secs : spec_float) : Z := uint64_of_f64 (f64_mul secs (f64_of 1000000)).
Fixpoint bucket_steps (i j : nat) (bs : list spec_float) (secs : spec_float) : list step :=
  match bs with
  | [] => [CountAdd i j 1]
  | ub :: bs => ((if SFleb secs ub then [CountAdd i j 1] else []) ++ bucket_steps i (S j) bs secs)%list
  end.
Definition Observe (hp : list metric) (i : nat) (secs : spec_float) : option (list step) :=
  match hp !! i with
  | Some (MHistogram h) => let secs := clamp secs in Some (bucket_steps i 0 (buckets h) secs ++ [SumAdd i (micros secs)])%list
  | _ => None
  end.

(** ** The page: one string per write *)
Context (IsPrint : N → bool).
Definition label_pair (lk v : string) : string := lk ++ "=" ++ Quote IsPrint v.
(** [labelVals[i]] panics when the key has too few parts. *)
Fixpoint label_pairs (lks vals : list string) : option (list string) :=
  match lks, vals with
  | [], _ => Some []
  | lk :: lks, v :: vals => ps ← label_pairs lks vals; Some (label_pair lk v :: ps)
  | _ :: _, [] => None
  end.
Definition plain_line (name : string) (v : string) : string := name ++ " " ++ v ++ newline.
Definition labelled_line (name : string) (pairs : list string) (v : Z) : string :=
  name ++ "{" ++ join pairs "," ++ "} " ++ itoa v ++ newline.
Definition counter_Render (c : Counter) : option (list string) :=
  match labelKeys c with
  | [] => Some [plain_line (c_name c) (itoa (default 0%Z (values c !! "")))]
  | lks =>
      mapM (λ k, ps ← label_pairs lks (split k NUL); Some (labelled_line (c_name c) ps (default 0%Z (values c !! k))))
        (sort_strings (map_to_list (values c)).*1)
  end.
Definition bucket_line (name : string) (le : string) (v : Z) : string :=
  name ++ "_bucket{le=" ++ String dquote (le ++ String dquote ("} " ++ itoa v ++ newline)).
Definition histogram_Render (h : Histogram) : list string :=
  let count := default 0%Z (counts h !! length (buckets h)) in
  (imap (λ j ub, bucket_line (h_name h) (format_g ub) (default 0%Z (counts h !! j))) (buckets h) ++
   [bucket_line (h_name h) "+Inf" count;
    plain_line (h_name h ++ "_sum") (format_g (f64_div (f64_of (h_sum h)) (f64_of 1000000)));
    plain_line (h_name h ++ "_count") (itoa count)])%list.
Definition metric_Render (w : W) (m : metric) : option (list string) :=
  match m with
  | MCounter c => counter_Render c
  | MGauge g => Some [plain_line (g_name g) (itoa (g_fn g w))]
  | MHistogram h => Some (histogram_Render h)
  end.
Definition header_lines (m : metric) : list string :=
  ["# HELP " ++ Name m ++ " " ++ Help m ++ newline; "# TYPE " ++ Name m ++ " " ++ TypeName m ++ newline].
(** The names of a registry differ, so the sort by name has one outcome. *)
Definition named_le (a b : string * nat) : Prop := String.le a.1 b.1.
#[global] Instance named_le_dec : RelDecision named_le := λ a b, _.
#[global] Instance named_le_trans : Transitive named_le.
Proof. intros a b c. unfold named_le. apply (transitivity (R := String.le)). Qed.
#[global] Instance named_le_total : Total named_le.
Proof. intros a b. unfold named_le. apply (total String.le). Qed.
Definition by_name (hp : list metric) (ids : list nat) : list nat :=
  (merge_sort named_le ((λ i, (name_at hp i, i)) <$> ids)).*2.
(** A write that fails ends the page there: a client then has a prefix of these writes. *)
Definition Render (w : W) (r : Registry) : option (list string) :=
  blocks ← mapM (λ i, match heap r !! i with
                      | Some m => ls ← metric_Render w m; Some (header_lines m ++ ls)%list
                      | None => None end) (by_name (heap r) (metrics r));
  Some (concat blocks).
End metrics.
Arguments metric : clear implicits.
Arguments Registry : clear implicits.
Arguments Gauge : clear implicits.

(** ** What a registry's page shows

    A page depends on which updates were made, not on how their atomic steps interleave:
    every counter shows a tally, every histogram how many observations each bucket holds. *)

Section props.
Context {W : Type}.
Notation metric := (metric W).

(** ** Lists *)
Lemma alter_middle {A} (f : A → A) l1 x l2 : alter f (length l1) (l1 ++ x :: l2)%list = (l1 ++ f x :: l2)%list.
Proof. rewrite alter_app_r_alt, Nat.sub_diag by done. done. Qed.

(** ** Steps commute *)
Lemma u64_add_comm v n m : u64 (u64 (v + n) + m) = u64 (u64 (v + m) + n).
Proof. unfold u64. rewrite !Zplus_mod_idemp_l. f_equal. lia. Qed.
Lemma exec_cell_comm (s t : step) (m : metric) : step_cell s = step_cell t → exec_cell s (exec_cell t m) = exec_cell t (exec_cell s m).
Proof.
  intros _. destruct m as [c|g|h]; [|by destruct s, t|].
  - destruct s as [i k|i k n|i j n|i n], t as [i' k'|i' k' n'|i' j' n'|i' n']; try reflexivity; cbn; do 2 f_equal;
      (destruct (decide (k = k')) as [->|]; [|by rewrite partial_alter_partial_alter_ne by done]);
      rewrite !partial_alter_partial_alter_eq; apply partial_alter_ext; intros [v|] _; cbn; try done; by rewrite u64_add_comm.
  - destruct s as [i k|i k n|i j n|i n], t as [i' k'|i' k' n'|i' j' n'|i' n']; try reflexivity; cbn; do 2 f_equal; [|apply u64_add_comm].
    destruct (decide (j = j')) as [->|]; [|by rewrite list_alter_alter_ne by done].
    rewrite !list_alter_alter_eq. apply list_alter_ext; [|done]. intros v _. cbn. apply u64_add_comm.
Qed.
Lemma exec_comm (s t : step) (hp : list metric) : exec (exec hp s) t = exec (exec hp t) s.
Proof.
  unfold exec. destruct (decide (step_cell s = step_cell t)) as [E|]; [|by rewrite list_alter_alter_ne by done].
  rewrite E, !list_alter_alter_eq. apply list_alter_ext; [|done]. intros m _. cbn. by apply exec_cell_comm.
Qed.
Lemma foldl_exec_perm (l l' : list step) : l ≡ₚ l' → ∀ hp : list metric, foldl exec hp l = foldl exec hp l'.
Proof. induction 1 as [|x l l' _ IH|x y l|l1 l2 l3 _ IH1 _ IH2]; intros hp; cbn; [done|apply IH|by rewrite exec_comm|by rewrite IH1]. Qed.

Lemma exec_cells (steps : list step) (hp : list metric) k :
  foldl exec hp steps !! k = (λ m, foldl (λ m st, exec_cell st m) m (filter (λ st, step_cell st = k) steps)) <$> hp !! k.
Proof.
  revert hp. induction steps as [|st steps IH]; intros hp; cbn [foldl]; [by destruct (hp !! k)|].
  rewrite IH, filter_cons. unfold exec. case_decide as E.
  - rewrite E, list_lookup_alter_eq. by destruct (hp !! k).
  - by rewrite list_lookup_alter_ne by done.
Qed.
Lemma exec_cell_kept (st : step) (m : metric) : Name (exec_cell st m) = Name m ∧ Help (exec_cell st m) = Help m.
Proof. by destruct st, m. Qed.

(** ** Updates and their tallies *)
Inductive update : Type := Counted (i : nat) (labelValues : list string) | Observed (i : nat) (secs : spec_float).
Definition update_cell (u : update) : nat := match u with Counted i _ | Observed i _ => i end.
Definition update_steps (hp : list metric) (u : update) : option (list step) :=
  match u with Counted i vals => add_labelled hp i vals 1 | Observed i secs => Observe hp i secs end.

Definition counted (i : nat) (us : list update) : list (list string) :=
  omap (λ u, match u with Counted j vals => if bool_decide (i = j) then Some vals else None | _ => None end) us.
Definition observed (i : nat) (us : list update) : list spec_float :=
  omap (λ u, match u with Observed j secs => if bool_decide (i = j) then Some secs else None | _ => None end) us.
Definition occurrences {A} `{EqDecision A} (x : A) (l : list A) : Z := Z.of_nat (length (filter (λ y, y = x) l)).
Definition tally (keys : list string) : gmap string Z :=
  foldl (λ m k, partial_alter (λ v, Some (u64 (default 0%Z v + 1))) k m) ∅ keys.
Definition in_bucket (obs : list spec_float) (ub : spec_float) : Z := Z.of_nat (length (filter (λ s, SFleb (clamp s) ub = true) obs)).
Definition bucket_counts (bs obs : list spec_float) : list Z :=
  (((λ ub, u64 (in_bucket obs ub)) <$> bs) ++ [u64 (Z.of_nat (length obs))])%list.
Definition sum_micros (obs : list spec_float) : Z := foldr Z.add 0%Z ((λ s, micros (clamp s)) <$> obs).
Definition tallied (us : list update) (i : nat) (m : metric) : metric :=
  match m with
  | MCounter c => MCounter (MkCounter (c_name c) (c_help c) (labelKeys c) (tally ((λ vals, join vals nul) <$> counted i us)))
  | MGauge g => MGauge g
  | MHistogram h =>
      MHistogram (MkHistogram (h_name h) (h_help h) (buckets h) (bucket_counts (buckets h) (observed i us)) (u64 (sum_micros (observed i us))))
  end.
Definition fresh (m : metric) : Prop :=
  match m with
  | MCounter c => values c = ∅
  | MGauge _ => True
  | MHistogram h => counts h = replicate (length (buckets h) + 1) 0%Z ∧ h_sum h = 0%Z
  end.

Lemma tallied_fresh i (m : metric) : fresh m → tallied [] i m = m.
Proof.
  destruct m as [[n hl lk v]|g|[n hl bs cs s]]; cbn; [by intros ->|done|]. intros [-> ->]. do 2 f_equal.
  unfold bucket_counts. cbn. rewrite replicate_add. f_equal. by induction bs; cbn; f_equal.
Qed.
Lemma bucket_steps_exec i secs bs : ∀ cs0 cs n hl (bs0 : list spec_float) s, length cs = S (length bs) →
  foldl (λ (m : metric) st, exec_cell st m) (MHistogram (MkHistogram n hl bs0 (cs0 ++ cs) s)) (bucket_steps i (length cs0) bs secs) =
  MHistogram (MkHistogram n hl bs0
    (cs0 ++ zip_with (λ v ub, if SFleb secs ub then u64 (v + 1) else v) (take (length bs) cs) bs ++
     ((λ v, u64 (v + 1)) <$> drop (length bs) cs)) s)%Z%list.
Proof.
  induction bs as [|ub bs IH]; intros cs0 [|v cs] n hl bs0 s Hl; cbn in Hl; try lia.
  - destruct cs; [|cbn in Hl; lia]. cbn. by rewrite alter_middle.
  - cbn [bucket_steps take drop length zip_with]. rewrite foldl_app.
    replace (S (length cs0)) with (length (cs0 ++ [v])%list) by (rewrite length_app; cbn; lia).
    destruct (SFleb secs ub); cbn [foldl exec_cell h_name h_help buckets counts h_sum].
    + rewrite alter_middle. replace (cs0 ++ u64 (v + 1) :: cs)%list with ((cs0 ++ [u64 (v + 1)]) ++ cs)%list by (by rewrite <- app_assoc).
      rewrite length_app. change (length [v]) with (length [u64 (v + 1)]). rewrite <- length_app, IH by lia.
      by rewrite <- app_assoc.
    + replace (cs0 ++ v :: cs)%list with ((cs0 ++ [v]) ++ cs)%list by (by rewrite <- app_assoc). rewrite IH by lia. by rewrite <- app_assoc.
Qed.
Lemma u64_succ n : u64 (u64 (Z.of_nat n) + 1) = u64 (Z.of_nat (n + 1)).
Proof. unfold u64. rewrite Zplus_mod_idemp_l. f_equal. lia. Qed.
Lemma bucket_counts_snoc bs obs secs :
  (zip_with (λ v ub, if SFleb (clamp secs) ub then u64 (v + 1) else v) (take (length bs) (bucket_counts bs obs)) bs ++
     ((λ v, u64 (v + 1)) <$> drop (length bs) (bucket_counts bs obs)))%Z%list = bucket_counts bs (obs ++ [secs]).
Proof.
  unfold bucket_counts. rewrite take_app_length', drop_app_length' by (by rewrite length_fmap). cbn [fmap list_fmap].
  rewrite length_app, u64_succ. f_equal. induction bs as [|ub bs IH]; [done|]. cbn [fmap list_fmap zip_with]. f_equal; [|done].
  unfold in_bucket. rewrite filter_app, length_app, filter_cons, filter_nil. destruct (SFleb (clamp secs) ub) eqn:E.
  - rewrite decide_True by done. by rewrite u64_succ.
  - rewrite decide_False by done. cbn. by rewrite Nat.add_0_r.
Qed.
Lemma sum_micros_snoc obs s : sum_micros (obs ++ [s]) = (sum_micros obs + micros (clamp s))%Z.
Proof. unfold sum_micros. induction obs as [|o obs IH]; cbn in *; [lia|rewrite IH; lia]. Qed.
Lemma tally_snoc keys k : tally (keys ++ [k]) = partial_alter (λ v, Some (u64 (default 0%Z v + 1))) k (tally keys).
Proof. unfold tally. by rewrite foldl_app. Qed.

Lemma update_cells (hp : list metric) u ss : update_steps hp u = Some ss → Forall (λ st, step_cell st = update_cell u) ss.
Proof.
  destruct u as [i vals|i secs]; cbn [update_steps update_cell].
  - unfold add_labelled. destruct (WithLabels hp i vals); intros [= <-]. by repeat constructor.
  - unfold Observe. destruct (hp !! i) as [[]|]; intros [= <-]. apply Forall_app. split; [|by repeat constructor].
    generalize 0. induction (buckets h) as [|ub bs IH]; intros j; cbn; [by repeat constructor|].
    apply Forall_app. split; [|apply IH]. by destruct (SFleb _ _); repeat constructor.
Qed.
Lemma update_tallied (hp : list metric) us u ss (i : nat) (m : metric) :
  hp !! i = Some m → update_steps hp u = Some ss → update_cell u = i →
  foldl (λ m st, exec_cell st m) (tallied us i m) ss = tallied (us ++ [u]) i m.
Proof.
  intros Hm Hu Hi. destruct u as [j vals|j secs]; cbn in Hu, Hi; subst j.
  - unfold add_labelled, WithLabels in Hu. rewrite Hm in Hu. destruct m as [c|g|h]; try done.
    destruct (_ =? _)%nat; [|done]. injection Hu as <-. cbn. unfold counted. rewrite omap_app. cbn.
    rewrite bool_decide_eq_true_2 by done. rewrite fmap_app. cbn [fmap list_fmap]. rewrite tally_snoc.
    by rewrite partial_alter_partial_alter_eq.
  - unfold Observe in Hu. rewrite Hm in Hu. destruct m as [c|g|[n hl bs cs s]]; try done. injection Hu as <-.
    rewrite foldl_app. unfold tallied, observed. rewrite omap_app. cbn [h_name h_help buckets counts h_sum omap list_omap].
    rewrite bool_decide_eq_true_2 by done. fold (observed i us).
    pose proof (bucket_steps_exec i (clamp secs) bs [] (bucket_counts bs (observed i us)) n hl bs (u64 (sum_micros (observed i us)))) as Hb.
    cbn [app length] in Hb. rewrite Hb by (unfold bucket_counts; rewrite length_app, length_fmap; cbn; lia).
    cbn [foldl exec_cell h_name h_help buckets counts h_sum]. rewrite bucket_counts_snoc, sum_micros_snoc. do 2 f_equal.
    unfold u64. by rewrite Zplus_mod_idemp_l.
Qed.
Lemma update_elsewhere us u i (m : metric) : update_cell u ≠ i → tallied (us ++ [u]) i m = tallied us i m.
Proof.
  intros Hne. unfold tallied, counted, observed. rewrite !omap_app.
  destruct u as [j vals|j secs]; cbn in *; rewrite ?bool_decide_eq_false_2 by done; by rewrite !app_nil_r.
Qed.

Lemma updates_in_order (hp : list metric) us all : Forall fresh hp → mapM (update_steps hp) us = Some all →
  foldl exec hp (concat all) = imap (tallied us) hp.
Proof.
  intros Hf Hall. apply mapM_Some in Hall. revert all Hall. induction us as [|u us IH] using rev_ind; intros all Hall.
  - apply Forall2_nil_inv_l in Hall. subst all. cbn. apply list_eq. intros i. rewrite list_lookup_imap.
    destruct (hp !! i) as [m|] eqn:Hm; cbn; [|done]. rewrite tallied_fresh; [done|]. by eapply Forall_lookup_1.
  - apply Forall2_app_inv_l in Hall as (all1 & all2 & H1 & H2 & ->).
    apply Forall2_cons_inv_l in H2 as (ss & rest & Hu & H2 & ->). apply Forall2_nil_inv_l in H2. subst rest.
    rewrite concat_app, foldl_app, IH by done. cbn [concat]. rewrite app_nil_r. pose proof (update_cells _ _ _ Hu) as Hc.
    apply list_eq. intros i. rewrite exec_cells, !list_lookup_imap. destruct (hp !! i) as [m|] eqn:Hm; cbn; [|done]. f_equal.
    destruct (decide (update_cell u = i)) as [E|E].
    + rewrite filter_all by (intros st Hst; rewrite Forall_forall in Hc; by rewrite Hc).
      by eapply update_tallied.
    + rewrite update_elsewhere, filter_none by (done || (intros st Hst; rewrite Forall_forall in Hc; by rewrite Hc)). done.
Qed.
(** However the steps of the updates interleave, each metric holds its tally. *)
Lemma updates_interleaved (hp : list metric) us all steps : Forall fresh hp → mapM (update_steps hp) us = Some all →
  steps ≡ₚ concat all → foldl exec hp steps = imap (tallied us) hp.
Proof. intros Hf Hall Hp. rewrite (foldl_exec_perm _ _ Hp). by apply updates_in_order. Qed.

(** ** What a page should show *)
Lemma tally_lookup keys k : tally keys !! k = if decide (k ∈ keys) then Some (u64 (occurrences k keys)) else None.
Proof.
  unfold occurrences. induction keys as [|k' keys IH] using rev_ind; [by rewrite decide_False by (apply not_elem_of_nil)|].
  rewrite tally_snoc, filter_app, length_app, filter_cons, filter_nil. destruct (decide (k' = k)) as [->|Hne].
  - rewrite lookup_partial_alter_eq, IH. rewrite (decide_True (P := k ∈ (keys ++ [k])%list)) by set_solver. cbn [length]. f_equal.
    case_decide as Hin; cbn [default]; [apply u64_succ|]. rewrite filter_none by (intros y Hy ->; done). done.
  - rewrite lookup_partial_alter_ne, IH by done. cbn [length]. rewrite Nat.add_0_r.
    destruct (decide (k ∈ keys)); [rewrite decide_True by set_solver|rewrite decide_False by set_solver]; done.
Qed.
Lemma tally_keys keys : sort_strings (map_to_list (tally keys)).*1 = sort_strings (remove_dups keys).
Proof.
  apply (merge_sort_perm String.le). apply NoDup_Permutation; [apply NoDup_fst_map_to_list|apply NoDup_remove_dups|].
  intros k. rewrite elem_of_remove_dups, list_elem_of_fmap. split.
  - intros ([x v] & -> & H%elem_of_map_to_list). rewrite tally_lookup in H. by case_decide.
  - intros Hk. exists (k, u64 (occurrences k keys)). split; [done|]. apply elem_of_map_to_list. by rewrite tally_lookup, decide_True.
Qed.

Context (IsPrint : N → bool).
(** Labels that a page can tell apart: none holds the separator of the key. *)
Definition labels_ok (vals : list string) : Prop := ∀ v, v ∈ vals → no_char NUL v.
Definition label_order (recs : list (list string)) : list (list string) :=
  (λ k, split k NUL) <$> sort_strings (remove_dups ((λ vals, join vals nul) <$> recs)).
Definition counter_lines (name : string) (lks : list string) (recs : list (list string)) : list string :=
  match lks with
  | [] => [plain_line name (itoa (u64 (Z.of_nat (length recs))))]
  | _ => (λ vals, labelled_line name (zip_with (label_pair IsPrint) lks vals) (u64 (occurrences vals recs))) <$> label_order recs
  end.
Definition histogram_lines (name : string) (bs obs : list spec_float) : list string :=
  (((λ ub, bucket_line name (format_g ub) (u64 (in_bucket obs ub))) <$> bs) ++
   [bucket_line name "+Inf" (u64 (Z.of_nat (length obs)));
    plain_line (name ++ "_sum") (format_g (f64_div (f64_of (u64 (sum_micros obs))) (f64_of 1000000)));
    plain_line (name ++ "_count") (itoa (u64 (Z.of_nat (length obs))))])%list.
Definition family (w : W) (us : list update) (i : nat) (m : metric) : list string :=
  (header_lines m ++
   match m with
   | MCounter c => counter_lines (c_name c) (labelKeys c) (counted i us)
   | MGauge g => [plain_line (g_name g) (itoa (g_fn g w))]
   | MHistogram h => histogram_lines (h_name h) (buckets h) (observed i us)
   end)%list.

Lemma label_pairs_zip lks vals : length vals = length lks → label_pairs IsPrint lks vals = Some (zip_with (label_pair IsPrint) lks vals).
Proof. revert vals. induction lks as [|lk lks IH]; intros [|v vals] H; cbn in *; try lia; [done|]. by rewrite IH by lia. Qed.
Lemma join_key_inj vals vals' : length vals = length vals' → vals ≠ [] → labels_ok vals → labels_ok vals' → join vals nul = join vals' nul → vals = vals'.
Proof. intros Hl Hne H1 H2 E. unfold nul in E. eapply join_inj; [| | | |exact E]; auto. by destruct vals', vals. Qed.
Lemma occurrences_join vals recs : vals ≠ [] → labels_ok vals → Forall (λ r, length r = length vals ∧ labels_ok r) recs →
  occurrences (join vals nul) ((λ r, join r nul) <$> recs) = occurrences vals recs.
Proof.
  intros Hne Hv Hr. unfold occurrences. f_equal. induction Hr as [|r recs [Hl Hr] _ IH]; [done|].
  cbn [fmap list_fmap]. rewrite !filter_cons. destruct (decide (r = vals)) as [->|E].
  - rewrite decide_True by done. cbn. by f_equal.
  - rewrite decide_False; [done|]. intros E'. apply E. apply join_key_inj; try done. by destruct r, vals.
Qed.
Lemma counter_shown (c : Counter) recs :
  values c = tally ((λ vals, join vals nul) <$> recs) → Forall (λ r, length r = length (labelKeys c) ∧ labels_ok r) recs →
  counter_Render IsPrint c = Some (counter_lines (c_name c) (labelKeys c) recs).
Proof.
  intros Hv Hr. unfold counter_Render, counter_lines. rewrite Hv. destruct (labelKeys c) as [|lk lks] eqn:Hk.
  - do 3 f_equal. f_equal. rewrite tally_lookup.
    assert ((λ vals, join vals nul) <$> recs = replicate (length recs) "") as ->.
    { clear Hv. induction Hr as [|r recs [Hl _] _ IH]; [done|]. destruct r; [|done]. cbn in *. by f_equal. }
    unfold occurrences. rewrite filter_all by (intros x [-> _]%elem_of_replicate; done). rewrite length_replicate.
    destruct recs; cbn [length replicate]; [by rewrite decide_False by (apply not_elem_of_nil)|by rewrite decide_True by left].
  - rewrite tally_keys. unfold label_order. rewrite <- list_fmap_compose.
    assert (Hall : ∀ k, k ∈ sort_strings (remove_dups ((λ vals, join vals nul) <$> recs)) → ∃ vals, k = join vals nul ∧ vals ∈ recs).
    { intros k. rewrite elem_of_sort_strings, elem_of_remove_dups, list_elem_of_fmap. eauto. }
    induction (sort_strings _) as [|k ks IH]; [done|]. cbn [mapM fmap list_fmap].
    destruct (Hall k (list_elem_of_here _ _)) as (vals & -> & Hin).
    pose proof (proj1 (Forall_forall _ _) Hr _ Hin) as [Hl Hok].
    assert (Hne : vals ≠ []) by (by destruct vals).
    assert (Hs : split (join vals nul) NUL = vals) by (by apply split_join).
    unfold compose. rewrite Hs, label_pairs_zip by done. cbn [mbind option_bind].
    rewrite IH by (intros k Hk'; apply Hall; by right). cbn [mbind option_bind]. do 2 f_equal. f_equal.
    rewrite tally_lookup, decide_True by (apply list_elem_of_fmap; eauto). cbn [default].
    rewrite occurrences_join; [done|done|done|]. eapply Forall_impl; [exact Hr|]. intros r [Hlr ?]. by rewrite Hlr, Hl.
Qed.

(** ** The page of a registry *)
Lemma counted_shown (hp : list metric) us all i (c : Counter) :
  mapM (update_steps hp) us = Some all → hp !! i = Some (MCounter c) →
  (∀ j vals, Counted j vals ∈ us → labels_ok vals) →
  Forall (λ r, length r = length (labelKeys c) ∧ labels_ok r) (counted i us).
Proof.
  intros Hall Hi Hok. apply Forall_forall. intros vals Hin. unfold counted in Hin.
  apply list_elem_of_omap in Hin as (u & Hu & E). destruct u as [j vals'|]; [|done].
  case_bool_decide; [|done]. injection E as ->. subst j. split; [|by eapply Hok].
  apply mapM_Some in Hall. apply list_elem_of_lookup in Hu as [n Hn].
  destruct (Forall2_lookup_l _ _ _ _ _ Hall Hn) as (ss & _ & Hss).
  cbn in Hss. unfold add_labelled, WithLabels in Hss. rewrite Hi in Hss.
  destruct (Nat.eqb_spec (length vals) (length (labelKeys c))); [done|done].
Qed.
Lemma metric_shown (w : W) (hp : list metric) us all i (m : metric) :
  mapM (update_steps hp) us = Some all → hp !! i = Some m → (∀ j vals, Counted j vals ∈ us → labels_ok vals) →
  (ls ← metric_Render IsPrint w (tallied us i m); Some (header_lines (tallied us i m) ++ ls)%list) = Some (family w us i m).
Proof.
  intros Hall Hm Hok. unfold family. destruct m as [c|g|h]; [|done|].
  - cbn [tallied metric_Render]. rewrite (counter_shown _ (counted i us)); [done|done|]. cbn [labelKeys]; eapply counted_shown; eassumption.
  - cbn [tallied metric_Render mbind option_bind]. do 2 f_equal. unfold histogram_Render, histogram_lines.
    cbn [h_name buckets counts h_sum]. unfold bucket_counts.
    rewrite lookup_app_r, length_fmap, Nat.sub_diag by (by rewrite length_fmap). cbn [lookup list_lookup default]. f_equal.
    apply list_eq. intros j. rewrite list_lookup_imap, list_lookup_fmap.
    destruct (buckets h !! j) as [ub|] eqn:Hub; [|done]. cbn [fmap option_fmap option_map]. do 2 f_equal.
    rewrite lookup_app_l by (rewrite length_fmap; by eapply lookup_lt_Some). by rewrite list_lookup_fmap, Hub.
Qed.
Lemma tallied_name us i (m : metric) : Name (tallied us i m) = Name m.
Proof. by destruct m. Qed.
Lemma by_name_tallied us (hp : list metric) ids : by_name (imap (tallied us) hp) ids = by_name hp ids.
Proof.
  unfold by_name. do 2 f_equal. apply list_fmap_ext. intros _ i _. f_equal. unfold name_at. rewrite list_lookup_imap.
  destruct (hp !! i); [|done]. cbn. by rewrite tallied_name.
Qed.
Lemma by_name_ids (hp : list metric) ids : by_name hp ids ≡ₚ ids.
Proof. unfold by_name. rewrite (merge_sort_Permutation named_le), <- list_fmap_compose. by rewrite list_fmap_id. Qed.

(** Whatever the interleaving, the page lists each registered metric once, by name, with the
    tally of the updates that were made to it. *)
Lemma page_tallied (w : W) (r : Registry W) us all steps :
  Forall fresh (heap r) → Forall (λ i, i < length (heap r)) (metrics r) →
  mapM (update_steps (heap r)) us = Some all → steps ≡ₚ concat all → (∀ j vals, Counted j vals ∈ us → labels_ok vals) →
  Render IsPrint w (run_steps steps r) =
  Some (by_name (heap r) (metrics r) ≫= λ i, match heap r !! i with Some m => family w us i m | None => [] end).
Proof.
  intros Hf Hids Hall Hp Hok. unfold Render, run_steps. cbn [heap metrics].
  rewrite (updates_interleaved _ us all) by done. rewrite by_name_tallied.
  assert (Hin : ∀ i, i ∈ by_name (heap r) (metrics r) → i < length (heap r)).
  { intros i Hi. rewrite by_name_ids in Hi. by eapply Forall_forall in Hids. }
  generalize dependent (by_name (heap r) (metrics r)). intros l Hin.
  match goal with |- context [mapM ?f l] => set (blocks := mapM f l) end.
  assert (blocks = Some ((λ i, match heap r !! i with Some m => family w us i m | None => [] end) <$> l)) as ->;
    [|cbn [mbind option_bind]; f_equal; clear Hin; induction l as [|i l IH]; [done|cbn; by f_equal]].
  unfold blocks. induction l as [|i l IH]; [done|]. cbn [mapM fmap list_fmap]. rewrite list_lookup_imap.
  destruct (lookup_lt_is_Some_2 (heap r) i (Hin i (list_elem_of_here _ _))) as [m Hm]. rewrite Hm. cbn [fmap option_fmap option_map].
  rewrite (metric_shown w _ us all) by done. cbn [mbind option_bind]. rewrite IH; [done|]. intros j Hj. apply Hin. by right.
Qed.

(** A counter or gauge name is registered once: the metric registered last. *)
Lemma put_named_fresh (hp : list metric) (m : metric) i ids : (∀ j, j ∈ ids → name_at hp j ≠ Name m) → put_named hp m i ids = (ids ++ [i])%list.
Proof.
  induction ids as [|j ids IH]; intros H; [done|]. cbn. rewrite bool_decide_eq_false_2 by (apply H; by left).
  rewrite IH; [done|]. intros k Hk. apply H. by right.
Qed.
End props.


(** ** Buckets are cumulative *)
Definition not_nan (x : spec_float) : bool := match x with S754_nan => false | _ => true end.
Lemma SFleb_trans_lt x a b : SFleb x a = true → SFleb b a = false → not_nan b = true → SFleb x b = true.
Proof.
  unfold SFleb, SFcompare. intros H1 H2 H3.
  destruct x as [[]|[]| |[] m e], a as [[]|[]| |[] ma ea], b as [[]|[]| |[] mb eb]; try done; revert H1 H2.
  all: repeat match goal with |- context [Z.compare ?p ?q] => destruct (Z.compare_spec p q); subst; try (exfalso; lia); try done end.
  all: change (Pos.compare_cont Eq) with Pos.compare;
    repeat match goal with |- context [Pos.compare ?p ?q] => destruct (Pos.compare_spec p q); subst; try (exfalso; lia); try done end.
Qed.
Lemma in_bucket_mono obs a b : SFleb b a = false → not_nan b = true → (in_bucket obs a ≤ in_bucket obs b)%Z.
Proof.
  intros H Hn. unfold in_bucket. induction obs as [|o obs IH]; [done|]. rewrite !filter_cons.
  destruct (decide (SFleb (clamp o) a = true)) as [E|E].
  - rewrite (decide_True (P := SFleb (clamp o) b = true)) by (by eapply SFleb_trans_lt). cbn [length]. lia.
  - case_decide; cbn [length]; lia.
Qed.
Lemma in_bucket_all obs ub : (in_bucket obs ub ≤ Z.of_nat (length obs))%Z.
Proof. unfold in_bucket. pose proof (length_filter (λ s, SFleb (clamp s) ub = true) obs). lia. Qed.
Lemma buckets_cumulative bs obs : ascending bs = true → forallb not_nan bs = true → StronglySorted Z.le ((in_bucket obs <$> bs) ++ [Z.of_nat (length obs)])%list.
Proof.
  intros Ha Hn. apply Sorted_StronglySorted; [intros x y z; lia|]. induction bs as [|a bs IH]; [by repeat constructor|].
  cbn in Hn. apply andb_true_iff in Hn as [_ Hn]. cbn [fmap list_fmap app]. destruct bs as [|b bs].
  - cbn. constructor; [by repeat constructor|]. constructor. apply in_bucket_all.
  - cbn in Ha. apply andb_true_iff in Ha as [Hab Ha]. apply negb_true_iff in Hab. constructor; [by apply IH|].
    cbn [fmap list_fmap app]. constructor. apply in_bucket_mono; [done|]. cbn in Hn. by apply andb_true_iff in Hn as [? _].
Qed.
