(* ===== verification/Scrapes.v ===== *)
(** * The metrics of the daemons: internal/edge/metrics.go, internal/coord/metrics.go

    What an edge and a coord daemon count and show at [GET /metrics].  A record method gives
    the atomic steps it makes ([None] is a panic); without a registry it makes none.  The
    booleans of [SetupMetrics] say which parts of the server are set. *)
From S2P Require Import Prelude GF GoLib GoTime GoFmt Kv Meta Store Wal Replay Snapshots Election Heartbeat.
From S2P Require Import AutoRepair Coord Metrics StoreProps S3Sig.
From Stdlib Require Import Floats.SpecFloat.
#[local] Open Scope string_scope.

Record metered (H W : Type) : Type := MkMetered { mt_handle : H; mt_reg : Registry W }.
Arguments MkMetered {H W} mt_handle mt_reg.
Arguments mt_handle {H W} m.
Arguments mt_reg {H W} m.
Definition after_steps {H W} (steps : list step) (m : metered H W) : metered H W := MkMetered (mt_handle m) (run_steps steps (mt_reg m)).
Definition recording {H W} (m : option (metered H W)) (f : list (metric W) → H → option (list step)) : option (list step) :=
  match m with Some m => f (heap (mt_reg m)) (mt_handle m) | None => Some [] end.

Module EdgeMetrics.
Section edge.
Context {M : Type → Type} {KVM : KV M} (IsPrint : N → bool).

(** What the gauges read: the store, the log and its batch size and lag, the elector, the
    monitor and the chunker's pool. *)
Record readings : Type := MkReadings
  { er_Store : @DB M; er_WAL : option (WAL walop); er_LastBatchSize : Z; er_OldestUnsyncedAge : Z;
    er_Elector : option Elector; er_Heartbeat : option Monitor; er_PoolBytes : Z }.
Definition objects_gauge (size : Z) (db : @DB M) : Z := match Stats size db with Ok st => Z.of_nat (ms_Objects st) | Err _ => (-1)%Z end.
Definition State_int (s : State) : Z := match s with Election.Follower => 0 | Candidate => 1 | Leader => 2 end%Z.

Record metricsHandle : Type := MkHandle
  { puts : nat; gets : nat; deletes : nat; walAppended : nat; failover : nat; ecDegradedRead : nat; tunableQuorum : nat }.
Definition SetupMetrics (size : Z) (wal elector heartbeat : bool) : metered metricsHandle readings :=
  let reg := NewRegistry in
  let '(p, reg) := new_Counter "kvfs_put_total" "Total PUT requests" ["mode"] reg in
  let '(g, reg) := new_Counter "kvfs_get_total" "Total GET requests" ["mode"] reg in
  let '(d, reg) := new_Counter "kvfs_delete_total" "Total DELETE requests" [] reg in
  let '(w, reg) := new_Counter "kvfs_wal_appended_total" "WAL entries appended" ["op"] reg in
  let '(f, reg) := new_Counter "kvfs_election_term_changes_total" "Election term increments observed" [] reg in
  let '(e, reg) := new_Counter "kvfs_ec_degraded_read_total" "EC GET stripes served with reconstruct (one or more shards missing)" [] reg in
  let '(q, reg) := new_Counter "kvfs_tunable_quorum_total" "Requests using explicit X-KVFS-W / X-KVFS-R quorum override (ADR-053)" ["op"; "value"] reg in
  let '(_, reg) := new_Gauge "kvfs_objects" "Total objects in the metadata store" (λ r, objects_gauge size (er_Store r)) reg in
  let '(_, reg) := new_Gauge "kvfs_dns_runtime" "Active DataNodes in the runtime registry" (λ r, Z.of_nat (length (ListRuntimeDNs (er_Store r)))) reg in
  let reg :=
    if wal then
      let '(_, reg) := new_Gauge "kvfs_wal_last_seq" "Most recent WAL sequence number" (λ r, default 0%Z (LastSeq <$> er_WAL r)) reg in
      let '(_, reg) := new_Gauge "kvfs_wal_batch_size" "Entries in the most recent fsync batch (group-commit mode)" er_LastBatchSize reg in
      let '(_, reg) := new_Gauge "kvfs_wal_durable_lag_seconds" "Age of the oldest unsynced WAL entry in seconds (0 = nothing pending)" (λ r, int64_of_f64 (Seconds (er_OldestUnsyncedAge r))) reg in
      reg
    else reg in
  let reg :=
    if elector then
      let '(_, reg) := new_Gauge "kvfs_election_state" "0=follower 1=candidate 2=leader" (λ r, default 0%Z ((λ e, State_int (state e)) <$> er_Elector r)) reg in
      let '(_, reg) := new_Gauge "kvfs_election_term" "Current election term" (λ r, default 0%Z ((λ e, i64 (currentTerm e)) <$> er_Elector r)) reg in
      reg
    else reg in
  let reg :=
    if heartbeat
    then (new_Gauge "kvfs_dns_healthy" "DataNodes currently passing heartbeat" (λ r, default 0%Z ((λ m, Z.of_nat (length (HealthyAddrs m))) <$> er_Heartbeat r)) reg).2
    else reg in
  let '(_, reg) := new_Gauge "kvfs_chunker_pool_bytes" "Cumulative cap of slabs held in chunker scratch pool" er_PoolBytes reg in
  MkMetered (MkHandle p g d w f e q) reg.

(** GET /metrics: the writes of the page, or a refusal. *)
Definition handleMetrics (m : option (metered metricsHandle readings)) (r : readings) : Z * option (list string) :=
  match m with None => (503%Z, None) | Some m => (200%Z, Render IsPrint r (mt_reg m)) end.

Notation server := (option (metered metricsHandle readings)).
Definition recordPut (m : server) (mode : string) : option (list step) := recording m (λ hp h, add_labelled hp (puts h) [mode] 1).
Definition recordGet (m : server) (mode : string) : option (list step) := recording m (λ hp h, add_labelled hp (gets h) [mode] 1).
Definition recordDelete (m : server) : option (list step) := recording m (λ hp h, add_labelled hp (deletes h) [] 1).
Definition recordEcDegradedRead (m : server) : option (list step) := recording m (λ hp h, add_labelled hp (ecDegradedRead h) [] 1).
Definition recordTunableQuorum (m : server) (op : string) (value : Z) : option (list step) :=
  recording m (λ hp h, add_labelled hp (tunableQuorum h) [op; itoa value] 1).
Inductive call : Type := Put (mode : string) | Get (mode : string) | Delete | EcDegradedRead | TunableQuorum (op : string) (value : Z).
Definition record (m : server) (c : call) : option (list step) :=
  match c with
  | Put mode => recordPut m mode | Get mode => recordGet m mode | Delete => recordDelete m
  | EcDegradedRead => recordEcDegradedRead m | TunableQuorum op value => recordTunableQuorum m op value
  end.
End edge.
End EdgeMetrics.

Module CoordMetrics.
Section coord.
Context {M : Type → Type} {KVM : KV M} (IsPrint : N → bool).
Notation CoordServer := (@CoordServer M).

Record coord_metricsHandle : Type := MkHandle
  { audits : nat; repairs : nat; unrecoverable : nat; throttled : nat; autoRepairRuns : nat; skipped : nat;
    auditDuration : nat; repairDuration : nat }.
Definition histBucketsSeconds : list spec_float :=
  (λ ms, f64_ratio ms 1000) <$> [1; 2; 5; 10; 25; 50; 100; 250; 500; 1000; 2500; 5000; 10000; 30000]%Z.
Definition state_gauge (s : CoordServer) : Z :=
  match cs_Elector s with
  | Some e => match state e with Election.Follower => 0 | Candidate => 1 | Leader => 2 end
  | None => 0
  end%Z.
(** A daemon always has a store. *)
Definition coord_SetupMetrics (size : Z) (elector : bool) : option (metered coord_metricsHandle CoordServer) :=
  let reg := NewRegistry in
  let '(a, reg) := new_Counter "kvfs_anti_entropy_audits_total" "Anti-entropy audits initiated" [] reg in
  let '(r, reg) := new_Counter "kvfs_anti_entropy_repairs_total" "Successful anti-entropy repairs" ["reason"] reg in
  let '(u, reg) := new_Counter "kvfs_anti_entropy_unrecoverable_total" "Distinct chunks with no surviving replica (deduped, ADR-063)" [] reg in
  let '(t, reg) := new_Counter "kvfs_anti_entropy_throttled_total" "Repair outcomes capped by max_repairs budget" [] reg in
  let '(n, reg) := new_Counter "kvfs_anti_entropy_auto_repair_runs_total" "Auto-repair ticker invocations (leader-only)" [] reg in
  let '(k, reg) := new_Counter "kvfs_anti_entropy_skipped_total" "Anti-entropy outcomes skipped without repair attempt" ["mode"] reg in
  '(ad, reg) ← new_Histogram "kvfs_anti_entropy_audit_duration_seconds" "Anti-entropy audit wallclock" histBucketsSeconds reg;
  '(rd, reg) ← new_Histogram "kvfs_anti_entropy_repair_duration_seconds" "Anti-entropy repair wallclock" histBucketsSeconds reg;
  let reg :=
    if elector then (new_Gauge "kvfs_coord_election_state" "0=follower, 1=candidate, 2=leader" state_gauge reg).2
    else reg in
  let '(_, reg) := new_Gauge "kvfs_coord_objects" "Objects in coord's metadata store" (λ s, EdgeMetrics.objects_gauge size (cs_Store s)) reg in
  Some (MkMetered (MkHandle a r u t n k ad rd) reg).

Definition coord_handleMetrics (m : option (metered coord_metricsHandle CoordServer)) (s : CoordServer) : Z * option (list string) :=
  match m with None => (200%Z, Some []) | Some m => (200%Z, Render IsPrint s (mt_reg m)) end.

Notation server := (option (metered coord_metricsHandle CoordServer)).
Definition recordAudit (m : server) : option (list step) := recording m (λ hp h, Inc hp (audits h)).
Definition recordRepair (m : server) (reason : string) : option (list step) := recording m (λ hp h, add_labelled hp (repairs h) [reason] 1).
Definition recordUnrecoverable (m : server) : option (list step) := recording m (λ hp h, Inc hp (unrecoverable h)).
Definition recordThrottled (m : server) : option (list step) := recording m (λ hp h, Inc hp (throttled h)).
Definition recordAutoRepairRun (m : server) : option (list step) := recording m (λ hp h, Inc hp (autoRepairRuns h)).
Definition recordSkipped (m : server) (mode : string) : option (list step) := recording m (λ hp h, add_labelled hp (skipped h) [mode] 1).
Definition recordAuditDuration (m : server) (d : Z) : option (list step) := recording m (λ hp h, Observe hp (auditDuration h) (Seconds d)).
Definition recordRepairDuration (m : server) (d : Z) : option (list step) := recording m (λ hp h, Observe hp (repairDuration h) (Seconds d)).
Inductive call : Type :=
  | Audit | Repair (reason : string) | Unrecoverable | Throttled | AutoRepairRun | Skip (mode : string)
  | AuditDuration (d : Z) | RepairDuration (d : Z).
Definition record (m : server) (c : call) : option (list step) :=
  match c with
  | Audit => recordAudit m | Repair reason => recordRepair m reason | Unrecoverable => recordUnrecoverable m
  | Throttled => recordThrottled m | AutoRepairRun => recordAutoRepairRun m | Skip mode => recordSkipped m mode
  | AuditDuration d => recordAuditDuration m d | RepairDuration d => recordRepairDuration m d
  end.

(** ** The calls of a repair: the end of [runAntiEntropyRepair] *)
Definition reason_label (r : repair_reason) : string := match r with repairReasonMissing => "missing" | repairReasonCorrupt => "corrupt" | reasonECStats => "ec-stats" end.
Definition skipped_calls (st : list call * gset string) (sk : ChunkRepairOutcome) : list call * gset string :=
  let '(cs, seen) := st in
  match Mode sk with
  | repairModeNoSource =>
      let '(first, seen) := markUnrecoverableFirstSeen (oc_ChunkID sk) seen in
      ((if first then cs ++ [Unrecoverable] else cs)%list, seen)
  | repairModeSkip => ((cs ++ [Skip "skip"])%list, seen)
  | repairModeECDeferred => ((cs ++ [Skip "ec-deferred"])%list, seen)
  | repairModeThrottled => ((cs ++ [Throttled])%list, seen)
  | _ => st
  end.
Definition repair_call (oc : ChunkRepairOutcome) : list call :=
  if negb (oc_OK oc) || Planned oc then []
  else match Mode oc with
       | repairModeReplication => [Repair (reason_label (Reason oc))]
       | repairModeECInline => [Repair "ec"]
       | _ => []
       end.
(** The audit and the repair count themselves; [da], [dr] are how long they took. *)
Definition audit_calls (da : Z) : list call := [Audit; AuditDuration da].
Definition repair_calls (seen : gset string) (da dr : Z) (rep : option repair_report) : list call * gset string :=
  match rep with
  | None => ((audit_calls da ++ [RepairDuration dr])%list, seen)
  | Some rep =>
      let '(cs, seen) := foldl skipped_calls ([], seen) (rr_Skipped rep) in
      ((audit_calls da ++ cs ++ (rr_Repairs rep ≫= repair_call) ++ [RepairDuration dr])%list, seen)
  end.
End coord.
End CoordMetrics.

(** ** What GET /metrics shows

    The page of a daemon is written out as a function of the calls its handlers and jobs
    made; the registry produces that page under every interleaving of their atomic steps. *)
#[local] Opaque f64_ratio Seconds.

(** ** A page as families of lines *)
Definition block (name help type : string) (lines : list string) : list string :=
  (("# HELP " ++ name ++ " " ++ help ++ newline)%string :: ("# TYPE " ++ name ++ " " ++ type ++ newline)%string :: lines).
Definition number (name : string) (v : Z) : list string := [plain_line name (itoa v)].
(** The counter of the calls that satisfy [f]; an unsigned 64-bit word. *)
Definition count_of {A} (f : A → bool) (l : list A) : Z := u64 (Z.of_nat (length (filter (λ x, f x = true) l))).

Section calls.
Context {W A : Type} (upd : A → update).
Lemma counted_calls i (f : A → option (list string)) (calls : list A) :
  (∀ c, f c = match upd c with Counted j vals => if bool_decide (i = j) then Some vals else None | _ => None end) →
  counted i (upd <$> calls) = omap f calls.
Proof. intros Hf. unfold counted. induction calls as [|c calls IH]; [done|]. cbn. rewrite Hf, IH. done. Qed.
Lemma observed_calls i (f : A → option spec_float) (calls : list A) :
  (∀ c, f c = match upd c with Observed j secs => if bool_decide (i = j) then Some secs else None | _ => None end) →
  observed i (upd <$> calls) = omap f calls.
Proof. intros Hf. unfold observed. induction calls as [|c calls IH]; [done|]. cbn. rewrite Hf, IH. done. Qed.
Lemma unlabelled_count (f : A → bool) (calls : list A) :
  length (omap (λ c, if f c then Some (@nil string) else None) calls) = length (filter (λ c, f c = true) calls).
Proof. induction calls as [|c calls IH]; [done|]. rewrite filter_cons. cbn [omap list_omap]. destruct (f c).
  - rewrite decide_True by done. cbn [length]. by rewrite IH.
  - by rewrite decide_False by done. Qed.
Lemma calls_steps (record : A → option (list step)) (hp : list (metric W)) calls :
  (∀ c, record c = update_steps hp (upd c)) → (∀ c, is_Some (record c)) →
  ∃ all, mapM record calls = Some all ∧ mapM (update_steps hp) (upd <$> calls) = Some all.
Proof.
  intros H1 H2. induction calls as [|c calls (all & IH1 & IH2)]; [by exists []|]. destruct (H2 c) as [ss Hss].
  exists (ss :: all). cbn. by rewrite IH1, IH2, <- H1, Hss.
Qed.
End calls.

(** ** The coord daemon *)
Module CoordPage.
Import CoordMetrics.
Section coord.
Context {M : Type → Type} {KVM : KV M} (IsPrint : N → bool).
Notation CoordServer := (@CoordServer M).

(** The update a call makes; the cells are in the order of [coord_SetupMetrics]. *)
Definition call_update (c : call) : update :=
  match c with
  | Audit => Counted 0 [] | Repair reason => Counted 1 [reason] | Unrecoverable => Counted 2 [] | Throttled => Counted 3 []
  | AutoRepairRun => Counted 4 [] | Skip mode => Counted 5 [mode]
  | AuditDuration d => Observed 6 (Seconds d) | RepairDuration d => Observed 7 (Seconds d)
  end.
Definition is_audit (c : call) : bool := match c with Audit => true | _ => false end.
Definition is_unrecoverable (c : call) : bool := match c with Unrecoverable => true | _ => false end.
Definition is_throttled (c : call) : bool := match c with Throttled => true | _ => false end.
Definition is_auto_run (c : call) : bool := match c with AutoRepairRun => true | _ => false end.
Definition reason_of (c : call) : option (list string) := match c with Repair r => Some [r] | _ => None end.
Definition mode_of (c : call) : option (list string) := match c with Skip m => Some [m] | _ => None end.
Definition audit_time (c : call) : option spec_float := match c with AuditDuration d => Some (Seconds d) | _ => None end.
Definition repair_time (c : call) : option spec_float := match c with RepairDuration d => Some (Seconds d) | _ => None end.
Definition call_ok (c : call) : Prop := match c with Repair s | Skip s => no_char NUL s | _ => True end.

(** The page after [calls], in the order of the names. *)
Definition coord_page (size : Z) (elector : bool) (s : CoordServer) (calls : list call) : list string :=
  (block "kvfs_anti_entropy_audit_duration_seconds" "Anti-entropy audit wallclock" "histogram"
     (histogram_lines "kvfs_anti_entropy_audit_duration_seconds" histBucketsSeconds (omap audit_time calls)) ++
   block "kvfs_anti_entropy_audits_total" "Anti-entropy audits initiated" "counter"
     (number "kvfs_anti_entropy_audits_total" (count_of is_audit calls)) ++
   block "kvfs_anti_entropy_auto_repair_runs_total" "Auto-repair ticker invocations (leader-only)" "counter"
     (number "kvfs_anti_entropy_auto_repair_runs_total" (count_of is_auto_run calls)) ++
   block "kvfs_anti_entropy_repair_duration_seconds" "Anti-entropy repair wallclock" "histogram"
     (histogram_lines "kvfs_anti_entropy_repair_duration_seconds" histBucketsSeconds (omap repair_time calls)) ++
   block "kvfs_anti_entropy_repairs_total" "Successful anti-entropy repairs" "counter"
     (counter_lines IsPrint "kvfs_anti_entropy_repairs_total" ["reason"] (omap reason_of calls)) ++
   block "kvfs_anti_entropy_skipped_total" "Anti-entropy outcomes skipped without repair attempt" "counter"
     (counter_lines IsPrint "kvfs_anti_entropy_skipped_total" ["mode"] (omap mode_of calls)) ++
   block "kvfs_anti_entropy_throttled_total" "Repair outcomes capped by max_repairs budget" "counter"
     (number "kvfs_anti_entropy_throttled_total" (count_of is_throttled calls)) ++
   block "kvfs_anti_entropy_unrecoverable_total" "Distinct chunks with no surviving replica (deduped, ADR-063)" "counter"
     (number "kvfs_anti_entropy_unrecoverable_total" (count_of is_unrecoverable calls)) ++
   (if elector then block "kvfs_coord_election_state" "0=follower, 1=candidate, 2=leader" "gauge"
      (number "kvfs_coord_election_state" (state_gauge s)) else []) ++
   block "kvfs_coord_objects" "Objects in coord's metadata store" "gauge"
     (number "kvfs_coord_objects" (EdgeMetrics.objects_gauge size (cs_Store s))))%list.

Definition coord_heap (size : Z) (elector : bool) : list (metric CoordServer) :=
  let counter n h lks := MCounter (MkCounter n h lks ∅) in
  ([counter "kvfs_anti_entropy_audits_total" "Anti-entropy audits initiated" [];
    counter "kvfs_anti_entropy_repairs_total" "Successful anti-entropy repairs" ["reason"];
    counter "kvfs_anti_entropy_unrecoverable_total" "Distinct chunks with no surviving replica (deduped, ADR-063)" [];
    counter "kvfs_anti_entropy_throttled_total" "Repair outcomes capped by max_repairs budget" [];
    counter "kvfs_anti_entropy_auto_repair_runs_total" "Auto-repair ticker invocations (leader-only)" [];
    counter "kvfs_anti_entropy_skipped_total" "Anti-entropy outcomes skipped without repair attempt" ["mode"];
    fresh_histogram "kvfs_anti_entropy_audit_duration_seconds" "Anti-entropy audit wallclock" histBucketsSeconds;
    fresh_histogram "kvfs_anti_entropy_repair_duration_seconds" "Anti-entropy repair wallclock" histBucketsSeconds] ++
   (if elector then [MGauge (MkGauge "kvfs_coord_election_state" "0=follower, 1=candidate, 2=leader" state_gauge)] else []) ++
   [MGauge (MkGauge "kvfs_coord_objects" "Objects in coord's metadata store" (λ s, EdgeMetrics.objects_gauge size (cs_Store s)))])%list.
Definition coord_metered (size : Z) (elector : bool) : metered coord_metricsHandle CoordServer :=
  MkMetered (CoordMetrics.MkHandle 0 1 2 3 4 5 6 7)
    (MkRegistry (coord_heap size elector) (List.seq 0 (if elector then 10 else 9))).

Lemma ladder_ascending : ascending histBucketsSeconds = true ∧ forallb not_nan histBucketsSeconds = true.
Proof. vm_compute. done. Qed.
#[local] Opaque histBucketsSeconds.
Lemma coord_setup_is size elector : coord_SetupMetrics size elector = Some (coord_metered size elector).
Proof.
  unfold coord_SetupMetrics, new_Histogram. rewrite (proj1 ladder_ascending). by destruct elector.
Qed.
Lemma coord_order size elector :
  by_name (coord_heap size elector) (List.seq 0 (if elector then 10 else 9)) = ([6; 0; 4; 7; 1; 5; 3; 2] ++ (if elector then [8; 9] else [8]))%list.
Proof. destruct elector; vm_compute; reflexivity. Qed.
Lemma record_update size elector c : record (Some (coord_metered size elector)) c = update_steps (coord_heap size elector) (call_update c).
Proof. by destruct elector, c. Qed.
Lemma record_total m size elector c : m = coord_metered size elector → is_Some (record (Some m) c).
Proof. intros ->. rewrite record_update. destruct elector, c; cbn; eauto. Qed.

Lemma unlabelled i (f : call → bool) name calls :
  (∀ c, (if f c then Some [] else None) = match call_update c with Counted j vals => if bool_decide (i = j) then Some vals else None | _ => None end) →
  counter_lines IsPrint name [] (counted i (call_update <$> calls)) = number name (count_of f calls).
Proof. intros H. unfold counter_lines, number, count_of. by rewrite (counted_calls call_update i _ calls H), unlabelled_count. Qed.
Lemma calls_labels calls : Forall call_ok calls → ∀ j vals, Counted j vals ∈ (call_update <$> calls) → labels_ok vals.
Proof.
  intros Hok j vals (c & E & Hc)%list_elem_of_fmap. rewrite Forall_forall in Hok. specialize (Hok _ Hc).
  destruct c; inversion E; subst; intros v Hv; cbn in Hok; set_solver.
Qed.
Lemma coord_families size elector s calls :
  (by_name (coord_heap size elector) (List.seq 0 (if elector then 10 else 9)) ≫= λ i,
     match coord_heap size elector !! i with Some m => family IsPrint s (call_update <$> calls) i m | None => [] end) =
  coord_page size elector s calls.
Proof.
  rewrite coord_order. unfold coord_page.
  rewrite <- (unlabelled 0 is_audit), <- (unlabelled 2 is_unrecoverable), <- (unlabelled 3 is_throttled), <- (unlabelled 4 is_auto_run) by (by intros []).
  rewrite <- (counted_calls call_update 1 reason_of), <- (counted_calls call_update 5 mode_of) by (by intros []).
  rewrite <- (observed_calls call_update 6 audit_time), <- (observed_calls call_update 7 repair_time) by (by intros []).
  destruct elector; reflexivity.
Qed.
End coord.
End CoordPage.

Import CoordPage.
(** C40: Setting up the metrics of a coord daemon never panics, nor does any record call; and after
    any record calls, whatever the interleaving of their atomic steps, GET /metrics answers 200 with
    the page [coord_page]: each counter the number of its calls (per label), each bucket of a
    histogram how many durations it holds, the gauges what the server holds now. *)
Theorem coord_page_exact {M : Type → Type} {KVM : KV M} IsPrint size elector (s : @CoordServer M) (calls : list CoordMetrics.call) :
  Forall call_ok calls →
  ∃ m all, CoordMetrics.coord_SetupMetrics size elector = Some m ∧ mapM (CoordMetrics.record (Some m)) calls = Some all ∧
    ∀ steps, steps ≡ₚ concat all →
      CoordMetrics.coord_handleMetrics IsPrint (Some (after_steps steps m)) s = (200%Z, Some (coord_page IsPrint size elector s calls)).
Proof.
  intros Hok. exists (coord_metered size elector). rewrite coord_setup_is.
  destruct (calls_steps call_update (CoordMetrics.record (Some (coord_metered size elector))) (coord_heap size elector) calls) as (all & H1 & H2).
  { apply record_update. }
  { intros c. by apply (record_total _ size elector). }
  exists all. split_and!; [done|done|]. intros steps Hp. unfold CoordMetrics.coord_handleMetrics, after_steps. cbn [mt_reg].
  rewrite (page_tallied IsPrint s _ (call_update <$> calls) all); [|by destruct elector; repeat constructor| |done|done|by apply calls_labels].
  - cbn [heap metrics coord_metered mt_reg]. by rewrite coord_families.
  - destruct elector; repeat constructor.
Qed.
Lemma coord_page_exact_witness :
  let calls := [CoordMetrics.Audit; CoordMetrics.Repair "missing"; CoordMetrics.Skip "ec-deferred"; CoordMetrics.AuditDuration 1500000] in
  let s : @CoordServer (gmap string) := MkCoord db0 (Placement.New []) None None false false in
  Forall call_ok calls ∧
  ∃ m all, CoordMetrics.coord_SetupMetrics 0 true = Some m ∧ mapM (CoordMetrics.record (Some m)) calls = Some all ∧
    ∀ steps, steps ≡ₚ concat all →
      CoordMetrics.coord_handleMetrics (λ _, true) (Some (after_steps steps m)) s = (200%Z, Some (coord_page (λ _, true) 0 true s calls)).
Proof.
  intros calls s. assert (Forall call_ok calls) as H by (subst calls; repeat constructor; cbn [call_ok]; apply (bool_decide_unpack _); vm_compute; exact I).
  split; [exact H|]. exact (coord_page_exact (λ _, true) 0 true s calls H).
Defined.

(** The ladder's buckets include the smaller ones, and none exceeds the count. *)
Theorem coord_buckets_cumulative (obs : list spec_float) :
  StronglySorted Z.le ((in_bucket obs <$> CoordMetrics.histBucketsSeconds) ++ [Z.of_nat (length obs)])%list.
Proof. apply buckets_cumulative; apply ladder_ascending. Qed.

(** ** The calls of a repair are what AutoRepair counts *)
Definition n_calls (f : CoordMetrics.call → bool) (cs : list CoordMetrics.call) : nat := length (filter (λ c, f c = true) cs).
Definition is_repair (reason : string) (c : CoordMetrics.call) : bool := match c with CoordMetrics.Repair r => bool_decide (r = reason) | _ => false end.
Definition is_skip (mode : string) (c : CoordMetrics.call) : bool := match c with CoordMetrics.Skip m => bool_decide (m = mode) | _ => false end.
Definition counters_of (st : list CoordMetrics.call * gset string) : counters :=
  MkCounters (n_calls (is_repair "missing") st.1) (n_calls (is_repair "corrupt") st.1) (n_calls (is_repair "ec") st.1)
    (n_calls is_unrecoverable st.1) (n_calls (is_skip "skip") st.1) (n_calls (is_skip "ec-deferred") st.1) (n_calls is_throttled st.1) st.2.
Lemma n_calls_app f a b : n_calls f (a ++ b)%list = n_calls f a + n_calls f b.
Proof. unfold n_calls. by rewrite filter_app, length_app. Qed.
Lemma skipped_counted l st : counters_of (foldl CoordMetrics.skipped_calls st l) = foldl count_skipped (counters_of st) l.
Proof.
  revert st. induction l as [|sk l IH]; intros st; [done|]. cbn [foldl]. rewrite IH. f_equal. destruct st as [cs seen].
  unfold CoordMetrics.skipped_calls, count_skipped, counters_of. destruct (Mode sk); cbn [fst snd]; try done;
    try (rewrite !n_calls_app; cbn; by rewrite ?Nat.add_0_r, ?Nat.add_1_r).
  cbn [unrecoverableSeen]. destruct (markUnrecoverableFirstSeen _ _) as [[] seen']; cbn [fst snd]; [|done].
  rewrite !n_calls_app; cbn; by rewrite ?Nat.add_0_r, ?Nat.add_1_r.
Qed.
Lemma repairs_counted l cs seen :
  counters_of ((cs ++ (l ≫= CoordMetrics.repair_call))%list, seen) = foldl count_repair (counters_of (cs, seen)) l.
Proof.
  revert cs. induction l as [|oc l IH]; intros cs; [by rewrite app_nil_r|]. cbn [foldl mbind list_bind]. rewrite app_assoc, IH. f_equal.
  unfold CoordMetrics.repair_call, count_repair, counters_of. destruct (negb (oc_OK oc) || Planned oc); [by rewrite app_nil_r|].
  destruct (Mode oc), (Reason oc); rewrite ?app_nil_r; try done; cbn [fst snd]; rewrite !n_calls_app; cbn; by rewrite ?Nat.add_0_r, ?Nat.add_1_r.
Qed.
(** What the registry counts of a repair is what [count_report] does, and no other call of the
    repair touches those counters. *)
Theorem repair_calls_counted seen da dr rep :
  counters_of (CoordMetrics.repair_calls seen da dr (Some rep)) = count_report (MkCounters 0 0 0 0 0 0 0 seen) rep.
Proof.
  change (MkCounters 0 0 0 0 0 0 0 seen) with (counters_of ([], seen)). unfold CoordMetrics.repair_calls, count_report.
  rewrite <- (skipped_counted (rr_Skipped rep) ([], seen)).
  destruct (foldl _ ([], seen) _) as [cs seen']. rewrite <- repairs_counted. unfold counters_of. cbn [fst snd CoordMetrics.audit_calls].
  rewrite !n_calls_app. cbn. by rewrite !Nat.add_0_r.
Qed.

(** ** The edge *)
Module EdgePage.
Import EdgeMetrics.
Section edge.
Context {M : Type → Type} {KVM : KV M} (IsPrint : N → bool).
Notation readings := (@readings M).

Definition call_update (c : call) : update :=
  match c with
  | Put mode => Counted 0 [mode] | Get mode => Counted 1 [mode] | Delete => Counted 2 []
  | EcDegradedRead => Counted 5 [] | TunableQuorum op value => Counted 6 [op; itoa value]
  end.
Definition is_delete (c : call) : bool := match c with Delete => true | _ => false end.
Definition is_degraded (c : call) : bool := match c with EcDegradedRead => true | _ => false end.
Definition put_mode (c : call) : option (list string) := match c with Put m => Some [m] | _ => None end.
Definition get_mode (c : call) : option (list string) := match c with Get m => Some [m] | _ => None end.
Definition quorum_of (c : call) : option (list string) := match c with TunableQuorum op v => Some [op; itoa v] | _ => None end.
Definition call_ok (c : call) : Prop := match c with Put s | Get s | TunableQuorum s _ => no_char NUL s | _ => True end.
Definition gauge (name help : string) (v : Z) : list string := block name help "gauge" (number name v).

(** Nothing counts what is appended to the log nor the changes of the term. *)
Definition edge_page (size : Z) (wal elector heartbeat : bool) (r : readings) (calls : list call) : list string :=
  (gauge "kvfs_chunker_pool_bytes" "Cumulative cap of slabs held in chunker scratch pool" (er_PoolBytes r) ++
   block "kvfs_delete_total" "Total DELETE requests" "counter" (number "kvfs_delete_total" (count_of is_delete calls)) ++
   (if heartbeat then gauge "kvfs_dns_healthy" "DataNodes currently passing heartbeat"
      (default 0%Z ((λ m, Z.of_nat (length (HealthyAddrs m))) <$> er_Heartbeat r)) else []) ++
   gauge "kvfs_dns_runtime" "Active DataNodes in the runtime registry" (Z.of_nat (length (ListRuntimeDNs (er_Store r)))) ++
   block "kvfs_ec_degraded_read_total" "EC GET stripes served with reconstruct (one or more shards missing)" "counter"
     (number "kvfs_ec_degraded_read_total" (count_of is_degraded calls)) ++
   (if elector then
      gauge "kvfs_election_state" "0=follower 1=candidate 2=leader" (default 0%Z ((λ e, State_int (state e)) <$> er_Elector r)) ++
      gauge "kvfs_election_term" "Current election term" (default 0%Z ((λ e, i64 (currentTerm e)) <$> er_Elector r)) else []) ++
   block "kvfs_election_term_changes_total" "Election term increments observed" "counter" (number "kvfs_election_term_changes_total" 0) ++
   block "kvfs_get_total" "Total GET requests" "counter" (counter_lines IsPrint "kvfs_get_total" ["mode"] (omap get_mode calls)) ++
   gauge "kvfs_objects" "Total objects in the metadata store" (objects_gauge size (er_Store r)) ++
   block "kvfs_put_total" "Total PUT requests" "counter" (counter_lines IsPrint "kvfs_put_total" ["mode"] (omap put_mode calls)) ++
   block "kvfs_tunable_quorum_total" "Requests using explicit X-KVFS-W / X-KVFS-R quorum override (ADR-053)" "counter"
     (counter_lines IsPrint "kvfs_tunable_quorum_total" ["op"; "value"] (omap quorum_of calls)) ++
   block "kvfs_wal_appended_total" "WAL entries appended" "counter" [] ++
   (if wal then
      gauge "kvfs_wal_batch_size" "Entries in the most recent fsync batch (group-commit mode)" (er_LastBatchSize r) ++
      gauge "kvfs_wal_durable_lag_seconds" "Age of the oldest unsynced WAL entry in seconds (0 = nothing pending)"
        (int64_of_f64 (Seconds (er_OldestUnsyncedAge r))) ++
      gauge "kvfs_wal_last_seq" "Most recent WAL sequence number" (default 0%Z (LastSeq <$> er_WAL r)) else []))%list.

Lemma edge_heap_fresh size wal elector heartbeat : let r := mt_reg (SetupMetrics size wal elector heartbeat : metered metricsHandle readings) in
  Forall fresh (heap r) ∧ Forall (λ i, i < length (heap r)) (metrics r).
Proof.
  destruct wal, elector, heartbeat; (split; [by repeat constructor|apply (bool_decide_unpack _); vm_compute; exact I]).
Qed.
Definition edge_order (wal elector heartbeat : bool) : list nat :=
  let w := if wal then 3 else 0 in let e := if elector then 2 else 0 in let h := if heartbeat then 1 else 0 in
  ([9 + w + e + h; 2] ++ (if heartbeat then [9 + w + e] else []) ++ [8; 5] ++ (if elector then [9 + w; 10 + w] else []) ++
   [4; 1; 7; 0; 6; 3] ++ (if wal then [10; 11; 9] else []))%list.
Lemma edge_sorted size wal elector heartbeat : let r := mt_reg (SetupMetrics size wal elector heartbeat : metered metricsHandle readings) in
  by_name (heap r) (metrics r) = edge_order wal elector heartbeat.
Proof. destruct wal, elector, heartbeat; vm_compute; reflexivity. Qed.
Lemma edge_record_update size wal elector heartbeat (m := SetupMetrics size wal elector heartbeat : metered metricsHandle readings) c :
  record (Some m) c = update_steps (heap (mt_reg m)) (call_update c) ∧ is_Some (record (Some m) c).
Proof. subst m. destruct wal, elector, heartbeat, c; cbn; eauto. Qed.
Lemma edge_unlabelled i (f : call → bool) name calls :
  (∀ c, (if f c then Some [] else None) = match call_update c with Counted j vals => if bool_decide (i = j) then Some vals else None | _ => None end) →
  counter_lines IsPrint name [] (counted i (call_update <$> calls)) = number name (count_of f calls).
Proof. intros H. unfold counter_lines, number, count_of. by rewrite (counted_calls call_update i _ calls H), unlabelled_count. Qed.
Lemma uncounted i calls : i = 3 ∨ i = 4 → counted i (call_update <$> calls) = [].
Proof.
  intros Hi. rewrite (counted_calls call_update i (λ _, None)) by (intros []; cbn; try done; by destruct Hi; subst).
  by induction calls.
Qed.
Lemma edge_calls_labels calls : Forall call_ok calls → ∀ j vals, Counted j vals ∈ (call_update <$> calls) → labels_ok vals.
Proof.
  intros Hok j vals (c & E & Hc)%list_elem_of_fmap. rewrite Forall_forall in Hok. specialize (Hok _ Hc).
  destruct c; inversion E; subst; intros v Hv; cbn in Hok; [set_solver..|].
  apply elem_of_cons in Hv as [->|Hv]; [done|]. apply list_elem_of_singleton in Hv. subst v.
  intros H%itoa_chars. by destruct H.
Qed.
Lemma edge_families size wal elector heartbeat (m := SetupMetrics size wal elector heartbeat : metered metricsHandle readings) r calls :
  (edge_order wal elector heartbeat ≫= λ i,
     match heap (mt_reg m) !! i with Some x => family IsPrint r (call_update <$> calls) i x | None => [] end) =
  edge_page size wal elector heartbeat r calls.
Proof.
  subst m. unfold edge_page.
  rewrite <- (edge_unlabelled 2 is_delete), <- (edge_unlabelled 5 is_degraded) by (by intros []).
  rewrite <- (counted_calls call_update 0 put_mode), <- (counted_calls call_update 1 get_mode), <- (counted_calls call_update 6 quorum_of) by (by intros []).
  assert (number "kvfs_election_term_changes_total" 0 = counter_lines IsPrint "kvfs_election_term_changes_total" [] (counted 4 (call_update <$> calls))) as ->
    by (rewrite uncounted by auto; reflexivity).
  assert (block "kvfs_wal_appended_total" "WAL entries appended" "counter" [] = block "kvfs_wal_appended_total" "WAL entries appended" "counter"
    (counter_lines IsPrint "kvfs_wal_appended_total" ["op"] (counted 3 (call_update <$> calls)))) as -> by (rewrite uncounted by auto; reflexivity).
  destruct wal, elector, heartbeat; reflexivity.
Qed.
End edge.
End EdgePage.

(** An edge's page is a function of its calls and of what its gauges read. *)
Theorem edge_page_exact {M : Type → Type} {KVM : KV M} IsPrint size wal elector heartbeat (r : @EdgeMetrics.readings M) (calls : list EdgeMetrics.call) :
  Forall EdgePage.call_ok calls →
  let m := EdgeMetrics.SetupMetrics size wal elector heartbeat in
  ∃ all, mapM (EdgeMetrics.record (Some m)) calls = Some all ∧
    ∀ steps, steps ≡ₚ concat all →
      EdgeMetrics.handleMetrics IsPrint (Some (after_steps steps m)) r =
      (200%Z, Some (EdgePage.edge_page IsPrint size wal elector heartbeat r calls)).
Proof.
  intros Hok m.
  destruct (calls_steps EdgePage.call_update (EdgeMetrics.record (Some m)) (heap (mt_reg m)) calls) as (all & H1 & H2).
  { intros c. apply EdgePage.edge_record_update. }
  { intros c. apply EdgePage.edge_record_update. }
  exists all. split; [done|]. intros steps Hp. unfold EdgeMetrics.handleMetrics, after_steps. cbn [mt_reg].
  destruct (EdgePage.edge_heap_fresh (M := M) size wal elector heartbeat) as [Hf Hi].
  rewrite (page_tallied IsPrint r _ (EdgePage.call_update <$> calls) all); [|done|done|done|done|by apply EdgePage.edge_calls_labels].
  subst m. by rewrite EdgePage.edge_sorted, EdgePage.edge_families.
Qed.

(** ** Ends of the range of what is recorded *)
(** [Inc] on a counter that has labels takes their names for values. *)
Example Inc_labelled :
  let c := MCounter (MkCounter "puts" "" ["mode"] ∅) : metric unit in
  Inc [c] 0 = Some [Slot 0 "mode"; SlotAdd 0 "mode" 1].
Proof. reflexivity. Qed.
(** Labels that hold the separator share a slot with others. *)
Example labels_collide :
  let c := MCounter (MkCounter "q" "" ["op"; "value"] ∅) : metric unit in
  WithLabels [c] 0 ["a" ++ nul; "b"] = WithLabels [c] 0 ["a"; nul ++ "b"].
Proof. reflexivity. Qed.
(** A page made between the steps of one observation: a bucket holds more than a larger one. *)
Example torn_page :
  let h := fresh_histogram "h" "" [f64_ratio 1 10; f64_ratio 2 10] : metric unit in
  match Observe [h] 0 (f64_ratio 5 100) with
  | Some (first :: _) => match (foldl Metrics.exec [h] [first]) !! 0 with Some (MHistogram h) => counts h | _ => [] end
  | _ => []
  end = [1; 0; 0]%Z.
Proof. vm_compute. reflexivity. Qed.
