(* ===== verification/Flags.v ===== *)
(** * flag: parsing of command lines

    [FlagSet.Parse] of Go's flag package with [ExitOnError], and what it needs of strconv: a
    flag has a name and a value of a fixed type, its default until it is set. *)
From S2P Require Import Prelude GF GoLib GoTime.
From Stdlib Require Import Strings.Ascii.
From Stdlib Require DecimalN DecimalPos DecimalFacts DecimalString.
#[local] Open Scope string_scope.

(** ** strconv *)
Definition ParseBool (s : string) : option bool :=
  if bool_decide (s ∈ ["1"; "t"; "T"; "true"; "TRUE"; "True"]) then Some true
  else if bool_decide (s ∈ ["0"; "f"; "F"; "false"; "FALSE"; "False"]) then Some false
  else None.
Definition lower (c : ascii) : N := N.lor (N_of_ascii c) 32.
(** Digits of any base; a run that does not fit in 64 bits is an error. *)
Fixpoint base_loop (base : N) (l : list ascii) (n : N) (underscores : bool) : option (N * bool) :=
  match l with
  | [] => Some (n, underscores)
  | c :: l =>
      if Ascii.eqb c "_" then base_loop base l n true
      else
        let d := if is_digit c then Some (N_of_ascii c - 48)%N
                 else if (97 <=? lower c)%N && (lower c <=? 122)%N then Some (lower c - 87)%N else None in
        match d with
        | None => None
        | Some d =>
            if (base <=? d)%N then None
            else let n := (n * base + d)%N in if (2 ^ 64 <=? n)%N then None else base_loop base l n underscores
        end
  end.
Inductive seen : Type := SeenStart | SeenDigit | SeenUnderscore | SeenOther.
Fixpoint underscore_loop (hex : bool) (saw : seen) (l : list ascii) : bool :=
  match l with
  | [] => match saw with SeenUnderscore => false | _ => true end
  | c :: l =>
      if is_digit c || hex && (97 <=? lower c)%N && (lower c <=? 102)%N then underscore_loop hex SeenDigit l
      else if Ascii.eqb c "_" then match saw with SeenDigit => underscore_loop hex SeenUnderscore l | _ => false end
      else match saw with SeenUnderscore => false | _ => underscore_loop hex SeenOther l end
  end.
(** [strconv.ParseInt(s, 0, 64)]: the base is written in the number. *)
Definition ParseUint0 (l : list ascii) : option N :=
  let '(base, prefixed, digits) :=
    match l with
    | "0"%char :: c :: (_ :: _) as t =>
        if (lower c =? 98)%N then (2%N, true, t) else if (lower c =? 111)%N then (8%N, true, t)
        else if (lower c =? 120)%N then (16%N, true, t) else (8%N, false, c :: t)
    | "0"%char :: t => (8%N, false, t)
    | _ => (10%N, false, l)
    end in
  match l with
  | [] => None
  | _ =>
      '(n, underscores) ← base_loop base digits 0 false;
      if (underscores : bool) && negb (underscore_loop (N.eqb base 16) (if (prefixed : bool) then SeenDigit else SeenStart) (if prefixed then digits else l))
      then None else Some n
  end.
Definition ParseInt0 (s : string) : option Z :=
  let '(neg, l) := match chars s with
                   | c :: t => if Ascii.eqb c "-" then (true, t) else if Ascii.eqb c "+" then (false, t) else (false, c :: t)
                   | [] => (false, [])
                   end in
  n ← ParseUint0 l;
  let z := if (neg : bool) then (- Z.of_N n)%Z else Z.of_N n in
  if int64_ok z then Some z else None.

(** ** Flags *)
Inductive flag_value : Type := VBool (b : bool) | VInt (z : Z) | VString (s : string) | VDuration (d : Z).
Abbreviation FlagSet := (list (string * flag_value)).
(** [Value.Set]: the type is that of the value it replaces. *)
Definition set_value (v : flag_value) (text : string) : option flag_value :=
  match v with
  | VBool _ => VBool <$> ParseBool text
  | VInt _ => VInt <$> ParseInt0 text
  | VString _ => Some (VString text)
  | VDuration _ => VDuration <$> ParseDuration text
  end.
Fixpoint find_flag (fs : FlagSet) (name : string) : option flag_value :=
  match fs with [] => None | (n, v) :: fs => if bool_decide (n = name) then Some v else find_flag fs name end.
Fixpoint put_flag (fs : FlagSet) (name : string) (v : flag_value) : FlagSet :=
  match fs with
  | [] => []
  | (n, w) :: fs => if bool_decide (n = name) then (n, v) :: fs else (n, w) :: put_flag fs name v
  end.
Definition set_flag (fs : FlagSet) (name text : string) : option FlagSet :=
  v ← find_flag fs name; v ← set_value v text; Some (put_flag fs name v).

(** ** [FlagSet.Parse] *)
(** A word that may be a flag: its name, and its value when the word has one. *)
Inductive word : Type := NotFlag | Terminator | BadSyntax | FlagWord (name : string) (value : option string).
(** The first [=] after the first character. *)
Definition name_and_value (s : string) : word :=
  match s with
  | "" => BadSyntax
  | String c t =>
      if Ascii.eqb c "-" || Ascii.eqb c "=" then BadSyntax
      else match cut t "=" with
           | Some (n, v) => FlagWord (String c n) (Some v)
           | None => FlagWord s None
           end
  end.
Definition read_word (s : string) : word :=
  match s with
  | String "-" (String "-" "") => Terminator
  | String "-" (String "-" s) => name_and_value s
  | String "-" (String c s) => name_and_value (String c s)
  | _ => NotFlag
  end.
Inductive parsed : Type := Parsed (fs : FlagSet) (rest : list string) | HelpAsked | Invalid.
Fixpoint Parse (fs : FlagSet) (args : list string) : parsed :=
  match args with
  | [] => Parsed fs []
  | s :: rest =>
      match read_word s with
      | NotFlag => Parsed fs args
      | Terminator => Parsed fs rest
      | BadSyntax => Invalid
      | FlagWord name value =>
          match find_flag fs name, value, rest with
          | None, _, _ => if bool_decide (name = "help") || bool_decide (name = "h") then HelpAsked else Invalid
          | Some (VBool _), None, _ => match set_flag fs name "true" with Some fs => Parse fs rest | None => Invalid end
          | Some _, Some text, _ => match set_flag fs name text with Some fs => Parse fs rest | None => Invalid end
          | Some _, None, text :: rest => match set_flag fs name text with Some fs => Parse fs rest | None => Invalid end
          | Some _, None, [] => Invalid
          end
      end
  end.

(** What the program reads of its flags. *)
Definition flag_string (fs : FlagSet) (name : string) : string := match find_flag fs name with Some (VString s) => s | _ => "" end.
Definition flag_int (fs : FlagSet) (name : string) : Z := match find_flag fs name with Some (VInt z) => z | _ => 0%Z end.
Definition flag_duration (fs : FlagSet) (name : string) : Z := match find_flag fs name with Some (VDuration z) => z | _ => 0%Z end.
Definition flag_bool (fs : FlagSet) (name : string) : bool := match find_flag fs name with Some (VBool b) => b | _ => false end.

Example Parse_forms :
  Parse [("n", VInt 4); ("v", VBool false); ("s", VString "")] ["-n=0x10"; "--v"; "-s"; "--x=1"; "a"; "-n"; "5"] =
  Parsed [("n", VInt 16); ("v", VBool true); ("s", VString "--x=1")] ["a"; "-n"; "5"].
Proof. vm_compute. reflexivity. Qed.
Example Parse_refusals :
  (Parse [("n", VInt 4); ("v", VBool false)] <$> [["-n"]; ["-n=x"]; ["-v=maybe"]; ["-z"]; ["--="]; ["-h"]; ["--"; "-z"]; ["-n=1_0"]; ["-n=1__0"]; ["-n=0_7"]]) =
  [Invalid; Invalid; Invalid; Invalid; Invalid; HelpAsked; Parsed [("n", VInt 4); ("v", VBool false)] ["-z"];
   Parsed [("n", VInt 10); ("v", VBool false)] []; Invalid; Parsed [("n", VInt 7); ("v", VBool false)] []].
Proof. vm_compute. reflexivity. Qed.

(** ** Numbers read back *)
Lemma to_uint_no_leading_zero p d : Pos.to_uint p ≠ Decimal.D0 d.
Proof.
  intros H. pose proof (DecimalN.Unsigned.to_of (Pos.to_uint p)) as E.
  change (N.of_uint (Pos.to_uint p)) with (Pos.of_uint (Pos.to_uint p)) in E. rewrite DecimalPos.Unsigned.of_to in E.
  change (N.to_uint (N.pos p)) with (Pos.to_uint p) in E. rewrite H in E. unfold Decimal.unorm in E. cbn [Decimal.nzhead] in E.
  destruct (Decimal.nzhead d) eqn:Hd; try discriminate E; [|by apply (DecimalFacts.nzhead_nonzero d u)].
  injection E as ->. pose proof (DecimalPos.Unsigned.of_to p) as Hz. rewrite H in Hz. done.
Qed.
Lemma itoa_pos_head p : ∃ c t, chars (itoa (Zpos p)) = c :: t ∧ is_digit c = true ∧ c ≠ "0"%char.
Proof.
  assert (chars (itoa (Zpos p)) = chars (DecimalString.NilEmpty.string_of_uint (Pos.to_uint p))) as ->.
  { unfold itoa. cbn. pose proof (DecimalPos.Unsigned.to_uint_nonnil p). by destruct (Pos.to_uint p). }
  pose proof (DecimalPos.Unsigned.to_uint_nonnil p) as Hn. pose proof (to_uint_no_leading_zero p) as H0.
  destruct (Pos.to_uint p) eqn:E; [done|by destruct (H0 u)|..]; cbn; eauto 6.
Qed.
Lemma base_loop_uint l x v : (0 ≤ x)%Z → uint_loop l x = (v, true) → base_loop 10 l (Z.to_N x) false = Some (Z.to_N v, false).
Proof.
  revert x. induction l as [|c l IH]; intros x Hx; cbn [uint_loop base_loop]; [by intros [= ->]|].
  destruct (is_digit c) eqn:Hc; [|done]. cbn [negb]. cbv zeta. fold (digit_of c).
  destruct (Z.ltb_spec max_u64 (x * 10 + digit_of c)); [done|]. intros Hl. pose proof (digit_of_nonneg c Hc) as Hd.
  destruct (Ascii.eqb_spec c "_") as [->|_]; [done|].
  assert (N_of_ascii c - 48 = Z.to_N (digit_of c))%N as Hdig.
  { unfold digit_of. unfold is_digit in Hc. apply andb_true_iff in Hc as [?%N.leb_le ?%N.leb_le]. lia. }
  rewrite Hdig. destruct (N.leb_spec 10 (Z.to_N (digit_of c))); [lia|].
  replace (Z.to_N x * 10 + Z.to_N (digit_of c))%N with (Z.to_N (x * 10 + digit_of c)) by lia.
  unfold max_u64 in *. destruct (N.leb_spec (2 ^ 64) (Z.to_N (x * 10 + digit_of c))); [lia|]. apply IH; [lia|done].
Qed.
Lemma ParseUint0_itoa n : (0 ≤ n ≤ max_u64)%Z → ParseUint0 (chars (itoa n)) = Some (Z.to_N n).
Proof.
  intros Hn. destruct n as [|p|p]; [done| |lia]. destruct (uint_loop_itoa (Zpos p) Hn) as [Hl _].
  destruct (itoa_pos_head p) as (c & t & E & Hc & H0). pose proof (base_loop_uint _ 0 _ ltac:(lia) Hl) as Hb. rewrite E in *.
  unfold ParseUint0.
  assert ((match c :: t with
           | "0"%char :: c :: (_ :: _) as t =>
               if (lower c =? 98)%N then (2%N, true, t) else if (lower c =? 111)%N then (8%N, true, t)
               else if (lower c =? 120)%N then (16%N, true, t) else (8%N, false, c :: t)
           | "0"%char :: t => (8%N, false, t)
           | _ => (10%N, false, c :: t)
           end) = (10%N, false, c :: t)) as ->.
  { destruct c as [[] [] [] [] [] [] [] []]; try reflexivity. done. }
  change (Z.to_N 0) with 0%N in Hb. rewrite Hb. done.
Qed.
Lemma ParseInt0_itoa z : int64_ok z = true → ParseInt0 (itoa z) = Some z.
Proof.
  intros Hz. unfold int64_ok in Hz. apply andb_true_iff in Hz as [H1%Z.leb_le H2%Z.ltb_lt]. unfold ParseInt0.
  destruct z as [|p|p].
  - reflexivity.
  - destruct (itoa_pos_head p) as (c & t & E & Hc & _). pose proof (ParseUint0_itoa (Zpos p) ltac:(unfold max_u64; lia)) as Hu.
    rewrite E in *. destruct (Ascii.eqb_spec c "-") as [->|_]; [done|]. destruct (Ascii.eqb_spec c "+") as [->|_]; [done|].
    rewrite Hu. cbn [mbind option_bind]. change (Z.of_N (Z.to_N (Z.pos p))) with (Z.pos p). unfold int64_ok.
    destruct (Z.leb_spec (- 2 ^ 63) (Z.pos p)), (Z.ltb_spec (Z.pos p) (2 ^ 63)); try lia. done.
  - assert (chars (itoa (Zneg p)) = "-"%char :: chars (itoa (Zpos p))) as ->.
    { unfold itoa. cbn. by destruct (Pos.to_uint p). }
    cbn [Ascii.eqb Bool.eqb]. rewrite ParseUint0_itoa by (unfold max_u64; lia). cbn [mbind option_bind].
    change (- Z.of_N (Z.to_N (Z.pos p)))%Z with (Z.neg p). unfold int64_ok.
    destruct (Z.leb_spec (- 2 ^ 63) (Z.neg p)), (Z.ltb_spec (Z.neg p) (2 ^ 63)); try lia. done.
Qed.

(** ** Ways to write a command line *)
Definition flag_name (n : string) : Prop := name_and_value n = FlagWord n None.
Definition dashed (n : string) : string := "-" ++ n.
Definition dashed2 (n : string) : string := "--" ++ n.
(** [spells fs settings args rest]: the words [args] set the flags of [settings], in that
    order, and leave [rest]. *)
Inductive spells (fs : FlagSet) : list (string * string) → list string → list string → Prop :=
  | spells_end rest : match rest with s :: _ => read_word s = NotFlag | [] => True end → spells fs [] rest rest
  | spells_stop rest : spells fs [] ("--" :: rest) rest
  | spells_joined n v w l args rest : w ∈ [dashed n ++ "=" ++ v; dashed2 n ++ "=" ++ v] → spells fs l args rest → spells fs ((n, v) :: l) (w :: args) rest
  | spells_next n v w l args rest : w ∈ [dashed n; dashed2 n] → (∀ b, find_flag fs n ≠ Some (VBool b)) → spells fs l args rest → spells fs ((n, v) :: l) (w :: v :: args) rest
  | spells_bool n b w l args rest : w ∈ [dashed n; dashed2 n] → find_flag fs n = Some (VBool b) → spells fs l args rest → spells fs ((n, "true") :: l) (w :: args) rest.
Fixpoint set_all (fs : FlagSet) (settings : list (string * string)) : option FlagSet :=
  match settings with [] => Some fs | (n, v) :: l => fs ← set_flag fs n v; set_all fs l end.

Lemma cut_app_none t sep v : cut t sep = None → cut (t ++ String sep v) sep = Some (t, v).
Proof.
  induction t as [|c t IH]; gostr; cbn [cut].
  - intros _. by rewrite bool_decide_eq_true_2.
  - case_bool_decide; [done|]. destruct (cut t sep) as [[]|]; [done|]. intros _. by rewrite IH.
Qed.
Lemma name_and_value_joined n v : flag_name n → name_and_value (n ++ "=" ++ v) = FlagWord n (Some v).
Proof.
  unfold flag_name. destruct n as [|c t]; [done|]. gostr. cbn [name_and_value]. destruct (_ || _); [done|].
  destruct (cut t "=") as [[]|] eqn:Hcut; [done|]. intros _. by rewrite cut_app_none.
Qed.
Lemma read_word_dash c t : Ascii.eqb c "-" = false → read_word (String "-" (String c t)) = name_and_value (String c t).
Proof. intros H. destruct c as [[] [] [] [] [] [] [] []]; try reflexivity. done. Qed.
Lemma flag_name_head n : flag_name n → ∃ c t, n = String c t ∧ Ascii.eqb c "-" = false.
Proof. unfold flag_name. destruct n as [|c t]; [done|]. cbn [name_and_value]. destruct (Ascii.eqb c "-") eqn:E; [done|]. eauto. Qed.
Lemma word_alone n w : flag_name n → w ∈ [dashed n; dashed2 n] → read_word w = FlagWord n None.
Proof.
  intros Hn Hw. destruct (flag_name_head n Hn) as (c & t & -> & Hc). unfold flag_name in Hn. rewrite <- Hn.
  apply elem_of_cons in Hw as [->|Hw]; [by apply read_word_dash|]. by apply list_elem_of_singleton in Hw as ->.
Qed.
Lemma word_joined n v w : flag_name n → w ∈ [dashed n ++ "=" ++ v; dashed2 n ++ "=" ++ v] → read_word w = FlagWord n (Some v).
Proof.
  intros Hn Hw. destruct (flag_name_head n Hn) as (c & t & -> & Hc). rewrite <- (name_and_value_joined _ v Hn).
  apply elem_of_cons in Hw as [->|Hw]; [by apply read_word_dash|]. by apply list_elem_of_singleton in Hw as ->.
Qed.

Lemma find_put (fs : FlagSet) n v m w : find_flag fs n = Some v →
  find_flag (put_flag fs n w) m = if bool_decide (n = m) then Some w else find_flag fs m.
Proof.
  induction fs as [|[k u] fs IH]; [done|]. cbn [find_flag put_flag]. destruct (bool_decide_reflect (k = n)) as [->|H1].
  - intros _. cbn [find_flag]. by case_bool_decide.
  - intros Hn. cbn [find_flag]. rewrite (IH Hn). case_bool_decide as H2; [|done]. subst m. by rewrite bool_decide_eq_false_2 by congruence.
Qed.
Definition same_type (v w : flag_value) : Prop :=
  match v, w with VBool _, VBool _ | VInt _, VInt _ | VString _, VString _ | VDuration _, VDuration _ => True | _, _ => False end.
Definition same_types (fs gs : FlagSet) : Prop :=
  ∀ n, match find_flag fs n, find_flag gs n with Some v, Some w => same_type v w | None, None => True | _, _ => False end.
Lemma same_types_refl fs : same_types fs fs.
Proof. intros n. destruct (find_flag fs n) as [[]|]; done. Qed.
Lemma set_flag_types fs gs n text gs' : same_types fs gs → set_flag gs n text = Some gs' → same_types fs gs'.
Proof.
  intros Ht Hs m. unfold set_flag in Hs. destruct (find_flag gs n) as [v|] eqn:Hv; [|done].
  cbn [mbind option_bind] in Hs. destruct (set_value v text) as [w|] eqn:Hw; [|done]. injection Hs as <-.
  rewrite (find_put _ _ _ _ _ Hv). pose proof (Ht m) as Hm. case_bool_decide; [|done]. subst m. rewrite Hv in Hm.
  destruct (find_flag fs n) as [u|]; [|done].
  assert (same_type v w).
  { destruct v as [b|z|x|d]; cbn [set_value] in Hw; [| |by injection Hw as <-|];
      [destruct (ParseBool text)|destruct (ParseInt0 text)|destruct (ParseDuration text)]; cbn in Hw; by inversion Hw. }
  by destruct u, v, w.
Qed.

(** Parsing a command line, however it is written, sets what it says. *)
Lemma Parse_spelled fs settings args rest : spells fs settings args rest → Forall (λ s, flag_name s.1) settings →
  ∀ gs, same_types fs gs → ∀ hs, set_all gs settings = Some hs → Parse gs args = Parsed hs rest.
Proof.
  induction 1 as [rest H|rest|n v w l args rest Hw H IH|n v w l args rest Hw Hb H IH|n b w l args rest Hw Hb H IH]; intros Hn gs Ht hs Hs.
  - injection Hs as <-. destruct rest as [|s rest]; [done|]. cbn [Parse]. by rewrite H.
  - injection Hs as <-. done.
  - apply Forall_cons in Hn as [Hn Hl]. cbn [set_all] in Hs. destruct (set_flag gs n v) as [gs'|] eqn:Hg; [|done].
    cbn [Parse]. rewrite (word_joined n v w) by done. rewrite Hg.
    assert (∃ u, find_flag gs n = Some u) as [u ->] by (unfold set_flag in Hg; destruct (find_flag gs n); by eauto).
    rewrite (IH Hl gs' (set_flag_types _ _ _ _ _ Ht Hg) hs Hs). by destruct u.
  - apply Forall_cons in Hn as [Hn Hl]. cbn [set_all] in Hs. destruct (set_flag gs n v) as [gs'|] eqn:Hg; [|done].
    cbn [Parse]. rewrite (word_alone n w) by done. rewrite Hg.
    assert (∃ u, find_flag gs n = Some u ∧ ∀ b, u ≠ VBool b) as (u & -> & Hu).
    { pose proof (Ht n) as Htn. unfold set_flag in Hg. destruct (find_flag gs n) as [u|]; [|done]. exists u. split; [done|].
      intros b ->. destruct (find_flag fs n) as [[]|] eqn:E; try done. by eapply Hb. }
    rewrite (IH Hl gs' (set_flag_types _ _ _ _ _ Ht Hg) hs Hs). destruct u; try done. by destruct (Hu b).
  - apply Forall_cons in Hn as [Hn Hl]. cbn [set_all] in Hs. destruct (set_flag gs n "true") as [gs'|] eqn:Hg; [|done].
    cbn [Parse]. rewrite (word_alone n w) by done. rewrite Hg.
    assert (∃ b, find_flag gs n = Some (VBool b)) as [b' ->].
    { pose proof (Ht n) as Htn. rewrite Hb in Htn. destruct (find_flag gs n) as [[]|]; try done. eauto. }
    by rewrite (IH Hl gs' (set_flag_types _ _ _ _ _ Ht Hg) hs Hs).
Qed.
