(* ===== verification/CliCommands.v ===== *)
(** * The command-line tool's commands: cmd/kvfs-cli/main.go

    From the words of a command line to what the tool does: the status it exits with, or the
    requests it sends, one after another while each is answered with status 200.  The commands
    that work without a daemon are in Cli.v; here is which of them runs, and on what. *)
From S2P Require Import Prelude GF GoLib GoTime GoFmt Flags S3Sig UrlKey Cli.
From Stdlib Require Import Strings.Ascii.
#[local] Open Scope string_scope.

Record request : Type := MkAsk { rq_method : string; rq_url : string; rq_body : string }.
Inductive action : Type :=
  | Exits (code : Z) | Asks (rs : list request) | Signs (method path : string) (ttl : Z) (base : string)
  | Simulates (nodes chunks replicas add remove : Z) | Inspects (db object : string)
  | SavesSnapshot (r : request) (out : string) | Restores (from datadir : string) (keepBackup : bool).

(** An [ExitOnError] flag set. *)
Definition with_flags (fs : FlagSet) (args : list string) (k : FlagSet → list string → action) : action :=
  match Parse fs args with Parsed fs rest => k fs rest | HelpAsked => Exits 0 | Invalid => Exits 2 end.
Definition default_edge : string := "http://localhost:8000".
Definition edge_flag : string * flag_value := ("edge", VString default_edge).
Definition mustPost (url : string) : action := Asks [MkAsk "POST" url ""].
Definition mustGet (url : string) : action := Asks [MkAsk "GET" url ""].
Definition mustHTTPJSON (method url body : string) : action := Asks [MkAsk method url body].

Section commands.
Context (IsPrint : N → bool).

(** ** Offline commands *)
Definition cmdSign_args (args : list string) : action :=
  with_flags [("method", VString "GET"); ("path", VString ""); ("ttl", VDuration 3600000000000); ("base", VString "")] args
    (λ fs _, if bool_decide (flag_string fs "path" = "") then Exits 2
             else Signs (flag_string fs "method") (flag_string fs "path") (flag_duration fs "ttl") (flag_string fs "base")).
Definition cmdPlacementSim_args (args : list string) : action :=
  with_flags [("nodes", VInt 5); ("chunks", VInt 1000); ("replicas", VInt 3); ("add", VInt 0); ("remove", VInt 0)] args
    (λ fs _, Simulates (flag_int fs "nodes") (flag_int fs "chunks") (flag_int fs "replicas") (flag_int fs "add") (flag_int fs "remove")).
(** [-object]: everything up to the first slash is the bucket. *)
Definition lookup_url (base bucket key : string) : string :=
  base ++ "/v1/coord/lookup?bucket=" ++ QueryEscape bucket ++ "&key=" ++ QueryEscape key.
Definition inspectViaCoord (baseURL oneObj : string) : action :=
  let base := trim_right_slashes baseURL in
  if bool_decide (oneObj = "") then Asks [MkAsk "GET" (base ++ "/v1/coord/admin/objects") ""; MkAsk "GET" (base ++ "/v1/coord/admin/dns") ""]
  else match cut oneObj "/" with
       | None => Exits 1
       | Some (bucket, key) => mustGet (lookup_url base bucket key)
       end.
Definition cmdInspect (args : list string) : action :=
  with_flags [("db", VString "./edge-data/edge.db"); ("coord", VString ""); ("object", VString "")] args
    (λ fs _, if bool_decide (flag_string fs "coord" = "") then Inspects (flag_string fs "db") (flag_string fs "object")
             else inspectViaCoord (flag_string fs "coord") (flag_string fs "object")).

(** ** rebalance, gc, repair: exactly one of [--plan] and [--apply] *)
Definition plan_or_apply (fs : FlagSet) (plan apply : action) : action :=
  if negb (flag_bool fs "plan") && negb (flag_bool fs "apply") then Exits 2
  else if flag_bool fs "plan" && flag_bool fs "apply" then Exits 2
  else if flag_bool fs "plan" then plan else apply.
Definition job_flags : FlagSet :=
  [edge_flag; ("coord", VString ""); ("plan", VBool false); ("apply", VBool false); ("concurrency", VInt 4); ("v", VBool false)].
Definition runRebalancePlan_url (base path : string) : string := trim_right_slashes base ++ path.
Definition runRebalanceApplyAt_url (base path : string) (concurrency : Z) : string :=
  trim_right_slashes base ++ path ++ "?concurrency=" ++ itoa concurrency.
Definition cmdRebalance (args : list string) : action :=
  with_flags job_flags args
    (λ fs _,
      let route := pickRoute (flag_string fs "edge") (flag_string fs "coord") in
      plan_or_apply fs
        (let '(base, path) := route "/v1/admin/rebalance/plan" "/v1/coord/admin/rebalance/plan" in mustPost (runRebalancePlan_url base path))
        (let '(base, path) := route "/v1/admin/rebalance/apply" "/v1/coord/admin/rebalance/apply" in
         mustPost (runRebalanceApplyAt_url base path (flag_int fs "concurrency")))).
Definition runGCPlanAt_url (base path ageQuery : string) : string := trim_right_slashes base ++ path ++ "?" ++ ageQuery.
Definition runGCApplyAt_url (base path ageQuery : string) (concurrency : Z) : string :=
  trim_right_slashes base ++ path ++ "?" ++ ageQuery ++ "&concurrency=" ++ itoa concurrency.
(** The edge takes seconds, the coord daemon a duration. *)
Definition age_query (coordURL : string) (minAge : Z) : string :=
  if bool_decide (coordURL = "") then "min_age_seconds=" ++ itoa minAge else "min-age=" ++ itoa minAge ++ "s".
Definition gc_flags : FlagSet :=
  [edge_flag; ("coord", VString ""); ("plan", VBool false); ("apply", VBool false); ("concurrency", VInt 4); ("min-age", VInt 60); ("v", VBool false)].
Definition cmdGC (args : list string) : action :=
  with_flags gc_flags args
    (λ fs _,
      let route := pickRoute (flag_string fs "edge") (flag_string fs "coord") in
      let age := age_query (flag_string fs "coord") (flag_int fs "min-age") in
      plan_or_apply fs
        (let '(base, path) := route "/v1/admin/gc/plan" "/v1/coord/admin/gc/plan" in mustPost (runGCPlanAt_url base path age))
        (let '(base, path) := route "/v1/admin/gc/apply" "/v1/coord/admin/gc/apply" in
         mustPost (runGCApplyAt_url base path age (flag_int fs "concurrency")))).
Definition cmdRepair (args : list string) : action :=
  with_flags job_flags args
    (λ fs _,
      let route := pickRoute (flag_string fs "edge") (flag_string fs "coord") in
      let '(base, planPath) := route "/v1/admin/repair/plan" "/v1/coord/admin/repair/plan" in
      let '(_, applyPath) := route "/v1/admin/repair/apply" "/v1/coord/admin/repair/apply" in
      plan_or_apply fs (mustPost (base ++ planPath)) (mustPost (base ++ applyPath ++ "?concurrency=" ++ itoa (flag_int fs "concurrency")))).

Definition cmdAuto (args : list string) : action :=
  with_flags [edge_flag; ("status", VBool false); ("v", VBool false)] args
    (λ fs _, if negb (flag_bool fs "status") then Exits 2
             else mustGet (trim_right_slashes (flag_string fs "edge") ++ "/v1/admin/auto/status")).

(** ** dns: flags come before the subcommand *)
Definition quoted_field (name value : string) : string := String dquote (name ++ String dquote (":" ++ Quote IsPrint value)).
Definition add_body (addr : string) : string := "{" ++ quoted_field "addr" addr ++ "}".
Definition cmdDNs (args : list string) : action :=
  with_flags [edge_flag; ("coord", VString "")] args
    (λ fs rest,
      let useCoord := negb (bool_decide (flag_string fs "coord" = "")) in
      let base := trim_right_slashes (if useCoord then flag_string fs "coord" else flag_string fs "edge") in
      let dns := if useCoord then "/v1/coord/admin/dns" else "/v1/admin/dns" in
      match rest with
      | [] => Exits 2
      | sub :: words =>
          if bool_decide (sub = "list") then mustGet (base ++ dns)
          else if bool_decide (sub = "add") then
            match words with
            | [addr] => if useCoord then mustPost (base ++ "/v1/coord/admin/dns?addr=" ++ QueryEscape addr)
                        else mustHTTPJSON "POST" (base ++ "/v1/admin/dns") (add_body addr)
            | _ => Exits 2
            end
          else if bool_decide (sub = "remove") then
            match words with [addr] => mustHTTPJSON "DELETE" (base ++ dns ++ "?addr=" ++ QueryEscape addr) "" | _ => Exits 2 end
          else if bool_decide (sub = "class") then
            match words with
            | [addr; class] => mustHTTPJSON "PUT" (base ++ dns ++ "/class?addr=" ++ QueryEscape addr ++ "&class=" ++ QueryEscape class) ""
            | _ => Exits 2
            end
          else if bool_decide (sub = "domain") then
            match words with
            | [addr; domain] =>
                if negb useCoord then Exits 2
                else mustHTTPJSON "PUT" (base ++ "/v1/coord/admin/dns/domain?addr=" ++ QueryEscape addr ++ "&domain=" ++ QueryEscape domain) ""
            | _ => Exits 2
            end
          else Exits 2
      end).

(** ** urlkey: flags come after the subcommand *)
Definition urlkey_flags : FlagSet :=
  [edge_flag; ("coord", VString ""); ("kid", VString ""); ("secret-hex", VString ""); ("primary", VBool true)].
Definition rotate_body (r : string * string * bool) : string :=
  let '(kid, secret, primary) := r in
  "{" ++ quoted_field "kid" kid ++ "," ++ quoted_field "secret_hex" secret ++ "," ++
  String dquote ("is_primary" ++ String dquote (":" ++ (if (primary : bool) then "true" else "false") ++ "}")).
(** [now] and [random] are what a rotation without a kid or a secret makes up. *)
Definition cmdURLKey (now : Z) (random : list Byte.byte) (args : list string) : action :=
  match args with
  | [] => Exits 2
  | sub :: args =>
      with_flags urlkey_flags args
        (λ fs _,
          let route := pickRoute (flag_string fs "edge") (flag_string fs "coord") in
          let '(base, path) := route "/v1/admin/urlkey" "/v1/coord/admin/urlkey" in
          if bool_decide (sub = "list") then mustGet (base ++ path)
          else if bool_decide (sub = "rotate") then
            let '(base, path) := route "/v1/admin/urlkey/rotate" "/v1/coord/admin/urlkey/rotate" in
            mustHTTPJSON "POST" (base ++ path) (rotate_body (rotate_request (flag_string fs "kid") (flag_string fs "secret-hex") (flag_bool fs "primary") now random))
          else if bool_decide (sub = "remove") then
            if bool_decide (flag_string fs "kid" = "") then Exits 2
            else mustHTTPJSON "DELETE" (base ++ path ++ "?kid=" ++ flag_string fs "kid") ""
          else Exits 2)
  end.

(** ** Views of an edge *)
Definition view_flags : FlagSet := [edge_flag; ("json", VBool false)].
Definition cmdMetaHistory (args : list string) : action :=
  with_flags view_flags args (λ fs _, mustGet (flag_string fs "edge" ++ "/v1/admin/snapshot/history")).
Definition cmdMetaInfo (args : list string) : action :=
  with_flags view_flags args (λ fs _, mustGet (flag_string fs "edge" ++ "/v1/admin/meta/info")).
Definition cmdHeartbeat (args : list string) : action :=
  with_flags view_flags args (λ fs _, mustGet (flag_string fs "edge" ++ "/v1/admin/heartbeat")).
Definition cmdRole (args : list string) : action :=
  with_flags view_flags args (λ fs _, mustGet (flag_string fs "edge" ++ "/v1/admin/role")).
Definition cmdWALInfo (args : list string) : action :=
  with_flags view_flags args (λ fs _, mustGet (flag_string fs "edge" ++ "/v1/admin/wal/info")).
Definition cmdWALStream (args : list string) : action :=
  with_flags [edge_flag; ("since", VInt 0)] args
    (λ fs _, mustGet (flag_string fs "edge" ++ "/v1/admin/wal?since=" ++ itoa (flag_int fs "since"))).
Definition cmdWAL (args : list string) : action :=
  match args with
  | [] => Exits 2
  | sub :: args => if bool_decide (sub = "info") then cmdWALInfo args else if bool_decide (sub = "stream") then cmdWALStream args else Exits 2
  end.

(** ** meta; [stamp] is the time in the default name *)
Definition cmdMetaSnapshot_args (stamp : string) (args : list string) : action :=
  with_flags [edge_flag; ("out", VString "")] args
    (λ fs _,
      let out := flag_string fs "out" in
      SavesSnapshot (MkAsk "GET" (flag_string fs "edge" ++ "/v1/admin/meta/snapshot") "")
        (if bool_decide (out = "") then "kvfs-meta-snapshot-" ++ stamp ++ ".bbolt" else out)).
Definition cmdMetaRestore_args (args : list string) : action :=
  with_flags [("from", VString ""); ("datadir", VString ""); ("keep-backup", VBool true)] args
    (λ fs _, Restores (flag_string fs "from") (flag_string fs "datadir") (flag_bool fs "keep-backup")).
Definition cmdMeta (stamp : string) (args : list string) : action :=
  match args with
  | [] => Exits 2
  | sub :: args =>
      if bool_decide (sub = "snapshot") then cmdMetaSnapshot_args stamp args
      else if bool_decide (sub = "info") then cmdMetaInfo args
      else if bool_decide (sub = "restore") then cmdMetaRestore_args args
      else if bool_decide (sub = "history") then cmdMetaHistory args
      else Exits 2
  end.

(** ** anti-entropy *)
Definition anti_entropy_flags : FlagSet :=
  [("coord", VString ""); ("corrupt", VBool false); ("dry-run", VBool false); ("ec", VBool false); ("max-repairs", VInt 0); ("concurrency", VInt 0)].
Definition cmdAntiEntropy (args : list string) : action :=
  match args with
  | [] => Exits 2
  | sub :: args =>
      with_flags anti_entropy_flags args
        (λ fs _,
          let coord := flag_string fs "coord" in
          if bool_decide (sub = "run") then
            if bool_decide (coord = "") then Exits 2 else mustHTTPJSON "POST" (coord ++ "/v1/coord/admin/anti-entropy/run") ""
          else if bool_decide (sub = "repair") then
            if bool_decide (coord = "") then Exits 2
            else mustHTTPJSON "POST" (coord ++ repair_path (flag_bool fs "corrupt") (flag_bool fs "dry-run") (flag_bool fs "ec")
                                       (flag_int fs "max-repairs") (flag_int fs "concurrency")) ""
          else Exits 2)
  end.

(** ** The program *)
Definition main (now : Z) (random : list Byte.byte) (stamp : string) (args : list string) : action :=
  match args with
  | [] => Exits 2
  | sub :: args =>
      if bool_decide (sub = "sign") then cmdSign_args args
      else if bool_decide (sub = "inspect") then cmdInspect args
      else if bool_decide (sub = "placement-sim") then cmdPlacementSim_args args
      else if bool_decide (sub = "rebalance") then cmdRebalance args
      else if bool_decide (sub = "gc") then cmdGC args
      else if bool_decide (sub = "auto") then cmdAuto args
      else if bool_decide (sub = "dns") then cmdDNs args
      else if bool_decide (sub = "urlkey") then cmdURLKey now random args
      else if bool_decide (sub = "repair") then cmdRepair args
      else if bool_decide (sub = "meta") then cmdMeta stamp args
      else if bool_decide (sub = "heartbeat") then cmdHeartbeat args
      else if bool_decide (sub = "role") then cmdRole args
      else if bool_decide (sub = "wal") then cmdWAL args
      else if bool_decide (sub = "anti-entropy") then cmdAntiEntropy args
      else if bool_decide (sub ∈ ["-h"; "--help"; "help"]) then Exits 0
      else Exits 2
  end.
End commands.
