(* ===== verification/CliCommandsTheorems.v ===== *)
(** * Command lines reach the handlers they are meant for (CliCommands.v)

    However a command line is written, the request it makes is the one its flags describe, and
    the server it goes to answers it with the handler of that command, which reads from the
    query what was written on the command line. *)
From S2P Require Import Prelude GF GoLib GoTime GoFmt Flags S3Sig S3SigProps UrlKey Mux WireTheorems.
From S2P Require Import EdgeJobs EdgeJobsTheorems CoordRepair AutoRepair Cli CliCommands Routes.
From Stdlib Require Import Strings.Ascii.
#[local] Open Scope string_scope.

(** ** URLs *)
Definition origin (host : string) : string := "http://" ++ host.
Fixpoint slashes (n : nat) : string := match n with O => "" | S n => String "/" (slashes n) end.
Definition base (host : string) (n : nat) : string := origin host ++ slashes n.
Definition host_ok (host : string) : Prop := host ≠ "" ∧ no_char "/" host ∧ no_char "?" host.

Lemma chars_slashes n : chars (slashes n) = replicate n "/"%char.
Proof. induction n as [|n IH]; [done|]. simpl. by rewrite IH. Qed.
Lemma trim_left_slashes n r fuel : (n ≤ fuel)%nat → head (chars r) ≠ Some "/"%char → trim_left fuel ["/"] (slashes n ++ r) = r.
Proof.
  revert fuel. induction n as [|n IH]; intros fuel Hn Hr; cbn [slashes]; gostr.
  - destruct fuel as [|fuel]; [done|]. cbn [trim_left first_strip]. destruct r as [|c r]; [done|]. cbn [strip_prefix].
    destruct (Ascii.eqb_spec "/" c) as [<-|]; [done|]. reflexivity.
  - destruct fuel as [|fuel]; [lia|]. cbn [trim_left first_strip strip_prefix]. rewrite Ascii.eqb_refl. apply IH; [lia|done].
Qed.
Lemma str_rev_app a b : str_rev (a ++ b) = str_rev b ++ str_rev a.
Proof.
  unfold str_rev. rewrite chars_app, reverse_app.
  generalize (reverse (chars b)), (reverse (chars a)). intros l l'. induction l as [|c l IH]; [by gostr|]. cbn [app String.string_of_list_ascii]. gostr. by rewrite IH.
Qed.
Lemma chars_of_ascii_list l : chars (String.string_of_list_ascii l) = l.
Proof. unfold chars. apply String.list_ascii_of_string_of_list_ascii. Qed.
Lemma str_rev_rev s : str_rev (str_rev s) = s.
Proof. unfold str_rev. rewrite chars_of_ascii_list, reverse_involutive. apply String.string_of_list_ascii_of_string. Qed.
Lemma str_rev_slashes n : str_rev (slashes n) = slashes n.
Proof.
  unfold str_rev. rewrite chars_slashes, reverse_replicate. induction n as [|n IH]; [done|]. cbn. by rewrite IH.
Qed.
Lemma trim_base host n : host_ok host → trim_right_slashes (base host n) = origin host.
Proof.
  intros (Hne & Hs & _). unfold trim_right_slashes, base. rewrite str_rev_app, str_rev_slashes, trim_left_slashes.
  - apply str_rev_rev.
  - unfold str_rev. generalize (origin host). intros o. transitivity (String.length (slashes n)); [|rewrite string_length_app; lia].
    clear. induction n; simpl; lia.
  - unfold origin. rewrite str_rev_app. unfold str_rev at 1. rewrite chars_app, chars_of_ascii_list.
    destruct (reverse (chars host)) as [|c l] eqn:E.
    + apply (f_equal reverse) in E. rewrite reverse_involutive in E. by destruct host.
    + cbn. intros [= ->]. apply Hs. rewrite <- (reverse_involutive (chars host)), E, elem_of_reverse. by left.
Qed.
Lemma cut_skip a sep b : no_char sep a → cut (a ++ b) sep = (λ p, (a ++ p.1, p.2)) <$> cut b sep.
Proof.
  unfold no_char. intros H. induction a as [|c a IH]; gostr.
  - destruct (cut b sep) as [[]|]; [|done]. cbn. by gostr.
  - cbn [cut]. simpl in H. rewrite bool_decide_eq_false_2 by set_solver. rewrite IH by set_solver.
    destruct (cut b sep) as [[]|]; [|done]. cbn. by gostr.
Qed.
Lemma cut_absent a sep : no_char sep a → cut a sep = None.
Proof. intros H. rewrite <- (string_app_nil_r a), cut_skip by done. done. Qed.
Lemma url_parts_of host p tail :
  host_ok host → no_char "?" p → tail = "" ∨ (∃ query, tail = "?" ++ query) →
  url_parts (origin host ++ ("/" ++ p) ++ tail) = Some (origin host, "/" ++ p, match tail with "" => "" | String _ q => q end).
Proof.
  intros (Hne & Hs & Hq) Hp Ht. unfold url_parts, origin.
  replace (("http://" ++ host) ++ ("/" ++ p) ++ tail) with ("http" ++ String ":" ("//" ++ ((host ++ "/" ++ p) ++ tail)))
    by (rewrite <- !string_app_assoc; reflexivity).
  assert (∀ a sep b, no_char sep a → cut (a ++ String sep b) sep = Some (a, b)) as Hcut.
  { intros a sep b Ha. rewrite cut_skip by done. cbn [cut]. rewrite bool_decide_eq_true_2 by done. cbn. by rewrite string_app_nil_r. }
  rewrite Hcut by by_decide. cbn [mbind option_bind].
  change ("//" ++ ((host ++ "/" ++ p) ++ tail)) with (String "/" (String "/" ("" ++ ((host ++ "/" ++ p) ++ tail)))). rewrite string_app_nil_l.
  assert (no_char "?" (host ++ "/" ++ p)) as Hn by (rewrite !no_char_app; split_and!; [done|by_decide|done]).
  assert (cut (host ++ "/" ++ p) "/" = Some (host, p)) as Hc by (change ("/" ++ p) with (String "/" ("" ++ p)); rewrite string_app_nil_l; by apply Hcut).
  cbv iota. destruct Ht as [->|[query ->]].
  - rewrite string_app_nil_r, cut_absent by done. by rewrite Hc.
  - change ("?" ++ query) with (String "?" ("" ++ query)). rewrite string_app_nil_l, Hcut by done. by rewrite Hc.
Qed.

(** ** Requests and their handlers *)
Definition reaches {H} (mux : ServeMux H) (host : string) (a : action) (h : H) (args : list (string * string)) : Prop :=
  ∃ m url body path query, a = Asks [MkAsk m url body] ∧ url_parts url = Some (origin host, path, query) ∧
    findHandler mux m path = Served h [] ∧ ∀ k v, (k, v) ∈ args → q_get (ParseQuery query) k = v.
Lemma reaches_plain {H} (mux : ServeMux H) host m p body h : host_ok host → no_char "?" p → findHandler mux m ("/" ++ p) = Served h [] →
  reaches mux host (Asks [MkAsk m (origin host ++ "/" ++ p) body]) h [].
Proof.
  intros Hh Hp Hf. eexists _, _, _, _, _. split; [reflexivity|]. split_and!; [|exact Hf|by intros k v ?%not_elem_of_nil].
  rewrite <- (string_app_nil_r ("/" ++ p)) at 1. by rewrite (url_parts_of host p "") by auto.
Qed.
Definition writes (l : list (string * string * string)) : list (string * string) := (λ x, (x.1.1, x.1.2)) <$> l.
Definition read_back (l : list (string * string * string)) : list (string * string) := (λ x, (x.1.1, x.2)) <$> l.
Lemma reaches_query {H} (mux : ServeMux H) host m p l body h :
  host_ok host → no_char "?" p → findHandler mux m ("/" ++ p) = Served h [] →
  Forall (λ x, query_safe x.1.1 ∧ encodes x.1.2 x.2) l → NoDup ((λ x, x.1.1) <$> l) →
  reaches mux host (Asks [MkAsk m (origin host ++ ("/" ++ p) ++ "?" ++ query_of (writes l)) body]) h (read_back l).
Proof.
  intros Hh Hp Hf Hl Hnd. eexists _, _, _, _, _. split; [reflexivity|]. split_and!; [by apply url_parts_of; eauto|exact Hf|].
  intros k v (x & [= -> ->] & Hx)%list_elem_of_fmap. cbn. eapply q_get_query_of.
  - unfold writes. apply Forall_fmap. eapply Forall_impl; [exact Hl|]. intros y [? ?]. cbn. eauto.
  - unfold writes. rewrite <- list_fmap_compose. exact Hnd.
  - apply list_elem_of_fmap. exists x. split; [reflexivity|done].
  - rewrite Forall_forall in Hl. by apply Hl.
Qed.

(** ** Command lines *)
Definition has (fs : FlagSet) (want : list (string * flag_value)) : Prop := Forall (λ w, find_flag fs w.1 = Some w.2) want.
(** The words before the flags, the flags with what they must hold, the words after them; the
    handler and what it is to read from the query. *)
Record command_line (H : Type) : Type := MkLine
  { l_words : list string; l_flags : FlagSet; l_want : list (string * flag_value); l_rest : list string;
    l_handler : H; l_reads : list (string * string) }.
Arguments MkLine {H} l_words l_flags l_want l_rest l_handler l_reads.
Arguments l_words {H} c.
Arguments l_flags {H} c.
Arguments l_want {H} c.
Arguments l_rest {H} c.
Arguments l_handler {H} c.
Arguments l_reads {H} c.

Section lines.
Context (IsPrint : N → bool) (now : Z) (random : list Byte.byte) (stamp : string).
Notation run := (main IsPrint now random stamp).

(** Every way to write the line: any order and spelling of the flags. *)
Definition line_reaches {H} (mux : ServeMux H) (host : string) (c : command_line H) : Prop :=
  ∀ settings args fs, spells (l_flags c) settings args (l_rest c) → set_all (l_flags c) settings = Some fs → has fs (l_want c) →
    reaches mux host (run (l_words c ++ args)%list) (l_handler c) (l_reads c).

Lemma set_all_names settings fs hs : Forall flag_name fs.*1 → set_all fs settings = Some hs → Forall (λ s, flag_name s.1) settings.
Proof.
  revert fs. induction settings as [|[n v] l IH]; intros fs Hfs Hs; [done|]. cbn [set_all] in Hs.
  destruct (set_flag fs n v) as [fs'|] eqn:E; [|done]. unfold set_flag in E. destruct (find_flag fs n) as [u|] eqn:Hu; [|done].
  cbn [mbind option_bind] in E. destruct (set_value u v) as [w|]; [|done]. injection E as <-.
  assert ((put_flag fs n w).*1 = fs.*1) as Ep.
  { clear. induction fs as [|[k x] fs IH]; [done|]. cbn. by case_bool_decide; cbn; [|f_equal]. }
  constructor; [|apply (IH (put_flag fs n w)); [by rewrite Ep|done]]. cbn.
  clear -Hfs Hu. induction fs as [|[k x] fs IH]; [done|]. cbn in Hu, Hfs. apply Forall_cons in Hfs as [Hk Hfs].
  case_bool_decide; [by subst|by apply IH].
Qed.
Lemma line_runs {H} (mux : ServeMux H) host c (k : FlagSet → list string → action) :
  (∀ args, run (l_words c ++ args)%list = with_flags (l_flags c) args k) → Forall flag_name (l_flags c).*1 →
  (∀ fs, has fs (l_want c) → reaches mux host (k fs (l_rest c)) (l_handler c) (l_reads c)) → line_reaches mux host c.
Proof.
  intros Hrun Hn Hk settings args fs Hsp Hset Hhas. rewrite Hrun. unfold with_flags.
  rewrite (Parse_spelled _ _ _ _ Hsp (set_all_names _ _ _ Hn Hset) _ (same_types_refl _) _ Hset). by apply Hk.
Qed.

(** ** The lines that go to an edge *)
Section edge.
Context (host : string) (n : nat) (concurrency age since : Z) (addr class kid : string).
Notation E := ("edge", VString (base host n)).
Notation plain_edge := ("edge", VString (origin host)).
Notation no_coord := ("coord", VString "").
Notation plan := [("plan", VBool true); ("apply", VBool false)].
Notation apply := [("plan", VBool false); ("apply", VBool true)].
Definition edge_lines : list (command_line EdgeRoutes.edge_handler) :=
  let conc := ("concurrency", VInt concurrency) in
  [MkLine ["rebalance"] job_flags (E :: no_coord :: plan) [] EdgeRoutes.HandleRebalancePlan [];
   MkLine ["rebalance"] job_flags (E :: no_coord :: conc :: apply) [] EdgeRoutes.HandleRebalanceApply [("concurrency", itoa concurrency)];
   MkLine ["gc"] gc_flags (E :: no_coord :: ("min-age", VInt age) :: plan) [] EdgeRoutes.HandleGCPlan [("min_age_seconds", itoa age)];
   MkLine ["gc"] gc_flags (E :: no_coord :: ("min-age", VInt age) :: conc :: apply) [] EdgeRoutes.HandleGCApply
     [("min_age_seconds", itoa age); ("concurrency", itoa concurrency)];
   MkLine ["repair"] job_flags (E :: no_coord :: plan) [] EdgeRoutes.HandleRepairPlan [];
   MkLine ["repair"] job_flags (E :: no_coord :: conc :: apply) [] EdgeRoutes.HandleRepairApply [("concurrency", itoa concurrency)];
   MkLine ["auto"] [edge_flag; ("status", VBool false); ("v", VBool false)] [E; ("status", VBool true)] [] EdgeRoutes.HandleAutoStatus [];
   MkLine ["dns"] [edge_flag; ("coord", VString "")] [E; no_coord] ["list"] EdgeRoutes.HandleDNs [];
   MkLine ["dns"] [edge_flag; ("coord", VString "")] [E; no_coord] ["add"; addr] EdgeRoutes.HandleAddDN [];
   MkLine ["dns"] [edge_flag; ("coord", VString "")] [E; no_coord] ["remove"; addr] EdgeRoutes.HandleRemoveDN [("addr", addr)];
   MkLine ["dns"] [edge_flag; ("coord", VString "")] [E; no_coord] ["class"; addr; class] EdgeRoutes.HandleSetDNClass [("addr", addr); ("class", class)];
   MkLine ["urlkey"; "list"] urlkey_flags [E; no_coord] [] EdgeRoutes.HandleListURLKeys [];
   MkLine ["urlkey"; "rotate"] urlkey_flags [E; no_coord] [] EdgeRoutes.HandleRotateURLKey [];
   MkLine ["urlkey"; "remove"] urlkey_flags [E; no_coord; ("kid", VString kid)] [] EdgeRoutes.HandleRemoveURLKey [("kid", kid)];
   MkLine ["meta"; "info"] view_flags [plain_edge] [] EdgeRoutes.HandleMetaInfo [];
   MkLine ["meta"; "history"] view_flags [plain_edge] [] EdgeRoutes.HandleSnapshotHistory [];
   MkLine ["heartbeat"] view_flags [plain_edge] [] EdgeRoutes.HandleHeartbeat [];
   MkLine ["role"] view_flags [plain_edge] [] EdgeRoutes.HandleRole [];
   MkLine ["wal"; "info"] view_flags [plain_edge] [] EdgeRoutes.HandleWALInfo [];
   MkLine ["wal"; "stream"] [edge_flag; ("since", VInt 0)] [plain_edge; ("since", VInt since)] [] EdgeRoutes.HandleWAL [("since", itoa since)]].
End edge.

(** ** The lines that go to a coord daemon *)
Section coord.
Context (host : string) (n : nat) (concurrency age : Z) (addr class kid bucket key : string).
Notation C := ("coord", VString (base host n)).
Notation plain_coord := ("coord", VString (origin host)).
Notation plan := [("plan", VBool true); ("apply", VBool false)].
Notation apply := [("plan", VBool false); ("apply", VBool true)].
Definition coord_lines : list (command_line CoordRoutes.coord_handler) :=
  let conc := ("concurrency", VInt concurrency) in
  let age_read := ("min-age", itoa age ++ "s") in
  let inspect := [("db", VString "./edge-data/edge.db"); ("coord", VString ""); ("object", VString "")] in
  [MkLine ["inspect"] inspect [C; ("object", VString (bucket ++ "/" ++ key))] [] CoordRoutes.HandleLookup [("bucket", bucket); ("key", key)];
   MkLine ["rebalance"] job_flags (C :: plan) [] CoordRoutes.HandleRebalancePlan [];
   MkLine ["rebalance"] job_flags (C :: conc :: apply) [] CoordRoutes.HandleRebalanceApply [("concurrency", itoa concurrency)];
   MkLine ["gc"] gc_flags (C :: ("min-age", VInt age) :: plan) [] CoordRoutes.HandleGCPlan [age_read];
   MkLine ["gc"] gc_flags (C :: ("min-age", VInt age) :: conc :: apply) [] CoordRoutes.HandleGCApply
     [age_read; ("concurrency", itoa concurrency)];
   MkLine ["repair"] job_flags (C :: plan) [] CoordRoutes.HandleRepairPlan [];
   MkLine ["repair"] job_flags (C :: conc :: apply) [] CoordRoutes.HandleRepairApply [("concurrency", itoa concurrency)];
   MkLine ["dns"] [edge_flag; ("coord", VString "")] [C] ["list"] CoordRoutes.HandleAdminDNs [];
   MkLine ["dns"] [edge_flag; ("coord", VString "")] [C] ["add"; addr] CoordRoutes.HandleAdminAddDN [("addr", addr)];
   MkLine ["dns"] [edge_flag; ("coord", VString "")] [C] ["remove"; addr] CoordRoutes.HandleAdminRemoveDN [("addr", addr)];
   MkLine ["dns"] [edge_flag; ("coord", VString "")] [C] ["class"; addr; class] CoordRoutes.HandleAdminSetDNClass [("addr", addr); ("class", class)];
   MkLine ["dns"] [edge_flag; ("coord", VString "")] [C] ["domain"; addr; class] CoordRoutes.HandleAdminSetDNDomain [("addr", addr); ("domain", class)];
   MkLine ["urlkey"; "list"] urlkey_flags [C] [] CoordRoutes.HandleAdminListURLKeys [];
   MkLine ["urlkey"; "rotate"] urlkey_flags [C] [] CoordRoutes.HandleAdminRotateURLKey [];
   MkLine ["urlkey"; "remove"] urlkey_flags [C; ("kid", VString kid)] [] CoordRoutes.HandleAdminRemoveURLKey [("kid", kid)];
   MkLine ["anti-entropy"; "run"] anti_entropy_flags [plain_coord] [] CoordRoutes.HandleAntiEntropyRun []].
End coord.

Lemma base_ne host n : base host n ≠ "".
Proof. done. Qed.
Lemma pick_edge e p q host n : e = base host n → host_ok host → pickRoute e "" p q = (origin host, p).
Proof. intros -> Hh. unfold pickRoute. cbn. by rewrite trim_base. Qed.
Lemma pick_coord e c p q host n : c = base host n → host_ok host → pickRoute e c p q = (origin host, q).
Proof. intros -> Hh. unfold pickRoute. rewrite bool_decide_eq_false_2 by apply base_ne. by rewrite trim_base. Qed.
Lemma trim_origin host : host_ok host → trim_right_slashes (origin host) = origin host.
Proof. intros Hh. rewrite <- (trim_base host 0 Hh) at 2. unfold base. cbn [slashes]. by rewrite string_app_nil_r. Qed.
End lines.

(** The request a line makes, from the flags it holds. *)
Ltac flags_known :=
  match goal with H : has _ _ |- _ => unfold has in H; repeat (apply Forall_cons in H as [? H]); clear H end;
  cbn [fst snd] in *; unfold plan_or_apply, flag_string, flag_int, flag_bool;
  repeat match goal with H : find_flag _ _ = _ |- _ => rewrite ?H; clear H end.
Ltac choices :=
  repeat match goal with
    | |- context [bool_decide (?a = ?b)] =>
        first [rewrite (bool_decide_eq_true_2 (a = b)) by reflexivity | rewrite (bool_decide_eq_false_2 (a = b)) by discriminate]
    end; cbn [negb andb].
Ltac routed Hh :=
  choices;
  repeat first [rewrite (pick_edge _ _ _ _ _ eq_refl Hh) | rewrite (pick_coord _ _ _ _ _ _ eq_refl Hh) | rewrite (trim_base _ _ Hh) | rewrite (trim_origin _ Hh)];
  cbv beta iota zeta; cbn [negb andb].
Ltac line Hh :=
  eapply line_runs; [intros args; reflexivity | repeat constructor | cbn [l_want l_rest l_handler l_reads]; intros fs Hhas; flags_known; routed Hh].

Ltac found := match goal with |- findHandler (_ ?elector) _ _ = _ => destruct elector; vm_compute; reflexivity end.
Ltac unfold_urls := unfold mustPost, mustGet, mustHTTPJSON, runRebalancePlan_url, runRebalanceApplyAt_url, runGCPlanAt_url, runGCApplyAt_url, age_query.
Ltac by_path Hh p := unfold_urls; routed Hh; apply (reaches_plain _ _ _ p _ _ Hh); [by_decide | found].
Ltac by_query Hh p l :=
  unfold_urls; routed Hh; apply (reaches_query _ _ _ p l _ _ Hh);
  [by_decide | found | repeat (apply Forall_cons; split; [split; [by_decide | cbn [fst snd]; first [assumption | encoded]]|]); apply Forall_nil_2 | by_decide].

Section reach.
Context (IsPrint : N → bool) (now : Z) (random : list Byte.byte) (stamp : string).
Lemma edge_lines_reach elector host n concurrency age since addr class kid : host_ok host → query_safe kid → kid ≠ "" →
  Forall (line_reaches IsPrint now random stamp (edge_mux elector) host) (edge_lines host n concurrency age since addr class kid).
Proof.
  intros Hh Hkid Hne. unfold edge_lines. repeat (apply Forall_cons; split); [..|apply Forall_nil_2].
  - line Hh. by_path Hh "v1/admin/rebalance/plan".
  - line Hh. by_query Hh "v1/admin/rebalance/apply" [("concurrency", itoa concurrency, itoa concurrency)].
  - line Hh. by_query Hh "v1/admin/gc/plan" [("min_age_seconds", itoa age, itoa age)].
  - line Hh. by_query Hh "v1/admin/gc/apply" [("min_age_seconds", itoa age, itoa age); ("concurrency", itoa concurrency, itoa concurrency)].
  - line Hh. by_path Hh "v1/admin/repair/plan".
  - line Hh. by_query Hh "v1/admin/repair/apply" [("concurrency", itoa concurrency, itoa concurrency)].
  - line Hh. by_path Hh "v1/admin/auto/status".
  - line Hh. by_path Hh "v1/admin/dns".
  - line Hh. by_path Hh "v1/admin/dns".
  - line Hh. by_query Hh "v1/admin/dns" [("addr", QueryEscape addr, addr)].
  - line Hh. by_query Hh "v1/admin/dns/class" [("addr", QueryEscape addr, addr); ("class", QueryEscape class, class)].
  - line Hh. by_path Hh "v1/admin/urlkey".
  - line Hh. by_path Hh "v1/admin/urlkey/rotate".
  - line Hh. rewrite bool_decide_eq_false_2 by done. by_query Hh "v1/admin/urlkey" [("kid", kid, kid)].
  - line Hh. by_path Hh "v1/admin/meta/info".
  - line Hh. by_path Hh "v1/admin/snapshot/history".
  - line Hh. by_path Hh "v1/admin/heartbeat".
  - line Hh. by_path Hh "v1/admin/role".
  - line Hh. by_path Hh "v1/admin/wal/info".
  - line Hh. by_query Hh "v1/admin/wal" [("since", itoa since, itoa since)].
Qed.
Lemma coord_lines_reach elector host n concurrency age addr class kid bucket key :
  host_ok host → query_safe kid → kid ≠ "" → no_char "/" bucket →
  Forall (line_reaches IsPrint now random stamp (coord_mux elector) host) (coord_lines host n concurrency age addr class kid bucket key).
Proof.
  intros Hh Hkid Hne Hb. assert (encodes (itoa age ++ "s") (itoa age ++ "s")) as Hage.
  { apply encodes_safe. unfold query_safe. rewrite chars_app. apply Forall_app. split; [apply itoa_query_safe|by_decide]. }
  unfold coord_lines. repeat (apply Forall_cons; split); [..|apply Forall_nil_2].
  - line Hh. unfold inspectViaCoord, lookup_url. routed Hh. rewrite bool_decide_eq_false_2 by (by destruct bucket).
    change ("/" ++ key) with (String "/" ("" ++ key)). rewrite string_app_nil_l, cut_skip by done. cbn [cut]. choices. cbn [fmap option_fmap option_map fst snd].
    rewrite string_app_nil_r.
    by_query Hh "v1/coord/lookup" [("bucket", QueryEscape bucket, bucket); ("key", QueryEscape key, key)].
  - line Hh. by_path Hh "v1/coord/admin/rebalance/plan".
  - line Hh. by_query Hh "v1/coord/admin/rebalance/apply" [("concurrency", itoa concurrency, itoa concurrency)].
  - line Hh. by_query Hh "v1/coord/admin/gc/plan" [("min-age", itoa age ++ "s", itoa age ++ "s")].
  - line Hh. by_query Hh "v1/coord/admin/gc/apply" [("min-age", itoa age ++ "s", itoa age ++ "s"); ("concurrency", itoa concurrency, itoa concurrency)].
  - line Hh. by_path Hh "v1/coord/admin/repair/plan".
  - line Hh. by_query Hh "v1/coord/admin/repair/apply" [("concurrency", itoa concurrency, itoa concurrency)].
  - line Hh. by_path Hh "v1/coord/admin/dns".
  - line Hh. by_query Hh "v1/coord/admin/dns" [("addr", QueryEscape addr, addr)].
  - line Hh. by_query Hh "v1/coord/admin/dns" [("addr", QueryEscape addr, addr)].
  - line Hh. by_query Hh "v1/coord/admin/dns/class" [("addr", QueryEscape addr, addr); ("class", QueryEscape class, class)].
  - line Hh. by_query Hh "v1/coord/admin/dns/domain" [("addr", QueryEscape addr, addr); ("domain", QueryEscape class, class)].
  - line Hh. by_path Hh "v1/coord/admin/urlkey".
  - line Hh. by_path Hh "v1/coord/admin/urlkey/rotate".
  - line Hh. rewrite bool_decide_eq_false_2 by done. by_query Hh "v1/coord/admin/urlkey" [("kid", kid, kid)].
  - line Hh. by_path Hh "v1/coord/admin/anti-entropy/run".
Qed.
End reach.

(** ** What the maintenance handlers read *)
Lemma take_digits_all l : Forall (λ c, is_digit c = true) l → take_digits l = l.
Proof. induction 1 as [|c l Hc _ IH]; [done|]. cbn. by rewrite Hc, IH. Qed.
Lemma no_space_digit c t n : is_digit c = true → trim_left n (filter (λ s, s ≠ str_of_codes [10%N]) spaces) (String c t) = String c t.
Proof.
  intros Hc. destruct n as [|n]; [done|]. cbn [trim_left].
  assert (first_strip (filter (λ s, s ≠ str_of_codes [10%N]) spaces) (String c t) = None) as ->; [|done].
  destruct c as [[] [] [] [] [] [] [] []]; first [discriminate Hc | reflexivity].
Qed.
Lemma scan_int_itoa n : (0 < n < 2 ^ 63)%Z → scan_int (itoa n) = Some n.
Proof.
  intros Hn. destruct n as [|p|p]; [lia| |lia]. destruct (itoa_pos_head p) as (c & t & E & Hc & _).
  destruct (uint_loop_itoa (Zpos p) ltac:(unfold max_u64; lia)) as [Hl _]. pose proof (uint_loop_digits _ _ _ Hl) as Hd.
  unfold scan_int. destruct (itoa (Zpos p)) as [|c' s] eqn:Hs; [done|]. simpl in E. injection E as -> Et. rewrite no_space_digit by done.
  cbn [chars]. change (chars (String c s)) with (c :: chars s) in *.
  destruct (Ascii.eqb_spec c "-") as [->|_]; [done|]. destruct (Ascii.eqb_spec c "+") as [->|_]; [done|]. cbn [orb].
  rewrite take_digits_all by done. cbn [app]. change (c :: chars s) with (chars (String c s)).
  assert (String.string_of_list_ascii (chars (String c s)) = String c s) as -> by apply String.string_of_list_ascii_of_string.
  rewrite <- Hs. apply parse_itoa. unfold int64_ok. lia.
Qed.
Lemma apply_concurrency_exact q n : q_get q "concurrency" = itoa n → (0 < n < 2 ^ 63)%Z → apply_concurrency q = n ∧ intQuery q "concurrency" 4 = n.
Proof.
  intros Hq Hn. unfold apply_concurrency, parseIntQuery, intQuery. rewrite Hq.
  destruct (uint_loop_itoa n ltac:(unfold max_u64; lia)) as [_ Hne]. rewrite bool_decide_eq_false_2 by done.
  rewrite scan_int_itoa by done. rewrite parse_itoa by (unfold int64_ok; lia). by rewrite (proj2 (Z.ltb_lt 0 n)) by lia.
Qed.
Lemma gc_min_age_exact q n : q_get q "min-age" = (itoa n ++ "s")%string → (0 ≤ n ≤ 9223372036)%Z → gc_min_age q = (n * second)%Z.
Proof.
  intros Hq Hn. unfold gc_min_age, parseDurationQuery. rewrite Hq. rewrite bool_decide_eq_false_2 by (by destruct (itoa n)).
  by rewrite (ParseDuration_whole n "s" second) by (unfold second; (reflexivity || lia)).
Qed.


(** The query of a repair is that of Cli.v, which the daemon reads back. *)
Lemma repair_line_asks IsPrint now random stamp host settings args fs :
  host_ok host → spells anti_entropy_flags settings args [] → set_all anti_entropy_flags settings = Some fs →
  flag_string fs "coord" = origin host →
  main IsPrint now random stamp ("anti-entropy" :: "repair" :: args) =
    Asks [MkAsk "POST" (origin host ++ repair_path (flag_bool fs "corrupt") (flag_bool fs "dry-run") (flag_bool fs "ec")
                          (flag_int fs "max-repairs") (flag_int fs "concurrency")) ""].
Proof.
  intros Hh Hsp Hset Hc. transitivity (cmdAntiEntropy ("repair" :: args)); [reflexivity|]. unfold cmdAntiEntropy, with_flags.
  assert (Forall flag_name anti_entropy_flags.*1) as Hn by (repeat constructor).
  rewrite (Parse_spelled _ _ _ _ Hsp (set_all_names _ _ _ Hn Hset) _ (same_types_refl _) _ Hset).
  rewrite Hc. choices. reflexivity.
Qed.

(** ** Lines that do something else *)
(** Flags after the positional words: the usage line of [dns domain] is refused; [dns list] asks
    the default edge; a rotation written as in the blog goes to the default edge with a kid
    nobody chose. *)
Example late_flags :
  let run := main (λ _, true) 7 (replicate 32 Byte.x00) "t" in
  run ["dns"; "domain"; "dn1:8080"; "rack1"; "--coord"; "http://coord1:9000"] = Exits 2 ∧
  run ["dns"; "add"; "dn4:8080"; "--coord"; "http://coord1:9000"] = Exits 2 ∧
  run ["dns"; "list"; "--coord"; "http://coord1:9000"] = Asks [MkAsk "GET" "http://localhost:8000/v1/admin/dns" ""] ∧
  match run ["urlkey"; "rotate"; "v2"; "--coord"; "http://coord1:9000"; "--primary"] with
  | Asks [MkAsk m url body] => m = "POST" ∧ url = "http://localhost:8000/v1/admin/urlkey/rotate" ∧
      has_prefix body (String "{" (String dquote ("kid" ++ String dquote (":" ++ String dquote ("v7" ++ String dquote ","))))) = true
  | _ => False
  end.
Proof. vm_compute. split_and!; reflexivity. Qed.
(** A base URL with a slash at its end: the views of an edge get a path the edge takes for S3. *)
Example slash_at_the_end :
  main (λ _, true) 7 [] "t" ["role"; "--edge"; "http://e1:8000/"] = Asks [MkAsk "GET" "http://e1:8000//v1/admin/role" ""] ∧
  url_parts "http://e1:8000//v1/admin/role" = Some ("http://e1:8000", "//v1/admin/role", "") ∧
  EdgeRoutes.edge_Routes (edge_mux false) "GET" "//v1/admin/role" = EdgeRoutes.HandleS3.
Proof. split_and!; vm_compute; reflexivity. Qed.
(** A kid is not escaped: another one is removed. *)
Example unescaped_kid :
  main (λ _, true) 7 [] "t" ["urlkey"; "remove"; "--kid"; "v1&x"] = Asks [MkAsk "DELETE" "http://localhost:8000/v1/admin/urlkey?kid=v1&x" ""] ∧
  q_get (ParseQuery "kid=v1&x") "kid" = "v1".
Proof. split; vm_compute; reflexivity. Qed.
