(* ===== verification/CliShow.v ===== *)
(** * What the command-line tool prints: cmd/kvfs-cli/main.go

    The answers of the maintenance commands as lines and an exit status.  An answer is the
    decoded value of its JSON; anything else ends the tool with status 1. *)
From S2P Require Import Prelude GF GoLib Cli.
#[local] Open Scope string_scope.

Definition shown : Type := list string * Z.
(** [mustHTTP], [mustHTTPJSON] and the decoding after them: [None] is a failed call. *)
Definition answered {A} (reply : option (Z * option A)) (show : A → shown) : shown :=
  match reply with
  | Some (st, Some a) => if (st =? 200)%Z then show a else ([], 1%Z)
  | _ => ([], 1%Z)
  end.
Definition num (n : nat) : string := itoa (Z.of_nat n).
(** [%v] of a list of strings. *)
Definition show_list (l : list string) : string := "[" ++ join l " " ++ "]".
(** Without [-v] the first five. *)
Definition shown_count (verbose : bool) (n : nat) : nat := if negb verbose && (5 <? n)%nat then 5 else n.
Definition more_line (verbose : bool) (limit n : nat) (more : string) : list string :=
  if negb verbose && (limit <? n)%nat then ["  ... and " ++ num (n - limit) ++ more] else [].
Definition error_lines (verbose : bool) (errs : list string) : list string :=
  if verbose && (0 <? length errs)%nat then "   errors:" :: ((λ e, "     - " ++ e) <$> errs) else [].
Definition failed_status (failed : Z) : Z := if (0 <? failed)%Z then 1 else 0.

(** ** rebalance *)
Record planMigration : Type := MkMigration
  { m_Bucket : string; m_Key : string; m_Kind : string; m_ChunkID : string; m_Size : Z; m_Actual : list string;
    m_Desired : list string; m_Missing : list string; m_Surplus : list string; m_StripeIndex : Z; m_ShardIndex : Z;
    m_OldAddr : string; m_NewAddr : string }.
Definition is_shard (m : planMigration) : bool := bool_decide (m_Kind m = "shard").
Definition printMigration (verbose : bool) (m : planMigration) : list string :=
  let name := m_Bucket m ++ "/" ++ m_Key m in
  if is_shard m then
    ("  [shard]  " ++ name ++ "  stripe=" ++ itoa (m_StripeIndex m) ++ " shard=" ++ itoa (m_ShardIndex m) ++ "  size=" ++ itoa (m_Size m) ++
     "  " ++ m_OldAddr m ++ " → " ++ m_NewAddr m) ::
    (if verbose then ["           chunk=" ++ idShort (m_ChunkID m) ++ ".."] else [])
  else if negb verbose then
    ["  [chunk]  " ++ name ++ "  missing=" ++ show_list (m_Missing m) ++ "  (currently on " ++ show_list (m_Actual m) ++ ")"]
  else
    let surplus := if (0 <? length (m_Surplus m))%nat then ["    surplus: " ++ join (m_Surplus m) ", " ++ "  (kept — never delete; GC cleans)"] else [] in
    ("  [chunk]  " ++ name ++ "  size=" ++ itoa (m_Size m) ++ "  chunk=" ++ idShort (m_ChunkID m) ++ "..") ::
    ("    actual:  " ++ join (m_Actual m) ", ") :: ("    desired: " ++ join (m_Desired m) ", ") :: ("    missing: " ++ join (m_Missing m) ", ") :: surplus.
(** The migrations that are listed, and what is said of the rest. *)
Definition listed_migrations (verbose : bool) (l : list planMigration) : list string :=
  let limit := shown_count verbose (length l) in
  let first := if verbose then [] else ["First " ++ num limit ++ " migrations:"] in
  (first ++ (take limit l ≫= printMigration verbose) ++ more_line verbose limit (length l) " more (use -v to list all)")%list.
Definition runRebalancePlan (verbose : bool) (scanned : Z) (l : list planMigration) : shown :=
  let shards := length (filter (λ m, is_shard m = true) l) in
  let chunks := length (filter (λ m, is_shard m = false) l) in
  let head := "📋 Rebalance plan — scanned " ++ itoa scanned ++ " objects, " ++ num (length l) ++ " total migrations (" ++
              num chunks ++ " chunks, " ++ num shards ++ " EC shards)" in
  match l with
  | [] => ([head; "   ✅ Cluster is in HRW-desired state. No work to do."], 0%Z)
  | _ => (head :: "" :: (listed_migrations verbose l ++ [""; "Next:  kvfs-cli rebalance --apply"])%list, 0%Z)
  end.
Record rebalance_stats : Type := MkRebalanceStats
  { rs_Scanned : Z; rs_PlanSize : Z; rs_Concurrency : Z; rs_Migrated : Z; rs_Failed : Z; rs_BytesCopied : Z; rs_Errors : list string }.
Definition runRebalanceApplyAt (verbose : bool) (s : rebalance_stats) : shown :=
  let lines := ["⚙️  Rebalance applied (concurrency=" ++ itoa (rs_Concurrency s) ++ ")"; "   scanned:      " ++ itoa (rs_Scanned s);
    "   planned:      " ++ itoa (rs_PlanSize s); "   migrated:     " ++ itoa (rs_Migrated s); "   failed:       " ++ itoa (rs_Failed s);
    "   bytes_copied: " ++ itoa (rs_BytesCopied s)] in
  ((lines ++ error_lines verbose (rs_Errors s))%list, failed_status (rs_Failed s)).

(** ** gc *)
Record sweep : Type := MkSweep { w_Addr : string; w_ChunkID : string; w_Size : Z; w_AgeSec : Z }.
Definition sweep_line (s : sweep) : string :=
  "  " ++ w_Addr s ++ "  chunk=" ++ idShort (w_ChunkID s) ++ "..  size=" ++ itoa (w_Size s) ++ "  age=" ++ itoa (w_AgeSec s) ++ "s".
Definition listed_sweeps (verbose : bool) (l : list sweep) : list string :=
  let limit := shown_count verbose (length l) in
  let first := if verbose then [] else ["First " ++ num limit ++ " sweeps:"] in
  ("" :: first ++ (sweep_line <$> take limit l) ++ more_line verbose limit (length l) " more (use -v to list all)")%list.
Definition runGCPlanAt (verbose : bool) (ageQuery : string) (scanned claimed : Z) (l : list sweep) : shown :=
  let head := ["🧹 GC plan — scanned " ++ itoa scanned ++ " on-disk chunks across all DNs";
               "   meta-claimed pairs (protected): " ++ itoa claimed; "   min-age threshold: " ++ ageQuery;
               "   sweeps proposed: " ++ num (length l)] in
  match l with
  | [] => ((head ++ ["   ✅ No surplus to clean. Cluster disk = meta intent."])%list, 0%Z)
  | _ => ((head ++ listed_sweeps verbose l ++ [""; "Next:  kvfs-cli gc --apply"])%list, 0%Z)
  end.
Record gc_stats : Type := MkGcStats
  { gs_Scanned : Z; gs_ClaimedKeys : Z; gs_PlanSize : Z; gs_Concurrency : Z; gs_MinAgeSec : Z; gs_Deleted : Z; gs_Failed : Z;
    gs_BytesFreed : Z; gs_Errors : list string }.
Definition runGCApplyAt (verbose : bool) (s : gc_stats) : shown :=
  let lines := ["🧹 GC applied (concurrency=" ++ itoa (gs_Concurrency s) ++ ", min-age=" ++ itoa (gs_MinAgeSec s) ++ "s)";
    "   scanned:      " ++ itoa (gs_Scanned s); "   claimed:      " ++ itoa (gs_ClaimedKeys s); "   planned:      " ++ itoa (gs_PlanSize s);
    "   deleted:      " ++ itoa (gs_Deleted s); "   failed:       " ++ itoa (gs_Failed s); "   bytes_freed:  " ++ itoa (gs_BytesFreed s)] in
  ((lines ++ error_lines verbose (gs_Errors s))%list, failed_status (gs_Failed s)).

(** ** repair *)
Record dead_shard : Type := MkDeadShard { d_ShardIndex : Z; d_OldAddr : string; d_NewAddr : string; d_Size : Z }.
Record stripe_repair : Type := MkStripeRepair
  { s_Bucket : string; s_Key : string; s_StripeIndex : Z; s_DeadShards : list dead_shard; s_Survivors : list (Z * string) }.
Definition stripe_lines (r : stripe_repair) : list string :=
  ("  " ++ s_Bucket r ++ "/" ++ s_Key r ++ " stripe=" ++ itoa (s_StripeIndex r) ++ "  alive=" ++ num (length (s_Survivors r)) ++
   "  dead=" ++ num (length (s_DeadShards r))) ::
  ((λ d, "    shard[" ++ itoa (d_ShardIndex d) ++ "]  size=" ++ itoa (d_Size d) ++ "  " ++ d_OldAddr d ++ " → " ++ d_NewAddr d) <$> s_DeadShards r).
Definition listed_repairs (verbose : bool) (l : list stripe_repair) : list string :=
  let limit := shown_count verbose (length l) in
  let first := "First " ++ num limit ++ " repair(s):" in
  ("" :: first :: (take limit l ≫= stripe_lines) ++ more_line verbose limit (length l) " more (use -v)" ++
   [""; "Next:  kvfs-cli repair --apply"])%list.
Definition cmdRepair_plan (verbose : bool) (scanned : Z) (repairs : list stripe_repair) (unrepairable : list (string * string * Z)) : shown :=
  let head := ["🔧 Repair plan — scanned " ++ itoa scanned ++ " EC stripe(s)"; "   repairable:    " ++ num (length repairs);
               "   unrepairable:  " ++ num (length unrepairable) ++ "  (data-loss alert if > 0)"] in
  if (length repairs =? 0)%nat && (length unrepairable =? 0)%nat then ((head ++ ["   ✅ All EC stripes healthy."])%list, 0%Z)
  else
    let lost := if (0 <? length unrepairable)%nat
                then "" :: "⚠️  UNREPAIRABLE (< K survivors — restore from backup):" ::
                     ((λ u, "   - " ++ u.1.1 ++ "/" ++ u.1.2 ++ " stripe=" ++ itoa u.2) <$> unrepairable) else [] in
    ((head ++ lost ++ (if (0 <? length repairs)%nat then listed_repairs verbose repairs else []))%list, 0%Z).
Record repair_stats : Type := MkRepairStats
  { ps_Scanned : Z; ps_RepairsPlanned : Z; ps_Unrepairable : Z; ps_Concurrency : Z; ps_Repaired : Z; ps_Failed : Z;
    ps_BytesWritten : Z; ps_Errors : list string }.
Definition cmdRepair_apply (verbose : bool) (s : repair_stats) : shown :=
  let lines := ["🔧 Repair applied (concurrency=" ++ itoa (ps_Concurrency s) ++ ")"; "   scanned:         " ++ itoa (ps_Scanned s);
    "   planned:         " ++ itoa (ps_RepairsPlanned s); "   unrepairable:    " ++ itoa (ps_Unrepairable s);
    "   repaired:        " ++ itoa (ps_Repaired s); "   failed:          " ++ itoa (ps_Failed s); "   bytes_written:   " ++ itoa (ps_BytesWritten s)] in
  ((lines ++ error_lines verbose (ps_Errors s))%list, failed_status (ps_Failed s)).

(** ** dns list: an edge's answer or a coord daemon's *)
Definition dns_lines (rich : option (list string * Z)) (flat : option (list string)) : shown :=
  match rich, flat with
  | Some (dns, quorum), _ => ((num (length dns) ++ " DN(s)  quorum_write=" ++ itoa quorum) :: ((λ a, "  " ++ a) <$> dns), 0%Z)
  | None, Some dns => ((num (length dns) ++ " DN(s) (via coord)") :: ((λ a, "  " ++ a) <$> dns), 0%Z)
  | None, None => ([], 1%Z)
  end.
(** ** wal info *)
Definition cmdWALInfo_lines (enabled : bool) (lastSeq : Z) (recent : list (Z * string * string)) : shown :=
  if negb enabled then (["WAL: DISABLED on edge (set EDGE_WAL_PATH)"], 0%Z)
  else (("WAL last seq: " ++ itoa lastSeq) :: ("recent (" ++ num (length recent) ++ " entries):") ::
        ((λ e, "  seq=" ++ itoa e.1.1 ++ "  " ++ e.1.2 ++ "  " ++ e.2) <$> recent), 0%Z).

(** ** What the tool says of a plan is the whole plan *)
Lemma shown_and_rest verbose n : (shown_count verbose n ≤ n)%nat ∧ (shown_count verbose n + (n - shown_count verbose n) = n)%nat ∧
  (verbose = true → shown_count verbose n = n) ∧ (shown_count verbose n = n ∨ shown_count verbose n = 5%nat).
Proof. unfold shown_count. destruct verbose; cbn [negb andb]; [lia|]. destruct (Nat.ltb_spec 5 n); lia. Qed.
Lemma chunks_and_shards (l : list planMigration) :
  (length (filter (λ m, is_shard m = false) l) + length (filter (λ m, is_shard m = true) l) = length l)%nat.
Proof.
  induction l as [|m l IH]; [done|]. rewrite !filter_cons. destruct (is_shard m) eqn:E.
  - rewrite (decide_False (P := true = false)) by done. rewrite decide_True by done. cbn [length]. lia.
  - rewrite decide_True by done. rewrite (decide_False (P := false = true)) by done. cbn [length]. lia.
Qed.
(** With [-v] every migration has its lines, in order. *)
Lemma verbose_lists_all l : listed_migrations true l = l ≫= printMigration true.
Proof. unfold listed_migrations, shown_count. cbn [negb andb app]. by rewrite firstn_all, app_nil_r. Qed.
Lemma apply_status (verbose : bool) s g p :
  ((runRebalanceApplyAt verbose s).2 = 1%Z ↔ (0 < rs_Failed s)%Z) ∧ ((runGCApplyAt verbose g).2 = 1%Z ↔ (0 < gs_Failed g)%Z) ∧
  ((cmdRepair_apply verbose p).2 = 1%Z ↔ (0 < ps_Failed p)%Z).
Proof.
  cbn. unfold failed_status. repeat split; intros H; repeat match goal with
    | H : context [(0 <? ?x)%Z] |- _ => destruct (Z.ltb_spec 0 x); [lia|done] | |- context [(0 <? ?x)%Z] => destruct (Z.ltb_spec 0 x); [done|lia] end.
Qed.
(** A plan with stripes that cannot be repaired ends with status 0, as a clean one does. *)
Example unrepairable_status : (cmdRepair_plan false 3 [] [("b", "k", 0%Z)]).2 = 0%Z.
Proof. reflexivity. Qed.
